(* ===== verification/_CoqProject ===== *)
-Q . S2P
Prelude.v
AhoCorasick.v
AhoCorasickTrie.v
AhoCorasickLink.v
AhoCorasickMatch.v
AhoCorasickSpec.v
GoLib.v
GoFloat.v
GoJson.v
GoJsonText.v
Sensitive.v
Aliyun.v
SensitiveSpec.v
EnergyCore.v
Accounting.v
AccountingSpec.v
Billing.v
EnergySources.v
EnergyAgg.v
EnergySpec.v
GoHash.v
GwModeration.v
GwModerationSpec.v
GwStream.v
GwStreamSpec.v
GwGuard.v
GwGuardSpec.v
GwRoute.v
GwToken.v
GwModels.v
GwModelsSpec.v
GwListing.v
GwTokenSpec.v
GwRequest.v
GwRequestSpec.v
GwChat.v
GwChatSpec.v
GwExample.v
Mirror.v
MirrorLfs.v
MirrorLfsSpec.v
MirrorManager.v
DpEnv.v
DpTask.v
DpFlow.v
DpOps.v
DpMeter.v
DpFlowSpec.v
DpRunSpec.v
DpStateSpec.v
DpSettleSpec.v
DpEnvSpec.v
DpOpsSpec.v
DpMeterSpec.v
DpExample.v
Errorx.v
AcAccess.v
AcSpec.v
AcMemberSpec.v
AcRulesSpec.v
AcExample.v
GoTime.v
GitHttp.v
GitHttpSpec.v
GitRulesSpec.v
GitGapSpec.v
GitExample.v
AtToken.v
AtTokenSpec.v
AtAuth.v
AtAuthSpec.v
AtGapSpec.v
AtExample.v
TgTag.v
TgSpec.v
TgReadme.v
RtArch.v
RtModel.v
RtSpec.v
RtTags.v
