(* ===== verification/Prelude.v ===== *)
(** * aitra-server: a verification library

    aitra-server is the server of a model hub: repositories of models and
    data sets, their deployment, the metering and billing of what they use,
    moderation of content, an OpenAI-compatible gateway to the deployed and to
    external models, the mirroring of repositories from other hubs, and the
    measurement of the energy inference takes. The library models the core
    of these and proves what it guarantees, and, where the code falls short,
    exactly how. Sources are named below under src/.

    ** Parts

    Sensitive words (builder/sensitive). [AhoCorasick] is the matcher of
    internal/ahocorasick: an arena of nodes whose pointers are indices, built
    by [buildTrie] (insertion, then the breadth-first pass that sets fail and
    suffix pointers and completes the fail tables) and searched by [Match],
    its two thread-safe variants and [Contains]. [AhoCorasickTrie] (the trie),
    [AhoCorasickLink] (the pass) and [AhoCorasickMatch] (the search) carry the
    invariants, [AhoCorasickSpec] the theorems. [Sensitive] is the checker
    over it (aho_corasick.go), the chain of checkers, mutable checkers and
    the loaders that refresh them through observers; [Aliyun] is the checker
    over the cloud service (aliyun_green.go); [SensitiveSpec] has their
    theorems. Checkers live in a heap, since mutable checkers share them.

    Accounting (accounting/, with the stores under builder/store/database).
    [Accounting] is the consumer of metering messages: [handleReadMsgs]
    over [handleMessages], [handleMsgData], [logAndVerifyEvent], the fee
    publication and the dead-letter queue. [Billing] is the GPU billing cycle
    (user/billing/gpu_billing.go) with its theorems; [AccountingSpec].

    Energy (energy/). [EnergyCore]: records, derivations in binary64, the
    tracker of variation, and the registries of sources and backends,
    and the in-memory and SQLite backends, with the class
    [StorageBackend] of operations and [StorageLaws] of what a backend
    promises, and the proofs that both keep it. [EnergySources]: the
    Prometheus client and sources, the metering-ledger source, the lister of
    deployments. [EnergyAgg]: one measurement cycle, against the classes, so
    [EnergySpec] proves it for any backend.

    Gateway (aigateway/). [GwModeration] (component/moderation.go): prompts,
    streamed chunks and whole answers checked by a remote service through a
    Redis cache, behind the class [Moderation]; [GwStream] (handler/): the
    event-stream decoder, the Anthropic converters and the two response
    writers, over any [Moderation]; [GwRoute]: provider keys, the attempts over
    a model's endpoints, model ids; [GwGuard]: the rate limiter with its Lua
    script, and the health checker (healthcheck/). Their theorems are in
    [GwModerationSpec], [GwStreamSpec] and [GwGuardSpec].
    [GwModels] (types/openai.go, component/openai.go and the stores behind
    them): models, their two JSON forms ([GoJsonText] has the strings and
    numbers of these), their listing, the cache of them in a Redis hash, paging,
    metering and the balance check; [GwToken] (token/): tokenizers and usage
    counters; [GwRequest] (handler/requests.go and the response cache):
    requests with fields the gateway does not know; [GwChat] (handler/openai.go):
    the chat and embedding handlers, over all of these. [GwModelsSpec],
    [GwListing], [GwTokenSpec], [GwRequestSpec], [GwChatSpec]; the concrete runs
    of their witnesses are in [GwExample].

    Mirrors (mirror/, with the stores under builder/store/database).
    [Mirror]: the status machine of mirror tasks, their table, and a round of
    the worker that syncs a repository (reposyncer/repo.go). [MirrorLfs]: the
    worker that fetches its large files (lfssyncer/lfs.go), the table of LFS
    objects and [SyncNow] of component/manager.go. [MirrorManager]: the manager
    of LFS workers (manager/lfs_worker_manager.go), a step relation over its
    goroutines, channels and mutex. The theorems follow in the files, those on
    large files in [MirrorLfsSpec].

    Deployments (builder/deploy, api/workflow, component/executors and the
    stores behind them). [DpEnv]: names of services, the hardware request and
    the environment of a container. [DpTask]: the rows and the store. [DpFlow]:
    the workflow that builds and runs a deployment, whose state is a
    [wf_state] moved by [DeployWorkflow] with what wakes it (or by [lost], an
    attempt whose end is not learned), the client of the runner with its retries
    ([post_run]), and the events the image builder and the runner send back. [DpOps]: creating, starting,
    stopping and deleting. [DpMeter]: one cycle of metering what runs, whose
    events are those [Accounting] consumes. [DpFlowSpec] is one walk through the
    activities for any property kept by their steps; on it rest [DpRunSpec],
    [DpStateSpec] and [DpSettleSpec]; [DpEnvSpec], [DpOpsSpec], [DpMeterSpec]
    are about the other files, and [DpExample] has the concrete worlds of the
    witnesses.

    Access (user/component/member.go, component/repo.go, common/errorx and
    the stores behind them). [Errorx]: errors with their codes and wrapping,
    and what a response tells of one. [AcAccess]: users,
    namespaces, organizations and their members in a record any world may hold
    (class [Access]); the operations on members; the checks of a user's access
    to a namespace and a repository. [AcSpec]: what reading the tables gives;
    [AcMemberSpec]: every member operation is a sequence of guarded changes
    ([member_step], the specification that [operation_is_steps] refines to);
    [AcRulesSpec]: the theorems; [AcExample]: their witnesses.

    Git over HTTP and large files (component/git_http.go, api/handler/git_http.go,
    builder/store/s3 and the stores behind them). [GitHttp]: fetching, pushing,
    the batch interface of Git LFS with its signed addresses, uploads in parts
    ([parts_loop], whose fuel [parts_fuel] is one more than the parts there
    are, by [gives_parts]), downloads and locks, over a [git_world] that has the
    tables of [AcAccess], locks, objects, the bucket and what the git server
    was asked. [GitHttpSpec]: every operation is a sequence of guarded changes
    ([git_step]); [GitRulesSpec]: what this keeps in every sequence of requests;
    [GitGapSpec]: undisturbed runs; [GitExample]: the
    witnesses.

    Access tokens and authentication (user/component/access_token.go and its
    handlers and store; api/middleware and api/httpbase/user.go). [AtToken]:
    creating, refreshing, deleting and checking tokens over a [token_world].
    [AtTokenSpec]: every operation of a user is one change of the user's own
    tokens ([token_change]), and what the changes keep. [AtAuth]: the
    middleware that puts a user into a request ([Authenticator], git's
    [GetCurrentUserFromHeader]), the guards after it and the order the router
    runs them in. [AtAuthSpec]: what a user name in a request rests on;
    [AtGapSpec]: undisturbed runs, and tokens together with the
    operations of [GitHttp], as the router mounts them ([git_request]), and the
    key check of [GwChat]; [AtExample]: the
    witnesses.

    Tags (component/tag.go, component/tagparser, component/callback and the
    stores behind them). [TgTag]: the table of tags, the rows that count them
    for repositories, what front matter and file names give, the component's
    operations, and [UpdateRepoInfos], what a push does to the tags. [TgSpec]:
    every operation is a walk along guarded changes ([tag_step]), whatever
    fails ([goes]); what the changes keep; the counts of library files as those
    of the files commits add and remove ([counting] and [tallied], the
    specification pushes refine to).
    [TgReadme]: READMEs that are accepted and refused, and the witnesses.

    Runtime frameworks (component/runtime_architecture.go and the stores behind
    it). [RtArch]: the tables of frameworks and architectures, which start-up
    fills from the engine files ([UpdateRuntimeFrameworkAndArch]), and what
    they make of a model over the world of tags ([UpdateModelMetadata],
    [UpdateRuntimeFrameworkTag], scans). [RtModel]: what the files of a model
    tell of it (common/utils/common/model_info.go): headers of safetensors
    files read over HTTP ranges, the count of their parameters, the estimates of
    memory, config.json and GGUF files. [RtSpec]: what a file of engines makes
    of the tables, seen as a map from images ([view]). [RtTags]: what the tables
    make of tags, and pushes ([TgTag]) with this component in place of what
    [TgSpec] assumes of it.

    Go (no part of the server): this file has the monad of calls that may
    fail or panic and machine-width integers; [GoLib] strings, UTF-8,
    strconv, and the monad [io] of stateful calls with its rules [wp] (what
    holds when a run ends well) and [moves] (what a run does to the world,
    however it ends);
    [GoFloat] binary64 arithmetic and formatting; [GoJson] encoding/json;
    [GoHash] crypto/md5, crypto/sha256 and path; [GoTime] RFC 3339 times and
    crypto/hmac, with the round trip of printed times.

    ** How the code is modelled

    A method is a function of the same name (with its component's prefix where
    two clash) from the state it reads to the state it leaves and its result.
    An [outcome] is a value, an error or a panic (nil dereference, index or
    slice bounds). Effects on the database, Redis, queues and remote services
    go through [io] over a world record; the class [Faulty] gives a world the
    list of which next calls fail, so a theorem for all worlds holds for
    every placement of failures, and one with an empty list is about the
    undisturbed run. Integers that can wrap are [Z] with the wrap written out
    ([u64], [i64]); bytes are [list ascii]; floats are the binary64 of
    SpecFloat. Pointers into shared buffers and arenas are modelled where they
    are aliased: matcher nodes, the observers' checkers, the decoder's buffer.

    Recursion follows the data; the exceptions carry fuel that is the length
    of the input they consume ([Split], [runes], [value], [windows],
    [complete_events]) or the number of nodes of the arena (the breadth-first
    pass), with lemmas that this is enough ([complete_events_fuel] and the
    termination results of [AhoCorasickLink]); one page more than the rows of
    the table ([pages], [external_models_listed]); a batch for each model and one
    more ([scan_fuel_enough]); and thirteen digits, enough
    for 64 bits in base 36 ([numberToString], [service_name_roundtrip]). Searches
    of the matcher are structural on the text. A workflow has no end of its
    own: [workflow_settles] bounds its steps by nine once its deadlines have
    passed. An older workflow that a new one cancels is woken by [CtxDone] at
    any step.

    Not modelled, and parameters where used: HTTP, SQL and Redis servers
    beyond the calls made of them, the JSON forms of the OpenAI library's
    types, git, file transfers, the builder and the runner behind their HTTP
    interfaces, compression, URL parsing, Unicode case mapping beyond ASCII, clocks
    (inputs), logging, tracing. Goroutines appear as steps in any interleaving
    (the LFS worker manager), as an arbitrary order of their effects (health
    checks) or are left out (tickers, the goroutine a
    timed-out attempt abandons).

    ** What is proved

    - Matching: the search finds exactly the dictionary words that occur, at
      their first place ([MatchThreadSafeWithPos_correct], [Contains_correct],
      [match_variants_agree]).
    - Checkers: verdicts of the checker and of the chain, reloads reaching all
      observers, no loss in splitting a text ([ac_checker_correct],
      [chain_first_verdict], [reload_reaches_observers],
      [SplitTasks_partition]).
    - Accounting and billing under arbitrary failures: no checked event is
      recorded twice, each message is settled once, a cycle charges each
      deployment at most once and settles; and where a repetition does charge
      twice ([checked_events_recorded_once], [message_handled_once],
      [unchecked_redelivery_repeats], [cycle_charges_at_most_once],
      [cycle_settles], [update_failure_charges_again]).
    - Energy: a cycle stores what it publishes unless the backend refuses it or
      it is cut short, the tracker is a window of
      the last samples, both backends report the same chargebacks; the pod
      selector selects nothing ([cycle_publishes_and_persists],
      [tracker_holds_last_samples], [backends_agree],
      [pod_selector_matches_no_pod]).
    - Gateway, moderation: what a pass rests on where the check is not bypassed,
      and how the cache can be made to give one ([prompts_pass_only_vouched], [digest_prompt_poisons_cache]).
    - Gateway, answers: decoding does not depend on how a stream is cut, a
      flagged chunk ends it, a body is answered once; the limits of each
      ([decoder_ignores_chunking], [raw_bytes_overwritten],
      [flagged_chunk_ends_stream], [body_in_pieces],
      [moderation_outage_breaks_stream],
      [converted_stream_unmoderated_uncounted]).
    - Gateway, routing and guards: order of attempts and what they leak, model
      ids, the sliding window of the rate limiter while Redis answers, health rounds
      ([fallback_order], [fallback_leaks_api_key], [model_id_roundtrip],
      [rate_limit_sliding_window], [retry_after_is_one],
      [health_round_never_disables]).
    - Gateway, models: a resolved model was listed, for this user or another;
      the providers' models are complete and their listing ends; pages, and
      what the cache loses ([resolved_model_was_listed],
      [saved_models_serve_anyone], [external_models_complete],
      [external_models_listed], [pages_partition],
      [cached_usage_unattributed]).
    - Gateway, requests: what goes upstream was checked and what is refused
      sends nothing; fields are handed on; usage is a reference count; what the
      response cache takes for the same request
      ([forwarded_only_when_checked], [refused_sends_nothing],
      [forwarded_fields], [chat_usage_is_reference],
      [cached_reply_ignores_the_rest]).
    - Mirrors: a round settles its task and repository alike and touches no
      other, unless a rate limit makes the task stuck ([repo_round_settles],
      [retryable_failure_stuck]); a sync stores all files that can be had, in
      groups that lose none, but ends the same when files fail, and forgets
      those it was interrupted before ([sync_stores_all],
      [pointer_groups_partition], [failed_downloads_finish],
      [failed_sync_forgets_files]); the number of workers is bounded until
      one is stopped ([workers_bounded], [stops_exceed_limit]).
    - Deployments, workflow: a run task starts at most three workflows, each of
      which asks the runner at most twice in each of three attempts, replaced
      tasks touch no deployment, builds only move on, a workflow comes to rest
      ([runner_asked_bounded],
      [superseded_task_leaves_deployments], [build_events_move_on],
      [workflow_settles]); and what retries and reordered events hide
      ([refused_run_reported_done], [early_success_times_out]).
    - Deployments, data: names give back their numbers, the platform's
      environment wins, the node list doubles ([service_name_roundtrip],
      [platform_env_wins], [node_list_doubles]).
    - Deployments, operations and metering: running ones are restarted, failed
      stops are recorded as stops ([start_restarts_running],
      [failed_stop_marks_stopped]); what runs is metered once in the ledger
      ([running_deployments_metered_once]).

    - Access: an organization keeps an administrator and only administrators
      change others' membership, but any member may become one
      ([orgs_keep_an_admin], [member_changes_need_admin],
      [any_member_becomes_admin]); permissions are membership and agree with
      each other, except that for writing and administering a namespace is asked
      for as the request spells it ([permission_is_membership], [access_is_earned], [permissions_agree],
      [case_variant_takes_over]); the code of a response is that of the innermost custom error, of wrapped and
      joined ones, and is read back ([error_code_survives]).
    - Git and large files: requests are served only to those entitled to them -
      verifications and completions to whom has the object's name or the
      server's signature - and write only for writers ([served_only_if_entitled],
      [git_writes_need_write]); locks stay well formed and are released by
      owners or by force, also across repositories ([locks_stay_well_formed],
      [lock_stays], [force_unlock_crosses_repos], [first_page_repeats]); uploads
      are what their names say, unless they come in parts, of which that is not
      checked, and whose addresses cover the file and can be completed for three
      days ([uploads_match_their_oid], [completed_parts_are_unchecked],
      [parts_cover_file], [handed_out_address_completes]); what is handed out
      unproven, miscounted or answered with the wrong status
      ([verify_hands_out_unproven], [clones_counted_once],
      [hidden_repo_answers_500]).
    - Tokens: their table stays well formed and others leave a user's tokens
      alone; a token that is made checks, one that is refreshed replaces the
      old ([tokens_stay_well_formed], [others_leave_tokens],
      [created_token_checks], [refreshed_token_replaces]); a user name rests on
      a credential, and changes over git on a git token of a user who may write,
      under the mounts for other hubs' kits on any credential of such a user
      ([user_needs_credential], [git_changes_need_credential]), where only the
      batch interface works ([kits_only_batch]); the restrictions
      that do not hold ([mirror_token_writes], [refresh_lifts_restriction],
      [expired_token_authenticates], [closed_account_named_to_git],
      [failed_refresh_panics]).
    - Tags: the table stays consistent in every history, the counts of library
      files follow the files of the commits, up to a README that is refused, a
      README sets the tags it lists, unless it lists excluded ones ([tags_stay_consistent], [library_tags_count_files],
      [readme_sets_listed_tags], [readme_with_excluded_tag_refused]); a push
      never tells what failed ([push_never_fails]).
    - Runtime frameworks: a newer engine file is settled by one run and then
      changes nothing, unless its architectures fail to be stored
      ([engine_file_settles], [failed_archs_never_come]); a model's runtime
      tags count the frameworks that serve it, if any does
      ([runtime_tags_follow_frames]); the
      files of a model are read back and counted, in whatever order
      ([model_info_counts_weights]), and only a config of null makes their
      readers panic ([readers_panic]).

    ** Plan

    Next: the update of deployments, the lists of frameworks for a deployment,
    and the repository sync of mirrors over git. *)
From Stdlib Require Export Ascii.
From stdpp Require Export base gmap strings fin_maps option numbers list.

(** Byte sequences: Go's [[]byte] and the content of a Go [string]. *)
Abbreviation bytes := (list ascii).

(** A string literal as the bytes Go stores for it. *)
Definition bs (s : string) : bytes := String.list_ascii_of_string s.

(** Go's [(T, error)] return values, with the error as a value of [E]. *)
Inductive result (A E : Type) : Type :=
  | Ok (a : A)
  | Err (e : E).
Arguments Ok {A E} _.
Arguments Err {A E} _.

(** What a Go call that may panic ends with: a value, an error value of [E],
    or a panic (nil dereference, index or slice out of range). *)
Inductive outcome (E A : Type) : Type :=
  | Ret (a : A)
  | Fail (e : E)
  | Panic.
Arguments Ret {E A} _.
Arguments Fail {E A} _.
Arguments Panic {E A}.

#[export] Instance outcome_ret {E} : MRet (outcome E) := λ A, Ret.
#[export] Instance outcome_bind {E} : MBind (outcome E) := λ A B f m,
  match m with Ret a => f a | Fail e => Fail e | Panic => Panic end.

(** [*p]: a nil pointer panics. *)
Definition deref_ptr {E A} (p : option A) : outcome E A :=
  match p with Some a => Ret a | None => Panic end.

(** [if err != nil { return nil, err }] *)
Definition try_ {E A} (r : result A E) : outcome E A :=
  match r with Ok a => Ret a | Err e => Fail e end.

(** ** Machine integers *)

(** [uint64] arithmetic wraps modulo 2^64. *)
Definition u64 (z : Z) : Z := (z `mod` 2 ^ 64)%Z.

(** [int64] (and [int] on 64-bit targets) wraps into [-2^63, 2^63). *)
Definition i64 (z : Z) : Z := ((z + 2 ^ 63) `mod` 2 ^ 64 - 2 ^ 63)%Z.

Lemma u64_add_l a b : u64 (u64 a + b) = u64 (a + b).
Proof. unfold u64. by rewrite Zplus_mod_idemp_l. Qed.
Lemma u64_add_r a b : u64 (a + u64 b) = u64 (a + b).
Proof. unfold u64. by rewrite Zplus_mod_idemp_r. Qed.
Lemma u64_small z : (0 ≤ z < 2 ^ 64)%Z → u64 z = z.
Proof. apply Z.mod_small. Qed.
Lemma i64_small z : (- 2 ^ 63 ≤ z < 2 ^ 63)%Z → i64 z = z.
Proof. unfold i64, u64. intros. rewrite Z.mod_small; lia. Qed.
Section i64.
#[local] Open Scope Z_scope.
Lemma i64_shift z k : i64 (z + k * 2 ^ 64) = i64 z.
Proof. unfold i64. f_equal. rewrite <- (Z.mod_add (z + 2 ^ 63) k) by lia. f_equal. lia. Qed.
Lemma i64_away z : ∃ k, i64 z = z + k * 2 ^ 64.
Proof. exists (- ((z + 2 ^ 63) / 2 ^ 64)). unfold i64. rewrite Z.mod_eq by lia. lia. Qed.
Lemma i64_add_l a b : i64 (i64 a + b) = i64 (a + b).
Proof. destruct (i64_away a) as [k ->]. rewrite <- (i64_shift (a + b) k). f_equal. lia. Qed.
Lemma i64_add_r a b : i64 (a + i64 b) = i64 (a + b).
Proof. by rewrite Z.add_comm, i64_add_l, Z.add_comm. Qed.
Lemma i64_mul_l a b : i64 (i64 a * b) = i64 (a * b).
Proof. destruct (i64_away a) as [k ->]. rewrite <- (i64_shift (a * b) (k * b)). f_equal. lia. Qed.
End i64.
Lemma u64_range z : (0 ≤ u64 z < 2 ^ 64)%Z.
Proof. by apply Z.mod_pos_bound. Qed.
Lemma u64_i64 z : u64 (i64 z) = u64 z.
Proof.
  unfold u64, i64. rewrite Zminus_mod_idemp_l. f_equal. lia.
Qed.

(** ** Infixes and longest suffixes *)

Definition infix_of {A} (w t : list A) : Prop := ∃ p s, t = p ++ w ++ s.

(** [s] is the longest suffix of [t] that satisfies [P]. *)
Definition longest_suffix {A} (P : list A → Prop) (t s : list A) : Prop :=
  s `suffix_of` t ∧ P s ∧ ∀ s', s' `suffix_of` t → P s' → s' `suffix_of` s.

Create HintDb aitra.

Section lists.
Context {A : Type}.
Implicit Types l k t s w : list A.

Lemma suffix_snoc_cases l t c :
  l `suffix_of` t ++ [c] → l = [] ∨ ∃ l', l = l' ++ [c] ∧ l' `suffix_of` t.
Proof.
  destruct l as [|x l _] using rev_ind; [by left|].
  intros Hs. right. exists l.
  rewrite (suffix_snoc_inv_1 _ _ _ _ Hs).
  split; [done|]. by eapply suffix_snoc_inv_2.
Qed.

Lemma infix_suffix_prefix w t :
  infix_of w t ↔ ∃ p, p `prefix_of` t ∧ w `suffix_of` p.
Proof.
  split.
  - intros (p & s & ->). exists (p ++ w). split; [|by exists p].
    exists s. by rewrite (assoc_L (++)).
  - intros (p & [s ->] & [q ->]). exists q, s. by rewrite (assoc_L (++)).
Qed.

Lemma longest_suffix_unique (P : list A → Prop) t s1 s2 :
  longest_suffix P t s1 → longest_suffix P t s2 → s1 = s2.
Proof.
  intros (Hs1 & HP1 & Hm1) (Hs2 & HP2 & Hm2).
  apply suffix_length_eq; [by apply Hm2|].
  by apply suffix_length, Hm1.
Qed.

Lemma longest_suffix_refl (P : list A → Prop) s : P s → longest_suffix P s s.
Proof. by intros HP; split_and!. Qed.

#[export] Instance longest_suffix_proper :
  Proper (pointwise_relation _ iff ==> eq ==> eq ==> iff) (@longest_suffix A).
Proof.
  intros P Q HPQ t ? <- s ? <-. unfold longest_suffix. rewrite (HPQ s).
  split; intros (? & ? & Hm); split_and!; try done; intros s' ??; apply Hm; try done; by apply HPQ.
Qed.

Lemma suffix_tail_cases w x l :
  w `suffix_of` x :: l → w = x :: l ∨ w `suffix_of` l.
Proof.
  intros [p Hp]. destruct p as [|y p]; simpl in Hp.
  - left. done.
  - right. injection Hp as _ ->. by exists p.
Qed.
End lists.

#[export] Hint Resolve suffix_nil suffix_snoc suffix_cons_r prefix_nil longest_suffix_refl : aitra.

(** A filter nothing, or everything, passes. *)
Lemma filter_all_out {A} (P : A → Prop) `{∀ x, Decision (P x)} (l : list A) : (∀ x, x ∈ l → ¬ P x) → filter P l = [].
Proof. induction l; intros Hl; [done|]. rewrite filter_cons_False by (apply Hl; left). apply IHl. set_solver. Qed.
Lemma filter_all_in {A} (P : A → Prop) `{∀ x, Decision (P x)} (l : list A) : (∀ x, x ∈ l → P x) → filter P l = l.
Proof. induction l; intros Hl; [done|]. rewrite filter_cons_True by (apply Hl; left). f_equal. apply IHl. set_solver. Qed.

(** Rows of a table have keys of their own. *)
Lemma filter_swap {A} (P Q : A → Prop) `{!∀ x, Decision (P x), !∀ x, Decision (Q x)} (l : list A) : filter P (filter Q l) = filter Q (filter P l).
Proof. rewrite !list_filter_filter. apply list_filter_iff. intros x. by rewrite (comm (∧)). Qed.
Lemma Forall_filtered {A} (P Q : A → Prop) `{!∀ x, Decision (Q x)} (l : list A) : Forall P l → Forall P (filter Q l).
Proof. rewrite !Forall_forall. intros HP x (_ & Hx)%list_elem_of_filter. auto. Qed.
Lemma keyed_eq {A B} (f : A → B) (l : list A) x y : NoDup (f <$> l) → x ∈ l → y ∈ l → f x = f y → x = y.
Proof.
  intros Hnd [i Hi]%list_elem_of_lookup_1 [j Hj]%list_elem_of_lookup_1 Heq. assert (i = j) as <-; [|congruence].
  eapply (NoDup_lookup _ _ _ (f x) Hnd); rewrite list_lookup_fmap; [by rewrite Hi|by rewrite Hj, Heq].
Qed.

(** One step of the option monad, without unfolding anything else. *)
Lemma bind_some {A B} (x : A) (f : A → option B) : (Some x ≫= f) = f x.
Proof. done. Qed.

(** Case analysis on the innermost [match] of the goal or of a hypothesis,
    keeping the equation. *)
Ltac case_on x := let E := fresh "E" in destruct x eqn:E; simplify_eq/=.
Ltac inv_bind H :=
  repeat match type of H with
  | mbind _ ?m = Some _ =>
      let x := fresh "x" in let E := fresh "Ebind" in
      destruct m as [x|] eqn:E; [simpl in H|discriminate H]
  | (match ?m with Some _ => _ | None => None end) = Some _ =>
      let x := fresh "x" in let E := fresh "Ebind" in
      destruct m as [x|] eqn:E; [simpl in H|discriminate H]
  end.
