(* ===== verification/AhoCorasick.v ===== *)
(** The Aho-Corasick automaton of builder/sensitive/internal/ahocorasick:
    the arena of trie nodes, its construction (trie, breadth-first linking of
    the [fail] and [suffix] pointers, the [fails] tables) and the matching
    loops, with their correctness against the naive "does some dictionary
    word occur in the text" specification. *)
From S2P Require Import Prelude.

(** ** Data *)

(** A pointer into the preallocated arena [m.trie]; [None] is [nil]. *)
Abbreviation ptr := nat (only parsing).

Record node := mk_node {
  n_root : bool;
  n_b : bytes;
  n_output : bool;
  n_index : nat;
  n_counter : Z;
  n_child : gmap ascii ptr;
  n_fails : gmap ascii ptr;
  n_suffix : option ptr;
  n_fail : option ptr;
}.

(** The zero value [make([]node, max)] fills the arena with. *)
Definition zero_node : node := mk_node false [] false 0 0 ∅ ∅ None None.

Record Matcher := mk_matcher {
  counter : Z;
  trie : list node;
  extent : nat;
  root : option ptr;
}.

Definition new_matcher : Matcher := mk_matcher 0 [] 0 None.

(** Field updates of a node. *)
Definition set_root (n : node) : node :=
  mk_node true (n_b n) (n_output n) (n_index n) (n_counter n) (n_child n) (n_fails n) (n_suffix n) (n_fail n).
Definition set_b (b : bytes) (n : node) : node :=
  mk_node (n_root n) b (n_output n) (n_index n) (n_counter n) (n_child n) (n_fails n) (n_suffix n) (n_fail n).
Definition set_output (i : nat) (n : node) : node :=
  mk_node (n_root n) (n_b n) true i (n_counter n) (n_child n) (n_fails n) (n_suffix n) (n_fail n).
Definition set_counter (z : Z) (n : node) : node :=
  mk_node (n_root n) (n_b n) (n_output n) (n_index n) z (n_child n) (n_fails n) (n_suffix n) (n_fail n).
Definition set_child (c : ascii) (p : ptr) (n : node) : node :=
  mk_node (n_root n) (n_b n) (n_output n) (n_index n) (n_counter n) (<[c:=p]> (n_child n)) (n_fails n) (n_suffix n) (n_fail n).
Definition set_fails (c : ascii) (p : ptr) (n : node) : node :=
  mk_node (n_root n) (n_b n) (n_output n) (n_index n) (n_counter n) (n_child n) (<[c:=p]> (n_fails n)) (n_suffix n) (n_fail n).
Definition set_suffix (p : option ptr) (n : node) : node :=
  mk_node (n_root n) (n_b n) (n_output n) (n_index n) (n_counter n) (n_child n) (n_fails n) p (n_fail n).
Definition set_fail (p : option ptr) (n : node) : node :=
  mk_node (n_root n) (n_b n) (n_output n) (n_index n) (n_counter n) (n_child n) (n_fails n) (n_suffix n) p.

Definition with_trie (m : Matcher) (t : list node) : Matcher :=
  mk_matcher (counter m) t (extent m) (root m).

(** [*p]: a Go pointer into the arena is always in range. *)
Definition deref (t : list node) (p : ptr) : node := default zero_node (t !! p).

(** [p.field = v]. *)
Definition store (f : node → node) (p : ptr) (t : list node) : list node := alter f p t.

(** ** Operations *)

Fixpoint findBlice_from (t : list node) (n : option ptr) (b : bytes) : option ptr :=
  match n, b with
  | Some p, c :: b' => findBlice_from t (n_child (deref t p) !! c) b'
  | _, _ => n
  end.

(** [m.findBlice(b)] *)
Definition findBlice (t : list node) (b : bytes) : option ptr := findBlice_from t (Some 0) b.

(** [None] is the out-of-range panic of [&m.trie[m.extent-1]]. *)
Definition getFreeNode (m : Matcher) : option (ptr * Matcher) :=
  let m1 := mk_matcher (counter m) (trie m) (S (extent m)) (root m) in
  let m2 := if decide (extent m1 = 1)
            then mk_matcher (counter m1) (store set_root 0 (trie m1)) (extent m1) (Some 0)
            else m1 in
  if decide (extent m2 - 1 < length (trie m2)) then Some (extent m2 - 1, m2) else None.

(** The inner loop over the bytes of one word; [n] is the current node and
    [path] the bytes already consumed. *)
Fixpoint insert_bytes (m : Matcher) (n : ptr) (path rest : bytes) : option (ptr * Matcher) :=
  match rest with
  | [] => Some (n, m)
  | b :: rest' =>
      let path' := path ++ [b] in
      match n_child (deref (trie m) n) !! b with
      | Some c => insert_bytes m c path' rest'
      | None =>
          '(c, m1) ← getFreeNode m;
          let t1 := store (set_child b c) n (trie m1) in
          let t2 := store (set_b path') c t1 in
          let t3 := if decide (length path' = 1) then store (set_fail (root m1)) c t2 else t2 in
          let t4 := store (set_suffix (root m1)) c t3 in
          insert_bytes (with_trie m1 t4) c path' rest'
      end
  end.

(** The outer loop over the dictionary; [i] is the index of the first word. *)
Fixpoint insert_words (m : Matcher) (i : nat) (dict : list bytes) : option Matcher :=
  match dict with
  | [] => Some m
  | blice :: dict' =>
      r ← root m;
      '(n, m1) ← insert_bytes m r [] blice;
      insert_words (with_trie m1 (store (set_output i) n (trie m1))) (S i) dict'
  end.

(** [for j := 1; j < len(c.b); j++ { c.fail = find(c.b[j:]); if c.fail != nil break }] *)
Fixpoint search_fail (t : list node) (cur : option ptr) (tail : bytes) : option ptr :=
  match tail with
  | [] => cur
  | _ :: tail' =>
      match findBlice t tail with
      | Some p => Some p
      | None => search_fail t None tail'
      end
  end.

(** The same loop for [c.suffix], which also asks for [s.output]. *)
Fixpoint search_suffix (t : list node) (cur : option ptr) (tail : bytes) : option ptr :=
  match tail with
  | [] => cur
  | _ :: tail' =>
      match findBlice t tail with
      | Some s => if n_output (deref t s) then Some s else search_suffix t cur tail'
      | None => search_suffix t cur tail'
      end
  end.

(** The body of the linking loop for one child [c]. *)
Definition link_node (rt : option ptr) (t : list node) (c : ptr) : list node :=
  let tail := tl (n_b (deref t c)) in
  let f := search_fail t (n_fail (deref t c)) tail in
  let t1 := store (set_fail (match f with None => rt | Some p => Some p end)) c t in
  store (set_suffix (search_suffix t1 (n_suffix (deref t1 c)) tail)) c t1.

(** [for i := 0; i < 256; i++] as the bytes in increasing order. *)
Definition all_bytes : list ascii := ascii_of_nat <$> seq 0 256.

Definition link_child (rt : option ptr) (n : ptr) (st : list node * list ptr) (c : ascii) :
    list node * list ptr :=
  match n_child (deref st.1 n) !! c with
  | Some p => (link_node rt st.1 p, st.2 ++ [p])
  | None => st
  end.

Definition link_children (rt : option ptr) (n : ptr) (t : list node) (q : list ptr) :
    list node * list ptr :=
  foldl (link_child rt n) (t, q) all_bytes.

(** The breadth-first loop; [None] when the fuel runs out. *)
Fixpoint link_bfs (fuel : nat) (rt : option ptr) (t : list node) (q : list ptr) : option (list node) :=
  match q with
  | [] => Some t
  | n :: q' =>
      match fuel with
      | 0 => None
      | S fuel' => let '(t', q'') := link_children rt n t q' in link_bfs fuel' rt t' q''
      end
  end.

(** [for n.child[c] == nil && !n.root { n = n.fail }]; [None] is a [nil]
    dereference or the end of the fuel.  Every step shortens the blice, so the
    length of the first one is enough fuel. *)
Fixpoint follow_fail (fuel : nat) (t : list node) (n : ptr) (c : ascii) : option ptr :=
  match n_child (deref t n) !! c with
  | Some _ => Some n
  | None =>
      if n_root (deref t n) then Some n
      else match fuel with
           | 0 => None
           | S fuel' => f ← n_fail (deref t n); follow_fail fuel' t f c
           end
  end.

Fixpoint fill_row (t : list node) (i : ptr) (cs : list ascii) : option (list node) :=
  match cs with
  | [] => Some t
  | c :: cs' =>
      n ← follow_fail (length (n_b (deref t i))) t i c;
      fill_row (store (set_fails c n) i t) i cs'
  end.

Fixpoint fill_fails (t : list node) (ps : list ptr) : option (list node) :=
  match ps with
  | [] => Some t
  | i :: ps' => t' ← fill_row t i all_bytes; fill_fails t' ps'
  end.

(** [max := 1; for ... { max += len(blice) }] *)
Definition max_nodes (dict : list bytes) : nat := 1 + sum_list (length <$> dict).

Definition buildTrie (m : Matcher) (dict : list bytes) : option Matcher :=
  let m0 := with_trie m (replicate (max_nodes dict) zero_node) in
  '(_, m1) ← getFreeNode m0;
  m2 ← insert_words m1 0 dict;
  r ← root m2;
  t3 ← link_bfs (S (extent m2)) (root m2) (trie m2) [r];
  t4 ← fill_fails t3 (seq 0 (extent m2));
  Some (with_trie m2 (take (extent m2) t4)).

Definition NewMatcher (dict : list bytes) : option Matcher := buildTrie new_matcher dict.

Definition NewStringMatcher (dict : list string) : option Matcher :=
  buildTrie new_matcher (bs <$> dict).

(** ** Matching *)

(** The position a hit is reported at. *)
Record MatchResultWithPos := mk_pos {
  Hint_ : nat;
  StartPos : Z;
  EndPos : Z;
}.

(** [match] and [matchWithPos] run the same loop; they differ in the value
    [hit i f] appended for the node [f] at position [i].  [unique] is the
    closure both take, over a state of type [S]. *)
Section matching.
Context {St H : Type} (unique : St → ptr → bool * St) (hit : list node → Z → ptr → H).

(** [for !f.suffix.root { f = f.suffix; if unique(f) {...} else { break } }] *)
Fixpoint suffix_hits (fuel : nat) (t : list node) (i : Z) (f : ptr) (s : St) (hits : list H) :
    option (St * list H) :=
  match fuel with
  | 0 => None
  | S fuel' =>
      g ← n_suffix (deref t f);
      if n_root (deref t g) then Some (s, hits)
      else
        let '(u, s') := unique s g in
        if u then suffix_hits fuel' t i g s' (hits ++ [hit t i g]) else Some (s', hits)
  end.

(** One iteration of [for i, b := range in]. *)
Definition match_step (t : list node) (i : Z) (c : ascii) (n : ptr) (s : St) (hits : list H) :
    option (ptr * St * list H) :=
  n' ← (if negb (n_root (deref t n)) && bool_decide (n_child (deref t n) !! c = None)
        then n_fails (deref t n) !! c else Some n);
  match n_child (deref t n') !! c with
  | None => Some (n', s, hits)
  | Some f =>
      let '(s1, hits1) :=
        if n_output (deref t f)
        then let '(u, s') := unique s f in (s', if u then hits ++ [hit t i f] else hits)
        else (s, hits) in
      '(s2, hits2) ← suffix_hits (S (length (n_b (deref t f)))) t i f s1 hits1;
      Some (f, s2, hits2)
  end.

Fixpoint match_loop (t : list node) (i : Z) (input : bytes) (n : ptr) (s : St) (hits : list H) :
    option (St * list H) :=
  match input with
  | [] => Some (s, hits)
  | c :: input' =>
      '(n', s', hits') ← match_step t i c n s hits;
      match_loop t (i + 1) input' n' s' hits'
  end.
End matching.

(** [hits = append(hits, f.index)] *)
Definition hit_index (t : list node) (_ : Z) (f : ptr) : nat := n_index (deref t f).

(** [hits = append(hits, MatchResultWithPos{...})] *)
Definition hit_with_pos (t : list node) (i : Z) (f : ptr) : MatchResultWithPos :=
  let wordLength := Z.of_nat (length (n_b (deref t f))) in
  let startPos := (i - wordLength + 1)%Z in
  mk_pos (n_index (deref t f)) (if decide (startPos < 0)%Z then 0 else startPos) i.

Definition match_ {St} (unique : St → ptr → bool * St) (t : list node) (input : bytes) (n : ptr) (s : St) :
    option (St * list nat) :=
  match_loop unique hit_index t 0 input n s [].

Definition matchWithPos {St} (unique : St → ptr → bool * St) (t : list node) (input : bytes) (n : ptr) (s : St) :
    option (St * list MatchResultWithPos) :=
  match_loop unique hit_with_pos t 0 input n s [].

(** The closure of [Match]: the [counter] field of the nodes. *)
Definition unique_counter (gen : Z) (t : list node) (f : ptr) : bool * list node :=
  if decide (n_counter (deref t f) = gen) then (false, t) else (true, store (set_counter gen) f t).

(** The closure of the thread-safe variants: a map from word index to the
    generation it was last reported in. *)
Definition unique_heap (t : list node) (gen : Z) (heap : gmap nat Z) (f : ptr) : bool * gmap nat Z :=
  let g := default 0%Z (heap !! n_index (deref t f)) in
  if decide (g = gen) then (false, heap) else (true, <[n_index (deref t f) := gen]> heap).

(** [m.Match(in)]: the closure only changes the nodes' [counter] fields, which
    the loop never reads, so the loop walks the structure of the arena at
    entry while the closure's state is the arena itself. *)
Definition Match (m : Matcher) (input : bytes) : option (Matcher * list nat) :=
  let gen := u64 (counter m + 1) in
  r ← root m;
  '(t, hits) ← match_ (unique_counter gen) (trie m) input r (trie m);
  Some (mk_matcher gen t (extent m) (root m), hits).

(** [item] is what [m.heap.Get()] returned from the pool; the final heap is
    what is [Put] back. *)
Definition MatchThreadSafe (m : Matcher) (item : option (gmap nat Z)) (input : bytes) :
    option (Matcher * gmap nat Z * list nat) :=
  let generation := u64 (counter m + 1) in
  r ← root m;
  '(heap, hits) ← match_ (unique_heap (trie m) generation) (trie m) input r (default ∅ item);
  Some (mk_matcher generation (trie m) (extent m) (root m), heap, hits).

Definition MatchThreadSafeWithPos (m : Matcher) (item : option (gmap nat Z)) (input : bytes) :
    option (Matcher * gmap nat Z * list MatchResultWithPos) :=
  let generation := u64 (counter m + 1) in
  r ← root m;
  '(heap, hits) ← matchWithPos (unique_heap (trie m) generation) (trie m) input r (default ∅ item);
  Some (mk_matcher generation (trie m) (extent m) (root m), heap, hits).

Fixpoint Contains_loop (t : list node) (n : ptr) (input : bytes) : option bool :=
  match input with
  | [] => Some false
  | c :: input' =>
      n' ← (if negb (n_root (deref t n)) then n_fails (deref t n) !! c else Some n);
      match n_child (deref t n') !! c with
      | None => Contains_loop t n' input'
      | Some f =>
          if n_output (deref t f) then Some true
          else
            g ← n_suffix (deref t f);
            if n_root (deref t g) then Contains_loop t f input' else Some true
      end
  end.

Definition Contains (m : Matcher) (input : bytes) : option bool :=
  r ← root m; Contains_loop (trie m) r input.

Example contains_ex :
  (m ← NewStringMatcher ["he"; "she"; "his"; "hers"]; Contains m (bs "xxushersyy")) = Some true.
Proof. vm_compute. reflexivity. Qed.
Example match_ex :
  (m ← NewStringMatcher ["he"; "she"; "his"; "hers"; "he"];
   '(_, _, h) ← MatchThreadSafeWithPos m None (bs "ushershe"); Some h)
  = Some [mk_pos 1 1 3; mk_pos 4 2 3; mk_pos 3 2 5].
Proof. vm_compute. reflexivity. Qed.
