(* ===== verification/AhoCorasickTrie.v ===== *)
(** Phase one of the Aho-Corasick construction: the trie that
    [getFreeNode]/[insert_bytes]/[insert_words] build has one node per prefix,
    never runs out of preallocated nodes, and [findBlice] is lookup in it. *)
From S2P Require Import Prelude AhoCorasick.

(** ** The arena as a store *)

Lemma deref_store_ne f p q t : p ≠ q → deref (store f p t) q = deref t q.
Proof. intros. unfold deref, store. by rewrite list_lookup_alter_ne. Qed.

Lemma deref_store_eq f p t : p < length t → deref (store f p t) p = f (deref t p).
Proof.
  intros Hp. unfold deref, store. rewrite list_lookup_alter_eq.
  destruct (lookup_lt_is_Some_2 t p Hp) as [x Hx].
  rewrite Hx. done.
Qed.

Lemma length_store f p t : length (store f p t) = length t.
Proof. apply length_alter. Qed.

Lemma deref_ge t p : length t ≤ p → deref t p = zero_node.
Proof. intros Hp. unfold deref. by rewrite lookup_ge_None_2. Qed.


(** ** The structural invariant *)

Record arena_inv (t : list node) (ext : nat) : Prop := {
  ai_pos : 0 < ext ≤ length t;
  ai_rootb : n_b (deref t 0) = [];
  ai_root : ∀ i, i < ext → n_root (deref t i) = bool_decide (i = 0);
  ai_child : ∀ i c j, i < ext → n_child (deref t i) !! c = Some j →
    0 < j < ext ∧ n_b (deref t j) = n_b (deref t i) ++ [c];
  ai_parent : ∀ j, 0 < j < ext → ∃ i c, i < ext ∧ n_child (deref t i) !! c = Some j;
  ai_inj : ∀ i j, i < ext → j < ext → n_b (deref t i) = n_b (deref t j) → i = j;
}.

(** Two arenas with the same tree structure. *)
Definition same_shape (t t' : list node) : Prop :=
  length t = length t' ∧
  ∀ i, n_root (deref t i) = n_root (deref t' i) ∧ n_b (deref t i) = n_b (deref t' i) ∧
       n_child (deref t i) = n_child (deref t' i).

#[export] Instance same_shape_equiv : Equivalence same_shape.
Proof.
  split.
  - by intros t.
  - intros t t' [? Hs]. split; [done|]. intros i. destruct (Hs i) as (?&?&?). done.
  - intros t1 t2 t3 [? H12] [? H23]. split; [congruence|]. intros i.
    destruct (H12 i) as (?&?&?), (H23 i) as (?&?&?). split_and!; congruence.
Qed.

Lemma same_shape_store f p t :
  (∀ n, n_root (f n) = n_root n ∧ n_b (f n) = n_b n ∧ n_child (f n) = n_child n) →
  same_shape (store f p t) t.
Proof.
  intros Hf. split; [apply length_store|]. intros i.
  destruct (decide (p = i)) as [->|]; [|by rewrite deref_store_ne].
  destruct (decide (i < length t)).
  - by rewrite deref_store_eq.
  - rewrite !deref_ge; rewrite ?length_store; [done|lia..].
Qed.

Lemma arena_inv_shape t t' ext : same_shape t t' → arena_inv t ext → arena_inv t' ext.
Proof.
  intros [Hlen Hs] [H1 H2 H3 H4 H5 H6].
  assert (∀ i, n_root (deref t' i) = n_root (deref t i)) as Hr by (intros; by destruct (Hs i) as (?&?&?)).
  assert (∀ i, n_b (deref t' i) = n_b (deref t i)) as Hb by (intros; by destruct (Hs i) as (?&?&?)).
  assert (∀ i, n_child (deref t' i) = n_child (deref t i)) as Hc by (intros; by destruct (Hs i) as (?&?&?)).
  split.
  - by rewrite <-Hlen.
  - by rewrite Hb.
  - intros i. rewrite Hr. apply H3.
  - intros i c j. rewrite Hc, !Hb. apply H4.
  - intros j Hj. destruct (H5 j Hj) as (i & c & ? & ?). exists i, c. by rewrite Hc.
  - intros i j ??. rewrite !Hb. by apply H6.
Qed.

(** ** [findBlice] *)

Lemma findBlice_from_None t b : findBlice_from t None b = None.
Proof. by destruct b. Qed.

Lemma findBlice_from_app t n b1 b2 :
  findBlice_from t n (b1 ++ b2) = findBlice_from t (findBlice_from t n b1) b2.
Proof.
  revert n. induction b1 as [|c b1 IH]; intros n; simpl.
  - by destruct n, b2.
  - destruct n; [by rewrite IH|by rewrite findBlice_from_None].
Qed.

Lemma findBlice_from_shape t t' n b :
  same_shape t t' → findBlice_from t n b = findBlice_from t' n b.
Proof.
  intros [_ Hs]. revert n. induction b as [|c b IH]; intros [p|]; simpl; try done.
  destruct (Hs p) as (_ & _ & ->). apply IH.
Qed.

Section find.
Context (t : list node) (ext : nat) (Inv : arena_inv t ext).

Lemma findBlice_from_sound b i j :
  i < ext → findBlice_from t (Some i) b = Some j → j < ext ∧ n_b (deref t j) = n_b (deref t i) ++ b.
Proof.
  revert i. induction b as [|c b IH]; intros i Hi Hf; simpl in Hf.
  - simplify_eq. by rewrite (right_id_L [] (++)).
  - destruct (n_child (deref t i) !! c) as [k|] eqn:Hc; [|by rewrite findBlice_from_None in Hf].
    destruct (ai_child _ _ Inv _ _ _ Hi Hc) as [[_ Hk] Hb].
    destruct (IH k Hk Hf) as [? ->]. split; [done|]. by rewrite Hb, <-(assoc_L (++)).
Qed.

Lemma findBlice_complete j : j < ext → findBlice t (n_b (deref t j)) = Some j.
Proof.
  remember (length (n_b (deref t j))) as k eqn:Hk. revert j Hk.
  induction k as [k IH] using lt_wf_ind; intros j -> Hj.
  destruct (decide (j = 0)) as [->|Hj0].
  - by rewrite (ai_rootb _ _ Inv).
  - destruct (ai_parent _ _ Inv j) as (i & c & Hi & Hc); [lia|].
    destruct (ai_child _ _ Inv _ _ _ Hi Hc) as [_ Hb].
    rewrite Hb. unfold findBlice. rewrite findBlice_from_app.
    fold (findBlice t (n_b (deref t i))).
    rewrite (IH (length (n_b (deref t i)))); [|rewrite Hb, length_app; simpl; lia|done|done].
    simpl. by rewrite Hc.
Qed.

(** [findBlice] is the inverse of the node-to-blice map. *)
Lemma findBlice_iff b j : findBlice t b = Some j ↔ j < ext ∧ n_b (deref t j) = b.
Proof.
  split.
  - intros Hf. apply findBlice_from_sound in Hf as [? Hb]; [|apply Inv].
    by rewrite (ai_rootb _ _ Inv) in Hb.
  - intros [Hj <-]. by apply findBlice_complete.
Qed.

Lemma findBlice_child i c : i < ext →
  n_child (deref t i) !! c = findBlice t (n_b (deref t i) ++ [c]).
Proof.
  intros Hi. unfold findBlice. rewrite findBlice_from_app.
  fold (findBlice t (n_b (deref t i))). rewrite findBlice_complete; [|done]. simpl.
  by destruct (n_child (deref t i) !! c).
Qed.

Lemma findBlice_prefix b1 b2 :
  is_Some (findBlice t (b1 ++ b2)) → is_Some (findBlice t b1).
Proof.
  unfold findBlice. rewrite findBlice_from_app. destruct (findBlice_from t (Some 0) b1); [done|].
  rewrite findBlice_from_None. by intros [? ?].
Qed.
End find.

(** ** Inserting the dictionary *)

(** The invariant of the construction after the words [ws]. *)
Record build_inv (m : Matcher) (ws : list bytes) : Prop := {
  bi_arena : arena_inv (trie m) (extent m);
  bi_root : root m = Some 0;
  bi_free : ∀ i, extent m ≤ i → deref (trie m) i = zero_node;
  bi_suffix : ∀ i, 0 < i < extent m → n_suffix (deref (trie m) i) = Some 0;
  bi_fail : ∀ i, 0 < i < extent m → length (n_b (deref (trie m) i)) = 1 →
    n_fail (deref (trie m) i) = Some 0;
  bi_words : ∀ w, w ∈ ws → is_Some (findBlice (trie m) w);
  bi_output : ∀ i, i < extent m →
    n_output (deref (trie m) i) = bool_decide (n_b (deref (trie m) i) ∈ ws);
  bi_index : ∀ i, i < extent m → n_output (deref (trie m) i) = true →
    ws !! n_index (deref (trie m) i) = Some (n_b (deref (trie m) i)) ∧
    ∀ k, ws !! k = Some (n_b (deref (trie m) i)) → k ≤ n_index (deref (trie m) i);
  bi_counter : ∀ i, i < extent m → n_counter (deref (trie m) i) = 0%Z;
}.

(** The arena after one more node, the child of [n] by byte [c]. *)
Definition add_node (m : Matcher) (n : ptr) (c : ascii) : Matcher :=
  let i := extent m in
  let path := n_b (deref (trie m) n) ++ [c] in
  let t1 := store (set_child c i) n (trie m) in
  let t2 := store (set_b path) i t1 in
  let t3 := if decide (length path = 1) then store (set_fail (root m)) i t2 else t2 in
  mk_matcher (counter m) (store (set_suffix (root m)) i t3) (S i) (root m).

Section add_node.
Context (m : Matcher) (ws : list bytes) (Inv : build_inv m ws).
Context (n : ptr) (c : ascii).
Context (Hn : n < extent m) (Hc : n_child (deref (trie m) n) !! c = None).
Context (Hlen : extent m < length (trie m)).

Let i := extent m.
Let path := n_b (deref (trie m) n) ++ [c].
Let t' := trie (add_node m n c).

Ltac slia := subst i; lia.

Lemma add_node_length : length t' = length (trie m).
Proof.
  subst t'. unfold add_node. simpl. rewrite length_store.
  case_decide; by rewrite !length_store.
Qed.

Lemma add_node_new : deref t' i =
  mk_node false path false 0 0 ∅ ∅ (Some 0) (if decide (length path = 1) then Some 0 else None).
Proof.
  subst t' i path. unfold add_node. simpl.
  rewrite deref_store_eq by (case_decide; by rewrite !length_store).
  rewrite (bi_root _ _ Inv).
  case_decide; rewrite !deref_store_eq by (by rewrite !length_store);
    rewrite (deref_store_ne _ n (extent m)) by lia; rewrite (bi_free _ _ Inv (extent m)) by lia; done.
Qed.

Lemma add_node_parent : deref t' n = set_child c i (deref (trie m) n).
Proof.
  subst t' i. unfold add_node. simpl. rewrite deref_store_ne by lia.
  case_decide; rewrite ?(deref_store_ne _ (extent m) n) by lia;
    by rewrite deref_store_eq by lia.
Qed.

Lemma add_node_other j : j ≠ n → j ≠ i → deref t' j = deref (trie m) j.
Proof.
  intros ??. subst t' i. unfold add_node. simpl. rewrite deref_store_ne by lia.
  case_decide; by rewrite !deref_store_ne by lia.
Qed.

(** Everything but the children of [n] is unchanged on the old nodes. *)
Lemma add_node_old j : j < i →
  n_root (deref t' j) = n_root (deref (trie m) j) ∧ n_b (deref t' j) = n_b (deref (trie m) j) ∧
  n_output (deref t' j) = n_output (deref (trie m) j) ∧ n_index (deref t' j) = n_index (deref (trie m) j) ∧
  n_suffix (deref t' j) = n_suffix (deref (trie m) j) ∧ n_fail (deref t' j) = n_fail (deref (trie m) j) ∧
  n_counter (deref t' j) = n_counter (deref (trie m) j).
Proof.
  intros Hj. destruct (decide (j = n)) as [->|].
  - by rewrite add_node_parent.
  - rewrite add_node_other; [done|done|lia].
Qed.

Lemma add_node_child j x k : j < i → n_child (deref t' j) !! x = Some k →
  (j = n ∧ x = c ∧ k = i) ∨ n_child (deref (trie m) j) !! x = Some k.
Proof.
  intros Hj. destruct (decide (j = n)) as [->|].
  - rewrite add_node_parent. simpl. rewrite lookup_insert. case_decide; naive_solver.
  - rewrite add_node_other; [by right|done|lia].
Qed.

Lemma add_node_fresh j : j < i → n_b (deref (trie m) j) ≠ path.
Proof.
  intros Hj Hb. pose proof (findBlice_child _ _ (bi_arena _ _ Inv) n c Hn) as Hf.
  rewrite Hc in Hf. fold path in Hf. rewrite <-Hb in Hf.
  by rewrite (findBlice_complete _ _ (bi_arena _ _ Inv) j Hj) in Hf.
Qed.

Lemma add_node_arena : arena_inv t' (S i).
Proof.
  destruct (bi_arena _ _ Inv) as [H1 H2 H3 H4 H5 H6]. split.
  - rewrite add_node_length. slia.
  - destruct (add_node_old 0) as (_ & -> & _); [slia|done].
  - intros j Hj. destruct (decide (j = i)) as [->|].
    + rewrite add_node_new. simpl. symmetry. apply bool_decide_eq_false. slia.
    + destruct (add_node_old j) as (-> & _); [slia|]. apply H3. slia.
  - intros j x k Hj Hk. destruct (decide (j = i)) as [->|].
    + by rewrite add_node_new in Hk.
    + apply add_node_child in Hk as [(-> & -> & ->)|Hk]; [| |slia].
      * rewrite add_node_new. destruct (add_node_old n) as (_ & -> & _); [done|]. simpl. split; [slia|done].
      * apply H4 in Hk as [? Hk]; [|slia].
        destruct (add_node_old j) as (_ & -> & _); [slia|].
        destruct (add_node_old k) as (_ & -> & _); [slia|]. split; [slia|done].
  - intros j Hj. destruct (decide (j = i)) as [->|].
    + exists n, c. rewrite add_node_parent. simpl. rewrite lookup_insert_eq. split; [slia|done].
    + destruct (H5 j) as (k & x & Hk & Hx); [slia|]. exists k, x. split; [slia|].
      destruct (decide (k = n)) as [->|]; [|rewrite add_node_other; [done|done|slia]].
      rewrite add_node_parent. simpl. rewrite lookup_insert_ne; [done|congruence].
  - intros j k Hj Hk.
    destruct (decide (j = i)) as [->|], (decide (k = i)) as [->|]; [done| | |];
      rewrite ?add_node_new; simpl.
    + destruct (add_node_old k) as (_ & -> & _); [slia|]. intros Hb. exfalso.
      eapply (add_node_fresh k); [slia|done].
    + destruct (add_node_old j) as (_ & -> & _); [slia|]. intros Hb. exfalso.
      eapply (add_node_fresh j); [slia|done].
    + destruct (add_node_old j) as (_ & -> & _); [slia|].
      destruct (add_node_old k) as (_ & -> & _); [slia|]. apply H6; slia.
Qed.

Lemma add_node_find b j : findBlice (trie m) b = Some j → findBlice t' b = Some j.
Proof.
  rewrite (findBlice_iff _ _ (bi_arena _ _ Inv)), (findBlice_iff _ _ add_node_arena).
  intros [Hj <-]. destruct (add_node_old j) as (_ & -> & _); [done|]. split; [slia|done].
Qed.

Lemma add_node_inv : build_inv (add_node m n c) ws.
Proof.
  split; fold t'.
  - apply add_node_arena.
  - apply Inv.
  - intros j Hj. simpl in Hj.
    rewrite add_node_other by slia. apply Inv. slia.
  - intros j Hj. simpl in Hj. destruct (decide (j = i)) as [->|].
    + by rewrite add_node_new.
    + destruct (add_node_old j) as (_ & _ & _ & _ & -> & _); [slia|]. apply Inv. slia.
  - intros j Hj. simpl in Hj. destruct (decide (j = i)) as [->|].
    + rewrite add_node_new. simpl. intros. by rewrite decide_True.
    + destruct (add_node_old j) as (_ & -> & _ & _ & _ & -> & _); [slia|]. apply Inv. slia.
  - intros w Hw. destruct (bi_words _ _ Inv w Hw) as [j Hj]. exists j. by apply add_node_find.
  - intros j Hj. simpl in Hj. destruct (decide (j = i)) as [->|].
    + rewrite add_node_new. simpl. symmetry. apply bool_decide_eq_false. intros Hw.
      destruct (bi_words _ _ Inv _ Hw) as [j Hf].
      apply (findBlice_iff _ _ (bi_arena _ _ Inv)) in Hf as [Hlt Hb].
      by apply (add_node_fresh j Hlt).
    + destruct (add_node_old j) as (_ & -> & -> & _); [slia|]. apply Inv. slia.
  - intros j Hj. simpl in Hj. destruct (decide (j = i)) as [->|].
    + by rewrite add_node_new.
    + destruct (add_node_old j) as (_ & -> & -> & -> & _); [slia|]. apply Inv. slia.
  - intros j Hj. simpl in Hj. destruct (decide (j = i)) as [->|].
    + by rewrite add_node_new.
    + destruct (add_node_old j) as (_ & _ & _ & _ & _ & _ & ->); [slia|]. apply Inv. slia.
Qed.
End add_node.

(** [insert_bytes] takes an existing edge or performs [add_node]. *)
Lemma insert_bytes_step m ws n path b rest :
  build_inv m ws → n < extent m → n_b (deref (trie m) n) = path →
  n_child (deref (trie m) n) !! b = None → extent m < length (trie m) →
  insert_bytes m n path (b :: rest) = insert_bytes (add_node m n b) (extent m) (path ++ [b]) rest.
Proof.
  intros Inv Hn <- Hc Hlen. simpl. rewrite Hc.
  unfold getFreeNode. simpl.
  pose proof (ai_pos _ _ (bi_arena _ _ Inv)).
  rewrite (decide_False (P := S (extent m) = 1)) by lia. simpl.
  rewrite Nat.sub_0_r, decide_True by lia. done.
Qed.

Lemma insert_bytes_spec ws rest : ∀ m n path,
  build_inv m ws → n < extent m → n_b (deref (trie m) n) = path →
  extent m + length rest ≤ length (trie m) →
  ∃ p m', insert_bytes m n path rest = Some (p, m') ∧ build_inv m' ws ∧
    p < extent m' ∧ n_b (deref (trie m') p) = path ++ rest ∧
    extent m' ≤ extent m + length rest ∧ length (trie m') = length (trie m) ∧
    counter m' = counter m.
Proof.
  induction rest as [|b rest IH]; intros m n path Inv Hn Hb Hlen.
  - exists n, m. rewrite (right_id_L [] (++)). simpl. split_and!; auto with lia.
  - simpl in Hlen. destruct (n_child (deref (trie m) n) !! b) as [c|] eqn:Hc.
    + destruct (ai_child _ _ (bi_arena _ _ Inv) _ _ _ Hn Hc) as [[_ Hlt] Hb'].
      destruct (IH m c (path ++ [b])) as (p & m' & Hi & Inv' & Hp & Hbp & He & Hl & Hk);
        [done|done|by rewrite Hb', Hb|lia|].
      exists p, m'. simpl. rewrite Hc. rewrite Hbp, <-(assoc_L (++)).
      split_and!; auto with lia.
    + rewrite (insert_bytes_step m ws) by (done || lia).
      pose proof (add_node_inv m ws Inv n b Hn Hc ltac:(lia)) as Inv1.
      pose proof (add_node_new m ws Inv n b Hn ltac:(lia)) as Hnew.
      pose proof (add_node_length m n b) as Hl1.
      destruct (IH (add_node m n b) (extent m) (path ++ [b]))
        as (p & m' & Hi & Inv' & Hp & Hbp & He & Hl & Hk);
        [done|simpl; lia|by rewrite Hnew, <-Hb|rewrite Hl1; simpl; lia|].
      exists p, m'. rewrite Hbp, <-(assoc_L (++)). simpl in *.
      split_and!; auto with lia; congruence.
Qed.

(** [n.output = true; n.index = i] *)
Lemma set_output_inv m ws w p :
  build_inv m ws → p < extent m → n_b (deref (trie m) p) = w →
  build_inv (with_trie m (store (set_output (length ws)) p (trie m))) (ws ++ [w]).
Proof.
  intros Inv Hp Hb. pose proof (ai_pos _ _ (bi_arena _ _ Inv)) as [_ Hle].
  set (t' := store (set_output (length ws)) p (trie m)).
  assert (same_shape t' (trie m)) as Hs by (by apply same_shape_store).
  assert (∀ j, n_b (deref t' j) = n_b (deref (trie m) j)) as Hsb
    by (intros j; by destruct (proj2 Hs j) as (_ & -> & _)).
  assert (Hother : ∀ j, j ≠ p → deref t' j = deref (trie m) j)
    by (intros; subst t'; by rewrite deref_store_ne).
  assert (Hself : deref t' p = set_output (length ws) (deref (trie m) p))
    by (subst t'; rewrite deref_store_eq by lia; done).
  assert (Hold : ∀ j, n_suffix (deref t' j) = n_suffix (deref (trie m) j) ∧
                      n_fail (deref t' j) = n_fail (deref (trie m) j) ∧
                      n_counter (deref t' j) = n_counter (deref (trie m) j)).
  { intros j. destruct (decide (j = p)) as [->|]; [by rewrite Hself|by rewrite Hother]. }
  split; simpl; fold t'.
  - eapply arena_inv_shape; [by symmetry|apply Inv].
  - apply Inv.
  - intros j Hj. rewrite Hother by lia. by apply Inv.
  - intros j Hj. destruct (Hold j) as [-> _]. by apply Inv.
  - intros j Hj. rewrite Hsb. destruct (Hold j) as (_ & -> & _). by apply Inv.
  - intros x Hx. unfold findBlice. rewrite (findBlice_from_shape _ _ _ _ Hs).
    apply elem_of_app in Hx as [Hx|Hx%list_elem_of_singleton]; [by apply Inv|subst x w].
    exists p. by apply findBlice_complete with (extent m); [apply Inv|].
  - intros j Hj. rewrite Hsb. destruct (decide (j = p)) as [->|Hne].
    + rewrite Hself. simpl. symmetry. apply bool_decide_eq_true. rewrite Hb, elem_of_app.
      right. by apply list_elem_of_singleton.
    + rewrite Hother, (bi_output _ _ Inv) by done. apply bool_decide_ext.
      rewrite elem_of_app, list_elem_of_singleton. split; [by left|intros [?|Hw]; [done|]].
      exfalso. apply Hne. eapply (ai_inj _ _ (bi_arena _ _ Inv)); [done..|congruence].
  - intros j Hj. rewrite Hsb. destruct (decide (j = p)) as [->|Hne].
    + rewrite Hself. simpl. intros _. rewrite Hb. split.
      * by apply list_lookup_middle.
      * intros k Hk%lookup_lt_Some. rewrite length_app in Hk. simpl in Hk. lia.
    + rewrite Hother by done. intros Ho. destruct (bi_index _ _ Inv j Hj Ho) as [Hi Hmax]. split.
      * by apply lookup_app_l_Some.
      * intros k Hk. apply Hmax. apply lookup_app_Some in Hk as [?|[? Hk]]; [done|].
        apply list_lookup_singleton_Some in Hk as [_ ->]. exfalso.
        apply Hne. eapply (ai_inj _ _ (bi_arena _ _ Inv)); [done..|congruence].
  - intros j Hj. destruct (Hold j) as (_ & _ & ->). by apply Inv.
Qed.

Lemma insert_words_spec dict : ∀ m ws,
  build_inv m ws → extent m + sum_list (length <$> dict) ≤ length (trie m) →
  ∃ m', insert_words m (length ws) dict = Some m' ∧ build_inv m' (ws ++ dict) ∧
    length (trie m') = length (trie m) ∧ counter m' = counter m.
Proof.
  induction dict as [|w dict IH]; intros m ws Inv Hlen; simpl in *.
  - exists m. by rewrite (right_id_L [] (++)).
  - change (list_fmap _ _ _ _) with (length <$> dict) in Hlen.
    rewrite (bi_root _ _ Inv). simpl.
    destruct (insert_bytes_spec ws w m 0 [] Inv) as (p & m1 & -> & Inv1 & Hp & Hbp & He & Hl & Hk);
      [apply (bi_arena _ _ Inv)|apply (bi_arena _ _ Inv)|lia|].
    simpl. destruct (IH _ _ (set_output_inv m1 ws w p Inv1 Hp Hbp)) as (m' & Hm & Inv' & Hl' & Hk').
    { simpl. rewrite length_store. lia. }
    exists m'. rewrite length_app in Hm. simpl in Hm. rewrite Nat.add_comm in Hm. simpl in Hm.
    split_and!; [done|by rewrite <-(assoc_L (++)) in Inv'| |].
    + rewrite Hl'. simpl. by rewrite length_store.
    + by rewrite Hk'.
Qed.

Lemma deref_replicate k i : deref (replicate k zero_node) i = zero_node.
Proof.
  unfold deref. destruct (replicate k zero_node !! i) as [x|] eqn:Hx; [|done].
  by apply lookup_replicate in Hx as [-> _].
Qed.

(** The root alone: the state after the first [m.getFreeNode()]. *)
Lemma getFreeNode_first m k : extent m = 0 →
  ∃ m1, getFreeNode (with_trie m (replicate (S k) zero_node)) = Some (0, m1) ∧
    build_inv m1 [] ∧ extent m1 = 1 ∧ length (trie m1) = S k ∧ counter m1 = counter m.
Proof.
  intros He. unfold getFreeNode. simpl. rewrite He. simpl.
  eexists. split; [done|].
  set (t := set_root zero_node :: replicate k zero_node).
  assert (Hlen : length t = S k) by (subst t; simpl; by rewrite length_replicate).
  assert (Hj : ∀ j, 0 < j → deref t j = zero_node).
  { intros [|j] Hj; [lia|]. exact (deref_replicate k j). }
  assert (H0 : ∀ i, i < 1 → deref t i = set_root zero_node).
  { intros i Hi. by assert (i = 0) as -> by lia. }
  split_and!; [|done|done|done].
  split; cbn [trie extent root].
  - split.
    + lia.
    + done.
    + intros i Hi. rewrite H0 by done. symmetry. by apply bool_decide_eq_true; lia.
    + intros i c j Hi. by rewrite H0.
    + lia.
    + lia.
  - done.
  - intros i Hi. apply Hj. lia.
  - lia.
  - lia.
  - intros w Hw. by apply not_elem_of_nil in Hw.
  - intros i Hi. rewrite H0 by done. symmetry. by apply bool_decide_eq_false, not_elem_of_nil.
  - intros i Hi. by rewrite H0.
  - intros i Hi. by rewrite H0.
Qed.

(** The whole of phase one. *)
Lemma build_words m dict : extent m = 0 →
  ∃ p m1 m2, getFreeNode (with_trie m (replicate (max_nodes dict) zero_node)) = Some (p, m1) ∧
    insert_words m1 0 dict = Some m2 ∧ build_inv m2 dict ∧
    length (trie m2) = max_nodes dict ∧ counter m2 = counter m.
Proof.
  intros He. destruct (getFreeNode_first m (sum_list (length <$> dict)) He)
    as (m1 & Hg & Inv1 & He1 & Hl1 & Hk1).
  destruct (insert_words_spec dict m1 [] Inv1) as (m2 & Hi & Inv2 & Hl2 & Hk2).
  { rewrite He1, Hl1. lia. }
  exists 0, m1, m2. split_and!; try done; [by rewrite Hl2, Hl1|by rewrite Hk2].
Qed.
