(* ===== verification/AhoCorasickLink.v ===== *)
(** Phases two and three of the Aho-Corasick construction: the breadth-first
    pass visits every node once and gives it the [fail] and [suffix] pointers
    to the longest proper suffixes it asks for, and the [fails] tables hold
    the node the matching loop continues from. *)
From S2P Require Import Prelude AhoCorasick AhoCorasickTrie.

(** Two arenas that agree on everything but [fail], [suffix] and [fails]. *)
Definition same_core (t t' : list node) : Prop :=
  same_shape t t' ∧
  ∀ i, n_output (deref t i) = n_output (deref t' i) ∧ n_index (deref t i) = n_index (deref t' i) ∧
       n_counter (deref t i) = n_counter (deref t' i).

#[export] Instance same_core_equiv : Equivalence same_core.
Proof.
  split.
  - by intros t.
  - intros t t' [? Hs]. split; [done|]. intros i. by destruct (Hs i) as (?&?&?).
  - intros t1 t2 t3 [? H12] [? H23]. split; [by etrans|]. intros i.
    destruct (H12 i) as (?&?&?), (H23 i) as (?&?&?). split_and!; congruence.
Qed.

Lemma same_core_b t t' i : same_core t t' → n_b (deref t i) = n_b (deref t' i).
Proof. intros [[_ Hs] _]. by destruct (Hs i) as (_ & ? & _). Qed.
Lemma same_core_child t t' i : same_core t t' → n_child (deref t i) = n_child (deref t' i).
Proof. intros [[_ Hs] _]. by destruct (Hs i) as (_ & _ & ?). Qed.
Lemma same_core_root t t' i : same_core t t' → n_root (deref t i) = n_root (deref t' i).
Proof. intros [[_ Hs] _]. by destruct (Hs i) as (? & _). Qed.
Lemma same_core_output t t' i : same_core t t' → n_output (deref t i) = n_output (deref t' i).
Proof. intros [_ Hs]. by destruct (Hs i). Qed.
Lemma same_core_index t t' i : same_core t t' → n_index (deref t i) = n_index (deref t' i).
Proof. intros [_ Hs]. by destruct (Hs i) as (_ & ? & _). Qed.
Lemma same_core_counter t t' i : same_core t t' → n_counter (deref t i) = n_counter (deref t' i).
Proof. intros [_ Hs]. by destruct (Hs i) as (_ & _ & ?). Qed.
Lemma same_core_length t t' : same_core t t' → length t = length t'.
Proof. by intros [[? _] _]. Qed.
Lemma same_core_find t t' b : same_core t t' → findBlice t b = findBlice t' b.
Proof. intros [Hs _]. by apply findBlice_from_shape. Qed.

Lemma same_core_store f p t :
  (∀ n, n_root (f n) = n_root n ∧ n_b (f n) = n_b n ∧ n_child (f n) = n_child n ∧
        n_output (f n) = n_output n ∧ n_index (f n) = n_index n ∧ n_counter (f n) = n_counter n) →
  same_core (store f p t) t.
Proof.
  intros Hf. split; [apply same_shape_store; naive_solver|]. intros i.
  destruct (decide (p = i)) as [->|]; [|by rewrite deref_store_ne].
  destruct (decide (i < length t)).
  - rewrite deref_store_eq by done. naive_solver.
  - rewrite !deref_ge; rewrite ?length_store; [done|lia..].
Qed.

(** The blices that are nodes, and those that are reported words (or empty). *)
Definition has (t : list node) (s : bytes) : Prop := is_Some (findBlice t s).
Definition has_out (t : list node) (s : bytes) : Prop :=
  s = [] ∨ ∃ j, findBlice t s = Some j ∧ n_output (deref t j) = true.

(** What linking promises for one node, in terms of the trie [t]. *)
Definition link_spec (t : list node) (ext : nat) (n : node) : Prop :=
  (∃ f, n_fail n = Some f ∧ f < ext ∧ longest_suffix (has t) (tl (n_b n)) (n_b (deref t f))) ∧
  (∃ g, n_suffix n = Some g ∧ g < ext ∧ longest_suffix (has_out t) (tl (n_b n)) (n_b (deref t g))).

(** What the trie phase leaves in a node that is not linked yet. *)
Definition link_init (n : node) : Prop :=
  n_suffix n = Some 0 ∧ (length (n_b n) = 1 → n_fail n = Some 0).

Section link.
Context (t0 : list node) (ext : nat) (Inv : arena_inv t0 ext).

Lemma search_fail_spec tail : ∀ cur,
  (tail = [] → default 0 cur = 0) →
  default 0 (search_fail t0 cur tail) < ext ∧
  longest_suffix (has t0) tail (n_b (deref t0 (default 0 (search_fail t0 cur tail)))).
Proof.
  induction tail as [|x tail IH]; intros cur Hcur; cbn [search_fail].
  - rewrite Hcur, (ai_rootb _ _ Inv) by done. split; [apply Inv|].
    split_and!; [apply suffix_nil|by exists 0|]. by intros s' ->%suffix_nil_inv.
  - destruct (findBlice t0 (x :: tail)) as [p|] eqn:Hf; simpl.
    + apply (findBlice_iff _ _ Inv) in Hf as Hp. destruct Hp as [? Hb].
      split; [done|]. rewrite Hb. split_and!; [done|by exists p|done].
    + destruct (IH None) as (Hlt & Hs & Hh & Hm); [done|]. split; [done|].
      split_and!; [by apply suffix_cons_r|done|]. intros s' Hs' Hh'.
      apply suffix_tail_cases in Hs' as [->|]; [|by apply Hm].
      destruct Hh' as [? Hh']. congruence.
Qed.

Lemma search_suffix_spec tail :
  ∃ g, search_suffix t0 (Some 0) tail = Some g ∧ g < ext ∧
    longest_suffix (has_out t0) tail (n_b (deref t0 g)).
Proof.
  induction tail as [|x tail (g & Hg & Hlt & Hs & Hh & Hm)]; cbn [search_suffix].
  - exists 0. rewrite (ai_rootb _ _ Inv). split_and!; [done|apply Inv|].
    split_and!; [done|by left|]. by intros s' ->%suffix_nil_inv.
  - assert (∀ s', s' `suffix_of` x :: tail → has_out t0 s' →
      s' = x :: tail ∨ s' `suffix_of` n_b (deref t0 g)) as Hcases.
    { intros s' Hs' Hh'. apply suffix_tail_cases in Hs' as [->|]; [by left|right; by apply Hm]. }
    destruct (findBlice t0 (x :: tail)) as [p|] eqn:Hf;
      [destruct (n_output (deref t0 p)) eqn:Ho|].
    + apply (findBlice_iff _ _ Inv) in Hf as Hp. destruct Hp as [? Hb].
      exists p. rewrite Hb. split_and!; [done|done|]. split_and!; [done|right; by exists p|done].
    + exists g. split_and!; [done|done|]. split_and!; [by apply suffix_cons_r|done|].
      intros s' Hs' Hh'. destruct (Hcases s' Hs' Hh') as [->|]; [|done].
      destruct Hh' as [?|(j & ? & ?)]; [done|congruence].
    + exists g. split_and!; [done|done|]. split_and!; [by apply suffix_cons_r|done|].
      intros s' Hs' Hh'. destruct (Hcases s' Hs' Hh') as [->|]; [|done].
      destruct Hh' as [?|(j & ? & ?)]; [done|congruence].
Qed.

Lemma search_fail_core t cur tail : same_core t t0 → search_fail t cur tail = search_fail t0 cur tail.
Proof.
  intros Hc. revert cur. induction tail as [|x tail IH]; intros cur; [done|].
  cbn [search_fail]. rewrite (same_core_find _ _ _ Hc). case_match; [done|apply IH].
Qed.

Lemma search_suffix_core t cur tail :
  same_core t t0 → search_suffix t cur tail = search_suffix t0 cur tail.
Proof.
  intros Hc. induction tail as [|x tail IH]; [done|].
  cbn [search_suffix]. rewrite (same_core_find _ _ _ Hc), IH.
  case_match; [|done]. by rewrite (same_core_output _ _ _ Hc).
Qed.

Lemma link_node_core t c rt : same_core (link_node rt t c) t.
Proof.
  unfold link_node. etrans; apply same_core_store; naive_solver.
Qed.

Lemma link_node_other t c rt j : j ≠ c → deref (link_node rt t c) j = deref t j.
Proof. intros. unfold link_node. by rewrite !deref_store_ne. Qed.

Lemma link_node_spec t c : same_core t t0 → 0 < c < ext →
  link_init (deref t c) → link_spec t0 ext (deref (link_node (Some 0) t c) c).
Proof.
  intros Hc Hlt [Hsuf Hfail].
  assert (c < length t) by (rewrite (same_core_length _ _ Hc); pose proof (ai_pos _ _ Inv); lia).
  pose proof (same_core_b _ _ c Hc) as Hb.
  unfold link_node.
  set (f := search_fail t (n_fail (deref t c)) (tl (n_b (deref t c)))).
  set (t1 := store (set_fail _) c t).
  assert (Hc1 : same_core t1 t0) by (etrans; [apply same_core_store; naive_solver|done]).
  assert (H1 : deref t1 c = set_fail (match f with None => Some 0 | Some p => Some p end) (deref t c))
    by (subst t1; rewrite deref_store_eq; done).
  rewrite deref_store_eq, H1 by (rewrite (same_core_length _ _ Hc1), <-(same_core_length _ _ Hc); done).
  simpl. rewrite Hsuf. split; simpl.
  - exists (default 0 f). split; [by destruct f|]. subst f.
    rewrite search_fail_core by done. apply search_fail_spec. intros Htl. rewrite Hfail; [done|].
    destruct (ai_parent _ _ Inv c) as (i & x & Hi & Hx); [lia|].
    destruct (ai_child _ _ Inv _ _ _ Hi Hx) as [_ Hbc]. rewrite Hb, Hbc in *.
    destruct (n_b (deref t0 i)) as [|y l]; simpl in *; [done|].
    by apply app_nil in Htl as [_ ?].
  - rewrite search_suffix_core by done. apply search_suffix_spec.
Qed.
End link.

(** ** The breadth-first pass *)

Section bfs.
Context (t0 : list node) (ext : nat) (Inv : arena_inv t0 ext).
Context (Hinit : ∀ i, 0 < i < ext → link_init (deref t0 i)).

(** The invariant of the loop: [V] holds the popped nodes, [q] is the queue;
    the children of [n] by the bytes of [pend] are not pushed yet. *)
Record bfs_inv (t : list node) (V q : list ptr) (n : ptr) (pend : list ascii) : Prop := {
  bv_core : same_core t t0;
  bv_nodup : NoDup (V ++ q);
  bv_lt : ∀ j, j ∈ V ++ q → j < ext;
  bv_root : 0 ∈ V ++ q;
  bv_parent : ∀ j, j ∈ V ++ q → j ≠ 0 → ∃ i c, i ∈ V ∧ n_child (deref t0 i) !! c = Some j;
  bv_closed : ∀ i c j, i ∈ V → (i = n → c ∉ pend) → n_child (deref t0 i) !! c = Some j → j ∈ V ++ q;
  bv_pend : ∀ c j, c ∈ pend → n_child (deref t0 n) !! c = Some j → j ∉ V ++ q;
  bv_done : ∀ j, 0 < j < ext → j ∈ V ++ q → link_spec t0 ext (deref t j);
  bv_todo : ∀ j, 0 < j < ext → j ∉ V ++ q → deref t j = deref t0 j;
}.

Lemma child_unique i c j i' c' :
  i < ext → i' < ext →
  n_child (deref t0 i) !! c = Some j → n_child (deref t0 i') !! c' = Some j → i = i' ∧ c = c'.
Proof.
  intros Hi Hi' Hc Hc'.
  destruct (ai_child _ _ Inv _ _ _ Hi Hc) as [_ H1], (ai_child _ _ Inv _ _ _ Hi' Hc') as [_ H2].
  rewrite H1 in H2. apply app_inj_2 in H2 as [Hb ?]; [|done]. simplify_eq.
  split; [|done]. by eapply (ai_inj _ _ Inv).
Qed.

Lemma link_child_inv t V q n c pend :
  n ∈ V → c ∉ pend → bfs_inv t V q n (c :: pend) →
  bfs_inv (link_child (Some 0) n (t, q) c).1 V (link_child (Some 0) n (t, q) c).2 n pend.
Proof.
  intros Hn Hc [Hcore Hnd Hlt Hroot Hpar Hcl Hpend Hdone Htodo].
  assert (n < ext) as Hnlt by (apply Hlt; set_solver).
  unfold link_child. simpl. rewrite (same_core_child _ _ _ Hcore).
  destruct (n_child (deref t0 n) !! c) as [p|] eqn:Hp; simpl.
  - destruct (ai_child _ _ Inv _ _ _ Hnlt Hp) as [Hpr _].
    assert (p ∉ V ++ q) as Hnew by (apply (Hpend c); [set_solver|done]).
    split; try rewrite !(assoc_L (++)).
    + etrans; [apply link_node_core|done].
    + apply NoDup_app. split_and!; [done|set_solver|apply NoDup_singleton].
    + intros j Hj. apply elem_of_app in Hj as [Hj| ->%list_elem_of_singleton]; [by apply Hlt|lia].
    + set_solver.
    + intros j Hj Hj0. apply elem_of_app in Hj as [Hj| ->%list_elem_of_singleton]; [by apply Hpar|].
      by exists n, c.
    + intros i x j Hi Hx Hij. destruct (decide (i = n ∧ x = c)) as [[-> ->]|Hne].
      * simplify_eq. set_solver.
      * apply elem_of_app. left. eapply Hcl; [done| |done]. set_solver.
    + intros x j Hx Hj. rewrite elem_of_app, list_elem_of_singleton.
      intros [Hin| ->]; [eapply Hpend; [|done..]; set_solver|].
      destruct (child_unique n c p n x) as [_ ->]; [done..|set_solver].
    + intros j Hj Hin. destruct (decide (j = p)) as [->|].
      * apply link_node_spec; [done|done|done|]. rewrite Htodo by done. by apply Hinit.
      * rewrite link_node_other by done. apply Hdone; [done|set_solver].
    + intros j Hj Hin. rewrite link_node_other by set_solver. apply Htodo; [done|set_solver].
  - split; [done..| | |done|done].
    + intros i x j Hi Hx Hij. eapply Hcl; [done| |done]. intros ->.
      apply not_elem_of_cons. split; [congruence|by apply Hx].
    + intros x j Hx. apply Hpend. by right.
Qed.

Lemma link_child_foldl cs V n : ∀ t q,
  n ∈ V → NoDup cs → bfs_inv t V q n cs →
  bfs_inv (foldl (link_child (Some 0) n) (t, q) cs).1 V (foldl (link_child (Some 0) n) (t, q) cs).2 n [].
Proof.
  induction cs as [|c cs IH]; intros t q Hn Hnd Hbi; [done|].
  apply NoDup_cons in Hnd as [Hc Hnd]. simpl.
  pose proof (link_child_inv t V q n c cs Hn Hc Hbi) as Hnext.
  destruct (link_child (Some 0) n (t, q) c) as [t' q']. by apply IH.
Qed.

Lemma elem_of_all_bytes c : c ∈ all_bytes.
Proof.
  unfold all_bytes. apply list_elem_of_fmap. exists (nat_of_ascii c).
  rewrite ascii_nat_embedding. split; [done|].
  apply elem_of_seq. pose proof (nat_ascii_bounded c). lia.
Qed.

Lemma NoDup_all_bytes : NoDup all_bytes.
Proof. apply (bool_decide_unpack _). by vm_compute. Qed.

#[local] Opaque all_bytes.

(** Popping [n] makes all of its children pending. *)
Lemma bfs_pop t V n q m :
  bfs_inv t V (n :: q) m [] → bfs_inv t (V ++ [n]) q n all_bytes.
Proof.
  intros [Hcore Hnd Hlt Hroot Hpar Hcl Hpend Hdone Htodo].
  assert ((V ++ [n]) ++ q = V ++ n :: q) as Heq by by rewrite <-(assoc_L (++)).
  assert (n ∉ V) as HnV by (apply NoDup_app in Hnd as (_ & Hnd & _); set_solver).
  split; rewrite ?Heq; try done.
  - intros j Hj Hj0. destruct (Hpar j Hj Hj0) as (i & c & Hi & Hc). exists i, c. set_solver.
  - intros i c j Hi Hc Hij. apply elem_of_app in Hi as [Hi| ->%list_elem_of_singleton].
    + eapply Hcl; [done| |done]. intros _. apply not_elem_of_nil.
    + exfalso. apply Hc; [done|apply elem_of_all_bytes].
  - intros c j _ Hj Hin. assert (n < ext) as Hnlt by (apply Hlt; set_solver).
    destruct (ai_child _ _ Inv _ _ _ Hnlt Hj) as [[Hj0 _] _].
    destruct (Hpar j Hin) as (i & x & Hi & Hx); [lia|].
    destruct (child_unique i x j n c) as [-> _]; [apply Hlt; set_solver|done..].
Qed.

Lemma bfs_visited_lt t V q n pend : bfs_inv t V q n pend → length (V ++ q) ≤ ext.
Proof.
  intros Hbi. assert (V ++ q ⊆+ seq 0 ext) as Hsub%submseteq_length.
  - apply NoDup_submseteq; [apply Hbi|].
    intros j Hj. apply elem_of_seq. apply (bv_lt _ _ _ _ _ Hbi) in Hj. lia.
  - by rewrite length_seq in Hsub.
Qed.

Lemma link_bfs_spec fuel : ∀ t V q n,
  bfs_inv t V q n [] → ext ≤ length V + fuel →
  ∃ t' V' n', link_bfs fuel (Some 0) t q = Some t' ∧ bfs_inv t' V' [] n' [].
Proof.
  induction fuel as [|fuel IH]; intros t V [|p q] n Hbi Hfuel; simpl.
  - by exists t, V, n.
  - pose proof (bfs_visited_lt _ _ _ _ _ Hbi) as Hv. rewrite length_app in Hv. simpl in Hv. lia.
  - by exists t, V, n.
  - assert (p ∈ V ++ [p]) as Hp by set_solver.
    pose proof (link_child_foldl all_bytes (V ++ [p]) p t q Hp NoDup_all_bytes
      (bfs_pop _ _ _ _ _ Hbi)) as Hnext.
    unfold link_children. destruct (foldl _ _ _) as [t' q']. simpl in Hnext.
    eapply IH; [done|]. rewrite length_app. simpl. lia.
Qed.

(** With an empty queue every node has been visited. *)
Lemma bfs_complete t V n j : bfs_inv t V [] n [] → j < ext → j ∈ V.
Proof.
  intros Hbi. remember (length (n_b (deref t0 j))) as k eqn:Hk. revert j Hk.
  induction k as [k IH] using lt_wf_ind; intros j -> Hj.
  destruct (decide (j = 0)) as [->|].
  - pose proof (bv_root _ _ _ _ _ Hbi) as Hr. by rewrite (right_id_L [] (++)) in Hr.
  - destruct (ai_parent _ _ Inv j) as (i & c & Hi & Hc); [lia|].
    destruct (ai_child _ _ Inv _ _ _ Hi Hc) as [_ Hb].
    rewrite <-(right_id_L [] (++) V). eapply (bv_closed _ _ _ _ _ Hbi i c); [|set_solver|done].
    eapply IH; [|done|done]. rewrite Hb, length_app. simpl. lia.
Qed.

(** The breadth-first pass ends and links every node. *)
Lemma link_bfs_total fuel : ext ≤ fuel →
  ∃ t', link_bfs fuel (Some 0) t0 [0] = Some t' ∧ same_core t' t0 ∧
    ∀ j, 0 < j < ext → link_spec t0 ext (deref t' j).
Proof.
  intros Hfuel. destruct (link_bfs_spec fuel t0 [] [0] 0) as (t' & V & n & Hl & Hbi).
  - pose proof (ai_pos _ _ Inv). split; simpl.
    + done.
    + apply NoDup_singleton.
    + intros j ->%list_elem_of_singleton. lia.
    + set_solver.
    + intros j ->%list_elem_of_singleton. done.
    + set_solver.
    + set_solver.
    + intros j Hj ->%list_elem_of_singleton. lia.
    + done.
  - simpl. lia.
  - exists t'. split_and!; [done|apply Hbi|]. intros j Hj. eapply (bv_done _ _ _ _ _ Hbi); [done|].
    rewrite (right_id_L [] (++)). eapply bfs_complete; [done|lia].
Qed.
End bfs.

(** ** The [fails] tables *)

(** The blices from which the loop can consume [c]; the root is always one. *)
Definition cont (t : list node) (c : ascii) (s : bytes) : Prop := s = [] ∨ has t (s ++ [c]).

Definition fails_spec (t : list node) (ext i : nat) (c : ascii) (n : ptr) : Prop :=
  n < ext ∧ longest_suffix (cont t c) (n_b (deref t i)) (n_b (deref t n)).

(** Arenas that agree on everything but [fails]. *)
Definition same_link (t t' : list node) : Prop :=
  same_core t t' ∧
  ∀ i, n_fail (deref t i) = n_fail (deref t' i) ∧ n_suffix (deref t i) = n_suffix (deref t' i).

#[export] Instance same_link_equiv : Equivalence same_link.
Proof.
  split.
  - by intros t.
  - intros t t' [? Hs]. split; [done|]. intros i. by destruct (Hs i).
  - intros t1 t2 t3 [? H12] [? H23]. split; [by etrans|]. intros i.
    destruct (H12 i), (H23 i). split; congruence.
Qed.

Lemma same_link_fails t i c n : same_link (store (set_fails c n) i t) t.
Proof.
  split; [apply same_core_store; naive_solver|]. intros j.
  destruct (decide (i = j)) as [->|]; [|by rewrite deref_store_ne].
  destruct (decide (j < length t)).
  - by rewrite deref_store_eq.
  - rewrite !deref_ge; rewrite ?length_store; [done|lia..].
Qed.

Lemma root_iff t ext i : arena_inv t ext → i < ext → n_b (deref t i) = [] ↔ i = 0.
Proof.
  intros Inv Hi. split; [|intros ->; apply Inv].
  intros Hb. pose proof (findBlice_complete _ _ Inv i Hi) as Hf. rewrite Hb in Hf.
  by injection Hf.
Qed.

Section fails.
Context (t0 : list node) (ext : nat) (Inv : arena_inv t0 ext).
Context (Hlink : ∀ i, 0 < i < ext → link_spec t0 ext (deref t0 i)).

Lemma follow_fail_spec c fuel : ∀ i,
  i < ext → length (n_b (deref t0 i)) ≤ fuel →
  ∃ n, follow_fail fuel t0 i c = Some n ∧ fails_spec t0 ext i c n.
Proof.
  induction fuel as [|fuel IH]; intros i Hi Hlen; cbn [follow_fail];
    rewrite (ai_root _ _ Inv) by done;
    destruct (n_child (deref t0 i) !! c) as [k|] eqn:Hc.
  1, 3: exists i; do 2 (split; [done|]); apply longest_suffix_refl; right; exists k;
    by rewrite <-(findBlice_child _ _ Inv).
  - destruct (decide (i = 0)) as [->|Hi0].
    + exists 0. rewrite bool_decide_true by done. do 2 (split; [done|]).
      apply longest_suffix_refl. by left; apply Inv.
    + assert (n_b (deref t0 i) = []) as Hb by (apply length_zero_iff_nil; lia).
      by apply (root_iff _ _ _ Inv Hi) in Hb.
  - destruct (decide (i = 0)) as [->|Hi0].
    { exists 0. rewrite bool_decide_true by done. do 2 (split; [done|]).
      apply longest_suffix_refl. by left; apply Inv. }
    rewrite bool_decide_false by done.
    destruct (Hlink i) as [(f & Hf & Hflt & Hfs & _ & Hfm) _]; [lia|]. rewrite Hf. simpl.
    assert (n_b (deref t0 i) ≠ []) as Hne by (by rewrite (root_iff _ _ _ Inv Hi)).
    assert (has t0 (n_b (deref t0 i) ++ [c]) → False) as Hno.
    { unfold has. rewrite <-(findBlice_child _ _ Inv) by done. rewrite Hc. by intros [? ?]. }
    destruct (n_b (deref t0 i)) as [|x l] eqn:Hb; [done|]. simpl in *.
    destruct (IH f Hflt) as (n & Hn & Hnlt & Hs & Hcont & Hm).
    { apply suffix_length in Hfs. lia. }
    exists n. split; [done|]. split; [done|]. rewrite Hb. split_and!.
    + etrans; [exact Hs|]. by apply suffix_cons_r.
    + done.
    + intros s' Hs' Hc'. apply suffix_tail_cases in Hs' as [->|Hs'].
      * by destruct Hc' as [?|?].
      * apply Hm; [|done]. apply Hfm; [done|]. destruct Hc' as [->|Hc']; [by exists 0|].
        by eapply findBlice_prefix.
Qed.

Lemma follow_fail_link t fuel i c : same_link t t0 → follow_fail fuel t i c = follow_fail fuel t0 i c.
Proof.
  intros [Hc Hl]. revert i. induction fuel as [|fuel IH]; intros i; cbn [follow_fail];
    rewrite (same_core_child _ _ _ Hc), (same_core_root _ _ _ Hc); [done|].
  destruct (Hl i) as [-> _]. repeat case_match; try done.
  destruct (n_fail (deref t0 i)); [apply IH|done].
Qed.

Lemma fill_row_spec i cs : ∀ t, i < ext → same_link t t0 →
  ∃ t', fill_row t i cs = Some t' ∧ same_link t' t0 ∧
    (∀ j, j ≠ i → deref t' j = deref t j) ∧
    ∀ c, (c ∈ cs → ∃ n, n_fails (deref t' i) !! c = Some n ∧ fails_spec t0 ext i c n) ∧
         (c ∉ cs → n_fails (deref t' i) !! c = n_fails (deref t i) !! c).
Proof.
  induction cs as [|c cs IH]; intros t Hi Hl; cbn [fill_row].
  - exists t. split_and!; try done. intros c. split; [by intros ?%elem_of_nil|done].
  - rewrite (same_core_b _ _ _ (proj1 Hl)), follow_fail_link by done.
    destruct (follow_fail_spec c (length (n_b (deref t0 i))) i Hi) as (n & -> & Hn); [done|]. simpl.
    assert (i < length t) as Hil.
    { rewrite (same_core_length _ _ (proj1 Hl)). pose proof (ai_pos _ _ Inv). lia. }
    destruct (IH (store (set_fails c n) i t) Hi) as (t' & Ht' & Hl' & Hoth & Hself).
    { etrans; [apply same_link_fails|done]. }
    exists t'. split_and!; [done|done| |].
    + intros j Hj. by rewrite Hoth, deref_store_ne.
    + intros x. destruct (Hself x) as [Hin Hout]. rewrite elem_of_cons. split.
      * intros Hx. destruct (decide (x ∈ cs)) as [|Hnx]; [by apply Hin|].
        destruct Hx as [->|]; [|done]. exists n. rewrite Hout, deref_store_eq by done. simpl.
        by rewrite lookup_insert_eq.
      * intros Hx. rewrite Hout, deref_store_eq by naive_solver. simpl.
        by rewrite lookup_insert_ne by naive_solver.
Qed.

Lemma fill_fails_spec ps : ∀ t, (∀ i, i ∈ ps → i < ext) → NoDup ps → same_link t t0 →
  ∃ t', fill_fails t ps = Some t' ∧ same_link t' t0 ∧
    (∀ j, j ∉ ps → deref t' j = deref t j) ∧
    ∀ i c, i ∈ ps → ∃ n, n_fails (deref t' i) !! c = Some n ∧ fails_spec t0 ext i c n.
Proof.
  induction ps as [|i ps IH]; intros t His Hnd Hl; cbn [fill_fails].
  - exists t. split_and!; try done. by intros i c ?%elem_of_nil.
  - apply NoDup_cons in Hnd as [Hni Hnd].
    destruct (fill_row_spec i all_bytes t) as (t1 & -> & Hl1 & Ho1 & Hs1); [set_solver|done|].
    simpl. destruct (IH t1) as (t' & -> & Hl' & Ho' & Hs'); [set_solver|done..|].
    exists t'. split_and!; [done|done| |].
    + intros j Hj. rewrite Ho', Ho1; set_solver.
    + intros j c Hj. destruct (decide (j ∈ ps)) as [|Hnj]; [by apply Hs'|].
      apply elem_of_cons in Hj as [->|]; [|done]. rewrite Ho' by done.
      apply Hs1, elem_of_all_bytes.
Qed.
End fails.
