(* ===== verification/AhoCorasickMatch.v ===== *)
(** The Aho-Corasick automaton against its specification: construction is
    total, and the matching loops report exactly the dictionary words that
    occur in the text, each once, where it first ends. *)
From S2P Require Import Prelude AhoCorasick AhoCorasickTrie AhoCorasickLink.

(** ** The finished automaton *)

Record automaton (dict : list bytes) (m : Matcher) : Prop := {
  au_root : root m = Some 0;
  au_length : length (trie m) = extent m;
  au_arena : arena_inv (trie m) (extent m);
  au_link : ∀ j, 0 < j < extent m → link_spec (trie m) (extent m) (deref (trie m) j);
  au_fails : ∀ i c, i < extent m → ∃ n,
    n_fails (deref (trie m) i) !! c = Some n ∧ fails_spec (trie m) (extent m) i c n;
  au_words : ∀ w, w ∈ dict → has (trie m) w;
  au_output : ∀ i, i < extent m →
    n_output (deref (trie m) i) = bool_decide (n_b (deref (trie m) i) ∈ dict);
  au_index : ∀ i, i < extent m → n_output (deref (trie m) i) = true →
    dict !! n_index (deref (trie m) i) = Some (n_b (deref (trie m) i)) ∧
    ∀ k, dict !! k = Some (n_b (deref (trie m) i)) → k ≤ n_index (deref (trie m) i);
  au_counter : ∀ i, i < extent m → n_counter (deref (trie m) i) = 0%Z;
}.

(** Two arenas with the same words and the same nodes below [ext]. *)
Definition agree (t t' : list node) (ext : nat) : Prop :=
  (∀ b, findBlice t b = findBlice t' b) ∧
  ∀ i, i < ext → n_b (deref t i) = n_b (deref t' i) ∧ n_output (deref t i) = n_output (deref t' i).

Section agree.
Context (t t' : list node) (ext : nat) (Inv : arena_inv t ext) (Hag : agree t t' ext).

Lemma agree_has : pointwise_relation _ iff (has t) (has t').
Proof. intros s. unfold has. by rewrite (proj1 Hag). Qed.

Lemma agree_has_out : pointwise_relation _ iff (has_out t) (has_out t').
Proof.
  intros s. unfold has_out. f_equiv. f_equiv. intros j. rewrite <-(proj1 Hag).
  split; intros [Hf Ho]; (split; [done|]); apply (findBlice_iff _ _ Inv) in Hf as [Hj _];
    destruct (proj2 Hag j Hj); congruence.
Qed.

Lemma agree_cont c : pointwise_relation _ iff (cont t c) (cont t' c).
Proof. intros s. unfold cont. pose proof (agree_has (s ++ [c])). tauto. Qed.

Lemma link_spec_agree n : link_spec t ext n → link_spec t' ext n.
Proof.
  intros [(f & Hf & Hfl & Hs) (g & Hg & Hgl & Hgs)]. split.
  - exists f. rewrite <-agree_has. by destruct (proj2 Hag f Hfl) as [<- _].
  - exists g. rewrite <-agree_has_out. by destruct (proj2 Hag g Hgl) as [<- _].
Qed.

Lemma fails_spec_agree i c n : i < ext → fails_spec t ext i c n → fails_spec t' ext i c n.
Proof.
  intros Hi [Hn Hs]. split; [done|]. rewrite <-agree_cont.
  destruct (proj2 Hag i Hi) as [<- _]. by destruct (proj2 Hag n Hn) as [<- _].
Qed.
End agree.

Lemma same_core_agree t t' ext : same_core t t' → agree t t' ext.
Proof.
  intros Hc. split; [intros; by apply same_core_find|]. intros i _.
  split; [by apply same_core_b|by apply same_core_output].
Qed.

(** Cutting the arena to the allocated nodes changes nothing below [ext]. *)
Lemma deref_take t ext i : i < ext → deref (take ext t) i = deref t i.
Proof. intros. unfold deref. by rewrite lookup_take_lt. Qed.

Lemma arena_inv_take t ext : arena_inv t ext → arena_inv (take ext t) ext.
Proof.
  intros [H1 H2 H3 H4 H5 H6]. split.
  - rewrite length_take. lia.
  - rewrite deref_take by lia. done.
  - intros i Hi. rewrite deref_take by done. by apply H3.
  - intros i c j Hi Hc. rewrite (deref_take _ _ i) in Hc |- * by done.
    destruct (H4 i c j Hi Hc). by rewrite (deref_take _ _ j) by lia.
  - intros j Hj. destruct (H5 j Hj) as (i & c & Hi & Hc). exists i, c. by rewrite deref_take.
  - intros i j Hi Hj. rewrite !deref_take by done. by apply H6.
Qed.

Lemma agree_take t ext : arena_inv t ext → agree t (take ext t) ext.
Proof.
  intros Inv. split; [|intros i Hi; by rewrite deref_take].
  intros b. apply option_eq. intros j.
  rewrite (findBlice_iff _ _ Inv), (findBlice_iff _ _ (arena_inv_take _ _ Inv)).
  split; intros [Hj Hb]; (split; [done|]); by rewrite deref_take in *.
Qed.

(** Construction never panics, always ends, and yields an automaton. *)
Lemma buildTrie_automaton dict : ∃ m, NewMatcher dict = Some m ∧ automaton dict m ∧ counter m = 0%Z.
Proof.
  unfold NewMatcher, buildTrie.
  destruct (build_words new_matcher dict) as (p & m1 & m2 & -> & Hw & Inv2 & Hlen & Hk); [done|].
  rewrite bind_some, Hw, bind_some, (bi_root _ _ Inv2), bind_some.
  pose proof (bi_arena _ _ Inv2) as Inv.
  destruct (link_bfs_total (trie m2) (extent m2) Inv) with (fuel := S (extent m2))
    as (t3 & -> & Hc3 & Hl3); [|lia|].
  { intros i Hi. split; [by apply Inv2|by apply Inv2]. }
  rewrite bind_some. set (ext := extent m2) in *.
  assert (arena_inv t3 ext) as Inv3.
  { eapply arena_inv_shape; [symmetry; apply Hc3|done]. }
  assert (∀ j, 0 < j < ext → link_spec t3 ext (deref t3 j)) as Hl3'.
  { intros j Hj. apply (link_spec_agree (trie m2)); [done|by apply same_core_agree|by apply Hl3]. }
  destruct (fill_fails_spec t3 ext Inv3 Hl3' (seq 0 ext) t3) as (t4 & -> & Hl4 & _ & Hf4);
    [intros i; rewrite elem_of_seq; lia|apply NoDup_seq|done|].
  rewrite bind_some. eexists. split; [done|]. split; [|exact Hk].
  destruct Hl4 as [Hc4 Hl4].
  assert (arena_inv t4 ext) as Inv4.
  { eapply arena_inv_shape; [symmetry; apply Hc4|done]. }
  pose proof (agree_take t4 ext Inv4) as Hag5.
  assert (agree t3 (take ext t4) ext) as Hag35.
  { destruct (same_core_agree _ _ ext Hc4) as [Ha Hb], Hag5 as [Ha' Hb'].
    split; [intros; by rewrite <-Ha'|]. intros i Hi.
    destruct (Hb i Hi), (Hb' i Hi). split; congruence. }
  assert (same_core t4 (trie m2)) as Hc42 by (by etrans).
  split; cbn [root trie extent with_trie]; fold ext.
  - by apply Inv2.
  - rewrite length_take. pose proof (ai_pos _ _ Inv4). lia.
  - by apply arena_inv_take.
  - intros j Hj. rewrite deref_take by lia.
    apply (link_spec_agree _ _ _ Inv3 Hag35).
    destruct (Hl4 j) as [Hfail Hsuf].
    destruct (Hl3' j Hj) as [(f & Hf & Hfl & Hs) (g & Hg & Hgl & Hgs)].
    pose proof (same_core_b _ _ j Hc4) as Hb.
    split; [exists f|exists g]; rewrite ?Hfail, ?Hsuf, Hb; done.
  - intros i c Hi. destruct (Hf4 i c) as (n & Hn & Hs); [apply elem_of_seq; lia|].
    exists n. rewrite deref_take by done. split; [done|].
    by apply (fails_spec_agree t3).
  - intros w Hw'. unfold has. rewrite <-(proj1 Hag5), (same_core_find _ _ _ Hc42).
    by apply Inv2.
  - intros i Hi. rewrite deref_take by done.
    rewrite (same_core_output _ _ _ Hc42), (same_core_b _ _ _ Hc42). by apply Inv2.
  - intros i Hi. rewrite deref_take by done.
    rewrite (same_core_output _ _ _ Hc42), (same_core_b _ _ _ Hc42), (same_core_index _ _ _ Hc42).
    by apply Inv2.
  - intros i Hi. rewrite deref_take by done.
    rewrite (same_core_counter _ _ _ Hc42). by apply Inv2.
Qed.

(** ** The matching loops *)

(** What [match] needs from the closure [unique]: a set of nodes already
    reported, tested and extended by every call. *)
Class Dedup {St : Type} (out : ptr → Prop) (unique : St → ptr → bool * St) := {
  valid : St → Prop;
  seen : St → ptr → Prop;
  dedup_valid s j : valid s → out j → valid (unique s j).2;
  dedup_seen s j k : valid s → out j → out k → seen (unique s j).2 k ↔ seen s k ∨ k = j;
  dedup_fresh s j : valid s → out j → (unique s j).1 = false ↔ seen s j;
}.

Section matching_spec.
Context (dict : list bytes) (m : Matcher) (Au : automaton dict m).
Notation t := (trie m).
Notation ext := (extent m).
Notation blice j := (n_b (deref t j)).

(** The nodes that can be reported. *)
Definition out (j : ptr) : Prop := j < ext ∧ n_output (deref t j) = true ∧ j ≠ 0.

(** After reading [text] the loop is at the longest suffix in the trie. *)
Definition at_state (text : bytes) (n : ptr) : Prop := n < ext ∧ longest_suffix (has t) text (blice n).

Lemma out_has j : out j → has t (blice j).
Proof. intros (? & _ & _). exists j. by apply (findBlice_complete _ _ (au_arena _ _ Au)). Qed.

Lemma out_has_out j : out j → has_out t (blice j).
Proof.
  intros (? & ? & _). right. exists j. split; [|done].
  by apply (findBlice_complete _ _ (au_arena _ _ Au)).
Qed.

Lemma out_nonempty j : out j → blice j ≠ [].
Proof. intros (? & _ & Hj) Hb. by apply (root_iff _ _ _ (au_arena _ _ Au)) in Hb. Qed.

Lemma blice_eq i j : i < ext → j < ext → blice i = blice j → i = j.
Proof. apply (ai_inj _ _ (au_arena _ _ Au)). Qed.

Lemma has_child n c : n < ext → has t (blice n ++ [c]) ↔ is_Some (n_child (deref t n) !! c).
Proof. intros Hn. unfold has. by rewrite (findBlice_child _ _ (au_arena _ _ Au)). Qed.

Lemma at_state_nil : at_state [] 0.
Proof.
  pose proof (ai_rootb _ _ (au_arena _ _ Au)) as Hb. split; [apply (au_arena _ _ Au)|].
  rewrite Hb. apply longest_suffix_refl. by exists 0.
Qed.

Lemma at_state_out text f k : at_state text f → out k →
  blice k `suffix_of` text ↔ blice k `suffix_of` blice f.
Proof.
  intros (_ & Hs & _ & Hm) Hk. split; [|intros; by etrans].
  intros Hsuf. apply Hm; [done|by apply out_has].
Qed.

(** The transition through the [fails] tables. *)
Lemma at_state_next text n c n' : at_state text n → fails_spec t ext n c n' →
  at_state (text ++ [c]) (default n' (n_child (deref t n') !! c)) ∧
  (n_child (deref t n') !! c = None → n' = 0).
Proof.
  intros (Hn & Hs & Hh & Hm) (Hn' & Hs' & Hc' & Hm').
  assert (Hmax : ∀ s, s `suffix_of` text → has t (s ++ [c]) → s `suffix_of` blice n').
  { intros s Hsuf Hhas. apply Hm'; [|by right].
    apply Hm; [done|]. by eapply findBlice_prefix, Hhas. }
  destruct (n_child (deref t n') !! c) as [f|] eqn:Hf; simpl.
  - split; [|done]. destruct (ai_child _ _ (au_arena _ _ Au) _ _ _ Hn' Hf) as [[_ Hlt] Hb].
    split; [done|]. rewrite Hb. split_and!.
    + apply suffix_snoc. by etrans.
    + by apply has_child; [|exists f].
    + intros s Hsuf Hhas. apply suffix_snoc_cases in Hsuf as [->|(s' & -> & Hsuf)].
      * apply suffix_nil.
      * by apply suffix_snoc, Hmax.
  - assert (n' = 0) as ->.
    { apply (root_iff _ _ _ (au_arena _ _ Au)); [done|]. destruct Hc' as [?|Hc']; [done|].
      apply has_child in Hc' as [? ?]; [congruence|done]. }
    split; [|done]. pose proof (ai_rootb _ _ (au_arena _ _ Au)) as Hb0. rewrite Hb0 in *.
    split; [done|]. rewrite Hb0. split_and!; [apply suffix_nil|by exists 0|].
    intros s Hsuf Hhas. apply suffix_snoc_cases in Hsuf as [->|(s' & -> & Hsuf)]; [done|].
    assert (s' = []) as -> by by apply suffix_nil_inv, Hmax.
    exfalso. pose proof (has_child 0 c Hn') as Hch. rewrite Hb0, Hf in Hch.
    by apply Hch in Hhas as [? ?].
Qed.

(** Both ways of computing the next node agree with [fails]. *)
Lemma fails_spec_self n c : n < ext →
  n_root (deref t n) = true ∨ is_Some (n_child (deref t n) !! c) → fails_spec t ext n c n.
Proof.
  intros Hn Hor. split; [done|]. apply longest_suffix_refl. destruct Hor as [Hr|Hch].
  - left. rewrite (ai_root _ _ (au_arena _ _ Au)) in Hr by done.
    apply bool_decide_eq_true in Hr as ->. apply (au_arena _ _ Au).
  - right. by apply has_child.
Qed.

Lemma next_node n c : n < ext → ∃ n',
  (if negb (n_root (deref t n)) && bool_decide (n_child (deref t n) !! c = None)
   then n_fails (deref t n) !! c else Some n) = Some n' ∧ fails_spec t ext n c n'.
Proof.
  intros Hn. destruct (n_root (deref t n)) eqn:Hr; simpl.
  - exists n. split; [done|]. apply fails_spec_self; auto.
  - case_bool_decide as Hc; [by apply Au|]. exists n. split; [done|].
    apply fails_spec_self; [done|]. right. by apply not_eq_None_Some.
Qed.

Lemma next_node_contains n c : n < ext → ∃ n',
  (if negb (n_root (deref t n)) then n_fails (deref t n) !! c else Some n) = Some n' ∧
  fails_spec t ext n c n'.
Proof.
  intros Hn. destruct (n_root (deref t n)) eqn:Hr; simpl; [|by apply Au].
  exists n. split; [done|]. apply fails_spec_self; auto.
Qed.

(** The [suffix] pointer enumerates the reported proper suffixes. *)
Lemma suffix_spec f : 0 < f < ext → ∃ g, n_suffix (deref t f) = Some g ∧ g < ext ∧
  (g ≠ 0 → out g) ∧
  (g ≠ 0 → blice g `suffix_of` blice f ∧ length (blice g) < length (blice f)) ∧
  ∀ k, out k → blice k `suffix_of` blice f ∧ k ≠ f ↔ blice k `suffix_of` blice g.
Proof.
  intros Hf. destruct (au_link _ _ Au f Hf) as [_ (g & Hg & Hlt & Hs & Hh & Hm)].
  assert (blice f ≠ []) as Hne.
  { rewrite (root_iff _ _ _ (au_arena _ _ Au)); lia. }
  destruct (blice f) as [|x l] eqn:Hbf; [done|]. simpl in *.
  exists g. split_and!; [done|done| | |].
  - intros Hg0. destruct Hh as [Hb|(j & Hj & Ho)].
    + by apply (root_iff _ _ _ (au_arena _ _ Au)) in Hb.
    + rewrite (findBlice_complete _ _ (au_arena _ _ Au)) in Hj by done. by simplify_eq.
  - intros _. split; [by apply suffix_cons_r|]. apply suffix_length in Hs. lia.
  - intros k Hk. split.
    + intros [Hsuf Hkf]. apply Hm; [|by apply out_has_out].
      apply suffix_tail_cases in Hsuf as [Hb|]; [|done].
      exfalso. apply Hkf, blice_eq; [apply Hk|lia|congruence].
    + intros Hsuf. split; [apply suffix_cons_r; by etrans|]. intros ->.
      rewrite Hbf in Hsuf. apply suffix_length in Hsuf, Hs. simpl in *. lia.
Qed.

Context {St H : Type} (unique : St → ptr → bool * St) (hit : list node → Z → ptr → H).
Context `{!Dedup out unique}.

(** A reported node's reported suffixes are reported too; [chain_ok f] allows
    for the part of [f]'s suffix chain that is still to be walked. *)
Definition closed (s : St) : Prop :=
  ∀ j k, out j → out k → seen s j → blice k `suffix_of` blice j → seen s k.
Definition chain_ok (f : ptr) (s : St) : Prop :=
  ∀ j k, out j → out k → seen s j → blice k `suffix_of` blice j →
    seen s k ∨ (blice f `suffix_of` blice j ∧ blice k `suffix_of` blice f ∧ k ≠ f).

Lemma suffix_hits_spec i fuel : ∀ f s hits,
  0 < f < ext → length (blice f) < fuel → valid s → chain_ok f s →
  ∃ s' new, suffix_hits unique hit fuel t i f s hits = Some (s', hits ++ (hit t i <$> new)) ∧
    valid s' ∧ closed s' ∧ NoDup new ∧
    (∀ k, out k → seen s' k ↔ seen s k ∨ (blice k `suffix_of` blice f ∧ k ≠ f)) ∧
    (∀ k, k ∈ new → out k ∧ ¬ seen s k ∧ seen s' k) ∧
    (∀ k, out k → seen s' k → seen s k ∨ k ∈ new).
Proof.
  induction fuel as [|fuel IH]; intros f s hits Hf Hfuel Hv Hch; [lia|].
  destruct (suffix_spec f Hf) as (g & Hg & Hgl & Hgo & Hgs & Hsuf). cbn [suffix_hits].
  rewrite Hg, bind_some, (ai_root _ _ (au_arena _ _ Au)) by done.
  destruct (decide (g = 0)) as [->|Hg0].
  { rewrite bool_decide_true by done. exists s, []. rewrite fmap_nil, app_nil_r.
    assert (Hnone : ∀ k, out k → ¬ (blice k `suffix_of` blice f ∧ k ≠ f)).
    { intros k Hk Hks. apply Hsuf in Hks; [|done]. rewrite (ai_rootb _ _ (au_arena _ _ Au)) in Hks.
      apply suffix_nil_inv in Hks. by eapply out_nonempty. }
    split_and!; [done|done| |apply NoDup_nil_2| |set_solver|naive_solver].
    - intros j k Hj Hk Hsj Hkj. destruct (Hch j k Hj Hk Hsj Hkj) as [?|(_ & Hks)]; [done|].
      by destruct (Hnone k).
    - intros k Hk. specialize (Hnone k Hk). naive_solver. }
  rewrite bool_decide_false by done. specialize (Hgo Hg0). destruct (Hgs Hg0) as [Hgf Hglen].
  pose proof (dedup_valid s g Hv Hgo) as Hv1.
  pose proof (λ k, dedup_seen s g k Hv Hgo) as Hs1.
  pose proof (dedup_fresh s g Hv Hgo) as Hfr.
  destruct (unique s g) as [[] s1]; simpl in *.
  - destruct (IH g s1 (hits ++ [hit t i g])) as (s' & new & Heq & Hv' & Hcl & Hnd & Hseen & Hnew & Hall).
    + split; [lia|done].
    + lia.
    + done.
    + intros j k Hj Hk Hsj Hkj. apply Hs1 in Hsj as [Hsj| ->]; [| |done].
      * destruct (Hch j k Hj Hk Hsj Hkj) as [?|(Hfj & Hkf)].
        { left. apply Hs1; auto. }
        destruct (decide (k = g)) as [->|Hkg]; [left; apply Hs1; auto|].
        right. apply Hsuf in Hkf; [|done]. split_and!; [by etrans|done|done].
      * destruct (decide (k = g)) as [->|Hkg]; [left; apply Hs1; auto|]. right. done.
    + exists s', (g :: new). rewrite Heq, <-(assoc_L (++)). split_and!; try done.
      * apply NoDup_cons. split; [|done]. intros Hin. apply Hnew in Hin as (_ & Hns & _).
        apply Hns, Hs1; auto.
      * intros k Hk. rewrite Hseen, Hs1, Hsuf by done.
        destruct (decide (k = g)) as [->|]; naive_solver.
      * intros k [->|Hin]%elem_of_cons.
        -- split_and!; [done|by intros ?%Hfr|]. apply Hseen; [done|]. left. apply Hs1; auto.
        -- apply Hnew in Hin as (? & Hns & ?). split_and!; [done| |done].
           intros ?. apply Hns, Hs1; auto.
      * intros k Hk Hsk. rewrite elem_of_cons.
        destruct (Hall k Hk Hsk) as [Hs|]; [|by auto]. apply Hs1 in Hs as [?|?]; auto.
  - assert (seen s g) as Hsg by by apply Hfr.
    assert (Hsame : ∀ k, out k → seen s1 k ↔ seen s k) by (intros k Hk; rewrite Hs1; naive_solver).
    assert (Hgo' : ∀ k, out k → blice k `suffix_of` blice g → seen s k).
    { intros k Hk Hkg. destruct (Hch g k Hgo Hk Hsg Hkg) as [?|(Hfg & _)]; [done|].
      apply suffix_length in Hfg. lia. }
    exists s1, []. rewrite fmap_nil, app_nil_r. split_and!; [done|done| |apply NoDup_nil_2| |set_solver|naive_solver].
    + intros j k Hj Hk Hsj Hkj. apply Hsame; [done|]. apply Hsame in Hsj; [|done].
      destruct (Hch j k Hj Hk Hsj Hkj) as [?|(_ & Hkf)]; [done|].
      by apply Hgo', Hsuf.
    + intros k Hk. rewrite Hsame, Hsuf by done. naive_solver.
Qed.

(** Reporting the node itself, before its suffixes. *)
Definition report (f : ptr) (i : Z) (s : St) (hits : list H) : St * list H :=
  if n_output (deref t f)
  then let '(u, s') := unique s f in (s', if u then hits ++ [hit t i f] else hits)
  else (s, hits).

Lemma report_spec f i s hits : 0 < f < ext → valid s → closed s →
  ∃ s1 new, report f i s hits = (s1, hits ++ (hit t i <$> new)) ∧ valid s1 ∧ chain_ok f s1 ∧
    NoDup new ∧ (∀ k, k ∈ new → k = f ∧ out f) ∧ (∀ k, k ∈ new → ¬ seen s k) ∧
    (∀ k, out k → seen s1 k ↔ seen s k ∨ k = f) ∧
    (∀ k, out k → seen s1 k → seen s k ∨ k ∈ new).
Proof.
  intros Hf Hv Hcl. unfold report. destruct (n_output (deref t f)) eqn:Ho.
  - assert (Hof : out f) by (split_and!; [lia|done|lia]).
    pose proof (dedup_valid s f Hv Hof) as Hv1.
    pose proof (λ k, dedup_seen s f k Hv Hof) as Hs1.
    pose proof (dedup_fresh s f Hv Hof) as Hfr.
    assert (Hch : chain_ok f (unique s f).2).
    { intros j k Hj Hk Hsj Hkj. rewrite Hs1 by done. apply Hs1 in Hsj as [Hsj| ->]; [| |done].
      - left. left. by apply (Hcl j k).
      - destruct (decide (k = f)); auto. }
    destruct (unique s f) as [[] s1]; simpl in *.
    + exists s1, [f]. split_and!; try done.
      * apply NoDup_singleton.
      * by intros k ->%list_elem_of_singleton.
      * intros k ->%list_elem_of_singleton ?%Hfr. done.
      * intros k Hk Hsk. rewrite list_elem_of_singleton. by apply Hs1.
    + exists s1, []. rewrite fmap_nil, app_nil_r. assert (seen s f) by by apply Hfr.
      split_and!; try done; [by apply NoDup_nil_2|by intros k ?%elem_of_nil..|].
      intros k Hk Hsk. apply Hs1 in Hsk as [?| ->]; auto.
  - assert (Hno : ∀ k, out k → k ≠ f) by (intros k (_ & Hk & _) ->; congruence).
    exists s, []. rewrite fmap_nil, app_nil_r.
    split_and!; try done; [|by apply NoDup_nil_2|by intros k ?%elem_of_nil..| |by auto].
    + intros j k Hj Hk Hsj Hkj. left. by apply (Hcl j k).
    + intros k Hk. specialize (Hno k Hk). naive_solver.
Qed.

Lemma match_step_spec text i c n s hits : at_state text n → valid s → closed s →
  ∃ n' s' new, match_step unique hit t i c n s hits = Some (n', s', hits ++ (hit t i <$> new)) ∧
    at_state (text ++ [c]) n' ∧ valid s' ∧ closed s' ∧ NoDup new ∧
    (∀ k, out k → seen s' k ↔ seen s k ∨ blice k `suffix_of` text ++ [c]) ∧
    (∀ k, k ∈ new → out k ∧ ¬ seen s k ∧ blice k `suffix_of` text ++ [c]) ∧
    (∀ k, out k → seen s' k → seen s k ∨ k ∈ new).
Proof.
  intros Hst Hv Hcl. destruct (next_node n c) as (n1 & Hn1 & Hfs); [apply Hst|].
  destruct (at_state_next text n c n1 Hst Hfs) as [Hst' Hroot].
  unfold match_step. rewrite Hn1, bind_some.
  destruct (n_child (deref t n1) !! c) as [f|] eqn:Hf; simpl in Hst'.
  - destruct (ai_child _ _ (au_arena _ _ Au) _ _ _ (proj1 Hfs) Hf) as [Hfl _].
    fold (report f i s hits).
    destruct (report_spec f i s hits Hfl Hv Hcl)
      as (s1 & new1 & -> & Hv1 & Hch & Hnd1 & Hnew1 & Hns1 & Hseen1 & Hall1).
    destruct (suffix_hits_spec i (S (length (blice f))) f s1 (hits ++ (hit t i <$> new1)) Hfl)
      as (s2 & new2 & -> & Hv2 & Hcl2 & Hnd2 & Hseen2 & Hnew2 & Hall2); [lia|done..|].
    rewrite bind_some. exists f, s2, (new1 ++ new2).
    rewrite fmap_app, (assoc_L (++)).
    assert (Hof : ∀ k, k ∈ new1 → out k → blice k `suffix_of` text ++ [c]).
    { intros k [-> _]%Hnew1 Hk. by apply (at_state_out _ f f). }
    assert (Hseen : ∀ k, out k → seen s2 k ↔ seen s k ∨ blice k `suffix_of` text ++ [c]).
    { intros k Hk. rewrite Hseen2, Hseen1, (at_state_out _ f k Hst' Hk) by done.
      destruct (decide (k = f)) as [->|]; naive_solver. }
    split_and!; try done.
    + apply NoDup_app. split_and!; [done| |done]. intros k Hk1 Hk2.
      apply Hnew2 in Hk2 as (Ho & Hns & _). apply Hns, Hseen1; [done|]. right. by apply Hnew1.
    + intros k [Hk|Hk]%elem_of_app.
      * pose proof (Hnew1 k Hk) as [-> Hof']. split_and!; [done|by apply Hns1|by apply Hof].
      * apply Hnew2 in Hk as (Ho & Hns & Hs2).
        assert (¬ seen s k) as Hnsk by (intros Hsk; apply Hns, Hseen1; auto).
        split_and!; [done|done|]. by apply Hseen in Hs2 as [?|?].
    + intros k Hk Hsk. rewrite elem_of_app.
      destruct (Hall2 k Hk Hsk) as [Hs1|?]; [|by auto]. destruct (Hall1 k Hk Hs1); auto.
  - rewrite (Hroot eq_refl) in *. exists 0, s, []. rewrite fmap_nil, app_nil_r.
    split_and!; try done; [by apply NoDup_nil_2| |by intros k ?%elem_of_nil|by auto].
    intros k Hk. rewrite (at_state_out _ 0 k Hst' Hk), (ai_rootb _ _ (au_arena _ _ Au)).
    split; [by auto|]. intros [?|Hsuf%suffix_nil_inv]; [done|]. by eapply out_nonempty in Hk.
Qed.

(** [k]'s blice ends after the nonempty prefix [p] of the rest of the input. *)
Definition ends_at (pre input : bytes) (k : ptr) (p : bytes) : Prop :=
  p ≠ [] ∧ p `prefix_of` input ∧ blice k `suffix_of` pre ++ p.
Definition first_end (pre input : bytes) (k : ptr) (i : Z) : Prop :=
  ∃ p, ends_at pre input k p ∧ i = (Z.of_nat (length pre) + Z.of_nat (length p) - 1)%Z ∧
    ∀ p', ends_at pre input k p' → length p ≤ length p'.

Lemma ends_at_cons pre c input k p :
  ends_at pre (c :: input) k p →
  (p = [c] ∧ blice k `suffix_of` pre ++ [c]) ∨ ∃ p', p = c :: p' ∧ ends_at (pre ++ [c]) input k p'.
Proof.
  intros (Hp & Hpre & Hsuf). destruct p as [|x p]; [done|].
  apply prefix_cons_inv_1 in Hpre as Hx. apply prefix_cons_inv_2 in Hpre. subst x.
  destruct p as [|y p]; [by left|]. right. exists (y :: p). split; [done|].
  split_and!; [done|done|]. by rewrite <-(assoc_L (++)).
Qed.

Lemma ends_at_tail pre c input k p :
  ends_at (pre ++ [c]) input k p → ends_at pre (c :: input) k (c :: p).
Proof.
  intros (Hp & Hpre & Hsuf). split_and!; [done|by apply prefix_cons|].
  by rewrite <-(assoc_L (++)) in Hsuf.
Qed.

Lemma ends_at_head pre c input k :
  blice k `suffix_of` pre ++ [c] → ends_at pre (c :: input) k [c].
Proof. intros. split_and!; [done|apply prefix_cons, prefix_nil|done]. Qed.

Lemma match_loop_spec input : ∀ pre n s hits, at_state pre n → valid s → closed s →
  ∃ s' new, match_loop unique hit t (Z.of_nat (length pre)) input n s hits =
      Some (s', hits ++ ((λ p : Z * ptr, hit t p.1 p.2) <$> new)) ∧
    valid s' ∧ closed s' ∧ NoDup new.*2 ∧
    (∀ k, out k → seen s' k ↔ seen s k ∨ ∃ p, ends_at pre input k p) ∧
    (∀ i k, (i, k) ∈ new → out k ∧ ¬ seen s k ∧ first_end pre input k i) ∧
    (∀ k, out k → seen s' k → seen s k ∨ k ∈ new.*2).
Proof.
  induction input as [|c input IH]; intros pre n s hits Hst Hv Hcl; cbn [match_loop].
  - exists s, []. rewrite fmap_nil, app_nil_r.
    split_and!; try done; [by apply NoDup_nil_2| |by intros i k ?%elem_of_nil|by auto].
    intros k Hk. split; [by auto|]. intros [?|(p & Hp & Hpre & _)]; [done|].
    by apply prefix_nil_inv in Hpre.
  - destruct (match_step_spec pre (Z.of_nat (length pre)) c n s hits Hst Hv Hcl)
      as (n1 & s1 & new1 & -> & Hst1 & Hv1 & Hcl1 & Hnd1 & Hseen1 & Hnew1 & Hall1).
    rewrite bind_some.
    replace (Z.of_nat (length pre) + 1)%Z with (Z.of_nat (length (pre ++ [c])))
      by (rewrite length_app; simpl; lia).
    destruct (IH (pre ++ [c]) n1 s1 (hits ++ (hit t (Z.of_nat (length pre)) <$> new1)) Hst1 Hv1 Hcl1)
      as (s2 & new2 & -> & Hv2 & Hcl2 & Hnd2 & Hseen2 & Hnew2 & Hall2).
    exists s2, (((λ k, (Z.of_nat (length pre), k)) <$> new1) ++ new2).
    assert (Hfst : ((λ k, (Z.of_nat (length pre), k)) <$> new1).*2 = new1).
    { rewrite <-list_fmap_compose. apply list_fmap_id. }
    rewrite !fmap_app, Hfst, <-list_fmap_compose, (assoc_L (++)).
    split_and!; try done.
    + apply NoDup_app. split_and!; [done| |done]. intros k Hk1 Hk2.
      apply list_elem_of_fmap in Hk2 as ([i k'] & -> & Hk2). simpl in *.
      apply Hnew2 in Hk2 as (Ho & Hns & _). apply Hns, Hseen1; [done|]. right. by apply Hnew1.
    + intros k Hk. rewrite Hseen2, Hseen1 by done. split.
      * intros [[?|?]|(p & Hp)]; [by auto|right; eauto using ends_at_head|right; eauto using ends_at_tail].
      * intros [?|(p & Hp)]; [by auto|]. apply ends_at_cons in Hp as [[_ ?]|(p' & _ & ?)]; eauto.
    + intros i k [Hk|Hk]%elem_of_app.
      * apply list_elem_of_fmap in Hk as (k' & ? & Hk). simplify_eq.
        destruct (Hnew1 k' Hk) as (Ho & Hns & Hsuf). split_and!; [done|done|].
        exists [c]. split_and!; [by apply ends_at_head|simpl; lia|].
        intros [|x p'] [? _]; [done|simpl; lia].
      * destruct (Hnew2 i k Hk) as (Ho & Hns & p & Hp & -> & Hmin). split_and!; [done| |].
        -- intros Hsk. apply Hns, Hseen1; auto.
        -- exists (c :: p). split_and!; [by apply ends_at_tail|rewrite length_app; simpl; lia|].
           intros p' Hp'. apply ends_at_cons in Hp' as [[-> Hsuf]|(p'' & -> & Hp'')].
           ++ exfalso. apply Hns, Hseen1; auto.
           ++ apply Hmin in Hp''. simpl. lia.
    + intros k Hk Hsk. rewrite elem_of_app.
      destruct (Hall2 k Hk Hsk) as [Hs1|?]; [|by auto]. destruct (Hall1 k Hk Hs1); auto.
Qed.
End matching_spec.
