(* ===== verification/AhoCorasickSpec.v ===== *)
(** The exported operations of the Aho-Corasick matcher against the naive
    specification, for every dictionary and text, with the deduplication
    closures of [Match] and of the thread-safe variants as instances of
    [Dedup]. *)
From S2P Require Import Prelude AhoCorasick AhoCorasickTrie AhoCorasickLink AhoCorasickMatch.

(** A matcher in use: the automaton of [dict] after any number of calls. *)
Definition in_use (dict : list bytes) (m : Matcher) : Prop :=
  automaton dict m ∧ (0 ≤ counter m < 2 ^ 64 - 1)%Z.

(** What the pool may hand out: nothing, or a map filled by earlier calls. *)
Definition pool_item_ok (m : Matcher) (item : option (gmap nat Z)) : Prop :=
  ∀ heap, item = Some heap → map_Forall (λ _ g, 0 ≤ g ≤ counter m)%Z heap.

(** [i] is the index the matcher uses for the word [w]: its last one. *)
Definition index_of (dict : list bytes) (w : bytes) (i : nat) : Prop :=
  dict !! i = Some w ∧ ∀ k, dict !! k = Some w → k ≤ i.

Section spec.
Context (dict : list bytes) (m : Matcher) (Hm : in_use dict m).
Notation t := (trie m).
Notation blice j := (n_b (deref t j)).
Notation outp := (out m).

Let Au : automaton dict m := proj1 Hm.

Lemma generation_eq : u64 (counter m + 1) = (counter m + 1)%Z.
Proof. unfold u64. rewrite Z.mod_small; [done|]. pose proof (proj2 Hm). lia. Qed.

Lemma out_index j : outp j → index_of dict (blice j) (n_index (deref t j)).
Proof. intros (Hj & Ho & _). by apply Au. Qed.

Lemma out_index_inj j k : outp j → outp k → n_index (deref t j) = n_index (deref t k) → j = k.
Proof.
  intros Hj Hk Heq. destruct (out_index j Hj) as [Hij _], (out_index k Hk) as [Hik _].
  rewrite Heq, Hik in Hij. eapply (blice_eq dict m Au); [apply Hj|apply Hk|congruence].
Qed.

(** Every nonempty word has a reported node. *)
Lemma word_out w : w ∈ dict → w ≠ [] → ∃ j, outp j ∧ blice j = w.
Proof.
  intros Hw Hne. destruct (au_words _ _ Au w Hw) as [j Hj].
  apply (findBlice_iff _ _ (au_arena _ _ Au)) in Hj as [Hlt <-]. exists j. split; [|done].
  split_and!; [done| |].
  - rewrite (au_output _ _ Au) by done. by apply bool_decide_eq_true.
  - intros ->. by rewrite (ai_rootb _ _ (au_arena _ _ Au)) in Hne.
Qed.

Lemma out_in_dict j : outp j → blice j ∈ dict.
Proof. intros Hj. eapply list_elem_of_lookup_2, out_index, Hj. Qed.

(** *** The map of the thread-safe variants *)

#[local] Instance heap_dedup : Dedup outp (unique_heap t (counter m + 1)).
Proof.
  refine {| valid heap := map_Forall (λ _ g, 0 ≤ g ≤ counter m + 1)%Z heap; seen heap j := default 0%Z (heap !! n_index (deref t j)) = (counter m + 1)%Z |}.
  - intros heap j Hv Hj. unfold unique_heap. case_decide; simpl; [done|].
    apply map_Forall_insert_2; [|done]. pose proof (proj2 Hm). lia.
  - intros heap j k _ Hj Hk. unfold unique_heap. case_decide as Hd; simpl.
    + split; [by left|]. by intros [?| ->].
    + rewrite lookup_insert. case_decide as Hjk; simpl.
      * split; [intros _; right; symmetry; by apply out_index_inj|done].
      * split; [by left|]. by intros [?| ->].
  - intros heap j _ Hj. unfold unique_heap. by case_decide.
Defined.

Lemma pool_valid item : pool_item_ok m item →
  map_Forall (λ _ g, 0 ≤ g ≤ counter m + 1)%Z (default ∅ item).
Proof.
  intros Hok. destruct item as [heap|]; simpl; [|apply map_Forall_empty].
  eapply map_Forall_impl; [by apply Hok|]. intros i g Hg. simpl in Hg. lia.
Qed.

Lemma pool_unseen item j : pool_item_ok m item → ¬ seen (unique := unique_heap t (counter m + 1)) (default ∅ item) j.
Proof.
  intros Hok. simpl. pose proof (proj2 Hm) as Hc. destruct item as [heap|]; simpl; [|rewrite lookup_empty; simpl; lia].
  destruct (heap !! _) as [g|] eqn:Hg; simpl; [|lia].
  specialize (Hok heap eq_refl _ _ Hg). simpl in Hok. lia.
Qed.

(** *** The counters of [Match] *)

#[local] Instance counter_dedup : Dedup outp (unique_counter (counter m + 1)).
Proof.
  refine {| valid t' := length t' = extent m; seen t' j := n_counter (deref t' j) = (counter m + 1)%Z |}.
  - intros t' j Hv Hj. unfold unique_counter. case_decide; simpl; [done|by rewrite length_store].
  - intros t' j k Hv Hj Hk. unfold unique_counter. case_decide as Hd; simpl.
    + split; [by left|]. by intros [?| ->].
    + destruct (decide (j = k)) as [->|Hjk].
      * rewrite deref_store_eq by (rewrite Hv; apply Hk). simpl. naive_solver.
      * rewrite deref_store_ne by done. naive_solver.
  - intros t' j Hv Hj. unfold unique_counter. by case_decide.
Defined.

(** *** The loop from the root *)

Lemma match_run {St H} (unique : St → ptr → bool * St) (hit : list node → Z → ptr → H)
    `{!Dedup outp unique} input s : valid s → (∀ j, outp j → ¬ seen s j) →
  ∃ s' new, match_loop unique hit t 0 input 0 s [] = Some (s', (λ p : Z * ptr, hit t p.1 p.2) <$> new) ∧
    valid s' ∧ NoDup new.*2 ∧
    (∀ i k, (i, k) ∈ new → outp k ∧ first_end m [] input k i) ∧
    (∀ k, outp k → infix_of (blice k) input → k ∈ new.*2).
Proof.
  intros Hv Hns. destruct (match_loop_spec dict m Au unique hit input [] 0 s [])
    as (s' & new & Heq & Hv' & _ & Hnd & Hseen & Hnew & Hall).
  - by apply at_state_nil with dict.
  - done.
  - intros j k Hj Hk Hsj. by destruct (Hns j).
  - exists s', new. split_and!; [done|done|done| |].
    + intros i k Hik. by destruct (Hnew i k Hik) as (? & _ & ?).
    + intros k Hk Hinf. destruct (Hall k Hk) as [?|?]; [|by destruct (Hns k)|done].
      apply Hseen; [done|]. right. apply infix_suffix_prefix in Hinf as (p & Hp & Hsuf).
      exists p. split_and!; [|done|done]. intros ->. apply suffix_nil_inv in Hsuf.
      by eapply (out_nonempty dict m Au).
Qed.

(** Where a hit lies in the text. *)
Lemma first_end_slice input k i : first_end m [] input k i → outp k →
  let len := Z.of_nat (length (blice k)) in
  (0 ≤ i - len + 1)%Z ∧ (i < Z.of_nat (length input))%Z ∧
  take (length (blice k)) (drop (Z.to_nat (i - len + 1)) input) = blice k ∧
  ∀ p, p `prefix_of` input → blice k `suffix_of` p → (i + 1 ≤ Z.of_nat (length p))%Z.
Proof.
  intros (p & (Hp & [r ->] & [q Hq]) & -> & Hmin) Hk. simpl in *. subst p.
  rewrite !length_app. split_and!; [lia|lia| |].
  - replace (Z.to_nat _) with (length q) by lia.
    rewrite <-(assoc_L (++)), drop_app_length. by rewrite take_app_length.
  - intros p' Hp' Hsuf. rewrite <-length_app.
    assert (length (q ++ blice k) ≤ length p') as Hle; [|rewrite length_app in *; lia].
    apply Hmin. split_and!; [|done|done]. intros ->. apply suffix_nil_inv in Hsuf.
    by eapply (out_nonempty dict m Au).
Qed.

Lemma Contains_loop_spec input : ∀ pre n, at_state m pre n →
  ∃ b, Contains_loop t n input = Some b ∧
    (b = true ↔ ∃ k p, outp k ∧ ends_at m pre input k p).
Proof.
  induction input as [|c input IH]; intros pre n Hst; cbn [Contains_loop].
  - exists false. split; [done|]. split; [done|].
    intros (k & p & _ & Hp & Hpre & _). by apply prefix_nil_inv in Hpre.
  - destruct (next_node_contains dict m Au n c) as (n1 & -> & Hfs); [apply Hst|].
    rewrite bind_some. destruct (at_state_next dict m Au pre n c n1 Hst Hfs) as [Hst' Hroot].
    destruct (n_child (deref t n1) !! c) as [f|] eqn:Hf; simpl in Hst'.
    + destruct (ai_child _ _ (au_arena _ _ Au) _ _ _ (proj1 Hfs) Hf) as [Hfl _].
      assert (Hyes : ∀ k, outp k → blice k `suffix_of` blice f →
        ∃ b, Some true = Some b ∧ (b = true ↔ ∃ k p, outp k ∧ ends_at m pre (c :: input) k p)).
      { intros k Hk Hsuf. exists true. split; [done|]. split; [|done]. intros _.
        exists k, [c]. split; [done|]. apply ends_at_head.
        by apply (at_state_out dict m Au _ f k Hst' Hk). }
      destruct (n_output (deref t f)) eqn:Ho.
      { apply (Hyes f); [split_and!; [lia|done|lia]|done]. }
      destruct (suffix_spec dict m Au f Hfl) as (g & -> & Hgl & Hgo & Hgs & Hsuf).
      rewrite bind_some, (ai_root _ _ (au_arena _ _ Au)) by done.
      case_bool_decide as Hg0; [|by apply (Hyes g); [auto|apply Hgs]].
      subst g. destruct (IH (pre ++ [c]) f Hst') as (b & -> & Hb). exists b. split; [done|].
      rewrite Hb. split; intros (k & p & Hk & Hp); exists k.
      * exists (c :: p). split; [done|]. by apply ends_at_tail.
      * apply ends_at_cons in Hp as [[-> Hks]|(p' & -> & Hp')]; [|by exists p'].
        exfalso. apply (at_state_out dict m Au _ f k Hst' Hk) in Hks.
        assert (k ≠ f) as Hkf by (intros ->; destruct Hk as (_ & ? & _); congruence).
        assert (blice k `suffix_of` blice 0) as Hk0 by by apply Hsuf.
        rewrite (ai_rootb _ _ (au_arena _ _ Au)) in Hk0. apply suffix_nil_inv in Hk0.
        by eapply (out_nonempty dict m Au).
    + rewrite (Hroot eq_refl) in *. destruct (IH (pre ++ [c]) 0 Hst') as (b & -> & Hb).
      exists b. split; [done|]. rewrite Hb. split; intros (k & p & Hk & Hp); exists k.
      * exists (c :: p). split; [done|]. by apply ends_at_tail.
      * apply ends_at_cons in Hp as [[-> Hks]|(p' & -> & Hp')]; [|by exists p'].
        exfalso. apply (at_state_out dict m Au _ 0 k Hst' Hk) in Hks.
        rewrite (ai_rootb _ _ (au_arena _ _ Au)) in Hks. apply suffix_nil_inv in Hks.
        by eapply (out_nonempty dict m Au).
Qed.
End spec.

(** Distinct nodes are reported under distinct indices. *)
Lemma NoDup_fmap_hints dict m {H} (f : Z * ptr → H) (hint : H → nat) (new : list (Z * ptr)) :
  in_use dict m → (∀ i k, hint (f (i, k)) = n_index (deref (trie m) k)) →
  (∀ i k, (i, k) ∈ new → out m k) → NoDup new.*2 → NoDup (hint ∘ f <$> new).
Proof.
  intros Hu Hh Hout Hnd. induction new as [|[i k] new IH]; [by apply NoDup_nil_2|].
  rewrite !fmap_cons in *. apply NoDup_cons in Hnd as [Hni Hnd]. apply NoDup_cons. split.
  - intros Hin. apply list_elem_of_fmap in Hin as ([i' k'] & Heq & Hik). simpl in *.
    rewrite !Hh in Heq. apply (out_index_inj dict m Hu) in Heq as ->; [|set_solver..].
    apply Hni. by apply (list_elem_of_fmap_2 snd new (i', k')).
  - apply IH; [|done]. set_solver.
Qed.

(** *** Two closures that agree give the same hits *)

Section simulation.
Context (dict : list bytes) (m : Matcher) (Au : automaton dict m).
Context {St1 St2 H1 H2 : Type} (u1 : St1 → ptr → bool * St1) (u2 : St2 → ptr → bool * St2).
Context (hit1 : list node → Z → ptr → H1) (hit2 : list node → Z → ptr → H2) (view : H2 → H1).
Context `{!Dedup (out m) u1, !Dedup (out m) u2}.
Context (Hview : ∀ i j, hit1 (trie m) i j = view (hit2 (trie m) i j)).

Definition sim (s1 : St1) (s2 : St2) : Prop :=
  valid s1 ∧ valid s2 ∧ ∀ k, out m k → seen s1 k ↔ seen s2 k.

Lemma sim_unique s1 s2 j : sim s1 s2 → out m j →
  (u1 s1 j).1 = (u2 s2 j).1 ∧ sim (u1 s1 j).2 (u2 s2 j).2.
Proof.
  intros (Hv1 & Hv2 & Hs) Hj. split.
  - apply eq_true_iff_eq. rewrite <-!not_false_iff_true, !dedup_fresh by done. by rewrite Hs.
  - split_and!; [by apply dedup_valid..|]. intros k Hk. rewrite !dedup_seen by done. by rewrite Hs.
Qed.

Lemma sim_suffix_hits i fuel : ∀ f s1 s2 hits1 hits2,
  0 < f < extent m → length (n_b (deref (trie m) f)) < fuel →
  sim s1 s2 → hits1 = view <$> hits2 →
  ∃ s1' s2' hits2', suffix_hits u1 hit1 fuel (trie m) i f s1 hits1 = Some (s1', view <$> hits2') ∧
    suffix_hits u2 hit2 fuel (trie m) i f s2 hits2 = Some (s2', hits2') ∧ sim s1' s2'.
Proof.
  induction fuel as [|fuel IH]; intros f s1 s2 hits1 hits2 Hf Hfuel Hs ->; [lia|].
  cbn [suffix_hits]. destruct (suffix_spec dict m Au f Hf) as (g & -> & Hgl & Hgo & Hgs & _).
  rewrite !bind_some. destruct (n_root (deref (trie m) g)) eqn:Hr; [by exists s1, s2, hits2|].
  assert (g ≠ 0) as Hg0.
  { intros ->. rewrite (ai_root _ _ (au_arena _ _ Au)) in Hr by done. done. }
  destruct (sim_unique s1 s2 g Hs (Hgo Hg0)) as [Hb Hs'].
  destruct (u1 s1 g) as [b1 s1'], (u2 s2 g) as [b2 s2']. simpl in *. subst b2.
  destruct b1; [|by exists s1', s2', hits2].
  apply IH; [|destruct (Hgs Hg0); lia|done|by rewrite fmap_app, Hview]. lia.
Qed.

Lemma sim_step i c n s1 s2 hits2 : n < extent m → sim s1 s2 →
  ∃ n' s1' s2' hits2', match_step u1 hit1 (trie m) i c n s1 (view <$> hits2) = Some (n', s1', view <$> hits2') ∧
    match_step u2 hit2 (trie m) i c n s2 hits2 = Some (n', s2', hits2') ∧ n' < extent m ∧ sim s1' s2'.
Proof.
  intros Hn Hs. unfold match_step. destruct (next_node dict m Au n c Hn) as (n1 & -> & [Hn1 _]).
  rewrite !bind_some. destruct (n_child (deref (trie m) n1) !! c) as [f|] eqn:Hf;
    [|by exists n1, s1, s2, hits2].
  destruct (ai_child _ _ (au_arena _ _ Au) _ _ _ Hn1 Hf) as [Hfl _].
  destruct (n_output (deref (trie m) f)) eqn:Ho.
  - assert (Hof : out m f) by (split_and!; [lia|done|lia]).
    destruct (sim_unique s1 s2 f Hs Hof) as [Hb Hs'].
    destruct (u1 s1 f) as [b1 s1'], (u2 s2 f) as [b2 s2']. cbn [fst snd] in *. subst b2.
    destruct (sim_suffix_hits i (S (length (n_b (deref (trie m) f)))) f s1' s2'
      (if b1 then (view <$> hits2) ++ [hit1 (trie m) i f] else view <$> hits2)
      (if b1 then hits2 ++ [hit2 (trie m) i f] else hits2))
      as (s1'' & s2'' & hits2' & -> & -> & Hs''); [done|lia|done|destruct b1; by rewrite ?fmap_app, ?Hview|].
    exists f, s1'', s2'', hits2'. split_and!; [done..|lia|done].
  - destruct (sim_suffix_hits i (S (length (n_b (deref (trie m) f)))) f s1 s2 (view <$> hits2) hits2)
      as (s1'' & s2'' & hits2' & -> & -> & Hs''); [done|lia|done..|].
    exists f, s1'', s2'', hits2'. split_and!; [done..|lia|done].
Qed.

Lemma sim_loop input : ∀ i n s1 s2 hits2, n < extent m → sim s1 s2 →
  ∃ s1' s2' hits2', match_loop u1 hit1 (trie m) i input n s1 (view <$> hits2) = Some (s1', view <$> hits2') ∧
    match_loop u2 hit2 (trie m) i input n s2 hits2 = Some (s2', hits2') ∧ sim s1' s2'.
Proof.
  induction input as [|c input IH]; intros i n s1 s2 hits2 Hn Hs; cbn [match_loop].
  - by exists s1, s2, hits2.
  - destruct (sim_step i c n s1 s2 hits2 Hn Hs) as (n' & s1' & s2' & hits2' & -> & -> & Hn' & Hs').
    rewrite !bind_some. by apply IH.
Qed.
End simulation.

(** *** The theorems *)

(** Where a reported occurrence lies in the text: it is the word's first one. *)
Definition hit_at (input w : bytes) (h : MatchResultWithPos) : Prop :=
  (0 ≤ StartPos h)%Z ∧ EndPos h = (StartPos h + Z.of_nat (length w) - 1)%Z ∧
  (EndPos h < Z.of_nat (length input))%Z ∧
  take (length w) (drop (Z.to_nat (StartPos h)) input) = w ∧
  ∀ p, p `prefix_of` input → w `suffix_of` p → (EndPos h + 1 ≤ Z.of_nat (length p))%Z.

(** The matcher after [c] calls: only the counter has moved. *)
Definition after_calls (m : Matcher) (c : Z) : Matcher :=
  mk_matcher c (trie m) (extent m) (root m).

Lemma automaton_after dict m c : automaton dict m → automaton dict (after_calls m c).
Proof. intros [?????????]. by split. Qed.

(** The specification the callers of the matcher use. *)
Lemma match_with_pos_spec dict c item input :
  (0 ≤ c < 2 ^ 64 - 1)%Z →
  (∀ heap, item = Some heap → map_Forall (λ _ g, 0 ≤ g ≤ c)%Z heap) →
  ∃ m heap hits, NewMatcher dict = Some m ∧
    MatchThreadSafeWithPos (after_calls m c) item input = Some (after_calls m (c + 1), heap, hits) ∧
    map_Forall (λ _ g, 0 ≤ g ≤ c + 1)%Z heap ∧
    NoDup (Hint_ <$> hits) ∧
    (∀ h, h ∈ hits → ∃ w, index_of dict w (Hint_ h) ∧ w ≠ [] ∧ hit_at input w h) ∧
    (∀ w, w ∈ dict → w ≠ [] → infix_of w input → ∃ h, h ∈ hits ∧ index_of dict w (Hint_ h)).
Proof.
  intros Hc Hitem. destruct (buildTrie_automaton dict) as (m & Hm & Au & _).
  set (mc := after_calls m c).
  assert (in_use dict mc) as Hu by (split; [by apply automaton_after|done]).
  pose (D := heap_dedup dict mc Hu).
  destruct (match_run dict mc Hu (unique_heap (trie mc) (counter mc + 1)) hit_with_pos input
    (default ∅ item)) as (heap & new & Hrun & Hv & Hnd & Hnew & Hall);
    [by apply pool_valid|intros; by apply pool_unseen|].
  exists m, heap, ((λ p : Z * nat, hit_with_pos (trie mc) p.1 p.2) <$> new).
  split_and!; [done| |exact Hv| | |].
  - fold mc. unfold MatchThreadSafeWithPos. rewrite (au_root _ _ (proj1 Hu)), bind_some.
    unfold matchWithPos. rewrite (generation_eq _ _ Hu), Hrun, bind_some.
    unfold after_calls. by rewrite (au_root _ _ Au).
  - rewrite <-list_fmap_compose. apply (NoDup_fmap_hints dict mc); [done|done| |done].
    intros i k Hik. by apply (Hnew i).
  - intros h Hh. apply list_elem_of_fmap in Hh as ([i k] & -> & Hik).
    destruct (Hnew i k Hik) as [Hk Hfe]. exists (n_b (deref (trie mc) k)). cbn [fst snd]. split_and!.
    + by apply (out_index dict mc Hu).
    + by apply (out_nonempty dict mc (proj1 Hu)).
    + destruct (first_end_slice dict mc Hu input k i Hfe Hk) as (H1 & H2 & H3 & H4).
      unfold hit_at, hit_with_pos. cbn [StartPos EndPos]. rewrite decide_False by lia.
      split_and!; [lia|lia|done|done|done].
  - intros w Hw Hne Hinf. destruct (word_out dict mc Hu w Hw Hne) as (k & Hk & <-).
    specialize (Hall k Hk Hinf). apply list_elem_of_fmap in Hall as ([i k'] & -> & Hik).
    exists (hit_with_pos (trie mc) i k'). split; [apply list_elem_of_fmap; by exists (i, k')|].
    by apply (out_index dict mc Hu).
Qed.

(** C1: on every dictionary [NewMatcher] succeeds (it never runs out of
    preallocated nodes, never dereferences nil, and its loops end), and
    [MatchThreadSafeWithPos] then reports, for every text, exactly the
    nonempty words that occur in it: each once, under its last index in the
    dictionary, at its first occurrence; whatever map the pool supplies, and
    it leaves a map the next call may be given. *)
Theorem MatchThreadSafeWithPos_correct dict c item input :
  (0 ≤ c < 2 ^ 64 - 1)%Z →
  (∀ heap, item = Some heap → map_Forall (λ _ g, 0 ≤ g ≤ c)%Z heap) →
  ∃ m heap hits, NewMatcher dict = Some m ∧
    MatchThreadSafeWithPos (after_calls m c) item input = Some (after_calls m (c + 1), heap, hits) ∧
    map_Forall (λ _ g, 0 ≤ g ≤ c + 1)%Z heap ∧
    NoDup (Hint_ <$> hits) ∧
    (∀ h, h ∈ hits → ∃ w, index_of dict w (Hint_ h) ∧ w ≠ [] ∧ hit_at input w h) ∧
    (∀ w, w ∈ dict → w ≠ [] → infix_of w input → ∃ h, h ∈ hits ∧ index_of dict w (Hint_ h)).
Proof. apply match_with_pos_spec. Qed.

(** [Contains] answers whether some nonempty word of the dictionary occurs
    in the text, for every dictionary and text, without panicking. *)
Theorem Contains_correct dict input :
  ∃ m b, NewMatcher dict = Some m ∧ Contains m input = Some b ∧
    (b = true ↔ ∃ w, w ∈ dict ∧ w ≠ [] ∧ infix_of w input).
Proof.
  destruct (buildTrie_automaton dict) as (m & Hm & Au & Hc).
  assert (in_use dict m) as Hu by (split; [done|rewrite Hc; lia]).
  destruct (Contains_loop_spec dict m Hu input [] 0 (at_state_nil dict m Au)) as (b & Hb & Hspec).
  exists m, b. split_and!; [done|by unfold Contains; rewrite (au_root _ _ Au)|].
  rewrite Hspec. split.
  - intros (k & p & Hk & Hp & Hpre & Hsuf). exists (n_b (deref (trie m) k)).
    split_and!; [by apply (out_in_dict dict m Hu)|by apply (out_nonempty dict m Au)|].
    apply infix_suffix_prefix. by exists p.
  - intros (w & Hw & Hne & Hinf). destruct (word_out dict m Hu w Hw Hne) as (k & Hk & <-).
    apply infix_suffix_prefix in Hinf as (p & Hp & Hsuf). exists k, p.
    split; [done|]. split_and!; [|done|done]. by intros ->; apply suffix_nil_inv in Hsuf.
Qed.

(** The three matching functions agree: [Match] (which deduplicates with
    the nodes' counters), [MatchThreadSafe] and [MatchThreadSafeWithPos]
    (which deduplicate with a pooled map) return the same word indices in the
    same order. *)
Theorem match_variants_agree dict c item input :
  (0 ≤ c < 2 ^ 64 - 1)%Z →
  (∀ heap, item = Some heap → map_Forall (λ _ g, 0 ≤ g ≤ c)%Z heap) →
  ∃ m m' heap heap' hits,
    NewMatcher dict = Some m ∧
    MatchThreadSafeWithPos (after_calls m c) item input = Some (after_calls m (c + 1), heap, hits) ∧
    MatchThreadSafe (after_calls m c) item input = Some (after_calls m (c + 1), heap', Hint_ <$> hits) ∧
    Match (after_calls m c) input = Some (m', Hint_ <$> hits).
Proof.
  intros Hc Hitem. destruct (buildTrie_automaton dict) as (m & Hm & Au & _).
  set (mc := after_calls m c).
  assert (in_use dict mc) as Hu by (split; [by apply automaton_after|done]).
  pose proof (proj1 Hu) as Auc.
  pose (Dh := heap_dedup dict mc Hu). pose (Dc := counter_dedup mc).
  assert (0 < extent mc) as Hpos by apply (au_arena _ _ Auc).
  destruct (sim_loop dict mc Auc (unique_heap (trie mc) (counter mc + 1))
    (unique_heap (trie mc) (counter mc + 1)) hit_index hit_with_pos Hint_ (λ _ _, eq_refl)
    input 0%Z 0 (default ∅ item) (default ∅ item) [] Hpos) as (h1 & h2 & hits & Hr1 & Hr2 & _).
  { split_and!; [by apply pool_valid..|done]. }
  destruct (sim_loop dict mc Auc (unique_counter (counter mc + 1))
    (unique_heap (trie mc) (counter mc + 1)) hit_index hit_with_pos Hint_ (λ _ _, eq_refl)
    input 0%Z 0 (trie mc) (default ∅ item) [] Hpos) as (t' & h3 & hits3 & Hr3 & Hr4 & _).
  { split_and!; [apply Auc|by apply pool_valid|]. intros k Hk. split.
    - simpl. intros Hs. rewrite (au_counter _ _ Auc) in Hs by apply Hk. simpl in Hs. lia.
    - intros Hs. by destruct (pool_unseen dict mc Hu item k). }
  rewrite Hr2 in Hr4. injection Hr4 as <- <-.
  exists m, (mk_matcher (c + 1) t' (extent m) (root m)), h2, h1, hits.
  fold mc. unfold MatchThreadSafeWithPos, MatchThreadSafe, Match, matchWithPos, match_.
  rewrite (generation_eq _ _ Hu), (au_root _ _ Auc), !bind_some.
  rewrite fmap_nil in Hr1, Hr3. rewrite Hr1, Hr2, Hr3, !bind_some.
  unfold after_calls. by rewrite (au_root _ _ Au).
Qed.

Lemma MatchThreadSafeWithPos_correct_witness :
  ∃ m heap hits h, NewMatcher [bs "he"; bs "she"] = Some m ∧
    MatchThreadSafeWithPos (after_calls m 7) None (bs "ushers") = Some (after_calls m 8, heap, hits) ∧
    h ∈ hits ∧ index_of [bs "he"; bs "she"] (bs "she") (Hint_ h).
Proof.
  destruct (MatchThreadSafeWithPos_correct [bs "he"; bs "she"] 7 None (bs "ushers"))
    as (m & heap & hits & Hm & Hrun & _ & _ & _ & Hall); [lia|discriminate|].
  destruct (Hall (bs "she")) as (h & Hin & Hix); [apply list_elem_of_further, list_elem_of_here|discriminate| |].
  - exists (bs "u"), (bs "rs"). reflexivity.
  - exists m, heap, hits, h. repeat split; first [exact Hm|exact Hrun|exact Hin|apply Hix].
Defined.

Lemma match_variants_agree_witness :
  ∃ m m' heap heap' hits, NewMatcher [bs "he"; bs "she"] = Some m ∧
    MatchThreadSafeWithPos (after_calls m 0) None (bs "ushers") = Some (after_calls m 1, heap, hits) ∧
    MatchThreadSafe (after_calls m 0) None (bs "ushers") = Some (after_calls m 1, heap', Hint_ <$> hits) ∧
    Match (after_calls m 0) (bs "ushers") = Some (m', Hint_ <$> hits).
Proof. apply (match_variants_agree [bs "he"; bs "she"] 0 None (bs "ushers")); [lia|discriminate]. Defined.
