(* ===== verification/GoLib.v ===== *)
(** The parts of the Go language and standard library the components use:
    [strings], [strconv], [unicode/utf8] on byte sequences, each as an
    executable function, with the lemmas the components share. *)
From stdpp Require Export pretty.
From Stdlib Require Import Sorting.Sorted.
From S2P Require Import Prelude.
Open Scope Z_scope.

(** ** Bytes and code points *)

Definition byte_Z (c : ascii) : Z := Z.of_N (N_of_ascii c).
Definition Z_byte (z : Z) : ascii := ascii_of_N (Z.to_N z).

Lemma byte_Z_range c : 0 ≤ byte_Z c < 256.
Proof. unfold byte_Z. pose proof (N_ascii_bounded c). lia. Qed.

(** Byte order on strings, as [sort.Strings] uses it. *)
Fixpoint bytes_leb (a b : bytes) : bool :=
  match a, b with
  | [], _ => true
  | _, [] => false
  | x :: a', y :: b' =>
      if decide (byte_Z x < byte_Z y) then true
      else if decide (byte_Z y < byte_Z x) then false else bytes_leb a' b'
  end.

(** [sort.Strings] *)
Fixpoint insert_sorted (x : bytes) (l : list bytes) : list bytes :=
  match l with
  | [] => [x]
  | y :: l' => if bytes_leb x y then x :: l else y :: insert_sorted x l'
  end.
Definition sort_bytes (l : list bytes) : list bytes := foldr insert_sorted [] l.
Lemma insert_sorted_perm y l : insert_sorted y l ≡ₚ y :: l.
Proof. induction l as [|z l IH]; simpl; [done|]. case_match; [done|]. by rewrite IH, Permutation_swap. Qed.
Lemma sort_bytes_perm l : sort_bytes l ≡ₚ l.
Proof. induction l as [|x l IH]; simpl; [done|]. by rewrite insert_sorted_perm, IH. Qed.

Definition bytes_le (a b : bytes) : Prop := bytes_leb a b = true.
Lemma bytes_le_total a b : bytes_leb a b = false → bytes_le b a.
Proof.
  unfold bytes_le. revert b. induction a as [|x a IH]; intros [|y b] Hab; try done. cbn in *.
  destruct (decide (byte_Z x < byte_Z y)); [done|]. destruct (decide (byte_Z y < byte_Z x)); [done|]. auto.
Qed.
Lemma byte_Z_inj x y : byte_Z x = byte_Z y → x = y.
Proof. unfold byte_Z. intros H. rewrite <- (ascii_N_embedding x), <- (ascii_N_embedding y). f_equal. lia. Qed.
#[export] Instance bytes_le_trans : Transitive bytes_le.
Proof.
  unfold bytes_le. intros a. induction a as [|x a IH]; intros [|y b] [|z c] Hab Hbc; try done. cbn in *. repeat case_decide; try done; try lia. by eapply IH.
Qed.
Lemma bytes_le_antisym a b : bytes_le a b → bytes_le b a → a = b.
Proof.
  unfold bytes_le. revert b. induction a as [|x a IH]; intros [|y b] Hab Hba; try done. cbn in *. repeat case_decide; try done; try lia.
  f_equal; [apply byte_Z_inj; lia|auto].
Qed.
Lemma insert_sorted_sorted x l : StronglySorted bytes_le l → StronglySorted bytes_le (insert_sorted x l).
Proof.
  induction 1 as [|y l Hl IH Hy]; cbn; [repeat constructor|]. destruct (bytes_leb x y) eqn:Hxy.
  - constructor; [by constructor|]. constructor; [done|]. eapply Forall_impl; [exact Hy|]. intros z. by apply (transitivity (R := bytes_le)).
  - constructor; [done|]. rewrite insert_sorted_perm. constructor; [by apply bytes_le_total|done].
Qed.
Lemma sort_bytes_sorted l : StronglySorted bytes_le (sort_bytes l).
Proof. induction l as [|x l IH]; cbn; [constructor|]. by apply insert_sorted_sorted. Qed.

(** [len(s)] *)
Definition len {A} (s : list A) : Z := Z.of_nat (length s).

(** [s[a:b]]; [None] is the slice-bounds panic. *)
Definition slice {A} (s : list A) (a b : Z) : option (list A) :=
  if decide (0 ≤ a ≤ b ∧ b ≤ len s)
  then Some (take (Z.to_nat (b - a)) (drop (Z.to_nat a) s)) else None.

(** [s[i]]; [None] is the index panic. *)
Definition index_at {A} (s : list A) (i : Z) : option A :=
  if decide (0 ≤ i) then s !! Z.to_nat i else None.

(** ** strings *)

Definition HasPrefix (s p : bytes) : bool := bool_decide (p `prefix_of` s).
Definition HasSuffix (s p : bytes) : bool := bool_decide (p `suffix_of` s).
Definition TrimPrefix (s p : bytes) : bytes :=
  if HasPrefix s p then drop (length p) s else s.
Definition TrimSuffix (s p : bytes) : bytes :=
  if HasSuffix s p then take (length s - length p) s else s.

(** Cuts [s] at the first occurrence of [sep]: [strings.Cut]. *)
Fixpoint Cut (s sep : bytes) : option (bytes * bytes) :=
  if HasPrefix s sep then Some ([], drop (length sep) s)
  else match s with
       | [] => None
       | c :: s' => (λ p : bytes * bytes, (c :: p.1, p.2)) <$> Cut s' sep
       end.

Definition Contains (s sub : bytes) : bool := if Cut s sub then true else false.

(** [strings.Index]: -1 when [sub] does not occur. *)
Definition Index (s sub : bytes) : Z :=
  match Cut s sub with Some (a, _) => len a | None => -1 end.

Fixpoint Split_fuel (n : nat) (s sep : bytes) : list bytes :=
  match n with
  | O => [s]
  | S n => match Cut s sep with
           | Some (a, b) => a :: Split_fuel n b sep
           | None => [s]
           end
  end.

(** [strings.Split] for a nonempty separator: each cut consumes a byte, so the
    length of [s] is enough fuel. *)
Definition Split (s sep : bytes) : list bytes := Split_fuel (length s) s sep.

Fixpoint Join (l : list bytes) (sep : bytes) : bytes :=
  match l with
  | [] => []
  | [x] => x
  | x :: l' => x ++ sep ++ Join l' sep
  end.

(** [strings.ReplaceAll] for a nonempty [old]. *)
Definition ReplaceAll (s old new : bytes) : bytes := Join (Split s old) new.

Definition to_lower_byte (c : ascii) : ascii :=
  let z := byte_Z c in if decide (65 ≤ z ≤ 90) then Z_byte (z + 32) else c.
Definition to_upper_byte (c : ascii) : ascii :=
  let z := byte_Z c in if decide (97 ≤ z ≤ 122) then Z_byte (z - 32) else c.

(** ** unicode/utf8 *)

Definition RuneError : Z := 0xFFFD.

Definition is_cont (c : Z) : bool := bool_decide (0x80 ≤ c ≤ 0xBF).

(** [utf8.DecodeRune]: the rune and its width; an invalid or truncated
    sequence is [RuneError] of width 1. *)
Definition DecodeRune (s : bytes) : option (Z * nat) :=
  match byte_Z <$> s with
  | [] => None
  | b0 :: r =>
      if decide (b0 < 0x80) then Some (b0, 1%nat)
      else if decide (0xC2 ≤ b0 ≤ 0xDF) then
        match r with
        | b1 :: _ => if is_cont b1 then Some (Z.lor (Z.shiftl (Z.land b0 0x1F) 6) (Z.land b1 0x3F), 2%nat)
                     else Some (RuneError, 1%nat)
        | _ => Some (RuneError, 1%nat)
        end
      else if decide (0xE0 ≤ b0 ≤ 0xEF) then
        match r with
        | b1 :: b2 :: _ =>
            let lo := if decide (b0 = 0xE0) then 0xA0 else 0x80 in
            let hi := if decide (b0 = 0xED) then 0x9F else 0xBF in
            if bool_decide (lo ≤ b1 ≤ hi) && is_cont b2
            then Some (Z.lor (Z.lor (Z.shiftl (Z.land b0 0x0F) 12) (Z.shiftl (Z.land b1 0x3F) 6)) (Z.land b2 0x3F), 3%nat)
            else Some (RuneError, 1%nat)
        | _ => Some (RuneError, 1%nat)
        end
      else if decide (0xF0 ≤ b0 ≤ 0xF4) then
        match r with
        | b1 :: b2 :: b3 :: _ =>
            let lo := if decide (b0 = 0xF0) then 0x90 else 0x80 in
            let hi := if decide (b0 = 0xF4) then 0x8F else 0xBF in
            if bool_decide (lo ≤ b1 ≤ hi) && is_cont b2 && is_cont b3
            then Some (Z.lor (Z.lor (Z.shiftl (Z.land b0 0x07) 18) (Z.shiftl (Z.land b1 0x3F) 12))
                             (Z.lor (Z.shiftl (Z.land b2 0x3F) 6) (Z.land b3 0x3F)), 4%nat)
            else Some (RuneError, 1%nat)
        | _ => Some (RuneError, 1%nat)
        end
      else Some (RuneError, 1%nat)
  end.

(** [utf8.AppendRune]: an invalid code point is written as [RuneError]. *)
Definition EncodeRune (r : Z) : bytes :=
  let three r := [Z_byte (Z.lor 0xE0 (Z.shiftr r 12)); Z_byte (Z.lor 0x80 (Z.land (Z.shiftr r 6) 0x3F)); Z_byte (Z.lor 0x80 (Z.land r 0x3F))] in
  if decide (0 ≤ r ≤ 0x7F) then [Z_byte r]
  else if decide (0 ≤ r ≤ 0x7FF) then [Z_byte (Z.lor 0xC0 (Z.shiftr r 6)); Z_byte (Z.lor 0x80 (Z.land r 0x3F))]
  else if decide (r < 0 ∨ 0x10FFFF < r ∨ 0xD800 ≤ r ≤ 0xDFFF) then three RuneError
  else if decide (r ≤ 0xFFFF) then three r
  else [Z_byte (Z.lor 0xF0 (Z.shiftr r 18)); Z_byte (Z.lor 0x80 (Z.land (Z.shiftr r 12) 0x3F));
        Z_byte (Z.lor 0x80 (Z.land (Z.shiftr r 6) 0x3F)); Z_byte (Z.lor 0x80 (Z.land r 0x3F))].

Fixpoint runes_fuel (n : nat) (s : bytes) : list (Z * nat) :=
  match n with
  | O => []
  | S n => match DecodeRune s with
           | None => []
           | Some (r, w) => (r, w) :: runes_fuel n (drop w s)
           end
  end.

(** The runes of [s] with their widths: [for _, r := range s]. Every rune has
    at least one byte, so [length s] is enough fuel. *)
Definition runes (s : bytes) : list (Z * nat) := runes_fuel (length s) s.

(** [[]rune(s)] and [string(rs)]. *)
Definition to_runes (s : bytes) : list Z := (runes s).*1.
Definition of_runes (rs : list Z) : bytes := rs ≫= EncodeRune.

(** [unicode.IsSpace] *)
Definition IsSpace (r : Z) : bool :=
  bool_decide (9 ≤ r ≤ 13 ∨ r = 32 ∨ r = 0x85 ∨ r = 0xA0 ∨ r = 0x1680 ∨ 0x2000 ≤ r ≤ 0x200a
    ∨ r = 0x2028 ∨ r = 0x2029 ∨ r = 0x202f ∨ r = 0x205f ∨ r = 0x3000).

Fixpoint drop_while {A} (f : A → bool) (l : list A) : list A :=
  match l with
  | x :: l' => if f x then drop_while f l' else l
  | [] => []
  end.

(** The bytes of [s], rune by rune. *)
Fixpoint chunks_fuel (n : nat) (s : bytes) : list (Z * bytes) :=
  match n with
  | O => []
  | S n => match DecodeRune s with
           | None => []
           | Some (r, w) => (r, take w s) :: chunks_fuel n (drop w s)
           end
  end.

(** [strings.TrimFunc] *)
Definition TrimFunc (f : Z → bool) (s : bytes) : bytes :=
  let g (p : Z * bytes) := f p.1 in
  concat (snd <$> reverse (drop_while g (reverse (drop_while g (chunks_fuel (length s) s))))).
Definition TrimSpace : bytes → bytes := TrimFunc IsSpace.

(** ** strconv *)

Definition Itoa (z : Z) : bytes := bs (pretty z).

Definition digit (c : ascii) : option Z :=
  let z := byte_Z c in if decide (48 ≤ z ≤ 57) then Some (z - 48) else None.

Fixpoint parse_digits (acc : Z) (s : bytes) : option Z :=
  match s with
  | [] => Some acc
  | c :: s' => match digit c with Some d => parse_digits (10 * acc + d) s' | None => None end
  end.

(** [strconv.ParseInt(s, 10, 64)]; [None] is a syntax or range error. *)
Definition ParseInt (s : bytes) : option Z :=
  let go (neg : bool) (d : bytes) :=
    match d with
    | [] => None
    | _ => match parse_digits 0 d with
           | Some n => let z := if neg then - n else n in
               if decide (- 2 ^ 63 ≤ z < 2 ^ 63) then Some z else None
           | None => None
           end
    end in
  match s with
  | c :: s' => if decide (c = "-"%char) then go true s'
               else if decide (c = "+"%char) then go false s' else go false s
  | [] => None
  end.
Definition Atoi : bytes → option Z := ParseInt.

Example Split_ex : Split (bs "a,b,,c") (bs ",") = [bs "a"; bs "b"; bs ""; bs "c"].
Proof. reflexivity. Qed.
Example TrimSpace_ex : TrimSpace (bs "  a b ") = bs "a b".
Proof. reflexivity. Qed.
Example runes_ex : to_runes (of_runes [97; 0x4e2d; 0x1F600; 0xe9]) = [97; 0x4e2d; 0x1F600; 0xe9].
Proof. reflexivity. Qed.
Example Atoi_ex : Atoi (Itoa (-120)) = Some (-120).
Proof. reflexivity. Qed.
Example ReplaceAll_ex : ReplaceAll (bs "a--b-") (bs "-") (bs "") = bs "ab".
Proof. reflexivity. Qed.

(** *** Cutting and splitting *)

Lemma Cut_Some s sep a b : Cut s sep = Some (a, b) → s = a ++ sep ++ b.
Proof.
  revert a b. induction s as [|c s IH]; intros a b; cbn [Cut].
  - case_match eqn:Hp; [|done]. intros [= <- <-]. apply bool_decide_eq_true in Hp. apply prefix_nil_inv in Hp as ->. done.
  - case_match eqn:Hp.
    + intros [= <- <-]. apply bool_decide_eq_true in Hp as [k Hk]. rewrite Hk, drop_app_length. done.
    + destruct (Cut s sep) as [[a' b']|] eqn:Hc; [|done]. intros [= <- <-]. simpl. f_equal. by apply IH.
Qed.

Lemma HasPrefix_app s t sep : (length sep ≤ length s)%nat → HasPrefix (s ++ t) sep = HasPrefix s sep.
Proof.
  intros Hl. apply bool_decide_ext. split; [|by intros [k ->]; exists (k ++ t); rewrite <-(assoc_L (++))].
  intros [k Hk]. exists (take (length s - length sep) k).
  apply (f_equal (take (length s))) in Hk. rewrite take_app_length, take_app, (take_ge sep) in Hk by lia. done.
Qed.

Lemma Cut_app s t sep a b : Cut s sep = Some (a, b) → Cut (s ++ t) sep = Some (a, b ++ t).
Proof.
  revert a b. induction s as [|c s IH]; intros a b Hc; pose proof (Cut_Some _ _ _ _ Hc) as Heq.
  - assert (sep = []) as -> by (by destruct a, sep).
    simpl in Hc. injection Hc as <- <-. by destruct t.
  - assert (length sep ≤ length (c :: s))%nat as Hl by (rewrite Heq, !length_app; lia).
    cbn [app Cut] in Hc |- *. change (c :: s ++ t) with ((c :: s) ++ t). rewrite HasPrefix_app by done.
    destruct (HasPrefix (c :: s) sep).
    + injection Hc as <- <-. f_equal. f_equal. rewrite drop_app_le by done. done.
    + destruct (Cut s sep) as [[a' b']|] eqn:Hcs; [|done]. injection Hc as <- <-. rewrite (IH a' b') by done. done.
Qed.

Lemma Cut_absent s c sep : c ∉ s → Cut s (c :: sep) = None.
Proof.
  induction s as [|d s IH]; intros Hs; cbn [Cut]; unfold HasPrefix; rewrite bool_decide_eq_false_2; try done.
  - by intros Hp%prefix_nil_inv.
  - rewrite IH; [done|set_solver].
  - intros Hp%prefix_cons_inv_1. set_solver.
Qed.
Lemma ReplaceAll_absent s c old new : c ∉ s → ReplaceAll s (c :: old) new = s.
Proof. intros Hs. unfold ReplaceAll, Split. destruct (length s); simpl; [done|]. by rewrite Cut_absent. Qed.

(** Cutting at a single byte: at its first occurrence. *)
Lemma Cut_byte_Some s c a b : Cut s [c] = Some (a, b) → s = a ++ c :: b ∧ c ∉ a.
Proof.
  intros Hc. split; [by apply Cut_Some in Hc|]. revert a Hc. induction s as [|d s IH]; intros a; cbn [Cut].
  - by case_match eqn:Hp; [apply bool_decide_eq_true, prefix_nil_inv in Hp|].
  - case_match eqn:Hp; [intros [= <- _]; apply not_elem_of_nil|].
    destruct (Cut s [c]) as [[a' b']|]; [|done]. intros [= <- <-]. apply not_elem_of_cons. split; [|by apply IH].
    intros ->. apply bool_decide_eq_false in Hp. apply Hp. by exists s.
Qed.
Lemma Cut_byte_None s c : Cut s [c] = None → c ∉ s.
Proof.
  induction s as [|d s IH]; cbn [Cut]; [intros _; apply not_elem_of_nil|]. case_match eqn:Hp; [done|].
  destruct (Cut s [c]); [done|]. intros _. apply not_elem_of_cons. split; [|by apply IH].
  intros ->. apply bool_decide_eq_false in Hp. apply Hp. by exists s.
Qed.
Lemma Cut_byte_app a b c : c ∉ a → Cut (a ++ c :: b) [c] = Some (a, b).
Proof.
  induction a as [|d a IH]; intros Ha; cbn [app Cut].
  - unfold HasPrefix. rewrite bool_decide_eq_true_2 by (by exists b). done.
  - apply not_elem_of_cons in Ha as [Hd Ha]. unfold HasPrefix. rewrite bool_decide_eq_false_2.
    + by rewrite IH.
    + intros Hp%prefix_cons_inv_1. done.
Qed.

(** *** Joining *)

Lemma Join_cons (c : ascii) x y l : Join (x :: y :: l) [c] = x ++ c :: Join (y :: l) [c].
Proof. done. Qed.
Lemma Split_Join (c : ascii) l : l ≠ [] → Forall (λ x, c ∉ x) l → Split (Join l [c]) [c] = l.
Proof.
  intros Hl Hc. unfold Split. generalize (Nat.le_refl (length (Join l [c]))). generalize (length (Join l [c])) at 2 3 as n. intros n. revert Hl Hc.
  induction l as [|x l IH] in n |- *; [done|]. intros _ [Hx Hc]%Forall_cons Hn. destruct l as [|y l].
  - destruct n; cbn; [done|]. by rewrite Cut_absent.
  - rewrite Join_cons in *. destruct n as [|n]; [rewrite length_app in Hn; cbn in Hn; lia|]. cbn [Split_fuel]. rewrite Cut_byte_app by done. f_equal.
    apply IH; [done|done|]. rewrite length_app in Hn. cbn in Hn |- *. lia.
Qed.
Lemma Join_app (c : ascii) l k : l ≠ [] → k ≠ [] → Join (l ++ k) [c] = Join l [c] ++ c :: Join k [c].
Proof.
  intros Hl Hk. induction l as [|x l IH]; [done|]. destruct l as [|y l].
  - cbn [app]. destruct k; [done|]. by rewrite Join_cons.
  - cbn [app] in *. rewrite !Join_cons, IH by done. by rewrite <-(assoc_L (++)).
Qed.
Lemma Join_nonempty (c : ascii) l : l ≠ [] → Forall (λ x, x ≠ []) l → Join l [c] ≠ [].
Proof. intros Hl Hne. destruct l as [|x [|y l]]; [done|by inversion Hne|]. inversion Hne. by destruct x. Qed.

(** ** Effects *)

(** A call on a world [W] that may fail or panic; the world is kept in every
    case. *)
Definition io (W E A : Type) : Type := W → outcome E A * W.
#[export] Instance io_ret {W E} : MRet (io W E) := λ A a w, (Ret a, w).
#[export] Instance io_bind {W E} : MBind (io W E) := λ A B f m w,
  match m w with
  | (Ret a, w') => f a w'
  | (Fail e, w') => (Fail e, w')
  | (Panic, w') => (Panic, w')
  end.

Section io.
Context {W E : Type}.
Definition io_fail {A} (e : E) : io W E A := λ w, (Fail e, w).
Definition io_modify (f : W → W) : io W E unit := λ w, (Ret tt, f w).
Definition io_gets {A} (f : W → A) : io W E A := λ w, (Ret (f w), w).
(** Runs [m] and hands its error, if any, back as a value. *)
Definition io_try {A} (m : io W E A) : io W E (result A E) := λ w,
  match m w with
  | (Ret a, w') => (Ret (Ok a), w')
  | (Fail e, w') => (Ret (Err e), w')
  | (Panic, w') => (Panic, w')
  end.
(** Changes the error of [m]: [fmt.Errorf("...: %w", err)]. *)
Definition io_wrap {A} (f : E → E) (m : io W E A) : io W E A := λ w,
  match m w with (Fail e, w') => (Fail (f e), w') | r => r end.
End io.

(** *** Calls that may fail *)

(** A world that carries, call by call, whether the next database or queue
    call fails; a call that fails has no effect. *)
Class Faulty (W E : Type) := {
  get_faults : W → list (option E);
  set_faults : list (option E) → W → W;
  set_get_faults w : set_faults (get_faults w) w = w;
}.

Definition next_fault `{Faulty W E} : io W E unit := λ w,
  match get_faults w with
  | [] => (Ret tt, w)
  | f :: fs =>
      let w' := set_faults fs w in
      match f with Some e => (Fail e, w') | None => (Ret tt, w') end
  end.

(** [recordAt.Truncate(d)] on nanoseconds. *)
Definition Truncate (t d : Z) : Z := t - t `mod` d.
Definition Minute : Z := 60 * 1000000000.
Definition Hour : Z := 60 * Minute.

(** *** Reasoning about effects *)

(** [wp m Q w]: from [w], [m] does not panic and ends in [Q]. *)
Definition wp {W E A} (m : io W E A) (Q : result A E → W → Prop) (w : W) : Prop :=
  match m w with
  | (Ret a, w') => Q (Ok a) w'
  | (Fail e, w') => Q (Err e) w'
  | (Panic, _) => False
  end.

Create HintDb wp.

Section wp.
Context {W E : Type}.

Lemma wp_ret {A} (a : A) (Q : result A E → W → Prop) w : wp (mret a) Q w ↔ Q (Ok a) w.
Proof. done. Qed.
Lemma wp_fail {A} e (Q : result A E → W → Prop) w : wp (io_fail e) Q w ↔ Q (Err e) w.
Proof. done. Qed.
Lemma wp_modify f (Q : result unit E → W → Prop) w : wp (io_modify f) Q w ↔ Q (Ok tt) (f w).
Proof. done. Qed.
Lemma wp_gets {A} (f : W → A) (Q : result A E → W → Prop) w : wp (io_gets f) Q w ↔ Q (Ok (f w)) w.
Proof. done. Qed.
Lemma wp_bind {A B} (m : io W E A) (f : A → io W E B) Q w :
  wp (m ≫= f) Q w ↔ wp m (λ r w', match r with Ok a => wp (f a) Q w' | Err e => Q (Err e) w' end) w.
Proof. unfold wp at 1 2, mbind, io_bind. by destruct (m w) as [[] ?]. Qed.
Lemma wp_try {A} (m : io W E A) (Q : result (result A E) E → W → Prop) w :
  wp (io_try m) Q w ↔ wp m (λ r w', Q (Ok r) w') w.
Proof. unfold wp, io_try. by destruct (m w) as [[] ?]. Qed.
Lemma wp_wrap {A} f (m : io W E A) Q w :
  wp (io_wrap f m) Q w ↔ wp m (λ r w', match r with Ok a => Q (Ok a) w' | Err e => Q (Err (f e)) w' end) w.
Proof. unfold wp, io_wrap. by destruct (m w) as [[] ?]. Qed.
Lemma wp_mono {A} (m : io W E A) (Q Q' : result A E → W → Prop) w :
  (∀ r w', Q r w' → Q' r w') → wp m Q w → wp m Q' w.
Proof. unfold wp. destruct (m w) as [[] ?]; auto. Qed.
(** From the rule back to the run. *)
Lemma wp_run {A} (m : io W E A) (Q : result A E → W → Prop) w : wp m Q w →
  ∃ r w', m w = (match r with Ok a => Ret a | Err e => Fail e end, w') ∧ Q r w'.
Proof. unfold wp. destruct (m w) as [[a|e|] w']; intros HQ; [by exists (Ok a), w'|by exists (Err e), w'|done]. Qed.
Lemma io_bind_run {A B} (m : io W E A) (f : A → io W E B) w a w' : m w = (Ret a, w') → (m ≫= f) w = f a w'.
Proof. unfold mbind, io_bind. by intros ->. Qed.
Lemma io_try_run {A} (m : io W E A) w a w' : m w = (Ret a, w') → io_try m w = (Ret (Ok a), w').
Proof. unfold io_try. by intros ->. Qed.
Lemma io_wrap_run {A} f (m : io W E A) w a w' : m w = (Ret a, w') → io_wrap f m w = (Ret a, w').
Proof. unfold io_wrap. by intros ->. Qed.
Lemma run_wp {A} (m : io W E A) (Q : result A E → W → Prop) w o w' : wp m Q w → m w = (o, w') →
  ∃ r, o = (match r with Ok a => Ret a | Err e => Fail e end) ∧ Q r w'.
Proof. intros HQ Heq. destruct (wp_run m Q w HQ) as (r & w2 & Hr & ?). rewrite Hr in Heq. simplify_eq. eauto. Qed.
End wp.

(** A call that may fail, with any schedule of failures, and with none left. *)
Lemma wp_next_fault `{Faulty W E} Q (w : W) : (∀ fs r, Q r (set_faults fs w)) → wp next_fault Q w.
Proof.
  intros HQ. unfold wp, next_fault. destruct (get_faults w) as [|[e|] fs] eqn:Hf; [|apply HQ..].
  pose proof (HQ [] (Ok tt)) as Hw. by rewrite <-Hf, set_get_faults in Hw.
Qed.
Lemma wp_no_fault `{Faulty W E} Q (w : W) : get_faults w = [] → Q (Ok tt) w → wp next_fault Q w.
Proof. intros Hf HQ. unfold wp, next_fault. by rewrite Hf. Qed.

(** ** What a run does to the world, however it ends

    [moves I R P m]: from every world of [I], [m] leads along [R] to a world of
    [I], whether it returns, fails or panics, and the values it returns
    satisfy [P]. *)
Definition moves {W E A} (I : W → Prop) (R : W → W → Prop) (P : A → Prop) (m : io W E A) : Prop :=
  ∀ w, I w → I (snd (m w)) ∧ R w (snd (m w)) ∧ ∀ a, fst (m w) = Ret a → P a.
Abbreviation anywhere := (λ _, True).

Section moves.
Context {W E : Type} (I : W → Prop).
Implicit Types R : W → W → Prop.

Lemma moves_weaken {A} R R' (P P' : A → Prop) (m : io W E A) : moves I R P m → (∀ x y, R x y → R' x y) → (∀ a, P a → P' a) → moves I R' P' m.
Proof. intros Hm HR HP w Hw. destruct (Hm w Hw) as (? & ? & ?). split_and!; auto. Qed.
Lemma moves_true {A} R (P : A → Prop) (m : io W E A) : moves I R P m → moves I R (λ _, True) m.
Proof. intros Hm. by eapply moves_weaken. Qed.
(** Steps that compose: [R] then [S] is [T]. *)
Lemma moves_seq {A B} R S T (P : A → Prop) (Q : B → Prop) (m : io W E A) f : (∀ x y z, R x y → S y z → T x z) → (∀ x y, R x y → T x y) →
  moves I R P m → (∀ a, P a → moves I S Q (f a)) → moves I T Q (m ≫= f).
Proof.
  intros Hseq Hsub Hm Hf w Hw. destruct (Hm w Hw) as (HI & HR & HP). unfold mbind, io_bind.
  destruct (m w) as [[a|e|] w'] eqn:Hrun; cbn in *; [|split_and!; [done|by apply Hsub|done]..].
  destruct (Hf a (HP a eq_refl) w' HI) as (? & HS & HQ). split_and!; [done|by eapply Hseq|done].
Qed.
(** A part that stays in [I], followed by the rest. *)
Lemma moves_end {A B} R (P : A → Prop) (m : io W E A) (f : A → io W E B) (Q : W → Prop) w : moves I R P m → I w →
  (∀ w', I w' → Q w') → (∀ a w', I w' → P a → Q (snd (f a w'))) → Q (snd ((m ≫= f) w)).
Proof.
  intros Hm Hw Hstop Hf. destruct (Hm w Hw) as (HI & _ & HP). unfold mbind, io_bind. destruct (m w) as [[a|e|] w'] eqn:?; cbn in *; auto.
Qed.
Lemma moves_try {A} R (P : A → Prop) (m : io W E A) : moves I R P m → moves I R (λ r, match r with Ok a => P a | Err _ => True end) (io_try m).
Proof.
  intros Hm w Hw. destruct (Hm w Hw) as (HI & HR & HP). unfold io_try.
  destruct (m w) as [[a|e|] w'] eqn:?; cbn in *; split_and!; try done; intros r Hr; simplify_eq; eauto.
Qed.
Lemma moves_try_true {A} R (m : io W E A) : moves I R (λ _, True) m → moves I R (λ _, True) (io_try m).
Proof. intros Hm. by eapply moves_true, moves_try. Qed.
Lemma moves_wrap {A} f R (P : A → Prop) (m : io W E A) : moves I R P m → moves I R P (io_wrap f m).
Proof. intros Hm w Hw. destruct (Hm w Hw) as (HI & HR & HP). unfold io_wrap. by destruct (m w) as [[a|e|] w'] eqn:?. Qed.
Lemma moves_modify R f : (∀ w, I w → I (f w) ∧ R w (f w)) → moves I R (λ _, True) (io_modify (E := E) f).
Proof. intros Hf w Hw. destruct (Hf w Hw). done. Qed.

Section preorder.
Context (R : W → W → Prop) `{!PreOrder R}.
Lemma moves_ret {A} (P : A → Prop) (a : A) : P a → moves I R P (mret a : io W E A).
Proof. intros HP w Hw. split_and!; [done|done|]. intros ? [= <-]. done. Qed.
Lemma moves_fail {A} (P : A → Prop) e : moves I R P (io_fail e : io W E A).
Proof. by intros w Hw. Qed.
Lemma moves_gets {A} (f : W → A) (P : A → Prop) : (∀ w, I w → P (f w)) → moves I R P (io_gets f : io W E A).
Proof. intros HP w Hw. split_and!; [done|done|]. intros ? [= <-]. by apply HP. Qed.
Lemma moves_bind {A B} (P : A → Prop) (Q : B → Prop) (m : io W E A) f : moves I R P m → (∀ a, P a → moves I R Q (f a)) → moves I R Q (m ≫= f).
Proof. apply moves_seq; [by etrans|done]. Qed.
Lemma moves_bind_true {A B} (Q : B → Prop) (m : io W E A) f : moves I R (λ _, True) m → (∀ a, moves I R Q (f a)) → moves I R Q (m ≫= f).
Proof. intros Hm Hf. eapply moves_bind; eauto. Qed.
Lemma moves_next_fault `{!Faulty W E} : (∀ w fs, I w → I (set_faults fs w) ∧ R w (set_faults fs w)) → moves I R (λ _, True) next_fault.
Proof.
  intros Hf w Hw. unfold next_fault. destruct (get_faults w) as [|[e|] fs]; cbn; [done|destruct (Hf w fs Hw); done..].
Qed.
End preorder.
End moves.

(** ** Undisturbed runs *)

Section undisturbed.
Context {W E : Type} `{!Faulty W E}.
Definition undisturbed (w : W) : Prop := get_faults w = [].
(** What a call that only reads gives. *)
Definition gives {A} (m : io W E A) (w : W) (x : A) : Prop := m w = (Ret x, w).
Lemma gives_fault w : undisturbed w → gives next_fault w tt.
Proof. unfold gives, next_fault, undisturbed. by intros ->. Qed.
Lemma gives_bind {A B} (m : io W E A) (f : A → io W E B) w x y : gives m w x → gives (f x) w y → gives (m ≫= f) w y.
Proof. unfold gives, mbind, io_bind. by intros ->. Qed.
Lemma run_gives {A B} (m : io W E A) (f : A → io W E B) w x : gives m w x → (m ≫= f) w = f x w.
Proof. unfold gives, mbind, io_bind. by intros ->. Qed.
Lemma run_seq {A B} (m : io W E A) (f : A → io W E B) w x w' : m w = (Ret x, w') → (m ≫= f) w = f x w'.
Proof. unfold mbind, io_bind. by intros ->. Qed.
Lemma gives_wrap {A} f (m : io W E A) w x : gives m w x → gives (io_wrap f m) w x.
Proof. unfold gives, io_wrap. by intros ->. Qed.
Lemma gives_try {A} (m : io W E A) w x : gives m w x → gives (io_try m) w (Ok x).
Proof. unfold gives, io_try. by intros ->. Qed.
End undisturbed.

(** One step through the code of an operation, lemmas about the calls it makes
    in the database [moves]. *)
Create HintDb moves.
Ltac moves_step :=
  match goal with
  | |- moves _ _ _ (if decide ?P then _ else _) => destruct (decide P)
  | |- moves _ _ _ (if ?b then _ else _) => destruct b
  | |- moves _ _ _ (match ?x with _ => _ end) => destruct x
  | |- moves _ _ _ (mret _) => apply moves_ret; [apply _|done]
  | |- moves _ _ _ (io_fail _) => apply moves_fail; apply _
  | |- moves _ _ _ (io_wrap _ _) => apply moves_wrap
  | |- moves _ _ (λ _, True) (io_gets _) => apply moves_gets; [apply _|done]
  | |- moves _ _ (λ _, True) (io_try _) => apply moves_try_true
  | |- moves _ _ _ _ => solve [eauto with moves nocore]
  | |- moves _ _ _ (_ ≫= _) => apply moves_bind_true; [apply _| |intros]
  end.
Ltac moves := repeat moves_step.

#[export] Hint Rewrite @wp_ret @wp_fail @wp_modify @wp_gets @wp_bind @wp_try @wp_wrap : wp.
Ltac wp_simpl := repeat (autorewrite with wp; cbv beta iota).
