(* ===== verification/GoFloat.v ===== *)
(** IEEE 754 arithmetic of Go's [float64] and [float32], over the pure
    specification floats of the Standard Library ([SpecFloat]), with the
    conversions, comparisons and fixed-point formatting the components use. *)
From Stdlib Require Export SpecFloat.
From S2P Require Import Prelude GoLib.
Open Scope Z_scope.

Abbreviation float64 := spec_float (only parsing).
Abbreviation float32 := spec_float (only parsing).

Declare Scope float_scope.
Delimit Scope float_scope with float.

Definition fadd : float64 → float64 → float64 := SFadd 53 1024.
Definition fsub : float64 → float64 → float64 := SFsub 53 1024.
Definition fmul : float64 → float64 → float64 := SFmul 53 1024.
Definition fdiv : float64 → float64 → float64 := SFdiv 53 1024.
Definition fsqrt : float64 → float64 := SFsqrt 53 1024.

Infix "+" := fadd : float_scope.
Infix "-" := fsub : float_scope.
Infix "*" := fmul : float_scope.
Infix "/" := fdiv : float_scope.

(** [float64(z)] for an integer [z], rounded to nearest even. *)
Definition float_of_Z (z : Z) : float64 := binary_normalize 53 1024 z 0 false.

(** The constant [n / d] of the source, correctly rounded. *)
Definition flit (n d : Z) : float64 := fdiv (float_of_Z n) (float_of_Z d).

Definition feqb : float64 → float64 → bool := SFeqb.
Definition fltb : float64 → float64 → bool := SFltb.
Definition fleb : float64 → float64 → bool := SFleb.

Definition is_nan (f : float64) : bool := match f with S754_nan => true | _ => false end.
Definition is_finite (f : float64) : bool :=
  match f with S754_zero _ | S754_finite _ _ _ => true | _ => false end.

(** The integer part of a finite float: conversion to an integer type, as long
    as the result fits it. *)
Definition ftrunc (f : float64) : option Z :=
  match f with
  | S754_zero _ => Some 0
  | S754_finite s m e =>
      let n := if decide (0 ≤ e) then Z.pos m * 2 ^ e else Z.pos m / 2 ^ (- e) in
      Some (if s then - n else n)
  | _ => None
  end.

(** The number [m * 2^e] scaled by [10^k], rounded half to even. *)
Definition scaled (m : Z) (e : Z) (k : Z) : Z :=
  let num := m * 10 ^ k * 2 ^ (Z.max e 0) in
  let den := 2 ^ (Z.max (- e) 0) in
  let q := num / den in
  let r := num `mod` den in
  if decide (2 * r < den) then q
  else if decide (2 * r > den) then q + 1
  else if Z.even q then q else q + 1.


(** [n] as at least [k] digits. *)
Definition digits_pad (k : nat) (n : Z) : bytes :=
  let s := Itoa n in repeat "0"%char (k - length s) ++ s.

(** [fmt.Sprintf("%.<k>f", f)]. *)
Definition FormatFixed (k : nat) (f : float64) : bytes :=
  match f with
  | S754_nan => bs "NaN"
  | S754_infinity s => if s then bs "-Inf" else bs "+Inf"
  | S754_zero s => (if s then bs "-" else []) ++ bs "0" ++ (if decide (k = 0%nat) then [] else bs "." ++ repeat "0"%char k)
  | S754_finite s m e =>
      let d := digits_pad (S k) (scaled (Z.pos m) e (Z.of_nat k)) in
      (if s then bs "-" else []) ++ take (length d - k) d ++ (if decide (k = 0%nat) then [] else bs "." ++ drop (length d - k) d)
  end.

Example FormatFixed_ex : FormatFixed 2 (flit 7 10) = bs "0.70" ∧ FormatFixed 2 (flit 1239 10) = bs "123.90"
  ∧ FormatFixed 6 (float_of_Z (-99)) = bs "-99.000000" ∧ FormatFixed 2 (flit 1 1000) = bs "0.00".
Proof. repeat split; vm_compute; reflexivity. Qed.

(** Finite sums, products and quotients are never the result of an operation
    on a NaN. *)
Lemma fltb_nan_l f : fltb S754_nan f = false.
Proof. by destruct f. Qed.
Lemma fltb_nan_r f : fltb f S754_nan = false.
Proof. by destruct f as [[]|[]| |[]]. Qed.
