(* ===== verification/GoJson.v ===== *)
(** [encoding/json] as the components use it: a parser to a value tree, the
    field lookup of struct decoding, and the string and value encoder; with
    [strconv]'s number parsers and [Quote]. *)
From S2P Require Import Prelude GoLib GoFloat.
Open Scope Z_scope.

(** A JSON value; numbers keep their literal, objects their order and
    duplicates. *)
Inductive json :=
  | JNull
  | JBool (b : bool)
  | JNum (lit : bytes)
  | JStr (s : bytes)
  | JArr (l : list json)
  | JObj (l : list (bytes * json)).

(** ** Parsing *)

Definition is_ws (c : ascii) : bool :=
  bool_decide (c = " " ∨ c = "009" ∨ c = "010" ∨ c = "013")%char.
Definition skip_ws (s : bytes) : bytes := drop_while is_ws s.

Definition is_digit (c : ascii) : bool := bool_decide (48 ≤ byte_Z c ≤ 57).

Fixpoint span {A} (f : A → bool) (l : list A) : list A * list A :=
  match l with
  | x :: l' => if f x then let '(a, b) := span f l' in (x :: a, b) else ([], l)
  | [] => ([], [])
  end.

Definition hex_digit (c : ascii) : option Z :=
  let z := byte_Z c in
  if decide (48 ≤ z ≤ 57) then Some (z - 48)
  else if decide (97 ≤ z ≤ 102) then Some (z - 87)
  else if decide (65 ≤ z ≤ 70) then Some (z - 55)
  else None.

Definition hex4 (a b c d : ascii) : option Z :=
  a ← hex_digit a; b ← hex_digit b; c ← hex_digit c; d ← hex_digit d;
  Some (4096 * a + 256 * b + 16 * c + d).

Definition escape_char (e : ascii) : option ascii :=
  if decide (e = "034"%char ∨ e = "\"%char ∨ e = "/"%char) then Some e
  else if decide (e = "b"%char) then Some "008"%char
  else if decide (e = "f"%char) then Some "012"%char
  else if decide (e = "n"%char) then Some "010"%char
  else if decide (e = "r"%char) then Some "013"%char
  else if decide (e = "t"%char) then Some "009"%char
  else None.

Definition is_high (r : Z) : bool := bool_decide (0xD800 ≤ r ≤ 0xDBFF).
Definition is_low (r : Z) : bool := bool_decide (0xDC00 ≤ r ≤ 0xDFFF).

(** The rest of a string literal after its opening quote: the decoded bytes
    and what follows the closing quote. *)
Fixpoint string_tail (s : bytes) : option (bytes * bytes) :=
  match s with
  | [] => None
  | c :: s1 =>
      if decide (c = "034"%char) then Some ([], s1)
      else if decide (byte_Z c < 32) then None
      else if decide (c = "\"%char) then
        match s1 with
        | "u"%char :: a :: b :: c' :: d :: s2 =>
            r ← hex4 a b c' d;
            if is_high r then
              match s2 with
              | "\"%char :: "u"%char :: a2 :: b2 :: c2 :: d2 :: s3 =>
                  r2 ← hex4 a2 b2 c2 d2;
                  if is_low r2 then
                    '(x, rest) ← string_tail s3;
                    Some (EncodeRune (Z.lor (Z.shiftl (r - 0xD800) 10) (r2 - 0xDC00) + 0x10000) ++ x, rest)
                  else '(x, rest) ← string_tail s2; Some (EncodeRune RuneError ++ x, rest)
              | _ => '(x, rest) ← string_tail s2; Some (EncodeRune RuneError ++ x, rest)
              end
            else '(x, rest) ← string_tail s2; Some (EncodeRune r ++ x, rest)
        | e :: s2 =>
            e' ← escape_char e;
            '(x, rest) ← string_tail s2; Some (e' :: x, rest)
        | [] => None
        end
      else '(x, rest) ← string_tail s1; Some (c :: x, rest)
  end.

(** Invalid UTF-8 in a literal becomes U+FFFD. *)
Definition coerce_utf8 (s : bytes) : bytes := of_runes (to_runes s).

(** A number literal at the head of [s]. *)
Definition number (s : bytes) : option (bytes * bytes) :=
  let '(sign, s1) := match s with "-"%char :: r => (bs "-", r) | _ => ([], s) end in
  '(int, s2) ← (match s1 with
                | "0"%char :: r => Some (bs "0", r)
                | _ => match span is_digit s1 with ([], _) => None | p => Some p end
                end);
  '(frac, s3) ← (match s2 with
                 | "."%char :: r => match span is_digit r with ([], _) => None | (d, r') => Some ("."%char :: d, r') end
                 | _ => Some ([], s2)
                 end);
  '(exp, s4) ← (match s3 with
                | e :: r =>
                    if decide (e = "e"%char ∨ e = "E"%char) then
                      let '(sg, r1) := match r with
                                       | "+"%char :: r' => (bs "+", r') | "-"%char :: r' => (bs "-", r')
                                       | _ => ([], r) end in
                      match span is_digit r1 with ([], _) => None | (d, r') => Some (e :: sg ++ d, r') end
                    else Some ([], s3)
                | [] => Some ([], s3)
                end);
  Some (sign ++ int ++ frac ++ exp, s4).

(** A value at the head of [s]; arrays and objects nest at most 10000 deep.
    Each call consumes a byte before it recurs, so the length of the input is
    enough fuel. *)
Fixpoint value (fuel : nat) (depth : Z) (s : bytes) : option (json * bytes) :=
  match fuel with
  | O => None
  | S fuel =>
      match skip_ws s with
      | "034"%char :: s1 => '(x, r) ← string_tail s1; Some (JStr (coerce_utf8 x), r)
      | "["%char :: s1 =>
          if decide (10000 ≤ depth) then None else
          match skip_ws s1 with
          | "]"%char :: r => Some (JArr [], r)
          | _ => '(l, r) ← elems fuel (depth + 1) s1; Some (JArr l, r)
          end
      | "{"%char :: s1 =>
          if decide (10000 ≤ depth) then None else
          match skip_ws s1 with
          | "}"%char :: r => Some (JObj [], r)
          | _ => '(l, r) ← members fuel (depth + 1) s1; Some (JObj l, r)
          end
      | s1 =>
          if HasPrefix s1 (bs "null") then Some (JNull, drop 4 s1)
          else if HasPrefix s1 (bs "true") then Some (JBool true, drop 4 s1)
          else if HasPrefix s1 (bs "false") then Some (JBool false, drop 5 s1)
          else '(n, r) ← number s1; Some (JNum n, r)
      end
  end
with elems (fuel : nat) (depth : Z) (s : bytes) : option (list json * bytes) :=
  match fuel with
  | O => None
  | S fuel =>
      '(v, r) ← value fuel depth s;
      match skip_ws r with
      | ","%char :: r1 => '(l, r2) ← elems fuel depth r1; Some (v :: l, r2)
      | "]"%char :: r1 => Some ([v], r1)
      | _ => None
      end
  end
with members (fuel : nat) (depth : Z) (s : bytes) : option (list (bytes * json) * bytes) :=
  match fuel with
  | O => None
  | S fuel =>
      match skip_ws s with
      | "034"%char :: s1 =>
          '(k, r) ← string_tail s1;
          match skip_ws r with
          | ":"%char :: r1 =>
              '(v, r2) ← value fuel depth r1;
              match skip_ws r2 with
              | ","%char :: r3 => '(l, r4) ← members fuel depth r3; Some ((coerce_utf8 k, v) :: l, r4)
              | "}"%char :: r3 => Some ([(coerce_utf8 k, v)], r3)
              | _ => None
              end
          | _ => None
          end
      | _ => None
      end
  end.

(** The value of a whole document. *)
Definition parse_json (s : bytes) : option json :=
  '(v, r) ← value (S (length s)) 0 s;
  match skip_ws r with [] => Some v | _ => None end.

(** ** Struct decoding *)

(** Field names match up to case folding; beyond ASCII, U+017F and U+212A fold
    to [s] and [k]. *)
Definition fold_rune (r : Z) : Z :=
  if decide (97 ≤ r ≤ 122) then r - 32
  else if decide (r = 0x17F) then 83 else if decide (r = 0x212A) then 75 else r.
Definition fold_name (s : bytes) : list Z := fold_rune <$> to_runes s.

(** Decoding an object assigns its members in order: the value a field ends
    up with is the last matching member's. *)
Definition field (name : bytes) (j : json) : option json :=
  match j with
  | JObj l => foldl (λ acc kv, if decide (fold_name kv.1 = fold_name name) then Some kv.2 else acc) None l
  | _ => None
  end.

(** All the members a field is assigned from, in order. *)
Definition fields (name : bytes) (j : json) : list json :=
  match j with
  | JObj l => snd <$> filter (λ kv : bytes * json, fold_name kv.1 = fold_name name) l
  | _ => []
  end.

(** A string field: null leaves it, any other non-string is a type error. *)
Definition string_field (name : bytes) (j : json) : option bytes :=
  foldl (λ acc v, s ← acc; match v with JStr x => Some x | JNull => Some s | _ => None end)
    (Some []) (fields name j).

(** An [int] field: null leaves it, other values must be integers. *)
Definition int_field (name : bytes) (j : json) : option Z :=
  foldl (λ acc v, z ← acc; match v with JNum lit => ParseInt lit | JNull => Some z | _ => None end) (Some 0) (fields name j).

(** A struct is decoded from an object; null leaves it empty. *)
Definition as_struct (j : json) : option json := match j with JObj _ => Some j | JNull => Some (JObj []) | _ => None end.

(** A bool field. *)
Definition bool_field (name : bytes) (j : json) : option bool :=
  foldl (λ acc v, b ← acc; match v with JBool x => Some x | JNull => Some b | _ => None end) (Some false) (fields name j).

(** [json.Unmarshal] into a [map[string]string]: the members in order, a null
    being the empty string; [None] is an error. *)
Definition string_map (data : bytes) : option (list (bytes * bytes)) :=
  j ← parse_json data;
  match j with
  | JNull => Some []
  | JObj l => mapM (λ kv : bytes * json, match kv.2 with JStr s => Some (kv.1, s) | JNull => Some (kv.1, []) | _ => None end) l
  | _ => None
  end.

(** ** strconv *)

(** [strconv.ParseUint(s, 10, 64)] *)
Definition ParseUint (s : bytes) : option Z :=
  match s with
  | [] => None
  | _ => n ← parse_digits 0 s; if decide (n < 2 ^ 64) then Some n else None
  end.

(** [m * 10^e], correctly rounded. *)
Definition decimal_float (neg : bool) (m e : Z) : float64 :=
  match m with
  | Zpos p =>
      if decide (0 ≤ e) then
        let f := binary_normalize 53 1024 (m * 10 ^ e) 0 false in if neg then SFopp f else f
      else match 10 ^ (- e) with
           | Zpos d => SFdiv 53 1024 (S754_finite neg p 0) (S754_finite false d 0)
           | _ => S754_zero neg
           end
  | _ => S754_zero neg
  end.

Definition lower_ascii (s : bytes) : bytes := to_lower_byte <$> s.

(** The decimal forms of [strconv.ParseFloat]: an optional sign, then a
    decimal with optional fraction and exponent, or inf, infinity, nan; [None]
    is a syntax or range error. *)
Definition ParseFloat (s : bytes) : option float64 :=
  let '(neg, s1) := match s with
                    | "-"%char :: r => (true, r) | "+"%char :: r => (false, r) | _ => (false, s) end in
  let low := lower_ascii s1 in
  if decide (low = bs "inf" ∨ low = bs "infinity") then Some (S754_infinity neg)
  else if decide (lower_ascii s = bs "nan") then Some S754_nan
  else
    let '(int, s2) := span is_digit s1 in
    let '(frac, s3) := match s2 with "."%char :: r => span is_digit r | _ => ([], s2) end in
    if decide (int = [] ∧ frac = []) then None else
    e ← (match s3 with
         | [] => Some 0
         | c :: r => if decide (c = "e"%char ∨ c = "E"%char) then ParseInt r else None
         end);
    m ← parse_digits 0 (int ++ frac);
    let f := decimal_float neg m (e - len frac) in
    match f with S754_infinity _ => None | _ => Some f end.

(** ** Encoding *)

Definition hex_char (z : Z) : ascii := if decide (z < 10) then Z_byte (48 + z) else Z_byte (87 + z).

(** [n] lower-case hex digits. *)
Fixpoint hex_digits (n : nat) (z : Z) : bytes :=
  match n with
  | O => []
  | S n => hex_digits n (z / 16) ++ [hex_char (z `mod` 16)]
  end.

(** [json.Marshal] of a string, with HTML escaping. *)
Definition quote_rune (r : Z) (raw : bytes) : bytes :=
  if decide (r = 34) then bs "\" ++ ["034"%char]
  else if decide (r = 92) then bs "\\"
  else if decide (r = 8) then bs "\b" else if decide (r = 12) then bs "\f"
  else if decide (r = 10) then bs "\n" else if decide (r = 13) then bs "\r" else if decide (r = 9) then bs "\t"
  else if decide (r < 32 ∨ r = 60 ∨ r = 62 ∨ r = 38) then bs "\u00" ++ hex_digits 2 r
  else if decide (r = 0x2028 ∨ r = 0x2029) then bs "\u" ++ hex_digits 4 r
  else if decide (r = RuneError ∧ length raw = 1%nat) then bs "\ufffd"
  else raw.
Definition quote (s : bytes) : bytes :=
  ["034"%char] ++ ((chunks_fuel (length s) s) ≫= λ p, quote_rune p.1 p.2) ++ ["034"%char].

Fixpoint marshal (j : json) : bytes :=
  match j with
  | JNull => bs "null"
  | JBool b => if b then bs "true" else bs "false"
  | JNum n => n
  | JStr s => quote s
  | JArr l => bs "[" ++ Join (marshal <$> l) (bs ",") ++ bs "]"
  | JObj l => bs "{" ++ Join ((λ kv, quote kv.1 ++ bs ":" ++ marshal kv.2) <$> l) (bs ",") ++ bs "}"
  end.

(** [strconv.Quote]; [is_print] decides [unicode.IsPrint] beyond ASCII. *)
Definition quote_go_rune (is_print : Z → bool) (r : Z) (raw : bytes) : bytes :=
  if decide (r = RuneError ∧ length raw = 1%nat) then bs "\x" ++ hex_digits 2 (byte_Z (default "000"%char (head raw)))
  else if decide (r = 34) then bs "\" ++ ["034"%char]
  else if decide (r = 92) then bs "\\"
  else if (if decide (r < 128) then bool_decide (32 ≤ r < 127) else is_print r) then raw
  else if decide (r = 7) then bs "\a" else if decide (r = 8) then bs "\b" else if decide (r = 12) then bs "\f"
  else if decide (r = 10) then bs "\n" else if decide (r = 13) then bs "\r" else if decide (r = 9) then bs "\t"
  else if decide (r = 11) then bs "\v"
  else if decide (r < 32 ∨ r = 127) then bs "\x" ++ hex_digits 2 r
  else if decide (r < 0x10000) then bs "\u" ++ hex_digits 4 r
  else bs "\U" ++ hex_digits 8 r.
Definition Quote (is_print : Z → bool) (s : bytes) : bytes :=
  ["034"%char] ++ ((chunks_fuel (length s) s) ≫= λ p, quote_go_rune is_print p.1 p.2) ++ ["034"%char].

(** [url.QueryEscape] *)
Definition query_escape_byte (c : ascii) : bytes :=
  let z := byte_Z c in
  if decide (48 ≤ z ≤ 57 ∨ 65 ≤ z ≤ 90 ∨ 97 ≤ z ≤ 122 ∨ z = 45 ∨ z = 46 ∨ z = 95 ∨ z = 126) then [c]
  else if decide (z = 32) then bs "+"
  else bs "%" ++ (to_upper_byte <$> hex_digits 2 z).
Definition QueryEscape (s : bytes) : bytes := s ≫= query_escape_byte.

(** A struct field: null leaves it, the members of repeated objects accumulate;
    [None] is a type error. *)
Definition object_field (name : bytes) (j : json) : option json :=
  foldl (λ acc v, o ← acc; match v, o with
    | JObj l, JObj l0 => Some (JObj (l0 ++ l)) | JNull, _ => Some o | _, _ => None end) (Some (JObj [])) (fields name j).

(** A slice field of arbitrary values: null empties it. *)
Definition array_field (name : bytes) (j : json) : option (list json) :=
  foldl (λ acc v, _ ← acc; match v with JArr l => Some l | JNull => Some [] | _ => None end) (Some []) (fields name j).

Definition jstr (s : string) : bytes := ["034"%char] ++ bs s ++ ["034"%char].

(** ** Plain text *)

(** Printable ASCII that JSON writes as it is. *)
Definition plain (s : bytes) : Prop :=
  Forall (λ c, 32 ≤ byte_Z c < 127 ∧ c ∉ ["034"; "092"; "060"; "062"; "038"]%char) s.
#[export] Instance plain_dec s : Decision (plain s).
Proof. unfold plain. apply _. Defined.

Lemma Z_byte_Z c : Z_byte (byte_Z c) = c.
Proof. unfold Z_byte, byte_Z. rewrite N2Z.id. apply ascii_N_embedding. Qed.

Lemma DecodeRune_ascii c s : byte_Z c < 128 → DecodeRune (c :: s) = Some (byte_Z c, 1%nat).
Proof. intros Hc. unfold DecodeRune. simpl. by rewrite decide_True. Qed.

Lemma chunks_plain s : plain s → chunks_fuel (length s) s = (λ c, (byte_Z c, [c])) <$> s.
Proof.
  induction 1 as [|c s [Hc _] _ IH]; [done|]. cbn [length chunks_fuel]. rewrite DecodeRune_ascii by lia. cbn [drop take]. by rewrite drop_0, IH.
Qed.

Lemma runes_plain s : plain s → to_runes s = byte_Z <$> s.
Proof.
  intros Hs. assert (runes s = (λ c, (byte_Z c, 1%nat)) <$> s) as Hr.
  { unfold runes. induction Hs as [|c s [Hc _] _ IH]; [done|]. cbn [length runes_fuel]. rewrite DecodeRune_ascii by lia.
    cbn [drop]. by rewrite drop_0, IH. }
  unfold to_runes. by rewrite Hr, <-list_fmap_compose.
Qed.

Lemma coerce_plain s : plain s → coerce_utf8 s = s.
Proof.
  intros Hs. unfold coerce_utf8, of_runes. rewrite runes_plain by done.
  induction Hs as [|c s [Hc _] _ IH]; [done|]. rewrite fmap_cons, bind_cons, IH. unfold EncodeRune. rewrite decide_True by lia. by rewrite Z_byte_Z.
Qed.

Lemma quote_plain s : plain s → quote s = "034"%char :: s ++ ["034"%char].
Proof.
  intros Hs. unfold quote. rewrite chunks_plain by done. simpl. f_equal. f_equal.
  induction Hs as [|c s [Hc Hn] _ IH]; [done|]. rewrite fmap_cons, bind_cons, IH. cbn [fst snd].
  assert (Hz : ∀ d, c ≠ d → byte_Z c ≠ byte_Z d) by (intros d Hd Hz; apply Hd; by rewrite <-(Z_byte_Z c), Hz, Z_byte_Z).
  rewrite !not_elem_of_cons in Hn. destruct Hn as (H1 & H2 & H3 & H4 & H5 & _). apply Hz in H1, H2, H3, H4, H5.
  change (byte_Z "034") with 34 in H1. change (byte_Z "092") with 92 in H2. change (byte_Z "060") with 60 in H3.
  change (byte_Z "062") with 62 in H4. change (byte_Z "038") with 38 in H5.
  unfold quote_rune. by rewrite !decide_False by (unfold RuneError; lia).
Qed.

Lemma string_tail_plain s rest : plain s → string_tail (s ++ "034"%char :: rest) = Some (s, rest).
Proof.
  induction 1 as [|c s [Hc Hn] _ IH]; [done|]. rewrite !not_elem_of_cons in Hn. cbn [app string_tail].
  rewrite !decide_False by (naive_solver lia). by rewrite IH.
Qed.

(** Objects of plain strings are read back as they were written. *)
Definition jstrings (l : list (bytes * bytes)) : list (bytes * json) := (λ kv, (kv.1, JStr kv.2)) <$> l.
Definition plain_pair (kv : bytes * bytes) : Prop := plain kv.1 ∧ plain kv.2.

Lemma value_plain fuel depth s rest : plain s → value (S fuel) depth (quote s ++ rest) = Some (JStr s, rest).
Proof.
  intros Hs. rewrite quote_plain by done. cbn [app value]. rewrite <-(assoc_L (++)).
  change (skip_ws ("034"%char :: ?x)) with ("034"%char :: x). cbn [app]. rewrite string_tail_plain by done. simpl. by rewrite coerce_plain.
Qed.

Definition pair_text (kv : bytes * bytes) : bytes := quote kv.1 ++ bs ":" ++ quote kv.2.

Lemma member_head kv fuel depth tail : plain_pair kv →
    members (S (S fuel)) depth (pair_text kv ++ tail) =
      match skip_ws tail with
      | ","%char :: r3 => '(l, r4) ← members (S fuel) depth r3; Some ((kv.1, JStr kv.2) :: l, r4)
      | "}"%char :: r3 => Some ([(kv.1, JStr kv.2)], r3)
      | _ => None
      end.
Proof.
  intros [Hk Hv]. unfold pair_text. rewrite <-!(assoc_L (++)). rewrite (quote_plain kv.1) by done.
  set (q := quote kv.2 ++ tail). pose proof (value_plain fuel depth kv.2 tail Hv) as Hval. fold q in Hval. clearbody q.
  remember (S fuel) as f eqn:Hf. cbn [members app]. rewrite <-(assoc_L (++)). cbn [app bs String.list_ascii_of_string].
  change (skip_ws ("034"%char :: ?x)) with ("034"%char :: x). cbv iota.
  rewrite string_tail_plain by done. rewrite bind_some. cbv beta iota.
  change (skip_ws (":"%char :: ?x)) with (":"%char :: x). cbv beta iota. rewrite Hval, bind_some. cbv beta iota. by rewrite coerce_plain.
Qed.

Lemma members_plain l : ∀ kv fuel depth rest, plain_pair kv → Forall plain_pair l → (S (length l) < fuel)%nat →
  members fuel depth (Join (pair_text <$> kv :: l) (bs ",") ++ "}"%char :: rest) = Some (jstrings (kv :: l), rest).
Proof.
  induction l as [|kv' l IH]; intros kv fuel depth rest Hkv Hl Hf; (destruct fuel as [|[|fuel]]; [simpl in Hf; lia..|]).
  - rewrite fmap_cons, fmap_nil. cbn [Join]. by rewrite member_head.
  - inversion Hl as [|?? Hkv' Hl']; subst.
    change (Join (pair_text <$> kv :: kv' :: l) (bs ",")) with (pair_text kv ++ bs "," ++ Join (pair_text <$> kv' :: l) (bs ",")).
    rewrite <-(assoc_L (++)), member_head, <-(assoc_L (++)) by done.
    change (skip_ws (bs "," ++ ?x)) with (","%char :: x). cbv iota.
    rewrite (IH kv' (S fuel) depth rest Hkv' Hl') by (simpl in Hf; lia). reflexivity.
Qed.

Lemma marshal_jstrings l : marshal (JObj (jstrings l)) = bs "{" ++ Join (pair_text <$> l) (bs ",") ++ bs "}".
Proof.
  cbn [marshal]. f_equal. f_equal. f_equal. unfold jstrings. rewrite <-list_fmap_compose. reflexivity.
Qed.

Lemma length_members l : ∀ kv, (length l < length (Join (pair_text <$> kv :: l) (bs ",")))%nat.
Proof.
  induction l as [|kv' l IH]; intros kv.
  - simpl. unfold pair_text. rewrite !length_app. simpl. lia.
  - change (Join (pair_text <$> kv :: kv' :: l) (bs ",")) with (pair_text kv ++ bs "," ++ Join (pair_text <$> kv' :: l) (bs ",")).
    specialize (IH kv'). rewrite !length_app. simpl length in *. lia.
Qed.

Lemma parse_jstrings l : Forall plain_pair l → parse_json (marshal (JObj (jstrings l))) = Some (JObj (jstrings l)).
Proof.
  intros Hl. rewrite marshal_jstrings. destruct l as [|kv l]; [reflexivity|]. inversion Hl as [|?? Hkv Hl']; subst.
  set (body := Join (pair_text <$> kv :: l) (bs ",")).
  assert (∃ b, body = "034"%char :: b) as [b Hb].
  { assert (∃ t, body = pair_text kv ++ t) as [t ->] by (unfold body; destruct l; [by exists []; rewrite app_nil_r|by eexists]).
    unfold pair_text. rewrite (quote_plain kv.1 (proj1 Hkv)). by eexists. }
  assert (S (length l) < length (bs "{" ++ body ++ bs "}"))%nat as Hlen.
  { unfold body. rewrite !length_app. pose proof (length_members l kv) as Hl2. simpl length at 1. change (length (bs "{")) with 1%nat. lia. }
  unfold parse_json. set (n := length (bs "{" ++ body ++ bs "}")) in *. cbn [value app bs String.list_ascii_of_string].
  change (skip_ws ("{"%char :: ?x)) with ("{"%char :: x). cbv iota. rewrite decide_False by lia.
  assert (members n (0 + 1) (body ++ "}"%char :: []) = Some (jstrings (kv :: l), [])) as Hm by (by apply members_plain).
  rewrite Hb in Hm |- *. cbn [app] in Hm |- *. change (skip_ws ("034"%char :: ?x)) with ("034"%char :: x). cbv iota. rewrite Hm. reflexivity.
Qed.

Example parse_ex :
  parse_json (bs "{" ++ jstr "a" ++ bs " : [1, -2.5e3,true ,null], " ++ jstr "b\u00e9\n" ++ bs ":{}}")
  = Some (JObj [(bs "a", JArr [JNum (bs "1"); JNum (bs "-2.5e3"); JBool true; JNull]);
                (bs "b" ++ EncodeRune 0xe9 ++ ["010"%char], JObj [])]).
Proof. vm_compute. reflexivity. Qed.
Example Quote_ex : Quote (λ _, true) (bs "a\b") = jstr "a\\b" ∧ QueryEscape (bs "a b=c") = bs "a+b%3Dc".
Proof. split; vm_compute; reflexivity. Qed.
Example marshal_ex : marshal (JObj [(bs "a<", JArr [JNum (bs "1"); JStr (bs "x")])]) = bs "{" ++ jstr "a\u003c" ++ bs ":[1," ++ jstr "x" ++ bs "]}".
Proof. vm_compute. reflexivity. Qed.
Example ParseFloat_ex : ParseFloat (bs "123.45") = Some (flit 12345 100) ∧ ParseFloat (bs "-1e-2") = Some (SFopp (flit 1 100))
  ∧ ParseFloat (bs "+Inf") = Some (S754_infinity false) ∧ ParseFloat (bs "1e400") = None ∧ ParseFloat (bs "abc") = None.
Proof. vm_compute. split_and!; reflexivity. Qed.
