(* ===== verification/GoJsonText.v ===== *)
(** What [json.Marshal] writes [json.Unmarshal] reads back: UTF-8 decoding
    against encoding, string literals with their escapes, and whole values. *)
From S2P Require Import Prelude GoLib GoFloat GoJson.
Open Scope Z_scope.

(** ** Bits as arithmetic *)

#[local] Ltac Zify.zify_post_hook ::= Z.to_euclidean_division_equations.

Lemma lor_shiftl x y k : 0 ≤ k → 0 ≤ y < 2 ^ k → Z.lor (Z.shiftl x k) y = x * 2 ^ k + y.
Proof.
  intros Hk Hy. rewrite <-Z.shiftl_mul_pow2 by done. rewrite <-Z.add_lor_land.
  assert (Z.land (Z.shiftl x k) y = 0) as ->; [|lia].
  apply Z.bits_inj'. intros n Hn. rewrite Z.land_spec, Z.bits_0. destruct (decide (n < k)) as [Hlt|Hge].
  - by rewrite Z.shiftl_spec_low.
  - destruct (decide (y = 0)) as [->|]; [by rewrite Z.bits_0, andb_false_r|].
    rewrite (Z.bits_above_log2 y n); [apply andb_false_r|lia|].
    apply Z.log2_lt_pow2; [lia|]. apply Z.lt_le_trans with (2 ^ k); [lia|]. apply Z.pow_le_mono_r; lia.
Qed.
Lemma land_ones x k m : 0 ≤ k → m = Z.ones k → Z.land x m = x `mod` 2 ^ k.
Proof. intros Hk ->. by apply Z.land_ones. Qed.

Lemma lor6 x y : 0 ≤ y < 64 → Z.lor (Z.shiftl x 6) y = x * 64 + y.
Proof. by apply (lor_shiftl x y 6). Qed.
Lemma lor12 x y : 0 ≤ y < 4096 → Z.lor (Z.shiftl x 12) y = x * 4096 + y.
Proof. by apply (lor_shiftl x y 12). Qed.
Lemma lor18 x y : 0 ≤ y < 262144 → Z.lor (Z.shiftl x 18) y = x * 262144 + y.
Proof. by apply (lor_shiftl x y 18). Qed.

(** The payload bits of lead and continuation bytes. *)
Lemma land_sub b k m base : 0 ≤ k → m = Z.ones k → base `mod` 2 ^ k = 0 → base ≤ b < base + 2 ^ k → Z.land b m = b - base.
Proof.
  intros Hk Hm Hb Hr. rewrite (land_ones b k) by done. apply Z.mod_divide in Hb as [q ->]; [|lia].
  symmetry. apply Z.mod_unique_pos with q; lia.
Qed.
Lemma land6 b : 128 ≤ b ≤ 191 → Z.land b 0x3F = b - 128.
Proof. intros. apply (land_sub b 6); [done..|]. change (2 ^ 6) with 64. lia. Qed.
Lemma land5 b : 192 ≤ b ≤ 223 → Z.land b 0x1F = b - 192.
Proof. intros. apply (land_sub b 5); [done..|]. change (2 ^ 5) with 32. lia. Qed.
Lemma land4 b : 224 ≤ b ≤ 239 → Z.land b 0x0F = b - 224.
Proof. intros. apply (land_sub b 4); [done..|]. change (2 ^ 4) with 16. lia. Qed.
Lemma land3 b : 240 ≤ b ≤ 247 → Z.land b 0x07 = b - 240.
Proof. intros. apply (land_sub b 3); [done..|]. change (2 ^ 3) with 8. lia. Qed.

(** A continuation byte, and lead bytes. *)
Lemma cont_bits r : Z.lor 0x80 (Z.land r 0x3F) = 128 + r `mod` 64.
Proof.
  rewrite (land_ones r 6) by done. change 0x80 with (Z.shiftl 2 6). rewrite lor_shiftl; [done|done|]. by apply Z.mod_pos_bound.
Qed.
Lemma lead2_bits q : 0 ≤ q < 64 → Z.lor 0xC0 q = 192 + q.
Proof. intros. change 0xC0 with (Z.shiftl 3 6). by rewrite lor_shiftl. Qed.
Lemma lead3_bits q : 0 ≤ q < 16 → Z.lor 0xE0 q = 224 + q.
Proof. intros. change 0xE0 with (Z.shiftl 14 4). by rewrite lor_shiftl. Qed.
Lemma lead4_bits q : 0 ≤ q < 8 → Z.lor 0xF0 q = 240 + q.
Proof. intros. change 0xF0 with (Z.shiftl 30 3). by rewrite lor_shiftl. Qed.

Lemma byte_Z_byte z : 0 ≤ z < 256 → byte_Z (Z_byte z) = z.
Proof. intros. unfold byte_Z, Z_byte. rewrite N_ascii_embedding by lia. lia. Qed.

(** ** Runes *)

Lemma rune2 b0 b1 : 0xC2 ≤ b0 ≤ 0xDF → 0x80 ≤ b1 ≤ 0xBF →
  let r := Z.lor (Z.shiftl (Z.land b0 0x1F) 6) (Z.land b1 0x3F) in 0x80 ≤ r ≤ 0x7FF ∧ EncodeRune r = [Z_byte b0; Z_byte b1].
Proof.
  intros H0 H1 r. assert (r = (b0 - 192) * 64 + (b1 - 128)) as Hr.
  { unfold r. rewrite land5, land6, lor6; lia. }
  clearbody r. split; [lia|]. unfold EncodeRune. rewrite decide_False, decide_True by lia.
  rewrite Z.shiftr_div_pow2 by done. change (2 ^ 6) with 64. rewrite cont_bits, lead2_bits by lia. repeat f_equal; lia.
Qed.
Lemma rune3 b0 b1 b2 : 0xE0 ≤ b0 ≤ 0xEF → 0x80 ≤ b1 ≤ 0xBF → (b0 = 0xE0 → 0xA0 ≤ b1) → (b0 = 0xED → b1 ≤ 0x9F) → 0x80 ≤ b2 ≤ 0xBF →
  let r := Z.lor (Z.lor (Z.shiftl (Z.land b0 0x0F) 12) (Z.shiftl (Z.land b1 0x3F) 6)) (Z.land b2 0x3F) in
  0x800 ≤ r ≤ 0xFFFF ∧ EncodeRune r = [Z_byte b0; Z_byte b1; Z_byte b2].
Proof.
  intros H0 H1 Hlo Hhi H2 r. assert (r = (b0 - 224) * 4096 + (b1 - 128) * 64 + (b2 - 128)) as Hr.
  { unfold r. rewrite land4, (land6 b1), (land6 b2), <-Z.lor_assoc, lor6, lor12 by lia. lia. }
  clearbody r. split; [lia|]. unfold EncodeRune. cbv zeta. rewrite !decide_False, decide_True by lia.
  rewrite !Z.shiftr_div_pow2 by done. change (2 ^ 6) with 64. change (2 ^ 12) with 4096. rewrite !cont_bits, lead3_bits by lia. repeat f_equal; lia.
Qed.
Lemma rune4 b0 b1 b2 b3 : 0xF0 ≤ b0 ≤ 0xF4 → 0x80 ≤ b1 ≤ 0xBF → (b0 = 0xF0 → 0x90 ≤ b1) → (b0 = 0xF4 → b1 ≤ 0x8F) → 0x80 ≤ b2 ≤ 0xBF → 0x80 ≤ b3 ≤ 0xBF →
  let r := Z.lor (Z.lor (Z.shiftl (Z.land b0 0x07) 18) (Z.shiftl (Z.land b1 0x3F) 12)) (Z.lor (Z.shiftl (Z.land b2 0x3F) 6) (Z.land b3 0x3F)) in
  0x10000 ≤ r ≤ 0x10FFFF ∧ EncodeRune r = [Z_byte b0; Z_byte b1; Z_byte b2; Z_byte b3].
Proof.
  intros H0 H1 Hlo Hhi H2 H3 r. assert (r = (b0 - 240) * 262144 + (b1 - 128) * 4096 + (b2 - 128) * 64 + (b3 - 128)) as Hr.
  { unfold r. rewrite land3, (land6 b1), (land6 b2), (land6 b3), <-Z.lor_assoc, lor6, lor12, lor18 by lia. lia. }
  clearbody r. split; [lia|]. unfold EncodeRune. cbv zeta. rewrite !decide_False by lia.
  rewrite !Z.shiftr_div_pow2 by done. change (2 ^ 6) with 64. change (2 ^ 12) with 4096. change (2 ^ 18) with 262144.
  rewrite !cont_bits, lead4_bits by lia. repeat f_equal; lia.
Qed.

(** A decoded rune is an error of one byte, or its bytes are its encoding. *)
Lemma DecodeRune_cases s r w : DecodeRune s = Some (r, w) →
  (r = RuneError ∧ w = 1%nat ∧ s ≠ []) ∨
  (take w s = EncodeRune r ∧ 0 ≤ r ≤ 0x10FFFF ∧ (w ≤ length s)%nat ∧ (r < 128 ∧ w = 1%nat ∨ 128 ≤ r ∧ (2 ≤ w)%nat ∧ Forall (λ c, 128 ≤ byte_Z c) (take w s))).
Proof.
  destruct s as [|c0 s]; [done|]. unfold DecodeRune. cbn [fmap list_fmap]. pose proof (byte_Z_range c0) as Hc0.
  assert (∀ o, (o = Some (RuneError, 1%nat)) → o = Some (r, w) → (r = RuneError ∧ w = 1%nat ∧ c0 :: s ≠ [])) as Herr by naive_solver.
  case_decide as H0.
  { intros [= <- <-]. right. cbn [take length]. split_and!; [|lia..|by left]. unfold EncodeRune. rewrite decide_True by lia. by rewrite take_0, Z_byte_Z. }
  case_decide as H2; [|case_decide as H3; [|case_decide as H4; [|intros Ho; left; by eapply Herr]]].
  all: destruct s as [|c1 s]; [intros Ho; left; by eapply Herr|]; cbn [fmap list_fmap].
  - unfold is_cont. case_bool_decide as H1; [|intros Ho; left; by eapply Herr]. intros [= <- <-]. right.
    destruct (rune2 _ _ H2 H1) as [Hr He]. rewrite He. cbn [take length]. rewrite take_0, !Z_byte_Z. split_and!; [done|lia..|]. right. split_and!; [lia..|].
    repeat constructor; lia.
  - destruct s as [|c2 s]; [intros Ho; left; by eapply Herr|]. cbn [fmap list_fmap]. unfold is_cont.
    case_bool_decide as H1; [|intros Ho; left; by eapply Herr]. case_bool_decide as Hb2; [|intros Ho; left; by eapply Herr]. simpl. intros [= <- <-]. right.
    assert (0x80 ≤ byte_Z c1 ≤ 0xBF ∧ (byte_Z c0 = 0xE0 → 0xA0 ≤ byte_Z c1) ∧ (byte_Z c0 = 0xED → byte_Z c1 ≤ 0x9F)) as (Hb1 & Hlo & Hhi) by (repeat case_decide; lia).
    destruct (rune3 _ _ _ H3 Hb1 Hlo Hhi Hb2) as [Hr He]. rewrite He. cbn [take length]. rewrite !Z_byte_Z. split_and!; [done|lia..|]. right. split_and!; [lia..|].
    repeat constructor; lia.
  - destruct s as [|c2 s]; [intros Ho; left; by eapply Herr|]. destruct s as [|c3 s]; [intros Ho; left; by eapply Herr|]. cbn [fmap list_fmap]. unfold is_cont.
    case_bool_decide as H1; [|intros Ho; left; by eapply Herr]. case_bool_decide as Hb2; [|intros Ho; left; by eapply Herr].
    case_bool_decide as Hb3; [|intros Ho; left; by eapply Herr]. simpl. intros [= <- <-]. right.
    assert (0x80 ≤ byte_Z c1 ≤ 0xBF ∧ (byte_Z c0 = 0xF0 → 0x90 ≤ byte_Z c1) ∧ (byte_Z c0 = 0xF4 → byte_Z c1 ≤ 0x8F)) as (Hb1 & Hlo & Hhi) by (repeat case_decide; lia).
    destruct (rune4 _ _ _ _ H4 Hb1 Hlo Hhi Hb2 Hb3) as [Hr He]. rewrite He. cbn [take length]. rewrite !Z_byte_Z. split_and!; [done|lia..|]. right. split_and!; [lia..|].
    repeat constructor; lia.
Qed.

Lemma EncodeRune_RuneError : EncodeRune RuneError = ["239"; "191"; "189"]%char.
Proof. reflexivity. Qed.

(** ** String literals *)

(** Bytes a literal holds as they are. *)
Lemma string_tail_raw raw t : Forall (λ c, 32 ≤ byte_Z c ∧ c ≠ "034"%char ∧ c ≠ "\"%char) raw →
  string_tail (raw ++ t) = '(x, rest) ← string_tail t; Some (raw ++ x, rest).
Proof.
  induction 1 as [|c raw (Hc & Hq & Hb) _ IH]; [cbn [app]; by destruct (string_tail t) as [[]|]|].
  cbn [app string_tail]. rewrite !decide_False by (done || lia). rewrite IH. by destruct (string_tail t) as [[]|].
Qed.

(** A rune as it is written: escaped or as its bytes. *)
Definition hex_escape (n : nat) (r : Z) : bytes := bs "\u" ++ (if decide (n = 2%nat) then bs "00" else []) ++ hex_digits n r.

Lemma hex_digit_char z : 0 ≤ z < 16 → hex_digit (hex_char z) = Some z.
Proof.
  intros Hz. assert (forallb (λ z, bool_decide (hex_digit (hex_char z) = Some z)) (seqZ 0 16) = true) as HF by reflexivity.
  rewrite forallb_forall in HF. apply (bool_decide_eq_true (hex_digit (hex_char z) = Some z)), HF, list_elem_of_In, elem_of_seqZ. lia.
Qed.
Lemma escape_low r t : 0 ≤ r < 128 → string_tail (bs "\u00" ++ hex_digits 2 r ++ t) = '(x, rest) ← string_tail t; Some (EncodeRune r ++ x, rest).
Proof.
  intros Hr. cbn [hex_digits app bs String.list_ascii_of_string].
  cbn [string_tail]. rewrite !decide_False by done. rewrite decide_True by done.
  unfold hex4. change (hex_digit "0") with (Some 0). rewrite !bind_some. rewrite !hex_digit_char by lia. rewrite !bind_some.
  replace (4096 * 0 + 256 * 0 + 16 * ((r / 16) `mod` 16) + r `mod` 16) with r by lia.
  unfold is_high. rewrite bool_decide_eq_false_2 by lia. done.
Qed.

(** What remains to be read after a rune as [quote_rune] writes it. *)
Lemma string_tail_rune s r w t : DecodeRune s = Some (r, w) →
  string_tail (quote_rune r (take w s) ++ t) = '(x, rest) ← string_tail t; Some (EncodeRune r ++ x, rest).
Proof.
  intros Hd. apply DecodeRune_cases in Hd as [(-> & -> & Hs)|(Ht & Hr & Hw & Hb)].
  { destruct s as [|c s]; [done|]. unfold quote_rune. rewrite !decide_False by (unfold RuneError; lia). rewrite decide_True by done. reflexivity. }
  unfold quote_rune.
  case_decide; [subst; reflexivity|]. case_decide; [subst; reflexivity|]. case_decide; [subst; reflexivity|]. case_decide; [subst; reflexivity|].
  case_decide; [subst; reflexivity|]. case_decide; [subst; reflexivity|]. case_decide; [subst; reflexivity|].
  case_decide; [rewrite <-(assoc_L (++)); apply escape_low; lia|]. case_decide as Hsep; [destruct Hsep; subst; reflexivity|].
  case_decide as He; [|rewrite <-Ht; apply string_tail_raw].
  { exfalso. destruct He as [-> He]. rewrite Ht, EncodeRune_RuneError in He. done. }
  destruct Hb as [[Hr1 ->]|(Hr1 & _ & Hall)].
  - rewrite Ht. unfold EncodeRune. rewrite decide_True by lia. constructor; [|done]. rewrite byte_Z_byte by lia. split_and!; [lia|..].
    + intros Heq. apply (f_equal byte_Z) in Heq. rewrite byte_Z_byte in Heq by lia. change (byte_Z "034") with 34 in Heq. lia.
    + intros Heq. apply (f_equal byte_Z) in Heq. rewrite byte_Z_byte in Heq by lia. change (byte_Z "\") with 92 in Heq. lia.
  - eapply Forall_impl; [exact Hall|]. simpl. intros c Hc. split_and!; [lia|..]; intros ->; vm_compute in Hc; by apply Hc.
Qed.

Lemma DecodeRune_width s r w : DecodeRune s = Some (r, w) → (1 ≤ w)%nat.
Proof. intros [(_ & -> & _)|(_ & _ & _ & [[_ ->]|(_ & ? & _)])]%DecodeRune_cases; lia. Qed.
Lemma DecodeRune_some c s : ∃ rw, DecodeRune (c :: s) = Some rw.
Proof. unfold DecodeRune. cbn [fmap list_fmap]. repeat case_match; eauto. Qed.

Lemma string_tail_chunks n : ∀ s rest, (length s ≤ n)%nat →
  string_tail ((chunks_fuel n s ≫= λ p, quote_rune p.1 p.2) ++ "034"%char :: rest) = Some ((runes_fuel n s).*1 ≫= EncodeRune, rest).
Proof.
  induction n as [|n IH]; intros s rest Hn; cbn [chunks_fuel runes_fuel]; [reflexivity|].
  destruct (DecodeRune s) as [[r w]|] eqn:Hd; [|reflexivity].
  rewrite bind_cons, <-(assoc_L (++)). cbn [fst snd]. rewrite (string_tail_rune _ _ _ _ Hd). pose proof (DecodeRune_width _ _ _ Hd).
  rewrite IH by (rewrite length_drop; lia). rewrite bind_some. reflexivity.
Qed.

(** Any string is read back with its invalid bytes replaced. *)
Lemma string_tail_quote s rest : ∃ body, quote s ++ rest = "034"%char :: body ∧ string_tail body = Some (coerce_utf8 s, rest).
Proof.
  unfold quote. exists ((chunks_fuel (length s) s ≫= λ p, quote_rune p.1 p.2) ++ "034"%char :: rest). split; [simpl; by rewrite <-(assoc_L (++))|].
  by rewrite string_tail_chunks.
Qed.

(** ** Numbers *)

(** [Itoa]'s digits: those of a positive number start with no zero and are
    read back by [parse_digits]. *)
Definition nat_text (x : N) : bytes := bs (pretty x).

Lemma pretty_go_spec x : ∀ s, (0 < x)%N → ∃ c l, bs (pretty_N_go x s) = c :: l ++ bs s ∧ c ≠ "0"%char ∧ Forall (λ d, is_digit d = true) (c :: l) ∧
  ∀ t, parse_digits 0 (c :: l ++ t) = parse_digits (Z.of_N x) t.
Proof.
  induction (N.lt_wf_0 x) as [x _ IH]; intros s Hx. rewrite pretty_N_go_step by done.
  set (d := pretty_N_char (x `mod` 10)). assert (is_digit d = true ∧ digit d = Some (Z.of_N (x `mod` 10)) ∧ (d = "0"%char → (x `mod` 10 = 0)%N)) as (Hd & Hdv & Hd0).
  { assert (x `mod` 10 < 10)%N as Hlt by (by apply N.mod_lt). unfold d. clearbody d. revert Hlt. generalize (x `mod` 10)%N as y. intros y Hy.
    assert (y = 0 ∨ y = 1 ∨ y = 2 ∨ y = 3 ∨ y = 4 ∨ y = 5 ∨ y = 6 ∨ y = 7 ∨ y = 8 ∨ y = 9)%N as Hc by lia.
    destruct_or!; subst; by vm_compute. }
  destruct (decide (x `div` 10 = 0)%N) as [H0|H0].
  - rewrite H0, pretty_N_go_0. exists d, []. split_and!; [done| |by constructor|].
    + intros Hz%Hd0. pose proof (N.div_mod' x 10). lia.
    + intros t. cbn [app parse_digits]. rewrite Hdv. f_equal. pose proof (N.div_mod' x 10). lia.
  - destruct (IH (x `div` 10)%N) with (s := String d s) as (c & l & Hgo & Hc & Hall & Hp); [by apply N.div_lt|lia|].
    exists c, (l ++ [d]). rewrite <-(assoc_L (++)). cbn [app]. split_and!; [exact Hgo|done| |].
    + change (c :: l ++ [d]) with ((c :: l) ++ [d]). apply Forall_app. split; [done|by constructor].
    + intros t. rewrite <-(assoc_L (++)), Hp. cbn [app parse_digits]. rewrite Hdv. f_equal. pose proof (N.div_mod' x 10). lia.
Qed.

Lemma nat_text_spec x : ∃ c l, nat_text x = c :: l ∧ Forall (λ d, is_digit d = true) (c :: l) ∧ (c = "0"%char → l = []) ∧ parse_digits 0 (c :: l) = Some (Z.of_N x).
Proof.
  unfold nat_text, pretty, pretty_N. case_decide as H0.
  - subst. exists "0"%char, []. split_and!; [done|by repeat constructor|done|done].
  - destruct (pretty_go_spec x "") as (c & l & Hgo & Hc & Hall & Hp); [lia|]. rewrite app_nil_r in Hgo. exists c, l. split_and!; [done..|].
    specialize (Hp []). by rewrite app_nil_r in Hp.
Qed.

Lemma Itoa_cases z : Itoa z = if decide (z < 0) then "-"%char :: nat_text (Z.to_N (- z)) else nat_text (Z.to_N z).
Proof.
  unfold Itoa, nat_text, pretty at 1, pretty_Z. by destruct z.
Qed.

(** Integers are read back. *)
Lemma ParseInt_Itoa z : - 2 ^ 63 ≤ z < 2 ^ 63 → ParseInt (Itoa z) = Some z.
Proof.
  intros Hz. rewrite Itoa_cases. case_decide as Hneg.
  - destruct (nat_text_spec (Z.to_N (- z))) as (c & l & -> & _ & _ & Hp). unfold ParseInt. rewrite decide_True by done. rewrite Hp.
    rewrite Z2N.id by lia. rewrite Z.opp_involutive. by rewrite decide_True.
  - destruct (nat_text_spec (Z.to_N z)) as (c & l & -> & Hall & _ & Hp). apply Forall_cons in Hall as [Hd _]. unfold ParseInt.
    rewrite decide_False by (by intros ->). rewrite decide_False by (by intros ->). rewrite Hp. rewrite Z2N.id by lia. by rewrite decide_True.
Qed.

(** What may follow a value in a text: nothing, or a comma or closing
    bracket. *)
Definition delim (rest : bytes) : Prop := match rest with [] => True | c :: _ => c = ","%char ∨ c = "]"%char ∨ c = "}"%char end.

(** A literal [number] reads back, with the byte it starts with. *)
Definition number_text (n : bytes) : Prop :=
  (∃ c l, n = c :: l ∧ c ∈ bs "-0123456789") ∧ ∀ rest, delim rest → number (n ++ rest) = Some (n, rest).

Lemma span_digits l rest : Forall (λ d, is_digit d = true) l → delim rest → span is_digit (l ++ rest) = (l, rest).
Proof.
  intros Hl Hr. induction Hl as [|d l Hd _ IH]; cbn [app].
  - destruct rest as [|c rest]; [done|]. simpl in Hr. by destruct Hr as [->|[->| ->]].
  - cbn [span]. by rewrite Hd, IH.
Qed.
Lemma digit_in d : is_digit d = true → d ∈ bs "0123456789".
Proof.
  unfold is_digit. rewrite bool_decide_eq_true. intros Hd. assert (byte_Z d ∈ seqZ 48 10) as Hin by (apply elem_of_seqZ; lia).
  rewrite <-(Z_byte_Z d). generalize dependent (byte_Z d). intros z _ Hz. apply (list_elem_of_fmap_2 Z_byte) in Hz. exact Hz.
Qed.

(** After the digits of an integer nothing more belongs to the number. *)
Lemma number_stops (sign int rest : bytes) : delim rest →
  ('(frac, s3) ← (match rest with
                 | "."%char :: r => match span is_digit r with ([], _) => None | (d, r') => Some ("."%char :: d, r') end
                 | _ => Some ([], rest)
                 end);
  '(exp, s4) ← (match s3 with
                | e :: r =>
                    if decide (e = "e"%char ∨ e = "E"%char) then
                      let '(sg, r1) := match r with
                                       | "+"%char :: r' => (bs "+", r') | "-"%char :: r' => (bs "-", r')
                                       | _ => ([], r) end in
                      match span is_digit r1 with ([], _) => None | (d, r') => Some (e :: sg ++ d, r') end
                    else Some ([], s3)
                | [] => Some ([], s3)
                end);
  Some (sign ++ int ++ frac ++ exp, s4)) = Some (sign ++ int, rest).
Proof.
  intros Hr. destruct rest as [|c rest]; [simpl; by rewrite app_nil_r|]. simpl in Hr.
  destruct Hr as [->|[->| ->]]; simpl; by rewrite app_nil_r.
Qed.

Lemma number_digits sign c l rest : Forall (λ d, is_digit d = true) (c :: l) → (c = "0"%char → l = []) → delim rest →
  (sign = [] ∨ sign = bs "-") → number (sign ++ c :: l ++ rest) = Some (sign ++ c :: l, rest).
Proof.
  intros Hall H0 Hr Hs. pose proof (span_digits (c :: l) rest Hall Hr) as Hspan. cbn [app] in Hspan.
  pose proof (number_stops sign (c :: l) rest Hr) as Hst.
  apply Forall_cons in Hall as [Hc%digit_in _]. vm_compute in Hc. apply elem_of_cons in Hc as [->|Hc].
  - rewrite H0 in * by done. unfold number. destruct Hs as [->| ->]; exact Hst.
  - repeat (apply elem_of_cons in Hc as [->|Hc];
      [unfold number; destruct Hs as [->| ->]; cbn [app bs String.list_ascii_of_string]; cbv iota; rewrite Hspan; exact Hst|]).
    by apply elem_of_nil in Hc.
Qed.

Lemma number_text_Itoa z : number_text (Itoa z).
Proof.
  rewrite Itoa_cases. case_decide.
  - destruct (nat_text_spec (Z.to_N (- z))) as (c & l & -> & Hall & H0 & _). split; [eexists _, _; split; [done|left]|].
    intros rest Hr. by apply (number_digits (bs "-")); auto.
  - destruct (nat_text_spec (Z.to_N z)) as (c & l & -> & Hall & H0 & _). split.
    + eexists _, _. split; [done|]. apply Forall_cons in Hall as [Hc%digit_in _]. right. exact Hc.
    + intros rest Hr. by apply (number_digits []); auto.
Qed.

(** ** Values *)

(** What a decoded text can be: strings and names of valid UTF-8, integers or
    other number literals, arrays and objects at most 10000 deep. *)
Fixpoint storable (d : Z) (j : json) : Prop :=
  match j with
  | JNull | JBool _ => True
  | JNum n => number_text n
  | JStr s => coerce_utf8 s = s
  | JArr l => d < 10000 ∧ foldr (λ v P, storable (d + 1) v ∧ P) True l
  | JObj l => d < 10000 ∧ foldr (λ kv P, (coerce_utf8 kv.1 = kv.1 ∧ storable (d + 1) kv.2) ∧ P) True l
  end.

Definition member_text (kv : bytes * json) : bytes := quote kv.1 ++ bs ":" ++ marshal kv.2.

(** The first byte of a value's text. *)
Lemma marshal_head d j : storable d j → ∃ c t, marshal j = c :: t ∧ c ∈ bs "ntf-0123456789[{" ++ ["034"%char].
Proof.
  intros Hs. destruct j as [|b|n|s|l|l]; simpl in Hs.
  - eexists _, _. split; [reflexivity|set_solver].
  - destruct b; eexists _, _; (split; [reflexivity|set_solver]).
  - destruct Hs as [(c & l & -> & Hc) _]. exists c, l. split; [done|]. vm_compute in Hc. set_solver.
  - eexists _, _. split; [reflexivity|set_solver].
  - eexists _, _. split; [reflexivity|set_solver].
  - eexists _, _. split; [reflexivity|set_solver].
Qed.
Ltac each_byte H := repeat (apply elem_of_cons in H as [->|H]; [|]); [..|by apply elem_of_nil in H].
Lemma skip_marshal d j rest : storable d j → skip_ws (marshal j ++ rest) = marshal j ++ rest.
Proof. intros (c & t & -> & Hc)%marshal_head. vm_compute in Hc. each_byte Hc; reflexivity. Qed.
Lemma marshal_length d j : storable d j → (1 ≤ length (marshal j))%nat.
Proof. intros (c & t & -> & _)%marshal_head. simpl. lia. Qed.
Lemma member_length kv : (2 ≤ length (member_text kv))%nat.
Proof. unfold member_text, quote. rewrite !length_app. simpl. lia. Qed.

Lemma Join_cons2 x y l sep : Join (x :: y :: l) sep = x ++ sep ++ Join (y :: l) sep.
Proof. reflexivity. Qed.

Lemma skip_delim rest : delim rest → skip_ws rest = rest.
Proof. destruct rest as [|c rest]; [done|]. intros [->|[->| ->]]; reflexivity. Qed.

Lemma no_prefix c t w : (∀ d w', w = d :: w' → d ≠ c) → w ≠ [] → HasPrefix (c :: t) w = false.
Proof.
  intros Hc Hw. destruct w as [|d w]; [done|]. apply bool_decide_eq_false_2. intros Hp%prefix_cons_inv_1. by eapply Hc.
Qed.
Lemma value_number n fuel d rest : number_text n → delim rest → value (S fuel) d (n ++ rest) = Some (JNum n, rest).
Proof.
  intros [(c & l & -> & Hc) Hn] Hr. specialize (Hn rest Hr). cbn [app] in *. vm_compute in Hc. each_byte Hc.
  all: cbn [value]; change (skip_ws (?x :: ?y)) with (x :: y); cbv iota.
  all: rewrite !no_prefix by (try done; intros ?? [= <- _]; done); rewrite Hn; reflexivity.
Qed.

(** The three readers at once, by induction on the fuel. *)
Lemma readers fuel :
  (∀ j d rest, storable d j → delim rest → (length (marshal j) ≤ fuel)%nat → value fuel d (marshal j ++ rest) = Some (j, rest)) ∧
  (∀ v l d rest, foldr (λ v P, storable d v ∧ P) True (v :: l) → (length (Join (marshal <$> v :: l) (bs ",")) < fuel)%nat →
     elems fuel d (Join (marshal <$> v :: l) (bs ",") ++ "]"%char :: rest) = Some (v :: l, rest)) ∧
  (∀ kv l d rest, foldr (λ kv P, (coerce_utf8 kv.1 = kv.1 ∧ storable d kv.2) ∧ P) True (kv :: l) →
     (length (Join (member_text <$> kv :: l) (bs ",")) < fuel)%nat →
     members fuel d (Join (member_text <$> kv :: l) (bs ",") ++ "}"%char :: rest) = Some (kv :: l, rest)).
Proof.
  induction fuel as [|fuel (IHv & IHe & IHm)].
  { split_and!; [|intros; lia..]. intros j d rest Hs _ Hl. pose proof (marshal_length d j Hs). lia. }
  split_and!.
  - intros j d rest Hs Hr Hl. destruct j as [|[]|n|s|l|l].
    + reflexivity.
    + reflexivity.
    + reflexivity.
    + by apply value_number.
    + simpl in Hs. cbn [marshal]. destruct (string_tail_quote s rest) as (body & Hq & Hb). rewrite Hq. cbn [value].
      change (skip_ws ("034"%char :: ?x)) with ("034"%char :: x). cbv iota. rewrite Hb, bind_some, Hs.
      assert (coerce_utf8 s = s) as Hs' by done. by rewrite Hs'.
    + destruct Hs as [Hd Hs]. destruct l as [|v l].
      { change (marshal (JArr []) ++ rest) with ("["%char :: "]"%char :: rest). cbn [value].
        change (skip_ws ("["%char :: ?x)) with ("["%char :: x). cbv iota. by rewrite decide_False by lia. }
      pose proof (IHe v l (d + 1) rest Hs) as He. assert (∃ t, Join (marshal <$> v :: l) (bs ",") = marshal v ++ t) as [t Ht].
      { destruct l; [exists []; by rewrite app_nil_r|by eexists]. }
      change (marshal (JArr (v :: l))) with (bs "[" ++ Join (marshal <$> v :: l) (bs ",") ++ bs "]") in *.
      destruct Hs as [Hv _]. rewrite Ht in *. rewrite !length_app in Hl. rewrite <-!(assoc_L (++)) in *. cbn [value].
      change (skip_ws (bs "[" ++ ?x)) with ("["%char :: x). cbv iota. rewrite decide_False by lia.
      rewrite (skip_marshal (d + 1) v) by done. change (bs "]" ++ rest) with ("]"%char :: rest). rewrite He by (rewrite length_app; simpl in Hl |- *; lia).
      destruct (marshal_head _ _ Hv) as (c & t' & -> & Hc). vm_compute in Hc. each_byte Hc; reflexivity.
    + destruct Hs as [Hd Hs]. destruct l as [|kv l].
      { change (marshal (JObj []) ++ rest) with ("{"%char :: "}"%char :: rest). cbn [value].
        change (skip_ws ("{"%char :: ?x)) with ("{"%char :: x). cbv iota. by rewrite decide_False by lia. }
      change (marshal (JObj (kv :: l))) with (bs "{" ++ Join (member_text <$> kv :: l) (bs ",") ++ bs "}") in *.
      pose proof (IHm kv l (d + 1) rest Hs) as Hm. assert (∃ t, Join (member_text <$> kv :: l) (bs ",") = "034"%char :: t) as [t Ht].
      { destruct l; by eexists. }
      rewrite !length_app in Hl. rewrite <-!(assoc_L (++)). cbn [value].
      change (skip_ws (bs "{" ++ ?x)) with ("{"%char :: x). cbv iota. rewrite decide_False by lia.
      change (bs "}" ++ rest) with ("}"%char :: rest). rewrite Hm by (simpl in Hl |- *; lia). rewrite Ht. reflexivity.
  - intros v l d rest [Hv Hs] Hl. cbn [elems]. destruct l as [|v' l].
    + cbn [fmap list_fmap Join] in *. rewrite (IHv v d); [|done|by right; left|lia]. rewrite bind_some. reflexivity.
    + rewrite !fmap_cons, Join_cons2, !length_app in Hl. rewrite !fmap_cons, Join_cons2, <-!(assoc_L (++)).
      rewrite (IHv v d); [|done|by left|lia]. rewrite bind_some. change (skip_ws (bs "," ++ ?x)) with (","%char :: x). cbv iota beta.
      rewrite <-fmap_cons, (IHe v' l d rest Hs) by (pose proof (marshal_length _ _ Hv); rewrite fmap_cons; lia). reflexivity.
  - intros kv l d rest [[Hk Hv] Hs] Hl. cbn [members].
    assert (∀ tail, delim tail → (length (member_text kv) ≤ fuel)%nat → ∃ body, member_text kv ++ tail = "034"%char :: body ∧
      string_tail body = Some (kv.1, ":"%char :: marshal kv.2 ++ tail) ∧ value fuel d (marshal kv.2 ++ tail) = Some (kv.2, tail)) as Hhead.
    { intros tail Ht Hlen. unfold member_text in *. rewrite <-!(assoc_L (++)). destruct (string_tail_quote kv.1 (bs ":" ++ marshal kv.2 ++ tail)) as (body & Hq & Hb).
      exists body. rewrite Hk in Hb. split_and!; [done..|]. apply IHv; [done..|]. rewrite !length_app in Hlen. simpl in Hlen. lia. }
    destruct l as [|kv' l].
    + cbn [fmap list_fmap Join] in *. destruct (Hhead ("}"%char :: rest)) as (body & Hq & Hb & Hval); [by right; right|lia|].
      rewrite Hq. change (skip_ws ("034"%char :: ?x)) with ("034"%char :: x). cbv iota. rewrite Hb, bind_some. cbv iota beta.
      change (skip_ws (":"%char :: ?x)) with (":"%char :: x). cbv iota. rewrite Hval, bind_some. cbv iota beta.
      change (skip_ws ("}"%char :: ?x)) with ("}"%char :: x). cbv iota. rewrite Hk. by destruct kv.
    + rewrite !fmap_cons, Join_cons2, !length_app in Hl. rewrite !fmap_cons, Join_cons2, <-!(assoc_L (++)).
      destruct (Hhead (bs "," ++ Join (member_text kv' :: (member_text <$> l)) (bs ",") ++ "}"%char :: rest)) as (body & Hq & Hb & Hval); [by left|lia|].
      rewrite Hq. change (skip_ws ("034"%char :: ?x)) with ("034"%char :: x). cbv iota. rewrite Hb, bind_some. cbv iota beta.
      change (skip_ws (":"%char :: ?x)) with (":"%char :: x). cbv iota. rewrite Hval, bind_some. cbv iota beta.
      change (skip_ws (bs "," ++ ?x)) with (","%char :: x). cbv iota.
      rewrite <-fmap_cons, (IHm kv' l d rest Hs) by (pose proof (member_length kv); rewrite fmap_cons; lia). rewrite bind_some, Hk. by destruct kv.
Qed.

(** Marshalling is undone by parsing. *)
Lemma parse_marshal j : storable 0 j → parse_json (marshal j) = Some j.
Proof.
  intros Hs. unfold parse_json. pose proof (proj1 (readers (S (length (marshal j)))) j 0 [] Hs I ltac:(lia)) as Hv.
  rewrite app_nil_r in Hv. by rewrite Hv.
Qed.
