(* ===== verification/Sensitive.v ===== *)
(** The sensitive-content checkers of builder/sensitive: the Aho-Corasick
    checker over normalised text, the mutable checker and the loaders that
    refresh it, the Aliyun moderation checker, and the chain that runs them in
    order. Checkers are objects of a store; the interface [SensitiveChecker]
    is a record of operations on it. *)
From S2P Require Import Prelude AhoCorasick AhoCorasickTrie AhoCorasickMatch AhoCorasickSpec GoLib GoFloat.

Open Scope Z_scope.

Abbreviation scenario := bytes (only parsing).
Definition ScenarioLLMQueryModeration : scenario := bs "llm_query_moderation".
Definition ScenarioLLMResModeration : scenario := bs "llm_response_moderation".

Record CheckResult := mk_check { IsSensitive : bool; Reason : bytes }.
Definition pass : CheckResult := mk_check false [].

Record SensitiveWordData := mk_words { TagMap : gmap Z bytes; Words : list bytes }.

(** The Aho-Corasick checker; [ac_pool] is the map its matcher's pool hands
    to the next call, if any. *)
Record ACAutomation := mk_ac {
  ac_matcher : Matcher;
  ac_tagMap : gmap Z bytes;
  ac_words : list bytes;
  ac_pool : option (gmap nat Z);
}.

(** A loader's [Base]: observers are addresses of mutable checkers. *)
Record Base := mk_base { observers : list nat; data : option SensitiveWordData }.

(** The heap: checkers built so far and, for each mutable checker, the
    checker it embeds. *)
Record heap := mk_heap { acs : list ACAutomation; mutables : list nat }.

(** The interface: a call may fail, panic, and change the heap. *)
Record SensitiveChecker := mk_checker {
  PassTextCheck : scenario → bytes → heap → outcome bytes (CheckResult * heap);
  PassImageCheck : scenario → bytes → bytes → heap → outcome bytes (CheckResult * heap);
  PassImageURLCheck : scenario → bytes → heap → outcome bytes (CheckResult * heap);
  PassLLMCheck : scenario → bytes → bytes → bytes → heap → outcome bytes (CheckResult * heap);
}.

(** ** chain.go *)

(** The loop all four checks of the chain run. *)
Fixpoint chain_loop (check : SensitiveChecker → heap → outcome bytes (CheckResult * heap))
    (checkers : list SensitiveChecker) (h : heap) : outcome bytes (CheckResult * heap) :=
  match checkers with
  | [] => Ret (pass, h)
  | checker :: rest =>
      '(res, h') ← check checker h;
      if IsSensitive res then Ret (res, h') else chain_loop check rest h'
  end.

Definition chain_PassTextCheck checkers sc text : heap → outcome bytes (CheckResult * heap) :=
  chain_loop (λ c, PassTextCheck c sc text) checkers.
Definition chain_PassImageCheck checkers sc bucket object : heap → outcome bytes (CheckResult * heap) :=
  chain_loop (λ c, PassImageCheck c sc bucket object) checkers.
Definition chain_PassImageURLCheck checkers sc url : heap → outcome bytes (CheckResult * heap) :=
  chain_loop (λ c, PassImageURLCheck c sc url) checkers.
Definition chain_PassLLMCheck checkers sc text sessionId accountId : heap → outcome bytes (CheckResult * heap) :=
  chain_loop (λ c, PassLLMCheck c sc text sessionId accountId) checkers.

Definition NewChainCheckerWithCheckers (checkers : list SensitiveChecker) : SensitiveChecker :=
  mk_checker (chain_PassTextCheck checkers) (chain_PassImageCheck checkers)
    (chain_PassImageURLCheck checkers) (chain_PassLLMCheck checkers).

(** ** aho_corasick.go *)

Section checkers.
(** [unicode.ToLower] beyond ASCII. *)
Variable unicode_lower : Z → Z.

Definition lower_rune (r : Z) : Z :=
  if decide (0 ≤ r < 0x80) then (if decide (65 ≤ r ≤ 90) then r + 32 else r) else unicode_lower r.

(** [strings.ToLower] *)
Definition ToLower (s : bytes) : bytes := of_runes (lower_rune <$> to_runes s).

Definition removed_bytes : list ascii :=
  [" "; "009"; "010"; "*"; "@"; "-"; "."; ","; "_"]%char.

Definition narrow_rune (r : Z) : Z :=
  let r' := if decide (65281 ≤ r ≤ 65374) then r - 65248 else r in
  if decide (r = 12288) then 32 else r'.

Definition cleanText (text : bytes) : bytes :=
  let t := filter (λ c, c ∉ removed_bytes) text in
  of_runes (narrow_rune <$> to_runes t).

Definition NewACAutomation (d : option SensitiveWordData) (h : heap) : outcome bytes (nat * heap) :=
  d ← deref_ptr d;
  m ← deref_ptr (NewMatcher (Words d));
  Ret (length (acs h), mk_heap (acs h ++ [mk_ac m (TagMap d) (Words d) None]) (mutables h)).

(** The report on one hit: the tag and word, with up to ten bytes around it. *)
Definition hit_reason (t key : bytes) (hit : MatchResultWithPos) : outcome bytes bytes :=
  let contextStart := Z.max 0 (StartPos hit - 10) in
  let contextEnd := Z.min (len t) (EndPos hit + 10) in
  s ← deref_ptr (slice t contextStart contextEnd);
  Ret (key ++ bs "|[text: " ++ (if decide (contextStart > 0) then bs "..." else []) ++ s ++
       (if decide (contextEnd < len t) then bs "..." else []) ++ bs "]").

(** The loop over the hits returns on the first hit in range: [seen] is still
    empty then. *)
Fixpoint detect_loop (ac : ACAutomation) (t : bytes) (hits : list MatchResultWithPos) :
    outcome bytes (option (bytes * bytes)) :=
  match hits with
  | [] => Ret None
  | hit :: hits' =>
      if decide (Z.of_nat (Hint_ hit) < 0 ∨ len (ac_words ac) ≤ Z.of_nat (Hint_ hit))
      then detect_loop ac t hits'
      else
        let word := default [] (ac_words ac !! Hint_ hit) in
        let tag := default [] (ac_tagMap ac !! Z.of_nat (Hint_ hit)) in
        let key := tag ++ bs "|" ++ word in
        fullReason ← hit_reason t key hit;
        Ret (Some (tag, fullReason))
  end.

Definition detect (ac : ACAutomation) (text : bytes) : outcome bytes (option (bytes * bytes) * ACAutomation) :=
  let t := cleanText (ToLower text) in
  '(m, pool, hits) ← deref_ptr (MatchThreadSafeWithPos (ac_matcher ac) (ac_pool ac) t);
  r ← detect_loop ac t hits;
  Ret (r, mk_ac m (ac_tagMap ac) (ac_words ac) (Some pool)).

(** [detect] on the checker at address [p], with the verdict both text checks
    build from it. *)
Definition ac_check (p : nat) (text : bytes) (h : heap) : outcome bytes (CheckResult * heap) :=
  ac ← deref_ptr (acs h !! p);
  '(detectResult, ac') ← detect ac text;
  let h' := mk_heap (<[p := ac']> (acs h)) (mutables h) in
  match detectResult with
  | Some (_, reason) => Ret (mk_check true reason, h')
  | None => Ret (pass, h')
  end.

Definition ac_PassTextCheck (p : nat) (sc : scenario) (text : bytes) (h : heap) := ac_check p text h.
Definition ac_PassImageCheck (p : nat) (sc : scenario) (bucket object : bytes) (h : heap) : outcome bytes (CheckResult * heap) := Ret (pass, h).
Definition ac_PassImageURLCheck (p : nat) (sc : scenario) (url : bytes) (h : heap) : outcome bytes (CheckResult * heap) := Ret (pass, h).
Definition ac_PassLLMCheck (p : nat) (sc : scenario) (text sessionId accountId : bytes) (h : heap) : outcome bytes (CheckResult * heap) :=
  if decide (sc ≠ ScenarioLLMQueryModeration ∧ sc ≠ ScenarioLLMResModeration) then Ret (pass, h)
  else ac_check p text h.

Definition ac_checker (p : nat) : SensitiveChecker :=
  mk_checker (ac_PassTextCheck p) (ac_PassImageCheck p) (ac_PassImageURLCheck p) (ac_PassLLMCheck p).

(** ** mutable.go: the calls go to the embedded checker of the moment *)

Definition embedded {A} (q : nat) (f : nat → heap → outcome bytes A) (h : heap) : outcome bytes A :=
  p ← deref_ptr (mutables h !! q); f p h.

Definition mutable_checker (q : nat) : SensitiveChecker :=
  mk_checker (λ sc text, embedded q (λ p, ac_PassTextCheck p sc text))
    (λ sc b o, embedded q (λ p, ac_PassImageCheck p sc b o))
    (λ sc url, embedded q (λ p, ac_PassImageURLCheck p sc url))
    (λ sc text s a, embedded q (λ p, ac_PassLLMCheck p sc text s a)).

Definition Update (q : nat) (d : option SensitiveWordData) (h : heap) : outcome bytes heap :=
  '(p, h') ← NewACAutomation d h;
  Ret (mk_heap (acs h') (<[q := p]> (mutables h'))).

(** ** internal/loader.go *)

Definition Subscribe (q : nat) (b : Base) : Base := mk_base (observers b ++ [q]) (data b).

Fixpoint remove_first (q : nat) (l : list nat) : list nat :=
  match l with
  | [] => []
  | x :: l' => if decide (x = q) then l' else x :: remove_first q l'
  end.
Definition Unsubscribe (q : nat) (b : Base) : Base := mk_base (remove_first q (observers b)) (data b).

Definition Base_Load (b : Base) : result (option SensitiveWordData) bytes := Ok (data b).

Definition NewBaseLoader (tagMap : gmap Z bytes) (words : list bytes) : Base :=
  mk_base [] (Some (mk_words tagMap words)).

Fixpoint update_all (qs : list nat) (d : option SensitiveWordData) (h : heap) : outcome bytes heap :=
  match qs with
  | [] => Ret h
  | q :: qs' => h' ← Update q d h; update_all qs' d h'
  end.
Definition NotifyObservers (b : Base) (h : heap) : outcome bytes heap := update_all (observers b) (data b) h.

(** A directory tree as [filepath.WalkDir] visits it: entries in lexical
    order; [None] is an unreadable file or directory. *)
Inductive dirent :=
  | File (name : bytes) (content : option bytes)
  | Dir (name : bytes) (entries : option (list dirent)).

Definition add_line (tag : bytes) (d : SensitiveWordData) (w : bytes) : SensitiveWordData :=
  let w := TrimSpace w in
  if decide (w = []) then d
  else mk_words (<[len (Words d) := tag]> (TagMap d)) (Words d ++ [w]).

(** The callback on a file; [parent] is the name of its directory. *)
Definition walk_file (base parent name : bytes) (content : option bytes) (d : SensitiveWordData) : SensitiveWordData :=
  if HasSuffix (ToLower name) (bs ".txt") then
    let tag := TrimSuffix name (bs ".txt") in
    let tag := if decide (parent ≠ bs "." ∧ parent ≠ [] ∧ parent ≠ base) then parent else tag in
    match content with
    | None => d
    | Some c => foldl (add_line tag) d (Split c [ "010"%char ])
    end
  else d.

(** The walk; [false] when the callback returned an error, which ends it. *)
Fixpoint walk (base parent : bytes) (e : dirent) (d : SensitiveWordData) : SensitiveWordData * bool :=
  match e with
  | File name content => (walk_file base parent name content d, true)
  | Dir name None => (d, false)
  | Dir name (Some es) =>
      (fix go (es : list dirent) (d : SensitiveWordData) : SensitiveWordData * bool :=
        match es with
        | [] => (d, true)
        | e :: es' => let '(d', ok) := walk base name e d in
                      if ok then go es' d' else (d', false)
        end) es d
  end.

(** [fs] is what lies at [configPath], [None] when nothing does; [base] and
    [parent] are the names of the path's last two elements. *)
Definition ConfigLoader_Load (base parent : bytes) (fs : option dirent) (b : Base) (h : heap) :
    outcome bytes (result (option SensitiveWordData) bytes * Base * heap) :=
  let empty := mk_words ∅ [] in
  let d := match fs with None => empty | Some e => (walk base parent e empty).1 end in
  let b' := mk_base (observers b) (Some d) in
  h' ← NotifyObservers b' h;
  Ret (Ok (Some d), b', h').

Definition databaseImpl_Load (b : Base) (h : heap) :
    outcome bytes (result (option SensitiveWordData) bytes * Base * heap) :=
  Ret (Ok (Some (mk_words ∅ [])), b, h).

(** The [Loader] interface at its two uses: [load] may notify. *)
Abbreviation load_fn := (Base → heap → outcome bytes (result (option SensitiveWordData) bytes * Base * heap)) (only parsing).

Definition loaded (r : result (option SensitiveWordData) bytes) : option SensitiveWordData :=
  match r with Ok d => d | Err _ => None end.

Definition NewMutableACAutomation (load : load_fn) (b : Base) (h : heap) : outcome bytes (nat * Base * heap) :=
  '(r, b1, h1) ← load b h;
  '(p, h2) ← NewACAutomation (loaded r) h1;
  let q := length (mutables h2) in
  Ret (q, Subscribe q b1, mk_heap (acs h2) (mutables h2 ++ [p])).

(** ** chain.go: options *)

Definition WithACAutomaton (load : load_fn) (b : Base) (checkers : list SensitiveChecker) (h : heap) :
    outcome bytes (list SensitiveChecker * Base * heap) :=
  '(r, b1, h1) ← load b h;
  '(p, h2) ← NewACAutomation (loaded r) h1;
  Ret (checkers ++ [ac_checker p], b1, h2).

Definition WithMutableACAutomaton (load : load_fn) (b : Base) (checkers : list SensitiveChecker) (h : heap) :
    outcome bytes (list SensitiveChecker * Base * heap) :=
  '(q, b1, h1) ← NewMutableACAutomation load b h;
  Ret (checkers ++ [mutable_checker q], b1, h1).

Definition WithAliYunChecker (AccessKeyID AccessKeySecret Region : bytes) (aliyun : SensitiveChecker)
    (checkers : list SensitiveChecker) : list SensitiveChecker :=
  if decide (AccessKeyID ≠ [] ∧ AccessKeySecret ≠ [] ∧ Region ≠ [])
  then checkers ++ [aliyun] else checkers.

End checkers.
