(* ===== verification/Aliyun.v ===== *)
(** The Aliyun moderation checker of builder/sensitive/aliyun_green.go: large
    texts cut into tasks and scanned in batch, the text, LLM and image checks,
    and their verdicts on the service's replies. The service (the SDK clients)
    is a set of parameters; a reply field the SDK returns as a pointer is an
    [option], and dereferencing nil panics. *)
From S2P Require Import Prelude GoLib GoFloat Sensitive.
Open Scope Z_scope.

Definition smallTextSize : Z := 500.
Definition LargeTextSize : Z := 9000.

(** [truncString] overwrites the last three of [limit] bytes; [None] is the
    index panic of a limit under three. *)
Definition truncString (s : bytes) (limit : Z) : option bytes :=
  if decide (len s ≤ limit) then Some s else
  s1 ← slice s 0 limit;
  if decide (3 ≤ limit) then Some (take (Z.to_nat (limit - 3)) s1 ++ bs "...") else None.

(** *** Requests and replies *)

Record TextScanResponseDataItemResult := mk_scan_result { Label : bytes; Rate : float32; Suggestion : bytes }.
Record TextScanResponseDataItem := mk_scan_item { Content : bytes; Results : list TextScanResponseDataItemResult; TaskId : bytes }.
Record TextScanResponse := mk_scan_resp { Data : list TextScanResponseDataItem; RequestID : bytes }.

Record moderation_body := mk_body {
  b_Code : option Z; b_Message : option bytes; b_RequestId : option bytes;
  b_Labels : option bytes; b_Reason : option bytes;
}.
Record TextModerationResponse := mk_moderation { m_StatusCode : option Z; m_Body : moderation_body }.

Record plus_result := mk_plus_result { p_Label : option bytes; p_RiskWords : option bytes }.
Record TextModerationPlusResponse := mk_plus {
  p_StatusCode : option Z; p_Code : option Z; p_Message : option bytes; p_RequestId : option bytes;
  p_RiskLevel : option bytes; p_Result : list plus_result;
}.

Record image_result := mk_image_result { i_Label : option bytes; i_Confidence : option float32 }.
Record ImageModerationResponse := mk_image {
  i_StatusCode : option Z; i_Code : option Z; i_Msg : option bytes; i_RequestId : option bytes;
  i_Result : list image_result;
}.

(** [tea.StringValue] *)
Definition StringValue (p : option bytes) : bytes := default [] p.
(** [tea.Float32Value] *)
Definition Float32Value (p : option float32) : float32 := default (S754_zero false) p.

Definition f32 (n d : Z) : float32 :=
  SFdiv 24 128 (binary_normalize 24 128 n 0 false) (binary_normalize 24 128 d 0 false).

Section aliyun.
(** The SDK calls: the request's fields to a reply or an error. *)
Variable TextScan : list bytes → result TextScanResponse bytes.
Variable TextModeration : scenario → bytes → result TextModerationResponse bytes.
Variable TextModerationPlus : scenario → gmap bytes bytes → result TextModerationPlusResponse bytes.
Variable ImageModeration : scenario → gmap bytes bytes → result ImageModerationResponse bytes.
Variable RegionId : bytes.
(** A fresh uuid, and the order in which the runtime ranges over a map. *)
Variable new_uuid : bytes.
Variable range_order : gmap bytes float32 → list bytes.

Definition politics (label : bytes) : bool :=
  bool_decide (label = bs "politics" ∨ label = bs "political_content").

Fixpoint SplitTasks_loop (fuel : nat) (i : Z) (text : bytes) (tasks : list bytes) : list bytes :=
  match fuel with
  | O => tasks
  | S fuel =>
      if decide (i + LargeTextSize < len text) then
        SplitTasks_loop fuel (i + LargeTextSize) text
          (tasks ++ default [] (slice text i (i + LargeTextSize)) :: [])
      else if decide (i ≤ len text) then tasks ++ [default [] (slice text i (len text))]
      else tasks
  end.

(** Every round but the last consumes [LargeTextSize] bytes. *)
Definition SplitTasks (text : bytes) : list bytes := SplitTasks_loop (S (length text)) 0 text [].

Definition blocked (r : TextScanResponseDataItemResult) : bool :=
  politics (Label r) && negb (fltb (Rate r) (f32 8 10)) && bool_decide (Suggestion r = bs "block").

(** The nested loops over items and results, up to the first blocked one. *)
Fixpoint scan_loop (requestId : bytes) (items : list TextScanResponseDataItem) : CheckResult :=
  match items with
  | [] => pass
  | item :: items' =>
      match list_find (λ r, blocked r = true) (Results item) with
      | Some (_, r) => mk_check true (bs "label:" ++ Label r ++ bs ",taskId:" ++ TaskId item ++ bs ",requestId:" ++ requestId)
      | None => scan_loop requestId items'
      end
  end.

Definition PassLargeTextCheck (text : bytes) : outcome bytes CheckResult :=
  if decide (100 * LargeTextSize < len text) then
    Fail (bs "text length can't be greater than 100*" ++ Itoa LargeTextSize)
  else
    let tasks := SplitTasks text in
    resp ← try_ (TextScan tasks);
    Ret (scan_loop (RequestID resp) (Data resp)).

Fixpoint labels_loop (body : moderation_body) (labels : list bytes) : outcome bytes CheckResult :=
  match labels with
  | [] => Ret pass
  | label :: labels' =>
      if politics label then
        reason ← deref_ptr (b_Reason body);
        requestId ← deref_ptr (b_RequestId body);
        Ret (mk_check true (bs "label:" ++ label ++ bs ",reason:" ++ reason ++ bs ",requestId:" ++ requestId))
      else labels_loop body labels'
  end.

Definition aliyun_PassTextCheck (sc : scenario) (text : bytes) : outcome bytes CheckResult :=
  if decide (smallTextSize < len text) then PassLargeTextCheck text
  else
    resp ← try_ (TextModeration sc text);
    status ← deref_ptr (m_StatusCode resp);
    let bad := msg ← deref_ptr (b_Message (m_Body resp)); Fail msg in
    if decide (status ≠ 200) then bad
    else
      code ← deref_ptr (b_Code (m_Body resp));
      if decide (code ≠ 200) then bad
      else
        labelStr ← deref_ptr (b_Labels (m_Body resp));
        if decide (len labelStr = 0) then Ret pass
        else labels_loop (m_Body resp) (Split labelStr (bs ",")).

Fixpoint plus_loop (requestId : option bytes) (results : list plus_result) : outcome bytes CheckResult :=
  match results with
  | [] => Ret pass
  | r :: results' =>
      label ← deref_ptr (p_Label r);
      if negb (Contains label (bs "political")) then plus_loop requestId results'
      else
        riskWords ← deref_ptr (p_RiskWords r);
        requestId ← deref_ptr requestId;
        Ret (mk_check true (bs "label:" ++ label ++ bs ",reason:" ++ riskWords ++ bs ",requestId:" ++ requestId))
  end.

Definition aliyun_PassLLMCheck (sc : scenario) (text sessionId accountId : bytes) : outcome bytes CheckResult :=
  let paramMap := {[ bs "content" := text ]} : gmap bytes bytes in
  if decide (sessionId ≠ [] ∧ accountId ≠ []) then
    Fail (bs "fail to call aliyun TextModerationPlusWithOptions, can't set sessionId and accountId both")
  else
    let paramMap := if decide (sessionId ≠ []) then <[bs "sessionId" := sessionId]> paramMap else paramMap in
    if decide (accountId ≠ [] ∧ text = []) then Ret pass
    else
      let paramMap := if decide (accountId ≠ []) then <[bs "accountId" := accountId]> paramMap else paramMap in
      resp ← try_ (TextModerationPlus sc paramMap);
      status ← deref_ptr (p_StatusCode resp);
      if decide (status ≠ 200) then
        Fail (bs "aliyun TextModerationPlusWithOptions response not success, http status code: " ++ Itoa status)
      else
        code ← deref_ptr (p_Code resp);
        if decide (code ≠ 200) then
          msg ← deref_ptr (p_Message resp);
          Fail (bs "aliyun TextModerationPlusWithOptions text moderation not success, error message: " ++ msg)
        else
          level ← deref_ptr (p_RiskLevel resp);
          if decide (level = bs "low" ∨ level = bs "medium" ∨ level = bs "none") then Ret pass
          else plus_loop (p_RequestId resp) (p_Result resp).

(** Status and code of an image reply; the error of a bad one. *)
Definition image_reply (resp : ImageModerationResponse) : outcome bytes unit :=
  status ← deref_ptr (i_StatusCode resp);
  if decide (status ≠ 200) then Fail (StringValue (i_Msg resp))
  else code ← deref_ptr (i_Code resp);
       if decide (code ≠ 200) then Fail (StringValue (i_Msg resp)) else Ret tt.

Definition nonLabel (r : image_result) : bool := bool_decide (StringValue (i_Label r) = bs "nonLabel").

Definition image_clean (results : list image_result) : bool :=
  match results with [] => true | [r] => nonLabel r | _ => false end.

Definition aliyun_PassImageURLCheck (sc : scenario) (imageURL : bytes) : outcome bytes CheckResult :=
  resp ← try_ (ImageModeration sc {[ bs "imageURL" := imageURL; bs "dataId" := new_uuid ]});
  image_reply resp;;
  if image_clean (i_Result resp) then Ret pass
  else match list_find (λ r, nonLabel r = false) (i_Result resp) with
       | Some (_, r) =>
           requestId ← deref_ptr (i_RequestId resp);
           Ret (mk_check true (bs "label:" ++ StringValue (i_Label r) ++ bs ",confidence:"
             ++ FormatFixed 6 (Float32Value (i_Confidence r)) ++ bs ",requestId:" ++ requestId))
       | None => Ret pass
       end.

Definition label_map (results : list image_result) : gmap bytes float32 :=
  foldl (λ labelMap r, let confidence := Float32Value (i_Confidence r) in
           if fltb (f32 80 1) confidence then <[StringValue (i_Label r) := confidence]> labelMap else labelMap)
    ∅ results.

Definition aliyun_PassImageCheck (sc : scenario) (ossBucketName ossObjectName : bytes) : outcome bytes CheckResult :=
  resp ← try_ (ImageModeration sc
    {[ bs "ossRegionId" := RegionId; bs "ossBucketName" := ossBucketName; bs "ossObjectName" := ossObjectName ]});
  image_reply resp;;
  if image_clean (i_Result resp) then Ret pass
  else
    let labelMap := label_map (i_Result resp) in
    if decide (labelMap = ∅) then Ret pass
    else
      deref_ptr (i_RequestId resp);;
      Ret (mk_check true (Join (range_order labelMap) (bs ","))).

(** The checker as the chain uses it: it keeps nothing in the heap. *)
Definition aliyun_checker : SensitiveChecker :=
  let lift (m : outcome bytes CheckResult) (h : heap) := r ← m; Ret (r, h) in
  mk_checker (λ sc text, lift (aliyun_PassTextCheck sc text))
    (λ sc b o, lift (aliyun_PassImageCheck sc b o))
    (λ sc url, lift (aliyun_PassImageURLCheck sc url))
    (λ sc text s a, lift (aliyun_PassLLMCheck sc text s a)).

End aliyun.
