(* ===== verification/SensitiveSpec.v ===== *)
(** What the content checkers guarantee: the Aho-Corasick checker flags
    exactly the normalised texts that contain a dictionary word, the chain
    returns the first verdict that is not a pass, a reload reaches every
    subscribed checker, and large texts are cut without loss. *)
From S2P Require Import Prelude AhoCorasick AhoCorasickTrie AhoCorasickMatch AhoCorasickSpec GoLib GoFloat Sensitive Aliyun.
Open Scope Z_scope.

(** ** Slices *)

Lemma len_nonneg {A} (s : list A) : 0 ≤ len s.
Proof. unfold len. lia. Qed.

Lemma slice_some {A} (s : list A) a b : 0 ≤ a ≤ b → b ≤ len s →
  slice s a b = Some (take (Z.to_nat (b - a)) (drop (Z.to_nat a) s)).
Proof. intros. unfold slice. by rewrite decide_True. Qed.

(** ** The Aho-Corasick checker *)

(** A checker in use: the automaton of its words after some calls, fewer than
    2^64. *)
Definition ac_ok (ac : ACAutomation) : Prop :=
  ∃ m c, NewMatcher (ac_words ac) = Some m ∧ ac_matcher ac = after_calls m c ∧ 0 ≤ c < 2 ^ 64 - 1 ∧
    ∀ hp, ac_pool ac = Some hp → map_Forall (λ _ g, 0 ≤ g ≤ c) hp.

(** Calls left before the generation counter wraps. *)
Definition calls_left (ac : ACAutomation) : Z := 2 ^ 64 - 2 - counter (ac_matcher ac).

Definition flagged (words : list bytes) (t : bytes) : Prop := ∃ w, w ∈ words ∧ w ≠ [] ∧ infix_of w t.

Section ac.
Variable unicode_lower : Z → Z.
Notation normalise text := (cleanText (ToLower unicode_lower text)).

Lemma index_of_lt dict w i : index_of dict w i → (i < length dict)%nat.
Proof. intros [Hi _]. by eapply lookup_lt_Some. Qed.

Lemma hit_reason_ok t w key h : hit_at t w h → ∃ s, hit_reason t key h = Ret (key ++ bs "|[text: " ++ s).
Proof.
  intros (H0 & He & Hl & _). unfold hit_reason. change (Z.of_nat (length t)) with (len t) in Hl.
  rewrite slice_some by lia. simpl. eauto.
Qed.

(** The first hit is reported; there is one exactly when a word occurs. *)
Lemma detect_loop_spec ac t hits :
  (∀ h, h ∈ hits → ∃ w, index_of (ac_words ac) w (Hint_ h) ∧ w ≠ [] ∧ hit_at t w h) →
  ∃ r, detect_loop ac t hits = Ret r ∧ (r = None ↔ hits = []) ∧
    ∀ tag reason, r = Some (tag, reason) → ∃ h w s, h ∈ hits ∧ index_of (ac_words ac) w (Hint_ h) ∧
      tag = default [] (ac_tagMap ac !! Z.of_nat (Hint_ h)) ∧
      reason = tag ++ bs "|" ++ w ++ bs "|[text: " ++ s.
Proof.
  destruct hits as [|h hits]; intros Hh; cbn [detect_loop].
  - exists None. naive_solver.
  - destruct (Hh h) as (w & Hi & _ & Hat); [set_solver|].
    rewrite decide_False by (apply index_of_lt in Hi; unfold len; lia).
    destruct (hit_reason_ok t w (default [] (ac_tagMap ac !! Z.of_nat (Hint_ h)) ++ bs "|" ++ default [] (ac_words ac !! Hint_ h)) h Hat)
      as [s ->]. cbn [mbind outcome_bind]. eexists. split_and!; [done|done|].
    intros tag reason [= <- <-]. exists h, w, s. split_and!; [set_solver|done|done|].
    by rewrite (proj1 Hi), <-!(assoc_L (++)); simpl default.
Qed.

Lemma detect_spec ac text : ac_ok ac → 0 < calls_left ac →
  ∃ r ac', detect unicode_lower ac text = Ret (r, ac') ∧
    ac_ok ac' ∧ ac_words ac' = ac_words ac ∧ ac_tagMap ac' = ac_tagMap ac ∧ calls_left ac' = calls_left ac - 1 ∧
    (r ≠ None ↔ flagged (ac_words ac) (normalise text)) ∧
    ∀ tag reason, r = Some (tag, reason) → ∃ i w s, index_of (ac_words ac) w i ∧
      infix_of w (normalise text) ∧ tag = default [] (ac_tagMap ac !! Z.of_nat i) ∧
      reason = tag ++ bs "|" ++ w ++ bs "|[text: " ++ s.
Proof.
  intros (m & c & Hm & Hac & Hc & Hpool) Hleft. unfold calls_left in *. rewrite Hac in Hleft. simpl in Hleft.
  destruct (match_with_pos_spec (ac_words ac) c (ac_pool ac) (normalise text) Hc Hpool)
    as (m' & hp & hits & Hm' & Hrun & Hhp & _ & Hsound & Hcomplete).
  rewrite Hm in Hm'. injection Hm' as <-. unfold detect. rewrite Hac, Hrun. cbn [deref_ptr mbind outcome_bind].
  destruct (detect_loop_spec ac (normalise text) hits Hsound) as (r & -> & Hr & Hrs). cbn [mbind outcome_bind].
  eexists r, _. split_and!; [done| |done|done|simpl; lia| |].
  - exists m, (c + 1). simpl. split_and!; [done|done|lia|lia|]. intros hp' [= <-]. done.
  - rewrite Hr. unfold flagged. split.
    + intros Hne. destruct hits as [|h hits]; [done|].
      destruct (Hsound h) as (w & Hi & Hw & Hat); [set_solver|]. exists w.
      split_and!; [by eapply list_elem_of_lookup_2, (proj1 Hi)|done|].
      destruct Hat as (_ & _ & _ & Htk & _). eapply (ex_intro _ (take (Z.to_nat (StartPos h)) _)).
      eexists. rewrite <-Htk at 1. by rewrite take_drop, take_drop.
    + intros (w & Hw & Hne & Hinf) ->. destruct (Hcomplete w Hw Hne Hinf) as (h & Hh & _). set_solver.
  - intros tag reason Heq. destruct (Hrs tag reason Heq) as (h & w & s & Hh & Hi & Htag & Hreason).
    exists (Hint_ h), w, s. split_and!; [done| |done|done].
    destruct (Hsound h Hh) as (w' & Hi' & _ & (_ & _ & _ & Htk & _)).
    assert (w' = w) as -> by (destruct Hi as [H1 _], Hi' as [H2 _]; congruence).
    eapply (ex_intro _ (take (Z.to_nat (StartPos h)) _)). eexists. rewrite <-Htk at 1. by rewrite take_drop, take_drop.
Qed.

Lemma ac_check_spec h p ac text : acs h !! p = Some ac → ac_ok ac → 0 < calls_left ac →
  ∃ res ac', ac_check unicode_lower p text h = Ret (res, mk_heap (<[p := ac']> (acs h)) (mutables h)) ∧
    ac_ok ac' ∧ ac_words ac' = ac_words ac ∧ calls_left ac' = calls_left ac - 1 ∧
    (IsSensitive res = true ↔ flagged (ac_words ac) (normalise text)).
Proof.
  intros Hp Hok Hleft. unfold ac_check. rewrite Hp. cbn [deref_ptr mbind outcome_bind].
  destruct (detect_spec ac text Hok Hleft) as (r & ac' & -> & Hok' & Hw & _ & Hl & Hr & _).
  cbn [mbind outcome_bind]. destruct r as [[tag reason]|]; eexists _, ac'; (split_and!; [done|done|done|done|]); simpl;
    rewrite <-Hr; naive_solver.
Qed.

Lemma NewACAutomation_spec d h : ∃ ac, NewACAutomation (Some d) h = Ret (length (acs h), mk_heap (acs h ++ [ac]) (mutables h)) ∧
  ac_ok ac ∧ ac_words ac = Words d ∧ ac_tagMap ac = TagMap d.
Proof.
  unfold NewACAutomation. cbn [deref_ptr mbind outcome_bind].
  destruct (buildTrie_automaton (Words d)) as (m & Hm & Au & Hc).
  fold (NewMatcher (Words d)) in Hm. rewrite Hm. cbn [deref_ptr mbind outcome_bind].
  eexists. split_and!; [done| |done|done]. exists m, 0. simpl. split_and!; [done| |lia|lia|done].
  unfold after_calls. destruct m; simpl in *. by subst.
Qed.
End ac.

(** Earlier texts put through the checker at [p]. *)
Definition earlier_checks (unicode_lower : Z → Z) (p : nat) (texts : list bytes) (h : heap) : outcome bytes heap :=
  foldr (λ text k h, '(_, h') ← ac_check unicode_lower p text h; k h') Ret texts h.

Lemma earlier_checks_spec ul p texts : ∀ h ac, acs h !! p = Some ac → ac_ok ac → len texts < calls_left ac →
  ∃ h' ac', earlier_checks ul p texts h = Ret h' ∧ acs h' !! p = Some ac' ∧ ac_ok ac' ∧
    ac_words ac' = ac_words ac ∧ 0 < calls_left ac'.
Proof.
  induction texts as [|text texts IH]; intros h ac Hp Hok Hl; unfold len in *; cbn [length earlier_checks foldr] in *.
  - exists h, ac. split_and!; [done..|lia].
  - destruct (ac_check_spec ul h p ac text Hp Hok) as (res & ac1 & -> & Hok1 & Hw1 & Hl1 & _); [lia|].
    cbn [mbind outcome_bind]. destruct (IH (mk_heap (<[p:=ac1]> (acs h)) (mutables h)) ac1) as (h' & ac' & Hrun & Hp' & Hok' & Hw' & Hl').
    + simpl. apply list_lookup_insert_eq. by eapply lookup_lt_Some.
    + done.
    + lia.
    + exists h', ac'. split_and!; [done..|congruence|done].
Qed.

(** C2: a checker built from a dictionary, after any number of earlier texts
    (fewer than 2^64 - 2, where its generation counter wraps), answers a text
    check, and an LLM check in one of the two moderated scenarios, without
    error or panic, and flags the text exactly when a nonempty word of the
    dictionary occurs in the lower-cased, cleaned text; in other scenarios the
    LLM check passes. *)
Theorem ac_checker_correct ul d h texts sc text sid aid :
  len texts < 2 ^ 64 - 2 →
  ∃ p h1 h2, NewACAutomation (Some d) h = Ret (p, h1) ∧ earlier_checks ul p texts h1 = Ret h2 ∧
    (∃ res h3, PassTextCheck (ac_checker ul p) sc text h2 = Ret (res, h3) ∧
      (IsSensitive res = true ↔ flagged (Words d) (cleanText (ToLower ul text)))) ∧
    (∃ res h3, PassLLMCheck (ac_checker ul p) sc text sid aid h2 = Ret (res, h3) ∧
      (IsSensitive res = true ↔ (sc = ScenarioLLMQueryModeration ∨ sc = ScenarioLLMResModeration) ∧
         flagged (Words d) (cleanText (ToLower ul text)))).
Proof.
  intros Hlen. destruct (NewACAutomation_spec d h) as (ac & Hnew & Hok & Hw & _).
  assert (Hc : calls_left ac = 2 ^ 64 - 2).
  { revert Hnew. unfold NewACAutomation. cbn [deref_ptr mbind outcome_bind].
    destruct (buildTrie_automaton (Words d)) as (m & Hm & _ & Hc). fold (NewMatcher (Words d)) in Hm.
    rewrite Hm. cbn [deref_ptr mbind outcome_bind]. intros [= Hac%(inj (app _))]. injection Hac as <-.
    unfold calls_left. simpl. rewrite Hc. lia. }
  destruct (earlier_checks_spec ul (length (acs h)) texts (mk_heap (acs h ++ [ac]) (mutables h)) ac)
    as (h2 & ac2 & Hrun & Hp2 & Hok2 & Hw2 & Hl2); [simpl; by rewrite lookup_app_r, Nat.sub_diag by lia|done|lia|].
  destruct (ac_check_spec ul h2 (length (acs h)) ac2 text Hp2 Hok2 Hl2) as (res & ac3 & Hck & _ & _ & _ & Hres).
  rewrite Hw2, Hw in Hres. eexists _, _, h2. split_and!; [done|done| |].
  - eexists _, _. split; [apply Hck|done].
  - simpl. unfold ac_PassLLMCheck. case_decide as Hsc.
    + eexists _, _. split; [done|]. simpl. naive_solver.
    + eexists _, _. split; [apply Hck|]. rewrite Hres.
      assert (sc = ScenarioLLMQueryModeration ∨ sc = ScenarioLLMResModeration); [|tauto].
      destruct (decide (sc = ScenarioLLMQueryModeration)); [by left|]. right. by apply dec_stable; tauto.
Qed.

(** ** The chain *)

Section chain.
Variable check : SensitiveChecker → heap → outcome bytes (CheckResult * heap).

(** The checkers of [l] all pass, taking the heap from [h] to [h']. *)
Inductive all_pass : list SensitiveChecker → heap → heap → Prop :=
  | all_pass_nil h : all_pass [] h h
  | all_pass_cons c l h h1 h2 res : check c h = Ret (res, h1) → IsSensitive res = false →
      all_pass l h1 h2 → all_pass (c :: l) h h2.

(** A verdict that ends the chain: an error, a panic or a sensitive result. *)
Definition decisive (o : outcome bytes (CheckResult * heap)) : Prop :=
  ∀ res h, o = Ret (res, h) → IsSensitive res = true.

Definition first_verdict (l : list SensitiveChecker) (h : heap) (o : outcome bytes (CheckResult * heap)) : Prop :=
  (∃ h', all_pass l h h' ∧ o = Ret (pass, h')) ∨
  (∃ l1 c l2 h1, l = l1 ++ c :: l2 ∧ all_pass l1 h h1 ∧ check c h1 = o ∧ decisive o).

Lemma chain_loop_first l : ∀ h, first_verdict l h (chain_loop check l h).
Proof.
  induction l as [|c l IH]; intros h; cbn [chain_loop].
  - left. exists h. split; [constructor|done].
  - destruct (check c h) as [[res h1]|e|] eqn:Hc; cbn [mbind outcome_bind].
    + destruct (IsSensitive res) eqn:Hs.
      * right. exists [], c, l, h. split_and!; [done|constructor|done|]. by intros ?? [= <- <-].
      * destruct (IH h1) as [(h' & Hall & ->)|(l1 & c' & l2 & h2 & -> & Hall & Hc' & Hd)].
        -- left. exists h'. split; [|done]. by econstructor.
        -- right. exists (c :: l1), c', l2, h2. split_and!; [done|by econstructor|done|done].
    + right. exists [], c, l, h. split_and!; [done|constructor|done|by intros ??].
    + right. exists [], c, l, h. split_and!; [done|constructor|done|by intros ??].
Qed.
End chain.

(** Each of the four checks of a chain of any checkers returns a pass when
    every checker passes, and otherwise exactly what the first checker that
    fails or flags the content returns, with the heap the ones before it
    left and none after it called. *)
Theorem chain_first_verdict l sc text bucket object url sid aid h :
  let chain := NewChainCheckerWithCheckers l in
  first_verdict (λ c, PassTextCheck c sc text) l h (PassTextCheck chain sc text h) ∧
  first_verdict (λ c, PassImageCheck c sc bucket object) l h (PassImageCheck chain sc bucket object h) ∧
  first_verdict (λ c, PassImageURLCheck c sc url) l h (PassImageURLCheck chain sc url h) ∧
  first_verdict (λ c, PassLLMCheck c sc text sid aid) l h (PassLLMCheck chain sc text sid aid h).
Proof. intros chain. split_and!; match goal with |- first_verdict ?check _ _ _ => apply (chain_loop_first check) end. Qed.

(** ** Loading and reloading *)

(** Every word has a tag, every tag a word, and no word is empty. *)
Definition words_ok (d : SensitiveWordData) : Prop :=
  Forall (λ w, w ≠ []) (Words d) ∧ ∀ i, is_Some (TagMap d !! i) ↔ 0 ≤ i < len (Words d).

Lemma add_line_ok tag d w : words_ok d → words_ok (add_line tag d w).
Proof.
  intros [Hw Ht]. unfold add_line. case_decide; [done|]. split; simpl.
  - by apply Forall_app; split; [|apply Forall_singleton].
  - intros i. unfold len in *. rewrite length_app. simpl. rewrite lookup_insert.
    case_decide; [subst; split; [lia|by eexists]|]. rewrite Ht. lia.
Qed.

Lemma walk_file_ok ul base parent name content d :
  words_ok d → words_ok (walk_file ul base parent name content d).
Proof.
  intros Hd. unfold walk_file. case_match; [|done]. destruct content as [c|]; [|done].
  generalize (Split c ["010"%char]). intros lines. revert d Hd.
  induction lines as [|w lines IH]; intros d Hd; [done|]. cbn [foldl]. by apply IH, add_line_ok.
Qed.

Fixpoint dirent_size (e : dirent) : nat :=
  match e with
  | File _ _ | Dir _ None => 1
  | Dir _ (Some es) => S (foldr (λ e n, dirent_size e + n)%nat O es)
  end.

Lemma walk_ok ul base e : ∀ parent d, words_ok d → words_ok (walk ul base parent e d).1.
Proof.
  assert (∀ n e, (dirent_size e ≤ n)%nat → ∀ parent d, words_ok d → words_ok (walk ul base parent e d).1) as Hn;
    [|eauto].
  clear e. intros n. induction n as [|n IH]; intros e Hsz parent d Hd.
  { destruct e as [|? [|]]; simpl in Hsz; lia. }
  destruct e as [name content|name [es|]]; [by apply walk_file_ok| |done].
  cbn [walk]. cbn [dirent_size] in Hsz. revert d Hd. induction es as [|e es IHes]; intros d Hd; [done|].
  cbn [foldr] in Hsz. pose proof (IH e ltac:(lia) name d Hd) as He.
  destruct (walk ul base name e d) as [d' []]; [|done]. apply IHes; [lia|done].
Qed.

(** The checker at [q] now runs the words of [d]. *)
Definition runs_words (h : heap) (q : nat) (d : SensitiveWordData) : Prop :=
  ∃ p ac, mutables h !! q = Some p ∧ acs h !! p = Some ac ∧ ac_ok ac ∧
    ac_words ac = Words d ∧ ac_tagMap ac = TagMap d.

Lemma Update_spec q d h : (q < length (mutables h))%nat →
  ∃ h', Update q (Some d) h = Ret h' ∧ acs h `prefix_of` acs h' ∧ length (mutables h') = length (mutables h) ∧
    runs_words h' q d ∧ ∀ q', q' ≠ q → mutables h' !! q' = mutables h !! q'.
Proof.
  intros Hq. unfold Update. destruct (NewACAutomation_spec d h) as (ac & -> & Hok & Hw & Ht).
  cbn [mbind outcome_bind]. eexists. split_and!; [done| | | |]; simpl.
  - by eexists.
  - by rewrite length_insert.
  - exists (length (acs h)), ac. simpl. split_and!; [by apply list_lookup_insert_eq| |done..].
    by rewrite lookup_app_r, Nat.sub_diag by lia.
  - intros q' Hne. by rewrite list_lookup_insert_ne.
Qed.

Lemma runs_words_mono h h' q d : runs_words h q d → acs h `prefix_of` acs h' →
  mutables h' !! q = mutables h !! q → runs_words h' q d.
Proof.
  intros (p & ac & Hm & Ha & ?) Hpre Heq. exists p, ac. split_and!; [congruence|by eapply prefix_lookup_Some|naive_solver..].
Qed.

Lemma update_all_spec qs d : ∀ h, Forall (λ q, q < length (mutables h))%nat qs →
  ∃ h', update_all qs (Some d) h = Ret h' ∧ acs h `prefix_of` acs h' ∧ length (mutables h') = length (mutables h) ∧
    (∀ q, q ∈ qs → runs_words h' q d) ∧ (∀ q, q ∉ qs → mutables h' !! q = mutables h !! q).
Proof.
  induction qs as [|q qs IH]; intros h Hqs; cbn [update_all].
  - exists h. split_and!; [done..|set_solver|done].
  - apply Forall_cons in Hqs as [Hq Hqs].
    destruct (Update_spec q d h Hq) as (h1 & -> & Hp1 & Hl1 & Hr1 & Ho1). cbn [mbind outcome_bind].
    destruct (IH h1) as (h2 & -> & Hp2 & Hl2 & Hr2 & Ho2); [by rewrite Hl1|].
    exists h2. split_and!; [done|by trans (acs h1)|congruence| |].
    + intros q' [->|Hq']%elem_of_cons; [|by apply Hr2].
      destruct (decide (q ∈ qs)); [by apply Hr2|]. eapply runs_words_mono; eauto.
    + intros q' [Hne Hni]%not_elem_of_cons. rewrite Ho2 by done. by apply Ho1.
Qed.

(** Loading a dictionary directory succeeds whatever lies on disk; the
    words are nonempty and tagged one by one; afterwards every subscribed
    mutable checker runs an automaton of exactly these words and tags, and
    the checkers not subscribed still run the one they had. *)
Theorem reload_reaches_observers ul base parent fs b h :
  Forall (λ q, q < length (mutables h))%nat (observers b) →
  ∃ d b' h', ConfigLoader_Load ul base parent fs b h = Ret (Ok (Some d), b', h') ∧
    words_ok d ∧ observers b' = observers b ∧ data b' = Some d ∧
    (∀ q, q ∈ observers b → runs_words h' q d) ∧
    (∀ q d0, q ∉ observers b → runs_words h q d0 → runs_words h' q d0).
Proof.
  intros Hobs. unfold ConfigLoader_Load, NotifyObservers.
  set (d := match fs with None => _ | Some e => _ end). cbn [observers data].
  destruct (update_all_spec (observers b) d h Hobs) as (h' & -> & Hpre & _ & Hin & Hout). cbn [mbind outcome_bind].
  exists d. eexists _, h'. split_and!; [done| |done|done|done|].
  - assert (words_ok (mk_words ∅ [])) as Hemp.
    { split; simpl; [done|]. intros i. rewrite lookup_empty. unfold len. simpl. split; [by intros []|lia]. }
    unfold d. destruct fs as [e|]; [by apply walk_ok|done].
  - intros q d0 Hq Hr. eapply runs_words_mono; eauto.
Qed.

(** ** Splitting large texts *)

Lemma SplitTasks_loop_spec text : ∀ fuel i tasks, 0 ≤ i ≤ len text → (len text - i) / LargeTextSize < Z.of_nat fuel →
  ∃ chunks, SplitTasks_loop fuel i text tasks = tasks ++ chunks ∧ chunks ≠ [] ∧
    concat chunks = drop (Z.to_nat i) text ∧ Forall (λ c, len c ≤ LargeTextSize) chunks ∧
    len chunks ≤ Z.max 1 ((len text - i + LargeTextSize - 1) / LargeTextSize).
Proof.
  unfold LargeTextSize. induction fuel as [|fuel IH]; intros i tasks Hi Hf.
  { pose proof (Z.div_pos (len text - i) 9000). lia. }
  cbn [SplitTasks_loop]. unfold LargeTextSize. case_decide as Hlt.
  - destruct (IH (i + 9000) (tasks ++ [default [] (slice text i (i + 9000))])) as (chunks & -> & Hne & Hcat & Hall & Hlen).
    + lia.
    + replace (len text - i) with (len text - (i + 9000) + 1 * 9000) in Hf by lia. rewrite Z.div_add in Hf by lia. lia.
    + rewrite (slice_some text) by lia. exists (take (Z.to_nat (i + 9000 - i)) (drop (Z.to_nat i) text) :: chunks).
      rewrite <-(assoc_L (++)). split_and!; [done|done| | |].
      * cbn [concat]. rewrite Hcat. replace (Z.to_nat (i + 9000)) with (Z.to_nat i + Z.to_nat (i + 9000 - i))%nat by lia.
        by rewrite <-drop_drop, take_drop.
      * constructor; [|done]. unfold len. rewrite length_take. lia.
      * unfold len in *. cbn [length].
        replace (Z.of_nat (length text) - i + 9000 - 1) with (Z.of_nat (length text) - (i + 9000) + 9000 - 1 + 1 * 9000) by lia.
        rewrite Z.div_add by lia. pose proof (Z.div_le_lower_bound (Z.of_nat (length text) - (i + 9000) + 9000 - 1) 9000 1). lia.
  - rewrite decide_True by lia. rewrite (slice_some text) by lia.
    exists [take (Z.to_nat (len text - i)) (drop (Z.to_nat i) text)]. split_and!; [done|done| | |unfold len; simpl; lia].
    + cbn [concat]. rewrite app_nil_r. apply take_ge. rewrite length_drop. unfold len. lia.
    + constructor; [|done]. unfold len in *. rewrite length_take, length_drop. lia.
Qed.

(** Cutting a text into tasks loses and repeats nothing, makes at least
    one task, each of at most 9000 bytes, and no more than
    [ceil(len/9000)]; so a text the batch check accepts is sent in at most
    100 tasks. *)
Theorem SplitTasks_partition text :
  concat (SplitTasks text) = text ∧ SplitTasks text ≠ [] ∧
  Forall (λ c, len c ≤ LargeTextSize) (SplitTasks text) ∧
  len (SplitTasks text) ≤ Z.max 1 ((len text + LargeTextSize - 1) / LargeTextSize) ∧
  (len text ≤ 100 * LargeTextSize → len (SplitTasks text) ≤ 100).
Proof.
  destruct (SplitTasks_loop_spec text (S (length text)) 0 []) as (chunks & Heq & Hne & Hcat & Hall & Hlen).
  - pose proof (len_nonneg text). lia.
  - unfold LargeTextSize, len. apply Z.div_lt_upper_bound; lia.
  - unfold SplitTasks. rewrite Heq. simpl app. rewrite Z.sub_0_r in Hlen. split_and!; [done..|].
    intros Hle. enough ((len text + LargeTextSize - 1) / LargeTextSize < 101) by lia.
    apply Z.div_lt_upper_bound; unfold LargeTextSize in *; lia.
Qed.

(** ** Witnesses *)

Lemma ac_checker_correct_witness :
  ∃ p h1 h2, NewACAutomation (Some (mk_words ∅ [bs "bad"])) (mk_heap [] []) = Ret (p, h1) ∧
    earlier_checks id p [bs "fine"] h1 = Ret h2 ∧
    (∃ res h3, PassTextCheck (ac_checker id p) (bs "comment_detection") (bs "B-A-D") h2 = Ret (res, h3) ∧
      (IsSensitive res = true ↔ flagged [bs "bad"] (cleanText (ToLower id (bs "B-A-D"))))) ∧
    (∃ res h3, PassLLMCheck (ac_checker id p) (bs "comment_detection") (bs "B-A-D") [] [] h2 = Ret (res, h3) ∧
      (IsSensitive res = true ↔ (bs "comment_detection" = ScenarioLLMQueryModeration ∨ bs "comment_detection" = ScenarioLLMResModeration) ∧
         flagged [bs "bad"] (cleanText (ToLower id (bs "B-A-D"))))).
Proof.
  apply (ac_checker_correct id (mk_words ∅ [bs "bad"]) (mk_heap [] []) [bs "fine"] (bs "comment_detection") (bs "B-A-D") [] []).
  vm_compute. reflexivity.
Defined.

Lemma reload_reaches_observers_witness :
  ∃ d b' h', ConfigLoader_Load id (bs "dict") (bs "etc")
      (Some (Dir (bs "dict") (Some [File (bs "a.txt") (Some (bs "bad "))]))) (mk_base [0%nat] None) (mk_heap [] [0%nat; 0%nat])
      = Ret (Ok (Some d), b', h') ∧
    words_ok d ∧ observers b' = [0%nat] ∧ data b' = Some d ∧
    (∀ q, q ∈ [0%nat] → runs_words h' q d) ∧
    (∀ q d0, q ∉ [0%nat] → runs_words (mk_heap [] [0%nat; 0%nat]) q d0 → runs_words h' q d0).
Proof.
  apply (reload_reaches_observers id (bs "dict") (bs "etc")
    (Some (Dir (bs "dict") (Some [File (bs "a.txt") (Some (bs "bad "))]))) (mk_base [0%nat] None) (mk_heap [] [0%nat; 0%nat])).
  repeat constructor.
Defined.
