(* ===== verification/EnergyCore.v ===== *)
(** The measurement core of the energy meter (energy/derive.go, types.go,
    provider.go): records, the J/token derivations in IEEE arithmetic, the
    rolling coefficient-of-variation tracker and the provider registries. *)
From S2P Require Import Prelude GoLib GoFloat.
Open Scope Z_scope.

(** ** types.go *)

Definition CalibrationUncalibrated : bytes := bs "uncalibrated".
Definition AttributionDirect : bytes := bs "direct".
Definition AttributionProportional : bytes := bs "proportional".

Record MeasurementRecord := mk_record {
  TimestampUnixMs : Z; Cluster : bytes; Node : bytes; Namespace : bytes; Workload : bytes;
  Model : bytes; Hardware : bytes; Precision : bytes; Team : bytes; CostCentre : bytes;
  EnergyJoules : float64; OutputTokens : Z; rec_JPerToken : float64;
  CalibrationTier : bytes; AttributionMethod : bytes; rec_CV : float64; Stable : bool;
  EnergyProvider : bytes; InferenceProvider : bytes;
}.

Record SiteParams := mk_site { PUE : float64; GridGCO2PerKWh : float64; CostPerKWh : float64 }.

Record WindowInput := mk_window {
  in_TimestampUnixMs : Z; in_Cluster : bytes; in_Node : bytes; in_Namespace : bytes; in_Workload : bytes;
  in_Model : bytes; in_Hardware : bytes; in_Precision : bytes; in_Team : bytes; in_CostCentre : bytes;
  in_EnergyJoules : float64; in_OutputTokens : Z;
  in_AttributionMethod : bytes; in_CalibrationTier : bytes;
  in_EnergyProvider : bytes; in_InferenceProvider : bytes;
}.

(** ** derive.go *)

Definition joulesPerKWh : float64 := float_of_Z 3600000.
Definition DefaultCVThreshold : float64 := flit 3 100.

Inductive energy_error := ErrIdleWindow | ErrEmptyAttribution | ErrNegativeEnergy.

Definition fzero : float64 := S754_zero false.

Definition JPerToken (joules : float64) (tokens : Z) : float64 :=
  if decide (tokens = 0) then fzero else fdiv joules (float_of_Z tokens).

Definition ClusterJPerToken (records : list MeasurementRecord) : float64 :=
  let sumEnergy := foldl (λ s r, fadd s (EnergyJoules r)) fzero records in
  let sumTokens := foldl (λ s r, u64 (s + OutputTokens r)) 0 records in
  if decide (sumTokens = 0) then fzero else fdiv sumEnergy (float_of_Z sumTokens).

Definition CO2PerTokenGrams (jPerToken : float64) (s : SiteParams) : float64 :=
  (jPerToken * PUE s / joulesPerKWh * GridGCO2PerKWh s)%float.

Definition CostPerMillionTokensUSD (jPerToken : float64) (s : SiteParams) : float64 :=
  (jPerToken * PUE s / joulesPerKWh * CostPerKWh s * float_of_Z 1000000)%float.

Definition TokensPerJoule (jPerToken : float64) : float64 :=
  if feqb jPerToken fzero then fzero else fdiv (float_of_Z 1) jPerToken.

Definition JoulesToKWh (joules : float64) : float64 := fdiv joules joulesPerKWh.

Definition IsStable (cv threshold : float64) : bool := fltb cv threshold.

(** *** The rolling tracker *)

Record CVTracker := mk_tracker { size : Z; buf : list float64; next : Z; full : bool }.

Definition NewCVTracker (size : Z) : CVTracker :=
  mk_tracker (if decide (size ≤ 0) then 100 else size) [] 0 false.

(** [c.buf[c.next] = v] panics when out of range. *)
Definition Add (v : float64) (c : CVTracker) : option CVTracker :=
  if decide (len (buf c) < size c) then Some (mk_tracker (size c) (buf c ++ [v]) (next c) (full c))
  else if decide (0 ≤ next c < len (buf c))
  then Some (mk_tracker (size c) (<[Z.to_nat (next c) := v]> (buf c)) ((next c + 1) `rem` size c) true)
  else None.

Definition Len (c : CVTracker) : Z := len (buf c).

Definition CV (c : CVTracker) : float64 :=
  let n := len (buf c) in
  if decide (n < 2) then fzero else
  let sum := foldl fadd fzero (buf c) in
  let mean := fdiv sum (float_of_Z n) in
  if feqb mean fzero then fzero else
  let sq := foldl (λ sq v, let d := fsub v mean in fadd sq (fmul d d)) fzero (buf c) in
  let std := fsqrt (fdiv sq (float_of_Z n)) in
  fdiv std mean.

Definition ComputeRecord (inp : WindowInput) (cv cvThreshold : float64) : result MeasurementRecord energy_error :=
  if decide (in_AttributionMethod inp = []) then Err ErrEmptyAttribution
  else if fltb (in_EnergyJoules inp) fzero then Err ErrNegativeEnergy
  else if decide (in_OutputTokens inp = 0) then Err ErrIdleWindow
  else
    let tier := if decide (in_CalibrationTier inp = []) then CalibrationUncalibrated else in_CalibrationTier inp in
    let workload := if decide (in_Workload inp = []) then bs "unknown" else in_Workload inp in
    Ok {|
      TimestampUnixMs := in_TimestampUnixMs inp; Cluster := in_Cluster inp; Node := in_Node inp;
      Namespace := in_Namespace inp; Workload := workload; Model := in_Model inp;
      Hardware := in_Hardware inp; Precision := in_Precision inp; Team := in_Team inp;
      CostCentre := in_CostCentre inp; EnergyJoules := in_EnergyJoules inp;
      OutputTokens := in_OutputTokens inp;
      rec_JPerToken := JPerToken (in_EnergyJoules inp) (in_OutputTokens inp);
      CalibrationTier := tier; AttributionMethod := in_AttributionMethod inp;
      rec_CV := cv; Stable := IsStable cv cvThreshold;
      EnergyProvider := in_EnergyProvider inp; InferenceProvider := in_InferenceProvider inp |}.

(** ** provider.go: the registries *)

(** The error of an unknown name carries what its message prints. *)
Inductive provider_error :=
  | UnknownProvider (kind name : bytes) (known : list bytes)
  | FactoryError (msg : bytes).

(** One registry of factories by name; [F] is the factory type, [kind] what
    the messages call it. *)
Section registry.
Context {F P : Type} (apply : F → gmap bytes bytes → result P provider_error).
Variable kind : bytes.

(** Registering a name twice panics. *)
Definition RegisterFactory (name : bytes) (f : F) (registry : gmap bytes F) : outcome bytes (gmap bytes F) :=
  match registry !! name with
  | Some _ => Panic
  | None => Ret (<[name := f]> registry)
  end.

(** The names in a registry, sorted. *)
Definition registered (registry : gmap bytes F) : list bytes := sort_bytes (map_to_list registry).*1.

Definition NewFromFactory (name : bytes) (config : gmap bytes bytes) (registry : gmap bytes F) : result P provider_error :=
  match registry !! name with
  | None => Err (UnknownProvider kind name (registered registry))
  | Some f => apply f config
  end.
End registry.

Record ChargebackQuery := mk_query { q_Start : Z; q_End : Z; q_PUE : float64 }.

Record NamespaceCharge := mk_charge {
  nc_Namespace : bytes; nc_EnergyJoules : float64; nc_EnergyKWhWithPUE : float64;
  nc_OutputTokens : Z; nc_AttributionMethod : bytes;
}.

(** [t.UnixMilli()] of a time in nanoseconds. *)
Definition UnixMilli (t : Z) : Z := t / 1000000.

(** * Storage of measurement records: the [StorageBackend] interface with the
    laws its clients rely on, the in-memory backend and the SQLite backend
    (energy/storage). *)

(** ** The interface *)

Class StorageBackend (St : Type) := {
  Write : MeasurementRecord → St → result unit bytes * St;
  WriteBatch : list MeasurementRecord → St → result unit bytes * St;
  QueryChargeback : ChargebackQuery → St → result (list NamespaceCharge) bytes;
}.

Definition in_window (q : ChargebackQuery) (r : MeasurementRecord) : Prop :=
  UnixMilli (q_Start q) ≤ TimestampUnixMs r < UnixMilli (q_End q).
#[export] Instance in_window_dec q r : Decision (in_window q r) := _.

(** The records a charge of [ns] accounts for. *)
Definition charged (q : ChargebackQuery) (ns : bytes) (l : list MeasurementRecord) : list MeasurementRecord :=
  filter (λ r, in_window q r ∧ Namespace r = ns) l.

Definition tokens_sum (l : list MeasurementRecord) : Z := foldr (λ r s, OutputTokens r + s) 0 l.

Definition any_proportional (l : list MeasurementRecord) : bytes :=
  if decide (Exists (λ r, AttributionMethod r = AttributionProportional) l)
  then AttributionProportional else AttributionDirect.

Definition effective_pue (q : ChargebackQuery) : float64 :=
  if fleb (q_PUE q) fzero then float_of_Z 1 else q_PUE q.

(** What a backend promises: it holds a list of records; a write appends or,
    when it fails, changes nothing; the chargeback has exactly one row for
    each namespace with a record in the period, with the tokens of those
    records (modulo 2^64) and the attribution proportional as soon as one of
    them is. [charge_energy] is how the backend sums energies. Token counts
    are [uint64] values. *)
Definition uint64_ok (r : MeasurementRecord) : Prop := 0 ≤ OutputTokens r < 2 ^ 64.

Class StorageLaws (St : Type) `{StorageBackend St} := {
  stored : St → list MeasurementRecord;
  charge_energy : list float64 → float64;
  write_law r s s' : uint64_ok r → Write r s = (Ok tt, s') → stored s' = stored s ++ [r];
  write_batch_law rs s s' : Forall uint64_ok rs → WriteBatch rs s = (Ok tt, s') → stored s' = stored s ++ rs;
  write_fail_law rs s s' e : WriteBatch rs s = (Err e, s') → stored s' = stored s;
  query_law q s rows : QueryChargeback q s = Ok rows →
    NoDup (nc_Namespace <$> rows) ∧
    (∀ ns, ns ∈ (nc_Namespace <$> rows) ↔ charged q ns (stored s) ≠ []) ∧
    (∀ row, row ∈ rows →
      let l := charged q (nc_Namespace row) (stored s) in
      nc_EnergyJoules row = charge_energy (EnergyJoules <$> l) ∧
      nc_EnergyKWhWithPUE row = fmul (JoulesToKWh (nc_EnergyJoules row)) (effective_pue q) ∧
      nc_OutputTokens row = u64 (tokens_sum l) ∧
      nc_AttributionMethod row = any_proportional l);
}.

(** ** storage/memory *)

Module Memory.

Record Backend := mk_backend { records : list MeasurementRecord }.

Definition New_memory : Backend := mk_backend [].
Definition mem_Write (r : MeasurementRecord) (b : Backend) : result unit bytes * Backend :=
  (Ok tt, mk_backend (records b ++ [r])).
Definition mem_WriteBatch (rs : list MeasurementRecord) (b : Backend) : result unit bytes * Backend :=
  (Ok tt, mk_backend (records b ++ rs)).

(** One round of the loop: the row of the record's namespace is created on
    first use and accumulated into. *)
Definition charge_step (q : ChargebackQuery) (byNS : gmap bytes NamespaceCharge) (r : MeasurementRecord) : gmap bytes NamespaceCharge :=
  if decide (TimestampUnixMs r < UnixMilli (q_Start q) ∨ UnixMilli (q_End q) ≤ TimestampUnixMs r) then byNS else
  let c := default (mk_charge (Namespace r) fzero fzero 0 AttributionDirect) (byNS !! Namespace r) in
  <[Namespace r := mk_charge (nc_Namespace c) (fadd (nc_EnergyJoules c) (EnergyJoules r)) (nc_EnergyKWhWithPUE c)
      (u64 (nc_OutputTokens c + OutputTokens r))
      (if decide (AttributionMethod r = AttributionProportional) then AttributionProportional else nc_AttributionMethod c)]> byNS.

(** The rows come out in the order of the map's iteration, which Go leaves
    unspecified; [map_to_list] stands for it. *)
Definition mem_QueryChargeback (q : ChargebackQuery) (b : Backend) : result (list NamespaceCharge) bytes :=
  let pue := effective_pue q in
  let byNS := foldl (charge_step q) ∅ (records b) in
  Ok ((λ c, mk_charge (nc_Namespace c) (nc_EnergyJoules c) (fmul (JoulesToKWh (nc_EnergyJoules c)) pue)
        (nc_OutputTokens c) (nc_AttributionMethod c)) <$> (map_to_list byNS).*2).

#[global] Instance memory_backend : StorageBackend Backend :=
  {| Write := mem_Write; WriteBatch := mem_WriteBatch; QueryChargeback := mem_QueryChargeback |}.

End Memory.

(** ** storage/sqlite *)

Module Sqlite.

Definition dsn (path : bytes) : bytes :=
  if decide (path = [] ∨ path = bs ":memory:") then bs "file::memory:?cache=shared"
  else bs "file:" ++ path ++ bs "?_pragma=busy_timeout(10000)&_pragma=journal_mode(WAL)&_pragma=synchronous(NORMAL)".

(** A bound parameter. *)
Inductive sqlval := SInt (z : Z) | SReal (f : float64) | SText (s : bytes).

Definition maxBatchRows : Z := 500.
Definition columnsPerRow : nat := 19.

(** [recordArgs]: the columns in the order of [insertColumns]. *)
Definition recordArgs (r : MeasurementRecord) : list sqlval :=
  let stable := if Stable r then 1 else 0 in
  [SInt (TimestampUnixMs r); SText (Cluster r); SText (Node r); SText (Namespace r); SText (Workload r);
   SText (Model r); SText (Hardware r); SText (Precision r); SText (Team r); SText (CostCentre r);
   SReal (EnergyJoules r); SInt (i64 (OutputTokens r)); SReal (rec_JPerToken r); SText (CalibrationTier r);
   SText (AttributionMethod r); SReal (rec_CV r); SInt stable; SText (EnergyProvider r); SText (InferenceProvider r)].

(** The arguments of one multi-row INSERT, and its text. *)
Definition insertColumns : bytes :=
  bs "(timestamp_unix_ms, cluster, node, namespace, workload, model, hardware, precision, team, cost_centre, energy_joules, output_tokens, j_per_token, calibration_tier, attribution_method, cv, stable, energy_provider, inference_provider)".
Definition valuePlaceholders : bytes := bs "(?,?,?,?,?,?,?,?,?,?,?,?,?,?,?,?,?,?,?)".
Definition insertChunk_sql (records : list MeasurementRecord) : bytes :=
  bs "INSERT INTO measurement_records " ++ insertColumns ++ bs " VALUES " ++ Join (const valuePlaceholders <$> records) (bs ",").
Definition insertChunk_args (records : list MeasurementRecord) : list sqlval := records ≫= recordArgs.

(** A row of the table: the value of each of the 19 columns. *)
Definition row := list sqlval.
Definition table := list row.

(** What an INSERT with these arguments adds: one row per placeholder group. *)
Fixpoint rows_of_args (n : nat) (args : list sqlval) : list row :=
  match n with
  | O => []
  | S n => take columnsPerRow args :: rows_of_args n (drop columnsPerRow args)
  end.

Definition col_int (i : nat) (r : row) : Z := match r !! i with Some (SInt z) => z | _ => 0 end.
Definition col_real (i : nat) (r : row) : float64 := match r !! i with Some (SReal f) => f | _ => fzero end.
Definition col_text (i : nat) (r : row) : bytes := match r !! i with Some (SText s) => s | _ => [] end.

Section backend.
(** The engine: errors of BEGIN, of the k-th INSERT of a transaction, of
    COMMIT and of a query; the SUM of a REAL column and of an INTEGER column
    ([None] is SQLite's integer overflow error). *)
Variable begin_err commit_err query_err : option bytes.
Variable exec_err : Z → option bytes.
Variable sum_real : list float64 → float64.
Variable sum_int : list Z → option Z.

Definition sql_Write (r : MeasurementRecord) (db : table) : result unit bytes * table :=
  match exec_err 0 with
  | Some e => (Err (bs "sqlite: write record: " ++ e), db)
  | None => (Ok tt, db ++ rows_of_args 1 (recordArgs r))
  end.

Definition insertChunk (k : Z) (records : list MeasurementRecord) (tx : table) : result table bytes :=
  match exec_err k with
  | Some e => Err e
  | None => Ok (tx ++ rows_of_args (length records) (insertChunk_args records))
  end.

(** The chunks of a batch, in one transaction on [tx]. *)
Fixpoint batch_loop (fuel : nat) (k start : Z) (records : list MeasurementRecord) (tx : table) : result table bytes :=
  match fuel with
  | O => Ok tx
  | S fuel =>
      if decide (start < len records) then
        let end_ := if decide (len records < start + maxBatchRows) then len records else start + maxBatchRows in
        match insertChunk k (default [] (slice records start end_)) tx with
        | Err e => Err e
        | Ok tx' => batch_loop fuel (k + 1) (start + maxBatchRows) records tx'
        end
      else Ok tx
  end.

Definition sql_WriteBatch (records : list MeasurementRecord) (db : table) : result unit bytes * table :=
  if decide (len records = 0) then (Ok tt, db) else
  match begin_err with
  | Some e => (Err (bs "sqlite: begin batch: " ++ e), db)
  | None =>
      match batch_loop (length records) 0 0 records db with
      | Err e => (Err (bs "sqlite: write batch: " ++ e), db)
      | Ok tx => match commit_err with
                 | Some e => (Err (bs "sqlite: commit batch: " ++ e), db)
                 | None => (Ok tt, tx)
                 end
      end
  end.

(** The rows of one group, and the group's result row. *)
Definition selected (q : ChargebackQuery) (db : table) : list row :=
  filter (λ r, UnixMilli (q_Start q) ≤ col_int 0 r < UnixMilli (q_End q)) db.
Definition group_of (ns : bytes) (rows : list row) : list row := filter (λ r, col_text 3 r = ns) rows.

Definition scan_group (q : ChargebackQuery) (rows : list row) (ns : bytes) : option NamespaceCharge :=
  let g := group_of ns rows in
  tokens ← sum_int (col_int 11 <$> g);
  let energyJ := sum_real (col_real 10 <$> g) in
  let anyProp := if decide (Exists (λ r, col_text 14 r = AttributionProportional) g) then 1 else 0 in
  Some (mk_charge ns energyJ (fmul (JoulesToKWh energyJ) (effective_pue q)) (u64 tokens)
    (if decide (anyProp = 1) then AttributionProportional else AttributionDirect)).

(** GROUP BY namespace ORDER BY namespace. *)
Definition groups (rows : list row) : list bytes := sort_bytes (remove_dups (col_text 3 <$> rows)).

Definition sql_QueryChargeback (q : ChargebackQuery) (db : table) : result (list NamespaceCharge) bytes :=
  match query_err with
  | Some e => Err (bs "sqlite: query chargeback: " ++ e)
  | None =>
      let rows := selected q db in
      match mapM (scan_group q rows) (groups rows) with
      | None => Err (bs "sqlite: iterate chargeback rows: integer overflow")
      | Some out => Ok out
      end
  end.

Definition RetentionPurge (before : Z) (db : table) : result Z bytes * table :=
  match exec_err 0 with
  | Some e => (Err (bs "sqlite: retention purge: " ++ e), db)
  | None => let keep := filter (λ r, ¬ col_int 0 r < UnixMilli before) db in
            (Ok (len db - len keep), keep)
  end.

Definition sqlite_backend : StorageBackend table :=
  {| Write := sql_Write; WriteBatch := sql_WriteBatch; QueryChargeback := sql_QueryChargeback |}.

End backend.
End Sqlite.

(** * Both storage backends keep the promises of [StorageLaws]: the in-memory
    one, and the SQLite one through its parameter binding, batching and SQL
    grouping. *)

(** ** The in-memory backend *)

Section memory.
Variable q : ChargebackQuery.

(** The row of a namespace whose records in the period are [l]. *)
Definition mem_row (ns : bytes) (l : list MeasurementRecord) : NamespaceCharge :=
  mk_charge ns (foldl fadd fzero (EnergyJoules <$> l)) fzero (u64 (tokens_sum l)) (any_proportional l).

Lemma charged_snoc ns l r : charged q ns (l ++ [r]) =
  charged q ns l ++ (if decide (in_window q r ∧ Namespace r = ns) then [r] else []).
Proof. unfold charged. rewrite filter_app. f_equal. Qed.

Lemma tokens_sum_snoc l r : tokens_sum (l ++ [r]) = tokens_sum l + OutputTokens r.
Proof. induction l as [|x l IH]; simpl; [lia|]. rewrite IH. lia. Qed.

Lemma any_proportional_snoc l r : any_proportional (l ++ [r]) =
  if decide (AttributionMethod r = AttributionProportional) then AttributionProportional else any_proportional l.
Proof.
  unfold any_proportional. destruct (decide (AttributionMethod r = _)) as [Hr|Hr].
  - rewrite decide_True; [done|]. apply Exists_app. right. by constructor.
  - apply decide_ext. rewrite Exists_app. split; [|by left]. intros [?|H]; [done|].
    by apply Exists_cons in H as [?|H%Exists_nil].
Qed.

Lemma mem_row_snoc ns l r : mem_row ns (l ++ [r]) =
  mk_charge ns (fadd (nc_EnergyJoules (mem_row ns l)) (EnergyJoules r)) fzero
    (u64 (nc_OutputTokens (mem_row ns l) + OutputTokens r))
    (if decide (AttributionMethod r = AttributionProportional) then AttributionProportional else nc_AttributionMethod (mem_row ns l)).
Proof.
  unfold mem_row. simpl. by rewrite fmap_app, foldl_app, tokens_sum_snoc, any_proportional_snoc, u64_add_l.
Qed.

(** The map after the loop, namespace by namespace. *)
Lemma charge_fold_lookup l ns : foldl (Memory.charge_step q) ∅ l !! ns =
  if decide (charged q ns l = []) then None else Some (mem_row ns (charged q ns l)).
Proof.
  induction l as [|r l IH] using rev_ind; [done|].
  rewrite foldl_app, charged_snoc. simpl. unfold Memory.charge_step at 1.
  destruct (decide (_ ∨ _)) as [Hout|Hin].
  - rewrite (decide_False (P := in_window q r ∧ _)); [by rewrite app_nil_r|]. unfold in_window. lia.
  - rewrite lookup_insert. destruct (decide (Namespace r = ns)) as [<-|Hne].
    + rewrite (decide_True (P := in_window q r ∧ _)) by (unfold in_window; split; [lia|done]).
      rewrite (decide_False (P := _ ++ [r] = [])) by (intros ?%app_nil; naive_solver). f_equal.
      rewrite mem_row_snoc, IH. case_decide as Hnil; simpl; [|done].
      rewrite Hnil. done.
    + rewrite (decide_False (P := in_window q r ∧ _)) by tauto. by rewrite app_nil_r.
Qed.
End memory.

#[export] Instance memory_laws : StorageLaws Memory.Backend.
Proof.
  refine {| stored := Memory.records; charge_energy := foldl fadd fzero |}.
  - by intros r s s' _ [= <-].
  - by intros rs s s' _ [= <-].
  - by intros rs s s' e [=].
  - intros q s rows [= <-].
    set (byNS := foldl (Memory.charge_step q) ∅ (Memory.records s)).
    assert (Hns : nc_Namespace <$> ((λ c, mk_charge (nc_Namespace c) (nc_EnergyJoules c)
        (fmul (JoulesToKWh (nc_EnergyJoules c)) (effective_pue q)) (nc_OutputTokens c) (nc_AttributionMethod c))
        <$> (map_to_list byNS).*2) = (map_to_list byNS).*1).
    { rewrite <-!list_fmap_compose. apply list_fmap_ext. intros i [ns c] Hi.
      apply list_elem_of_lookup_2, elem_of_map_to_list in Hi. unfold byNS in Hi.
      rewrite charge_fold_lookup in Hi. case_decide; simplify_eq. done. }
    split_and!.
    + rewrite Hns. apply NoDup_fst_map_to_list.
    + intros ns. rewrite Hns. rewrite list_elem_of_fmap. split.
      * intros ([ns' c] & -> & Hi%elem_of_map_to_list). unfold byNS in Hi. rewrite charge_fold_lookup in Hi.
        by case_decide.
      * intros Hne. exists (ns, mem_row ns (charged q ns (Memory.records s))). split; [done|].
        apply elem_of_map_to_list. unfold byNS. rewrite charge_fold_lookup. by rewrite decide_False.
    + intros row Hrow. apply list_elem_of_fmap in Hrow as (c & -> & Hc).
      apply list_elem_of_fmap in Hc as ([ns c'] & -> & Hi%elem_of_map_to_list).
      unfold byNS in Hi. rewrite charge_fold_lookup in Hi. case_decide; simplify_eq/=. by split_and!.
Defined.

(** ** The SQLite backend *)

Import Sqlite.

(** The record a table row stands for. *)
Definition record_of_row (r : row) : MeasurementRecord :=
  {| TimestampUnixMs := col_int 0 r; Cluster := col_text 1 r; Node := col_text 2 r; Namespace := col_text 3 r;
     Workload := col_text 4 r; Model := col_text 5 r; Hardware := col_text 6 r; Precision := col_text 7 r;
     Team := col_text 8 r; CostCentre := col_text 9 r; EnergyJoules := col_real 10 r;
     OutputTokens := u64 (col_int 11 r); rec_JPerToken := col_real 12 r; CalibrationTier := col_text 13 r;
     AttributionMethod := col_text 14 r; rec_CV := col_real 15 r; Stable := bool_decide (col_int 16 r = 1);
     EnergyProvider := col_text 17 r; InferenceProvider := col_text 18 r |}.

(** Binding and reading back a record is the identity. *)
Lemma record_roundtrip r : uint64_ok r → record_of_row (recordArgs r) = r.
Proof.
  intros Hr. destruct r. unfold record_of_row, recordArgs, uint64_ok, col_int, col_text, col_real in *. simpl in *.
  rewrite u64_i64, u64_small by done. f_equal. by case_match.
Qed.

Lemma rows_of_args_spec rs : rows_of_args (length rs) (insertChunk_args rs) = recordArgs <$> rs.
Proof.
  induction rs as [|r rs IH]; [done|].
  change (insertChunk_args (r :: rs)) with (recordArgs r ++ insertChunk_args rs).
  cbn [length rows_of_args]. change columnsPerRow with (length (recordArgs r)).
  rewrite take_app_length, drop_app_length, IH. done.
Qed.

Lemma slice_drop_app {A} (l : list A) a b : 0 ≤ a ≤ b → b ≤ len l →
  default [] (slice l a b) ++ drop (Z.to_nat b) l = drop (Z.to_nat a) l.
Proof.
  intros Ha Hb. unfold slice. rewrite decide_True by done. simpl.
  replace (Z.to_nat b) with (Z.to_nat a + Z.to_nat (b - a))%nat by lia.
  by rewrite <-drop_drop, take_drop.
Qed.

Section sqlite.
Variable begin_err commit_err query_err : option bytes.
Variable exec_err : Z → option bytes.
Variable sum_real : list float64 → float64.
Variable sum_int : list Z → option Z.
(** SUM over INTEGER values is exact or an overflow error. *)
Hypothesis sum_int_exact : ∀ l z, sum_int l = Some z → z = foldr Z.add 0 l.

Lemma batch_loop_spec rs fuel : ∀ k start tx tx', 0 ≤ start → len rs - start ≤ maxBatchRows * Z.of_nat fuel →
  batch_loop exec_err fuel k start rs tx = Ok tx' → tx' = tx ++ (recordArgs <$> drop (Z.to_nat start) rs).
Proof.
  unfold maxBatchRows. induction fuel as [|fuel IH]; intros k start tx tx' Hs Hf; cbn [batch_loop].
  - intros [= <-]. rewrite drop_ge by (unfold len in *; lia). by rewrite app_nil_r.
  - case_decide as Hlt.
    2:{ intros [= <-]. rewrite drop_ge by (unfold len in *; lia). by rewrite app_nil_r. }
    unfold maxBatchRows. set (e := if decide _ then _ else _).
    assert (start ≤ e ≤ len rs) as He by (unfold e; case_decide; lia).
    unfold insertChunk. destruct (exec_err k); [done|]. intros Hrun. apply IH in Hrun as ->; [|lia|lia].
    rewrite rows_of_args_spec, <-(assoc_L (++)), <-fmap_app. f_equal. f_equal.
    rewrite <-(slice_drop_app rs start e) by lia. f_equal. unfold e. case_decide; [|done].
    rewrite !drop_ge by (unfold len in *; lia). done.
Qed.

Lemma stored_rows rs : Forall uint64_ok rs → record_of_row <$> (recordArgs <$> rs) = rs.
Proof.
  intros Hrs. rewrite <-list_fmap_compose. rewrite <-(list_fmap_id rs) at 2. apply list_fmap_ext.
  intros i r Hi. apply record_roundtrip. by eapply Forall_lookup_1.
Qed.

(** The records of a group are those [charged] selects. *)
Lemma group_records q ns (db : table) :
  record_of_row <$> group_of ns (selected q db) = charged q ns (record_of_row <$> db).
Proof.
  unfold group_of, selected, charged. induction db as [|r db IH]; [done|].
  rewrite fmap_cons. destruct (decide (UnixMilli (q_Start q) ≤ col_int 0 r < UnixMilli (q_End q))) as [Hw|Hw].
  - rewrite (filter_cons_True _ r db) by done. destruct (decide (col_text 3 r = ns)) as [Hn|Hn].
    + rewrite (filter_cons_True _ r), (filter_cons_True _ (record_of_row r)) by done.
      rewrite fmap_cons. f_equal. apply IH.
    + rewrite (filter_cons_False _ r), (filter_cons_False _ (record_of_row r)); [apply IH|by intros []|done].
  - rewrite (filter_cons_False _ r db), (filter_cons_False _ (record_of_row r)); [apply IH|by intros []|done].
Qed.

Lemma tokens_rows l : u64 (tokens_sum (record_of_row <$> l)) = u64 (foldr Z.add 0 (col_int 11 <$> l)).
Proof.
  induction l as [|r l IH]; [done|]. cbn [fmap list_fmap tokens_sum foldr OutputTokens record_of_row]. fold (tokens_sum (record_of_row <$> l)). rewrite u64_add_l.
  rewrite <-(u64_add_r _ (tokens_sum _)), <-(u64_add_r _ (foldr _ _ _)). f_equal. f_equal. apply IH.
Qed.

Lemma proportional_rows l : any_proportional (record_of_row <$> l) =
  if decide (Exists (λ r, col_text 14 r = AttributionProportional) l) then AttributionProportional else AttributionDirect.
Proof. unfold any_proportional. apply decide_ext. by rewrite Exists_fmap. Qed.

Lemma scan_group_spec q db ns row : scan_group sum_real sum_int q (selected q db) ns = Some row →
  let l := charged q ns (record_of_row <$> db) in
  row = mk_charge ns (sum_real (EnergyJoules <$> l)) (fmul (JoulesToKWh (sum_real (EnergyJoules <$> l))) (effective_pue q))
    (u64 (tokens_sum l)) (any_proportional l).
Proof.
  unfold scan_group. simpl. intros Hs. destruct (sum_int _) as [z|] eqn:Hz; [|done]. simpl in Hs.
  injection Hs as <-. rewrite <-group_records, proportional_rows, tokens_rows, <-(sum_int_exact _ _ Hz), <-!list_fmap_compose.
  f_equal. by repeat case_decide.
Qed.

Lemma mapM_scan q db nss rows : mapM (scan_group sum_real sum_int q (selected q db)) nss = Some rows →
  nc_Namespace <$> rows = nss ∧
  ∀ row, row ∈ rows → let l := charged q (nc_Namespace row) (record_of_row <$> db) in
    row = mk_charge (nc_Namespace row) (sum_real (EnergyJoules <$> l)) (fmul (JoulesToKWh (sum_real (EnergyJoules <$> l))) (effective_pue q))
      (u64 (tokens_sum l)) (any_proportional l).
Proof.
  intros HM%mapM_Some. induction HM as [|ns row nss rows Hs HM [IH1 IH2]]; [split; [done|set_solver]|].
  apply scan_group_spec in Hs. simpl in Hs. split.
  - rewrite fmap_cons, IH1. by subst row.
  - intros row' [->|Hr]%elem_of_cons; [by subst row|by apply IH2].
Qed.

Definition sqlite_laws : @StorageLaws table (sqlite_backend begin_err commit_err query_err exec_err sum_real sum_int).
Proof.
  refine (Build_StorageLaws table (sqlite_backend begin_err commit_err query_err exec_err sum_real sum_int)
    (λ db, record_of_row <$> db) sum_real _ _ _ _); simpl.
  - intros r s s' Hr. unfold sql_Write. destruct (exec_err 0); [done|]. intros [= <-].
    rewrite fmap_app. f_equal. trans (record_of_row <$> (recordArgs <$> [r])); [|by apply stored_rows; constructor].
    done.
  - intros rs s s' Hrs. unfold sql_WriteBatch. case_decide as Hlen.
    { intros [= <-]. destruct rs; [|done]. by rewrite app_nil_r. }
    destruct begin_err; [done|]. destruct (batch_loop _ _ _ _ _ _) as [tx|] eqn:Hb; [|done].
    destruct commit_err; [done|]. intros [= <-]. apply batch_loop_spec in Hb as ->; [|lia|unfold len, maxBatchRows; lia].
    rewrite fmap_app. f_equal. by apply stored_rows.
  - intros rs s s' e. unfold sql_WriteBatch. repeat case_match; intros ?; by simplify_eq.
  - intros q s rows. unfold sql_QueryChargeback. destruct query_err; [done|].
    destruct (mapM _ _) as [out|] eqn:HM; [|done]. intros [= <-]. apply mapM_scan in HM as [Hns Hrows].
    split_and!.
    + rewrite Hns. unfold groups. rewrite sort_bytes_perm. apply NoDup_remove_dups.
    + intros ns. rewrite Hns. unfold groups. rewrite sort_bytes_perm, elem_of_remove_dups.
      rewrite <-group_records. unfold group_of. rewrite list_elem_of_fmap. split.
      * intros (r & -> & Hr) Hnil%fmap_nil_inv. by apply (filter_nil_not_elem_of _ _ r Hnil eq_refl).
      * intros Hne. destruct (filter _ _) as [|r l] eqn:Hf; [done|]. exists r.
        assert (r ∈ r :: l) as Hin by set_solver. rewrite <-Hf in Hin. apply list_elem_of_filter in Hin. naive_solver.
    + intros row Hrow. pose proof (Hrows row Hrow) as Heq. cbv zeta in Heq. set (l := charged q (nc_Namespace row) (record_of_row <$> s)) in *.
      clearbody l. rewrite Heq. by split_and!.
Defined.
End sqlite.
