(* ===== verification/Accounting.v ===== *)
(** The metering pipeline of the accounting service: the metering and event
    stores (builder/store/database), the components over them and the
    consumer that checks, records, publishes or dead-letters each message
    (accounting/). Database and queue calls may fail at any point: the world
    carries the schedule of failures. *)
From S2P Require Import Prelude GoLib GoFloat.
Open Scope Z_scope.

(** ** common/types/accounting.go *)

Inductive SceneType :=
  | SceneReserve | ScenePortalCharge | ScenePayOrder | SceneCashCharge | ScenePaySubscription
  | SceneModelInference | SceneSpace | SceneModelFinetune | SceneMultiSync | SceneEvaluation | SceneModelServerless
  | SceneStarship | SceneGuiAgent | SceneAgenticHub | SceneUnknow
  | SceneOther (n : Z).

(** [types.SceneType(n)] *)
Definition scene_of (n : Z) : SceneType :=
  match n with
  | 0 => SceneReserve | 1 => ScenePortalCharge | 2 => ScenePayOrder | 3 => SceneCashCharge | 4 => ScenePaySubscription
  | 10 => SceneModelInference | 11 => SceneSpace | 12 => SceneModelFinetune | 13 => SceneMultiSync
  | 14 => SceneEvaluation | 15 => SceneModelServerless
  | 20 => SceneStarship | 22 => SceneGuiAgent | 30 => SceneAgenticHub | 99 => SceneUnknow
  | n => SceneOther n
  end.

Definition TimeDurationMinType : Z := 0.
Definition TokenNumberType : Z := 1.
Definition QuotaNumberType : Z := 2.

Inductive SkuUnitType := UnitMinute | UnitDay | UnitWeek | UnitMonth | UnitYear | UnitToken | UnitRepo | UnitByte.
Inductive SKUType := SKUReserve | SKUCSGHub | SKUStarship | SKUAgenticHub.

Record MeteringEvent := mk_event {
  ev_Uuid : bytes; ev_UserUUID : bytes; ev_Value : Z; ev_ValueType : Z; ev_Scene : Z; ev_OpUID : bytes;
  ev_ResourceID : bytes; ev_ResourceName : bytes; ev_CustomerID : bytes; ev_CreatedAt : Z; ev_Extra : bytes;
}.

(** ** accounting/utils/scene.go *)

Definition IsNeedCalculateBill (scene : SceneType) : bool :=
  match scene with
  | SceneModelInference | SceneSpace | SceneModelFinetune | SceneEvaluation | SceneModelServerless
  | SceneStarship | SceneGuiAgent | SceneAgenticHub => true
  | _ => false
  end.

Definition GetSkuUnitTypeByScene (scene : SceneType) : SkuUnitType :=
  match scene with
  | SceneModelInference => UnitMinute
  | SceneSpace => UnitMinute
  | SceneModelFinetune => UnitMinute
  | SceneMultiSync => UnitRepo
  | SceneEvaluation => UnitMinute
  | SceneModelServerless => UnitToken
  | SceneStarship => UnitToken
  | SceneGuiAgent => UnitToken
  | SceneAgenticHub => UnitToken
  | _ => UnitMinute
  end.

Definition GetSKUTypeByScene (scene : SceneType) : SKUType :=
  match scene with
  | SceneModelInference | SceneSpace | SceneModelFinetune | SceneMultiSync | SceneEvaluation | SceneModelServerless => SKUCSGHub
  | SceneStarship | SceneGuiAgent => SKUStarship
  | SceneAgenticHub => SKUAgenticHub
  | _ => SKUReserve
  end.

Definition IsNeedCheckMeteringInMinute (scene : SceneType) (valueType : Z) : bool :=
  match scene with
  | SceneModelInference | SceneSpace | SceneModelFinetune | SceneEvaluation | SceneModelServerless =>
      if decide (valueType = TokenNumberType) then false else true
  | _ => false
  end.

Definition IsNeedCheckUserSubscription (scene : SceneType) : bool :=
  match scene with
  | SceneModelInference | SceneSpace | SceneModelFinetune | SceneEvaluation | SceneModelServerless | SceneStarship => true
  | _ => false
  end.

(** ** The stores *)

Record AccountMetering := mk_metering {
  EventUUID : bytes; UserUUID : bytes; Value : float64; ValueType : Z; Scene : Z; OpUID : bytes;
  ResourceID : bytes; ResourceName : bytes; CustomerID : bytes; RecordedAt : Z; Extra : bytes;
  SkuUnit : SkuUnitType;
}.

Record AccountEvent := mk_account_event { ae_EventUUID : bytes; ae_EventBody : gmap bytes bytes; ae_Duplicated : bool }.

(** Errors; [Wrap m e] is [fmt.Errorf(m + " %w", e)], with [None] for nil. *)
Inductive err :=
  | ErrNoRows
  | ErrDuplicatedMeterByUUID
  | ErrDuplicatedMeterInMinute
  | ErrDB (m : bytes)
  | ErrMQ (m : bytes)
  | ErrUnmarshal
  | Wrap (m : bytes) (e : option err).

(** [errors.Is(e, sql.ErrNoRows)] *)
Fixpoint is_no_rows (e : err) : bool :=
  match e with ErrNoRows => true | Wrap _ (Some e) => is_no_rows e | _ => false end.

Inductive topic := MeterDLQ | FeeDLQ | FeeCredit | FeeToken | FeeQuota.

(** [faults] decides, call by call, whether the next database or queue call
    fails; a call that fails has no effect. *)
Record world := mk_world {
  faults : list (option err);
  meterings : list AccountMetering;
  events : list AccountEvent;
  published : list (topic * bytes);
  acked : Z;
}.

#[export] Program Instance world_faulty : Faulty world err := {|
  get_faults := faults;
  set_faults fs w := mk_world fs (meterings w) (events w) (published w) (acked w) |}.
Next Obligation. by intros []. Qed.

(** *** account_metering.go *)

Definition Create_metering (input : AccountMetering) : io world err unit :=
  io_wrap (λ e, Wrap (bs "failed to save metering event, error:") (Some e)) next_fault;;
  io_modify (λ w, mk_world (faults w) (meterings w ++ [input]) (events w) (published w) (acked w)).

Definition GetByEventUUID (eventUUID : bytes) : io world err (option AccountMetering) :=
  io_wrap (λ e, Wrap (bs "select metering by event uuid, error:") (Some e)) next_fault;;
  io_gets (λ w, snd <$> list_find (λ m, EventUUID m = eventUUID) (meterings w)).

Definition in_minute (recordAt : Z) (m : AccountMetering) : Prop :=
  let startTime := Truncate recordAt Minute in
  let endTime := Truncate (recordAt + Minute) Minute in
  startTime ≤ RecordedAt m < endTime.
#[export] Instance in_minute_dec recordAt m : Decision (in_minute recordAt m) := _.

Definition FindByCustomerIDAndRecordAtInMin (customerID : bytes) (recordAt : Z) : io world err (option AccountMetering) :=
  io_wrap (λ e, Wrap (bs "select metering by customer_id and record_at, error:") (Some e)) next_fault;;
  io_gets (λ w, snd <$> list_find (λ m, CustomerID m = customerID ∧ in_minute recordAt m) (meterings w)).

Definition ListAllByUserUUID (userUUID : bytes) : io world err (list AccountMetering) :=
  io_wrap (λ e, Wrap (bs "failed to list all meters by user uuid:") (Some e)) next_fault;;
  io_gets (λ w, filter (λ m, UserUUID m = userUUID) (meterings w)).

(** The rows a statement request selects, newest first, one page of them. *)
Record ActStatementsReq := mk_req { rq_UserUUID : bytes; rq_Scene : Z; rq_InstanceName : bytes; rq_StartTime : Z; rq_EndTime : Z; rq_Page : Z; rq_Per : Z }.

Definition statement_rows (req : ActStatementsReq) (l : list AccountMetering) : list AccountMetering :=
  filter (λ m, UserUUID m = rq_UserUUID req ∧ Scene m = rq_Scene req ∧
    (rq_InstanceName req = [] ∨ CustomerID m = rq_InstanceName req) ∧
    rq_StartTime req ≤ RecordedAt m ≤ rq_EndTime req) l.

(** [LIMIT] and [OFFSET] bind only when positive. *)
Definition page_of {A} (page per : Z) (l : list A) : list A :=
  let rest := drop (Z.to_nat ((page - 1) * per)) l in
  if decide (0 < per) then take (Z.to_nat per) rest else rest.

Definition ListByUserIDAndTime (req : ActStatementsReq) : io world err (list AccountMetering * Z) :=
  io_wrap (λ e, Wrap (bs "failed to counting metering recorders, error:") (Some e)) next_fault;;
  count ← io_gets (λ w, len (statement_rows req (meterings w)));
  io_wrap (λ e, Wrap (bs "list all metering recorders, error:") (Some e)) next_fault;;
  io_gets (λ w, (page_of (rq_Page req) (rq_Per req) (reverse (statement_rows req (meterings w))), count)).

(** *** account_event.go *)

Definition GetByEventID (eventID : bytes) : io world err AccountEvent :=
  next_fault;;
  r ← io_gets (λ w, list_find (λ e, ae_EventUUID e = eventID) (events w));
  match r with Some (_, e) => mret e | None => io_fail ErrNoRows end.

Definition Create_event (input : AccountEvent) : io world err unit :=
  io_wrap (λ e, Wrap (bs "insert event log failed, error:") (Some e)) next_fault;;
  io_modify (λ w, mk_world (faults w) (meterings w) (events w ++ [input]) (published w) (acked w)).

(** ** accounting/component/metering.go *)

Definition metering_of (req : MeteringEvent) : AccountMetering :=
  {| EventUUID := ev_Uuid req; UserUUID := ev_UserUUID req; Value := float_of_Z (ev_Value req);
     ValueType := ev_ValueType req; Scene := ev_Scene req; OpUID := ev_OpUID req;
     ResourceID := ev_ResourceID req; ResourceName := ev_ResourceName req; CustomerID := ev_CustomerID req;
     RecordedAt := ev_CreatedAt req; Extra := ev_Extra req;
     SkuUnit := GetSkuUnitTypeByScene (scene_of (ev_Scene req)) |}.

Definition SaveMeteringEventRecord (req : MeteringEvent) : io world err unit :=
  io_wrap (λ e, Wrap (bs "failed to save metering event record, error:") (Some e)) (Create_metering (metering_of req)).

Definition GetMeteringByEventUUID (eventUUID : bytes) : io world err (option AccountMetering) :=
  io_wrap (λ e, Wrap (bs "failed to find metering by event uuid, error:") (Some e)) (GetByEventUUID eventUUID).

Definition FindMeteringByCustomerIDAndRecordAtInMin (customerID : bytes) (recordAt : Z) : io world err (option AccountMetering) :=
  io_wrap (λ e, Wrap (bs "failed to find metering by customer id and record at, error:") (Some e))
    (FindByCustomerIDAndRecordAtInMin customerID recordAt).

Definition ListMeteringByUserIDAndDate (req : ActStatementsReq) : io world err (list AccountMetering * Z) :=
  io_wrap (λ e, Wrap (bs "failed to list metering by UserIDAndDate, error:") (Some e)) (ListByUserIDAndTime req).

Section consumer.
(** The fields of an event printed with [%v], and the JSON decoder of events
    (uuid and time included). *)
Variable event_body : MeteringEvent → gmap bytes bytes.
Variable unmarshal_event : bytes → option MeteringEvent.

(** ** accounting/component/event.go *)

Definition AddNewAccountingEvent (event : MeteringEvent) (isDuplicated : bool) : io world err unit :=
  r ← io_try (GetByEventID (ev_Uuid event));
  match r with
  | Ok _ => mret tt
  | Err e =>
      if is_no_rows e then
        Create_event (mk_account_event (ev_Uuid event) (event_body event) isDuplicated)
      else io_fail e
  end.

(** ** accounting/consumer/metering.go *)

(** The result: duplicated or not, the row found, and the error returned with
    them. *)
Definition checkDuplicatedEvent (event : MeteringEvent) : io world err (bool * option AccountMetering * option err) :=
  r ← io_try (GetMeteringByEventUUID (ev_Uuid event));
  match r with
  | Err e => mret (false, None, Some (Wrap (bs "failed to get metering by uuid,") (Some e)))
  | Ok (Some meter) => mret (true, Some meter, Some ErrDuplicatedMeterByUUID)
  | Ok None =>
      r ← io_try (FindMeteringByCustomerIDAndRecordAtInMin (ev_CustomerID event) (ev_CreatedAt event));
      match r with
      | Err e => mret (false, None, Some (Wrap (bs "fail to check existing metering event in minute level,") (Some e)))
      | Ok (Some meter) => mret (true, Some meter, Some ErrDuplicatedMeterInMinute)
      | Ok None => mret (false, None, None)
      end
  end.

Definition logAndVerifyEvent (event : MeteringEvent) : io world err unit :=
  '(isDuplicated, existEvent, e) ←
    (if IsNeedCheckMeteringInMinute (scene_of (ev_Scene event)) (ev_ValueType event)
     then checkDuplicatedEvent event else mret (false, None, None));
  match e, isDuplicated with
  | Some _, false => io_fail (Wrap (bs "check duplicated event, error:") e)
  | _, _ =>
      r ← io_try (AddNewAccountingEvent event isDuplicated);
      match r with
      | Err _ => io_fail (Wrap (bs "fail to save metering event log,") e)
      | Ok _ =>
          if (isDuplicated : bool) then
            match existEvent with
            | None => λ w, (Panic, w)
            | Some m => io_fail (Wrap (bs "duplicated with event uuid " ++ EventUUID m ++ bs ", error:") e)
            end
          else mret tt
      end
  end.

Definition parseMessageData (data : bytes) : io world err MeteringEvent :=
  match unmarshal_event data with
  | None => io_fail (Wrap (bs "failed to unmarshal meter event, " ++ data ++ bs ",") (Some ErrUnmarshal))
  | Some evt => mret evt
  end.

Definition handleMsgData (data : bytes) : io world err MeteringEvent :=
  event ← parseMessageData data;
  io_wrap (λ e, Wrap (bs "fail to log and verify event, error:") (Some e)) (logAndVerifyEvent event);;
  io_wrap (λ e, Wrap (bs "failed to save meter event,") (Some e)) (SaveMeteringEventRecord event);;
  mret event.

(** At most [n] attempts, up to the first that succeeds. *)
Fixpoint attempts {A} (n : nat) (m : io world err A) : io world err A :=
  match n with
  | O => m
  | S n => r ← io_try m; match r with Ok a => mret a | Err _ => attempts n m end
  end.

Definition publish (t : topic) (data : bytes) : io world err unit :=
  next_fault;;
  io_modify (λ w, mk_world (faults w) (meterings w) (events w) (published w ++ [(t, data)]) (acked w)).

(** An unsupported value type publishes nothing and succeeds. *)
Definition pubFeeEventWithReTry (data : bytes) (evt : MeteringEvent) (limit : nat) : io world err unit :=
  attempts (pred limit)
    (if decide (ev_ValueType evt = TimeDurationMinType) then publish FeeCredit data
     else if decide (ev_ValueType evt = TokenNumberType) then publish FeeToken data
     else if decide (ev_ValueType evt = QuotaNumberType) then publish FeeQuota data
     else mret tt).

Definition moveMsgToDLQWithReTry (data : bytes) (limit : nat) : io world err unit :=
  attempts (pred limit) (publish MeterDLQ data).

Definition ack : io world err unit :=
  next_fault;;
  io_modify (λ w, mk_world (faults w) (meterings w) (events w) (published w) (acked w + 1)).

Definition handleMsgWithRetry (chargingEnable : bool) (data : bytes) : io world err unit :=
  r ← io_try (attempts 2 (handleMsgData data));
  (match r with
   | Err _ => io_try (moveMsgToDLQWithReTry data 5);; mret tt
   | Ok evt => if chargingEnable then io_try (pubFeeEventWithReTry data evt 5);; mret tt else mret tt
   end);;
  io_try ack;; mret tt.

(** [for msg := range msgs.Messages() { m.handleMsgWithRetry(msg) }] *)
Fixpoint handleMessages (chargingEnable : bool) (msgs : list bytes) : io world err unit :=
  match msgs with
  | [] => mret tt
  | d :: msgs' => handleMsgWithRetry chargingEnable d;; handleMessages chargingEnable msgs'
  end.

(** What one round of the reading loop meets: the stream does not verify, the
    fetch times out, fails or returns nil, or messages arrive. *)
Inductive poll := VerifyFailed | FetchTimeout | FetchFailed | NilMessages | Fetched (msgs : list bytes).

(** The loop of [handleReadMsgs] over the rounds it meets: it ends after
    [failedLimit] failed ones. *)
Fixpoint handleReadMsgs (chargingEnable : bool) (failReadTime failedLimit : Z) (rounds : list poll) : io world err unit :=
  if decide (failReadTime < failedLimit) then
    match rounds with
    | [] => mret tt
    | (VerifyFailed | FetchFailed | NilMessages) :: rounds' =>
        handleReadMsgs chargingEnable (failReadTime + 1) failedLimit rounds'
    | FetchTimeout :: rounds' => handleReadMsgs chargingEnable failReadTime failedLimit rounds'
    | Fetched msgs :: rounds' =>
        handleMessages chargingEnable msgs;; handleReadMsgs chargingEnable failReadTime failedLimit rounds'
    end
  else mret tt.

(** ** accounting/consumer/feedlq.go *)

Definition publishToDLQWithRetry (data : bytes) : io world err unit :=
  attempts 9 (publish FeeDLQ data).

End consumer.
