(* ===== verification/AccountingSpec.v ===== *)
(** Guarantees of the metering pipeline: checked events are recorded at most
    once per uuid and per customer and minute, whatever fails and however
    often a message is delivered; every message ends recorded or
    dead-lettered; token events carry no such check. *)
From S2P Require Import Prelude GoLib GoFloat Accounting.
Open Scope Z_scope.

(** Same tables, queue and acknowledgements; the event log may have grown. *)
Definition frame (w w' : world) : Prop :=
  meterings w' = meterings w ∧ published w' = published w ∧ acked w' = acked w.

#[export] Instance frame_preorder : PreOrder frame.
Proof. split; [done|]. intros w1 w2 w3 (?&?&?) (?&?&?). split_and!; congruence. Qed.

Lemma frame_faults fs w : frame w (set_faults fs w).
Proof. done. Qed.
#[export] Hint Resolve frame_faults : aitra.

(** [attempts] keeps what every failed attempt keeps. *)
Lemma wp_attempts {A} (I : world → Prop) (m : io world err A) Q n : ∀ w,
  I w → (∀ w, I w → wp m (λ r w', match r with Ok a => Q (Ok a) w' | Err e => I w' ∧ Q (Err e) w' end) w) →
  wp (attempts n m) Q w.
Proof.
  induction n as [|n IH]; intros w HI Hm; cbn [attempts]; wp_simpl.
  - eapply wp_mono; [|by apply Hm]. intros [a|e] w'; [done|]. tauto.
  - eapply wp_mono; [|by apply Hm]. intros [a|e] w'; wp_simpl; [done|]. intros [HI' _]. by apply IH.
Qed.

Section spec.
Variable event_body : MeteringEvent → gmap bytes bytes.
Variable unmarshal_event : bytes → option MeteringEvent.
Notation handleMsgData := (handleMsgData event_body unmarshal_event).
Notation handleMsgWithRetry := (handleMsgWithRetry event_body unmarshal_event).
Notation handleMessages := (handleMessages event_body unmarshal_event).
Notation handleReadMsgs := (handleReadMsgs event_body unmarshal_event).

Lemma AddNewAccountingEvent_frame evt dup w :
  wp (AddNewAccountingEvent event_body evt dup) (λ _ w', frame w w') w.
Proof.
  unfold AddNewAccountingEvent, GetByEventID, Create_event. wp_simpl. apply wp_next_fault. intros fs [[]|e]; wp_simpl.
  - destruct (list_find _ _) as [[i ae]|]; wp_simpl; [done|]. cbn [is_no_rows]. wp_simpl. apply wp_next_fault. by intros fs2 [[]|e]; wp_simpl.
  - destruct (is_no_rows e); wp_simpl; [|done]. apply wp_next_fault. by intros fs2 [[]|e2]; wp_simpl.
Qed.

(** A row that conflicts with recording [evt]. *)
Definition conflicts (evt : MeteringEvent) (m : AccountMetering) : Prop :=
  EventUUID m = ev_Uuid evt ∨ CustomerID m = ev_CustomerID evt ∧ in_minute (ev_CreatedAt evt) m.

Local Ltac solve_dup := split; [done|]; eexists _, _, _; (split_and!; [done|by intros|done]).

Lemma checkDuplicatedEvent_spec evt w :
  wp (checkDuplicatedEvent evt) (λ r w', frame w w' ∧ ∃ dup m e, r = Ok (dup, m, e) ∧
    (dup = true → m ≠ None) ∧ (e = None → dup = false ∧ ∀ m, m ∈ meterings w → ¬ conflicts evt m)) w.
Proof.
  unfold checkDuplicatedEvent, GetMeteringByEventUUID, GetByEventUUID, FindMeteringByCustomerIDAndRecordAtInMin, FindByCustomerIDAndRecordAtInMin.
  wp_simpl. apply wp_next_fault. intros fs [[]|e]; wp_simpl; [|solve_dup].
  destruct (list_find _ _) as [[i m]|] eqn:Hu; simpl; wp_simpl; [solve_dup|].
  apply wp_next_fault. intros fs2 [[]|e]; wp_simpl; [|solve_dup].
  destruct (list_find (λ m, CustomerID m = _ ∧ _) _) as [[i m]|] eqn:Hc; simpl; wp_simpl; [solve_dup|].
  split; [done|]. eexists false, None, None. split_and!; [done|done|]. intros _. split; [done|].
  apply list_find_None in Hu, Hc. rewrite Forall_forall in Hu, Hc. intros m Hm [?|?]; [by eapply Hu|by eapply Hc].
Qed.

Lemma logAndVerifyEvent_spec evt w :
  wp (logAndVerifyEvent event_body evt) (λ r w', frame w w' ∧
    (r = Ok tt → IsNeedCheckMeteringInMinute (scene_of (ev_Scene evt)) (ev_ValueType evt) = true →
      ∀ m, m ∈ meterings w → ¬ conflicts evt m)) w.
Proof.
  unfold logAndVerifyEvent. wp_simpl. destruct (IsNeedCheckMeteringInMinute _ _) eqn:Hn.
  - eapply wp_mono; [|apply checkDuplicatedEvent_spec]. intros r w1 (Hf1 & dup & m & e & -> & Hm & He).
    destruct e as [e|], dup; wp_simpl; [|done|naive_solver|].
    + eapply wp_mono; [|apply AddNewAccountingEvent_frame]. intros r w2 Hf2. wp_simpl.
      destruct r; wp_simpl; [|split; [by etrans|done]]. destruct m as [m|]; [|naive_solver]. wp_simpl. split; [by etrans|done].
    + eapply wp_mono; [|apply AddNewAccountingEvent_frame]. intros r w2 Hf2. wp_simpl.
      destruct r; wp_simpl; (split; [by etrans|]); [naive_solver|done].
  - wp_simpl. eapply wp_mono; [|apply AddNewAccountingEvent_frame]. intros r w2 Hf2. wp_simpl. by destruct r; wp_simpl.
Qed.

(** One attempt: it records the event as the last row, or no row at all. *)
Lemma handleMsgData_spec data w :
  wp (handleMsgData data) (λ r w', published w' = published w ∧ acked w' = acked w ∧
    match r with
    | Ok evt => unmarshal_event data = Some evt ∧ meterings w' = meterings w ++ [metering_of evt] ∧
        (IsNeedCheckMeteringInMinute (scene_of (ev_Scene evt)) (ev_ValueType evt) = true →
          ∀ m, m ∈ meterings w → ¬ conflicts evt m)
    | Err _ => meterings w' = meterings w
    end) w.
Proof.
  unfold Accounting.handleMsgData, parseMessageData, SaveMeteringEventRecord, Create_metering. wp_simpl.
  destruct (unmarshal_event data) as [evt|]; wp_simpl; [|done].
  eapply wp_mono; [|apply logAndVerifyEvent_spec]. intros [[]|e] w1 [(Hm & Hp & Ha) Hck]; wp_simpl; [|done].
  apply wp_next_fault. intros fs [[]|e]; wp_simpl; simpl; [|by rewrite Hm].
  split_and!; [done|done|done|by rewrite Hm|by apply Hck].
Qed.

(** The queue a fee event goes to. *)
Definition fee_topic (evt : MeteringEvent) : option topic :=
  if decide (ev_ValueType evt = TimeDurationMinType) then Some FeeCredit
  else if decide (ev_ValueType evt = TokenNumberType) then Some FeeToken
  else if decide (ev_ValueType evt = QuotaNumberType) then Some FeeQuota else None.

Lemma publish_spec t data w :
  wp (publish t data) (λ r w', meterings w' = meterings w ∧ acked w' = acked w ∧
    published w' = published w ++ match r with Ok _ => [(t, data)] | Err _ => [] end) w.
Proof.
  unfold publish. wp_simpl. apply wp_next_fault. intros fs [[]|e]; wp_simpl; simpl; [done|].
  by rewrite app_nil_r.
Qed.

Lemma attempts_publish t data n w :
  wp (attempts n (publish t data)) (λ r w', meterings w' = meterings w ∧ acked w' = acked w ∧
    published w' = published w ++ match r with Ok _ => [(t, data)] | Err _ => [] end) w.
Proof.
  apply (wp_attempts (λ w', meterings w' = meterings w ∧ acked w' = acked w ∧ published w' = published w)); [done|].
  intros w1 (Hm & Ha & Hp). eapply wp_mono; [|apply publish_spec].
  intros [[]|e] w2 (Hm2 & Ha2 & Hp2); rewrite Hm2, Ha2, Hp2, ?Hm, ?Ha, ?Hp; [done|]. by rewrite app_nil_r.
Qed.

Lemma pubFee_spec data evt w :
  wp (pubFeeEventWithReTry data evt 5) (λ r w', meterings w' = meterings w ∧ acked w' = acked w ∧
    (published w' = published w ∨ ∃ t, fee_topic evt = Some t ∧ published w' = published w ++ [(t, data)])) w.
Proof.
  unfold pubFeeEventWithReTry, fee_topic. repeat case_decide;
    [eapply wp_mono; [|apply attempts_publish]; intros [[]|?] w' (? & ? & Hp); rewrite ?app_nil_r in Hp; eauto 6..|].
  apply (wp_attempts (λ w', w' = w)); [done|]. intros w1 ->. wp_simpl. auto.
Qed.

(** The message was recorded, its fee event published at most once, or it was
    only dead-lettered, or (when the dead-letter queue fails too) dropped. *)
Definition handled (charging : bool) (data : bytes) (w w' : world) : Prop :=
  (∃ evt, unmarshal_event data = Some evt ∧ meterings w' = meterings w ++ [metering_of evt] ∧
     (IsNeedCheckMeteringInMinute (scene_of (ev_Scene evt)) (ev_ValueType evt) = true →
        ∀ m, m ∈ meterings w → ¬ conflicts evt m) ∧
     (published w' = published w ∨ ∃ t, charging = true ∧ fee_topic evt = Some t ∧ published w' = published w ++ [(t, data)])) ∨
  (meterings w' = meterings w ∧
     (published w' = published w ∨ published w' = published w ++ [(MeterDLQ, data)])).

Lemma ack_spec w : wp ack (λ _ w', meterings w' = meterings w ∧ published w' = published w ∧ acked w ≤ acked w' ≤ acked w + 1) w.
Proof. unfold ack. wp_simpl. apply wp_next_fault. intros fs [[]|e]; wp_simpl; simpl; split_and!; try done; lia. Qed.

Lemma handleMsgWithRetry_spec charging data w :
  wp (handleMsgWithRetry charging data) (λ r w', r = Ok tt ∧ handled charging data w w' ∧ acked w ≤ acked w' ≤ acked w + 1) w.
Proof.
  unfold Accounting.handleMsgWithRetry. wp_simpl.
  eapply (wp_attempts (λ w', meterings w' = meterings w ∧ published w' = published w ∧ acked w' = acked w)); [done|].
  intros w1 (Hm1 & Hp1 & Ha1). eapply wp_mono; [|apply handleMsgData_spec].
  intros [evt|e] w2; intros (Hp2 & Ha2 & Hr); rewrite Hp1 in Hp2; rewrite Ha1 in Ha2.
  - destruct Hr as (Hu & Hm2 & Hck). rewrite Hm1 in Hm2, Hck. destruct charging; wp_simpl.
    + eapply wp_mono; [|apply pubFee_spec]. intros r w3 (Hm3 & Ha3 & Hp3). wp_simpl.
      eapply wp_mono; [|apply ack_spec]. intros r4 w4 (Hm4 & Hp4 & Ha4). wp_simpl.
      split_and!; [done| |lia|lia]. left. exists evt. split_and!; [done|congruence|done|].
      rewrite Hp4, <-Hp2. naive_solver.
    + eapply wp_mono; [|apply ack_spec]. intros r4 w4 (Hm4 & Hp4 & Ha4). wp_simpl.
      split_and!; [done| |lia|lia]. left. exists evt. split_and!; [done|congruence|done|]. left. congruence.
  - rewrite Hm1 in Hr. split; [done|]. wp_simpl. unfold moveMsgToDLQWithReTry.
    eapply wp_mono; [|apply attempts_publish]. intros r w3 (Hm3 & Ha3 & Hp3). wp_simpl.
    eapply wp_mono; [|apply ack_spec]. intros r4 w4 (Hm4 & Hp4 & Ha4). wp_simpl.
    split_and!; [done| |lia|lia]. right. split; [congruence|]. rewrite Hp4, Hp3, Hp2. destruct r; rewrite ?app_nil_r; auto.
Qed.
End spec.

(** No checked row repeats the uuid, or the customer and minute, of a row
    before it. *)
Definition metering_unique (l : list AccountMetering) : Prop :=
  ∀ l1 m l2, l = l1 ++ m :: l2 →
    IsNeedCheckMeteringInMinute (scene_of (Scene m)) (ValueType m) = true →
    ∀ m', m' ∈ l1 → EventUUID m' ≠ EventUUID m ∧ ¬ (CustomerID m' = CustomerID m ∧ in_minute (RecordedAt m) m').

Lemma metering_unique_snoc l evt : metering_unique l →
  (IsNeedCheckMeteringInMinute (scene_of (ev_Scene evt)) (ev_ValueType evt) = true → ∀ m, m ∈ l → ¬ conflicts evt m) →
  metering_unique (l ++ [metering_of evt]).
Proof.
  intros Hu Hck l1 m l2 Heq Hn m' Hm'. destruct l2 as [|x l2 _] using rev_ind.
  - apply app_inj_tail in Heq as [-> <-]. destruct (decide (conflicts evt m')) as [|Hnc]; [by destruct (Hck Hn m' Hm')|].
    unfold conflicts in Hnc. simpl. tauto.
  - rewrite app_comm_cons, (assoc_L (++)) in Heq. apply app_inj_tail in Heq as [-> <-]. by eapply (Hu l1 m l2).
Qed.


Section theorems.
Variable event_body : MeteringEvent → gmap bytes bytes.
Variable unmarshal_event : bytes → option MeteringEvent.
Notation handleMsgWithRetry := (handleMsgWithRetry event_body unmarshal_event).
Notation handleMessages := (handleMessages event_body unmarshal_event).
Notation handleReadMsgs := (handleReadMsgs event_body unmarshal_event).

(** The ledger only grows, and stays free of duplicates. *)
Definition ledger_kept (w w' : world) : Prop :=
  meterings w `prefix_of` meterings w' ∧ (metering_unique (meterings w) → metering_unique (meterings w')).

#[local] Instance ledger_kept_preorder : PreOrder ledger_kept.
Proof. split; [done|]. intros w1 w2 w3 [? ?] [? ?]. split; [by etrans|tauto]. Qed.

Lemma handled_ledger charging data w w' : handled unmarshal_event charging data w w' → ledger_kept w w'.
Proof.
  unfold ledger_kept. intros [(evt & _ & -> & Hck & _)|[-> _]]; [|done]. split; [by eexists|].
  intros Hu. by apply metering_unique_snoc.
Qed.

Lemma handleMessages_ledger charging msgs : ∀ w,
  wp (handleMessages charging msgs) (λ r w', r = Ok tt ∧ ledger_kept w w') w.
Proof.
  induction msgs as [|d msgs IH]; intros w; cbn [Accounting.handleMessages]; wp_simpl; [done|].
  eapply wp_mono; [|apply handleMsgWithRetry_spec]. intros r w1 (-> & Hh & _).
  eapply wp_mono; [|apply IH]. intros r w2 [-> Hl]. split; [done|]. etrans; [by eapply handled_ledger|done].
Qed.

Lemma handleReadMsgs_ledger charging limit rounds : ∀ n w,
  wp (handleReadMsgs charging n limit rounds) (λ r w', r = Ok tt ∧ ledger_kept w w') w.
Proof.
  induction rounds as [|p rounds IH]; intros n w; cbn [Accounting.handleReadMsgs]; case_decide; wp_simpl; try done.
  destruct p as [| | | |msgs]; try apply IH. wp_simpl.
  eapply wp_mono; [|apply handleMessages_ledger]. intros r w1 [-> Hl1].
  eapply wp_mono; [|apply IH]. intros r w2 [-> Hl2]. split; [done|]. by etrans.
Qed.

(** C3: whatever messages the reading loop fetches, with duplicates and
    redeliveries, and whichever database and queue calls fail, it ends
    normally, never removes a row, and keeps the ledger free of checked rows
    that repeat the uuid, or the customer and minute, of an earlier row. *)
Theorem checked_events_recorded_once charging limit rounds w :
  metering_unique (meterings w) →
  ∃ w', handleReadMsgs charging 0 limit rounds w = (Ret tt, w') ∧
    meterings w `prefix_of` meterings w' ∧ metering_unique (meterings w').
Proof.
  intros Hu. destruct (wp_run _ _ _ (handleReadMsgs_ledger charging limit rounds 0 w)) as (r & w' & Hrun & -> & Hp & Hk).
  exists w'. auto.
Qed.

(** Each message handled ends normally in one of two ways, whatever calls
    fail: its event is appended to the ledger, after which its fee event is
    published at most once, on the queue of its value type and only when
    charging is enabled; or the ledger is unchanged, no fee event is
    published and the message is dead-lettered at most once. It is
    acknowledged at most once. *)
Theorem message_handled_once charging data w :
  ∃ w', handleMsgWithRetry charging data w = (Ret tt, w') ∧
    handled unmarshal_event charging data w w' ∧ acked w ≤ acked w' ≤ acked w + 1.
Proof.
  destruct (wp_run _ _ _ (handleMsgWithRetry_spec event_body unmarshal_event charging data w)) as (r & w' & Hrun & -> & ?).
  exists w'. auto.
Qed.

(** *** Without failures *)

Lemma logAndVerify_unchecked evt w : faults w = [] →
  IsNeedCheckMeteringInMinute (scene_of (ev_Scene evt)) (ev_ValueType evt) = false →
  wp (logAndVerifyEvent event_body evt) (λ r w', r = Ok tt ∧ faults w' = [] ∧ frame w w') w.
Proof.
  intros Hf Hn. unfold logAndVerifyEvent, AddNewAccountingEvent, GetByEventID, Create_event. rewrite Hn. wp_simpl.
  apply wp_no_fault; [done|]. wp_simpl. destruct (list_find _ _) as [[i e]|]; wp_simpl; [done|].
  cbn [is_no_rows]. wp_simpl. apply wp_no_fault; [done|]. by wp_simpl.
Qed.

Lemma handleMsgData_unchecked data evt w : faults w = [] → unmarshal_event data = Some evt →
  IsNeedCheckMeteringInMinute (scene_of (ev_Scene evt)) (ev_ValueType evt) = false →
  ∃ w', handleMsgData event_body unmarshal_event data w = (Ret evt, w') ∧ faults w' = [] ∧
    meterings w' = meterings w ++ [metering_of evt] ∧ acked w' = acked w.
Proof.
  intros Hf Hu Hn. destruct (wp_run _ _ _ (logAndVerify_unchecked evt w Hf Hn)) as (r & [fs ms es ps a] & Hrun & -> & Hf' & Hm & _ & Ha).
  simpl in *. subst. unfold handleMsgData, parseMessageData. rewrite Hu.
  rewrite (io_bind_run _ _ w evt w) by done.
  rewrite (io_bind_run _ _ _ _ _ (io_wrap_run _ _ _ _ _ Hrun)). eexists. by split_and!.
Qed.

Lemma token_message_once charging data evt w :
  faults w = [] → unmarshal_event data = Some evt →
  IsNeedCheckMeteringInMinute (scene_of (ev_Scene evt)) (ev_ValueType evt) = false →
  ∃ w', handleMsgWithRetry charging data w = (Ret tt, w') ∧ faults w' = [] ∧
    meterings w' = meterings w ++ [metering_of evt] ∧ acked w' = acked w + 1.
Proof.
  intros Hf Hu Hn. destruct (handleMsgData_unchecked data evt w Hf Hu Hn) as ([fs ms es ps a] & Hrun & Hf' & Hm & Ha).
  simpl in *. subst. unfold Accounting.handleMsgWithRetry.
  assert (attempts 2 (handleMsgData event_body unmarshal_event data) w = (Ret evt, mk_world [] (meterings w ++ [metering_of evt]) es ps (acked w))) as Hatt.
  { cbn [attempts]. by rewrite (io_bind_run _ _ _ _ _ (io_try_run _ _ _ _ Hrun)). }
  rewrite (io_bind_run _ _ _ _ _ (io_try_run _ _ _ _ Hatt)). destruct charging; unfold pubFeeEventWithReTry.
  - repeat case_decide; eexists; by split_and!.
  - eexists; by split_and!.
Qed.

(** For events outside the minute check (token counts, and every scene
    that is not checked) the ledger trusts the queue to deliver once: with no
    failure at all, the same message delivered [n] times is recorded [n]
    times under one event uuid. *)
Theorem unchecked_redelivery_repeats charging data evt n w :
  faults w = [] → unmarshal_event data = Some evt →
  IsNeedCheckMeteringInMinute (scene_of (ev_Scene evt)) (ev_ValueType evt) = false →
  ∃ w', handleMessages charging (replicate n data) w = (Ret tt, w') ∧
    meterings w' = meterings w ++ replicate n (metering_of evt) ∧ acked w' = acked w + Z.of_nat n.
Proof.
  intros Hf Hu Hn. revert w Hf. induction n as [|n IH]; intros w Hf; cbn [replicate Accounting.handleMessages].
  - exists w. split_and!; [done|by rewrite app_nil_r|lia].
  - destruct (token_message_once charging data evt w Hf Hu Hn) as (w1 & Hrun & Hf1 & Hm1 & Ha1).
    unfold mbind, io_bind at 1. rewrite Hrun. destruct (IH w1 Hf1) as (w2 & -> & Hm2 & Ha2).
    exists w2. split_and!; [done| |lia]. by rewrite Hm2, Hm1, <-(assoc_L (++)).
Qed.
End theorems.

(** ** Witnesses *)

(** A duration event of a space and a token event, told apart by their data. *)
Definition sample_event (data : bytes) : option MeteringEvent :=
  if decide (data = bs "space")
  then Some (mk_event (bs "u1") (bs "user") 1 TimeDurationMinType 11 [] (bs "r") (bs "r") (bs "svc") (90 * 1000000000) [])
  else if decide (data = bs "tokens")
  then Some (mk_event (bs "u2") (bs "user") 500 TokenNumberType 15 [] (bs "r") (bs "r") (bs "svc") 0 [])
  else None.
Definition empty_world : world := mk_world [] [] [] [] 0.

Lemma checked_events_recorded_once_witness :
  ∃ w', handleReadMsgs (λ _, ∅) sample_event true 0 10 [Fetched [bs "space"; bs "space"]; VerifyFailed] empty_world = (Ret tt, w') ∧
    meterings empty_world `prefix_of` meterings w' ∧ metering_unique (meterings w').
Proof.
  apply (checked_events_recorded_once (λ _, ∅) sample_event true 10 [Fetched [bs "space"; bs "space"]; VerifyFailed] empty_world).
  intros l1 m l2 Heq. by destruct l1.
Defined.

Lemma unchecked_redelivery_repeats_witness :
  ∃ w', handleMessages (λ _, ∅) sample_event true (replicate 2 (bs "tokens")) empty_world = (Ret tt, w') ∧
    meterings w' = [] ++ replicate 2 (metering_of (mk_event (bs "u2") (bs "user") 500 TokenNumberType 15 [] (bs "r") (bs "r") (bs "svc") 0 [])) ∧
    acked w' = 0 + 2.
Proof.
  apply (unchecked_redelivery_repeats (λ _, ∅) sample_event true (bs "tokens")
    (mk_event (bs "u2") (bs "user") 500 TokenNumberType 15 [] (bs "r") (bs "r") (bs "svc") 0 []) 2 empty_world); reflexivity.
Defined.

(** The duplicate of a checked event lands in the dead-letter queue. *)
Example duplicate_ex : ∃ w', handleMessages (λ _, ∅) sample_event true [bs "space"; bs "space"] empty_world = (Ret tt, w') ∧
  length (meterings w') = 1%nat ∧ published w' = [(FeeCredit, bs "space"); (MeterDLQ, bs "space")] ∧ acked w' = 2.
Proof. eexists. split; [vm_compute; reflexivity|]. by vm_compute. Qed.
