(* ===== verification/Billing.v ===== *)
(** The GPU billing job (user/billing/gpu_billing.go) over the credit and
    deployment-billing stores (builder/store/database): what one cycle does to
    each running deployment, and what it charges. Database calls may fail: the
    world carries the schedule of failures. *)
From stdpp Require Import sorting.
From S2P Require Import Prelude GoLib GoFloat EnergyCore.
Open Scope Z_scope.

Record UserCredit := mk_credit {
  cr_UserID : Z; cr_Username : bytes; AmountUSD : float64; Note : bytes; GrantedBy : bytes; cr_CreatedAt : Z;
}.

Record DeploymentBilling := mk_billing {
  ID : Z; UserID : Z; Username : bytes; DeployName : bytes; SkuName : bytes; PricePerHour : float64;
  Status : bytes; StoppedAt : option Z; LastBilledAt : Z; TotalBilledUSD : float64;
}.

(** [usage] is the table model_usage_logs: user and cost. *)
Record world := mk_world {
  faults : list (option bytes);
  credits : list UserCredit;
  usage : list (Z * float64);
  billings : list DeploymentBilling;
}.

#[export] Program Instance world_faulty : Faulty world bytes := {|
  get_faults := faults;
  set_faults fs w := mk_world fs (credits w) (usage w) (billings w) |}.
Next Obligation. by intros []. Qed.

Section billing.
(** SUM of a double column. *)
Variable sum_real : list float64 → float64.

(** *** user_credit.go; the caller always sets CreatedAt *)

Definition Create (c : UserCredit) : io world bytes unit :=
  io_wrap (λ e, bs "create user credit: " ++ e) next_fault;;
  io_modify (λ w, mk_world (faults w) (credits w ++ [c]) (usage w) (billings w)).

Definition coalesce_sum (l : list float64) : float64 := match l with [] => fzero | _ => sum_real l end.

Definition TotalGranted (userID : Z) : io world bytes float64 :=
  io_wrap (λ e, bs "total granted: " ++ e) next_fault;;
  io_gets (λ w, coalesce_sum (AmountUSD <$> filter (λ c, cr_UserID c = userID) (credits w))).

Definition TotalSpent (userID : Z) : io world bytes float64 :=
  io_wrap (λ e, bs "total spent: " ++ e) next_fault;;
  io_gets (λ w, coalesce_sum (snd <$> filter (λ u : Z * float64, u.1 = userID) (usage w))).

Definition Balance (userID : Z) : io world bytes float64 :=
  granted ← TotalGranted userID;
  spent ← TotalSpent userID;
  mret (fsub granted spent).

(** ORDER BY created_at DESC; equal times keep their order. *)
Definition newer_credit : relation UserCredit := λ a b, cr_CreatedAt b ≤ cr_CreatedAt a.
#[export] Instance newer_credit_dec a b : Decision (newer_credit a b).
Proof. unfold newer_credit. apply _. Defined.
Definition ListByUser (userID : Z) : io world bytes (list UserCredit) :=
  io_wrap (λ e, bs "list user credits: " ++ e) next_fault;;
  io_gets (λ w, merge_sort newer_credit (filter (λ c, cr_UserID c = userID) (credits w))).

(** *** deployment_billing.go *)

(** ORDER BY id. *)
Fixpoint insert_by_id (d : DeploymentBilling) (l : list DeploymentBilling) : list DeploymentBilling :=
  match l with
  | [] => [d]
  | x :: l' => if decide (ID d ≤ ID x) then d :: l else x :: insert_by_id d l'
  end.
Definition order_by_id : list DeploymentBilling → list DeploymentBilling := foldr insert_by_id [].

Definition ListRunning : io world bytes (list DeploymentBilling) :=
  io_wrap (λ e, bs "list running deployments: " ++ e) next_fault;;
  io_gets (λ w, order_by_id (filter (λ d, Status d = bs "running") (billings w))).

(** UPDATE ... WHERE id = ?. *)
Definition update_where (id : Z) (f : DeploymentBilling → DeploymentBilling) (w : world) : world :=
  mk_world (faults w) (credits w) (usage w) ((λ d, if decide (ID d = id) then f d else d) <$> billings w).

Definition stop_row (now : Z) (d : DeploymentBilling) : DeploymentBilling :=
  mk_billing (ID d) (UserID d) (Username d) (DeployName d) (SkuName d) (PricePerHour d)
    (bs "stopped") (Some now) (LastBilledAt d) (TotalBilledUSD d).

Definition Stop (id now : Z) : io world bytes unit :=
  io_wrap (λ e, bs "stop deployment billing: " ++ e) next_fault;;
  io_modify (update_where id (stop_row now)).

Definition bill_row (amount : float64) (at_ : Z) (d : DeploymentBilling) : DeploymentBilling :=
  mk_billing (ID d) (UserID d) (Username d) (DeployName d) (SkuName d) (PricePerHour d)
    (Status d) (StoppedAt d) at_ (fadd (TotalBilledUSD d) amount).

Definition UpdateBilling (id : Z) (billedAmount : float64) (lastBilledAt : Z) : io world bytes unit :=
  io_wrap (λ e, bs "update deployment billing: " ++ e) next_fault;;
  io_modify (update_where id (bill_row billedAmount lastBilledAt)).

Definition FindByID (id : Z) : io world bytes DeploymentBilling :=
  io_wrap (λ e, bs "find deployment billing by id: " ++ e) next_fault;;
  r ← io_gets (λ w, list_find (λ d, ID d = id) (billings w));
  match r with Some (_, d) => mret d | None => io_fail (bs "find deployment billing by id: sql: no rows in result set") end.

Definition Delete (id : Z) : io world bytes unit :=
  io_wrap (λ e, bs "delete deployment billing: " ++ e) next_fault;;
  io_modify (λ w, mk_world (faults w) (credits w) (usage w) (filter (λ d, ID d ≠ id) (billings w))).

(** *** gpu_billing.go *)

(** [elapsed.Hours()] *)
Definition Hours (d : Z) : float64 :=
  fadd (float_of_Z (d ÷ Hour)) (fdiv (float_of_Z (d `rem` Hour)) (float_of_Z Hour)).

(** [now.Sub(t)] saturates at the range of a duration. *)
Definition Sub (now t : Z) : Z := Z.max (- 2 ^ 63) (Z.min (2 ^ 63 - 1) (now - t)).

Definition amount_due (d : DeploymentBilling) (now : Z) : float64 := fmul (PricePerHour d) (Hours (Sub now (LastBilledAt d))).

Definition deduction (d : DeploymentBilling) (now : Z) : UserCredit :=
  let elapsed := Sub now (LastBilledAt d) in
  {| cr_UserID := UserID d; cr_Username := Username d; AmountUSD := SFopp (amount_due d now);
     Note := bs "GPU deployment: " ++ DeployName d ++ bs " (" ++ SkuName d ++ bs ") " ++ EncodeRune 0x2014 ++ bs " "
               ++ FormatFixed 4 (Hours elapsed) ++ bs " hrs";
     GrantedBy := bs "system"; cr_CreatedAt := now |}.

(** The body of the loop: errors are logged, never returned. *)
Definition bill_one (now : Z) (stop_clock : Z → Z) (d : DeploymentBilling) : io world bytes unit :=
  let elapsed := Sub now (LastBilledAt d) in
  if decide (elapsed < Minute) then mret tt else
  let amount := amount_due d now in
  if fleb amount fzero then mret tt else
  r ← io_try (Balance (UserID d));
  match r with
  | Err _ => mret tt
  | Ok balance =>
      if fleb balance fzero then io_try (Stop (ID d) (stop_clock (ID d)));; mret tt
      else
        r ← io_try (Create (deduction d now));
        match r with
        | Err _ => mret tt
        | Ok _ => io_try (UpdateBilling (ID d) amount now);; mret tt
        end
  end.

Fixpoint bill_all (now : Z) (stop_clock : Z → Z) (running : list DeploymentBilling) : io world bytes unit :=
  match running with
  | [] => mret tt
  | d :: running' => bill_one now stop_clock d;; bill_all now stop_clock running'
  end.

(** One cycle; [stop_clock] is what the clock shows [Stop]. *)
Definition runBillingCycle (now : Z) (stop_clock : Z → Z) : io world bytes unit :=
  r ← io_try ListRunning;
  match r with
  | Err _ => mret tt
  | Ok running => bill_all now stop_clock running
  end.

End billing.

(** * What a billing cycle guarantees: each running deployment is charged at
    most once whatever fails; without failures every charge is matched by the
    deployment's own record; and a failed record update charges the same
    period again. *)

(** [d] has a minute or more and a positive amount to bill. *)
Definition due (now : Z) (d : DeploymentBilling) : Prop :=
  Minute ≤ Sub now (LastBilledAt d) ∧ fleb (amount_due d now) fzero = false.

Section spec.
Variable sum_real : list float64 → float64.

Definition same_tables (w w' : world) : Prop :=
  credits w' = credits w ∧ usage w' = usage w ∧ billings w' = billings w.

Lemma Balance_frame id w : wp (Balance sum_real id) (λ _ w', same_tables w w') w.
Proof.
  unfold Balance, TotalGranted, TotalSpent. wp_simpl. apply wp_next_fault. intros fs [[]|e]; wp_simpl; [|done].
  apply wp_next_fault. by intros fs2 [[]|e]; wp_simpl.
Qed.

(** What one round may do to the credits. *)
Lemma bill_one_credits now clock d w :
  wp (bill_one sum_real now clock d) (λ r w', r = Ok tt ∧
    (credits w' = credits w ∨ due now d ∧ credits w' = credits w ++ [deduction d now])) w.
Proof.
  unfold bill_one. case_decide as Hm; wp_simpl; [auto|]. destruct (fleb _ _) eqn:Ha; wp_simpl; [auto|].
  assert (due now d) as Hdue by (split; [lia|done]).
  eapply wp_mono; [|apply Balance_frame]. intros [bal|e] w1 (Hc & _ & _); wp_simpl; [|auto].
  destruct (fleb bal fzero); wp_simpl; unfold Stop, Create, UpdateBilling; wp_simpl.
  - apply wp_next_fault. intros fs [[]|e]; wp_simpl; simpl; auto.
  - apply wp_next_fault. intros fs [[]|e]; wp_simpl; simpl; [|auto].
    apply wp_next_fault. intros fs2 [[]|e]; wp_simpl; simpl; rewrite Hc; auto.
Qed.

Lemma bill_all_credits now clock l : ∀ w,
  wp (bill_all sum_real now clock l) (λ r w', r = Ok tt ∧ ∃ charged, charged `sublist_of` l ∧ Forall (due now) charged ∧
    credits w' = credits w ++ ((λ d, deduction d now) <$> charged)) w.
Proof.
  induction l as [|d l IH]; intros w; cbn [bill_all]; wp_simpl.
  - split; [done|]. exists []. by rewrite app_nil_r.
  - eapply wp_mono; [|apply bill_one_credits]. intros r w1 [-> Hc1].
    eapply wp_mono; [|apply IH]. intros r w2 [-> (ch & Hsub & Hdue & Hc2)]. split; [done|].
    destruct Hc1 as [Hc1|[Hd Hc1]].
    + exists ch. split_and!; [by constructor|done|by rewrite Hc2, Hc1].
    + exists (d :: ch). split_and!; [by constructor|by constructor|]. by rewrite Hc2, Hc1, <-(assoc_L (++)).
Qed.

(** C4: a billing cycle ends normally whatever database calls fail, and the
    only credits it adds are one deduction, at the price of the time since
    the deployment was last billed, for each of some of the deployments that
    were running when it began and had at least a minute and a positive
    amount due; no deployment is deducted twice in a cycle. *)
Theorem cycle_charges_at_most_once now clock w :
  ∃ w' charged, runBillingCycle sum_real now clock w = (Ret tt, w') ∧
    charged `sublist_of` order_by_id (filter (λ d, Status d = bs "running") (billings w)) ∧
    Forall (due now) charged ∧
    credits w' = credits w ++ ((λ d, deduction d now) <$> charged).
Proof.
  assert (Hc : wp (runBillingCycle sum_real now clock) (λ r w', r = Ok tt ∧ ∃ charged,
    charged `sublist_of` order_by_id (filter (λ d, Status d = bs "running") (billings w)) ∧ Forall (due now) charged ∧
    credits w' = credits w ++ ((λ d, deduction d now) <$> charged)) w).
  { unfold runBillingCycle, ListRunning. wp_simpl. apply wp_next_fault. intros fs [[]|e]; wp_simpl.
    - eapply wp_mono; [|apply bill_all_credits]. intros r w2 [-> (ch & ? & ? & ?)]. eauto.
    - split; [done|]. exists []. split_and!; [apply sublist_nil_l|done|by rewrite app_nil_r]. }
  destruct (wp_run _ _ _ Hc) as (r & w' & Hrun & -> & charged & ?). by exists w', charged.
Qed.

(** *** Without failures *)

(** What a cycle that charged [charged] and stopped [stopped] does to a row. *)
Definition settle (now : Z) (clock : Z → Z) (charged stopped : list Z) (d : DeploymentBilling) : DeploymentBilling :=
  if decide (ID d ∈ charged) then bill_row (amount_due d now) now d
  else if decide (ID d ∈ stopped) then stop_row (clock (ID d)) d else d.

Lemma Balance_no_fault id w : faults w = [] →
  wp (Balance sum_real id) (λ r w', w' = w ∧ ∃ b, r = Ok b) w.
Proof.
  intros Hf. unfold Balance, TotalGranted, TotalSpent. wp_simpl. apply wp_no_fault; [done|]. wp_simpl.
  apply wp_no_fault; [done|]. wp_simpl. eauto.
Qed.

Lemma bill_one_no_fault now clock d w : faults w = [] →
  (∀ x, x ∈ billings w → ID x = ID d → x = d) →
  wp (bill_one sum_real now clock d) (λ r w', r = Ok tt ∧ faults w' = [] ∧ ∃ charged stopped : bool,
    negb (charged && stopped) ∧
    credits w' = credits w ++ (if charged then [deduction d now] else []) ∧
    billings w' = settle now clock (if charged then [ID d] else []) (if stopped then [ID d] else []) <$> billings w) w.
Proof.
  intros Hf Hsnap.
  assert (Hskip : ∃ charged stopped : bool, negb (charged && stopped) ∧
    credits w = credits w ++ (if charged then [deduction d now] else []) ∧
    billings w = settle now clock (if charged then [ID d] else []) (if stopped then [ID d] else []) <$> billings w).
  { exists false, false. split_and!; [done|by rewrite app_nil_r|]. rewrite <-(list_fmap_id (billings w)) at 1.
    apply list_fmap_ext. intros i x _. unfold settle. by rewrite !decide_False by set_solver. }
  unfold bill_one. case_decide as Hm; wp_simpl; [done|]. destruct (fleb _ _) eqn:Ha; wp_simpl; [done|].
  eapply wp_mono; [|by apply Balance_no_fault]. intros r w1 [-> [bal ->]]; wp_simpl.
  destruct (fleb bal fzero); wp_simpl; unfold Stop, Create, UpdateBilling; wp_simpl.
  - apply wp_no_fault; [done|]. wp_simpl. split_and!; [done|done|]. exists false, true. split_and!; [done|by rewrite app_nil_r|].
    apply list_fmap_ext. intros i x Hx. unfold settle. rewrite (decide_False (P := ID x ∈ [])) by set_solver.
    case_decide as Hid; [rewrite decide_True by set_solver; by rewrite Hid|by rewrite decide_False by set_solver].
  - apply wp_no_fault; [done|]. wp_simpl. apply wp_no_fault; [done|]. wp_simpl. split_and!; [done|done|].
    exists true, false. split_and!; [done|done|]. apply list_fmap_ext. intros i x Hx. unfold settle.
    case_decide as Hid; [rewrite decide_True by set_solver|by rewrite !decide_False by set_solver].
    by rewrite (Hsnap x (list_elem_of_lookup_2 _ _ _ Hx) Hid).
Qed.

Lemma ID_settle now clock c s d : ID (settle now clock c s d) = ID d.
Proof. unfold settle. by repeat case_decide. Qed.

(** Settling in two rounds that touch different deployments. *)
Lemma settle_settle now clock c1 s1 c2 s2 d :
  (∀ i, i ∈ c1 ++ s1 → i ∉ c2 ++ s2) →
  settle now clock c2 s2 (settle now clock c1 s1 d) = settle now clock (c1 ++ c2) (s1 ++ s2) d.
Proof.
  intros Hdis. specialize (Hdis (ID d)). rewrite !elem_of_app in Hdis.
  unfold settle at 1. rewrite ID_settle. unfold settle. repeat case_decide; set_solver.
Qed.

Lemma bill_all_no_fault now clock l : ∀ w, faults w = [] → NoDup (ID <$> l) →
  (∀ d x, d ∈ l → x ∈ billings w → ID x = ID d → x = d) →
  wp (bill_all sum_real now clock l) (λ r w', r = Ok tt ∧ faults w' = [] ∧ ∃ charged stopped,
    charged `sublist_of` l ∧ stopped `sublist_of` l ∧ (∀ d, d ∈ charged → d ∉ stopped) ∧
    credits w' = credits w ++ ((λ d, deduction d now) <$> charged) ∧
    billings w' = settle now clock (ID <$> charged) (ID <$> stopped) <$> billings w) w.
Proof.
  induction l as [|d l IH]; intros w Hf Hnd Hsnap; cbn [bill_all]; wp_simpl.
  { split_and!; [done|done|]. exists [], []. split_and!; [done|done|set_solver|by rewrite app_nil_r|].
    rewrite <-(list_fmap_id (billings w)) at 1. apply list_fmap_ext. intros i x _. unfold settle.
    by rewrite !decide_False by set_solver. }
  rewrite fmap_cons in Hnd. apply NoDup_cons in Hnd as [Hni Hnd].
  eapply wp_mono; [|apply bill_one_no_fault; [done|intros x Hx; apply Hsnap; set_solver]].
  intros r w1 (-> & Hf1 & c & s & Hcs & Hc1 & Hb1).
  eapply wp_mono; [|apply IH; [done|done|]].
  - intros r w2 (-> & Hf2 & ch & st & Hch & Hst & Hdis & Hc2 & Hb2). split_and!; [done|done|].
    exists ((if c then [d] else []) ++ ch), ((if s then [d] else []) ++ st).
    assert (∀ x, x ∈ ch ∨ x ∈ st → ID x ≠ ID d) as Hne.
    { intros x Hx Heq. apply Hni. rewrite <-Heq. apply list_elem_of_fmap_2.
      destruct Hx as [Hx|Hx]; [by eapply elem_of_sublist|by eapply elem_of_sublist]. }
    split_and!.
    + destruct c; simpl; [by constructor|by constructor].
    + destruct s; simpl; [by constructor|by constructor].
    + intros x [Hx|Hx]%elem_of_app [Hy|Hy]%elem_of_app.
      * destruct c, s; set_solver.
      * destruct c; [|set_solver]. apply list_elem_of_singleton in Hx as ->. by destruct (Hne d); [right|].
      * destruct s; [|set_solver]. apply list_elem_of_singleton in Hy as ->. by destruct (Hne d); [left|].
      * by eapply Hdis.
    + rewrite Hc2, Hc1, <-(assoc_L (++)), fmap_app. f_equal. f_equal. by destruct c.
    + rewrite Hb2, Hb1, <-list_fmap_compose. apply list_fmap_ext. intros i x _. simpl.
      rewrite settle_settle.
      * rewrite !fmap_app. by destruct c, s.
      * intros j Hj. assert (j = ID d) as -> by (destruct c, s; set_solver).
        rewrite elem_of_app, !list_elem_of_fmap. intros [(x' & Heq & Hx')|(x' & Heq & Hx')]; by destruct (Hne x'); [auto|].
  - intros d' x Hd' Hx Heq. rewrite Hb1 in Hx. apply list_elem_of_fmap in Hx as (x0 & -> & Hx0).
    rewrite ID_settle in Heq. assert (ID x0 ≠ ID d) as Hx0d.
    { intros He. apply Hni. rewrite <-He, Heq. by apply list_elem_of_fmap_2. }
    unfold settle. rewrite !decide_False by (destruct c, s; set_solver). by apply Hsnap; [set_solver| |].
Qed.

Lemma insert_by_id_perm d l : insert_by_id d l ≡ₚ d :: l.
Proof. induction l as [|x l IH]; simpl; [done|]. case_decide; [done|]. by rewrite IH, Permutation_swap. Qed.
Lemma order_by_id_perm l : order_by_id l ≡ₚ l.
Proof. induction l as [|d l IH]; simpl; [done|]. by rewrite insert_by_id_perm, IH. Qed.

Lemma NoDup_ids_eq l : NoDup (ID <$> l) → ∀ x y, x ∈ l → y ∈ l → ID x = ID y → x = y.
Proof.
  intros Hnd x y [i Hi]%list_elem_of_lookup_1 [j Hj]%list_elem_of_lookup_1 Heq.
  assert (i = j) as ->; [|congruence]. eapply NoDup_lookup; [done|by rewrite list_lookup_fmap, Hi|].
  by rewrite list_lookup_fmap, Hj, Heq.
Qed.

Lemma NoDup_running l : NoDup (ID <$> l) → NoDup (ID <$> order_by_id (filter (λ d, Status d = bs "running") l)).
Proof.
  intros Hnd. rewrite order_by_id_perm. induction l as [|d l IH]; [done|].
  rewrite fmap_cons in Hnd. apply NoDup_cons in Hnd as [Hni Hnd].
  destruct (decide (Status d = bs "running")) as [Hr|Hr].
  - rewrite filter_cons_True, fmap_cons by done. apply NoDup_cons. split; [|by apply IH].
    intros (x & Heq & [_ Hx]%list_elem_of_filter)%list_elem_of_fmap. apply Hni. rewrite Heq. by apply list_elem_of_fmap_2.
  - rewrite filter_cons_False by done. by apply IH.
Qed.

(** C5: when no call fails, a cycle partitions the running deployments it
    acts on into charged and stopped ones; every charge deducts the amount
    due from the owner's credits once, adds the same amount to the
    deployment's total and moves its billing time to now, so that the next
    cycle starts where this one ended; a stopped one is not charged, and no
    other row changes. *)
Theorem cycle_settles now clock w :
  faults w = [] → NoDup (ID <$> billings w) →
  ∃ w' charged stopped, runBillingCycle sum_real now clock w = (Ret tt, w') ∧
    (∀ d, d ∈ charged → d ∉ stopped) ∧
    (∀ d, d ∈ charged ++ stopped → d ∈ billings w ∧ Status d = bs "running") ∧ NoDup (ID <$> charged) ∧
    credits w' = credits w ++ ((λ d, deduction d now) <$> charged) ∧
    billings w' = settle now clock (ID <$> charged) (ID <$> stopped) <$> billings w.
Proof.
  intros Hf Hnd. set (running := order_by_id (filter (λ d, Status d = bs "running") (billings w))).
  assert (Hin : ∀ d, d ∈ running → d ∈ billings w ∧ Status d = bs "running").
  { intros d Hd. unfold running in Hd. rewrite order_by_id_perm in Hd. apply list_elem_of_filter in Hd. tauto. }
  assert (Hc : wp (runBillingCycle sum_real now clock) (λ r w', r = Ok tt ∧ faults w' = [] ∧ ∃ charged stopped,
    charged `sublist_of` running ∧ stopped `sublist_of` running ∧ (∀ d, d ∈ charged → d ∉ stopped) ∧
    credits w' = credits w ++ ((λ d, deduction d now) <$> charged) ∧
    billings w' = settle now clock (ID <$> charged) (ID <$> stopped) <$> billings w) w).
  { unfold runBillingCycle, ListRunning. wp_simpl. apply wp_no_fault; [done|]. wp_simpl. apply bill_all_no_fault; [done|by apply NoDup_running|].
    intros d x Hd Hx. apply NoDup_ids_eq with (billings w); [done..|by apply Hin]. }
  destruct (wp_run _ _ _ Hc) as (r & w' & Hrun & -> & _ & charged & stopped & Hch & Hst & Hdis & Hcr & Hb).
  exists w', charged, stopped. split_and!; [done|done| | |done|done].
  - intros d [Hd|Hd]%elem_of_app; apply Hin; by eapply elem_of_sublist.
  - by eapply sublist_NoDup; [apply NoDup_running|apply (fmap_sublist ID)].
Qed.

(** *** A failed record update *)

Lemma bill_one_update_fails now clock d bal w e fs :
  due now d → faults w = [None; None; None; Some e] ++ fs → Balance sum_real (UserID d) (set_faults [] w) = (Ret bal, set_faults [] w) →
  fleb bal fzero = false →
  bill_one sum_real now clock d w = (Ret tt, mk_world fs (credits w ++ [deduction d now]) (usage w) (billings w)).
Proof.
  intros [Hm Ha] Hf Hb Hpos. unfold bill_one. rewrite decide_False by lia. rewrite Ha.
  destruct w as [f cs us bl]. simpl in Hf. subst f.
  assert (Balance sum_real (UserID d) (mk_world ([None; None; None; Some e] ++ fs) cs us bl)
    = (Ret bal, mk_world ([None; Some e] ++ fs) cs us bl)) as Hbal.
  { unfold set_faults in Hb. simpl in Hb. injection Hb as <-. reflexivity. }
  rewrite (io_bind_run _ _ _ _ _ (io_try_run _ _ _ _ Hbal)). rewrite Hpos. reflexivity.
Qed.

(** The deduction and the record update are two separate writes. If the
    update fails after the deduction, the deployment keeps its old billing
    time, and the next cycle (with no failure at all) deducts the whole period
    since then again: the time up to the first cycle is charged twice. *)
Theorem update_failure_charges_again now1 now2 clock d cs us e bal1 bal2 :
  Status d = bs "running" → due now1 d → due now2 d →
  let w0 := mk_world [None; None; None; None; Some e] cs us [d] in
  let w1 := mk_world [] (cs ++ [deduction d now1]) us [d] in
  Balance sum_real (UserID d) (set_faults [] w0) = (Ret bal1, set_faults [] w0) → fleb bal1 fzero = false →
  Balance sum_real (UserID d) w1 = (Ret bal2, w1) → fleb bal2 fzero = false →
  runBillingCycle sum_real now1 clock w0 = (Ret tt, w1) ∧
  ∃ w2, runBillingCycle sum_real now2 clock w1 = (Ret tt, w2) ∧
    credits w2 = cs ++ [deduction d now1; deduction d now2] ∧
    AmountUSD (deduction d now1) = SFopp (fmul (PricePerHour d) (Hours (Sub now1 (LastBilledAt d)))) ∧
    AmountUSD (deduction d now2) = SFopp (fmul (PricePerHour d) (Hours (Sub now2 (LastBilledAt d)))).
Proof.
  intros Hst Hd1 Hd2 w0 w1 Hb1 Hp1 Hb2 Hp2. subst w0 w1.
  assert (Hone : ∀ f c us', ListRunning (mk_world (None :: f) c us' [d]) = (Ret [d], mk_world f c us' [d]) ∧
                     ListRunning (mk_world [] c us' [d]) = (Ret [d], mk_world [] c us' [d])).
  { intros. assert (order_by_id (filter (λ d, Status d = bs "running") [d]) = [d]) as Hd.
    { by rewrite (filter_cons_True _ d []) by done. }
    rewrite <-Hd at 2 5. done. }
  split.
  - unfold runBillingCycle. rewrite (io_bind_run _ _ _ _ _ (io_try_run _ _ _ _ (proj1 (Hone _ _ _)))). cbn [bill_all].
    by rewrite (io_bind_run _ _ _ _ _ (bill_one_update_fails now1 clock d bal1 (mk_world [None; None; None; Some e] cs us [d]) e [] Hd1 eq_refl Hb1 Hp1)).
  - unfold runBillingCycle. rewrite (io_bind_run _ _ _ _ _ (io_try_run _ _ _ _ (proj2 (Hone [] _ _)))). cbn [bill_all].
    assert (∃ w2, bill_one sum_real now2 clock d (mk_world [] (cs ++ [deduction d now1]) us [d]) = (Ret tt, w2) ∧ credits w2 = cs ++ [deduction d now1; deduction d now2]) as (w2 & Hrun & Hc).
    { unfold bill_one. destruct Hd2 as [Hm Ha]. rewrite decide_False by lia. rewrite Ha.
      rewrite (io_bind_run _ _ _ _ _ (io_try_run _ _ _ _ Hb2)), Hp2. eexists. split; [reflexivity|].
      simpl. by rewrite <-(assoc_L (++)). }
    rewrite (io_bind_run _ _ _ _ _ Hrun). by exists w2.
Qed.
End spec.

(** ** Witnesses *)

(** A deployment at 3 USD an hour, an hour after it was last billed, whose
    owner has 100 USD. *)
Definition sample_deployment : DeploymentBilling :=
  mk_billing 7 1 (bs "ann") (bs "llm") (bs "a100") (float_of_Z 3) (bs "running") None 0 fzero.
Definition sample_credit : UserCredit := mk_credit 1 (bs "ann") (float_of_Z 100) [] (bs "admin") 0.

Lemma cycle_settles_witness :
  ∃ w' charged stopped, runBillingCycle (foldl fadd fzero) Hour (λ _, Hour) (mk_world [] [sample_credit] [] [sample_deployment]) = (Ret tt, w') ∧
    (∀ d, d ∈ charged → d ∉ stopped) ∧
    (∀ d, d ∈ charged ++ stopped → d ∈ [sample_deployment] ∧ Status d = bs "running") ∧ NoDup (ID <$> charged) ∧
    credits w' = [sample_credit] ++ ((λ d, deduction d Hour) <$> charged) ∧
    billings w' = settle Hour (λ _, Hour) (ID <$> charged) (ID <$> stopped) <$> [sample_deployment].
Proof.
  apply (cycle_settles (foldl fadd fzero) Hour (λ _, Hour) (mk_world [] [sample_credit] [] [sample_deployment])); [reflexivity|].
  apply NoDup_singleton.
Defined.

Lemma update_failure_charges_again_witness :
  runBillingCycle (foldl fadd fzero) Hour (λ _, 0) (mk_world [None; None; None; None; Some (bs "timeout")] [sample_credit] [] [sample_deployment])
    = (Ret tt, mk_world [] [sample_credit; deduction sample_deployment Hour] [] [sample_deployment]) ∧
  ∃ w2, runBillingCycle (foldl fadd fzero) (2 * Hour) (λ _, 0) (mk_world [] [sample_credit; deduction sample_deployment Hour] [] [sample_deployment]) = (Ret tt, w2) ∧
    credits w2 = [sample_credit; deduction sample_deployment Hour; deduction sample_deployment (2 * Hour)] ∧
    AmountUSD (deduction sample_deployment Hour) = SFopp (fmul (float_of_Z 3) (Hours (Sub Hour 0))) ∧
    AmountUSD (deduction sample_deployment (2 * Hour)) = SFopp (fmul (float_of_Z 3) (Hours (Sub (2 * Hour) 0))).
Proof.
  apply (update_failure_charges_again (foldl fadd fzero) Hour (2 * Hour) (λ _, 0) sample_deployment [sample_credit] [] (bs "timeout")
    (float_of_Z 100) (float_of_Z 97)); try reflexivity; split; try reflexivity; vm_compute; discriminate.
Defined.
