(* ===== verification/EnergySources.v ===== *)
(** The sources the energy aggregator reads: Prometheus queries for energy,
    power and tokens (energy/prom), output tokens from the metering ledger
    (energy/metering) and the list of running deployments
    (energy/deploylister). HTTP and the database are parameters. *)
From S2P Require Import Prelude GoLib GoFloat GoJson EnergyCore Accounting.
Open Scope Z_scope.

(** ** The aggregator's view (energy/aggregator) *)

Record Scope := mk_scope { sc_Namespace : bytes; PodSelector : bytes; sc_Node : bytes }.

Record Deployment := mk_deployment {
  d_ID : Z; d_Cluster : bytes; d_Namespace : bytes; d_Node : bytes; d_Workload : bytes; d_Model : bytes;
  d_Hardware : bytes; d_Precision : bytes; d_Team : bytes; d_CostCentre : bytes; d_Scope : Scope; MeteringKey : bytes;
}.

(** The interfaces; times are nanoseconds. *)
Record EnergySource := mk_energy_source {
  WindowJoules : Scope → Z → Z → result float64 bytes;
  IdlePower : Scope → result float64 bytes;
  es_Name : bytes;
}.
Record TokenSource := mk_token_source {
  WindowTokens : bytes → Z → Z → result Z bytes;
  ts_Name : bytes;
}.

(** ** prom/client.go *)

Section prom.
(** An HTTP GET with an optional Authorization header: status and body. *)
Variable http_get : bytes → option bytes → result (Z * bytes) bytes.
(** [unicode.IsPrint] beyond ASCII, and the text of a time. *)
Variable is_print : Z → bool.
Variable fmt_time : Z → bytes.
(** What the conversion of a float outside the range of [uint64] yields. *)
Variable u64_of_wild : float64 → Z.

Record client := mk_client { cl_url : bytes; basicAuth : bytes }.

Fixpoint trim_right_slashes (rev : bytes) : bytes :=
  match rev with "/"%char :: r => trim_right_slashes r | _ => rev end.
Definition NewClient (apiAddress basicAuth : bytes) : client :=
  mk_client (reverse (trim_right_slashes (reverse apiAddress))) basicAuth.

Definition parsePromValue (raw : json) : result float64 bytes :=
  match raw with
  | JStr s => match ParseFloat s with Some f => Ok f | None => Err (bs "parse prometheus float " ++ Quote is_print s) end
  | JNull => Err (bs "parse prometheus float " ++ Quote is_print [])
  | _ => Err (bs "parse prometheus value")
  end.

(** A sample of a vector: the elements of its [value], [None] on a type error. *)
Definition sample_value (j : json) : option (list json) :=
  match j with JObj _ => array_field (bs "value") j | JNull => Some [] | _ => None end.

Fixpoint sum_samples (total : float64) (samples : list (list json)) : result float64 bytes :=
  match samples with
  | [] => Ok total
  | [_; v] :: rest => match parsePromValue v with Err e => Err e | Ok f => sum_samples (fadd total f) rest end
  | _ :: rest => sum_samples total rest
  end.

(** [raw] is [None] when the reply has no result. *)
Definition sumResult (resultType : bytes) (raw : option json) : result float64 bytes :=
  if decide (resultType = bs "vector") then
    match raw with
    | Some (JArr l) => match mapM sample_value l with
                       | Some samples => sum_samples fzero samples
                       | None => Err (bs "decode vector result")
                       end
    | Some JNull => Ok fzero
    | _ => Err (bs "decode vector result")
    end
  else if decide (resultType = bs "scalar") then
    match raw with
    | Some (JArr [_; v]) => parsePromValue v
    | Some (JArr _ | JNull) => Ok fzero
    | _ => Err (bs "decode scalar result")
    end
  else Ok fzero.

Definition endpoint (c : client) (query : bytes) (at_ : option Z) : bytes :=
  cl_url c ++ bs "/api/v1/query?query=" ++ QueryEscape query ++
  match at_ with Some t => bs "&time=" ++ Itoa (t / 1000000000) | None => [] end.

(** [at_] is [None] for the zero time. *)
Definition Query (c : client) (query : bytes) (at_ : option Z) : result float64 bytes :=
  let auth := if decide (basicAuth c = []) then None else Some (bs "Basic " ++ basicAuth c) in
  match http_get (endpoint c query at_) auth with
  | Err e => Err (bs "send prometheus query: " ++ e)
  | Ok (status, body) =>
      if decide (status ≠ 200) then Err (bs "prometheus query status " ++ Itoa status ++ bs ": " ++ body)
      else
        let decoded :=
          j ← parse_json body;
          j ← (match j with JObj _ | JNull => Some j | _ => None end);
          status ← string_field (bs "status") j;
          d ← object_field (bs "data") j;
          resultType ← string_field (bs "resultType") d;
          errorType ← string_field (bs "errorType") j;
          error ← string_field (bs "error") j;
          Some (status, resultType, field (bs "result") d, errorType, error) in
        match decoded with
        | None => Err (bs "decode prometheus response")
        | Some (status, resultType, raw, errorType, error) =>
            if decide (status ≠ bs "success") then Err (bs "prometheus query failed: " ++ errorType ++ bs ": " ++ error)
            else sumResult resultType raw
        end
  end.

(** ** prom/source.go *)

Record Config := mk_prom_config { EnergyMetric : bytes; PowerMetric : bytes; NamespaceLabel : bytes; PodLabel : bytes; NodeLabel : bytes }.

Definition or_default (s : bytes) (d : string) : bytes := if decide (s = []) then bs d else s.

Definition withDefaults (c : Config) : Config :=
  mk_prom_config (or_default (EnergyMetric c) "DCGM_FI_DEV_TOTAL_ENERGY_CONSUMPTION")
    (or_default (PowerMetric c) "DCGM_FI_DEV_POWER_USAGE")
    (or_default (NamespaceLabel c) "namespace") (or_default (PodLabel c) "pod") (or_default (NodeLabel c) "Hostname").

Definition metricSelector (cfg : Config) (metric : bytes) (scope : Scope) : bytes :=
  let parts :=
    (if decide (sc_Namespace scope ≠ []) then [NamespaceLabel cfg ++ bs "=" ++ Quote is_print (sc_Namespace scope)] else []) ++
    (if decide (PodSelector scope ≠ []) then [PodLabel cfg ++ bs "=~" ++ Quote is_print (PodSelector scope)] else []) ++
    (if decide (sc_Node scope ≠ []) then [NodeLabel cfg ++ bs "=" ++ Quote is_print (sc_Node scope)] else []) in
  match parts with
  | [] => metric
  | _ => metric ++ bs "{" ++ Join parts (bs ",") ++ bs "}"
  end.

(** [d.Seconds()], truncated. *)
Definition whole_seconds (d : Z) : Z :=
  default 0 (ftrunc (fadd (float_of_Z (d ÷ 1000000000)) (fdiv (float_of_Z (d `rem` 1000000000)) (float_of_Z 1000000000)))).
Definition promDuration (d : Z) : bytes :=
  let secs := whole_seconds d in
  Itoa (if decide (secs < 1) then 1 else secs) ++ bs "s".

Definition prom_WindowJoules (c : client) (cfg : Config) (scope : Scope) (start end_ : Z) : result float64 bytes :=
  let dur := end_ - start in
  if decide (dur ≤ 0) then Err (bs "prom: invalid window [" ++ fmt_time start ++ bs ", " ++ fmt_time end_ ++ bs "]") else
  let query := bs "sum(increase(" ++ metricSelector cfg (EnergyMetric cfg) scope ++ bs "[" ++ promDuration dur ++ bs "]))" in
  match Query c query (Some end_) with
  | Err e => Err e
  | Ok milliJoules =>
      let joules := fdiv milliJoules (float_of_Z 1000) in
      Ok (if fltb joules fzero then fzero else joules)
  end.

Definition prom_IdlePower (c : client) (cfg : Config) (scope : Scope) : result float64 bytes :=
  Query c (bs "sum(" ++ metricSelector cfg (PowerMetric cfg) scope ++ bs ")") None.

Definition NewSource (c : client) (cfg : Config) : EnergySource :=
  let cfg := withDefaults cfg in
  mk_energy_source (prom_WindowJoules c cfg) (prom_IdlePower c cfg) (bs "dcgm").

(** ** prom/tokens.go *)

Record TokenConfig := mk_token_config { TokensMetric : bytes; KeyLabel : bytes }.

Definition token_withDefaults (c : TokenConfig) : TokenConfig :=
  mk_token_config (or_default (TokensMetric c) "vllm:generation_tokens_total") (or_default (KeyLabel c) "model_name").

Definition selector (cfg : TokenConfig) (meteringKey : bytes) : bytes :=
  if decide (meteringKey = []) then TokensMetric cfg
  else TokensMetric cfg ++ bs "{" ++ KeyLabel cfg ++ bs "=" ++ Quote is_print meteringKey ++ bs "}".

(** [uint64(v)] of a float that is not negative. *)
Definition float_to_u64 (v : float64) : Z :=
  match ftrunc v with
  | Some z => if decide (0 ≤ z < 2 ^ 64) then z else u64_of_wild v
  | None => u64_of_wild v
  end.

Definition prom_WindowTokens (c : client) (cfg : TokenConfig) (meteringKey : bytes) (start end_ : Z) : result Z bytes :=
  let dur := end_ - start in
  if decide (dur ≤ 0) then Err (bs "prom: invalid token window [" ++ fmt_time start ++ bs ", " ++ fmt_time end_ ++ bs "]") else
  let query := bs "sum(increase(" ++ selector cfg meteringKey ++ bs "[" ++ promDuration dur ++ bs "]))" in
  match Query c query (Some end_) with
  | Err e => Err e
  | Ok v => let v := if fltb v fzero then fzero else v in Ok (float_to_u64 v)
  end.

Definition NewTokenSource (c : client) (cfg : TokenConfig) (name : bytes) : TokenSource :=
  mk_token_source (prom_WindowTokens c (token_withDefaults cfg)) (or_default name "generic-prometheus").

End prom.

(** ** metering/source.go *)

(** [None] is an error, which the caller skips. *)
Definition outputTokens (extra : bytes) : option Z :=
  if decide (extra = []) then Some 0 else
  j ← parse_json extra;
  j ← (match j with JObj _ | JNull => Some j | _ => None end);
  s ← string_field (bs "completion_token_num") j;
  if decide (s = []) then Some 0 else ParseUint s.

(** The rows [ListTokenRows] selects. *)
Definition token_rows (customerID : bytes) (start end_ : Z) (l : list AccountMetering) : list AccountMetering :=
  filter (λ m, CustomerID m = customerID ∧ ValueType m = TokenNumberType ∧ start ≤ RecordedAt m < end_) l.

Definition ListTokenRows (db_err : option bytes) (db : list AccountMetering) (customerID : bytes) (start end_ : Z) : result (list bytes) bytes :=
  match db_err with
  | Some e => Err (bs "list token metering rows: " ++ e)
  | None => Ok (Extra <$> token_rows customerID start end_ db)
  end.

Definition sum_tokens (extras : list bytes) : Z :=
  foldl (λ total extra, match outputTokens extra with Some out => u64 (total + out) | None => total end) 0 extras.

Definition metering_WindowTokens (db_err : option bytes) (db : list AccountMetering) (meteringKey : bytes) (start end_ : Z) : result Z bytes :=
  if decide (meteringKey = []) then Ok 0 else
  match ListTokenRows db_err db meteringKey start end_ with
  | Err e => Err e
  | Ok rows => Ok (sum_tokens rows)
  end.

Definition NewSourceWithDB (db_err : option bytes) (db : list AccountMetering) : TokenSource :=
  mk_token_source (metering_WindowTokens db_err db) (bs "account_metering").

(** ** deploylister/deploylister.go *)

(** The columns of a deploy row the lister reads. *)
Record Deploy := mk_deploy {
  dp_ID : Z; ClusterID : bytes; OwnerNamespace : bytes; ClusterNode : bytes; GitPath : bytes; SKU : bytes;
  SvcName : bytes; dp_Status : Z; dp_Type : Z;
}.

Definition podSelector (svcName : bytes) : bytes :=
  if decide (svcName = []) then [] else bs "^" ++ svcName ++ bs "-".

Definition toDeployment (d : Deploy) : Deployment :=
  {| d_ID := dp_ID d; d_Cluster := ClusterID d; d_Namespace := OwnerNamespace d; d_Node := ClusterNode d;
     d_Workload := []; d_Model := GitPath d; d_Hardware := SKU d; d_Precision := []; d_Team := []; d_CostCentre := [];
     d_Scope := mk_scope [] (podSelector (SvcName d)) []; MeteringKey := SvcName d |}.

Definition ListRunningInference (db_err : option bytes) (runningStatus : Z) (inferenceTypes : list Z) (db : list Deploy) : result (list Deploy) bytes :=
  match db_err with
  | Some e => Err (bs "list running inference deployments: " ++ e)
  | None => Ok (filter (λ d, dp_Status d = runningStatus ∧ dp_Type d ∈ inferenceTypes) db)
  end.

Definition ListRunning (db_err : option bytes) (runningStatus : Z) (inferenceTypes : list Z) (db : list Deploy) : result (list Deployment) bytes :=
  match ListRunningInference db_err runningStatus inferenceTypes db with
  | Err e => Err e
  | Ok deploys => Ok (toDeployment <$> deploys)
  end.

Example outputTokens_ex : outputTokens (bs "{" ++ jstr "completion_token_num" ++ bs ":" ++ jstr "42" ++ bs "}") = Some 42.
Proof. vm_compute. reflexivity. Qed.
Example promDuration_ex : promDuration (60 * 1000000000) = bs "60s" ∧ promDuration 5 = bs "1s".
Proof. split; vm_compute; reflexivity. Qed.
