(* ===== verification/EnergyAgg.v ===== *)
(** The measurement cycle (energy/aggregator), the Prometheus sink
    (energy/metrics) and the wiring (energy/service). The aggregator is
    written against the source and storage interfaces; its trackers, what it
    published and its storage are its state. *)
From S2P Require Import Prelude GoLib GoFloat EnergyCore EnergySources.
Open Scope Z_scope.

(** ** metrics/metrics.go *)

Inductive gauge := GJPerToken | GCV | GStable | GTokensPerJoule | GCO2 | GCost | GIdlePower.
Inductive counter := CNsEnergy | CNsTokens.

(** The registry: gauges and counters by name and label values. *)
Record metrics := mk_metrics { gauges : list ((gauge * list bytes) * float64); counters : list ((counter * list bytes) * float64) }.

Record PrometheusSink := mk_sink { site : SiteParams; carbonLabel : bytes; costLabel : bytes }.

(** [WithLabelValues(ls).Set(v)]: the latest value is in front. *)
Definition Set_ (g : gauge) (ls : list bytes) (v : float64) (m : metrics) : metrics :=
  mk_metrics (((g, ls), v) :: gauges m) (counters m).
Definition Add_ (c : counter) (ls : list bytes) (v : float64) (m : metrics) : metrics :=
  mk_metrics (gauges m) (((c, ls), v) :: counters m).

Definition Observe (s : PrometheusSink) (r : MeasurementRecord) (m : metrics) : metrics :=
  let series := [Namespace r; Workload r; Model r; Hardware r] in
  let m := Set_ GJPerToken (series ++ [Precision r; CalibrationTier r; AttributionMethod r]) (rec_JPerToken r) m in
  let m := Set_ GCV [Node r; Model r] (rec_CV r) m in
  let m := Set_ GStable [Node r; Model r] (if Stable r then float_of_Z 1 else fzero) m in
  let m := Set_ GTokensPerJoule series (TokensPerJoule (rec_JPerToken r)) m in
  let m := Set_ GCO2 (series ++ [carbonLabel s]) (CO2PerTokenGrams (rec_JPerToken r) (site s)) m in
  let m := Set_ GCost (series ++ [costLabel s]) (CostPerMillionTokensUSD (rec_JPerToken r) (site s)) m in
  let m := Add_ CNsEnergy [Namespace r; AttributionMethod r] (EnergyJoules r) m in
  Add_ CNsTokens [Namespace r] (float_of_Z (OutputTokens r)) m.

Definition ObserveIdle (node : bytes) (watts : float64) (m : metrics) : metrics := Set_ GIdlePower [node] watts m.

(** ** aggregator/aggregator.go *)

Record AggConfig := mk_agg_config { Window : Z; CycleTimeout : Z; CVWindowSize : Z; CVThreshold : float64 }.

Definition agg_withDefaults (c : AggConfig) : AggConfig :=
  mk_agg_config (if decide (Window c ≤ 0) then 60 * 1000000000 else Window c)
    (if decide (CycleTimeout c ≤ 0) then 2 * 60 * 1000000000 else CycleTimeout c)
    (if decide (CVWindowSize c ≤ 0) then 100 else CVWindowSize c)
    (if fleb (CVThreshold c) fzero then DefaultCVThreshold else CVThreshold c).

(** What the aggregator tells its sink. *)
Inductive sink_event := Observed (r : MeasurementRecord) | Idle (node : bytes) (watts : float64).

Section aggregator.
Context {St : Type} `{StorageBackend St}.
Variable energy : EnergySource.
Variable tokens : TokenSource.

Record Aggregator := mk_agg {
  cfg : AggConfig;
  cvt : gmap bytes CVTracker;
  sink : list sink_event;
  storage : option St;
}.

Definition New (c : AggConfig) (s : option St) : Aggregator := mk_agg (agg_withDefaults c) ∅ [] s.

Definition tracker_key (model node : bytes) : bytes := model ++ ["000"%char] ++ node.

Definition trackerFor (model node : bytes) (a : Aggregator) : CVTracker :=
  default (NewCVTracker (CVWindowSize (cfg a))) (cvt a !! tracker_key model node).

Definition set_tracker (model node : bytes) (t : CVTracker) (a : Aggregator) : Aggregator :=
  mk_agg (cfg a) (<[tracker_key model node := t]> (cvt a)) (sink a) (storage a).
Definition emit (e : sink_event) (a : Aggregator) : Aggregator :=
  mk_agg (cfg a) (cvt a) (sink a ++ [e]) (storage a).

(** [None] is a panic of the tracker. *)
Definition measureOne (d : Deployment) (start now : Z) (a : Aggregator) : option (option MeasurementRecord * Aggregator) :=
  match WindowJoules energy (d_Scope d) start now with
  | Err _ => Some (None, a)
  | Ok joules =>
      match WindowTokens tokens (MeteringKey d) start now with
      | Err _ => Some (None, a)
      | Ok toks =>
          if decide (toks = 0) then
            match IdlePower energy (d_Scope d) with
            | Ok watts => Some (None, emit (Idle (d_Node d) watts) a)
            | Err _ => Some (None, a)
            end
          else
            let jpt := JPerToken joules toks in
            tracker ← Add jpt (trackerFor (d_Model d) (d_Node d) a);
            let a := set_tracker (d_Model d) (d_Node d) tracker a in
            match ComputeRecord {|
                in_TimestampUnixMs := UnixMilli now; in_Cluster := d_Cluster d; in_Node := d_Node d;
                in_Namespace := d_Namespace d; in_Workload := d_Workload d; in_Model := d_Model d;
                in_Hardware := d_Hardware d; in_Precision := d_Precision d; in_Team := d_Team d;
                in_CostCentre := d_CostCentre d; in_EnergyJoules := joules; in_OutputTokens := toks;
                in_AttributionMethod := AttributionDirect; in_CalibrationTier := [];
                in_EnergyProvider := es_Name energy; in_InferenceProvider := ts_Name tokens |}
              (CV tracker) (CVThreshold (cfg a)) with
            | Err _ => Some (None, a)
            | Ok rec => Some (Some rec, emit (Observed rec) a)
            end
      end
  end.

Definition persist (batch : list MeasurementRecord) (a : Aggregator) : Aggregator :=
  match storage a with
  | None => a
  | Some s => if decide (len batch = 0) then a
              else mk_agg (cfg a) (cvt a) (sink a) (Some (WriteBatch batch s).2)
  end.

(** The loop of [RunCycle]; [ctx_err k] is what [ctx.Err()] answers before the
    k-th deployment. *)
Fixpoint cycle_loop (ctx_err : nat → option bytes) (k : nat) (deps : list Deployment) (start now : Z)
    (batch : list MeasurementRecord) (a : Aggregator) : option (result (list MeasurementRecord) bytes * Aggregator) :=
  match deps with
  | [] => Some (Ok batch, a)
  | d :: deps' =>
      match ctx_err k with
      | Some e => Some (Err e, a)
      | None =>
          '(rec, a) ← measureOne d start now a;
          cycle_loop ctx_err (S k) deps' start now (batch ++ match rec with Some r => [r] | None => [] end) a
      end
  end.

Definition RunCycle (deps : result (list Deployment) bytes) (ctx_err : nat → option bytes) (now : Z) (a : Aggregator) :
    option (result unit bytes * Aggregator) :=
  let start := now - Window (cfg a) in
  match deps with
  | Err e => Some (Err (bs "list running deployments: " ++ e), a)
  | Ok deps =>
      '(r, a) ← cycle_loop ctx_err 0 deps start now [] a;
      match r with
      | Err e => Some (Err e, a)
      | Ok batch => Some (Ok tt, persist batch a)
      end
  end.

End aggregator.
Arguments Aggregator : clear implicits.

(** ** service/service.go *)

Section service.
Context {P : Type} (apply : (gmap bytes bytes → result P provider_error) → gmap bytes bytes → result P provider_error).

(** [None] runs metrics-only: no backend asked for, or it failed to open. *)
Definition openStorage (StorageBackend_ StoragePath : bytes) (registry : gmap bytes (gmap bytes bytes → result P provider_error)) : option P :=
  if decide (StorageBackend_ = [] ∨ StorageBackend_ = bs "none") then None
  else match NewFromFactory apply (bs "StorageBackend") StorageBackend_ {[ bs "path" := StoragePath ]} registry with
       | Err _ => None
       | Ok s => Some s
       end.
End service.
