(* ===== verification/EnergySpec.v ===== *)
(** Guarantees of the energy meter: the tracker is the window of the last
    samples, a cycle publishes and persists the same honest records and never
    stalls on one deployment, the two storage backends agree, and the pod
    selector of the deployment lister cannot match a pod. *)
From S2P Require Import Prelude GoLib GoFloat GoJson EnergyCore Accounting EnergySources EnergyAgg.
Open Scope Z_scope.

(** ** The rolling tracker *)

Definition add_all (xs : list float64) (c : CVTracker) : option CVTracker :=
  foldl (λ c x, c ← c; Add x c) (Some c) xs.

(** The last [n] elements. *)
Definition last_n {A} (n : nat) (l : list A) : list A := drop (length l - n) l.

(** The buffer read from the oldest sample on. *)
Definition in_order (c : CVTracker) : list float64 :=
  drop (Z.to_nat (next c)) (buf c) ++ take (Z.to_nat (next c)) (buf c).

Definition tracker_ok (c : CVTracker) : Prop :=
  0 < size c ∧ len (buf c) ≤ size c ∧ 0 ≤ next c < size c ∧ (len (buf c) < size c → next c = 0).

Lemma NewCVTracker_ok n : tracker_ok (NewCVTracker n) ∧ size (NewCVTracker n) = if decide (n ≤ 0) then 100 else n.
Proof. unfold tracker_ok, NewCVTracker, len. simpl. case_decide; split_and!; simpl; lia. Qed.

Lemma length_in_order c : length (in_order c) = length (buf c).
Proof. unfold in_order. rewrite length_app, length_drop, length_take. lia. Qed.

Lemma list_lookup_middle_split {A} (l : list A) i x : l !! i = Some x →
  ∃ l1 l2, l = l1 ++ x :: l2 ∧ length l1 = i.
Proof.
  intros Hx. exists (take i l), (drop (S i) l). split; [by rewrite take_drop_middle|].
  rewrite length_take. apply lookup_lt_Some in Hx. lia.
Qed.

(** Overwriting the oldest sample of a full buffer and stepping past it. *)
Lemma rotate_middle l1 x l2 v f : let b := l1 ++ x :: l2 in
  in_order (mk_tracker (Z.of_nat (length b)) (<[length l1 := v]> b) ((Z.of_nat (length l1) + 1) `rem` Z.of_nat (length b)) f)
  = last_n (length b) ((drop (length l1) b ++ take (length l1) b) ++ [v]).
Proof.
  intros b. unfold b, in_order, last_n. simpl. rewrite drop_app_length, take_app_length.
  replace (<[length l1:=v]> (l1 ++ x :: l2)) with (l1 ++ v :: l2).
  2:{ rewrite <-(Nat.add_0_r (length l1)), insert_app_r. done. }
  rewrite !length_app. simpl.
  replace (S (length l2 + length l1 + 1) - (length l1 + S (length l2)))%nat with 1%nat by lia. simpl.
  destruct l2 as [|y l2].
  - replace (Z.of_nat (length l1) + 1) with (Z.of_nat (length l1 + 1)) by lia. simpl length. rewrite Z.rem_same by lia.
    simpl. by rewrite app_nil_r.
  - rewrite Z.rem_small by (simpl; lia).
    replace (Z.to_nat (Z.of_nat (length l1) + 1)) with (length (l1 ++ [v])) by (rewrite length_app; simpl; lia).
    replace (l1 ++ v :: y :: l2) with ((l1 ++ [v]) ++ y :: l2) by by rewrite <-(assoc_L (++)).
    by rewrite drop_app_length, take_app_length, (assoc_L (++)).
Qed.

(** Adding a sample drops the oldest one when the buffer is full. *)
Lemma Add_spec v c : tracker_ok c → ∃ c', Add v c = Some c' ∧ tracker_ok c' ∧ size c' = size c ∧
  in_order c' = last_n (Z.to_nat (size c)) (in_order c ++ [v]).
Proof.
  intros (Hs & Hb & Hn & Hz). unfold Add, len in *. case_decide as Hlt.
  - eexists. split_and!; [done| |done|].
    + unfold tracker_ok, len. simpl. rewrite length_app. simpl. split_and!; lia.
    + rewrite Hz by lia. unfold in_order, last_n. simpl. rewrite Hz by lia. change (Z.to_nat 0) with 0%nat.
      rewrite !drop_0, !take_0, !app_nil_r, length_app. simpl.
      by replace (_ - _)%nat with 0%nat by lia.
  - rewrite decide_True by lia. eexists. split_and!; [done| |done|].
    + unfold tracker_ok, len. simpl. rewrite length_insert. pose proof (Z.rem_bound_pos (next c + 1) (size c)). split_and!; lia.
    + destruct c as [n b k f]. simpl in *. assert (n = Z.of_nat (length b)) as -> by lia. rewrite Nat2Z.id in *.
      assert (∃ i, k = Z.of_nat i) as [i ->] by (exists (Z.to_nat k); lia). rewrite Nat2Z.id in *.
      assert (i < length b)%nat as Hi by lia. clear Hlt Hb Hz Hn.
      destruct (lookup_lt_is_Some_2 b i Hi) as [x Hx].
      destruct (list_lookup_middle_split b i x Hx) as (l1 & l2 & -> & <-).
      rewrite rotate_middle. unfold in_order. simpl. by rewrite Nat2Z.id.
Qed.

Lemma last_n_snoc {A} n (l : list A) x : last_n n (last_n n l ++ [x]) = last_n n (l ++ [x]).
Proof.
  unfold last_n. rewrite !length_app, length_drop. simpl.
  destruct (decide (length l ≤ n)%nat).
  - replace (length l - n)%nat with 0%nat by lia. by rewrite drop_0, Nat.sub_0_r.
  - replace (length l - (length l - n) + 1 - n)%nat with 1%nat by lia.
    rewrite !drop_app, !length_drop, drop_drop. f_equal; f_equal; lia.
Qed.

Lemma add_all_spec xs : ∀ c hist, tracker_ok c → in_order c = last_n (Z.to_nat (size c)) hist →
  ∃ c', add_all xs c = Some c' ∧ tracker_ok c' ∧ size c' = size c ∧
    in_order c' = last_n (Z.to_nat (size c)) (hist ++ xs).
Proof.
  induction xs as [|x xs IH]; intros c hist Hok Hin.
  - exists c. by rewrite app_nil_r.
  - destruct (Add_spec x c Hok) as (c1 & Hadd & Hok1 & Hs1 & Hin1).
    rewrite Hin, last_n_snoc, <-Hs1 in Hin1. destruct (IH c1 _ Hok1 Hin1) as (c2 & Hall & Hok2 & Hs2 & Hin2).
    exists c2. split_and!; [|done|congruence|].
    + unfold add_all in *. simpl. by rewrite Hadd.
    + by rewrite Hin2, Hs1, <-(assoc_L (++)).
Qed.

(** A tracker of any configured size never panics and, read from its
    oldest entry on, always holds exactly the last [size] samples in the order
    they were added (100 of them when the configured size is not positive). *)
Theorem tracker_holds_last_samples n xs :
  ∃ c, add_all xs (NewCVTracker n) = Some c ∧
    in_order c = last_n (Z.to_nat (if decide (n ≤ 0) then 100 else n)) xs ∧
    Len c = Z.min (len xs) (if decide (n ≤ 0) then 100 else n).
Proof.
  destruct (NewCVTracker_ok n) as [Hok Hs].
  destruct (add_all_spec xs (NewCVTracker n) [] Hok eq_refl) as (c & Hall & Hok' & Hs' & Hin).
  rewrite Hs in Hin. exists c. split_and!; [done|done|].
  unfold Len, len. rewrite <-length_in_order, Hin. unfold last_n. rewrite length_drop. simpl. case_decide; lia.
Qed.

(** ** The measurement cycle *)

(** The records among sink events. *)
Definition observed (l : list sink_event) : list MeasurementRecord :=
  l ≫= λ e, match e with Observed r => [r] | Idle _ _ => [] end.

Section cycle.
Context {St : Type} {SB : StorageBackend St} {SL : StorageLaws St}.
Variable energy : EnergySource.
Variable tokens : TokenSource.
(** Token counts are [uint64] values. *)
Hypothesis tokens_u64 : ∀ k s e n, WindowTokens tokens k s e = Ok n → 0 ≤ n < 2 ^ 64.

(** The deployment has readings, output tokens and no negative energy. *)
Definition measurable (start now : Z) (d : Deployment) : bool :=
  match WindowJoules energy (d_Scope d) start now, WindowTokens tokens (MeteringKey d) start now with
  | Ok joules, Ok toks => bool_decide (toks ≠ 0) && negb (fltb joules fzero)
  | _, _ => false
  end.

(** [r] is the honest record of [d]. *)
Definition measured (start now : Z) (d : Deployment) (r : MeasurementRecord) : Prop :=
  ∃ joules toks, WindowJoules energy (d_Scope d) start now = Ok joules ∧ WindowTokens tokens (MeteringKey d) start now = Ok toks ∧
    toks ≠ 0 ∧ EnergyJoules r = joules ∧ OutputTokens r = toks ∧ rec_JPerToken r = fdiv joules (float_of_Z toks) ∧
    AttributionMethod r = AttributionDirect ∧ CalibrationTier r = CalibrationUncalibrated ∧
    Namespace r = d_Namespace d ∧ TimestampUnixMs r = UnixMilli now.

Definition trackers_ok (a : Aggregator St) : Prop := map_Forall (λ _ c, tracker_ok c) (cvt a).

(** Apart from trackers and sink nothing changes. *)
Definition same_store (a a' : Aggregator St) : Prop := cfg a' = cfg a ∧ storage a' = storage a.

Lemma trackerFor_ok a m n : trackers_ok a → tracker_ok (trackerFor m n a).
Proof.
  intros Hok. unfold trackerFor. destruct (cvt a !! _) as [c|] eqn:Hc; simpl; [by apply (Hok _ _ Hc)|]. apply NewCVTracker_ok.
Qed.

Lemma measureOne_spec d start now a : trackers_ok a →
  ∃ rec a' evs, measureOne energy tokens d start now a = Some (rec, a') ∧ trackers_ok a' ∧ same_store a a' ∧
    sink a' = sink a ++ evs ∧ observed evs = option_list rec ∧
    (if measurable start now d then ∃ r, rec = Some r ∧ measured start now d r else rec = None).
Proof.
  intros Hok. unfold measureOne, measurable.
  destruct (WindowJoules energy (d_Scope d) start now) as [joules|e] eqn:HJ;
    [|by exists None, a, []; rewrite app_nil_r].
  destruct (WindowTokens tokens (MeteringKey d) start now) as [toks|e] eqn:HT;
    [|by exists None, a, []; rewrite app_nil_r].
  case_decide as Htoks; [rewrite bool_decide_eq_false_2 by tauto|rewrite bool_decide_eq_true_2 by done]; simpl.
  { destruct (IdlePower energy (d_Scope d)) as [watts|e]; [by eexists None, _, [_]|by exists None, a, []; rewrite app_nil_r]. }
  destruct (Add_spec (JPerToken joules toks) (trackerFor (d_Model d) (d_Node d) a)) as (c & -> & Hc & _ & _); [by apply trackerFor_ok|].
  rewrite bind_some. assert (trackers_ok (set_tracker (d_Model d) (d_Node d) c a)) as Hok' by by apply map_Forall_insert_2.
  unfold ComputeRecord. cbn [in_AttributionMethod in_EnergyJoules in_OutputTokens in_CalibrationTier in_Workload].
  rewrite decide_False by done. destruct (fltb joules fzero) eqn:Hneg; cbn [negb].
  { exists None. eexists _, []. split_and!; [done|done|done|by rewrite app_nil_r|done|done]. }
  rewrite decide_False by done. eexists (Some _), _, [_]. split_and!; [done|done|done|done|done|].
  eexists. split; [done|]. exists joules, toks. split_and!; try done.
  cbn [rec_JPerToken]. unfold JPerToken. by rewrite decide_False.
Qed.

Lemma observed_app l k : observed (l ++ k) = observed l ++ observed k.
Proof. apply bind_app. Qed.

(** The loop processes a prefix of the deployments: all of them unless the
    context ends it. *)
Lemma cycle_loop_spec ctx_err start now deps : ∀ k batch a, trackers_ok a →
  ∃ r a' done_ rest new evs, cycle_loop energy tokens ctx_err k deps start now batch a = Some (r, a') ∧
    trackers_ok a' ∧ same_store a a' ∧ deps = done_ ++ rest ∧
    sink a' = sink a ++ evs ∧ observed evs = new ∧
    Forall2 (measured start now) (filter (λ d, measurable start now d = true) done_) new ∧
    match r with Ok b => b = batch ++ new ∧ rest = [] | Err e => ∃ j, ctx_err j = Some e end.
Proof.
  induction deps as [|d deps IH]; intros k batch a Hok; cbn [cycle_loop].
  { exists (Ok batch), a, [], [], [], []. rewrite !app_nil_r. by split_and!. }
  destruct (ctx_err k) as [e|] eqn:He.
  { exists (Err e), a, [], (d :: deps), [], []. rewrite !app_nil_r. split_and!; try done. by exists k. }
  destruct (measureOne_spec d start now a Hok) as (rec & a1 & evs1 & -> & Hok1 & [Hc1 Hs1] & Hk1 & Ho1 & Hm1). rewrite bind_some.
  destruct (IH (S k) (batch ++ match rec with Some r => [r] | None => [] end) a1 Hok1)
    as (r & a2 & done_ & rest & new & evs2 & -> & Hok2 & [Hc2 Hs2] & -> & Hk2 & Ho2 & Hf2 & Hr).
  exists r, a2, (d :: done_), rest, (option_list rec ++ new), (evs1 ++ evs2).
  split_and!; [done|done|split; congruence|done|by rewrite Hk2, Hk1, (assoc_L (++))|by rewrite observed_app, Ho1, Ho2| |].
  - destruct (measurable start now d) eqn:Hd.
    + destruct Hm1 as (r1 & -> & Hm1). rewrite filter_cons_True by done. by constructor.
    + subst rec. by rewrite filter_cons_False by (by rewrite Hd).
  - destruct r; [|done]. destruct Hr as [-> ->]. split; [|done]. rewrite <-(assoc_L (++)). by destruct rec.
Qed.

Lemma measured_u64 start now ds rs : Forall2 (measured start now) ds rs → Forall uint64_ok rs.
Proof.
  induction 1 as [|d r ds rs (j & t & _ & HT & _ & _ & Hr & _)]; constructor; [|done].
  unfold uint64_ok. rewrite Hr. by eapply tokens_u64.
Qed.

(** What one write of a batch of records does to the storage: an empty batch is
    not written at all, and the backend's answer decides about any other. *)
Definition batch_written (batch : list MeasurementRecord) (s s' : St) : Prop :=
  match batch with
  | [] => s' = s
  | _ => ∃ answer, WriteBatch batch s = (answer, s') ∧
      match answer with Ok _ => stored s' = stored s ++ batch | Err _ => stored s' = stored s end
  end.

Lemma persist_spec batch a s : Forall uint64_ok batch → storage a = Some s →
  ∃ s', storage (persist batch a) = Some s' ∧ batch_written batch s s'.
Proof.
  intros Hb Hs. unfold persist, batch_written. rewrite Hs. destruct batch as [|r batch]; [by exists s|].
  rewrite decide_False by (unfold len; simpl; lia). destruct (WriteBatch (r :: batch) s) as [[[]|e] s'] eqn:Hw; cbn [storage snd];
    exists s'; (split; [done|]); eexists; (split; [done|]).
  - by apply write_batch_law.
  - by eapply write_fail_law.
Qed.

(** C6: a measurement cycle over any running deployments, with any source
    failures and any storage backend that keeps the storage promises, never
    panics. It publishes exactly one record, in order, for each deployment
    that has an energy reading that is not negative and output tokens, with
    the window's energy over its tokens and the attribution filled in; other
    deployments are skipped without affecting the rest. If the cycle is not
    cut short by its context all deployments are covered, and the published
    records are written to the storage in one batch: when the backend accepts
    it, it holds exactly them besides what it held, and only when it refuses
    it are none of them stored. If the cycle is cut short, nothing is written. *)
Theorem cycle_publishes_and_persists deps ctx_err now a s :
  trackers_ok a → storage a = Some s →
  ∃ r a' done_ rest new evs s', RunCycle energy tokens (Ok deps) ctx_err now a = Some (r, a') ∧
    trackers_ok a' ∧ deps = done_ ++ rest ∧ sink a' = sink a ++ evs ∧ observed evs = new ∧
    (let start := now - Window (cfg a) in
     Forall2 (measured start now) (filter (λ d, measurable start now d = true) done_) new) ∧
    storage a' = Some s' ∧
    match r with
    | Ok _ => rest = [] ∧ batch_written new s s'
    | Err e => s' = s ∧ ∃ j, ctx_err j = Some e
    end.
Proof.
  intros Hok Hs. unfold RunCycle.
  destruct (cycle_loop_spec ctx_err (now - Window (cfg a)) now deps 0%nat [] a Hok)
    as (r & a1 & done_ & rest & new & evs & -> & Hok1 & [Hc1 Hs1] & Hd & Hk & Ho & Hf & Hr). rewrite bind_some.
  destruct r as [b|e].
  - destruct Hr as [-> ->]. destruct (persist_spec new a1 s) as (s' & Hs' & Hst); [by eapply measured_u64|congruence|].
    eexists (Ok tt), _, done_, [], new, evs, s'. split_and!; [done| |done| |done|done|done|done|done].
    + unfold persist. repeat case_match; done.
    + rewrite <-Hk. unfold persist. repeat case_match; done.
  - eexists (Err e), _, done_, rest, new, evs, s. split_and!; [done|done|done|done|done|done|congruence|done|done].
Qed.
End cycle.

(** ** The backends agree *)

Section agree.
Variable begin_err commit_err query_err : option bytes.
Variable exec_err : Z → option bytes.
Variable sum_real : list float64 → float64.
Variable sum_int : list Z → option Z.

(** Records written in one batch to the in-memory backend and to the
    SQLite one (in chunks of 500 rows, through bound parameters) give, for any
    period, chargebacks of the same namespaces with the same tokens and the
    same attribution, whenever SQLite's calls succeed and its integer SUM is
    exact. Only the energy column depends on how SQLite adds reals. *)
Theorem backends_agree rs db q rows1 rows2 :
  (∀ l z, sum_int l = Some z → z = foldr Z.add 0 l) →
  Forall uint64_ok rs →
  Sqlite.sql_WriteBatch begin_err commit_err exec_err rs [] = (Ok tt, db) →
  Memory.mem_QueryChargeback q (Memory.mem_WriteBatch rs Memory.New_memory).2 = Ok rows1 →
  Sqlite.sql_QueryChargeback query_err sum_real sum_int q db = Ok rows2 →
  nc_Namespace <$> rows1 ≡ₚ nc_Namespace <$> rows2 ∧
  ∀ c1 c2, c1 ∈ rows1 → c2 ∈ rows2 → nc_Namespace c1 = nc_Namespace c2 →
    nc_OutputTokens c1 = nc_OutputTokens c2 ∧ nc_AttributionMethod c1 = nc_AttributionMethod c2.
Proof.
  intros Hsum Hrs Hw Hq1 Hq2.
  pose (L := sqlite_laws begin_err commit_err query_err exec_err sum_real sum_int Hsum).
  pose proof (write_batch_law (StorageLaws := L) rs [] db Hrs Hw) as Hst. simpl in Hst.
  destruct (query_law (StorageLaws := memory_laws) q (Memory.mk_backend rs) rows1 Hq1) as (Hnd1 & Hns1 & Hr1).
  destruct (query_law (StorageLaws := L) q db rows2 Hq2) as (Hnd2 & Hns2 & Hr2).
  simpl in Hns1, Hns2, Hr1, Hr2. rewrite Hst in Hns2, Hr2. split.
  - apply NoDup_Permutation; [done|done|]. intros ns. by rewrite Hns1, Hns2.
  - intros c1 c2 Hc1 Hc2 Heq. destruct (Hr1 c1 Hc1) as (_ & _ & -> & ->), (Hr2 c2 Hc2) as (_ & _ & -> & ->).
    by rewrite Heq.
Qed.
End agree.

(** ** Tokens from the ledger *)

Lemma sum_tokens_range extras : 0 ≤ sum_tokens extras < 2 ^ 64.
Proof.
  unfold sum_tokens. assert (∀ t, 0 ≤ t < 2 ^ 64 → 0 ≤ foldl (λ total extra, match outputTokens extra with Some out => u64 (total + out) | None => total end) t extras < 2 ^ 64) as Hgen; [|by apply Hgen].
  induction extras as [|x extras IH]; intros t Ht; [done|]. simpl. apply IH. destruct (outputTokens x); [apply u64_range|done].
Qed.

Lemma metering_tokens_u64 db_err db k s e n : WindowTokens (NewSourceWithDB db_err db) k s e = Ok n → 0 ≤ n < 2 ^ 64.
Proof.
  simpl. unfold metering_WindowTokens. repeat case_match; intros; simplify_eq; [lia|]. apply sum_tokens_range.
Qed.

(** ** The pod selector *)

(** Characters that stand for themselves in a regular expression; the names
    of Kubernetes services consist of such. *)
Definition literal_char (c : ascii) : Prop :=
  let z := byte_Z c in 48 ≤ z ≤ 57 ∨ 97 ≤ z ≤ 122 ∨ z = 45.

(** Prometheus anchors a regular expression matcher at both ends, so a
    pattern of literal characters after [^] matches that string alone. The
    selector built for a service therefore matches none of its Knative pods,
    whose names continue after the dash: no energy is found for it. *)
Theorem pod_selector_matches_no_pod (re_match : bytes → bytes → bool) svc pod :
  (∀ lit s, Forall literal_char lit → re_match (bs "^" ++ lit) s = true ↔ s = lit) →
  Forall literal_char svc → svc ≠ [] → pod ≠ [] →
  re_match (podSelector svc) (svc ++ bs "-" ++ pod) = false.
Proof.
  intros Hre Hlit Hne Hpod. unfold podSelector. rewrite decide_False by done.
  apply not_true_is_false. rewrite Hre.
  - intros Heq. apply (f_equal length) in Heq. rewrite !length_app in Heq. destruct pod; [done|]. simpl in Heq. lia.
  - apply Forall_app. split; [done|]. apply Forall_singleton. by right; right.
Qed.

(** ** Witnesses *)

Definition sample_deploy : Deployment :=
  toDeployment (mk_deploy 1 (bs "c1") (bs "acme") (bs "node1") (bs "acme/llm") (bs "h100") (bs "svc") 23 1).
Definition sample_energy : EnergySource := mk_energy_source (λ _ _ _, Ok (float_of_Z 600)) (λ _, Ok (float_of_Z 80)) (bs "dcgm").
Definition sample_ledger : list AccountMetering :=
  [mk_metering (bs "u") (bs "user") (float_of_Z 30) TokenNumberType 15 [] (bs "r") (bs "r") (bs "svc") 0
     (bs "{" ++ jstr "completion_token_num" ++ bs ":" ++ jstr "20" ++ bs "}") UnitToken].
Definition sample_tokens : TokenSource := NewSourceWithDB None sample_ledger.
Definition sample_agg : Aggregator Memory.Backend := New (mk_agg_config 0 0 0 fzero) (Some Memory.New_memory).

Lemma cycle_publishes_and_persists_witness :
  ∃ r a' done_ rest new evs s', RunCycle sample_energy sample_tokens (Ok [sample_deploy]) (λ _, None) 1000000000 sample_agg = Some (r, a') ∧
    trackers_ok a' ∧ [sample_deploy] = done_ ++ rest ∧ sink a' = [] ++ evs ∧ observed evs = new ∧
    (let start := 1000000000 - Window (cfg sample_agg) in
     Forall2 (measured sample_energy sample_tokens start 1000000000)
       (filter (λ d, measurable sample_energy sample_tokens start 1000000000 d = true) done_) new) ∧
    storage a' = Some s' ∧
    match r with
    | Ok _ => rest = [] ∧ batch_written new Memory.New_memory s'
    | Err e => s' = Memory.New_memory ∧ ∃ j : nat, None = Some e
    end.
Proof.
  apply (cycle_publishes_and_persists sample_energy sample_tokens (metering_tokens_u64 None sample_ledger)
    [sample_deploy] (λ _, None) 1000000000 sample_agg Memory.New_memory); [apply map_Forall_empty|reflexivity].
Defined.

(** The cycle of the witness: 600 J over 20 tokens are 30 J/token, stored. *)
Example cycle_ex : ∃ a', RunCycle sample_energy sample_tokens (Ok [sample_deploy]) (λ _, None) 1000000000 sample_agg = Some (Ok tt, a') ∧
  (Memory.records <$> storage a') = Some (observed (sink a')) ∧ (rec_JPerToken <$> observed (sink a')) = [float_of_Z 30].
Proof. eexists. split; [vm_compute; reflexivity|]. by vm_compute. Qed.

(** SQLite's integer SUM: exact, or an error when it leaves [int64]. *)
Definition checked_sum (l : list Z) : option Z :=
  let z := foldr Z.add 0 l in if decide (- 2 ^ 63 ≤ z < 2 ^ 63) then Some z else None.

Definition sample_record (ns method : bytes) (tokens : Z) : MeasurementRecord :=
  mk_record 5 [] [] ns (bs "w") [] [] [] [] [] (float_of_Z 3) tokens fzero CalibrationUncalibrated method fzero true [] [].
Definition sample_records : list MeasurementRecord :=
  [sample_record (bs "b") AttributionDirect 4; sample_record (bs "a") AttributionProportional 7; sample_record (bs "b") AttributionDirect 1].

Lemma backends_agree_witness : ∃ db rows1 rows2,
  Sqlite.sql_WriteBatch None None (λ _, None) sample_records [] = (Ok tt, db) ∧
  Memory.mem_QueryChargeback (mk_query 0 1000000000 fzero) (Memory.mem_WriteBatch sample_records Memory.New_memory).2 = Ok rows1 ∧
  Sqlite.sql_QueryChargeback None (foldl fadd fzero) checked_sum (mk_query 0 1000000000 fzero) db = Ok rows2 ∧
  nc_Namespace <$> rows1 ≡ₚ nc_Namespace <$> rows2 ∧
  ∀ c1 c2, c1 ∈ rows1 → c2 ∈ rows2 → nc_Namespace c1 = nc_Namespace c2 →
    nc_OutputTokens c1 = nc_OutputTokens c2 ∧ nc_AttributionMethod c1 = nc_AttributionMethod c2.
Proof.
  eexists _, _, _. split; [reflexivity|]. split; [reflexivity|]. split; [vm_compute; reflexivity|].
  eapply (backends_agree None None None (λ _, None) (foldl fadd fzero) checked_sum sample_records _ (mk_query 0 1000000000 fzero)).
  - intros l z. unfold checked_sum. case_decide; [by intros [= <-]|done].
  - repeat constructor; simpl; lia.
  - reflexivity.
  - reflexivity.
  - vm_compute. reflexivity.
Defined.

(** A matcher for the patterns at hand: [^] and then the string itself. *)
Definition anchored_literal (p s : bytes) : bool :=
  if decide (head p = Some "^"%char) then bool_decide (s = tail p) else false.

Lemma pod_selector_matches_no_pod_witness :
  anchored_literal (podSelector (bs "svc")) (bs "svc" ++ bs "-" ++ bs "00001-deployment-x") = false.
Proof.
  apply (pod_selector_matches_no_pod anchored_literal (bs "svc") (bs "00001-deployment-x")).
  - intros lit s _. apply bool_decide_eq_true.
  - repeat (apply Forall_cons; split; [by right; left|]). apply Forall_nil_2.
  - discriminate.
  - discriminate.
Defined.
