(* ===== verification/GoHash.v ===== *)
(** Go's crypto/md5 and crypto/sha256 on byte sequences, with 32-bit words as
    integers and their wrap-around written out, the printing of a digest with
    %x, and [path.Clean] and [path.Join]. *)
From S2P Require Import Prelude GoLib GoFloat GoJson.
Open Scope Z_scope.

Definition w32 (z : Z) : Z := z `mod` 2 ^ 32.
Definition rotl32 (x : Z) (n : Z) : Z := w32 (Z.lor (Z.shiftl x n) (Z.shiftr x (32 - n))).
Definition not32 (x : Z) : Z := 2 ^ 32 - 1 - x.

(** The constants of the 64 steps and the amounts they rotate by. *)
Definition md5_K : list Z :=
  [0xd76aa478; 0xe8c7b756; 0x242070db; 0xc1bdceee; 0xf57c0faf; 0x4787c62a; 0xa8304613; 0xfd469501;
   0x698098d8; 0x8b44f7af; 0xffff5bb1; 0x895cd7be; 0x6b901122; 0xfd987193; 0xa679438e; 0x49b40821;
   0xf61e2562; 0xc040b340; 0x265e5a51; 0xe9b6c7aa; 0xd62f105d; 0x02441453; 0xd8a1e681; 0xe7d3fbc8;
   0x21e1cde6; 0xc33707d6; 0xf4d50d87; 0x455a14ed; 0xa9e3e905; 0xfcefa3f8; 0x676f02d9; 0x8d2a4c8a;
   0xfffa3942; 0x8771f681; 0x6d9d6122; 0xfde5380c; 0xa4beea44; 0x4bdecfa9; 0xf6bb4b60; 0xbebfbc70;
   0x289b7ec6; 0xeaa127fa; 0xd4ef3085; 0x04881d05; 0xd9d4d039; 0xe6db99e5; 0x1fa27cf8; 0xc4ac5665;
   0xf4292244; 0x432aff97; 0xab9423a7; 0xfc93a039; 0x655b59c3; 0x8f0ccc92; 0xffeff47d; 0x85845dd1;
   0x6fa87e4f; 0xfe2ce6e0; 0xa3014314; 0x4e0811a1; 0xf7537e82; 0xbd3af235; 0x2ad7d2bb; 0xeb86d391].
Definition md5_s : list Z :=
  concat (replicate 4 [7; 12; 17; 22]) ++ concat (replicate 4 [5; 9; 14; 20]) ++
  concat (replicate 4 [4; 11; 16; 23]) ++ concat (replicate 4 [6; 10; 15; 21]).

(** Little-endian words and their bytes. *)
Definition le_word (l : bytes) : Z := foldr (λ c acc, byte_Z c + 256 * acc) 0 l.
Fixpoint le_bytes (n : nat) (z : Z) : bytes :=
  match n with O => [] | S n => Z_byte (z `mod` 256) :: le_bytes n (z / 256) end.
Definition block_words (b : bytes) : list Z := (λ i : nat, le_word (take 4 (drop (4 * i) b))) <$> seq 0 16.

Record md5_state := mk_md5 { md5_a : Z; md5_b : Z; md5_c : Z; md5_d : Z }.
Definition md5_init : md5_state := mk_md5 0x67452301 0xefcdab89 0x98badcfe 0x10325476.

(** One of the 64 steps on the words [m] of a block. *)
Definition md5_step (m : list Z) (st : md5_state) (step : nat * (Z * Z)) : md5_state :=
  let '(i, (k, s)) := step in
  let '(mk_md5 a b c d) := st in
  let i' := Z.of_nat i in
  let '(f, g) :=
    if decide (i < 16)%nat then (Z.lor (Z.land b c) (Z.land (not32 b) d), i')
    else if decide (i < 32)%nat then (Z.lor (Z.land d b) (Z.land (not32 d) c), (5 * i' + 1) `mod` 16)
    else if decide (i < 48)%nat then (Z.lxor b (Z.lxor c d), (3 * i' + 5) `mod` 16)
    else (Z.lxor c (Z.lor b (not32 d)), (7 * i') `mod` 16) in
  mk_md5 d (w32 (b + rotl32 (w32 (f + a + k + default 0 (m !! Z.to_nat g))) s)) b c.

Definition md5_block (st : md5_state) (b : bytes) : md5_state :=
  let r := foldl (md5_step (block_words b)) st (zip (seq 0 64) (zip md5_K md5_s)) in
  mk_md5 (w32 (md5_a st + md5_a r)) (w32 (md5_b st + md5_b r)) (w32 (md5_c st + md5_c r)) (w32 (md5_d st + md5_d r)).

(** A 1 bit, zeros up to 56 modulo 64 bytes, and the length in bits. *)
Definition md5_pad (s : bytes) : bytes :=
  s ++ ["128"%char] ++ replicate (Z.to_nat ((55 - len s) `mod` 64)) "000"%char ++ le_bytes 8 ((8 * len s) `mod` 2 ^ 64).

(** [md5.Sum]; the padded text has a whole number of blocks. *)
Definition md5_Sum (s : bytes) : bytes :=
  let p := md5_pad s in
  let st := foldl (λ st (i : nat), md5_block st (take 64 (drop (64 * i) p))) md5_init (seq 0 (length p / 64)) in
  le_bytes 4 (md5_a st) ++ le_bytes 4 (md5_b st) ++ le_bytes 4 (md5_c st) ++ le_bytes 4 (md5_d st).

(** [fmt.Sprintf("%x", digest)] *)
Definition hex_string (s : bytes) : bytes := s ≫= λ c, hex_digits 2 (byte_Z c).

Example md5_ex :
  hex_string (md5_Sum []) = bs "d41d8cd98f00b204e9800998ecf8427e" ∧
  hex_string (md5_Sum (bs "abc")) = bs "900150983cd24fb0d6963f7d28e17f72" ∧
  hex_string (md5_Sum (bs "12345678901234567890123456789012345678901234567890123456789012345678901234567890"))
    = bs "57edf4a22be3c955ac49da2e2107b67a".
Proof. vm_compute. split_and!; reflexivity. Qed.

(** * Go's crypto/sha256 on byte sequences, with 32-bit words as integers, and
    [path.Clean] and [path.Join]. *)

(** ** crypto/sha256 *)

Definition rotr32 (x n : Z) : Z := rotl32 x (32 - n).
Definition shr32 (x n : Z) : Z := Z.shiftr x n.

(** The constants are fractional parts of roots of the first primes: 32 bits
    of the cube roots of 64 of them for the rounds, of the square roots of 8 of
    them for the start. *)
Definition first_primes : list Z :=
  take 64 (filter (λ n : Z, Forall (λ d : Z, n `mod` d ≠ 0) (seqZ 2 (Z.sqrt n - 1))) (seqZ 2 400)).
(** The integer cube root, a bit at a time from bit [k - 1]. *)
Fixpoint cube_root (k : nat) (acc n : Z) : Z :=
  match k with
  | O => acc
  | S k => let c := acc + 2 ^ Z.of_nat k in cube_root k (if decide (c ^ 3 ≤ n) then c else acc) n
  end.
Definition sha256_K : list Z := Eval vm_compute in (λ p, w32 (cube_root 36 0 (p * 2 ^ 96))) <$> first_primes.
Definition sha256_init : list Z := Eval vm_compute in (λ p, w32 (Z.sqrt (p * 2 ^ 64))) <$> take 8 first_primes.

Definition be_word (l : bytes) : Z := foldl (λ acc c, 256 * acc + byte_Z c) 0 l.
Definition be_bytes (n : nat) (z : Z) : bytes := reverse (le_bytes n z).

(** The schedule, its latest word first. *)
Definition sha256_next (ws : list Z) : list Z :=
  let at_ i := default 0 (ws !! i) in
  let s0 := Z.lxor (rotr32 (at_ 14%nat) 7) (Z.lxor (rotr32 (at_ 14%nat) 18) (shr32 (at_ 14%nat) 3)) in
  let s1 := Z.lxor (rotr32 (at_ 1%nat) 17) (Z.lxor (rotr32 (at_ 1%nat) 19) (shr32 (at_ 1%nat) 10)) in
  w32 (at_ 15%nat + s0 + at_ 6%nat + s1) :: ws.
Definition sha256_schedule (b : bytes) : list Z :=
  reverse (Nat.iter 48 sha256_next (reverse ((λ i : nat, be_word (take 4 (drop (4 * i) b))) <$> seq 0 16))).

Definition sha256_step (st : list Z) (kw : Z * Z) : list Z :=
  match st with
  | [a; b; c; d; e; f; g; h] =>
      let S1 := Z.lxor (rotr32 e 6) (Z.lxor (rotr32 e 11) (rotr32 e 25)) in
      let ch := Z.lxor (Z.land e f) (Z.land (not32 e) g) in
      let t1 := h + S1 + ch + kw.1 + kw.2 in
      let S0 := Z.lxor (rotr32 a 2) (Z.lxor (rotr32 a 13) (rotr32 a 22)) in
      let maj := Z.lxor (Z.land a b) (Z.lxor (Z.land a c) (Z.land b c)) in
      [w32 (t1 + S0 + maj); a; b; c; w32 (d + t1); e; f; g]
  | _ => st
  end.
Definition sha256_block (st : list Z) (b : bytes) : list Z :=
  zip_with (λ x y, w32 (x + y)) st (foldl sha256_step st (zip sha256_K (sha256_schedule b))).

Definition sha256_pad (s : bytes) : bytes :=
  s ++ ["128"%char] ++ replicate (Z.to_nat ((55 - len s) `mod` 64)) "000"%char ++ be_bytes 8 ((8 * len s) `mod` 2 ^ 64).
Definition sha256_Sum (s : bytes) : bytes :=
  let p := sha256_pad s in
  foldl (λ st (i : nat), sha256_block st (take 64 (drop (64 * i) p))) sha256_init (seq 0 (length p / 64)) ≫= be_bytes 4.

(** [common.SHA256] *)
Definition SHA256 (s : bytes) : bytes := hex_string (sha256_Sum s).

Example sha256_ex :
  SHA256 [] = bs "e3b0c44298fc1c149afbf4c8996fb92427ae41e4649b934ca495991b7852b855" ∧
  SHA256 (bs "abc") = bs "ba7816bf8f01cfea414140de5dae2223b00361a396177a9cb410ff61f20015ad" ∧
  SHA256 (bs "abcdbcdecdefdefgefghfghighijhijkijkljklmklmnlmnomnopnopq")
    = bs "248d6a61d20638b8e5c026930c3e6039a33ce45964ff2167f6ecedd419db06c1".
Proof. vm_compute. split_and!; reflexivity. Qed.

(** ** path *)

(** The elements kept, the last first. *)
Definition clean_step (rooted : bool) (acc : list bytes) (e : bytes) : list bytes :=
  if decide (e = [] ∨ e = bs ".") then acc
  else if decide (e = bs "..") then
    match acc with
    | [] => if rooted then [] else [e]
    | x :: acc' => if decide (x = bs "..") then e :: acc else acc'
    end
  else e :: acc.

Definition path_Clean (p : bytes) : bytes :=
  let rooted := HasPrefix p (bs "/") in
  let r := (if rooted then bs "/" else []) ++ Join (reverse (foldl (clean_step rooted) [] (Split p (bs "/")))) (bs "/") in
  if decide (r = []) then bs "." else r.
Definition path_Join (elem : list bytes) : bytes :=
  match filter (λ e, e ≠ []) elem with
  | [] => []
  | es => path_Clean (Join es (bs "/"))
  end.

Example path_ex : path_Join [bs "lfs"; path_Join [bs "ab"; bs "cd"; bs "ef01"]] = bs "lfs/ab/cd/ef01" ∧
  path_Clean (bs "/a/../../b//./c") = bs "/b/c" ∧ path_Clean (bs "../a/../..") = bs "../.." ∧ path_Clean [] = bs ".".
Proof. vm_compute. split_and!; reflexivity. Qed.
