(* ===== verification/GwModeration.v ===== *)
(** Content moderation of the AI gateway (aigateway/component/moderation.go)
    over the client of the moderation service (builder/rpc) and the Redis
    cache. The service's answers and the failures of its and the cache's calls
    are arbitrary; every call of the service is kept in a log. *)
From S2P Require Import Prelude GoLib GoFloat GoJson GoHash Sensitive.
Open Scope Z_scope.

(** ** types/chat_completion.go *)

(** The OpenAI library's own types (tool calls, log probabilities, the rest of
    a usage) are kept as JSON values. *)
Record Usage := mk_usage { PromptTokens : Z; CompletionTokens : Z; TotalTokens : Z; usage_rest : json }.

Record ChatCompletionChunkChoiceDelta := mk_delta {
  dl_Content : bytes; dl_ReasoningContent : bytes; dl_Refusal : bytes; dl_Role : bytes; dl_ToolCalls : list json;
}.
Record ChatCompletionChunkChoice := mk_choice {
  ch_Delta : ChatCompletionChunkChoiceDelta; ch_FinishReason : bytes; ch_Index : Z; ch_Logprobs : json;
}.
Record ChatCompletionChunk := mk_chunk {
  ck_ID : bytes; ck_Choices : list ChatCompletionChunkChoice; ck_Created : Z; ck_Model : bytes; ck_Object : bytes;
  ck_ServiceTier : bytes; ck_SystemFingerprint : bytes; ck_Usage : Usage;
}.

(** A whole completion: the messages' contents, the usage, and the rest. *)
Record ChatCompletion := mk_completion { cp_Choices : list bytes; cp_Usage : Usage; cp_rest : json }.

(** A message of a request: [GetRole()] and [GetContent().AsAny()]. *)
Inductive content :=
  | CString (s : bytes)
  | CStringPtr (p : option bytes)
  | CArray (items : list json)
  | COther (j : json).
Record message := mk_message { msg_role : option bytes; msg_content : content }.

(** ** builder/rpc/moderation_svc_client.go *)

Inductive mod_call :=
  | TextCheck (scenario text : bytes)
  | LLMRespCheck (text sessionId : bytes)
  | LLMPromptCheck (text accountId : bytes).

Definition ScenarioChatDetection : bytes := bs "chat_detection".

Definition llm_request (service text sessionId : bytes) : json :=
  JObj [(bs "Service", JStr service);
        (bs "ServiceParameters", JObj [(bs "content", JStr text); (bs "sessionId", JStr sessionId)])].

(** Path and body of the POST of each call. *)
Definition request (c : mod_call) : bytes * json :=
  match c with
  | TextCheck scenario text => (bs "/api/v1/text", JObj [(bs "scenario", JStr scenario); (bs "text", JStr text)])
  | LLMRespCheck text session => (bs "/api/v1/llmresp", llm_request ScenarioLLMResModeration text session)
  | LLMPromptCheck text account => (bs "/api/v1/llmprompt", llm_request ScenarioLLMQueryModeration text account)
  end.

(** Calls that were answered, with their answers, oldest first. *)
Abbreviation call_log := (list (mod_call * CheckResult)).

Record mod_world := mk_mod {
  mw_cache : gmap bytes bytes;
  mw_log : call_log;
  mw_faults : list (option bytes);
}.

#[export] Program Instance mod_world_faulty : Faulty mod_world bytes := {|
  get_faults := mw_faults;
  set_faults fs w := mk_mod (mw_cache w) (mw_log w) fs |}.
Next Obligation. by intros []. Qed.

Abbreviation mio := (io mod_world bytes).

(** A service: the answer to a request, which may depend on earlier calls. *)
Abbreviation service := (call_log → bytes * json → CheckResult).

(** One call of the client: an error, or the answer. *)
Definition svc_call (svc : service) (c : mod_call) : mio CheckResult :=
  next_fault;; log ← io_gets mw_log;
  let r := svc log (request c) in
  io_modify (λ w, mk_mod (mw_cache w) (mw_log w ++ [(c, r)]) (mw_faults w));; mret r.

(** ** The cache *)

(** [Get]: a missing or expired key is an error, like a failed call. *)
Definition cache_Get (key : bytes) : mio bytes :=
  next_fault;; m ← io_gets mw_cache;
  match m !! key with Some v => mret v | None => io_fail (bs "redis: nil") end.

Definition SetEx (key v : bytes) : mio unit :=
  next_fault;; io_modify (λ w, mk_mod (<[key := v]> (mw_cache w)) (mw_log w) (mw_faults w)).

(** JSON of a [CheckResult]. *)
Definition marshal_result (r : CheckResult) : bytes :=
  marshal (JObj [(bs "is_sensitive", JBool (IsSensitive r)); (bs "reason", JStr (Reason r))]).
Definition unmarshal_result (s : bytes) : option CheckResult :=
  j ← parse_json s;
  match j with
  | JNull => Some pass
  | JObj _ => b ← bool_field (bs "is_sensitive") j; t ← string_field (bs "reason") j; Some (mk_check b t)
  | _ => None
  end.

(** ** aigateway/component/moderation.go *)

Definition maxContentLength : Z := 2000.
Definition slidingWindowSize : Z := 2000.
Definition moderationCachePrpmptPrefix : bytes := bs "moderation:prompt:".

(** [bypass] is [config != nil && ModerationBypassSensitiveCheck]. *)
Record moderationImpl := mk_impl { modSvcClient : option service; has_cache : bool; bypass : bool }.

(** The pieces between matches of [[.?!]]. *)
Fixpoint split_sentences (cur s : bytes) : list bytes :=
  match s with
  | [] => [reverse cur]
  | c :: s' =>
      if decide (c ∈ ["."; "?"; "!"]%char) then reverse cur :: split_sentences [] s'
      else split_sentences (c :: cur) s'
  end.

(** The loop cutting a long sentence; each step takes a byte, so the length
    is enough fuel. *)
Fixpoint windows (fuel : nat) (s : bytes) : list bytes :=
  match fuel, s with
  | S fuel, _ :: _ => take (Z.to_nat slidingWindowSize) s :: windows fuel (drop (Z.to_nat slidingWindowSize) s)
  | _, _ => []
  end.

Definition sentence_chunks (sentence : bytes) : list bytes :=
  let sentence := TrimSpace sentence in
  if decide (sentence = []) then []
  else if decide (slidingWindowSize < len sentence) then windows (length sentence) sentence
  else [sentence].

Definition splitContentIntoChunksByWindow (content : bytes) : list bytes :=
  split_sentences [] content ≫= sentence_chunks.

Section moderation.
Variable modImpl : moderationImpl.

(** Sets the result it is given; here it returns what the result becomes. *)
Definition postCheck (result : CheckResult) : CheckResult :=
  if IsSensitive result && bypass modImpl then pass else result.

Definition digest_key (content : bytes) : bytes := moderationCachePrpmptPrefix ++ hex_string (md5_Sum content).

(** What the cache holds for a chunk, if it has an entry that decodes. *)
Definition cached (chunk : bytes) : mio (option CheckResult) :=
  if has_cache modImpl then
    r ← io_try (cache_Get (digest_key chunk));
    mret (match r with Ok v => unmarshal_result v | Err _ => None end)
  else mret None.

(** A failed write of the cache is only logged. *)
Definition cache_put (key : bytes) (result : CheckResult) : mio unit :=
  io_try (SetEx key (marshal_result result));; mret tt.

Definition PassLLMPromptCheck (svc : service) (content key : bytes) : mio CheckResult :=
  svc_call svc (LLMPromptCheck content key).
Definition PassLLMRespCheck (svc : service) (text sessionId : bytes) : mio CheckResult :=
  svc_call svc (LLMRespCheck text sessionId).
Definition mod_PassTextCheck (svc : service) (scenario text : bytes) : mio CheckResult :=
  svc_call svc (TextCheck scenario text).

Definition checkSingleChunk (svc : service) (content key : bytes) : mio CheckResult :=
  hit ← cached content;
  match hit with
  | Some result => mret result
  | None =>
      result ← PassLLMPromptCheck svc content key;
      (if has_cache modImpl then cache_put (moderationCachePrpmptPrefix ++ content) result else mret tt);;
      mret (postCheck result)
  end.

Fixpoint cache_chunks (chunks : list bytes) (result : CheckResult) : mio unit :=
  match chunks with
  | [] => mret tt
  | chunk :: rest => cache_put (digest_key chunk) result;; cache_chunks rest result
  end.

Definition checkBuffer (svc : service) (content : bytes) (currentBufferChunks : list bytes) (key : bytes) : mio CheckResult :=
  result ← PassLLMPromptCheck svc content key;
  let result := postCheck result in
  if IsSensitive result then mret result
  else
    (if has_cache modImpl then cache_chunks currentBufferChunks result else mret tt);; mret result.

(** First loop: an early return with a cached verdict, or the chunks the cache
    knows nothing about. *)
Fixpoint unchecked_chunks (chunks acc : list bytes) : mio (CheckResult + list bytes) :=
  match chunks with
  | [] => mret (inr acc)
  | chunk :: rest =>
      hit ← cached chunk;
      match postCheck <$> hit with
      | Some result => if IsSensitive result then mret (inl result) else unchecked_chunks rest acc
      | None => unchecked_chunks rest (acc ++ [chunk])
      end
  end.

(** Second loop: chunks are joined with dots up to the limit and checked. *)
Fixpoint check_chunks (svc : service) (key : bytes) (chunks : list bytes) (buffer : bytes) (currentBufferChunks : list bytes) :
    mio (CheckResult + bytes * list bytes) :=
  match chunks with
  | [] => mret (inr (buffer, currentBufferChunks))
  | chunk :: rest =>
      hit ← cached chunk;
      match postCheck <$> hit with
      | Some result =>
          if IsSensitive result then mret (inl result) else check_chunks svc key rest buffer currentBufferChunks
      | None =>
          let separatorLen := if decide (0 < len buffer) then 1 else 0 in
          let append buffer cur :=
            check_chunks svc key rest ((if decide (0 < len buffer) then buffer ++ bs "." else buffer) ++ chunk) (cur ++ [chunk]) in
          if decide (maxContentLength < len buffer + separatorLen + len chunk ∧ 0 < len buffer) then
            result ← io_wrap (λ e, bs "failed to call moderation on buffer: " ++ e) (checkBuffer svc buffer currentBufferChunks key);
            let result := postCheck result in
            if IsSensitive result then mret (inl result) else append [] []
          else append buffer currentBufferChunks
      end
  end.

(** Backslash, backslash, n becomes a newline; then backslash, n is dropped. *)
Definition unescape (content : bytes) : bytes :=
  ReplaceAll (ReplaceAll content (bs "\\n") ["010"%char]) (bs "\n") [].

Definition checkLLMPrompt (svc : service) (content key : bytes) : mio CheckResult :=
  let content := unescape content in
  if decide (len content < maxContentLength) then checkSingleChunk svc content key
  else
    r ← unchecked_chunks (splitContentIntoChunksByWindow content) [];
    match r with
    | inl result => mret result
    | inr unCheckedChunks =>
        r ← check_chunks svc key unCheckedChunks [] [];
        match r with
        | inl result => mret result
        | inr (buffer, currentBufferChunks) =>
            if decide (0 < len buffer) then
              result ← io_wrap (λ e, bs "failed to call moderation on remaining buffer: " ++ e)
                         (checkBuffer svc buffer currentBufferChunks key);
              let result := postCheck result in
              if IsSensitive result then mret result else mret pass
            else mret pass
        end
    end.

(** Text of the items of an array content: each [text] member that is a
    string, followed by a space. *)
Definition item_text (item : json) : bytes :=
  match item with
  | JObj l => match list_find (λ kv : bytes * json, kv.1 = bs "text") (reverse l) with
              | Some (_, (_, JStr s)) => s ++ bs " " | _ => [] end
  | _ => []
  end.

(** [None] is the panic on a nil pointer. *)
Definition content_text (c : content) : option bytes :=
  match c with
  | CString s => Some s
  | CStringPtr p => p
  | CArray items => Some (items ≫= item_text)
  | COther j => Some (marshal j)
  end.

Definition io_panic {W E A} : io W E A := λ w, (Panic, w).

Fixpoint check_messages (svc : service) (messages : list message) (uuid : bytes) : mio CheckResult :=
  match messages with
  | [] => mret pass
  | msg :: rest =>
      match msg_role msg, content_text (msg_content msg) with
      | Some _, Some content =>
          if decide (TrimSpace content = []) then check_messages svc rest uuid
          else
            result ← io_wrap (λ e, bs "failed to check message content: " ++ e) (checkLLMPrompt svc content uuid);
            let result := postCheck result in
            if IsSensitive result then mret result else check_messages svc rest uuid
      | _, _ => io_panic
      end
  end.

Definition CheckChatPrompts (messages : list message) (uuid : bytes) : mio CheckResult :=
  match modSvcClient modImpl with
  | None => mret pass
  | Some svc => check_messages svc messages uuid
  end.

(** The client returns a nil result with its error, and [postCheck]
    dereferences it. *)
Definition post_nil (m : mio CheckResult) : mio CheckResult :=
  r ← io_try m; match r with Ok result => mret (postCheck result) | Err _ => io_panic end.

Definition CheckChatStreamResponse (chunk : ChatCompletionChunk) (uuid : bytes) : mio CheckResult :=
  match modSvcClient modImpl with
  | None => mret pass
  | Some svc =>
      match ck_Choices chunk with
      | [] => mret pass
      | choice :: _ =>
          let c := dl_Content (ch_Delta choice) in
          let r := dl_ReasoningContent (ch_Delta choice) in
          if decide (c = [] ∧ r = []) then mret pass
          else if decide (TrimSpace c ≠ []) then post_nil (PassLLMRespCheck svc c uuid)
          else if decide (TrimSpace r ≠ []) then post_nil (PassLLMRespCheck svc r uuid)
          else mret (postCheck pass)
      end
  end.

Definition CheckChatNonStreamResponse (completion : ChatCompletion) : mio CheckResult :=
  match modSvcClient modImpl with
  | None => mret pass
  | Some svc =>
      match cp_Choices completion with
      | [] => mret pass
      | text :: _ =>
          if decide (text = []) then mret pass
          else result ← mod_PassTextCheck svc ScenarioChatDetection text; mret (postCheck result)
      end
  end.

End moderation.

(** The interface the rest of the gateway uses. *)
Class Moderation (W : Type) := {
  mod_CheckChatPrompts : list message → bytes → io W bytes CheckResult;
  mod_CheckChatStreamResponse : ChatCompletionChunk → bytes → io W bytes CheckResult;
  mod_CheckChatNonStreamResponse : ChatCompletion → io W bytes CheckResult;
}.
Definition moderation_of (modImpl : moderationImpl) : Moderation mod_world := {|
  mod_CheckChatPrompts := CheckChatPrompts modImpl;
  mod_CheckChatStreamResponse := CheckChatStreamResponse modImpl;
  mod_CheckChatNonStreamResponse := CheckChatNonStreamResponse modImpl;
|}.
