(* ===== verification/GwModerationSpec.v ===== *)
(** What a verdict of the gateway's prompt moderation rests on: which texts
    the service has seen, what the cache can stand for, and how both can be
    got around. *)
From S2P Require Import Prelude GoLib GoFloat GoJson GoHash Sensitive GwModeration.
Open Scope Z_scope.

(** ** Chunks *)

Definition part_of (chunk text : bytes) : Prop := ∃ a b, text = a ++ chunk ++ b.
Definition chunk_ok (chunk : bytes) : Prop := chunk ≠ [] ∧ len chunk ≤ slidingWindowSize.

Lemma part_of_refl t : part_of t t.
Proof. exists [], []. by rewrite app_nil_r. Qed.
Lemma part_of_app_l c t u : part_of c t → part_of c (t ++ u).
Proof. intros (a & b & ->). exists a, (b ++ u). by rewrite <-!(assoc_L (++)). Qed.
Lemma part_of_app_r c t : part_of c (t ++ c).
Proof. exists t, []. by rewrite app_nil_r. Qed.

Lemma windows_spec n : ∀ s, (length s ≤ n)%nat → concat (windows n s) = s ∧ Forall chunk_ok (windows n s).
Proof.
  induction n as [|n IH]; intros s Hs; [by destruct s; [|simpl in Hs; lia]|].
  destruct s as [|c s]; [done|]. cbn [windows concat].
  destruct (IH (drop (Z.to_nat slidingWindowSize) (c :: s))) as [Hc Hf].
  { rewrite length_drop. unfold slidingWindowSize. simpl in *. lia. }
  split; [by rewrite Hc, take_drop|]. constructor; [|done]. split; [done|].
  unfold len, slidingWindowSize in *. rewrite length_take. lia.
Qed.

(** The chunks of a text are nonempty and short, and together they are its
    sentences, trimmed. *)
Lemma chunks_spec content :
  Forall chunk_ok (splitContentIntoChunksByWindow content) ∧
  concat (splitContentIntoChunksByWindow content) = concat (TrimSpace <$> split_sentences [] content).
Proof.
  unfold splitContentIntoChunksByWindow. induction (split_sentences [] content) as [|s l IH]; [done|].
  destruct IH as [IHf IHc]. rewrite bind_cons, concat_app. cbn [fmap list_fmap concat]. rewrite IHc.
  assert (Forall chunk_ok (sentence_chunks s) ∧ concat (sentence_chunks s) = TrimSpace s) as [Hf Hc].
  { unfold sentence_chunks. case_decide as He; [by rewrite He|]. case_decide as Hl.
    - destruct (windows_spec (length (TrimSpace s)) (TrimSpace s)); [lia|]. done.
    - split; [|by simpl; rewrite app_nil_r]. constructor; [|done]. split; [done|]. lia. }
  split; [by apply Forall_app|by rewrite Hc].
Qed.

(** ** The cache *)

Section standing.
(** Which verdicts count as a pass. *)
Variable accepted : CheckResult → Prop.

(** Where an entry of the cache can come from: a single text is cached under
    itself, the chunks of a buffer that passed under their digests. *)
Inductive came_from (log : call_log) (k v : bytes) : Prop :=
  | from_single text account r :
      (LLMPromptCheck text account, r) ∈ log →
      k = moderationCachePrpmptPrefix ++ text → v = marshal_result r → came_from log k v
  | from_buffer chunk text account r :
      (LLMPromptCheck text account, r) ∈ log →
      k = digest_key chunk → part_of chunk text → accepted r → came_from log k v.

Definition cache_ok (w : mod_world) : Prop := map_Forall (came_from (mw_log w)) (mw_cache w).

(** What stands behind letting a chunk pass: a call in which a text containing
    it (or one of the same digest) passed, or a call about the text that is its
    digest. *)
Inductive vouched (log : call_log) (chunk : bytes) : Prop :=
  | vouched_pass chunk' text account r :
      (LLMPromptCheck text account, r) ∈ log → md5_Sum chunk' = md5_Sum chunk →
      part_of chunk' text → accepted r → vouched log chunk
  | vouched_digest account r :
      (LLMPromptCheck (hex_string (md5_Sum chunk)) account, r) ∈ log → vouched log chunk.
End standing.

(** The service did not flag the text. *)
Definition unflagged (r : CheckResult) : Prop := IsSensitive r = false.
(** The configuration lets a text with this verdict pass: with
    ModerationBypassSensitiveCheck every text, otherwise the unflagged ones. *)
Definition let_pass (modImpl : moderationImpl) (r : CheckResult) : Prop := IsSensitive (postCheck modImpl r) = false.

Lemma let_pass_strict modImpl r : bypass modImpl = false → let_pass modImpl r → unflagged r.
Proof. unfold let_pass, unflagged, postCheck. intros ->. by rewrite andb_false_r. Qed.
Lemma let_pass_bypass modImpl r : bypass modImpl = true → let_pass modImpl r.
Proof. unfold let_pass, postCheck. intros ->. rewrite andb_true_r. by destruct (IsSensitive r) eqn:Hr. Qed.
Lemma vouched_weaken (P Q : CheckResult → Prop) log c : (∀ r, P r → Q r) → vouched P log c → vouched Q log c.
Proof.
  intros HPQ [chunk' text acc r Hin Hd Hp Hr|acc r Hin]; [|by apply (vouched_digest _ _ _ acc r)].
  apply (vouched_pass _ _ _ chunk' text acc r); auto.
Qed.

Section spec.
Variable modImpl : moderationImpl.
Notation passes r := (IsSensitive (postCheck modImpl r) = false).
Notation came_from := (came_from (let_pass modImpl)).
Notation cache_ok := (cache_ok (let_pass modImpl)).
Notation vouched := (vouched (let_pass modImpl)).

Lemma came_from_mono log log' k v : log ⊆ log' → came_from log k v → came_from log' k v.
Proof.
  intros Hs [text acc r Hin ??|chunk text acc r Hin ???].
  - by apply (from_single _ log' k v text acc r); [apply Hs|..].
  - by apply (from_buffer _ log' k v chunk text acc r); [apply Hs|..].
Qed.
Lemma vouched_mono log log' c : log ⊆ log' → vouched log c → vouched log' c.
Proof.
  intros Hs [chunk' text acc r Hin ???|acc r Hin].
  - by apply (vouched_pass _ log' c chunk' text acc r); [apply Hs|..].
  - by apply (vouched_digest _ log' c acc r), Hs.
Qed.

(** Printing a digest loses nothing. *)
Lemma hex_digits_inj a b : 0 ≤ a < 256 → 0 ≤ b < 256 → hex_digits 2 a = hex_digits 2 b → a = b.
Proof.
  intros Ha Hb Heq.
  assert (Hc : ∀ x y, 0 ≤ x < 16 → 0 ≤ y < 16 → hex_char x = hex_char y → x = y).
  { assert (Hall : Forall (λ x, Forall (λ y, hex_char x = hex_char y → x = y) (seqZ 0 16)) (seqZ 0 16)).
    { apply (bool_decide_unpack _). vm_compute. done. }
    intros x y Hx Hy. rewrite Forall_forall in Hall. specialize (Hall x). rewrite elem_of_seqZ, Forall_forall in Hall.
    apply Hall; [lia|rewrite elem_of_seqZ; lia]. }
  simpl in Heq. injection Heq as H1 H2. apply Hc in H2; [|apply Z.mod_pos_bound; lia..].
  apply Hc in H1; [|apply Z.mod_pos_bound; lia..].
  rewrite !Z.mod_small in H1 by (split; [apply Z.div_pos|apply Z.div_lt_upper_bound]; lia).
  rewrite (Z.div_mod a 16), (Z.div_mod b 16) by lia. by rewrite H1, H2.
Qed.
Lemma hex_string_inj s t : hex_string s = hex_string t → s = t.
Proof.
  revert t. induction s as [|c s IH]; intros [|d t]; [done|done|done|].
  unfold hex_string. rewrite !bind_cons. intros Heq. apply app_inj_1 in Heq as [H1 H2]; [|reflexivity].
  apply hex_digits_inj in H1; [|apply byte_Z_range..]. f_equal; [|by apply IH].
  unfold byte_Z in H1. apply N2Z.inj in H1. by rewrite <-(ascii_N_embedding c), H1, ascii_N_embedding.
Qed.

(** An entry found under a chunk's digest vouches for the chunk. *)
Lemma hit_vouched log chunk v : came_from log (digest_key chunk) v → vouched log chunk.
Proof.
  intros [text acc r Hin Hk Hv|chunk' text acc r Hin Hk Hp Hpass]; unfold digest_key in Hk; apply (inj (app _)) in Hk.
  - subst text. by apply (vouched_digest _ _ _ acc r).
  - apply (vouched_pass _ _ _ chunk' text acc r); [done| |done|done]. symmetry. by apply hex_string_inj.
Qed.

(** ** The calls, one by one *)

Lemma postCheck_twice r : IsSensitive (postCheck modImpl (postCheck modImpl r)) = IsSensitive (postCheck modImpl r).
Proof. unfold postCheck. by destruct (IsSensitive r) eqn:Hr, (bypass modImpl); simpl; rewrite ?Hr. Qed.

(** [w'] follows [w] by the calls [new], all short prompts of [key]. *)
Record follows (key : bytes) (w w' : mod_world) (new : call_log) : Prop := {
  follows_log : mw_log w' = mw_log w ++ new;
  follows_short : Forall (λ e, ∃ text, e.1 = LLMPromptCheck text key ∧ len text ≤ maxContentLength) new;
  follows_cache : cache_ok w';
}.

Lemma follows_refl key w w' : mw_log w' = mw_log w → cache_ok w' → follows key w w' [].
Proof. split; [by rewrite app_nil_r|done|done]. Qed.
Lemma follows_trans key w1 w2 w3 n1 n2 : follows key w1 w2 n1 → follows key w2 w3 n2 → follows key w1 w3 (n1 ++ n2).
Proof. intros [H1 S1 _] [H2 S2 C2]. split; [by rewrite H2, H1, (assoc_L (++))|by apply Forall_app|done]. Qed.
Lemma follows_sub key w w' new : follows key w w' new → mw_log w ⊆ mw_log w'.
Proof. intros [-> _ _]. set_solver. Qed.

(** The same cache and log: only failures have been consumed. *)
Definition quiet (w w' : mod_world) : Prop := mw_cache w' = mw_cache w ∧ mw_log w' = mw_log w.
Lemma quiet_ok w w' : quiet w w' → cache_ok w → cache_ok w'.
Proof. unfold cache_ok. by intros [-> ->]. Qed.
Lemma quiet_follows key w w' : quiet w w' → cache_ok w → follows key w w' [].
Proof. intros Hq Hok. apply follows_refl; [apply Hq|by apply (quiet_ok w)]. Qed.

Lemma wp_fault Q (w : mod_world) : (∀ r w', quiet w w' → Q r w') → wp next_fault Q w.
Proof. intros HQ. apply wp_next_fault. intros fs r. by apply HQ. Qed.

Lemma wp_cached chunk w : cache_ok w →
  wp (cached modImpl chunk) (λ r w', quiet w w' ∧ ∃ o, r = Ok o ∧ (o = None ∨ vouched (mw_log w) chunk)) w.
Proof.
  intros Hok. unfold cached, cache_Get. destruct (has_cache modImpl); wp_simpl; [|by split; [|eauto]].
  apply wp_fault. intros [[]|e] w' Hq; wp_simpl; [|by split; [|eauto]].
  destruct (mw_cache w' !! digest_key chunk) as [v|] eqn:Hv; wp_simpl; split; [done| |done|by eauto].
  eexists. split; [done|]. right. apply (hit_vouched _ _ v). apply Hok. by rewrite <-(proj1 Hq).
Qed.

Lemma wp_cache_put k r w : cache_ok w → came_from (mw_log w) k (marshal_result r) →
  wp (cache_put k r) (λ res w', res = Ok tt ∧ mw_log w' = mw_log w ∧ cache_ok w') w.
Proof.
  intros Hok Hc. unfold cache_put, SetEx. wp_simpl. apply wp_fault. intros [[]|e] w' [Hcache Hlog]; wp_simpl; simpl.
  - split_and!; [done|done|]. unfold cache_ok. simpl. rewrite Hcache, Hlog. by apply map_Forall_insert_2.
  - split_and!; [done|done|]. by apply (quiet_ok w).
Qed.

Lemma wp_cache_chunks chunks r w : cache_ok w →
  Forall (λ c, came_from (mw_log w) (digest_key c) (marshal_result r)) chunks →
  wp (cache_chunks chunks r) (λ res w', res = Ok tt ∧ mw_log w' = mw_log w ∧ cache_ok w') w.
Proof.
  revert w. induction chunks as [|c chunks IH]; intros w Hok Hf; cbn [cache_chunks]; wp_simpl; [done|].
  inversion Hf as [|?? Hc Hf']; subst. eapply wp_mono; [|by apply wp_cache_put]. intros ? w' (-> & Hl & Hok').
  eapply wp_mono; [|apply (IH w'); [done|by rewrite Hl]]. intros ? w'' (-> & Hl' & ?). by rewrite Hl', Hl.
Qed.

Lemma wp_prompt svc text key w : cache_ok w → len text ≤ maxContentLength →
  wp (PassLLMPromptCheck svc text key) (λ res w', ∃ new, follows key w w' new ∧
    match res with Ok r => new = [(LLMPromptCheck text key, r)] | Err _ => new = [] end) w.
Proof.
  intros Hok Hlen. unfold PassLLMPromptCheck, svc_call. wp_simpl. apply wp_fault. intros [[]|e] w' Hq; wp_simpl.
  - eexists. split; [|reflexivity]. destruct Hq as [Hc Hl]. split; simpl; [by rewrite Hl|by constructor; [eauto|]|].
    unfold cache_ok. simpl. rewrite Hc. intros k v Hv. apply (came_from_mono (mw_log w)); [rewrite Hl; set_solver|by apply Hok].
  - exists []. split; [by apply quiet_follows|done].
Qed.

(** A buffer that passes vouches for all its chunks, now and from the cache. *)
Lemma wp_checkBuffer svc buffer chunks key w : cache_ok w → len buffer ≤ maxContentLength →
  Forall (λ c, part_of c buffer) chunks →
  wp (checkBuffer modImpl svc buffer chunks key) (λ res w', ∃ new, follows key w w' new ∧
    match res with Ok r => ∃ raw, new = [(LLMPromptCheck buffer key, raw)] ∧ r = postCheck modImpl raw | Err _ => True end) w.
Proof.
  intros Hok Hlen Hparts. unfold checkBuffer. wp_simpl. eapply wp_mono; [|by apply wp_prompt].
  intros [raw|e] w1 (new & Hf & ->); [|by eauto].
  destruct (IsSensitive (postCheck modImpl raw)) eqn:Hs; wp_simpl; [by eauto|].
  destruct (has_cache modImpl); wp_simpl; [|by eauto].
  eapply wp_mono; [|apply wp_cache_chunks; [apply Hf|]].
  - intros ? w2 (-> & Hl & Hok2). wp_simpl. eexists. split; [|by eauto]. destruct Hf as [Hl1 Hs1 _]. split; [by rewrite Hl|done|done].
  - eapply Forall_impl; [exact Hparts|]. intros c Hc. apply (from_buffer _ _ _ _ c buffer key raw); [|done|done|done].
    rewrite (follows_log _ _ _ _ Hf). set_solver.
Qed.


(** ** The loops *)

Definition all_pass (new : call_log) : Prop := Forall (λ e, passes e.2) new.

Lemma wp_unchecked chunks : ∀ acc w, cache_ok w → Forall chunk_ok chunks → Forall chunk_ok acc →
  wp (unchecked_chunks modImpl chunks acc) (λ res w', quiet w w' ∧
    match res with
    | Ok (inl r) => IsSensitive (postCheck modImpl r) = true
    | Ok (inr l) => Forall chunk_ok l ∧ acc ⊆ l ∧ ∀ c, c ∈ chunks → c ∈ l ∨ vouched (mw_log w) c
    | Err _ => False
    end) w.
Proof.
  induction chunks as [|c chunks IH]; intros acc w Hok Hch Hacc; cbn [unchecked_chunks]; wp_simpl.
  { split_and!; [done..|set_solver]. }
  inversion Hch as [|?? Hc Hch']; subst. eapply wp_mono; [|by apply wp_cached].
  intros ? w1 (Hq & o & -> & Ho). pose proof (quiet_ok _ _ Hq Hok) as Hok1.
  destruct o as [r|]; simpl.
  - destruct (IsSensitive (postCheck modImpl r)) eqn:Hs; wp_simpl; [by rewrite postCheck_twice|].
    eapply wp_mono; [|by apply (IH acc w1)]. intros res w2 [Hq2 Hres].
    split; [unfold quiet in *; intuition congruence|]. destruct res as [[|l]|]; [done| |done].
    destruct Hres as (? & ? & Hall), Hq as [_ Hl]. split_and!; [done|done|]. intros c'. rewrite elem_of_cons, <-Hl. rewrite <-Hl in Ho. naive_solver.
  - eapply wp_mono; [|apply (IH (acc ++ [c]) w1); [done|done|by apply Forall_app; split; [|constructor]]].
    intros res w2 [Hq2 Hres]. split; [unfold quiet in *; intuition congruence|].
    destruct res as [[|l]|]; [done| |done]. destruct Hres as (? & Hsub & Hall), Hq as [_ Hl].
    split_and!; [done|set_solver|]. intros c'. rewrite elem_of_cons, <-Hl. intros [->|?]; [left; set_solver|by apply Hall].
Qed.

(** The buffer holds the chunks collected for it. *)
Record buffer_ok (buffer : bytes) (cur : list bytes) : Prop := {
  buffer_len : len buffer ≤ maxContentLength;
  buffer_parts : Forall (λ c, part_of c buffer) cur;
  buffer_nonempty : cur ≠ [] → 0 < len buffer;
}.

Lemma buffer_add buffer cur c : buffer_ok buffer cur → chunk_ok c →
  len buffer + (if decide (0 < len buffer) then 1 else 0) + len c ≤ maxContentLength ∨ len buffer = 0 →
  buffer_ok ((if decide (0 < len buffer) then buffer ++ bs "." else buffer) ++ c) (cur ++ [c]).
Proof.
  intros [Hl Hp Hn] [Hne Hcl] Hfit. unfold len, maxContentLength, slidingWindowSize in *.
  assert (0 < length c)%nat by (destruct c; simpl; [done|lia]). split.
  - unfold len, maxContentLength. rewrite length_app. case_decide; rewrite ?length_app; simpl; lia.
  - apply Forall_app. split; [|by constructor; [apply part_of_app_r|]].
    eapply Forall_impl; [exact Hp|]. intros x Hx. apply part_of_app_l. case_decide; [by apply part_of_app_l|done].
  - intros _. unfold len. rewrite length_app. lia.
Qed.

Lemma buffer_vouched log log' buffer cur key raw c : (LLMPromptCheck buffer key, raw) ∈ log → log ⊆ log' →
  buffer_ok buffer cur → passes raw → c ∈ cur → vouched log' c.
Proof.
  intros Hin Hsub [_ Hp _] Hpass Hc. apply (vouched_pass _ _ _ c buffer key raw); [by apply Hsub|done| |done].
  rewrite Forall_forall in Hp. by apply Hp.
Qed.

(** The outcome of the second loop, or of the whole check: nothing the service
    flagged was let pass, and each chunk is vouched for or still buffered. *)
Definition loop_post (key : bytes) (chunks cur : list bytes) (w : mod_world)
    (res : result (CheckResult + bytes * list bytes) bytes) (w' : mod_world) : Prop :=
  ∃ new, follows key w w' new ∧
    match res with
    | Ok (inl r) => IsSensitive (postCheck modImpl r) = true
    | Ok (inr (b, cur')) => all_pass new ∧ buffer_ok b cur' ∧ ∀ c, c ∈ chunks ∨ c ∈ cur → c ∈ cur' ∨ vouched (mw_log w') c
    | Err _ => True
    end.

Lemma loop_post_step key c chunks cur cur1 w w1 new res w' : follows key w w1 new → all_pass new →
  (∀ x, x = c ∨ x ∈ cur → x ∈ cur1 ∨ vouched (mw_log w1) x) →
  loop_post key chunks cur1 w1 res w' → loop_post key (c :: chunks) cur w res w'.
Proof.
  intros Hf Hall Hv (new' & Hf' & Hres). exists (new ++ new'). split; [by eapply follows_trans|].
  destruct res as [[|[b cur']]|]; [done| |done]. destruct Hres as (Hall' & Hb & Hcov).
  split_and!; [by apply Forall_app|done|]. intros x Hx.
  assert (x ∈ chunks ∨ x ∈ cur1 ∨ vouched (mw_log w1) x) as [Hx1|[Hx1|Hx1]].
  { rewrite elem_of_cons in Hx. destruct Hx as [[Hx|?]|Hx]; [right; by apply Hv; left|by left|right; by apply Hv; right]. }
  - by apply Hcov; left.
  - by apply Hcov; right.
  - right. by apply (vouched_mono (mw_log w1)); [apply (follows_sub _ _ _ _ Hf')|].
Qed.

Lemma wp_check_chunks svc key chunks : ∀ buffer cur w, cache_ok w → Forall chunk_ok chunks → buffer_ok buffer cur →
  wp (check_chunks modImpl svc key chunks buffer cur) (loop_post key chunks cur w) w.
Proof.
  induction chunks as [|c chunks IH]; intros buffer cur w Hok Hch Hb; cbn [check_chunks]; wp_simpl.
  { exists []. split; [by apply follows_refl|]. split_and!; [by constructor|done|set_solver]. }
  inversion Hch as [|?? Hc Hch']; subst. eapply wp_mono; [|by apply wp_cached].
  intros ? w1 (Hq & o & -> & Ho). pose proof (quiet_ok _ _ Hq Hok) as Hok1. pose proof (quiet_follows key _ _ Hq Hok) as Hf1.
  assert (all_pass []) as Hnil by constructor. destruct o as [r|]; simpl.
  - destruct (IsSensitive (postCheck modImpl r)) eqn:Hs; wp_simpl; [by exists []; rewrite postCheck_twice|].
    destruct Ho as [?|Ho]; [done|]. eapply wp_mono; [|by apply (IH buffer cur w1)].
    intros res w2. apply (loop_post_step key c chunks cur cur w w1 []); [done|done|].
    intros x [->|?]; [right; by rewrite (proj2 Hq)|by left].
  - case_decide as Hfit; wp_simpl.
    + eapply wp_mono; [|by apply wp_checkBuffer; [|apply Hb..]]. intros [r|e] w2 (new & Hf & Hr); wp_simpl; [|exists new].
      2: { split; [|done]. apply (follows_trans _ _ _ _ _ _ Hf1 Hf). }
      destruct Hr as (raw & -> & ->). pose proof (follows_trans _ _ _ _ _ _ Hf1 Hf) as Hf2.
      rewrite postCheck_twice. destruct (IsSensitive (postCheck modImpl raw)) eqn:Hs; wp_simpl.
      { eexists. split; [exact Hf2|]. by rewrite !postCheck_twice. }
      eapply wp_mono; [|apply (IH _ _ w2); [apply Hf|done|apply (buffer_add [] [] c); [|done|by right]]]; [|by split; [|constructor|]].
      intros res w3. eapply loop_post_step; [exact Hf2|by constructor|].
      intros x [->|Hx]; [left; set_solver|right]. eapply (buffer_vouched _ _ _ _ key raw); [|reflexivity|exact Hb|exact Hs|done].
      rewrite (follows_log _ _ _ _ Hf). set_solver.
    + eapply wp_mono; [|apply (IH _ _ w1); [done|done|apply buffer_add; [done|done|]]]; [|unfold len in *; lia].
      intros res w2. apply (loop_post_step key c chunks cur (cur ++ [c]) w w1 []); [done|done|].
      intros x [->|?]; left; set_solver.
Qed.

(** The pieces a prompt is checked in. *)
Definition prompt_chunks (content : bytes) : list bytes :=
  let content := unescape content in
  if decide (len content < maxContentLength) then [content] else splitContentIntoChunksByWindow content.

Definition prompt_post (key content : bytes) (w : mod_world) (res : result CheckResult bytes) (w' : mod_world) : Prop :=
  ∃ new, follows key w w' new ∧
    match res with
    | Ok r => passes r → all_pass new ∧ ∀ c, c ∈ prompt_chunks content → vouched (mw_log w') c
    | Err _ => True
    end.

Lemma wp_checkSingleChunk svc content key w : cache_ok w → len content ≤ maxContentLength →
  wp (checkSingleChunk modImpl svc content key) (λ res w', ∃ new, follows key w w' new ∧
    match res with Ok r => passes r → all_pass new ∧ vouched (mw_log w') content | Err _ => True end) w.
Proof.
  intros Hok Hlen. unfold checkSingleChunk. wp_simpl. eapply wp_mono; [|by apply wp_cached].
  intros ? w1 (Hq & o & -> & Ho). destruct o as [r|]; wp_simpl.
  { exists []. split; [by apply quiet_follows|]. intros _. split; [by constructor|]. rewrite (proj2 Hq). by destruct Ho. }
  eapply wp_mono; [|apply wp_prompt; [by apply (quiet_ok w)|done]]. intros [raw|e] w2 (new & Hf & ->); wp_simpl.
  2: { eexists. split; [|done]. apply (follows_trans _ _ _ _ _ _ (quiet_follows key _ _ Hq Hok) Hf). }
  pose proof (follows_trans _ _ _ _ _ _ (quiet_follows key _ _ Hq Hok) Hf) as Hf2. rewrite (app_nil_l _) in Hf2.
  assert ((LLMPromptCheck content key, raw) ∈ mw_log w2) as Hin by (rewrite (follows_log _ _ _ _ Hf); set_solver).
  assert (Hend : ∀ w3, mw_log w3 = mw_log w2 → cache_ok w3 → ∃ new, follows key w w3 new ∧
    (passes (postCheck modImpl raw) → all_pass new ∧ vouched (mw_log w3) content)).
  { intros w3 Hl Hok3. eexists. split; [destruct Hf2; split; [by rewrite Hl|eassumption|done]|]. rewrite postCheck_twice.
    intros Hp. split; [by constructor|]. rewrite Hl. by apply (vouched_pass _ _ _ content content key raw); [|..|apply part_of_refl|]. }
  destruct (has_cache modImpl); wp_simpl; [|by apply Hend; [|apply Hf]].
  eapply wp_mono; [|apply wp_cache_put; [apply Hf|by apply (from_single _ _ _ _ content key raw)]].
  intros ? w3 (-> & Hl & Hok3). wp_simpl. by apply Hend.
Qed.

Lemma wp_checkLLMPrompt svc content key w : cache_ok w →
  wp (checkLLMPrompt modImpl svc content key) (prompt_post key content w) w.
Proof.
  intros Hok. unfold checkLLMPrompt, prompt_post, prompt_chunks. case_decide as Hs.
  { eapply wp_mono; [|apply wp_checkSingleChunk; [done|lia]]. intros [r|e] w' (new & Hf & Hr); exists new; (split; [done|]); [|done].
    intros Hp. destruct (Hr Hp). split; [done|]. intros c. by rewrite list_elem_of_singleton; intros ->. }
  destruct (chunks_spec (unescape content)) as [Hch _]. wp_simpl.
  eapply wp_mono; [|by apply wp_unchecked]. intros [[r|l]|e] w1 [Hq Hr]; [| |done]; wp_simpl.
  { exists []. split; [by apply quiet_follows|]. rewrite Hr. done. }
  destruct Hr as (Hl & _ & Hcov). eapply wp_mono; [|apply wp_check_chunks; [by apply (quiet_ok w)|done|by split; [|constructor|]]].
  intros [[r|[b cur]]|e] w2 (new & Hf & Hr); pose proof (follows_trans _ _ _ _ _ _ (quiet_follows key _ _ Hq Hok) Hf) as Hf2; rewrite (app_nil_l _) in Hf2; wp_simpl.
  - exists new. split; [done|]. rewrite Hr. done.
  - destruct Hr as (Hall & Hb & Hr).
    assert (Hcov2 : ∀ c, c ∈ splitContentIntoChunksByWindow (unescape content) → c ∈ cur ∨ vouched (mw_log w2) c).
    { intros c Hc. destruct (Hcov c Hc) as [Hin|Hv]; [by apply Hr; left|right].
      by apply (vouched_mono (mw_log w)); [apply (follows_sub _ _ _ _ Hf2)|]. }
    case_decide as Hlen; wp_simpl.
    + eapply wp_mono; [|by apply wp_checkBuffer; [apply Hf|apply Hb..]]. intros [r|e] w3 (new3 & Hf3 & Hr3); wp_simpl.
      2: { eexists. split; [|done]. apply (follows_trans _ _ _ _ _ _ Hf2 Hf3). }
      destruct Hr3 as (raw & -> & ->). pose proof (follows_trans _ _ _ _ _ _ Hf2 Hf3) as Hf4. rewrite postCheck_twice.
      destruct (IsSensitive (postCheck modImpl raw)) eqn:Hp; wp_simpl; (eexists; split; [exact Hf4|]).
      { rewrite !postCheck_twice, Hp. done. }
      intros _. split; [by apply Forall_app; split; [|constructor]|]. intros c Hc. destruct (Hcov2 c Hc) as [Hin|Hv].
      * eapply (buffer_vouched _ _ _ _ key raw); [|reflexivity|exact Hb|exact Hp|done]. rewrite (follows_log _ _ _ _ Hf3). set_solver.
      * by apply (vouched_mono (mw_log w2)); [apply (follows_sub _ _ _ _ Hf3)|].
    + exists new. split; [done|]. intros _. split; [done|]. intros c Hc. destruct (Hcov2 c Hc) as [Hin|Hv]; [|done].
      destruct Hb as [_ _ Hne]. assert (0 < len b) by (apply Hne; by intros ->; apply elem_of_nil in Hin). lia.
  - by exists new.
Qed.

(** ** Prompts *)

(** A message whose role and content are present. *)
Definition present (m : message) : Prop := msg_role m ≠ None ∧ content_text (msg_content m) ≠ None.

(** The pieces of all the messages that are not blank. *)
Definition messages_chunks (messages : list message) : list bytes :=
  messages ≫= λ m, match content_text (msg_content m) with
    | Some text => if decide (TrimSpace text = []) then [] else prompt_chunks text
    | None => []
    end.

Definition messages_post (uuid : bytes) (messages : list message) (w : mod_world) (res : result CheckResult bytes) (w' : mod_world) : Prop :=
  ∃ new, follows uuid w w' new ∧
    match res with
    | Ok r => (bypass modImpl = true → unflagged r) ∧ (unflagged r → all_pass new ∧ Forall (vouched (mw_log w')) (messages_chunks messages))
    | Err _ => True
    end.

Lemma wp_check_messages svc uuid messages : ∀ w, cache_ok w → Forall present messages →
  wp (check_messages modImpl svc messages uuid) (messages_post uuid messages w) w.
Proof.
  induction messages as [|m messages IH]; intros w Hok Hpr; cbn [check_messages].
  { wp_simpl. exists []. split; [by apply follows_refl|]. split; [done|]. by split; constructor. }
  inversion Hpr as [|?? [Hrole Hcont] Hpr']; subst. destruct (msg_role m); [|done].
  unfold messages_post, messages_chunks. rewrite bind_cons. destruct (content_text (msg_content m)) as [text|]; [|done]. case_decide.
  { by apply IH. }
  wp_simpl. eapply wp_mono; [|by apply wp_checkLLMPrompt]. intros [r|e] w1 (new & Hf & Hr); wp_simpl; [|by exists new].
  destruct (IsSensitive (postCheck modImpl r)) eqn:Hs; wp_simpl.
  { exists new. split; [done|]. split; [|by unfold unflagged; rewrite Hs]. intros Hb. pose proof (let_pass_bypass modImpl r Hb) as Hl. unfold let_pass in Hl. congruence. }
  destruct (Hr eq_refl) as [Hall Hv]. eapply wp_mono; [|apply IH; [apply Hf|done]].
  intros res w2 (new2 & Hf2 & Hres). exists (new ++ new2). split; [by eapply follows_trans|].
  destruct res as [r2|]; [|done]. destruct Hres as [Hby Hres]. split; [exact Hby|]. intros Hp. destruct (Hres Hp) as [Hall2 Hv2].
  split; [by apply Forall_app|]. apply Forall_app. split; [|done]. apply Forall_forall. intros c Hc.
  apply (vouched_mono (mw_log w1)); [apply (follows_sub _ _ _ _ Hf2)|by apply Hv].
Qed.

End spec.

(** The calls a check made, and the cache it leaves: short prompts of one
    account, and only entries the configuration allows. *)
Definition checked_by (modImpl : moderationImpl) (uuid : bytes) (w w' : mod_world) (new : call_log) : Prop :=
  mw_log w' = mw_log w ++ new ∧
  Forall (λ e, ∃ text, e.1 = LLMPromptCheck text uuid ∧ len text ≤ maxContentLength) new ∧
  cache_ok (let_pass modImpl) w'.

(** C7: with a client of the moderation service, no nil messages, and a cache
    filled by this configuration alone: unless the configuration lets flagged
    texts pass (ModerationBypassSensitiveCheck), a request whose messages are
    let pass has been vouched for: the service flagged nothing it was asked
    about on the way, and every piece of every message was, now or when the
    cache was filled, part of a text the service did not flag, or its digest was
    itself submitted as a text. With the bypass no verdict is ever a refusal. In
    both cases, whatever the service answers and whichever calls fail, checking
    the messages ends with a verdict or an error, asks the service only about
    texts of at most 2000 bytes for the account, and leaves in the cache only
    entries this configuration writes. *)
Theorem prompts_pass_only_vouched modImpl svc messages uuid w :
  modSvcClient modImpl = Some svc → cache_ok (let_pass modImpl) w → Forall present messages →
  ∃ res w' new, CheckChatPrompts modImpl messages uuid w = (try_ res, w') ∧ checked_by modImpl uuid w w' new ∧
    match res with
    | Ok r =>
        if bypass modImpl then IsSensitive r = false
        else IsSensitive r = false →
          Forall (λ e, IsSensitive e.2 = false) new ∧ Forall (vouched unflagged (mw_log w')) (messages_chunks messages)
    | Err _ => True
    end.
Proof.
  intros Hsvc Hok Hpr. unfold CheckChatPrompts. rewrite Hsvc.
  destruct (wp_run _ _ _ (wp_check_messages modImpl svc uuid messages w Hok Hpr)) as (res & w' & Hrun & new & [Hl Hs Hc] & Hres).
  exists res, w', new. split_and!; [exact Hrun|done..|]. destruct res as [r|]; [|done]. destruct Hres as [Hby Hres].
  destruct (bypass modImpl) eqn:Hb; [by apply Hby|]. intros Hr. destruct (Hres Hr) as [Hall Hv]. split.
  - eapply Forall_impl; [exact Hall|]. intros e. by apply let_pass_strict.
  - eapply Forall_impl; [exact Hv|]. intros c. apply vouched_weaken. intros. by eapply let_pass_strict.
Qed.

(** A service that flags texts with the word [bad]. *)
Definition word_service : service := λ _ req,
  match req.2 with
  | JObj [_; (_, JObj ((_, JStr text) :: _))] => mk_check (Contains text (bs "bad")) []
  | _ => pass
  end.
Definition impl_ex : moderationImpl := mk_impl (Some word_service) true false.
Definition world_ex : mod_world := mk_mod ∅ [] [].
Definition user_message (s : string) : message := mk_message (Some (bs "user")) (CString (bs s)).

Lemma prompts_pass_only_vouched_witness :
  (CheckChatPrompts impl_ex [user_message "hello"] (bs "u1") world_ex).1 = Ret pass ∧
  (CheckChatPrompts impl_ex [user_message "hello"; user_message "a bad thing"] (bs "u1") world_ex).1 = Ret (mk_check true []) ∧
  ∃ res w' new, CheckChatPrompts impl_ex [user_message "hello"] (bs "u1") world_ex = (try_ res, w') ∧ checked_by impl_ex (bs "u1") world_ex w' new ∧
    match res with
    | Ok r => IsSensitive r = false →
        Forall (λ e, IsSensitive e.2 = false) new ∧ Forall (vouched unflagged (mw_log w')) (messages_chunks [user_message "hello"])
    | Err _ => True
    end.
Proof.
  split; [vm_compute; reflexivity|]. split; [vm_compute; reflexivity|].
  apply (prompts_pass_only_vouched impl_ex word_service); [reflexivity|apply map_Forall_empty|].
  constructor; [by split|constructor].
Defined.

(** ** Getting around the cache *)

Lemma hex_char_not_backslash z : 0 ≤ z < 16 → hex_char z ≠ "\"%char.
Proof.
  intros Hz. assert (Forall (λ z, hex_char z ≠ "\"%char) (seqZ 0 16)) as Hall by (apply (bool_decide_unpack _); vm_compute; done).
  rewrite Forall_forall in Hall. apply Hall, elem_of_seqZ. lia.
Qed.
Lemma hex_string_not_backslash s : "\"%char ∉ hex_string s.
Proof.
  unfold hex_string. intros (c & Hc & _)%list_elem_of_bind. simpl in Hc. rewrite !elem_of_cons in Hc.
  destruct Hc as [Hc|[Hc|Hc]]; [..|by apply elem_of_nil in Hc]; symmetry in Hc; revert Hc; apply hex_char_not_backslash, Z.mod_pos_bound; lia.
Qed.
Lemma unescape_hex s : unescape (hex_string s) = hex_string s.
Proof.
  unfold unescape. pose proof (hex_string_not_backslash s) as Hs.
  change (bs "\\n") with ("\"%char :: bs "\n"). rewrite (ReplaceAll_absent _ _ _ _ Hs).
  change (bs "\n") with ("\"%char :: bs "n"). apply (ReplaceAll_absent _ _ _ _ Hs).
Qed.

Lemma length_md5 s : length (md5_Sum s) = 16%nat.
Proof. reflexivity. Qed.
Lemma length_hex_string s : length (hex_string s) = (2 * length s)%nat.
Proof. unfold hex_string. induction s as [|c s IH]; [done|]. rewrite bind_cons, length_app, IH. simpl. lia. Qed.

Lemma no_fault_run (w : mod_world) : mw_faults w = [] → next_fault w = (Ret tt, w).
Proof. intros Hf. unfold next_fault. simpl. by rewrite Hf. Qed.

Lemma cached_run modImpl chunk w : mw_faults w = [] →
  cached modImpl chunk w = (Ret (if has_cache modImpl then mw_cache w !! digest_key chunk ≫= unmarshal_result else None), w).
Proof.
  intros Hf. unfold cached. destruct (has_cache modImpl); [|done]. unfold cache_Get, mbind, io_bind, io_try, io_gets.
  rewrite no_fault_run by done. by destruct (mw_cache w !! digest_key chunk).
Qed.

#[local] Strategy 1000 [md5_Sum].

(** A text the service passes and the cache does not know. *)
Lemma single_pass_run modImpl svc c key w : has_cache modImpl = true → mw_faults w = [] →
  mw_cache w !! digest_key c = None → svc (mw_log w) (request (LLMPromptCheck c key)) = pass →
  checkSingleChunk modImpl svc c key w =
    (Ret pass, mk_mod (<[moderationCachePrpmptPrefix ++ c := marshal_result pass]> (mw_cache w))
                 (mw_log w ++ [(LLMPromptCheck c key, pass)]) []).
Proof.
  intros Hcache Hf Hmiss Hsvc. unfold checkSingleChunk. rewrite (io_bind_run _ _ _ _ _ (cached_run _ _ _ Hf)), Hcache, Hmiss. cbn [mbind option_bind].
  assert (PassLLMPromptCheck svc c key w = (Ret pass, mk_mod (mw_cache w) (mw_log w ++ [(LLMPromptCheck c key, pass)]) [])) as Hcall.
  { unfold PassLLMPromptCheck, svc_call, mbind, io_bind, io_gets, io_modify. rewrite no_fault_run by done. by rewrite Hsvc, Hf. }
  by rewrite (io_bind_run _ _ _ _ _ Hcall).
Qed.

Lemma single_hit_run modImpl svc c key w v r : has_cache modImpl = true → mw_faults w = [] →
  mw_cache w !! digest_key c = Some v → unmarshal_result v = Some r → checkSingleChunk modImpl svc c key w = (Ret r, w).
Proof.
  intros Hcache Hf Hhit Hr. unfold checkSingleChunk. rewrite (io_bind_run _ _ _ _ _ (cached_run _ _ _ Hf)), Hcache, Hhit.
  cbn [mbind option_bind]. by rewrite Hr.
Qed.

Lemma short_prompt_run modImpl svc content key w : len (unescape content) < maxContentLength →
  checkLLMPrompt modImpl svc content key w = checkSingleChunk modImpl svc (unescape content) key w.
Proof. intros Hlen. unfold checkLLMPrompt. by rewrite decide_True. Qed.

(** The cache can be poisoned. A single text is cached under itself but
    looked up under its digest; so whoever first submits, as a prompt, the
    digest of a forbidden text gets the service's pass for that harmless
    string stored where the forbidden text will be looked up: from then on
    the text is let pass and the service is not asked. *)
Theorem digest_prompt_poisons_cache modImpl svc text key key' w :
  has_cache modImpl = true → mw_faults w = [] →
  len (unescape text) < maxContentLength →
  let d := hex_string (md5_Sum (unescape text)) in
  mw_cache w !! digest_key d = None →
  svc (mw_log w) (request (LLMPromptCheck d key)) = pass →
  ∃ w1, checkLLMPrompt modImpl svc d key w = (Ret pass, w1) ∧
    checkLLMPrompt modImpl svc text key' w1 = (Ret pass, w1).
Proof.
  intros Hcache Hf Hlen d Hmiss Hsvc. assert (unescape d = d) as Hd by apply unescape_hex.
  eexists. split.
  - rewrite short_prompt_run; rewrite Hd; [by apply single_pass_run|].
    unfold d, len. rewrite length_hex_string, length_md5. unfold maxContentLength. lia.
  - rewrite short_prompt_run by done. eapply single_hit_run; [done|done|apply lookup_insert_eq|]. vm_compute. reflexivity.
Qed.

Lemma digest_prompt_poisons_cache_witness :
  (checkLLMPrompt impl_ex word_service (bs "a bad thing") (bs "u2") world_ex).1 = Ret (mk_check true []) ∧
  ∃ w1, checkLLMPrompt impl_ex word_service (bs "ed2c18131c3a4dcdbcf8b6f455033496") (bs "u1") world_ex = (Ret pass, w1) ∧
    checkLLMPrompt impl_ex word_service (bs "a bad thing") (bs "u2") w1 = (Ret pass, w1).
Proof.
  split; [vm_compute; reflexivity|].
  apply (digest_prompt_poisons_cache impl_ex word_service (bs "a bad thing") (bs "u1") (bs "u2") world_ex); vm_compute; reflexivity.
Defined.
