(* ===== verification/GwStream.v ===== *)
(** Response handling of the AI gateway (aigateway/handler): the event-stream
    decoder with its shared buffer, the Anthropic-to-OpenAI converters, and
    the streaming and non-streaming response writers, over any implementation
    of the moderation interface. The JSON decoding and encoding of the OpenAI
    library's types and compression are parameters. *)
From S2P Require Import Prelude GoLib GoFloat GoJson Sensitive GwModeration.
Open Scope Z_scope.

Definition nl : bytes := ["010"%char].
Definition nlnl : bytes := nl ++ nl.

(** ** event_stream_decoder.go *)

Record Event := mk_evt { Type_ : bytes; Data_ : bytes; Raw : bytes }.

(** The loop over the lines of an event: its type and data lines. *)
Definition event_line (acc : bytes * list bytes) (line : bytes) : bytes * list bytes :=
  match line with
  | [] => acc
  | _ =>
      if HasPrefix line (bs "event:") then (TrimSpace (drop 6 line), acc.2)
      else if HasPrefix line (bs "data:") then (acc.1, acc.2 ++ [TrimSpace (drop 5 line)])
      else acc
  end.

(** [parseEvent] on the bytes up to and including the blank line: type and
    data. Both are copies; only [Raw] is a view of the buffer. *)
Definition parseEvent (data : bytes) : bytes * bytes :=
  let body := take (length data - 2) data in
  let '(ty, dataLines) := foldl event_line ([], []) (Split body nl) in
  (ty, Join dataLines nl).

(** The complete events of a buffer, each with its bytes, and the rest. *)
Fixpoint complete_events (fuel : nat) (data : bytes) : list bytes * bytes :=
  match fuel with
  | O => ([], data)
  | S fuel =>
      match Cut data nlnl with
      | None => ([], data)
      | Some (a, rest) => let '(l, tail) := complete_events fuel rest in ((a ++ nlnl) :: l, tail)
      end
  end.

(** The views of the events in the buffer: offset and bytes. *)
Fixpoint with_offsets (off : nat) (raws : list bytes) : list (nat * bytes) :=
  match raws with
  | [] => []
  | r :: raws' => (off, r) :: with_offsets (off + length r) raws'
  end.

(** [Write]: events are found in the accumulated buffer, then the rest is
    copied to the front of the same array, while the events' [Raw] still are
    views of it. [arr] is the array the caller sees. *)
Definition Write (buf p : bytes) : list Event * bytes :=
  let data := buf ++ p in
  let '(raws, tail) := complete_events (length data) data in
  let arr := tail ++ drop (length tail) data in
  ((λ v : nat * bytes, let '(ty, d) := parseEvent v.2 in
      mk_evt ty d (take (length v.2) (drop v.1 arr))) <$> with_offsets 0 raws, tail).

(** ** anthropic_converter.go *)

Definition content_block (j : json) : option (bytes * bytes) :=
  o ← as_struct j; ty ← string_field (bs "type") o; tx ← string_field (bs "text") o; Some (ty, tx).

Record anthropic_message := mk_am {
  am_ID : bytes; am_Type : bytes; am_Content : list (bytes * bytes); am_Model : bytes; am_StopReason : bytes;
  am_InputTokens : Z; am_OutputTokens : Z;
}.

Definition decode_message (data : bytes) : option anthropic_message :=
  j ← parse_json data; o ← as_struct j;
  id ← string_field (bs "id") o; ty ← string_field (bs "type") o; role ← string_field (bs "role") o;
  blocks ← array_field (bs "content") o; content ← mapM content_block blocks;
  model ← string_field (bs "model") o; stop ← string_field (bs "stop_reason") o;
  usage ← object_field (bs "usage") o;
  inp ← int_field (bs "input_tokens") usage; out ← int_field (bs "output_tokens") usage;
  Some (mk_am id ty content model stop inp out).

Definition jnum (z : Z) : json := JNum (Itoa z).

(** [now] is [time.Now().Unix()]; a marshalled map has its keys sorted. *)
Definition anthropicToOpenAIResponse (now : Z) (data : bytes) : option bytes :=
  match decode_message data with
  | None => None
  | Some ar =>
      if decide (am_Type ar ≠ bs "message" ∨ am_Content ar = []) then None
      else
        let text := concat (snd <$> filter (λ c : bytes * bytes, c.1 = bs "text") (am_Content ar)) in
        let finishReason :=
          if decide (am_StopReason ar = bs "max_tokens") then bs "length"
          else if decide (am_StopReason ar = bs "tool_use") then bs "tool_calls" else bs "stop" in
        Some (marshal (JObj [
          (bs "choices", JArr [JObj [
             (bs "finish_reason", JStr finishReason); (bs "index", jnum 0);
             (bs "message", JObj [(bs "content", JStr text); (bs "role", JStr (bs "assistant"))])]]);
          (bs "created", jnum now);
          (bs "id", JStr (bs "chatcmpl-" ++ am_ID ar));
          (bs "model", JStr (am_Model ar));
          (bs "object", JStr (bs "chat.completion"));
          (bs "usage", JObj [(bs "completion_tokens", jnum (am_OutputTokens ar)); (bs "prompt_tokens", jnum (am_InputTokens ar));
             (bs "total_tokens", jnum (i64 (am_InputTokens ar + am_OutputTokens ar)))])]))
  end.

(** One chunk of the converted stream. *)
Definition openai_chunk (now : Z) (msgID model : bytes) (choice : json) : bytes :=
  let id := if decide (msgID = []) then bs "msg-unknown" else msgID in
  bs "data: " ++ marshal (JObj [
    (bs "choices", JArr [choice]); (bs "created", jnum now); (bs "id", JStr (bs "chatcmpl-" ++ id));
    (bs "model", JStr model); (bs "object", JStr (bs "chat.completion.chunk"))]) ++ nlnl.

(** The type of an event: the last member named exactly [type], when it is a
    string. *)
Definition event_type (l : list (bytes * json)) : bytes :=
  match list_find (λ kv : bytes * json, kv.1 = bs "type") (reverse l) with
  | Some (_, (_, JStr s)) => s
  | _ => []
  end.

(** The output, whether the stream is done, and the new id and model. *)
Definition anthropicSSEToOpenAISSE (now : Z) (line msgID model : bytes) : bytes * bool * bytes * bytes :=
  let nothing := ([], false, msgID, model) in
  if decide (len line < 6) then nothing else
  let raw := drop 6 line in
  match parse_json raw with
  | Some JNull => nothing
  | Some (JObj l) =>
      let o := JObj l in
      let t := event_type l in
      if decide (t = bs "message_start") then
        match (m ← object_field (bs "message") o; i ← string_field (bs "id") m; md ← string_field (bs "model") m; Some (i, md)) with
        | Some (i, md) => ([], false, i, md)
        | None => nothing
        end
      else if decide (t = bs "content_block_delta") then
        match (d ← object_field (bs "delta") o; ty ← string_field (bs "type") d; tx ← string_field (bs "text") d;
               ix ← int_field (bs "index") o; Some (ty, tx, ix)) with
        | Some (ty, tx, ix) =>
            if decide (ty ≠ bs "text_delta") then nothing
            else (openai_chunk now msgID model (JObj [(bs "delta", JObj [(bs "content", JStr tx)]);
                    (bs "finish_reason", JNull); (bs "index", jnum ix)]), false, msgID, model)
        | None => nothing
        end
      else if decide (t = bs "message_delta") then
        match (d ← object_field (bs "delta") o; s ← string_field (bs "stop_reason") d;
               u ← object_field (bs "usage") o; ot ← int_field (bs "output_tokens") u; Some s) with
        | Some s =>
            let finishReason := if decide (s = bs "max_tokens") then bs "length" else bs "stop" in
            (openai_chunk now msgID model (JObj [(bs "delta", JObj []); (bs "finish_reason", JStr finishReason); (bs "index", jnum 0)]),
             false, msgID, model)
        | None => nothing
        end
      else if decide (t = bs "message_stop") then (bs "data: [DONE]" ++ nlnl, true, msgID, model)
      else nothing
  | _ => nothing
  end.

(** ** response_writer_wrapper.go *)

Fixpoint splitSSELines_loop (cur : bytes) (data : bytes) : list bytes :=
  match data with
  | [] => match cur with [] => [] | _ => [reverse cur] end
  | c :: data' =>
      if decide (c = "010"%char) then
        let line := match cur with "013"%char :: cur' => cur' | _ => cur end in
        reverse line :: splitSSELines_loop [] data'
      else splitSSELines_loop (c :: cur) data'
  end.
Definition splitSSELines (data : bytes) : list bytes := splitSSELines_loop [] data.

Record ResponseWriterWrapper := mk_rw {
  written : list bytes;          (* what was given to the client's writer *)
  decoder : bytes;               (* the event-stream buffer *)
  counted : list ChatCompletionChunk; (* chunks given to the token counter *)
  rw_id : bytes;
  capturedInput : Z; capturedOutput : Z;
  convertAnthropic : bool;
  anthropicMsgID : bytes; anthropicModel : bytes;
}.

Definition newStreamResponseWriter (id : bytes) (convert : bool) : ResponseWriterWrapper :=
  mk_rw [] [] [] id 0 0 convert [] [].

(** An error of the client's writer is only logged. *)
Definition writeInternal (data : bytes) (rw : ResponseWriterWrapper) : ResponseWriterWrapper :=
  mk_rw (written rw ++ [data]) (decoder rw) (counted rw) (rw_id rw) (capturedInput rw) (capturedOutput rw)
    (convertAnthropic rw) (anthropicMsgID rw) (anthropicModel rw).

Definition GetCapturedTokens (rw : ResponseWriterWrapper) : Z * Z := (capturedInput rw, capturedOutput rw).

Definition blocked_message : bytes :=
  bs "The message includes inappropriate content and has been blocked. We appreciate your understanding and cooperation.".
Definition blocked_prompt : bytes :=
  bs "The prompt includes inappropriate content and has been blocked. We appreciate your understanding and cooperation.".

(** A choice with a content and a reason, all else empty. *)
Definition plain_choice (content reason : bytes) (index : Z) : ChatCompletionChunkChoice :=
  mk_choice (mk_delta content [] [] [] []) reason index (JObj []).

(** [None] is the index panic of a chunk without choices. *)
Definition generateSensitiveRespForContent (curChunk : ChatCompletionChunk) : option ChatCompletionChunk :=
  match ck_Choices curChunk with
  | [] => None
  | choice :: _ =>
      Some (mk_chunk (ck_ID curChunk) [plain_choice blocked_message (bs "sensitive") (ch_Index choice)] 0
              (ck_Model curChunk) (ck_Object curChunk) [] (ck_SystemFingerprint curChunk) (ck_Usage curChunk))
  end.

Definition empty_chunk (choices : list ChatCompletionChunkChoice) : ChatCompletionChunk :=
  mk_chunk [] choices 0 [] [] [] [] (mk_usage 0 0 0 (JObj [])).

Definition generateSensitiveRespForPrompt : ChatCompletionChunk :=
  empty_chunk [plain_choice blocked_prompt (bs "sensitive") 0].

(** The message's code points are those of the source's literal. *)
Definition generateInsufficientBalanceResp (frontendURL : bytes) : ChatCompletionChunk :=
  let message := bs "**Insufficient balance**" ++ nlnl ++ EncodeRune 0x1F449 ++ bs " [Recharge your account](" ++
    (frontendURL ++ bs "/settings/recharge-payment") ++ bs ") to continue." in
  empty_chunk [plain_choice message (bs "insufficient_balance") 0].

Section writers.
Context {W : Type} `{!Moderation W}.
(** [json.Unmarshal] and [json.Marshal] of the chunk type; a token counter
    present or not; the clock. *)
Variable decode_chunk : bytes → option ChatCompletionChunk.
Variable marshal_chunk : ChatCompletionChunk → bytes.
Variable has_counter : bool.
Variable now : Z.

(** The second decoding of an event, for Anthropic token counts: type,
    usage.output_tokens, message.usage.input_tokens. *)
Definition anthropic_usage (data : bytes) : option (bytes * Z * Z) :=
  j ← parse_json data; o ← as_struct j;
  ty ← string_field (bs "type") o;
  u ← object_field (bs "usage") o; i ← int_field (bs "input_tokens") u; out ← int_field (bs "output_tokens") u;
  m ← object_field (bs "message") o; mu ← object_field (bs "usage") m; mi ← int_field (bs "input_tokens") mu;
  Some (ty, out, mi).

(** Token counting and capture for one chunk. *)
Definition capture (c : ChatCompletionChunk) (data : bytes) (rw : ResponseWriterWrapper) : ResponseWriterWrapper :=
  let inp := if decide (0 < PromptTokens (ck_Usage c)) then PromptTokens (ck_Usage c) else capturedInput rw in
  let out := if decide (0 < CompletionTokens (ck_Usage c)) then CompletionTokens (ck_Usage c) else capturedOutput rw in
  let '(inp, out) :=
    match anthropic_usage data with
    | Some (ty, o, mi) =>
        if decide (ty = bs "message_start") then (if decide (0 < mi) then mi else inp, out)
        else if decide (ty = bs "message_delta") then (inp, if decide (0 < o) then o else out)
        else (inp, out)
    | None => (inp, out)
    end in
  mk_rw (written rw) (decoder rw) (if has_counter then counted rw ++ [c] else counted rw) (rw_id rw) inp out
    (convertAnthropic rw) (anthropicMsgID rw) (anthropicModel rw).

(** A write's state: the writer and the world of the moderation component.
    Its error is [ErrSensitiveContent]. *)
Abbreviation wio S := (io (S * W) unit).
Definition update {S} (f : S → S) : wio S unit := io_modify (λ st, (f st.1, st.2)).
Definition ask {S A} (m : io W bytes A) : wio S (result A bytes) := λ st,
  match m st.2 with
  | (Ret a, w) => (Ret (Ok a), (st.1, w))
  | (Fail e, w) => (Ret (Err e), (st.1, w))
  | (Panic, w) => (Panic, (st.1, w))
  end.

(** The loop over the events of one write. *)
Fixpoint stream_events (n : Z) (events : list Event) : wio ResponseWriterWrapper Z :=
  match events with
  | [] => mret n
  | event :: rest =>
      if decide (Data_ event = []) then stream_events n rest
      else if decide (Data_ event = bs "[DONE]") then update (writeInternal (Raw event));; mret n
      else
        match decode_chunk (Data_ event) with
        | None => update (writeInternal (Raw event));; stream_events n rest
        | Some chunk =>
            update (capture chunk (Data_ event));;
            id ← io_gets (λ st, rw_id st.1);
            result ← ask (mod_CheckChatStreamResponse chunk id);
            match result with
            | Err _ => update (writeInternal (Raw event));; stream_events n rest
            | Ok result =>
                if IsSensitive result then
                  match generateSensitiveRespForContent chunk with
                  | None => io_panic
                  | Some chunk =>
                      update (writeInternal (bs "data: " ++ marshal_chunk chunk ++ nlnl));;
                      update (writeInternal (bs "data: [DONE]" ++ nlnl));; io_fail tt
                  end
                else update (writeInternal (Raw event));; stream_events n rest
            end
        end
  end.

Fixpoint anthropic_lines (lines : list bytes) (rw : ResponseWriterWrapper) : ResponseWriterWrapper :=
  match lines with
  | [] => rw
  | line :: rest =>
      if decide (line = []) then anthropic_lines rest rw
      else
        let '(out, done_, id, model) := anthropicSSEToOpenAISSE now line (anthropicMsgID rw) (anthropicModel rw) in
        let rw := mk_rw (written rw) (decoder rw) (counted rw) (rw_id rw) (capturedInput rw) (capturedOutput rw) (convertAnthropic rw) id model in
        let rw := if decide (out = []) then rw else writeInternal out rw in
        if done_ then rw else anthropic_lines rest rw
  end.

Definition set_decoder (buf : bytes) (rw : ResponseWriterWrapper) : ResponseWriterWrapper :=
  mk_rw (written rw) buf (counted rw) (rw_id rw) (capturedInput rw) (capturedOutput rw) (convertAnthropic rw) (anthropicMsgID rw) (anthropicModel rw).

Definition streamWrite (data : bytes) : wio ResponseWriterWrapper Z :=
  rw ← io_gets fst;
  if convertAnthropic rw then update (anthropic_lines (splitSSELines data));; mret (len data)
  else
    let '(events, buf) := Write (decoder rw) data in
    update (set_decoder buf);; stream_events (len data) events.

(** ** response_writer_wrapper_non_stream.go *)

Record nonStreamResponseWriter := mk_nsw {
  out : list bytes; buffer : bytes; n_counted : list ChatCompletion;
  n_input : Z; n_output : Z; n_convertAnthropic : bool;
  content_encoding : bytes; content_type : bytes;
}.

(** [compress.Decode] gives data, or an error that is or is not an unexpected
    end of input (with which decoding goes on). *)
Inductive decoded := Decoded (data : bytes) | UnexpectedEOF (data : bytes) | DecodeError.

Variable compress_Decode : bytes → bytes → decoded.
Variable compress_Encode : bytes → bytes → bytes.
Variable decode_completion : bytes → option ChatCompletion.
Variable marshal_completion : ChatCompletion → bytes.
(** The error, if any, of the client's writer. *)
Variable client_error : bytes → option bytes.

Definition set_out (o : list bytes) (buf : bytes) (w : nonStreamResponseWriter) : nonStreamResponseWriter :=
  mk_nsw o buf (n_counted w) (n_input w) (n_output w) (n_convertAnthropic w) (content_encoding w) (content_type w).

(** The buffer is emptied whether or not the write succeeds. *)
Definition writeToInternal (data : bytes) : wio nonStreamResponseWriter (option bytes) :=
  update (λ w, set_out (out w ++ [data]) [] w);; mret (client_error data).

Definition set_captured (i o : Z) (w : nonStreamResponseWriter) : nonStreamResponseWriter :=
  mk_nsw (out w) (buffer w) (n_counted w) i o (n_convertAnthropic w) (content_encoding w) (content_type w).

(** Token counts of an OpenAI or, failing that, an Anthropic usage. *)
Definition capture_usage (c : ChatCompletion) (data : bytes) (w : nonStreamResponseWriter) : nonStreamResponseWriter :=
  let w := mk_nsw (out w) (buffer w) (if has_counter then n_counted w ++ [c] else n_counted w) (n_input w) (n_output w)
             (n_convertAnthropic w) (content_encoding w) (content_type w) in
  let u := cp_Usage c in
  if decide (0 < PromptTokens u ∨ 0 < CompletionTokens u) then set_captured (PromptTokens u) (CompletionTokens u) w
  else
    match (j ← parse_json data; o ← as_struct j; u ← object_field (bs "usage") o;
           i ← int_field (bs "input_tokens") u; ot ← int_field (bs "output_tokens") u; Some (i, ot)) with
    | Some (i, ot) => set_captured i ot w
    | None => w
    end.

Definition openai_usage (data : bytes) : option (Z * Z) :=
  j ← parse_json data; o ← as_struct j; u ← object_field (bs "usage") o;
  i ← int_field (bs "prompt_tokens") u; ot ← int_field (bs "completion_tokens") u; Some (i, ot).

(** The counts of the converted answer and the headers of plain JSON. *)
Definition capture_converted (converted : bytes) (w : nonStreamResponseWriter) : nonStreamResponseWriter :=
  let w := match openai_usage converted with Some (i, o) => set_captured i o w | None => w end in
  mk_nsw (out w) (buffer w) (n_counted w) (n_input w) (n_output w) (n_convertAnthropic w) [] (bs "application/json").

Definition block_first (c : ChatCompletion) : ChatCompletion :=
  mk_completion (match cp_Choices c with [] => [] | _ :: l => blocked_message :: l end) (cp_Usage c) (cp_rest c).

Definition nonStreamWrite (originData : bytes) : wio nonStreamResponseWriter (Z * option bytes) :=
  let originLen := len originData in
  let write data := err ← writeToInternal data; mret (originLen, err) in
  update (λ w, set_out (out w) (buffer w ++ originData) w);;
  w ← io_gets fst;
  let originEncodingHeader := content_encoding w in
  match compress_Decode originEncodingHeader (buffer w) with
  | DecodeError => mret (originLen, None)
  | Decoded data | UnexpectedEOF data =>
      match decode_completion data with
      | None => mret (originLen, None)
      | Some completion =>
          update (capture_usage completion data);;
          match cp_Choices completion with
          | [] =>
              match (if n_convertAnthropic w then anthropicToOpenAIResponse now data else None) with
              | Some converted => update (capture_converted converted);; write converted
              | None => write originData
              end
          | _ =>
              result ← ask (mod_CheckChatNonStreamResponse completion);
              match result with
              | Ok result =>
                  if IsSensitive result then
                    write (compress_Encode originEncodingHeader (marshal_completion (block_first completion)))
                  else write (buffer w)
              | Err _ => write (buffer w)
              end
          end
      end
  end.

Definition ClearBuffer : wio nonStreamResponseWriter unit :=
  w ← io_gets fst;
  match buffer w with [] => mret tt | data => writeToInternal data;; mret tt end.

End writers.
