(* ===== verification/GwStreamSpec.v ===== *)
(** Guarantees and limits of the gateway's response writers: events do not
    depend on how the stream is cut into writes, the bytes handed on do
    (through the shared buffer), a flagged chunk ends the stream, and a body
    without choices that arrives in pieces loses all but the last. *)
From S2P Require Import Prelude GoLib GoFloat GoJson GoHash Sensitive GwModeration GwModerationSpec GwStream.
Open Scope Z_scope.

(** ** Complete events *)

(** Fuel beyond the length of the data makes no difference. *)
Lemma complete_events_fuel n : ∀ m data, (length data ≤ n)%nat → (length data ≤ m)%nat →
  complete_events n data = complete_events m data.
Proof.
  induction n as [|n IH]; intros m data Hn Hm.
  - destruct data; [|simpl in Hn; lia]. by destruct m.
  - destruct m as [|m]; [destruct data; [done|simpl in Hm; lia]|]. cbn [complete_events].
    destruct (Cut data nlnl) as [[a rest]|] eqn:Hc; [|done]. apply Cut_Some in Hc as ->.
    rewrite !length_app in *. simpl in *. by rewrite (IH m rest) by lia.
Qed.

Lemma complete_events_tail n : ∀ s raws tail, complete_events n s = (raws, tail) → s = concat raws ++ tail.
Proof.
  induction n as [|n IH]; intros s raws tail Hr; cbn [complete_events] in Hr; [by injection Hr as <- <-|].
  destruct (Cut s nlnl) as [[a r]|] eqn:Hc; [|by injection Hr as <- <-].
  destruct (complete_events n r) as [l tl] eqn:Hr'. injection Hr as <- <-. apply IH in Hr'.
  apply Cut_Some in Hc as ->. cbn [concat]. rewrite Hr', <-!(assoc_L (++)). done.
Qed.

(** What has been found in a part of the stream is found again in the whole. *)
Lemma complete_events_app n : ∀ s t raws tail, (length (s ++ t) ≤ n)%nat →
  complete_events n s = (raws, tail) →
  complete_events n (s ++ t) = (raws ++ (complete_events n (tail ++ t)).1, (complete_events n (tail ++ t)).2).
Proof.
  induction n as [|n IH]; intros s t raws tail Hn Hs.
  - simpl in *. injection Hs as <- <-. done.
  - cbn [complete_events] in Hs. destruct (Cut s nlnl) as [[a rest]|] eqn:Hc.
    + destruct (complete_events n rest) as [l tl] eqn:Hr. injection Hs as <- <-.
      pose proof (Cut_Some _ _ _ _ Hc) as Heq. pose proof (complete_events_tail _ _ _ _ Hr) as Htl.
      assert (length (rest ++ t) ≤ n)%nat as Hlen by (subst s; rewrite !length_app in *; simpl in *; lia).
      rewrite <-(complete_events_fuel n (S n) (tl ++ t)) by (rewrite Htl, !length_app in Hlen; rewrite length_app; lia).
      cbn [complete_events]. rewrite (Cut_app _ t _ _ _ Hc), (IH rest t l tl Hlen Hr).
      by destruct (complete_events n (tl ++ t)).
    + injection Hs as <- <-. by destruct (complete_events (S n) (s ++ t)).
Qed.

(** ** The decoder *)

Abbreviation scan s := (complete_events (length s) s).

(** Type and data of the complete events of a stream. *)
Definition events_of (s : bytes) : list (bytes * bytes) := parseEvent <$> (scan s).1.
Definition view (e : Event) : bytes * bytes := (Type_ e, Data_ e).

(** All the events of a sequence of writes. *)
Fixpoint write_all (buf : bytes) (chunks : list bytes) : list Event * bytes :=
  match chunks with
  | [] => ([], buf)
  | p :: chunks' => let '(evs, buf) := Write buf p in
                    let '(evs', buf) := write_all buf chunks' in (evs ++ evs', buf)
  end.

Lemma fmap_with_offsets {A} (f : bytes → A) off raws : (λ v : nat * bytes, f v.2) <$> with_offsets off raws = f <$> raws.
Proof. revert off. induction raws as [|r raws IH]; intros off; [done|]. simpl. by rewrite IH. Qed.

Lemma Write_view buf p : view <$> (Write buf p).1 = events_of (buf ++ p) ∧ (Write buf p).2 = (scan (buf ++ p)).2.
Proof.
  unfold Write, events_of. destruct (complete_events _ _) as [raws tail]. simpl. split; [|done].
  rewrite <-list_fmap_compose, <-(fmap_with_offsets parseEvent 0 raws). apply list_fmap_ext.
  intros i v _. simpl. by destruct (parseEvent v.2).
Qed.

Lemma scan_app s t : scan (s ++ t) = ((scan s).1 ++ (scan ((scan s).2 ++ t)).1, (scan ((scan s).2 ++ t)).2).
Proof.
  destruct (scan s) as [raws tail] eqn:Hs. simpl. pose proof (complete_events_tail _ _ _ _ Hs) as Heq.
  rewrite (complete_events_fuel _ (length (s ++ t))) in Hs by (rewrite ?length_app; lia).
  rewrite (complete_events_app _ s t raws tail) by done.
  rewrite (complete_events_fuel (length (tail ++ t)) (length (s ++ t))); [done|lia|].
  rewrite Heq, !length_app. lia.
Qed.

Lemma write_all_spec chunks : ∀ buf s, (scan s).2 = buf →
  events_of (s ++ concat chunks) = events_of s ++ (view <$> (write_all buf chunks).1) ∧
  (write_all buf chunks).2 = (scan (s ++ concat chunks)).2.
Proof.
  induction chunks as [|p chunks IH]; intros buf s Hbuf; cbn [concat write_all].
  - rewrite !app_nil_r. by subst.
  - destruct (Write_view buf p) as [Hv Ht]. destruct (Write buf p) as [evs buf1]. simpl in Hv, Ht.
    pose proof (scan_app s p) as Hsp. rewrite Hbuf in Hsp.
    destruct (IH buf1 (s ++ p)) as [Hev Hbf]; [by rewrite Hsp, Ht|].
    destruct (write_all buf1 chunks) as [evs' buf2]. simpl in *.
    rewrite <-(assoc_L (++)) in Hev, Hbf. split; [|done]. rewrite Hev, fmap_app, (assoc_L (++)). f_equal.
    unfold events_of at 1. rewrite Hsp. cbn [fst]. rewrite fmap_app. by rewrite Hv.
Qed.

(** The type and data of the events the decoder returns depend only on
    the stream, not on how it is cut into writes: over any sequence of writes
    they are those of the concatenation, in order and once each, and what
    stays buffered is the part after the last blank line. *)
Theorem decoder_ignores_chunking chunks :
  (view <$> (write_all [] chunks).1) = events_of (concat chunks) ∧
  (write_all [] chunks).2 = (scan (concat chunks)).2.
Proof. destruct (write_all_spec chunks [] [] eq_refl) as [Hev Hbf]. simpl app in Hev, Hbf. by rewrite Hev. Qed.

Lemma views_concat (raws : list bytes) (arr : bytes) : ∀ off,
  concat ((λ v : nat * bytes, take (length v.2) (drop v.1 arr)) <$> with_offsets off raws) = take (length (concat raws)) (drop off arr).
Proof.
  induction raws as [|r raws IH]; intros off; [done|]. cbn [with_offsets]. rewrite fmap_cons. cbn [concat fst snd].
  rewrite IH, length_app, <-drop_drop. by rewrite take_take_drop.
Qed.

Lemma views_exact (raws : list bytes) : ∀ pre : bytes,
  (λ v : nat * bytes, take (length v.2) (drop v.1 (pre ++ concat raws))) <$> with_offsets (length pre) raws = raws.
Proof.
  induction raws as [|r raws IH]; intros pre; [done|]. cbn [with_offsets concat]. rewrite fmap_cons. cbn [fst snd]. f_equal.
  - by rewrite drop_app_length, take_app_length.
  - rewrite <-length_app, (assoc_L (++)). apply IH.
Qed.

(** The views the events are given, after the rest has been copied. *)
Lemma Write_raw buf p raws tail : scan (buf ++ p) = (raws, tail) →
  concat (Raw <$> (Write buf p).1) = take (length (concat raws)) (tail ++ drop (length tail) (buf ++ p)) ∧
  (tail = [] → Raw <$> (Write buf p).1 = raws).
Proof.
  intros Hs. pose proof (complete_events_tail _ _ _ _ Hs) as Heq. unfold Write. rewrite Hs. cbn [fst]. rewrite <-list_fmap_compose.
  assert (Hview : ∀ arr, ((λ v : nat * bytes, let '(ty, d) := parseEvent v.2 in mk_evt ty d (take (length v.2) (drop v.1 arr))) <$> with_offsets 0 raws)
    = (λ v : nat * bytes, mk_evt (parseEvent v.2).1 (parseEvent v.2).2 (take (length v.2) (drop v.1 arr))) <$> with_offsets 0 raws).
  { intros arr. apply list_fmap_ext. intros i v _. by destruct (parseEvent v.2). }
  assert (Hraws : ∀ arr, (Raw ∘ λ v : nat * bytes, let '(ty, d) := parseEvent v.2 in mk_evt ty d (take (length v.2) (drop v.1 arr))) <$> with_offsets 0 raws
    = (λ v : nat * bytes, take (length v.2) (drop v.1 arr)) <$> with_offsets 0 raws).
  { intros arr. rewrite list_fmap_compose, Hview, <-list_fmap_compose. done. }
  rewrite Hraws. split.
  - by rewrite views_concat, drop_0.
  - intros ->. rewrite Heq, app_nil_r. cbn. rewrite drop_0. apply (views_exact raws [] ).
Qed.

(** The bytes of the events are not safe. Complete events [raws] and the
    incomplete rest [tail] of a write share one array, and [tail] is copied to
    its front before the caller reads [Raw]: what the caller reads, end to
    end, is the array with its first [len(tail)] bytes replaced by [tail].
    The events arrive intact when a write ends with an event, and in general
    only if [tail] repeats the bytes it overwrites. *)
Theorem raw_bytes_overwritten buf p raws tail :
  scan (buf ++ p) = (raws, tail) →
  buf ++ p = concat raws ++ tail ∧
  concat (Raw <$> (Write buf p).1) = take (length (concat raws)) (tail ++ drop (length tail) (buf ++ p)) ∧
  (tail = [] → concat (Raw <$> (Write buf p).1) = buf ++ p) ∧
  ((length tail ≤ length (concat raws))%nat →
     concat (Raw <$> (Write buf p).1) = concat raws ↔ tail = take (length tail) (concat raws)).
Proof.
  intros Hs. pose proof (complete_events_tail _ _ _ _ Hs) as Heq.
  destruct (Write_raw buf p raws tail Hs) as [Hraw _].
  split_and!; [done|done| |].
  - intros ->. rewrite Hraw, Heq. simpl. by rewrite app_nil_r, drop_0, take_ge.
  - intros Hl. rewrite Hraw, Heq. rewrite take_app, (take_ge tail) by done.
    rewrite drop_app_le, take_app_le by (rewrite ?length_drop; lia). rewrite take_ge by (rewrite length_drop; lia). split.
    + intros Hc. apply (f_equal (take (length tail))) in Hc. by rewrite take_app_length in Hc.
    + intros Ht. rewrite Ht at 1. apply take_drop.
Qed.

Lemma raw_bytes_overwritten_witness :
  let p := bs "data: one" ++ nlnl ++ bs "data: tw" in
  scan ([] ++ p) = ([bs "data: one" ++ nlnl], bs "data: tw") ∧
  (Write [] p).1 = [mk_evt [] (bs "one") (bs "data: twe" ++ nlnl)] ∧
  concat (Raw <$> (Write [] p).1) = take 11 (bs "data: tw" ++ drop 8 p).
Proof.
  split; [vm_compute; reflexivity|]. split; [vm_compute; reflexivity|].
  apply (raw_bytes_overwritten [] (bs "data: one" ++ nlnl ++ bs "data: tw") [bs "data: one" ++ nlnl] (bs "data: tw")).
  vm_compute. reflexivity.
Defined.

(** ** The streaming writer *)

Section stream.
Context {W : Type} `{!Moderation W}.
Variable decode_chunk : bytes → option ChatCompletionChunk.
Variable marshal_chunk : ChatCompletionChunk → bytes.
Variable has_counter : bool.
Variable now : Z.
Notation stream_events := (stream_events decode_chunk marshal_chunk has_counter).

(** The verdicts on an event: moderation asked about its chunk in some state
    of its world flagged it; or did not, or failed, or the event is no chunk. *)
Definition flagged (id : bytes) (e : Event) : Prop :=
  ∃ c w res, decode_chunk (Data_ e) = Some c ∧ (mod_CheckChatStreamResponse c id w).1 = Ret res ∧ IsSensitive res = true.
Definition unflagged (id : bytes) (e : Event) : Prop :=
  ∀ c, decode_chunk (Data_ e) = Some c → ∃ w,
    match (mod_CheckChatStreamResponse c id w).1 with Ret res => IsSensitive res = false | Fail _ => True | Panic => False end.

Definition refusal (l : list bytes) : Prop :=
  ∃ c ix, ck_Choices c = [plain_choice blocked_message (bs "sensitive") ix] ∧
    l = [bs "data: " ++ marshal_chunk c ++ nlnl; bs "data: [DONE]" ++ nlnl].

(** What became of the events [events] when [added] was sent and the write
    ended with [o]: those of [pre] that have data were handed on, all of them
    unflagged or the end marker; [post] was not reached. *)
Definition delivered (id : bytes) (n : Z) (events : list Event) (added : list bytes) (o : outcome unit Z) : Prop :=
  ∃ pre post extra, events = pre ++ post ∧
    added = (Raw <$> filter (λ e, Data_ e ≠ []) pre) ++ extra ∧
    Forall (λ e, Data_ e = [] ∨ Data_ e = bs "[DONE]" ∨ unflagged id e) pre ∧
    match o with
    | Ret k => k = n ∧ extra = [] ∧ (post = [] ∨ ∃ e, last pre = Some e ∧ Data_ e = bs "[DONE]")
    | Fail _ => refusal extra ∧ ∃ e post', post = e :: post' ∧ flagged id e
    | Panic => extra = []
    end.

Lemma delivered_cons id n e events added o : Data_ e = [] ∨ unflagged id e →
  delivered id n events added o → delivered id n (e :: events) ((if decide (Data_ e = []) then [] else [Raw e]) ++ added) o.
Proof.
  intros He (pre & post & extra & -> & -> & Hall & Ho). exists (e :: pre), post, extra. split_and!; [done| | |].
  - rewrite filter_cons. by destruct (decide (Data_ e = [])), (decide (Data_ e ≠ [])).
  - constructor; [destruct He; eauto|done].
  - destruct o; [|done|done]. destruct Ho as (-> & -> & Hp). split_and!; [done|done|]. destruct Hp as [?|(d & Hl & ?)]; [by left|right].
    exists d. split; [|done]. by destruct pre.
Qed.

Lemma capture_written c data rw : written (capture has_counter c data rw) = written rw ∧ rw_id (capture has_counter c data rw) = rw_id rw.
Proof. unfold capture. by repeat case_match. Qed.

Lemma stream_events_decoder n events : ∀ rw w o rw' w', stream_events n events (rw, w) = (o, (rw', w')) → decoder rw' = decoder rw.
Proof.
  assert (Hcap : ∀ c data rw, decoder (capture has_counter c data rw) = decoder rw) by (intros; unfold capture; by repeat case_match).
  induction events as [|e events IH]; intros rw w o rw' w' Hrun; cbn [GwStream.stream_events] in Hrun; [by injection Hrun as <- <- <-|].
  case_decide; [by apply (IH _ _ _ _ _ Hrun)|]. case_decide; [by injection Hrun as <- <- <-|].
  destruct (decode_chunk (Data_ e)) as [c|]; [|by apply (IH _ _ _ _ _ Hrun)].
  unfold mbind, io_bind, update, io_modify, io_gets, ask in Hrun. cbn [fst snd] in Hrun.
  destruct (mod_CheckChatStreamResponse c _ w) as [[res|err|] w1]; cbn [fst snd] in Hrun.
  - destruct (IsSensitive res); [|apply IH in Hrun; cbn in Hrun; by rewrite Hrun].
    destruct (generateSensitiveRespForContent c); injection Hrun as <- <- <-; cbn; apply Hcap.
  - apply IH in Hrun. cbn in Hrun. by rewrite Hrun.
  - injection Hrun as <- <- <-. apply Hcap.
Qed.

Lemma stream_events_spec n events : ∀ rw w o rw' w', stream_events n events (rw, w) = (o, (rw', w')) →
  ∃ added, written rw' = written rw ++ added ∧ delivered (rw_id rw) n events added o.
Proof.
  induction events as [|e events IH]; intros rw w o rw' w' Hrun; cbn [GwStream.stream_events] in Hrun.
  { injection Hrun as <- <- <-. exists []. rewrite app_nil_r. split; [done|]. exists [], [], []. split_and!; [done|done|constructor|done|done|by left]. }
  assert (Hfwd : ∀ rw1 w1, written rw1 = written rw → rw_id rw1 = rw_id rw →
    stream_events n events (writeInternal (Raw e) rw1, w1) = (o, (rw', w')) → Data_ e ≠ [] → unflagged (rw_id rw) e →
    ∃ added, written rw' = written rw ++ added ∧ delivered (rw_id rw) n (e :: events) added o).
  { intros rw1 w1 Hw Hid Hr Hd Hu. destruct (IH _ _ _ _ _ Hr) as (added & Hwr & Hdel). simpl in Hwr, Hdel. rewrite Hid in Hdel.
    eexists. split; [|apply delivered_cons; [by right|exact Hdel]]. rewrite decide_False by done. by rewrite Hwr, Hw, <-(assoc_L (++)). }
  case_decide as Hd.
  { destruct (IH _ _ _ _ _ Hrun) as (added & Hwr & Hdel). exists added. split; [done|].
    pose proof (delivered_cons (rw_id rw) n e events added o (or_introl Hd) Hdel) as Hc. by rewrite decide_True in Hc. }
  case_decide as Hdone.
  { injection Hrun as <- <- <-. exists [Raw e]. split; [done|]. exists [e], events, []. split_and!; [done| |by constructor; [eauto|]|done|done|by eauto].
    by rewrite filter_cons_True. }
  destruct (decode_chunk (Data_ e)) as [c|] eqn:Hdec; [|by apply (Hfwd rw w); [done|done|done|done|intros ?; rewrite Hdec]].
  destruct (capture_written c (Data_ e) rw) as [Hcw Hci].
  unfold mbind, io_bind, update, io_modify, io_gets, ask in Hrun. cbn [fst snd] in Hrun. rewrite Hci in Hrun.
  destruct (mod_CheckChatStreamResponse c (rw_id rw) w) as [[res|err|] w1] eqn:Hck; cbn [fst snd] in Hrun.
  - destruct (IsSensitive res) eqn:Hsens.
    2: { eapply Hfwd; [exact Hcw|exact Hci|exact Hrun|done|]. intros c' Hc'. simplify_eq. exists w. by rewrite Hck. }
    unfold generateSensitiveRespForContent in Hrun. destruct (ck_Choices c) as [|ch l] eqn:Hch.
    { injection Hrun as <- <- <-. exists []. rewrite app_nil_r. split; [done|]. exists [], (e :: events), []. split_and!; [done|done|constructor|done]. }
    injection Hrun as <- <- <-. eexists. split; [simpl; by rewrite Hcw, <-(assoc_L (++))|].
    eexists [], (e :: events), _. split_and!; [done|done|constructor| |].
    + eexists (mk_chunk _ [plain_choice blocked_message (bs "sensitive") (ch_Index ch)] _ _ _ _ _ _), _. split; reflexivity.
    + exists e, events. split; [done|]. exists c, w, res. by rewrite Hck.
  - eapply Hfwd; [exact Hcw|exact Hci|exact Hrun|done|]. intros c' Hc'. simplify_eq. exists w. by rewrite Hck.
  - injection Hrun as <- <- <-. exists []. rewrite app_nil_r. split; [done|]. exists [], (e :: events), []. split_and!; [done|done|constructor|done].
Qed.

(** C10: a write to a streaming writer that does not convert Anthropic answers
    finds the events the bytes so far complete, keeps the incomplete rest for
    the next write, and goes through the events in their order, up to the end
    marker: an event with data is handed on as long as moderation does not flag
    it (it is the marker, no chunk, or its check passes or fails with an error),
    and the first flagged one is replaced by a refusal chunk and the end marker,
    the write reports an error, and no event after it is handed on. A panic, of
    a check or of a flagged chunk without choices, ends the write where it is.
    Type and data of the events are those of the stream; the bytes handed on
    for them are what the decoder's array holds by then, whose front the rest
    has been copied over: they are the events' own bytes when the write ends
    with an event, and otherwise begin with those of the rest, which moderation
    has not seen. *)
Theorem flagged_chunk_ends_stream data rw w o rw' w' raws tail :
  convertAnthropic rw = false → scan (decoder rw ++ data) = (raws, tail) →
  streamWrite decode_chunk marshal_chunk has_counter now data (rw, w) = (o, (rw', w')) →
  ∃ events added,
    view <$> events = parseEvent <$> raws ∧
    concat (Raw <$> events) = take (length (concat raws)) (tail ++ drop (length tail) (decoder rw ++ data)) ∧
    (tail = [] → Raw <$> events = raws) ∧
    decoder rw' = tail ∧ written rw' = written rw ++ added ∧
    delivered (rw_id rw) (len data) events added o.
Proof.
  intros Hconv Hscan. unfold streamWrite, mbind, io_bind, io_gets. cbn [fst]. rewrite Hconv.
  pose proof (Write_view (decoder rw) data) as [Hview Hbuf]. pose proof (Write_raw (decoder rw) data raws tail Hscan) as [Hraw Hexact].
  destruct (Write (decoder rw) data) as [events buf]. cbn [fst snd] in *. intros Hrun.
  destruct (stream_events_spec _ _ _ _ _ _ _ Hrun) as (added & Hw & Hd). apply stream_events_decoder in Hrun. cbn in Hrun.
  exists events, added. unfold events_of in Hview. rewrite Hscan in Hview, Hbuf. split_and!; [done|done|done|by rewrite Hrun|done|done].
Qed.

(** The converting path counts and captures nothing. *)
Lemma anthropic_lines_tokens lines : ∀ rw, let rw' := anthropic_lines now lines rw in
  GetCapturedTokens rw' = GetCapturedTokens rw ∧ counted rw' = counted rw ∧ convertAnthropic rw' = convertAnthropic rw.
Proof.
  induction lines as [|line lines IH]; intros rw; cbn [anthropic_lines]; [done|]. case_decide; [apply IH|].
  destruct (anthropicSSEToOpenAISSE _ _ _ _) as [[[o d] id] md].
  destruct d; [by case_decide|]. cbv zeta in IH |- *.
  match goal with |- context [anthropic_lines now lines ?rw1] => destruct (IH rw1) as (-> & -> & ->) end. by case_decide.
Qed.
End stream.

(** A sequence of writes. *)
Definition write_seq {S E A} (write : bytes → io S E A) (pieces : list bytes) : io S E unit :=
  foldr (λ piece rest, write piece;; rest) (mret tt) pieces.

(** When Anthropic answers are converted, the streaming writer sends
    every piece on without consulting moderation, whichever implementation it
    is given, and captures no tokens: its counts stay what they were however
    much is written, so the usage of such a stream is recorded as zero. *)
Theorem converted_stream_unmoderated_uncounted {W} (M1 M2 : Moderation W) decode_chunk marshal_chunk has_counter now pieces rw w :
  convertAnthropic rw = true →
  let run (M : Moderation W) := write_seq (streamWrite (Moderation0 := M) decode_chunk marshal_chunk has_counter now) pieces (rw, w) in
  run M1 = run M2 ∧
  ∃ rw', run M1 = (Ret tt, (rw', w)) ∧ GetCapturedTokens rw' = GetCapturedTokens rw ∧ counted rw' = counted rw.
Proof.
  intros Hconv. cbv zeta.
  assert (Hone : ∀ (M : Moderation W) rw1 data, convertAnthropic rw1 = true →
    streamWrite (Moderation0 := M) decode_chunk marshal_chunk has_counter now data (rw1, w)
    = (Ret (len data), (anthropic_lines now (splitSSELines data) rw1, w))).
  { intros M rw1 data Hc. unfold streamWrite, mbind, io_bind, io_gets. simpl. by rewrite Hc. }
  revert rw Hconv. induction pieces as [|data pieces IH]; intros rw Hconv; [by eauto|]. cbn [write_seq foldr].
  rewrite !(io_bind_run _ _ _ _ _ (Hone _ rw data Hconv)).
  destruct (anthropic_lines_tokens now (splitSSELines data) rw) as (Ht & Hk & Hc).
  destruct (IH (anthropic_lines now (splitSSELines data) rw)) as (Heq & rw' & Hr & Ht' & Hk'); [congruence|].
  split; [exact Heq|]. exists rw'. split_and!; [exact Hr|congruence|congruence].
Qed.

(** An outage of the moderation service ends the stream with a panic.
    The writer means to hand an event on when its check fails, but the
    component dereferences the result the client did not return, so on the
    first chunk with text that finds the service failing the write panics and
    nothing of it reaches the client. *)
Theorem moderation_outage_breaks_stream modImpl svc decode_chunk marshal_chunk has_counter now data rw w e events c ch chs err fs :
  modSvcClient modImpl = Some svc → convertAnthropic rw = false →
  (Write (decoder rw) data).1 = e :: events → Data_ e ≠ [] → Data_ e ≠ bs "[DONE]" →
  decode_chunk (Data_ e) = Some c → ck_Choices c = ch :: chs → TrimSpace (dl_Content (ch_Delta ch)) ≠ [] →
  mw_faults w = Some err :: fs →
  ∃ rw' w', streamWrite (Moderation0 := moderation_of modImpl) decode_chunk marshal_chunk has_counter now data (rw, w) = (Panic, (rw', w')) ∧
    written rw' = written rw.
Proof.
  intros Hsvc Hconv Hev Hd Hdone Hdec Hch Htext Hf. unfold streamWrite, mbind, io_bind, io_gets. cbn [fst]. rewrite Hconv.
  destruct (Write (decoder rw) data) as [evs buf]. simpl in Hev. subst evs. cbn [stream_events].
  rewrite decide_False, decide_False, Hdec by done.
  assert (CheckChatStreamResponse modImpl c (rw_id rw) w = (Panic, set_faults fs w)) as Hpanic.
  { unfold CheckChatStreamResponse. rewrite Hsvc, Hch.
    rewrite decide_False by (intros [Hc _]; by rewrite Hc in Htext). rewrite decide_True by done.
    unfold post_nil, PassLLMRespCheck, svc_call, mbind, io_bind, io_try, next_fault. simpl. by rewrite Hf. }
  destruct (capture_written has_counter c (Data_ e) (set_decoder buf rw)) as [Hcw Hci].
  unfold mbind, io_bind, update, io_modify, io_gets, ask. cbn [fst snd]. rewrite Hci.
  cbn [rw_id set_decoder moderation_of mod_CheckChatStreamResponse]. rewrite Hpanic. cbn [fst snd]. eexists _, _. split; [reflexivity|]. by rewrite Hcw.
Qed.

(** ** The non-streaming writer *)

Section nonstream.
Context {W : Type} `{!Moderation W}.
Variable has_counter : bool.
Variable now : Z.
Variable compress_Decode : bytes → bytes → decoded.
Variable compress_Encode : bytes → bytes → bytes.
Variable decode_completion : bytes → option ChatCompletion.
Variable marshal_completion : ChatCompletion → bytes.
Variable client_error : bytes → option bytes.
Notation nonStreamWrite := (nonStreamWrite has_counter now compress_Decode compress_Encode decode_completion marshal_completion client_error).

(** The completion the buffered bytes decode to, if they do. *)
Definition body (enc buf : bytes) : option ChatCompletion :=
  match compress_Decode enc buf with Decoded d | UnexpectedEOF d => decode_completion d | DecodeError => None end.

Lemma write_incomplete p st w : body (content_encoding st) (buffer st ++ p) = None →
  nonStreamWrite p (st, w) = (Ret (len p, None), (set_out (out st) (buffer st ++ p) st, w)).
Proof.
  unfold body, GwStream.nonStreamWrite, mbind, io_bind, update, io_modify, io_gets. cbn [fst snd content_encoding buffer set_out]. intros Hb.
  by destruct (compress_Decode _ _) as [d|d|]; [rewrite Hb|rewrite Hb|].
Qed.

(** What the client is given for a body [q] completes. *)
Definition answer_of (c : ChatCompletion) (enc whole q : bytes) (w : W) : option bytes :=
  match cp_Choices c with
  | [] => Some q
  | _ => match (mod_CheckChatNonStreamResponse c w).1 with
         | Ret r => Some (if IsSensitive r then compress_Encode enc (marshal_completion (block_first c)) else whole)
         | Fail _ => Some whole
         | Panic => None
         end
  end.

Lemma capture_usage_out c data st :
  out (capture_usage has_counter c data st) = out st.
Proof. unfold capture_usage. by repeat case_match. Qed.

Lemma write_complete q st w c : n_convertAnthropic st = false →
  body (content_encoding st) (buffer st ++ q) = Some c →
  match answer_of c (content_encoding st) (buffer st ++ q) q w with
  | Some a => ∃ st' w', nonStreamWrite q (st, w) = (Ret (len q, client_error a), (st', w')) ∧ out st' = out st ++ [a] ∧ buffer st' = []
  | None => (nonStreamWrite q (st, w)).1 = Panic
  end.
Proof.
  intros Hconv. unfold body, GwStream.nonStreamWrite, answer_of, writeToInternal, mbind, io_bind, update, io_modify, io_gets, ask.
  cbn [fst snd content_encoding buffer set_out out n_convertAnthropic]. rewrite Hconv.
  destruct (compress_Decode _ _) as [d|d|]; intros Hb; [..|done]; rewrite Hb; cbn [fst snd].
  all: destruct (cp_Choices c) as [|ct l]; [eexists _, _; split_and!; [reflexivity|simpl; by rewrite capture_usage_out|reflexivity]|].
  all: cbn [fst snd]; destruct (mod_CheckChatNonStreamResponse c w) as [[r|e|] w1]; cbn [fst snd]; [destruct (IsSensitive r)| |done].
  all: eexists _, _; split_and!; [reflexivity|simpl; by rewrite capture_usage_out|reflexivity].
Qed.

(** A body that arrives in pieces, none of which completes it before the
    last. The pieces are held back, and at the last one a single answer is
    given: the whole body if moderation passes or fails, the body with its
    first message replaced if it is flagged; but if the body has no choices
    (an error reply, say) the client gets only the last piece. *)
Theorem body_in_pieces ps q st w c :
  n_convertAnthropic st = false → buffer st = [] → out st = [] →
  (∀ ps1 ps2, ps = ps1 ++ ps2 → ps1 ≠ [] → body (content_encoding st) (concat ps1) = None) →
  body (content_encoding st) (concat ps ++ q) = Some c →
  match answer_of c (content_encoding st) (concat ps ++ q) q w with
  | Some a => ∃ st' w', write_seq nonStreamWrite (ps ++ [q]) (st, w) = (Ret tt, (st', w')) ∧ out st' = [a]
  | None => (write_seq nonStreamWrite (ps ++ [q]) (st, w)).1 = Panic
  end.
Proof.
  intros Hconv Hbuf Hout Hinc Hcomp.
  assert (Hheld : ∀ ps1 ps2, ps = ps1 ++ ps2 →
    write_seq nonStreamWrite (ps ++ [q]) (st, w) = write_seq nonStreamWrite (ps2 ++ [q]) (set_out [] (concat ps1) st, w)).
  { intros ps1. induction ps1 as [|p ps1 IH] using rev_ind; intros ps2 Heq.
    - rewrite Heq. simpl. do 2 f_equal. destruct st. simpl in *. by subst.
    - rewrite <-(assoc_L (++)) in Heq. rewrite (IH _ Heq), concat_app. simpl. rewrite app_nil_r.
      rewrite (assoc_L (++)) in Heq. pose proof (Hinc _ _ Heq) as Hn. rewrite concat_app in Hn. simpl in Hn. rewrite app_nil_r in Hn.
      assert (nonStreamWrite p (set_out [] (concat ps1) st, w) = (Ret (len p, None), (set_out [] (concat ps1 ++ p) st, w))) as Hp.
      { apply (write_incomplete p (set_out [] (concat ps1) st) w), Hn. by destruct ps1. }
      by rewrite (io_bind_run _ _ _ _ _ Hp). }
  rewrite (Hheld ps []) by (by rewrite app_nil_r). simpl.
  pose proof (write_complete q (set_out [] (concat ps) st) w c Hconv Hcomp) as Hw. simpl in Hw.
  destruct (answer_of _ _ _ _ _) as [a|].
  - destruct Hw as (st' & w' & Hr & Ho & _). exists st', w'. split; [|done]. by rewrite (io_bind_run _ _ _ _ _ Hr).
  - unfold mbind, io_bind. by destruct (nonStreamWrite q _) as [[] ?].
Qed.
End nonstream.

(** ** Runs *)

Definition chunk_of_text (text : bytes) : ChatCompletionChunk := empty_chunk [plain_choice text [] 0].
Definition text_of_chunk (c : ChatCompletionChunk) : bytes := ck_Choices c ≫= λ ch, dl_Content (ch_Delta ch).
Definition write_ex := streamWrite (Moderation0 := moderation_of impl_ex) (λ d, Some (chunk_of_text d)) text_of_chunk true 0.

Lemma flagged_chunk_ends_stream_witness :
  let st := (newStreamResponseWriter (bs "s1") false, world_ex) in
  let data := bs "data: good" ++ nlnl ++ bs "data: bad" ++ nlnl ++ bs "data: more" ++ nlnl in
  let r := write_ex data st in
  r.1 = Fail tt ∧
  written r.2.1 = [bs "data: good" ++ nlnl; bs "data: " ++ blocked_message ++ nlnl; bs "data: [DONE]" ++ nlnl] ∧
  ∃ events added, view <$> events = parseEvent <$> (scan data).1 ∧ Raw <$> events = (scan data).1 ∧
    decoder r.2.1 = [] ∧ written r.2.1 = [] ++ added ∧
    delivered (Moderation0 := moderation_of impl_ex) (λ d, Some (chunk_of_text d)) text_of_chunk (bs "s1") (len data) events added r.1.
Proof.
  split; [vm_compute; reflexivity|]. split; [vm_compute; reflexivity|].
  set (data := bs "data: good" ++ nlnl ++ bs "data: bad" ++ nlnl ++ bs "data: more" ++ nlnl).
  set (st := (newStreamResponseWriter (bs "s1") false, world_ex)). cbv zeta.
  destruct (flagged_chunk_ends_stream (Moderation0 := moderation_of impl_ex) (λ d, Some (chunk_of_text d)) text_of_chunk true 0
    data (newStreamResponseWriter (bs "s1") false) world_ex (write_ex data st).1 (write_ex data st).2.1 (write_ex data st).2.2
    [bs "data: good" ++ nlnl; bs "data: bad" ++ nlnl; bs "data: more" ++ nlnl] []) as (events & added & Hv & _ & Hr & Hrest);
    [reflexivity|vm_compute; reflexivity|vm_compute; reflexivity|].
  exists events, added. split; [exact Hv|]. split; [exact (Hr eq_refl)|exact Hrest].
Defined.

Lemma moderation_outage_breaks_stream_witness :
  let w := mk_mod ∅ [] [Some (bs "connection refused")] in
  ∃ rw' w', write_ex (bs "data: good" ++ nlnl) (newStreamResponseWriter (bs "s1") false, w) = (Panic, (rw', w')) ∧ written rw' = [].
Proof.
  apply (moderation_outage_breaks_stream impl_ex word_service (λ d, Some (chunk_of_text d)) text_of_chunk true 0
    (bs "data: good" ++ nlnl) (newStreamResponseWriter (bs "s1") false) _
    (mk_evt [] (bs "good") (bs "data: good" ++ nlnl)) [] (chunk_of_text (bs "good")) (plain_choice (bs "good") [] 0) []
    (bs "connection refused") []); try reflexivity; vm_compute; try reflexivity; discriminate.
Defined.

(** A stream of two writes: a converted delta, and one split in the middle of
    a line, which is lost. *)
Definition delta_line (text : string) : bytes :=
  bs "data: {" ++ jstr "type" ++ bs ":" ++ jstr "content_block_delta" ++ bs "," ++ jstr "delta" ++ bs ":{" ++
  jstr "type" ++ bs ":" ++ jstr "text_delta" ++ bs "," ++ jstr "text" ++ bs ":" ++ jstr text ++ bs "}}" ++ nlnl.

Lemma converted_stream_unmoderated_uncounted_witness :
  let run M := write_seq (streamWrite (Moderation0 := M) (λ d, Some (chunk_of_text d)) text_of_chunk true 0)
    [delta_line "bad"; take 20 (delta_line "lost"); drop 20 (delta_line "lost")] (newStreamResponseWriter (bs "s1") true, world_ex) in
  (length <$> written (run (moderation_of impl_ex)).2.1) = [164%nat] ∧
  run (moderation_of impl_ex) = run (moderation_of (mk_impl None false false)) ∧
  ∃ rw', run (moderation_of impl_ex) = (Ret tt, (rw', world_ex)) ∧ GetCapturedTokens rw' = (0, 0) ∧ counted rw' = [].
Proof.
  split; [vm_compute; reflexivity|].
  apply (converted_stream_unmoderated_uncounted (moderation_of impl_ex) (moderation_of (mk_impl None false false))
    (λ d, Some (chunk_of_text d)) text_of_chunk true 0 _ (newStreamResponseWriter (bs "s1") true) world_ex). reflexivity.
Defined.

(** A body is complete when it ends with a brace; an error has no choices. *)
Definition completion_of (data : bytes) : option ChatCompletion :=
  if HasSuffix data (bs "}") then
    Some (mk_completion (if HasPrefix data (bs "{error") then [] else [data]) (mk_usage 0 0 0 JNull) JNull)
  else None.
Definition nonstream_ex := nonStreamWrite (Moderation0 := moderation_of impl_ex) true 0
  (λ _ d, Decoded d) (λ _ d, d) completion_of (λ c, concat (cp_Choices c)) (λ _, None).
Definition nsw_ex : nonStreamResponseWriter := mk_nsw [] [] [] 0 0 false [] [].

Lemma body_in_pieces_witness :
  (∃ st' w', write_seq nonstream_ex [bs "{error "; bs "too long}"] (nsw_ex, world_ex) = (Ret tt, (st', w')) ∧ out st' = [bs "too long}"]) ∧
  out (write_seq nonstream_ex [bs "{hello "; bs "world}"] (nsw_ex, world_ex)).2.1 = [bs "{hello world}"].
Proof.
  split; [|vm_compute; reflexivity].
  apply (body_in_pieces (Moderation0 := moderation_of impl_ex) true 0 (λ _ d, Decoded d) (λ _ d, d) completion_of
    (λ c, concat (cp_Choices c)) (λ _, None) [bs "{error "] (bs "too long}") nsw_ex world_ex
    (mk_completion [] (mk_usage 0 0 0 JNull) JNull)); try (vm_compute; reflexivity).
  intros [|p [|p' ps1]] ps2 Heq Hne; [done| |by destruct ps1].
  injection Heq as <- <-. vm_compute. reflexivity.
Defined.
