(* ===== verification/GwGuard.v ===== *)
(** Guards of the AI gateway: the per-user rate limiter (handler/rate_limit.go)
    over its Redis sorted set, and the model health checker
    (healthcheck/checker.go) over the model configurations and health logs.
    Redis and database calls may fail; clocks and endpoints are inputs. *)
From S2P Require Import Prelude GoLib GoFloat.
Open Scope Z_scope.

(** ** handler/rate_limit.go *)

(** A sorted set with its scores, and when the key expires (milliseconds). *)
Record zset := mk_zset { members : gmap bytes Z; expires : Z }.

Record rl_world := mk_rl { rl_sets : gmap bytes zset; rl_faults : list (option bytes) }.

#[export] Program Instance rl_world_faulty : Faulty rl_world bytes := {|
  get_faults := rl_faults;
  set_faults fs w := mk_rl (rl_sets w) fs |}.
Next Obligation. by intros []. Qed.

Abbreviation rio := (io rl_world bytes).

(** [time.Time] is a number of nanoseconds. *)
Definition rl_UnixMilli (t : Z) : Z := t / 1000000.
Definition rl_UnixMicro (t : Z) : Z := t / 1000.

(** The Lua script on the sorted set of its key, at [now]: entries up to
    [window_start] are removed; at the limit the count is returned; otherwise
    the member is added, the key kept for 120 seconds, and -1 returned. *)
Definition luaScript (now window_start limit : Z) (member : bytes) (s : zset) : Z * zset :=
  let m := if decide (expires s ≤ now) then ∅ else members s in
  let m := filter (λ e : bytes * Z, window_start < e.2) m in
  let count := Z.of_nat (size m) in
  if decide (limit ≤ count) then (count, mk_zset m (expires s))
  else (-1, mk_zset (<[member := now]> m) (now + 120 * 1000)).

Definition RunScript (key : bytes) (now window_start limit : Z) (member : bytes) : rio Z :=
  next_fault;; sets ← io_gets rl_sets;
  let '(r, s) := luaScript now window_start limit member (default (mk_zset ∅ 0) (sets !! key)) in
  io_modify (λ w, mk_rl (<[key := s]> (rl_sets w)) (rl_faults w));; mret r.

(** What the middleware does with a request: hands it on, with headers, or
    answers 429 with headers and a message. *)
Inductive rl_verdict :=
  | Next (headers : list (bytes * bytes))
  | TooManyRequests (headers : list (bytes * bytes)) (message : bytes).

(** [int(d.Seconds())] of a nonnegative duration. *)
Definition seconds (d : Z) : Z := d / 1000000000.

Definition member_of (now : Z) : bytes := Itoa now ++ bs ":" ++ Itoa (rl_UnixMicro now `mod` 10000).

(** [user] is the outcome of the two lookups: the user, and the limit stored
    for them. [now] is the clock at the start, [later] after the script. *)
Definition rate_limit (defaultRPM : Z) (username : bytes) (user : option (option Z)) (now later : Z) : rio rl_verdict :=
  if decide (username = []) then mret (Next [])
  else
    let rpm := match user with Some (Some r) => r | _ => defaultRPM end in
    if decide (rpm ≤ 0) then mret (Next [])
    else
      let key := bs "aitra:ratelimit:rpm:" ++ username in
      let windowStart := now - Minute in
      r ← io_try (RunScript key (rl_UnixMilli now) (rl_UnixMilli windowStart) rpm (member_of now));
      match r with
      | Err _ => mret (Next [])
      | Ok count =>
          if decide (0 ≤ count) then
            let retryAfter := 60 - seconds (later - windowStart) in
            let retryAfter := if decide (retryAfter < 1) then 1 else retryAfter in
            mret (TooManyRequests
              [(bs "Retry-After", Itoa retryAfter); (bs "X-RateLimit-Limit-RPM", Itoa rpm); (bs "X-RateLimit-Remaining", bs "0")]
              (bs "Rate limit exceeded: " ++ Itoa rpm ++ bs " requests per minute. Please retry after " ++ Itoa retryAfter ++ bs " seconds."))
          else mret (Next [(bs "X-RateLimit-Limit-RPM", Itoa rpm)])
      end.

(** ** healthcheck/checker.go *)

Record LLMConfig := mk_llm {
  llm_ID : Z; llm_ModelName : bytes; llm_Provider : bytes; llm_ApiEndpoint : bytes;
  llm_Enabled : bool; llm_HealthStatus : bytes; llm_LastCheckAt : Z;
}.
#[export] Instance LLMConfig_eq_dec : EqDecision LLMConfig.
Proof. solve_decision. Defined.
Record ModelHealthLog := mk_hlog {
  hl_ModelID : Z; hl_ModelName : bytes; hl_Provider : bytes; hl_Status : bytes; hl_LatencyMs : Z; hl_ErrorMsg : bytes; hl_CheckedAt : Z;
}.

Record hc_world := mk_hc {
  hc_configs : list LLMConfig;     (* the table llm_configs *)
  hc_logs : list ModelHealthLog;   (* the table model_health_logs *)
  hc_failures : gmap Z Z;          (* consecutive failures, by model *)
  hc_faults : list (option bytes);
}.

#[export] Program Instance hc_world_faulty : Faulty hc_world bytes := {|
  get_faults := hc_faults;
  set_faults fs w := mk_hc (hc_configs w) (hc_logs w) (hc_failures w) fs |}.
Next Obligation. by intros []. Qed.

Abbreviation hio := (io hc_world bytes).

Definition healthStatusOK : bytes := bs "online".
Definition healthStatusDown : bytes := bs "offline".
Definition maxFailures : Z := 3.

Definition set_health (enabled : bool) (lastCheck : Z) (c : LLMConfig) : LLMConfig :=
  mk_llm (llm_ID c) (llm_ModelName c) (llm_Provider c) (llm_ApiEndpoint c) enabled
    (if enabled then healthStatusOK else healthStatusDown) lastCheck.

Definition UpdateHealthStatus (id : Z) (enabled : bool) (lastCheck : Z) : hio unit :=
  next_fault;;
  io_modify (λ w, mk_hc ((λ c, if decide (llm_ID c = id) then set_health enabled lastCheck c else c) <$> hc_configs w)
                    (hc_logs w) (hc_failures w) (hc_faults w)).

Definition hc_Create (log : ModelHealthLog) : hio unit :=
  next_fault;; io_modify (λ w, mk_hc (hc_configs w) (hc_logs w ++ [log]) (hc_failures w) (hc_faults w)).

(** [Index(ctx, per, 1, nil)]: the first [per] rows. *)
Definition hc_Index (per : nat) : hio (list LLMConfig) :=
  next_fault;; configs ← io_gets hc_configs; mret (take per configs).

(** What the HEAD request came to. *)
Inductive probe :=
  | InvalidEndpoint (err : bytes)
  | ConnectionFailed (err : bytes)
  | Status (code : Z).

Definition probe_status (p : probe) : bytes * bytes :=
  match p with
  | InvalidEndpoint e => (healthStatusDown, bs "invalid endpoint: " ++ e)
  | ConnectionFailed e => (healthStatusDown, bs "connection failed: " ++ e)
  | Status code => if decide (500 ≤ code) then (healthStatusDown, bs "server error: " ++ Itoa code) else (healthStatusOK, [])
  end.

(** Clock readings of one check: the start, after the request, and [now]. *)
Record clock := mk_clock { at_start : Z; at_reply : Z; at_update : Z }.

Definition count_failure (id : Z) (status : bytes) : hio Z :=
  io_modify (λ w, mk_hc (hc_configs w) (hc_logs w)
    (<[id := if decide (status = healthStatusDown) then default 0 (hc_failures w !! id) + 1 else 0]> (hc_failures w)) (hc_faults w));;
  fs ← io_gets hc_failures; mret (default 0 (fs !! id)).

Definition checkModel (p : probe) (t : clock) (cfg : LLMConfig) : hio unit :=
  if decide (llm_ApiEndpoint cfg = []) then mret tt
  else
    let '(status, errMsg) := probe_status p in
    let latencyMs := (at_reply t - at_start t) / 1000000 in
    consecutiveFailures ← count_failure (llm_ID cfg) status;
    let now := at_update t in
    (if decide (maxFailures ≤ consecutiveFailures ∧ llm_Enabled cfg = true)
     then io_try (UpdateHealthStatus (llm_ID cfg) false now);; mret tt else mret tt);;
    (if llm_Enabled cfg then io_try (UpdateHealthStatus (llm_ID cfg) (llm_Enabled cfg) now);; mret tt else mret tt);;
    io_try (hc_Create (mk_hlog (llm_ID cfg) (llm_ModelName cfg) (llm_Provider cfg) status latencyMs errMsg now));; mret tt.

(** The checks of one round, in some order; each has its own probe and clock.
    Disabled models are not started. *)
Fixpoint check_each (probes : Z → probe) (clocks : Z → clock) (cfgs : list LLMConfig) : hio unit :=
  match cfgs with
  | [] => mret tt
  | cfg :: rest =>
      (if llm_Enabled cfg then checkModel (probes (llm_ID cfg)) (clocks (llm_ID cfg)) cfg else mret tt);;
      check_each probes clocks rest
  end.

(** [order] is the order in which the goroutines run their database calls. *)
Definition checkAll (order : list LLMConfig → list LLMConfig) (probes : Z → probe) (clocks : Z → clock) : hio unit :=
  r ← io_try (hc_Index 200);
  match r with
  | Err _ => mret tt
  | Ok configs => check_each probes clocks (order configs)
  end.
