(* ===== verification/GwGuardSpec.v ===== *)
(** What the gateway's guards guarantee: the rate limiter admits exactly what
    a sliding log of the last minute admits; a round of health checks, which
    records failures but never disables a model. *)
From Stdlib Require Import Sorted.
From S2P Require Import Prelude GoLib GoFloat GwGuard.
Open Scope Z_scope.

(** ** Decimal numbers *)

Lemma pretty_N_go_chars n : ∀ s, (∀ c, c ∈ String.list_ascii_of_string s → c ≠ ":"%char) →
  ∀ c, c ∈ String.list_ascii_of_string (pretty_N_go n s) → c ≠ ":"%char.
Proof.
  induction n as [n IH] using (well_founded_induction N.lt_wf_0). intros s Hs.
  destruct (decide (n = 0)%N) as [->|Hn]; [by rewrite pretty_N_go_0|].
  rewrite pretty_N_go_step by lia. apply IH; [apply N.div_lt; lia|]. simpl. intros c. rewrite elem_of_cons.
  intros [->|Hc]; [|by apply Hs]. unfold pretty_N_char. by repeat case_match.
Qed.

Lemma Itoa_no_colon z : ":"%char ∉ Itoa z.
Proof.
  assert (HN : ∀ n : N, ":"%char ∉ bs (pretty n)).
  { intros n. unfold pretty, pretty_N. case_decide; [vm_compute; set_solver|]. intros Hin.
    by eapply (pretty_N_go_chars n ""%string); [|exact Hin|]; [intros c Hc; by apply elem_of_nil in Hc|]. }
  unfold Itoa, pretty, pretty_Z. destruct z; [vm_compute; set_solver|apply HN|]. unfold bs. simpl.
  rewrite not_elem_of_cons. split; [done|]. apply HN.
Qed.

Lemma Itoa_inj z z' : Itoa z = Itoa z' → z = z'.
Proof.
  unfold Itoa, bs. intros Heq. apply (f_equal String.string_of_list_ascii) in Heq.
  rewrite !String.string_of_list_ascii_of_string in Heq. by apply (inj pretty).
Qed.

Lemma cut_unique (a b x y : bytes) : ":"%char ∉ a → ":"%char ∉ b → a ++ ":"%char :: x = b ++ ":"%char :: y → a = b.
Proof.
  revert b. induction a as [|c a IH]; intros [|d b] Ha Hb Heq; simplify_eq/=; [done|set_solver|set_solver|].
  f_equal. apply IH; set_solver.
Qed.

(** Requests at different times have different members. *)
Lemma member_of_inj t t' : member_of t = member_of t' → t = t'.
Proof. unfold member_of. simpl. intros Heq. apply Itoa_inj. by eapply cut_unique; [apply Itoa_no_colon..|]. Qed.

(** ** The rate limiter *)

(** The reference: a log of admitted requests; a request is admitted when
    fewer than [rpm] of the last 60 seconds (in milliseconds) are in it. *)
Definition recent (now : Z) (log : list Z) : list Z := filter (λ a, rl_UnixMilli now - 60000 < rl_UnixMilli a) log.
Definition log_step (rpm : Z) (log : list Z) (now : Z) : bool * list Z :=
  if decide (rpm ≤ len (recent now log)) then (false, log) else (true, log ++ [now]).

(** The sorted set at a time holds the log's entries later than [from]. *)
Record represents (from : Z) (log : list Z) (s : zset) : Prop := {
  rep_members k sc : members s !! k = Some sc ↔ ∃ a, a ∈ log ∧ k = member_of a ∧ sc = rl_UnixMilli a ∧ from < sc;
  rep_expires a : a ∈ log → rl_UnixMilli a + 120000 ≤ expires s;
}.

Lemma size_of_log (m : gmap bytes Z) (l : list Z) : NoDup l →
  (∀ k sc, m !! k = Some sc ↔ ∃ a, a ∈ l ∧ k = member_of a ∧ sc = rl_UnixMilli a) → Z.of_nat (size m) = len l.
Proof.
  intros Hnd Hm. set (ps := (λ a, (member_of a, rl_UnixMilli a)) <$> l).
  assert (NoDup ps.*1) as Hps.
  { unfold ps. rewrite <-list_fmap_compose. apply NoDup_fmap_2; [|done]. intros a b. apply member_of_inj. }
  assert (m = list_to_map ps) as ->.
  { apply map_eq. intros k. apply option_eq. intros sc. rewrite Hm, <-elem_of_list_to_map by done.
    unfold ps. rewrite list_elem_of_fmap. naive_solver. }
  unfold len. rewrite map_size_list_to_map by done. unfold ps. by rewrite length_fmap.
Qed.

Lemma script_step rpm log s from now : NoDup log → represents from log s →
  from ≤ rl_UnixMilli now - 60000 → (∀ a, a ∈ log → a < now) →
  let '(r, s') := luaScript (rl_UnixMilli now) (rl_UnixMilli now - 60000) rpm (member_of now) s in
  let '(ok, log') := log_step rpm log now in
  (ok = bool_decide (r < 0)) ∧ (ok = false → r = len (recent now log)) ∧ represents (rl_UnixMilli now - 60000) log' s'.
Proof.
  intros Hnd [Hm He] Hfrom Hlt. unfold luaScript, log_step.
  set (m := filter _ (if decide (expires s ≤ rl_UnixMilli now) then ∅ else members s)).
  assert (Hm' : ∀ k sc, m !! k = Some sc ↔ ∃ a, a ∈ recent now log ∧ k = member_of a ∧ sc = rl_UnixMilli a).
  { intros k sc. unfold m, recent. rewrite map_lookup_filter_Some. simpl. setoid_rewrite list_elem_of_filter. case_decide as Hexp.
    - rewrite lookup_empty. split; [naive_solver|]. intros (a & [Ha Hin] & _). apply He in Hin. lia.
    - rewrite Hm. naive_solver lia. }
  assert (Hsize : Z.of_nat (size m) = len (recent now log)) by (apply size_of_log; [by apply NoDup_filter|exact Hm']).
  assert (Hrep : ∀ k sc, m !! k = Some sc ↔ ∃ a, a ∈ log ∧ k = member_of a ∧ sc = rl_UnixMilli a ∧ rl_UnixMilli now - 60000 < sc).
  { intros k sc. rewrite Hm'. unfold recent. setoid_rewrite list_elem_of_filter. naive_solver. }
  rewrite Hsize. case_decide as Hl.
  - split_and!; [rewrite bool_decide_eq_false_2; [done|unfold len; lia]|done|]. by split.
  - split_and!; [done|done|]. split; simpl.
    + intros k sc. rewrite lookup_insert_Some, Hrep. setoid_rewrite elem_of_app. setoid_rewrite list_elem_of_singleton. split.
      * intros [[<- <-]|(Hne & a & Ha)]; [exists now; split_and!; [by right|done|done|lia]|exists a; naive_solver].
      * intros (a & [Ha| ->] & -> & -> & Hf); [|by left]. right. split; [|by eauto].
        intros Heq%member_of_inj. apply Hlt in Ha. lia.
    + intros a. rewrite elem_of_app, list_elem_of_singleton. intros [Ha| ->]; [|lia]. apply Hlt in Ha.
      assert (rl_UnixMilli a ≤ rl_UnixMilli now) by (apply Z.div_le_mono; lia). lia.
Qed.

(** A user's requests: when each comes, and what the two lookups of the user's
    own limit give then. *)
Abbreviation rl_request := (Z * option (option Z))%type.
Definition rpm_of (default_ : Z) (user : option (option Z)) : Z := match user with Some (Some r) => r | _ => default_ end.
Fixpoint rl_run (defaultRPM : Z) (username : bytes) (reqs : list rl_request) : rio (list bool) :=
  match reqs with
  | [] => mret []
  | (now, user) :: reqs' =>
      v ← rate_limit defaultRPM username user now now;
      l ← rl_run defaultRPM username reqs';
      mret ((match v with Next _ => true | TooManyRequests _ _ => false end) :: l)
  end.

(** The reference: a request without a limit is not looked at, one whose call
    of Redis fails is let pass and not counted, and any other is decided by the
    log and counted when it is admitted. [faults] are the outcomes of the calls
    of Redis, which only requests with a limit make. *)
Inductive decision := Unlimited | Unchecked | Checked (admitted : bool).
Definition lets_pass (d : decision) : bool := match d with Checked b => b | _ => true end.
Fixpoint log_run (defaultRPM : Z) (faults : list (option bytes)) (log : list Z) (reqs : list rl_request) : list (rl_request * decision) :=
  match reqs with
  | [] => []
  | (now, user) as r :: reqs' =>
      if decide (rpm_of defaultRPM user ≤ 0) then (r, Unlimited) :: log_run defaultRPM faults log reqs'
      else if head faults is Some (Some _) then (r, Unchecked) :: log_run defaultRPM (tail faults) log reqs'
      else let '(ok, log) := log_step (rpm_of defaultRPM user) log now in (r, Checked ok) :: log_run defaultRPM (tail faults) log reqs'
  end.

Definition rl_key (username : bytes) : bytes := bs "aitra:ratelimit:rpm:" ++ username.
Definition set_of (username : bytes) (w : rl_world) : zset := default (mk_zset ∅ 0) (rl_sets w !! rl_key username).

Lemma window_start now : rl_UnixMilli (now - Minute) = rl_UnixMilli now - 60000.
Proof. unfold rl_UnixMilli, Minute. replace (now - 60 * 1000000000) with (now + (-60000) * 1000000) by lia. rewrite Z.div_add by lia. lia. Qed.

Lemma RunScript_run key now start rpm member w :
  let '(r, s) := luaScript now start rpm member (default (mk_zset ∅ 0) (rl_sets w !! key)) in
  RunScript key now start rpm member w =
    match head (rl_faults w) with
    | Some (Some e) => (Fail e, mk_rl (rl_sets w) (tail (rl_faults w)))
    | _ => (Ret r, mk_rl (<[key := s]> (rl_sets w)) (tail (rl_faults w)))
    end.
Proof.
  destruct (luaScript _ _ _ _ _) as [r s] eqn:Hs. destruct w as [sets fs]. unfold RunScript, mbind, io_bind, next_fault, io_gets, io_modify.
  simpl in *. destruct fs as [|[e|] fs]; simpl; rewrite ?Hs; done.
Qed.

(** One request with a limit: a failing call of Redis lets it pass, otherwise
    the script decides. *)
Lemma rate_limit_run d username user now w : 0 < rpm_of d user → username ≠ [] →
  let '(r, s) := luaScript (rl_UnixMilli now) (rl_UnixMilli now - 60000) (rpm_of d user) (member_of now) (set_of username w) in
  ∃ v, rate_limit d username user now now w = (Ret v,
      if head (rl_faults w) is Some (Some _) then mk_rl (rl_sets w) (tail (rl_faults w))
      else mk_rl (<[rl_key username := s]> (rl_sets w)) (tail (rl_faults w))) ∧
    (match v with Next _ => true | _ => false end) = (if head (rl_faults w) is Some (Some _) then true else bool_decide (r < 0)).
Proof.
  intros Hrpm Hu. pose proof (RunScript_run (rl_key username) (rl_UnixMilli now) (rl_UnixMilli now - 60000) (rpm_of d user) (member_of now) w) as Hr.
  unfold set_of. destruct (luaScript _ _ _ _ _) as [r s]. unfold rate_limit. fold (rpm_of d user). cbv zeta. rewrite decide_False, decide_False by (done || lia).
  rewrite window_start. fold (rl_key username). unfold mbind, io_bind, io_try. rewrite Hr.
  destruct (head (rl_faults w)) as [[e|]|]; simpl; [by eauto|..]; (destruct (decide (0 ≤ r)); (eexists; split; [reflexivity|]);
    [by rewrite bool_decide_eq_false_2 by lia|by rewrite bool_decide_eq_true_2 by lia]).
Qed.

Lemma rate_limit_free d username user now w : rpm_of d user ≤ 0 → ∃ v, rate_limit d username user now now w = (Ret (Next v), w).
Proof. intros Hr. unfold rate_limit. case_decide; [by eauto|]. fold (rpm_of d user). cbv zeta. rewrite decide_True by done. by eauto. Qed.

(** A step of the log keeps it a log of different, earlier times. *)
Lemma log_step_ok rpm log now times : NoDup log → Forall (λ a, a < now) log → Forall (Z.lt now) times → Forall (λ t, Forall (λ a, a < t) log) times →
  NoDup (log_step rpm log now).2 ∧ Forall (λ t, Forall (λ a, a < t) (log_step rpm log now).2) times.
Proof.
  rewrite !Forall_forall. intros Hnd Hlog Hlater Ht. unfold log_step. case_decide; simpl; [done|]. split.
  - apply NoDup_app. split_and!; [done|intros x Hx ->%list_elem_of_singleton; apply Hlog in Hx; lia|apply NoDup_singleton].
  - intros t Hin. apply Forall_app. split; [by apply Ht|]. constructor; [by apply Hlater|done].
Qed.

Lemma rl_run_spec d username reqs : ∀ log from w, username ≠ [] → NoDup log → represents from log (set_of username w) →
  StronglySorted Z.lt reqs.*1 → Forall (λ t, from ≤ rl_UnixMilli t - 60000) reqs.*1 → Forall (λ t, Forall (λ a, a < t) log) reqs.*1 →
  ∃ w', rl_run d username reqs w = (Ret (lets_pass <$> (log_run d (rl_faults w) log reqs).*2), w').
Proof.
  induction reqs as [|[now user] reqs IH]; intros log from w Hu Hnd Hrep Hs Ht Hlt; cbn [rl_run log_run]; [by eauto|].
  cbn [fmap list_fmap fst] in Hs, Ht, Hlt. inversion Hs as [|?? Hs' Hlater]; subst. inversion Ht as [|?? Hfrom Ht']; subst. inversion Hlt as [|?? Hlog Hlt']; subst.
  case_decide as Hfree.
  { destruct (rate_limit_free d username user now w Hfree) as [v Hv]. rewrite (io_bind_run _ _ _ _ _ Hv).
    destruct (IH log from w) as [w' Hw']; try done. exists w'. by rewrite (io_bind_run _ _ _ _ _ Hw'). }
  pose proof (rate_limit_run d username user now w ltac:(lia) Hu) as Hrun.
  pose proof (script_step (rpm_of d user) log (set_of username w) from now Hnd Hrep Hfrom ltac:(by apply Forall_forall)) as Hstep.
  pose proof (log_step_ok (rpm_of d user) log now reqs.*1 Hnd Hlog Hlater Hlt') as [Hnd' Hlt''].
  assert (Hmono : Forall (λ t, rl_UnixMilli now - 60000 ≤ rl_UnixMilli t - 60000) reqs.*1).
  { eapply Forall_impl; [exact Hlater|]. intros t Hn. assert (rl_UnixMilli now ≤ rl_UnixMilli t); [|lia]. apply Z.div_le_mono; lia. }
  destruct (luaScript _ _ _ _ _) as [r s]. destruct Hrun as (v & Hv & Hok). rewrite (io_bind_run _ _ _ _ _ Hv).
  destruct (head (rl_faults w)) as [[e|]|].
  - destruct (IH log from (mk_rl (rl_sets w) (tail (rl_faults w)))) as [w' Hw']; try done. exists w'. rewrite (io_bind_run _ _ _ _ _ Hw'). simpl. by rewrite Hok.
  - destruct (log_step _ _ _) as [ok log']. destruct Hstep as (Hr & _ & Hrep'). simpl in Hnd', Hlt''.
    destruct (IH log' (rl_UnixMilli now - 60000) (mk_rl (<[rl_key username := s]> (rl_sets w)) (tail (rl_faults w)))) as [w' Hw']; try done; [unfold set_of; simpl; by rewrite lookup_insert_eq|].
    exists w'. rewrite (io_bind_run _ _ _ _ _ Hw'). simpl. by rewrite Hok, Hr.
  - destruct (log_step _ _ _) as [ok log']. destruct Hstep as (Hr & _ & Hrep'). simpl in Hnd', Hlt''.
    destruct (IH log' (rl_UnixMilli now - 60000) (mk_rl (<[rl_key username := s]> (rl_sets w)) (tail (rl_faults w)))) as [w' Hw']; try done; [unfold set_of; simpl; by rewrite lookup_insert_eq|].
    exists w'. rewrite (io_bind_run _ _ _ _ _ Hw'). simpl. by rewrite Hok, Hr.
Qed.

Lemma length_filter_impl {A} (P Q : A → Prop) `{!∀ x, Decision (P x), !∀ x, Decision (Q x)} l :
  (∀ x, P x → Q x) → (length (filter P l) ≤ length (filter Q l))%nat.
Proof.
  intros HPQ. induction l as [|x l IH]; [done|]. rewrite !filter_cons.
  destruct (decide (P x)), (decide (Q x)); simpl; try lia. by exfalso; auto.
Qed.

(** The times of the requests Redis admitted. *)
Definition admitted (l : list (rl_request * decision)) : list Z := omap (λ x, if x.2 is Checked true then Some x.1.1 else None) l.
(** Entries of the last minute before [t], itself included. *)
Definition minute_before (t : Z) (log : list Z) : list Z := filter (λ a, rl_UnixMilli t - 60000 < rl_UnixMilli a ∧ a ≤ t) log.

Lemma admitted_later d reqs : ∀ faults log t, Forall (Z.lt t) reqs.*1 → Forall (Z.lt t) (admitted (log_run d faults log reqs)).
Proof.
  induction reqs as [|[now user] reqs IH]; intros faults log t Ht; cbn [log_run]; [constructor|]. cbn in Ht. apply Forall_cons in Ht as [Hnow Ht].
  case_decide; [by apply IH|]. destruct (head faults) as [[e|]|]; [by apply IH|..]; destruct (log_step _ _ _) as [[] log']; cbn; try constructor; auto.
Qed.

(** A request the log admits has no more than its limit in the minute up to it. *)
Lemma minute_step rpm log t later : ¬ rpm ≤ len (recent t log) → Forall (Z.lt t) later → len (minute_before t (log ++ t :: later)) ≤ rpm.
Proof.
  intros Hroom Hl. rewrite Forall_forall in Hl. unfold minute_before. rewrite filter_app, filter_cons_True by (unfold rl_UnixMilli; split; [|done]; lia).
  rewrite (filter_all_out _ later) by (intros x Hx; apply Hl in Hx; lia). unfold len, recent in *. rewrite length_app. cbn [length].
  pose proof (length_filter_impl (λ a, rl_UnixMilli t - 60000 < rl_UnixMilli a ∧ a ≤ t) (λ a, rl_UnixMilli t - 60000 < rl_UnixMilli a) log ltac:(naive_solver)). lia.
Qed.

(** No admitted request has more than its limit in the minute up to it. *)
Lemma log_run_bound d reqs : ∀ faults log now user, StronglySorted Z.lt reqs.*1 →
  ((now, user), Checked true) ∈ log_run d faults log reqs →
  len (minute_before now (log ++ admitted (log_run d faults log reqs))) ≤ rpm_of d user.
Proof.
  induction reqs as [|[t u] reqs IH]; intros faults log now user Hs Hin; cbn [log_run] in *; [by apply elem_of_nil in Hin|].
  cbn in Hs. inversion Hs as [|?? Hs' Hlater]; subst.
  case_decide; [apply elem_of_cons in Hin as [?|Hin]; [done|by apply IH]|].
  assert (Hlog : ∀ faults', ((now, user), Checked true) ∈ (let '(ok, log') := log_step (rpm_of d u) log t in ((t, u), Checked ok) :: log_run d faults' log' reqs) →
    len (minute_before now (log ++ admitted (let '(ok, log') := log_step (rpm_of d u) log t in ((t, u), Checked ok) :: log_run d faults' log' reqs))) ≤ rpm_of d user).
  { intros faults'. unfold log_step. case_decide as Hfull; intros [Heq|Hin']%elem_of_cons.
    - done.
    - by apply (IH faults' log).
    - injection Heq as -> ->. cbn. apply minute_step; [done|]. by apply admitted_later.
    - cbn. rewrite cons_middle, (assoc_L (++)). by apply (IH faults' (log ++ [t])). }
  destruct (head faults) as [[e|]|]; [apply elem_of_cons in Hin as [?|Hin]; [done|by apply IH]|by apply Hlog..].
Qed.

(** What goes unchecked is what has no limit, and what comes while Redis fails. *)
Lemma log_run_unchecked d reqs : ∀ faults log, Forall (λ f, f = None) faults →
  Forall (λ x, if decide (rpm_of d x.1.2 ≤ 0) then x.2 = Unlimited else ∃ b, x.2 = Checked b) (log_run d faults log reqs).
Proof.
  induction reqs as [|[t u] reqs IH]; intros faults log Hf; cbn [log_run]; [constructor|].
  case_decide; [constructor; [cbn; by rewrite decide_True|by apply IH]|].
  assert (Forall (λ f, f = None) (tail faults)) as Htl by (destruct Hf; by cbn).
  destruct (head faults) as [[e|]|] eqn:Hh; [destruct faults; [done|]; apply Forall_cons in Hf as [-> _]; done|..];
    destruct (log_step _ _ _); (constructor; [cbn; rewrite decide_False by done; by eexists|by apply IH]).
Qed.

(** C11: for the requests of any one user with a name, at increasing times,
    whatever the limits stored for the user (or the lookups that fail) are at
    each request, and whichever calls of Redis fail, the rate limiter and its
    Redis script decide as the reference does: a request without a limit passes,
    one whose call of Redis fails passes and is not counted, and any other is
    admitted exactly when fewer than the limit were admitted in the last minute
    (at millisecond resolution). So no request the script admits has more than
    its limit of them in the minute up to it, and while Redis answers every
    request with a limit is decided by the script. Entries the script removed or
    let expire make no difference. *)
Theorem rate_limit_sliding_window defaultRPM username reqs faults :
  username ≠ [] → StronglySorted Z.lt reqs.*1 → Forall (λ t, Minute ≤ t) reqs.*1 →
  let decided := log_run defaultRPM faults [] reqs in
  (∃ w', rl_run defaultRPM username reqs (mk_rl ∅ faults) = (Ret (lets_pass <$> decided.*2), w')) ∧
  (∀ now user, ((now, user), Checked true) ∈ decided → len (minute_before now (admitted decided)) ≤ rpm_of defaultRPM user) ∧
  (Forall (λ f, f = None) faults → ∀ now user d, ((now, user), d) ∈ decided → 0 < rpm_of defaultRPM user → ∃ b, d = Checked b).
Proof.
  intros Hu Hs Ht. cbv zeta. split_and!.
  - apply (rl_run_spec defaultRPM username reqs [] 0 (mk_rl ∅ faults)); [done|constructor| |done| |].
    + split; [|by intros a Ha%elem_of_nil]. intros k sc. unfold set_of. simpl. split; [done|]. by intros (a & Ha%elem_of_nil & _).
    + eapply Forall_impl; [exact Ht|]. intros t Hm. cbv beta in Hm. rewrite <-window_start. apply Z.div_pos; [lia|done].
    + apply Forall_forall. intros; constructor.
  - intros now user Hin. by apply (log_run_bound _ reqs faults [] now user).
  - intros Hf now user d Hin Hpos. pose proof (log_run_unchecked defaultRPM reqs faults [] Hf) as Hall. rewrite Forall_forall in Hall.
    specialize (Hall _ Hin). cbn in Hall. by rewrite decide_False in Hall by lia.
Qed.

(** The second request of a user with a limit of two of their own comes while
    Redis is down; the fourth is one too many. *)
Lemma rate_limit_sliding_window_witness :
  let own := Some (Some 2) in
  let reqs := [(100 * Minute, own); (100 * Minute + 1, own); (100 * Minute + 2, own); (100 * Minute + 3, own); (101 * Minute, own)] in
  let faults := [None; Some (bs "connection refused")] in
  (rl_run 60 (bs "ann") reqs (mk_rl ∅ faults)).1 = Ret [true; true; true; false; true] ∧
  (∃ w', rl_run 60 (bs "ann") reqs (mk_rl ∅ faults) = (Ret (lets_pass <$> (log_run 60 faults [] reqs).*2), w')) ∧
  (∀ now user, ((now, user), Checked true) ∈ log_run 60 faults [] reqs → len (minute_before now (admitted (log_run 60 faults [] reqs))) ≤ rpm_of 60 user).
Proof.
  cbv zeta. split; [vm_compute; reflexivity|].
  destruct (rate_limit_sliding_window 60 (bs "ann") [(100 * Minute, Some (Some 2)); (100 * Minute + 1, Some (Some 2)); (100 * Minute + 2, Some (Some 2));
    (100 * Minute + 3, Some (Some 2)); (101 * Minute, Some (Some 2))] [None; Some (bs "connection refused")]) as (H1 & H2 & _);
    [discriminate|repeat (constructor; cbn; unfold Minute; try lia)|repeat (constructor; cbn; unfold Minute; try lia)|].
  split; [exact H1|exact H2].
Defined.

(** A rejected client is always told to come back after one second: the
    window starts a minute before the request, so the seconds left are never
    positive. *)
Theorem retry_after_is_one rpm username user now later w headers message w' :
  now ≤ later → rate_limit rpm username user now later w = (Ret (TooManyRequests headers message), w') →
  headers !! 0%nat = Some (bs "Retry-After", bs "1").
Proof.
  intros Hle. unfold rate_limit. case_decide; [done|]. case_decide; [done|]. unfold mbind, io_bind.
  destruct (io_try _ w) as [[[r|e]|e|] w1]; [|done|done|done]. case_decide; [|done]. intros [= <- _ _].
  assert (60 ≤ seconds (later - (now - Minute))) by (apply Z.div_le_lower_bound; unfold Minute; lia).
  rewrite decide_True by lia. reflexivity.
Qed.

Definition full_world : rl_world :=
  mk_rl {[ rl_key (bs "ann") := mk_zset {[ member_of 5999999000001 := 5999999 ]} 7000000 ]} [].

Lemma retry_after_is_one_witness :
  match rate_limit 1 (bs "ann") None (100 * Minute) (100 * Minute) full_world with
  | (Ret (TooManyRequests headers _), _) => headers !! 0%nat = Some (bs "Retry-After", bs "1")
  | _ => False
  end.
Proof.
  destruct (rate_limit _ _ _ _ _ _) as [[[h|h m]|e|] w'] eqn:Hrun; try (vm_compute in Hrun; discriminate Hrun).
  apply (retry_after_is_one 1 (bs "ann") None (100 * Minute) (100 * Minute) full_world h m w'); [lia|exact Hrun].
Defined.

(** ** The health checker *)

Definition down (p : probe) : bool := bool_decide ((probe_status p).1 = healthStatusDown).
(** Models a round checks. *)
Definition checked (c : LLMConfig) : Prop := llm_Enabled c = true ∧ llm_ApiEndpoint c ≠ [].
#[export] Instance checked_dec c : Decision (checked c).
Proof. unfold checked. apply _. Defined.

Section health.
Variable probes : Z → probe.
Variable clocks : Z → clock.

Definition refresh (id : Z) (c : LLMConfig) : LLMConfig :=
  if decide (llm_ID c = id) then set_health true (at_update (clocks id)) c else c.
Definition log_of (c : LLMConfig) : ModelHealthLog :=
  let '(status, err) := probe_status (probes (llm_ID c)) in
  let t := clocks (llm_ID c) in
  mk_hlog (llm_ID c) (llm_ModelName c) (llm_Provider c) status ((at_reply t - at_start t) / 1000000) err (at_update t).
Definition bump (id : Z) (fs : gmap Z Z) : gmap Z Z :=
  <[id := if down (probes id) then default 0 (fs !! id) + 1 else 0]> fs.

Definition hset (id : Z) (enabled : bool) (c : LLMConfig) : LLMConfig :=
  if decide (llm_ID c = id) then set_health enabled (at_update (clocks id)) c else c.

Lemma update_run id enabled w : hc_faults w = [] →
  (io_try (UpdateHealthStatus id enabled (at_update (clocks id)));; mret tt) w =
    (Ret tt, mk_hc (hset id enabled <$> hc_configs w) (hc_logs w) (hc_failures w) []).
Proof. intros Hf. unfold UpdateHealthStatus, mbind, io_bind, io_try, io_modify, next_fault. simpl. rewrite Hf. simpl. by rewrite Hf. Qed.

Lemma create_run log w : hc_faults w = [] →
  (io_try (hc_Create log);; mret tt) w = (Ret tt, mk_hc (hc_configs w) (hc_logs w ++ [log]) (hc_failures w) []).
Proof. intros Hf. unfold hc_Create, mbind, io_bind, io_try, io_modify, next_fault. simpl. rewrite Hf. simpl. by rewrite Hf. Qed.

Lemma count_run id w : count_failure id (probe_status (probes id)).1 w =
  (Ret (if down (probes id) then default 0 (hc_failures w !! id) + 1 else 0), mk_hc (hc_configs w) (hc_logs w) (bump id (hc_failures w)) (hc_faults w)).
Proof.
  unfold count_failure, bump, down, mbind, io_bind, io_modify, io_gets. simpl. rewrite lookup_insert_eq. simpl.
  by destruct (decide (_ = healthStatusDown)) as [H|H]; [rewrite bool_decide_eq_true_2 by done|rewrite bool_decide_eq_false_2 by done].
Qed.

(** The effect of the check of one model when no call fails: disabling it is
    undone at once. *)
Lemma checkModel_run c w : checked c → hc_faults w = [] →
  checkModel (probes (llm_ID c)) (clocks (llm_ID c)) c w =
    (Ret tt, mk_hc (refresh (llm_ID c) <$> hc_configs w) (hc_logs w ++ [log_of c]) (bump (llm_ID c) (hc_failures w)) []).
Proof.
  intros [Hen Hep] Hf. unfold checkModel, log_of. rewrite decide_False by done. pose proof (count_run (llm_ID c) w) as Hc.
  destruct (probe_status (probes (llm_ID c))) as [status err]. cbn [fst] in Hc. rewrite (io_bind_run _ _ _ _ _ Hc), Hen.
  set (w1 := mk_hc (hc_configs w) (hc_logs w) (bump (llm_ID c) (hc_failures w)) (hc_faults w)).
  assert (∃ cs, (hset (llm_ID c) true <$> cs) = (refresh (llm_ID c) <$> hc_configs w) ∧
    (if decide (maxFailures ≤ (if down (probes (llm_ID c)) then default 0 (hc_failures w !! llm_ID c) + 1 else 0) ∧ true = true)
     then io_try (UpdateHealthStatus (llm_ID c) false (at_update (clocks (llm_ID c))));; mret tt else mret tt) w1
    = (Ret tt, mk_hc cs (hc_logs w) (bump (llm_ID c) (hc_failures w)) [])) as (cs & Hcs & Hfirst).
  { destruct (decide _).
    - exists (hset (llm_ID c) false <$> hc_configs w). split; [|exact (update_run (llm_ID c) false w1 Hf)]. rewrite <-list_fmap_compose. apply list_fmap_ext. intros i x _.
      unfold compose, hset, refresh. destruct (decide (llm_ID x = llm_ID c)) as [He|He]; [by rewrite decide_True|by rewrite decide_False].
    - exists (hc_configs w). unfold w1. by rewrite Hf. }
  rewrite (io_bind_run _ _ _ _ _ Hfirst), (io_bind_run _ _ _ _ _ (update_run (llm_ID c) true (mk_hc cs (hc_logs w) (bump (llm_ID c) (hc_failures w)) []) eq_refl)). simpl. rewrite Hcs. by apply create_run.
Qed.

Lemma check_each_run l : ∀ w, hc_faults w = [] →
  let l' := filter checked l in
  check_each probes clocks l w = (Ret tt, mk_hc (foldl (λ cs c, refresh (llm_ID c) <$> cs) (hc_configs w) l')
    (hc_logs w ++ (log_of <$> l')) (foldl (λ fs c, bump (llm_ID c) fs) (hc_failures w) l') []).
Proof.
  induction l as [|c l IH]; intros w Hf; cbn [check_each].
  { simpl. rewrite app_nil_r. destruct w. simpl in *. by rewrite Hf. }
  rewrite filter_cons. destruct (decide (checked c)) as [Hc|Hc].
  - rewrite (proj1 Hc), (io_bind_run _ _ _ _ _ (checkModel_run c w Hc Hf)), IH by done. simpl. by rewrite <-(assoc_L (++)).
  - assert ((if llm_Enabled c then checkModel (probes (llm_ID c)) (clocks (llm_ID c)) c else mret tt) w = (Ret tt, w)) as Hskip.
    { destruct (llm_Enabled c) eqn:Hen; [|done]. unfold checkModel. rewrite decide_True; [done|].
      destruct (decide (llm_ApiEndpoint c = [])); [done|]. by destruct Hc. }
    rewrite (io_bind_run _ _ _ _ _ Hskip). by apply IH.
Qed.

Lemma refresh_all (l : list LLMConfig) : ∀ cs : list LLMConfig, foldl (λ (cs : list LLMConfig) c, refresh (llm_ID c) <$> cs) cs l =
  (λ x, if decide (llm_ID x ∈ llm_ID <$> l) then set_health true (at_update (clocks (llm_ID x))) x else x) <$> cs.
Proof.
  induction l as [|c l IH]; intros cs; cbn [foldl]; [by rewrite list_fmap_id|]. rewrite IH, <-list_fmap_compose. apply list_fmap_ext.
  intros i x _. unfold refresh. simpl. destruct (decide (llm_ID x = llm_ID c)) as [He|He].
  - simpl. rewrite (decide_True (P := llm_ID x ∈ llm_ID c :: _)) by (rewrite He; left). rewrite He. by case_decide.
  - destruct (decide (llm_ID x ∈ llm_ID <$> l)) as [Hin|Hin].
    + by rewrite decide_True by (by right).
    + rewrite decide_False; [done|]. by rewrite not_elem_of_cons.
Qed.

Lemma bump_all l : ∀ fs c, NoDup (llm_ID <$> l) → c ∈ l →
  foldl (λ fs c, bump (llm_ID c) fs) fs l !! llm_ID c = Some (if down (probes (llm_ID c)) then default 0 (fs !! llm_ID c) + 1 else 0).
Proof.
  assert (Hother : ∀ l fs id, id ∉ llm_ID <$> l → foldl (λ fs c, bump (llm_ID c) fs) fs l !! id = fs !! id).
  { clear l. induction l as [|d l IH]; intros fs id Hid; cbn [foldl]; [done|]. rewrite fmap_cons, not_elem_of_cons in Hid.
    rewrite IH by apply Hid. unfold bump. rewrite lookup_insert_ne; [done|]. intros He. by apply (proj1 Hid). }
  induction l as [|d l IH]; intros fs c Hnd Hc; [by apply elem_of_nil in Hc|]. cbn [foldl]. rewrite fmap_cons, NoDup_cons in Hnd.
  destruct Hnd as [Hd Hnd]. apply elem_of_cons in Hc as [->|Hc].
  - rewrite Hother by done. unfold bump. by rewrite lookup_insert_eq.
  - rewrite IH by done. unfold bump. rewrite lookup_insert_ne; [done|]. intros He. apply Hd, list_elem_of_fmap. by eauto.
Qed.
End health.

(** A round of health checks, in whatever order its goroutines run. When
    no call fails, the first 200 models that are enabled and have an endpoint
    are probed, one log entry is written for each with what the probe showed,
    and the count of consecutive failures is raised or reset. But the table
    of models ends with every probed model enabled and online, however many
    failures were counted: the update that disables a model after three is
    followed by one that enables it again. *)
Theorem health_round_never_disables order probes clocks w :
  hc_faults w = [] → NoDup (llm_ID <$> hc_configs w) → (∀ l, order l ≡ₚ l) →
  let probed := filter checked (take 200 (hc_configs w)) in
  ∃ w', checkAll order probes clocks w = (Ret tt, w') ∧
    hc_logs w' ≡ₚ hc_logs w ++ (log_of probes clocks <$> probed) ∧
    (∀ c, c ∈ probed → hc_failures w' !! llm_ID c = Some (if down (probes (llm_ID c)) then default 0 (hc_failures w !! llm_ID c) + 1 else 0)) ∧
    hc_configs w' = (λ c, if decide (c ∈ probed) then set_health true (at_update (clocks (llm_ID c))) c else c) <$> hc_configs w ∧
    llm_Enabled <$> hc_configs w' = llm_Enabled <$> hc_configs w.
Proof.
  intros Hf Hnd Hord probed. unfold checkAll.
  assert (hc_Index 200 w = (Ret (take 200 (hc_configs w)), w)) as Hidx.
  { unfold hc_Index, mbind, io_bind, next_fault. simpl. by rewrite Hf. }
  rewrite (io_bind_run _ _ _ _ _ (io_try_run _ _ _ _ Hidx)), (check_each_run probes clocks _ w Hf).
  assert (Hperm : filter checked (order (take 200 (hc_configs w))) ≡ₚ probed) by (by rewrite Hord).
  assert (Hsub : probed `sublist_of` hc_configs w).
  { etrans; [apply sublist_filter|]. apply sublist_take. }
  assert (Hids : ∀ c d, c ∈ hc_configs w → d ∈ hc_configs w → llm_ID c = llm_ID d → c = d).
  { intros c d [i Hi]%list_elem_of_lookup_1 [j Hj]%list_elem_of_lookup_1 He. rewrite NoDup_alt in Hnd.
    assert (i = j) as ->; [|congruence]. apply (Hnd i j (llm_ID c)); rewrite list_lookup_fmap; [by rewrite Hi|by rewrite Hj, He]. }
  assert (Hcfg : ∀ c, c ∈ hc_configs w →
    llm_ID c ∈ llm_ID <$> filter checked (order (take 200 (hc_configs w))) ↔ c ∈ probed).
  { intros c Hc. rewrite Hperm, list_elem_of_fmap. split; [|by eauto]. intros (d & He & Hd).
    rewrite (Hids c d); [done|done| |done]. by eapply elem_of_sublist. }
  eexists. split; [reflexivity|]. simpl. split_and!.
  - by rewrite Hperm.
  - intros c Hc. apply bump_all; [|by rewrite Hperm]. rewrite Hperm. eapply sublist_NoDup; [exact Hnd|]. by apply fmap_sublist.
  - rewrite refresh_all. apply list_fmap_ext. intros i c Hc%list_elem_of_lookup_2. by apply decide_ext, Hcfg.
  - rewrite refresh_all, <-list_fmap_compose. apply list_fmap_ext. intros i c Hc%list_elem_of_lookup_2. simpl. case_decide as Hd; [|done].
    apply Hcfg in Hd; [|done]. unfold probed in Hd. apply list_elem_of_filter in Hd as [[Hen _] _]. by rewrite Hen.
Qed.

Definition dead_model : LLMConfig := mk_llm 7 (bs "m") (bs "p") (bs "http://x") true (bs "online") 0.
Definition dead_world : hc_world := mk_hc [dead_model] [] {[ 7 := 5 ]} [].

Lemma health_round_never_disables_witness :
  let w' := (checkAll id (λ _, Status 503) (λ _, mk_clock 0 0 1) dead_world).2 in
  hc_failures w' !! 7 = Some 6 ∧ hc_configs w' = [mk_llm 7 (bs "m") (bs "p") (bs "http://x") true (bs "online") 1] ∧
  ∃ w', checkAll id (λ _, Status 503) (λ _, mk_clock 0 0 1) dead_world = (Ret tt, w') ∧ llm_Enabled <$> hc_configs w' = [true].
Proof.
  split; [vm_compute; reflexivity|]. split; [vm_compute; reflexivity|].
  destruct (health_round_never_disables id (λ _, Status 503) (λ _, mk_clock 0 0 1) dead_world) as (w' & Hrun & _ & _ & _ & Hen);
    [reflexivity|apply NoDup_singleton|done|]. exists w'. split; [exact Hrun|exact Hen].
Defined.
