(* ===== verification/GwRoute.v ===== *)
(** Routing of gateway requests to providers: the auth headers of a provider
    (handler/provider_auth.go), the reverse proxy's changes to a request
    (builder/proxy), the attempts over a model's endpoints
    (handler/fallback.go), and model ids (component/model_id_builder.go). URL
    parsing and the providers' replies are parameters. *)
From S2P Require Import Prelude GoLib GoFloat GoJson Sensitive.
Open Scope Z_scope.

(** ** component/model_id_builder.go *)

Definition model_id_To (modelName svcName : bytes) : bytes := modelName ++ bs ":" ++ svcName.
Definition model_id_From (modelID : bytes) : option (bytes * bytes) :=
  match Split modelID (bs ":") with
  | [name; svc] => Some (name, svc)
  | [name] => Some (name, [])
  | _ => None
  end.

(** ** net/http headers *)

Abbreviation header := (gmap bytes (list bytes)).

(** A byte that may occur in a header name. *)
Definition token_byte (c : ascii) : bool :=
  let z := byte_Z c in
  bool_decide (48 ≤ z ≤ 57 ∨ 65 ≤ z ≤ 90 ∨ 97 ≤ z ≤ 122 ∨ c ∈ String.list_ascii_of_string "!#$%&'*+-.^_`|~").

Fixpoint canonical (upper : bool) (s : bytes) : bytes :=
  match s with
  | [] => []
  | c :: s' => (if upper then to_upper_byte c else to_lower_byte c) :: canonical (bool_decide (c = "-"%char)) s'
  end.

(** [textproto.CanonicalMIMEHeaderKey] *)
Definition CanonicalHeaderKey (s : bytes) : bytes := if forallb token_byte s then canonical true s else s.

Definition header_Set (k v : bytes) (h : header) : header := <[CanonicalHeaderKey k := [v]]> h.
Definition header_Del (k : bytes) (h : header) : header := delete (CanonicalHeaderKey k) h.

(** ** handler/provider_auth.go *)

Record APIKeys := mk_keys { AnthropicAPIKey : bytes; OpenAIAPIKey : bytes; OpenRouterAPIKey : bytes; DeepSeekAPIKey : bytes }.

Definition guess_provider (endpoint : bytes) : bytes :=
  if Contains endpoint (bs "anthropic.com") then bs "anthropic"
  else if Contains endpoint (bs "openai.com") then bs "openai"
  else if Contains endpoint (bs "openrouter.ai") then bs "openrouter"
  else if Contains endpoint (bs "deepseek.com") then bs "deepseek"
  else [].

Definition bearer (key : bytes) : bytes := marshal (JObj [(bs "Authorization", JStr (bs "Bearer " ++ key))]).

Section route.
(** [unicode.ToLower] beyond ASCII. *)
Variable unicode_lower : Z → Z.

Definition buildProviderAuthHead (cfg : APIKeys) (provider endpoint dbAuthHead : bytes) : bytes :=
  let provider := ToLower unicode_lower provider in
  let provider := if decide (provider = []) then guess_provider endpoint else provider in
  if decide (provider = bs "anthropic" ∧ AnthropicAPIKey cfg ≠ []) then
    marshal (JObj [(bs "anthropic-version", JStr (bs "2023-06-01")); (bs "x-api-key", JStr (AnthropicAPIKey cfg))])
  else if decide (provider = bs "openai" ∧ OpenAIAPIKey cfg ≠ []) then bearer (OpenAIAPIKey cfg)
  else if decide (provider = bs "openrouter" ∧ OpenRouterAPIKey cfg ≠ []) then bearer (OpenRouterAPIKey cfg)
  else if decide (provider = bs "deepseek" ∧ DeepSeekAPIKey cfg ≠ []) then bearer (DeepSeekAPIKey cfg)
  else dbAuthHead.

(** ** handler/fallback.go *)

(** The loop over the map sets one header per member; members whose names
    differ only in case are set in the order of the text here, in any order
    by the code. *)
Definition injectAuthHeaders (cfg : APIKeys) (provider endpoint authHead : bytes) (h : header) : header :=
  let authJSON := buildProviderAuthHead cfg provider endpoint authHead in
  if decide (authJSON = []) then h
  else match string_map authJSON with
       | None => h
       | Some authMap => foldl (λ h kv, header_Set kv.1 kv.2 h) h authMap
       end.

(** *** builder/proxy/reverse_proxy.go *)

(** Headers the proxy removes from what it sends. *)
Definition stripped : list bytes :=
  bs <$> ["Accept-Encoding"; "Origin"; "Referer"; "Sec-Fetch-Mode"; "Sec-Fetch-Site"; "Sec-Fetch-Dest"; "Sec-Fetch-User"; "Cookie"; "Priority"]%string.
Definition director_headers (h : header) : header := foldl (λ h k, header_Del k h) h stripped.

(** A request to a provider: its endpoint, the path, headers and body. *)
Record outgoing := mk_out { og_provider : bytes; og_target : bytes; og_api : bytes; og_headers : header; og_body : bytes }.
Record answer := mk_answer { an_status : Z; an_headers : header; an_body : bytes }.

Record endpoint := mk_ep { ep_provider : bytes; ep_url : bytes; ep_authHead : bytes }.
Record model := mk_model { Provider : bytes; Endpoint : bytes; AuthHead : bytes; Fallbacks : list endpoint }.

(** [url.ParseRequestURI]'s path; whether [url.Parse] accepts a target; the
    reply to a request, which may depend on those before it, and whether it
    is complete within the 30 seconds of a probe. *)
Variable ParseRequestURI : bytes → option bytes.
Variable url_ok : bytes → bool.
Variable serve : list outgoing → outgoing → answer * bool.

(** The request's headers, the requests sent, and what the client's writer
    was given: the provider header and the answer. *)
Record state := mk_state { q_headers : header; sent : list outgoing; client : option (bytes * answer) }.

Definition isServerError (a : answer) : bool := bool_decide (500 ≤ an_status a).

(** Flushing a probe sets each header value in turn: the last one stays. *)
Definition flush_headers (h : header) : header := omap (λ vals, v ← last vals; Some [v]) h.

Definition proxyToApi (url : bytes) : bytes := if decide (url = []) then [] else default [] (ParseRequestURI url).

Definition request_to (cfg : APIKeys) (body : bytes) (ep : endpoint) (h : header) : outgoing :=
  mk_out (ep_provider ep) (ep_url ep) (proxyToApi (ep_url ep)) (director_headers h) body.

Fixpoint try_endpoints (cfg : APIKeys) (body : bytes) (direct : bool) (fallback_provider : bytes) (eps : list endpoint) (st : state) : bytes * state :=
  match eps with
  | [] => (fallback_provider, st)
  | ep :: rest =>
      let h := injectAuthHeaders cfg (ep_provider ep) (ep_url ep) (ep_authHead ep) (q_headers st) in
      let st := mk_state h (sent st) (client st) in
      if negb (url_ok (ep_url ep)) then try_endpoints cfg body direct fallback_provider rest st
      else
        let out := request_to cfg body ep h in
        let '(a, in_time) := serve (sent st) out in
        let st := mk_state h (sent st ++ [out]) (client st) in
        if decide (rest = [] ∨ direct = true) then
          (ep_provider ep, mk_state h (sent st) (Some (ep_provider ep, a)))
        else if negb in_time || isServerError a then try_endpoints cfg body direct fallback_provider rest st
        else (ep_provider ep, mk_state h (sent st) (Some (ep_provider ep, mk_answer (an_status a) (flush_headers (an_headers a)) (an_body a))))
  end.

Definition endpoints_of (m : model) : list endpoint := mk_ep (Provider m) (Endpoint m) (AuthHead m) :: Fallbacks m.
Definition max_attempts (maxRetries : Z) : Z := (if decide (maxRetries ≤ 0) then 2 else maxRetries) + 1.

(** [body] is the request marshalled again. *)
Definition proxyWithFallback (cfg : APIKeys) (body : bytes) (m : model) (maxRetries : Z) (st : state) : bytes * state :=
  let eps := take (Z.to_nat (max_attempts maxRetries)) (endpoints_of m) in
  try_endpoints cfg body (bool_decide (Fallbacks m = [])) (Provider m) eps st.

End route.

(** * What the gateway's routing guarantees: model ids are read back; attempts
    go through the endpoints in order and stop at the first good reply; the
    auth headers of all earlier attempts stay on the request. *)

(** ** Model ids *)

(** A model id is read back as the name and service it was made of,
    exactly when neither contains a colon. *)
Theorem model_id_roundtrip name svc :
  model_id_From (model_id_To name svc) = Some (name, svc) ↔ ":"%char ∉ name ∧ ":"%char ∉ svc.
Proof.
  unfold model_id_From, model_id_To, Split. change (bs ":") with [":"%char]. rewrite length_app. cbn [length app].
  rewrite Nat.add_succ_r. cbn [Split_fuel]. split.
  - destruct (Cut (name ++ ":"%char :: svc) [":"%char]) as [[a b]|] eqn:Hc.
    2: { apply Cut_byte_None in Hc. set_solver. }
    destruct (length name + length svc)%nat as [|n] eqn:Hn.
    { destruct name; [|simpl in Hn; lia]. destruct svc; [|simpl in Hn; lia]. intros _. split; apply not_elem_of_nil. }
    cbn [Split_fuel]. destruct (Cut b [":"%char]) as [[a' b']|] eqn:Hb.
    + destruct n; cbn [Split_fuel]; [done|]. by destruct (Cut b' _) as [[]|].
    + intros [= -> ->]. apply Cut_byte_Some in Hc as [_ Ha]. by apply Cut_byte_None in Hb.
  - intros [Hn Hs]. rewrite Cut_byte_app by done. destruct (length name + length svc)%nat; cbn [Split_fuel]; [done|].
    by rewrite Cut_absent.
Qed.

(** ** Attempts *)

Section attempts.
Variable unicode_lower : Z → Z.
Variable ParseRequestURI : bytes → option bytes.
Variable url_ok : bytes → bool.
Variable serve : list outgoing → outgoing → answer * bool.
Variable cfg : APIKeys.
Variable body : bytes.
Notation try_endpoints := (try_endpoints unicode_lower ParseRequestURI url_ok serve cfg body).
Notation inject ep := (injectAuthHeaders unicode_lower cfg (ep_provider ep) (ep_url ep) (ep_authHead ep)).

(** The requests sent to the endpoints [eps] in turn, from the headers [h]:
    each carries the auth headers of all the endpoints so far. *)
Fixpoint requests (h : header) (eps : list endpoint) : list outgoing :=
  match eps with
  | [] => []
  | ep :: rest =>
      (if url_ok (ep_url ep) then [request_to ParseRequestURI cfg body ep (inject ep h)] else []) ++ requests (inject ep h) rest
  end.

(** A reply that makes the next endpoint be tried. *)
Definition bad (r : answer * bool) : Prop := r.2 = false ∨ isServerError r.1 = true.

(** Each request of [outs] was answered badly, in its turn after [before]. *)
Definition all_bad (before outs : list outgoing) : Prop :=
  ∀ l o l', outs = l ++ o :: l' → bad (serve (before ++ l) o).

(** What the client is given from a reply, at the last endpoint or before. *)
Definition given (final : bool) (ep : endpoint) (a : answer) : bytes * answer :=
  (ep_provider ep, if final then a else mk_answer (an_status a) (flush_headers (an_headers a)) (an_body a)).

Definition attempts_post (direct : bool) (fallback : bytes) (eps : list endpoint) (st : state) (p : bytes) (st' : state) : Prop :=
  (∃ pre ep post o, eps = pre ++ ep :: post ∧ url_ok (ep_url ep) = true ∧ p = ep_provider ep ∧
     requests (q_headers st) (pre ++ [ep]) = requests (q_headers st) pre ++ [o] ∧
     sent st' = sent st ++ requests (q_headers st) pre ++ [o] ∧
     (direct = true → requests (q_headers st) pre = []) ∧
     all_bad (sent st) (requests (q_headers st) pre) ∧
     let r := serve (sent st ++ requests (q_headers st) pre) o in
     let final := bool_decide (post = [] ∨ direct = true) in
     client st' = Some (given final ep r.1) ∧ (final = true ∨ ¬ bad r)) ∨
  (p = fallback ∧ client st' = client st ∧ sent st' = sent st ++ requests (q_headers st) eps ∧
     all_bad (sent st) (requests (q_headers st) eps) ∧
     match last eps with Some ep => url_ok (ep_url ep) = false | None => True end).

Lemma all_bad_nil before : all_bad before [].
Proof. by intros [|] ???. Qed.

Lemma all_bad_cons before o outs : bad (serve before o) → all_bad (before ++ [o]) outs → all_bad before (o :: outs).
Proof.
  intros Hb Ha [|x l] y l' Heq; simplify_eq/=; [by rewrite app_nil_r|].
  pose proof (Ha _ _ _ eq_refl) as Hb'. by rewrite <-(assoc_L (++)) in Hb'.
Qed.

(** One endpoint that did not answer, or not well, and then the others. *)
Lemma attempts_skip direct fallback ep rest st outs p st' :
  let h := inject ep (q_headers st) in
  outs = (if url_ok (ep_url ep) then [request_to ParseRequestURI cfg body ep h] else []) →
  all_bad (sent st) outs → (url_ok (ep_url ep) = true → rest ≠ [] ∧ direct = false) →
  attempts_post direct fallback rest (mk_state h (sent st ++ outs) (client st)) p st' →
  attempts_post direct fallback (ep :: rest) st p st'.
Proof.
  intros h Houts Hbad Hrest Hpost.
  assert (Hall : ∀ l, all_bad (sent st ++ outs) l → all_bad (sent st) (outs ++ l)).
  { intros l. rewrite Houts in Hbad |- *. case_match; [|by rewrite app_nil_r]. apply all_bad_cons. pose proof (Hbad [] _ [] eq_refl) as Hb. by rewrite app_nil_r in Hb. }
  destruct Hpost as [(pre & ep' & post & o & -> & Hu & Hp & Hreq & Hs & Hd & Ha & Hr)|(Hp & Hc & Hs & Ha & Hl)]; simpl in *.
  - left. exists (ep :: pre), ep', post, o. cbn [requests app]. fold h. rewrite <-Houts. split_and!; try done.
    + by rewrite Hreq, (assoc_L (++)).
    + by rewrite Hs, <-!(assoc_L (++)).
    + intros Hdir. rewrite Hd by done. rewrite Houts. destruct (url_ok (ep_url ep)); [|done]. by destruct (Hrest eq_refl) as [_ ?]; subst.
    + by apply Hall.
    + rewrite (assoc_L (++)). apply Hr.
    + rewrite (assoc_L (++)). apply Hr.
  - right. cbn [requests]. fold h. rewrite <-Houts. split_and!; [done|done|by rewrite Hs, <-(assoc_L (++))|by apply Hall|].
    destruct rest as [|ep' rest]; [|done]. simpl. destruct (url_ok (ep_url ep)); [|done]. by destruct (Hrest eq_refl).
Qed.

Lemma try_endpoints_spec direct fallback eps : ∀ st,
  let '(p, st') := try_endpoints direct fallback eps st in attempts_post direct fallback eps st p st'.
Proof.
  induction eps as [|ep rest IH]; intros st; cbn [GwRoute.try_endpoints].
  { right. cbn [requests]. rewrite app_nil_r. split_and!; try done. apply all_bad_nil. }
  set (h := inject ep (q_headers st)).
  destruct (url_ok (ep_url ep)) eqn:Hu; cbn [negb].
  2: { pose proof (IH (mk_state h (sent st) (client st))) as HI. destruct (try_endpoints _ _ _ _) as [p st'].
       apply (attempts_skip direct fallback ep rest st []); rewrite ?Hu; [done|apply all_bad_nil|done|]. by rewrite app_nil_r. }
  set (o := request_to _ _ _ _ _). cbn [sent client]. destruct (serve (sent st) o) as [a in_time] eqn:Hserve.
  assert (Hhere : ∀ final, bool_decide (rest = [] ∨ direct = true) = final → final = true ∨ ¬ bad (a, in_time) →
    attempts_post direct fallback (ep :: rest) st (ep_provider ep) (mk_state h (sent st ++ [o]) (Some (given final ep a)))).
  { intros final Hfin Hgood. left. exists [], ep, rest, o. cbn [requests app]. rewrite Hu. fold h o. rewrite !app_nil_r, Hserve, Hfin.
    split_and!; try done. apply all_bad_nil. }
  destruct (decide (rest = [] ∨ direct = true)) as [Hd|Hd].
  { apply (Hhere true); [by apply bool_decide_eq_true_2|by left]. }
  destruct (negb in_time || isServerError a) eqn:Hb.
  - pose proof (IH (mk_state h (sent st ++ [o]) (client st))) as HI. destruct (try_endpoints _ _ _ _) as [p st'].
    apply (attempts_skip direct fallback ep rest st [o]); rewrite ?Hu; [done| | |done].
    + apply all_bad_cons; [|apply all_bad_nil]. rewrite Hserve. apply orb_true_iff in Hb as [?%negb_true_iff|?]; [by left|by right].
    + intros _. split; [tauto|]. destruct direct; tauto.
  - apply (Hhere false); [by apply bool_decide_eq_false_2|right]. apply orb_false_iff in Hb as [Ht He]. intros [H|H]; simpl in *; [|congruence].
    by rewrite H in Ht.
Qed.
End attempts.

Lemma length_requests unicode_lower ParseRequestURI url_ok cfg body eps : ∀ h,
  (length (requests unicode_lower ParseRequestURI url_ok cfg body h eps) ≤ length eps)%nat.
Proof.
  induction eps as [|ep eps IH]; intros h; [done|]. cbn [requests]. rewrite length_app. specialize (IH (injectAuthHeaders unicode_lower cfg (ep_provider ep) (ep_url ep) (ep_authHead ep) h)).
  case_match; simpl in *; lia.
Qed.

(** The attempts of a request. The model's endpoint and its fallbacks, as
    many as the retries allow, are asked in order, each at most once; every
    reply before the last request was late or a server error, and the client
    is given the reply to the last request, from the provider returned: as it
    is at the last endpoint, with one value per header before. Only when the
    last endpoint's address cannot be parsed, and all others failed, is the
    client given nothing, and the model's own provider returned. *)
Theorem fallback_order unicode_lower ParseRequestURI url_ok serve cfg body m maxRetries st :
  let eps := take (Z.to_nat (max_attempts maxRetries)) (endpoints_of m) in
  let '(p, st') := proxyWithFallback unicode_lower ParseRequestURI url_ok serve cfg body m maxRetries st in
  attempts_post unicode_lower ParseRequestURI url_ok serve cfg body (bool_decide (Fallbacks m = [])) (Provider m) eps st p st' ∧
  (length (sent st') ≤ length (sent st) + Z.to_nat (max_attempts maxRetries))%nat.
Proof.
  cbv zeta. unfold proxyWithFallback. set (eps := take _ _).
  pose proof (try_endpoints_spec unicode_lower ParseRequestURI url_ok serve cfg body (bool_decide (Fallbacks m = [])) (Provider m) eps st) as Hpost.
  destruct (try_endpoints _ _ _ _ _ _ _ _ _ _) as [p st']. split; [done|].
  assert (length eps ≤ Z.to_nat (max_attempts maxRetries))%nat by (unfold eps; rewrite length_take; lia).
  destruct Hpost as [(pre & ep & post & o & Heq & _ & _ & Hreq & Hs & _)|(_ & _ & Hs & _)]; rewrite Hs, length_app.
  - rewrite <-Hreq. pose proof (length_requests unicode_lower ParseRequestURI url_ok cfg body (pre ++ [ep]) (q_headers st)).
    rewrite Heq in *. rewrite !length_app in *. simpl in *. lia.
  - pose proof (length_requests unicode_lower ParseRequestURI url_ok cfg body eps (q_headers st)). lia.
Qed.

(** ** Headers *)

Lemma director_lookup h k : k ∉ CanonicalHeaderKey <$> stripped → director_headers h !! k = h !! k.
Proof.
  unfold director_headers. revert h. induction stripped as [|s l IH]; intros h Hk; [done|]. rewrite fmap_cons, not_elem_of_cons in Hk.
  cbn [foldl]. rewrite IH by apply Hk. unfold header_Del. rewrite lookup_delete_ne; [done|]. intros He. by apply (proj1 Hk).
Qed.

Lemma string_map_jstrings l : Forall plain_pair l → string_map (marshal (JObj (jstrings l))) = Some l.
Proof.
  intros Hl. unfold string_map. rewrite parse_jstrings by done. rewrite bind_some. unfold jstrings.
  apply mapM_fmap_Some. by intros [].
Qed.

(** The auth headers of the providers the gateway has a key for. *)
Lemma inject_anthropic unicode_lower cfg provider url auth h :
  ToLower unicode_lower provider = bs "anthropic" → AnthropicAPIKey cfg ≠ [] → plain (AnthropicAPIKey cfg) →
  injectAuthHeaders unicode_lower cfg provider url auth h =
    <[bs "X-Api-Key" := [AnthropicAPIKey cfg]]> (<[bs "Anthropic-Version" := [bs "2023-06-01"]]> h).
Proof.
  intros Hp Hne Hplain. unfold injectAuthHeaders, buildProviderAuthHead. rewrite Hp.
  rewrite (decide_False (P := bs "anthropic" = [])) by discriminate. rewrite (decide_True (P := bs "anthropic" = bs "anthropic" ∧ _)) by (by split).
  change (JObj _) with (JObj (jstrings [(bs "anthropic-version", bs "2023-06-01"); (bs "x-api-key", AnthropicAPIKey cfg)])).
  rewrite string_map_jstrings.
  - rewrite decide_False by (rewrite marshal_jstrings; discriminate). reflexivity.
  - repeat constructor; try done; apply (bool_decide_unpack _); vm_compute; done.
Qed.
Lemma inject_openai unicode_lower cfg provider url auth h :
  ToLower unicode_lower provider = bs "openai" → OpenAIAPIKey cfg ≠ [] → plain (OpenAIAPIKey cfg) →
  injectAuthHeaders unicode_lower cfg provider url auth h = <[bs "Authorization" := [bs "Bearer " ++ OpenAIAPIKey cfg]]> h.
Proof.
  intros Hp Hne Hplain. unfold injectAuthHeaders, buildProviderAuthHead. rewrite Hp.
  rewrite (decide_False (P := bs "openai" = [])) by discriminate. rewrite (decide_False (P := bs "openai" = bs "anthropic" ∧ _)) by (by intros [? _]).
  rewrite (decide_True (P := bs "openai" = bs "openai" ∧ _)) by (by split).
  unfold bearer. change (JObj _) with (JObj (jstrings [(bs "Authorization", bs "Bearer " ++ OpenAIAPIKey cfg)])).
  rewrite string_map_jstrings.
  - rewrite decide_False by (rewrite marshal_jstrings; discriminate). reflexivity.
  - constructor; [split; simpl|done]; [apply (bool_decide_unpack _); vm_compute; done|].
    change (plain (bs "Bearer " ++ OpenAIAPIKey cfg)). apply Forall_app. split; [|done]. apply (bool_decide_unpack (plain _)). vm_compute. done.
Qed.

(** A provider's key is sent to its fallback. When an Anthropic endpoint
    answers badly and the next endpoint is OpenAI's, the request sent there
    carries, next to OpenAI's own authorization, the Anthropic API key: the
    headers of an attempt are never taken off the request. *)
Theorem fallback_leaks_api_key unicode_lower ParseRequestURI url_ok serve cfg body m e1 rest maxRetries st :
  Fallbacks m = e1 :: rest → url_ok (Endpoint m) = true → url_ok (ep_url e1) = true →
  ToLower unicode_lower (Provider m) = bs "anthropic" → ToLower unicode_lower (ep_provider e1) = bs "openai" →
  AnthropicAPIKey cfg ≠ [] → OpenAIAPIKey cfg ≠ [] → plain (AnthropicAPIKey cfg) → plain (OpenAIAPIKey cfg) →
  (∀ o, bad (serve (sent st) o)) →
  let st' := (proxyWithFallback unicode_lower ParseRequestURI url_ok serve cfg body m maxRetries st).2 in
  ∃ o, sent st' !! S (length (sent st)) = Some o ∧ og_target o = ep_url e1 ∧
    og_headers o !! bs "Authorization" = Some [bs "Bearer " ++ OpenAIAPIKey cfg] ∧
    og_headers o !! bs "X-Api-Key" = Some [AnthropicAPIKey cfg].
Proof.
  intros Hfb Hu0 Hu1 Hp0 Hp1 Ha Ho Hpa Hpo Hbad. unfold proxyWithFallback, endpoints_of. rewrite Hfb.
  assert (∃ k, Z.to_nat (max_attempts maxRetries) = S (S k)) as [k ->].
  { unfold max_attempts. exists (Z.to_nat (max_attempts maxRetries - 2)). unfold max_attempts. case_decide; lia. }
  cbn [take]. set (e0 := mk_ep _ _ _).
  pose proof (try_endpoints_spec unicode_lower ParseRequestURI url_ok serve cfg body (bool_decide (e1 :: rest = [])) (Provider m) (e0 :: e1 :: take k rest) st) as Hpost.
  destruct (try_endpoints _ _ _ _ _ _ _ _ _ _) as [p st']. cbn [snd].
  assert (∃ X, sent st' = sent st ++ requests unicode_lower ParseRequestURI url_ok cfg body (q_headers st) (e0 :: e1 :: X)) as [X ->].
  { destruct Hpost as [(pre & ep & post & o & Heq & _ & _ & Hreq & Hs & _ & _ & _ & Hgood)|(_ & _ & Hs & _)]; [|by eauto].
    destruct pre as [|? [|? pre]]; simpl in Heq; simplify_eq/=.
    - exfalso. rewrite app_nil_r in Hgood. destruct Hgood as [Hg|Hg]; [done|by apply Hg, Hbad].
    - exists []. by rewrite Hs, <-Hreq.
    - exists (pre ++ [ep]). by rewrite Hs, <-Hreq. }
  cbn [requests]. cbn [ep_provider ep_url ep_authHead e0]. rewrite Hu0, Hu1.
  rewrite inject_anthropic, inject_openai by done.
  eexists. split.
  { rewrite lookup_app_r by lia. replace (S (length (sent st)) - length (sent st))%nat with 1%nat by lia. reflexivity. }
  split_and!; [reflexivity|..].
  - cbn [request_to og_headers]. rewrite director_lookup by (apply (bool_decide_unpack _); vm_compute; done). by rewrite lookup_insert_eq.
  - cbn [request_to og_headers]. rewrite director_lookup by (apply (bool_decide_unpack _); vm_compute; done).
    rewrite lookup_insert_ne by done. by rewrite lookup_insert_eq.
Qed.

Definition keys_ex : APIKeys := mk_keys (bs "sk-ant-1") (bs "sk-oai-2") [] [].
Definition model_ex : model := mk_model (bs "anthropic") (bs "https://api.anthropic.com/v1") [] [mk_ep (bs "openai") (bs "https://api.openai.com/v1") []].
Definition serve_ex (before : list outgoing) (o : outgoing) : answer * bool :=
  (mk_answer (if decide (before = []) then 503 else 200) ∅ (bs "ok"), true).

Lemma fallback_leaks_api_key_witness :
  let st' := (proxyWithFallback (λ r, r) (λ _, Some []) (λ _, true) serve_ex keys_ex (bs "{}") model_ex 2 (mk_state ∅ [] None)).2 in
  ∃ o, sent st' !! 1%nat = Some o ∧ og_target o = bs "https://api.openai.com/v1" ∧
    og_headers o !! bs "Authorization" = Some [bs "Bearer sk-oai-2"] ∧ og_headers o !! bs "X-Api-Key" = Some [bs "sk-ant-1"].
Proof.
  apply (fallback_leaks_api_key (λ r, r) (λ _, Some []) (λ _, true) serve_ex keys_ex (bs "{}") model_ex
    (mk_ep (bs "openai") (bs "https://api.openai.com/v1") []) [] 2 (mk_state ∅ [] None)); try reflexivity; try discriminate.
  - apply (bool_decide_unpack _); vm_compute; done.
  - apply (bool_decide_unpack _); vm_compute; done.
  - intros o. right. reflexivity.
Defined.
