(* ===== verification/GwToken.v ===== *)
(** Token counting of the gateway (aigateway/token): the tokenizers over the
    inference engines' tokenize endpoints, and the counters of chat and
    embedding requests. The HTTP call is a parameter; a run records the
    requests it made. *)
From S2P Require Import Prelude GoLib GoFloat GoJson Sensitive GwModeration GwStream.
Open Scope Z_scope.

(** ** The tokenize service (builder/llm) *)

Record tok_call := mk_tok_call { tk_url : bytes; tk_host : bytes; tk_req : json }.

(** The requests made so far, and how the service answers. *)
Record tok_world := mk_tok { tok_log : list tok_call }.
Abbreviation tio := (io tok_world bytes).
Abbreviation tok_service := (list tok_call → tok_call → result bytes bytes).

Definition Tokenize (svc : tok_service) (endpoint host : bytes) (req : json) : tio bytes :=
  log ← io_gets tok_log;
  let c := mk_tok_call endpoint host req in
  io_modify (λ w, mk_tok (tok_log w ++ [c]));;
  match svc log c with Ok data => mret data | Err e => io_fail e end.

Definition VllmGPUTokenizeReq (model prompt : bytes) : json := JObj [(bs "model", JStr model); (bs "prompt", JStr prompt)].
Definition LlamacppTokenizeReq (content : bytes) : json := JObj [(bs "content", JStr content)].
Definition TGITokenizeReq (inputs : bytes) : json := JObj [(bs "inputs", JStr inputs)].
Definition TEIEmbeddingTokenizeReq (inputs : bytes) : json :=
  JObj [(bs "add_special_tokens", JBool false); (bs "inputs", JStr inputs); (bs "prompt_name", JNull)].

(** Decoding into a slice: every element must decode; null is no elements. *)
Definition slice_of (elem : json → bool) (j : json) : option (list json) :=
  match j with
  | JArr l => if forallb elem l then Some l else None
  | JNull => Some []
  | _ => None
  end.
(** The elements: an int64, a struct with the given fields. *)
Definition int_elem (j : json) : bool :=
  match j with JNum n => bool_decide (is_Some (ParseInt n)) | JNull => true | _ => false end.
Definition struct_elem (ints strs bools : list bytes) (j : json) : bool :=
  match as_struct j with
  | None => false
  | Some o => forallb (λ k, bool_decide (is_Some (int_field k o))) ints && forallb (λ k, bool_decide (is_Some (string_field k o))) strs
      && forallb (λ k, bool_decide (is_Some (bool_field k o))) bools
  end.
Definition slice_field (elem : json → bool) (name : bytes) (j : json) : option (list json) :=
  foldl (λ acc v, _ ← acc; slice_of elem v) (Some []) (fields name j).

Definition VllmGPUTokenizeResponse (data : bytes) : option Z :=
  j ← parse_json data; o ← as_struct j;
  count ← int_field (bs "count") o; _ ← int_field (bs "max_model_len") o; _ ← slice_field int_elem (bs "tokens") o; Some count.
Definition LlamacppTokenizeResponse (data : bytes) : option (list json) :=
  j ← parse_json data; o ← as_struct j; slice_field int_elem (bs "tokens") o.
Definition TGITokenizeResponse (data : bytes) : option (list json) :=
  j ← parse_json data; slice_of (struct_elem [bs "id"; bs "start"; bs "stop"] [bs "text"] []) j.
Definition TEIEmbeddingTokenizeResponse (data : bytes) : option (list (list json)) :=
  let row := slice_of (struct_elem [bs "id"; bs "start"; bs "stop"] [bs "text"] [bs "special"]) in
  j ← parse_json data; rows ← slice_of (λ r, bool_decide (is_Some (row r))) j; mapM row rows.

Definition or_unmarshal {A} (r : option A) : tio A :=
  match r with Some a => mret a | None => io_fail (bs "json: cannot unmarshal") end.

(** ** tokenizer.go *)

Definition errUnsupportedTokenizer : bytes := bs "unsupported tokenizer".

(** [types.Message] as the counter builds it: a string content. *)
Record tok_message := mk_tm { tm_role : bytes; tm_content : bytes }.

Record Tokenizer := mk_tokenizer { Encode : tok_message → tio Z; EmbeddingEncode : bytes → tio Z }.

Definition nl1 : bytes := ["010"%char].
Definition parseTextMessage (m : tok_message) : bytes :=
  if decide (tm_role m ≠ []) then
    if decide (tm_content m ≠ []) then bs "<|im_start|>" ++ tm_role m ++ nl1 ++ tm_content m ++ bs "<|im_end|>" ++ nl1
    else bs "<|im_start|>" ++ tm_role m ++ nl1
  else if decide (tm_content m ≠ []) then tm_content m ++ bs "<|im_end|>" else [].

Section tokenizers.
Variable svc : tok_service.

(** The steps the text tokenizers share: nothing is asked for an empty text. *)
Definition encode_with (endpoint host : bytes) (req : bytes → json) (count : bytes → option Z) (m : tok_message) : tio Z :=
  let parsed := parseTextMessage m in
  if decide (parsed = []) then mret 0
  else data ← Tokenize svc (endpoint ++ bs "/tokenize") host (req parsed); or_unmarshal (count data).

Definition unsupported {A} (_ : A) : tio Z := io_fail errUnsupportedTokenizer.

Definition newVllmTokenizerImpl (endpoint host model : bytes) : Tokenizer :=
  mk_tokenizer (encode_with endpoint host (VllmGPUTokenizeReq model) VllmGPUTokenizeResponse) unsupported.
Definition newLlamacppTokenizerImpl (endpoint host : bytes) : Tokenizer :=
  mk_tokenizer (encode_with endpoint host LlamacppTokenizeReq (λ d, len <$> LlamacppTokenizeResponse d)) unsupported.
Definition newTGITokenizerImpl (endpoint host : bytes) : Tokenizer :=
  mk_tokenizer (encode_with endpoint host TGITokenizeReq (λ d, len <$> TGITokenizeResponse d)) unsupported.
Definition newSGLangTokenizerImpl : Tokenizer := mk_tokenizer unsupported unsupported.
(** [resp[0]] panics on an empty answer. *)
Definition TEIEmbeddingEncode (endpoint host message : bytes) : tio Z :=
  data ← Tokenize svc (endpoint ++ bs "/tokenize") host (TEIEmbeddingTokenizeReq message);
  resp ← or_unmarshal (TEIEmbeddingTokenizeResponse data);
  match resp with row :: _ => mret (len row) | [] => io_panic end.
Definition newTEITokenizerImpl (endpoint host : bytes) : Tokenizer := mk_tokenizer unsupported (TEIEmbeddingEncode endpoint host).

Definition NewTokenizerImpl (endpoint host model imageID : bytes) : option Tokenizer :=
  if Contains imageID (bs "vllm-local") then Some (newVllmTokenizerImpl endpoint host model)
  else if Contains imageID (bs "llama.cpp") then Some (newLlamacppTokenizerImpl endpoint host)
  else if Contains imageID (bs "tgi") then Some (newTGITokenizerImpl endpoint host)
  else if Contains imageID (bs "sglang") then Some newSGLangTokenizerImpl
  else if Contains imageID (bs "tei") then Some (newTEITokenizerImpl endpoint host)
  else None.

End tokenizers.

(** ** chat_token_counter.go *)

Record TokenUsage := mk_tu { tu_Total : Z; tu_Prompt : Z; tu_Completion : Z }.
#[export] Instance TokenUsage_eq_dec : EqDecision TokenUsage.
Proof. solve_decision. Defined.

(** [GetContent().AsAny()] of a prompt: a string, text parts, mixed parts
    ([None] for a part that is not text), an assistant's parts, or anything
    else. *)
Inductive prompt_content :=
  | PString (s : bytes)
  | PTextParts (parts : list bytes)
  | PParts (parts : list (option bytes))
  | PAssistantParts
  | POther.
Record prompt := mk_prompt { pr_role : option bytes; pr_content : prompt_content }.

Record chatTokenCounter := mk_ctc {
  ctc_prompts : list prompt; ctc_completion : option ChatCompletion; ctc_chunks : list ChatCompletionChunk; ctc_tokenizer : option Tokenizer;
}.
Definition NewLLMTokenCounter (t : option Tokenizer) : chatTokenCounter := mk_ctc [] None [] t.
Definition AppendPrompts (ps : list prompt) (l : chatTokenCounter) : chatTokenCounter :=
  mk_ctc (ctc_prompts l ++ ps) (ctc_completion l) (ctc_chunks l) (ctc_tokenizer l).
Definition Completion (c : ChatCompletion) (l : chatTokenCounter) : chatTokenCounter :=
  mk_ctc (ctc_prompts l) (Some c) (ctc_chunks l) (ctc_tokenizer l).
Definition AppendCompletionChunk (c : ChatCompletionChunk) (l : chatTokenCounter) : chatTokenCounter :=
  mk_ctc (ctc_prompts l) (ctc_completion l) (ctc_chunks l ++ [c]) (ctc_tokenizer l).

Definition token_usage (u : Usage) : TokenUsage := mk_tu (TotalTokens u) (PromptTokens u) (CompletionTokens u).

(** The loop over the chunks: the text of the first choices, or the usage of a
    chunk that carries one. *)
Definition chunk_text (chunk : ChatCompletionChunk) : bytes :=
  match ck_Choices chunk with
  | choice :: _ => dl_Content (ch_Delta choice) ++ dl_ReasoningContent (ch_Delta choice)
  | [] => []
  end.
Fixpoint scan_chunks (contentBuf : bytes) (chunks : list ChatCompletionChunk) : TokenUsage + bytes :=
  match chunks with
  | [] => inr contentBuf
  | chunk :: rest =>
      if decide (0 < TotalTokens (ck_Usage chunk)) then inl (token_usage (ck_Usage chunk))
      else scan_chunks (contentBuf ++ chunk_text chunk) rest
  end.

Definition prompt_text (c : prompt_content) : bytes :=
  match c with
  | PString s => s
  | PTextParts parts => mjoin parts
  | PParts parts => parts ≫= default []
  | PAssistantParts | POther => []
  end.

(** The prompts' tokens; [*msg.GetRole()] panics without a role. *)
Fixpoint prompt_tokens (t : Tokenizer) (acc : Z) (msgs : list prompt) : tio Z :=
  match msgs with
  | [] => mret acc
  | msg :: rest =>
      match pr_role msg with
      | None => io_panic
      | Some role => n ← Encode t (mk_tm role (prompt_text (pr_content msg))); prompt_tokens t (i64 (acc + n)) rest
      end
  end.

Definition chatUsage (l : chatTokenCounter) : tio TokenUsage :=
  match ctc_completion l with
  | Some c => mret (token_usage (cp_Usage c))
  | None =>
      match scan_chunks [] (ctc_chunks l) with
      | inl u => mret u
      | inr contentBuf =>
          match ctc_tokenizer l with
          | None => io_fail (bs "no usage found in completion, and tokenizer not set")
          | Some t =>
              completionTokens ← Encode t (mk_tm [] contentBuf);
              promptTokens ← prompt_tokens t 0 (ctc_prompts l);
              let promptTokens := i64 (promptTokens + 3) in
              mret (mk_tu (i64 (promptTokens + completionTokens)) promptTokens completionTokens)
          end
      end
  end.

(** ** embedding_token_counter.go *)

Record embeddingTokenCounter := mk_etc { etc_input : bytes; etc_usage : option (Z * Z); etc_tokenizer : option Tokenizer }.
Definition NewEmbeddingTokenCounter (t : option Tokenizer) : embeddingTokenCounter := mk_etc [] None t.
(** The usage: prompt and total tokens. *)
Definition Embedding (u : Z * Z) (l : embeddingTokenCounter) : embeddingTokenCounter := mk_etc (etc_input l) (Some u) (etc_tokenizer l).
Definition Input (s : bytes) (l : embeddingTokenCounter) : embeddingTokenCounter := mk_etc s (etc_usage l) (etc_tokenizer l).
Definition embeddingUsage (l : embeddingTokenCounter) : tio TokenUsage :=
  match etc_usage l with
  | Some (prompt, total) => mret (mk_tu total prompt 0)
  | None =>
      match etc_tokenizer l with
      | None => io_fail (bs "no usage found in embedding response, and tokenizer not set")
      | Some t => n ← EmbeddingEncode t (etc_input l); mret (mk_tu n n 0)
      end
  end.

(** ** response_writer_wrapper_embedding.go *)

(** [json.Unmarshal] of the library's response: its usage, or an error. [gunzip]
    is the whole data unzipped: [None] when it is not gzip, [Some None] when
    reading it fails. *)
Definition embeddingWrite (gunzip : bytes → option (option bytes)) (decode_usage : bytes → option (Z * Z)) (data : bytes)
    (st : list bytes * embeddingTokenCounter) : list bytes * embeddingTokenCounter :=
  let jsonData := match gunzip data with Some (Some d) => d | _ => data end in
  (st.1 ++ [data], match decode_usage jsonData with Some u => Embedding u st.2 | None => st.2 end).

(** ** token_counter.go *)

Definition NewChat (svc : tok_service) (endpoint host model imageID : bytes) : chatTokenCounter :=
  NewLLMTokenCounter (NewTokenizerImpl svc endpoint host model imageID).
Definition NewEmbedding (svc : tok_service) (endpoint host model imageID : bytes) : embeddingTokenCounter :=
  NewEmbeddingTokenCounter (NewTokenizerImpl svc endpoint host model imageID).

Example vllm_ex :
  chatUsage (AppendPrompts [mk_prompt (Some (bs "user")) (PString (bs "hi"))]
    (NewChat (λ log _, Ok (bs "{" ++ jstr "count" ++ bs ":" ++ Itoa (5 + len log) ++ bs "}")) (bs "http://e") (bs "h") (bs "m") (bs "x/vllm-local:1"))) (mk_tok [])
  = (Ret (mk_tu 8 8 0), mk_tok [mk_tok_call (bs "http://e/tokenize") (bs "h")
      (VllmGPUTokenizeReq (bs "m") (bs "<|im_start|>user" ++ nl1 ++ bs "hi<|im_end|>" ++ nl1))]).
Proof. vm_compute. reflexivity. Qed.
