(* ===== verification/GwModels.v ===== *)
(** The models the AI gateway serves: the model type and its JSON
    (aigateway/types/openai.go) and the component that lists, caches, finds,
    meters and charges them (aigateway/component/openai.go, openai_ce.go). The
    hash of cached models is shared by all users; database, cache and queue
    calls may fail at any point. *)
From S2P Require Import Prelude GoLib GoFloat GoJson Sensitive Accounting GwModeration GwStream GwRoute GwToken.
Open Scope Z_scope.

(** ** aigateway/types/openai.go *)

(** [Hardware] and [RuntimeFramework] are never set and have no part here. *)
Record Model := mk_mo {
  mo_ID : bytes; mo_Object : bytes; mo_Created : Z; mo_OwnedBy : bytes; mo_Task : bytes;
  mo_SupportFunctionCall : bool; mo_IsPinned : option bool; mo_Public : bool;
  mo_CSGHubModelID : bytes; mo_OwnerUUID : bytes; mo_ClusterID : bytes; mo_SvcName : bytes; mo_SvcType : Z; mo_ImageID : bytes;
  mo_Provider : bytes; mo_AuthHead : bytes;
  mo_Endpoint : bytes; mo_InternalUse : bool; mo_Fallbacks : list endpoint;
}.

#[export] Instance endpoint_eq_dec : EqDecision endpoint.
Proof. solve_decision. Defined.

(** A string pointer with [omitempty], set when the string is not empty. *)
Definition opt_str (name v : bytes) : list (bytes * json) := if decide (v = []) then [] else [(name, JStr v)].

Definition BaseModel_json (m : Model) : json :=
  JObj ([(bs "id", JStr (mo_ID m)); (bs "object", JStr (mo_Object m)); (bs "created", JNum (Itoa (mo_Created m)));
         (bs "owned_by", JStr (mo_OwnedBy m)); (bs "task", JStr (mo_Task m))] ++
        (if mo_SupportFunctionCall m then [(bs "support_function_call", JBool true)] else []) ++
        (match mo_IsPinned m with Some b => [(bs "is_pinned", JBool b)] | None => [] end) ++
        [(bs "public", JBool (mo_Public m))]).

Definition internalModelResponse (m : Model) : json :=
  JObj ([(bs "id", JStr (mo_ID m)); (bs "object", JStr (mo_Object m)); (bs "created", JNum (Itoa (mo_Created m)));
         (bs "owned_by", JStr (mo_OwnedBy m)); (bs "task", JStr (mo_Task m))] ++
        (if mo_SupportFunctionCall m then [(bs "support_function_call", JBool true)] else []) ++
        [(bs "public", JBool (mo_Public m)); (bs "endpoint", JStr (mo_Endpoint m))] ++
        opt_str (bs "cluster_id") (mo_ClusterID m) ++ opt_str (bs "svc_name") (mo_SvcName m) ++ opt_str (bs "image_id") (mo_ImageID m) ++
        opt_str (bs "auth_head") (mo_AuthHead m) ++ opt_str (bs "provider") (mo_Provider m)).

Definition MarshalJSON (m : Model) : bytes := marshal (if mo_InternalUse m then internalModelResponse m else BaseModel_json m).

Definition UnmarshalJSON (data : bytes) : option Model :=
  j ← parse_json data; o ← as_struct j;
  id ← string_field (bs "id") o; object ← string_field (bs "object") o; created ← int_field (bs "created") o;
  owned ← string_field (bs "owned_by") o; task ← string_field (bs "task") o; fc ← bool_field (bs "support_function_call") o;
  public ← bool_field (bs "public") o; endpoint ← string_field (bs "endpoint") o; cluster ← string_field (bs "cluster_id") o;
  svc ← string_field (bs "svc_name") o; image ← string_field (bs "image_id") o; auth ← string_field (bs "auth_head") o;
  provider ← string_field (bs "provider") o;
  Some (mk_mo id object created owned task fc None public [] [] cluster svc 0 image provider auth endpoint false []).

Definition ForInternalUse (m : Model) : Model :=
  mk_mo (mo_ID m) (mo_Object m) (mo_Created m) (mo_OwnedBy m) (mo_Task m) (mo_SupportFunctionCall m) (mo_IsPinned m) (mo_Public m)
    (mo_CSGHubModelID m) (mo_OwnerUUID m) (mo_ClusterID m) (mo_SvcName m) (mo_SvcType m) (mo_ImageID m) (mo_Provider m) (mo_AuthHead m)
    (mo_Endpoint m) true (mo_Fallbacks m).

Record ModelList := mk_list {
  ml_Data : list Model; ml_FirstID : option bytes; ml_LastID : option bytes; ml_HasMore : bool; ml_TotalCount : Z;
}.
Record ListModelsReq := mk_lreq { lr_ModelID : bytes; lr_Public : bytes; lr_Per : bytes; lr_Page : bytes }.

(** ** The tables read *)

Record user := mk_user { u_ID : Z; u_UUID : bytes; u_Username : bytes; u_MonthlyBudget : float64 }.
Record repository := mk_repo { r_ID : Z; r_Path : bytes; r_HFPath : bytes }.
Record deploy := mk_deploy {
  d_Status : Z; d_Type : Z; d_UserID : Z; d_RepoID : Z; d_SecureLevel : Z; d_CreatedAt : Z; d_EngineArgs : bytes; d_Task : bytes;
  d_ClusterID : bytes; d_SvcName : bytes; d_ImageID : bytes; d_Endpoint : bytes;
}.
Record llm_row := mk_row {
  cf_Type : Z; cf_modelName : bytes; cf_provider : bytes; cf_endpoint : bytes; cf_authHeader : bytes; cf_priority : Z; cf_enabled : bool;
}.
#[export] Instance llm_row_eq_dec : EqDecision llm_row.
Proof. solve_decision. Defined.

Inductive merr :=
  | RedisNil
  | ErrBudgetExceeded
  | ErrInsufficientBalance
  | MErr (m : bytes)
  | MWrap (m : bytes) (e : merr).
(** [errors.Is(err, redis.Nil)] *)
Fixpoint is_redis_nil (e : merr) : bool := match e with RedisNil => true | MWrap _ e => is_redis_nil e | _ => false end.

Record tables := mk_tables {
  t_users : list user; t_repos : list repository; t_deploys : list deploy; t_llms : list llm_row;
  t_members : list (Z * Z);                 (* organisation, user *)
  t_spend : Z → float64; t_granted : Z → float64; t_spent : Z → float64;   (* sums of the usage log and the credits *)
}.

Record model_world := mk_mw {
  mw_tables : tables;
  mw_hash : option (gmap bytes bytes * bool); (* the hash aigateway:models, and whether it has a TTL *)
  mw_saves : list (list Model);             (* saves started, not yet run *)
  mw_events : list MeteringEvent;           (* metering events published *)
  mw_tok : tok_world;
  mw_faulty : list (option merr);
}.

#[export] Program Instance model_world_faulty : Faulty model_world merr := {|
  get_faults := mw_faulty;
  set_faults fs w := mk_mw (mw_tables w) (mw_hash w) (mw_saves w) (mw_events w) (mw_tok w) fs |}.
Next Obligation. by intros []. Qed.

Abbreviation dio := (io model_world merr).

(** A read of the tables. *)
Definition query {A} (f : tables → A) : dio A := next_fault;; io_gets (λ w, f (mw_tables w)).
Definition found {A} (o : option A) : dio A := match o with Some a => mret a | None => io_fail (MErr (bs "sql: no rows in result set")) end.
Definition find_by {A} (P : A → Prop) `{!∀ x, Decision (P x)} (l : list A) : option A := snd <$> list_find P l.

Definition FindByUsername (name : bytes) : dio user :=
  o ← query (λ t, find_by (λ u, u_Username u = name) (t_users t)); found o.
Definition FindByUUID (uuid : bytes) : dio user :=
  o ← query (λ t, find_by (λ u, u_UUID u = uuid) (t_users t)); found o.
(** The ids of the organisations. *)
Definition GetUserBelongOrgs (id : Z) : dio (list Z) := query (λ t, fst <$> filter (λ m : Z * Z, m.2 = id) (t_members t)).

(** builder/store/database/deploy_task.go, common/types *)
Definition InferenceType : Z := 1.
Definition ServerlessType : Z := 3.
Definition EndpointPublic : Z := 1.
Definition EndpointPrivate : Z := 2.
Definition Running : Z := 23.

Definition visible (userID : Z) (d : deploy) : Prop :=
  d_Status d = Running ∧ (d_Type d = InferenceType ∨ d_Type d = ServerlessType) ∧ (d_UserID d = userID ∨ d_SecureLevel d = EndpointPublic).
#[export] Instance visible_dec userID d : Decision (visible userID d).
Proof. unfold visible. apply _. Defined.

(** The rows with the two relations joined. *)
Definition RunningVisibleToUser (userID : Z) : dio (list (deploy * option repository * option user)) :=
  query (λ t, (λ d, (d, find_by (λ r, r_ID r = d_RepoID d) (t_repos t), find_by (λ u, u_ID u = d_UserID d) (t_users t)))
              <$> filter (visible userID) (t_deploys t)).

(** ** component/openai.go: listing *)

(** A nil relation is dereferenced. *)
Definition csghub_model (userID : Z) (row : deploy * option repository * option user) : dio Model :=
  let '(d, r, u) := row in
  match r, u with
  | Some r, Some u =>
      let isPublic := negb (bool_decide (d_Type d = InferenceType ∧ d_SecureLevel d = EndpointPrivate ∧ d_UserID d = userID)) in
      let modelName := if decide (r_HFPath r ≠ []) then r_HFPath r else r_Path r in
      mret (mk_mo (model_id_To modelName (d_SvcName d)) (bs "model") (d_CreatedAt d)
        (if decide (d_Type d = ServerlessType) then bs "OpenCSG" else u_Username u) (d_Task d)
        (Contains (d_EngineArgs d) (bs "tool-call-parser")) None isPublic
        (r_Path r) (u_UUID u) (d_ClusterID d) (d_SvcName d) (d_Type d) (d_ImageID d) [] [] (d_Endpoint d) false [])
  | _, _ => io_panic
  end.

Fixpoint each {A B} (f : A → dio B) (l : list A) : dio (list B) :=
  match l with [] => mret [] | x :: l => y ← f x; ys ← each f l; mret (y :: ys) end.

Definition getCSGHubModels (userID : Z) : dio (list Model) :=
  rows ← io_wrap (MWrap (bs "failed to get running models visible to user,error:")) (RunningVisibleToUser userID);
  each (csghub_model userID) rows.

Definition LLMTypeAigatewayExternal : Z := 16.
Definition external_row (c : llm_row) : Prop := cf_Type c = LLMTypeAigatewayExternal.
#[export] Instance external_row_dec c : Decision (external_row c).
Proof. unfold external_row. apply _. Defined.

Section component.
(** The order the database returns the rows of a page's query in (the query
    has none), [sort.Slice] on priorities, the order of a map's range, and
    [unicode.ToLower]. *)
Variable scan_order : Z → list llm_row → list llm_row.
Variable sort_priority : list llm_row → list llm_row.
Variable range_order : list (bytes * list llm_row) → list (bytes * list llm_row).
Variable unicode_lower : Z → Z.

(** [Index(ctx, per, page, {Type: 16})]: the page, then the count. *)
Definition Index (per page : Z) : dio (list llm_row) :=
  rows ← query t_llms; next_fault;;
  mret (take (Z.to_nat per) (drop (Z.to_nat ((page - 1) * per)) (scan_order page (filter external_row rows)))).

(** The loop over the pages; an error ends it with what was read. [None] is
    out of fuel. *)
Fixpoint pages (fuel : nat) (page : Z) (allConfigs : list llm_row) : dio (option (list llm_row)) :=
  match fuel with
  | O => mret None
  | S fuel =>
      r ← io_try (Index 50 page);
      match r with
      | Err _ => mret (Some allConfigs)
      | Ok extModels =>
          let allConfigs := allConfigs ++ extModels in
          if decide (len extModels < 50) then mret (Some allConfigs) else pages fuel (page + 1) allConfigs
      end
  end.

Definition group (cfgs : list llm_row) : gmap bytes (list llm_row) :=
  foldl (λ g c, if cf_enabled c then <[cf_modelName c := default [] (g !! cf_modelName c) ++ [c]]> g else g) ∅ cfgs.

Definition row_endpoint (c : llm_row) : endpoint := mk_ep (cf_provider c) (cf_endpoint c) (cf_authHeader c).

Definition external_model (g : bytes * list llm_row) : option Model :=
  match sort_priority g.2 with
  | [] => None
  | primary :: rest =>
      Some (mk_mo g.1 (bs "model") 0 (cf_provider primary) [] false None true [] [] [] [] 0 []
              (cf_provider primary) (cf_authHeader primary) (cf_endpoint primary) false (row_endpoint <$> rest))
  end.

(** One page more than the table has rows is enough fuel. *)
Definition getExternalModels : dio (list Model) :=
  n ← io_gets (λ w, length (t_llms (mw_tables w)));
  r ← pages (S n) 1 [];
  match allConfigs ← r; mapM external_model (range_order (map_to_list (group allConfigs))) with
  | Some models => mret models
  | None => io_panic
  end.

(** [userPreference] returns the models of its request. *)
Definition userPreference (models : list Model) : list Model := models.

Definition start_save (models : list Model) : dio unit :=
  io_modify (λ w, mk_mw (mw_tables w) (mw_hash w) (if decide (models = []) then mw_saves w else mw_saves w ++ [models])
                    (mw_events w) (mw_tok w) (mw_faulty w)).

Definition GetAvailableModels (userName : bytes) : dio (list Model) :=
  u ← io_wrap (MWrap (bs "failed to find user by username in db,error:")) (FindByUsername userName);
  csghubModels ← getCSGHubModels (u_ID u);
  externalModels ← getExternalModels;
  let models := csghubModels ++ externalModels in
  start_save models;; mret (userPreference models).

(** [strconv.ParseBool] *)
Definition ParseBool (s : bytes) : option bool :=
  if decide (s ∈ bs <$> ["1"; "t"; "T"; "TRUE"; "true"; "True"]%string) then Some true
  else if decide (s ∈ bs <$> ["0"; "f"; "F"; "FALSE"; "false"; "False"]%string) then Some false else None.

Definition search_filter (q : bytes) (models : list Model) : list Model :=
  if decide (q = []) then models
  else filter (λ m, Contains (ToLower unicode_lower (mo_ID m)) (ToLower unicode_lower q) = true) models.
Definition public_filter (q : bytes) (models : list Model) : list Model :=
  match ParseBool q with Some b => filter (λ m, mo_Public m = b) models | None => models end.

Definition per_of (s : bytes) : Z :=
  match Atoi s with Some n => if decide (0 < n) then Z.min n 100 else 20 | None => 20 end.
Definition page_of (s : bytes) : Z :=
  match Atoi s with Some n => if decide (0 < n) then n else 1 | None => 1 end.

(** [None] is the panic of a slice out of range. *)
Definition paginate (models : list Model) (per page : Z) : option ModelList :=
  let totalCount := len models in
  let offset := i64 ((page - 1) * per) in
  let startIndex := if decide (totalCount < offset) then totalCount else offset in
  let endIndex := i64 (startIndex + per) in
  let endIndex := if decide (totalCount < endIndex) then totalCount else endIndex in
  paginated ← slice models startIndex endIndex;
  Some (mk_list paginated (mo_ID <$> head paginated) (mo_ID <$> last paginated) (bool_decide (endIndex < totalCount)) totalCount).

Definition filterAndPaginateModels (models : list Model) (req : ListModelsReq) : option ModelList :=
  paginate (public_filter (lr_Public req) (search_filter (lr_ModelID req) models)) (per_of (lr_Per req)) (page_of (lr_Page req)).

Definition ListModels (userName : bytes) (req : ListModelsReq) : dio ModelList :=
  models ← GetAvailableModels userName;
  match filterAndPaginateModels models req with Some l => mret l | None => io_panic end.

(** ** component/openai.go: the cache *)

Definition set_hash (h : option (gmap bytes bytes * bool)) (w : model_world) : model_world :=
  mk_mw (mw_tables w) h (mw_saves w) (mw_events w) (mw_tok w) (mw_faulty w).

(** A new hash has no TTL; an old one keeps its own. *)
Definition HSet (field value : bytes) : dio unit :=
  next_fault;;
  io_modify (λ w, set_hash (Some (match mw_hash w with Some (m, ttl) => (<[field := value]> m, ttl) | None => ({[field := value]}, false) end)) w).
Definition Expire : dio unit :=
  next_fault;; io_modify (λ w, set_hash (match mw_hash w with Some (m, _) => Some (m, true) | None => None end) w).
Definition Exists : dio bool := next_fault;; io_gets (λ w, bool_decide (is_Some (mw_hash w))).
Definition HGet (field : bytes) : dio bytes :=
  next_fault;; h ← io_gets mw_hash;
  match h with Some (m, _) => (match m !! field with Some v => mret v | None => io_fail RedisNil end) | None => io_fail RedisNil end.

Fixpoint save_each (models : list Model) : dio unit :=
  match models with
  | [] => mret tt
  | m :: rest =>
      io_wrap (MWrap (bs "failed to set model in cache hash:")) (HSet (mo_ID m) (MarshalJSON (ForInternalUse m)));;
      save_each rest
  end.
Definition saveModelsToCache (models : list Model) : dio unit :=
  save_each models;; io_wrap (MWrap (bs "failed to set TTL for cache hash key:")) Expire.

Definition loadModelFromCache (modelID : bytes) : dio (option Model) :=
  exists_ ← io_wrap (MWrap (bs "failed to check cache hash key existence:")) Exists;
  if exists_ : bool then
    modelJSON ← io_wrap (MWrap (bs "failed to get model from cache hash:")) (HGet modelID);
    match UnmarshalJSON modelJSON with
    | Some model => mret (Some model)
    | None => io_fail (MErr (bs "failed to unmarshal model from JSON"))
    end
  else mret None.

Definition GetModelByID (username modelID : bytes) : dio (option Model) :=
  r ← io_try (loadModelFromCache modelID);
  match r with
  | Ok (Some model) => mret (Some model)
  | Err e =>
      if is_redis_nil e then models ← GetAvailableModels username; mret (find_by (λ m, mo_ID m = modelID) models)
      else io_fail e
  | Ok None => models ← GetAvailableModels username; mret (find_by (λ m, mo_ID m = modelID) models)
  end.
End component.

(** ** component/openai.go: metering *)

Definition on_tok {A} (m : tio A) : dio A := λ w,
  let '(o, t) := m (mw_tok w) in
  (match o with Ret a => Ret a | Fail e => Fail (MErr e) | Panic => Panic end,
   mk_mw (mw_tables w) (mw_hash w) (mw_saves w) (mw_events w) t (mw_faulty w)).

Definition checkOrganization (userUUID ownerUUID : bytes) : dio bool :=
  u ← FindByUUID userUUID;
  owner ← FindByUUID ownerUUID;
  userOrgs ← GetUserBelongOrgs (u_ID u);
  if decide (userOrgs = []) then mret false
  else
    ownerOrgs ← GetUserBelongOrgs (u_ID owner);
    if decide (ownerOrgs = []) then mret false
    else mret (existsb (λ o, bool_decide (o ∈ userOrgs)) ownerOrgs).

(** common/types/accounting.go *)
Definition ExternalInference : bytes := bs "0".
Definition CSGHubUserDeployedInference : bytes := bs "1".
Definition CSGHubOtherDeployedInference : bytes := bs "2".
Definition CSGHubServerlessInference : bytes := bs "3".
Definition CSGHubOrganFellowDeployedInference : bytes := bs "4".

Definition owner_type (userUUID : bytes) (m : Model) : dio bytes :=
  ty ← (if decide (mo_CSGHubModelID m = []) then mret []
        else if decide (mo_SvcType m = ServerlessType) then mret CSGHubServerlessInference
        else if decide (mo_SvcType m = InferenceType) then
          if decide (mo_OwnerUUID m = userUUID) then mret CSGHubUserDeployedInference
          else
            belong ← io_wrap (MWrap (bs "failed to check organization,error:")) (checkOrganization userUUID (mo_OwnerUUID m));
            mret (if belong : bool then CSGHubOrganFellowDeployedInference else CSGHubOtherDeployedInference)
        else mret []);
  mret (if decide (mo_Provider m = []) then ty else ExternalInference).

(** [parseScene] of the community edition. *)
Definition parseScene (sceneValue : bytes) : Z := 15.

(** The resource id and the customer id of an event. *)
Definition usage_resource (m : Model) : bytes * bytes :=
  if decide (mo_Provider m ≠ []) then let k := mo_Provider m ++ bs ":" ++ mo_ID m in (k, k)
  else if decide (mo_CSGHubModelID m ≠ []) then (mo_CSGHubModelID m, mo_SvcName m)
  else ([], []).

Definition usage_extra (u : TokenUsage) (ownerType : bytes) : bytes :=
  marshal (JObj [(bs "prompt_token_num", JStr (Itoa (tu_Prompt u))); (bs "completion_token_num", JStr (Itoa (tu_Completion u)));
                 (bs "owner_type", JStr ownerType)]).

(** builder/event: at most three attempts. *)
Definition publish_event (e : MeteringEvent) : dio unit :=
  next_fault;;
  io_modify (λ w, mk_mw (mw_tables w) (mw_hash w) (mw_saves w) (mw_events w ++ [e]) (mw_tok w) (mw_faulty w)).
Fixpoint tries {A} (n : nat) (m : dio A) : dio A :=
  match n with O => m | S n => r ← io_try m; match r with Ok a => mret a | Err _ => tries n m end end.
Definition PublishMeteringEvent (e : MeteringEvent) : dio unit :=
  io_wrap (MWrap (bs "failed to publish metering event for 3 retries,")) (tries 2 (publish_event e)).

(** [uuid.New()] and the clock are arguments. *)
Definition RecordUsage (userUUID : bytes) (m : Model) (counter : tio TokenUsage) (sceneValue : bytes) (id : bytes) (now : Z) : dio unit :=
  u ← io_wrap (MWrap (bs "failed to get token usage from counter,error:")) (on_tok counter);
  ty ← owner_type userUUID m;
  let '(resource, customer) := usage_resource m in
  io_wrap (MWrap (bs "failed to publish token usage event,error:"))
    (PublishMeteringEvent (mk_event id userUUID (tu_Total u) TokenNumberType (parseScene sceneValue) (bs "aigateway")
       resource resource customer now (usage_extra u ty))).

(** ** component/openai_ce.go *)

Definition MonthlySpend (id : Z) : dio float64 := query (λ t, t_spend t id).
Definition Balance (id : Z) : dio float64 :=
  granted ← query (λ t, t_granted t id); spent ← query (λ t, t_spent t id); mret (fsub granted spent).

Definition f0 : float64 := S754_zero false.

Definition CheckBalance (chargingEnabled : bool) (username : bytes) (m : Model) : dio unit :=
  r ← io_try (FindByUsername username);
  match r with
  | Err _ => mret tt
  | Ok u =>
      over ← (if fltb f0 (u_MonthlyBudget u) then
                s ← io_try (MonthlySpend (u_ID u));
                mret (match s with Ok spend => fleb (u_MonthlyBudget u) spend | Err _ => false end)
              else mret false);
      if over : bool then io_fail ErrBudgetExceeded
      else if negb chargingEnabled then mret tt
      else if decide (mo_Provider m = []) then mret tt
      else
        b ← io_try (Balance (u_ID u));
        match b with
        | Err _ => mret tt
        | Ok balance => if fleb balance f0 then io_fail ErrInsufficientBalance else mret tt
        end
  end.
