(* ===== verification/GwModelsSpec.v ===== *)
(** What holds of the gateway's model component: the cache's JSON, the runs of
    the shared cache, paging, the providers' models, metering and charging. *)
From S2P Require Import Prelude GoLib GoFloat GoJson GoJsonText Sensitive Accounting GwModeration GwStream GwRoute GwToken GwModels.
Open Scope Z_scope.

(** ** The cache's JSON *)

(** What a cached model comes back as: the fields that are not serialised are
    zero. *)
Definition cache_image (m : Model) : Model :=
  mk_mo (mo_ID m) (mo_Object m) (mo_Created m) (mo_OwnedBy m) (mo_Task m) (mo_SupportFunctionCall m) None (mo_Public m)
    [] [] (mo_ClusterID m) (mo_SvcName m) 0 (mo_ImageID m) (mo_Provider m) (mo_AuthHead m) (mo_Endpoint m) false [].

(** Text a database column holds: valid UTF-8. *)
Definition utf8 (s : bytes) : Prop := coerce_utf8 s = s.
Definition well_formed (m : Model) : Prop :=
  - 2 ^ 63 ≤ mo_Created m < 2 ^ 63 ∧
  Forall utf8 [mo_ID m; mo_Object m; mo_OwnedBy m; mo_Task m; mo_ClusterID m; mo_SvcName m; mo_ImageID m; mo_Provider m; mo_AuthHead m; mo_Endpoint m].

Lemma fields_app name l1 l2 : fields name (JObj (l1 ++ l2)) = fields name (JObj l1) ++ fields name (JObj l2).
Proof. unfold fields. by rewrite filter_app, fmap_app. Qed.
Lemma fields_nil name : fields name (JObj []) = [].
Proof. done. Qed.
Lemma fields_cons name k v l : fields name (JObj ((k, v) :: l)) = (if decide (fold_name k = fold_name name) then [v] else []) ++ fields name (JObj l).
Proof. unfold fields. rewrite filter_cons. cbn [fst]. by case_decide. Qed.
Lemma fields_opt name k v : fields name (JObj (opt_str k v)) = if decide (fold_name k = fold_name name) then (if decide (v = []) then [] else [JStr v]) else [].
Proof. unfold opt_str. destruct (decide (v = [])); [by destruct (decide (fold_name k = _))|]. rewrite fields_cons, fields_nil. by case_decide. Qed.

Lemma storable_members d l : foldr (λ kv P, (coerce_utf8 kv.1 = kv.1 ∧ storable d kv.2) ∧ P) True l ↔ Forall (λ kv : bytes * json, utf8 kv.1 ∧ storable d kv.2) l.
Proof. induction l as [|kv l IH]; cbn [foldr]; [by split|]. rewrite Forall_cons, IH. done. Qed.
Lemma storable_object d l : d < 10000 → Forall (λ kv : bytes * json, utf8 kv.1 ∧ storable (d + 1) kv.2) l → storable d (JObj l).
Proof. intros Hd Hl. split; [done|]. by apply storable_members. Qed.
Lemma storable_opt d k v : utf8 k → utf8 v → Forall (λ kv : bytes * json, utf8 kv.1 ∧ storable d kv.2) (opt_str k v).
Proof. intros Hk Hv. unfold opt_str. case_decide; [by constructor|]. by repeat constructor. Qed.

Lemma storable_internal m : well_formed m → storable 0 (internalModelResponse m).
Proof.
  intros (Hc & Hs). rewrite !Forall_cons in Hs. destruct Hs as (? & ? & ? & ? & ? & ? & ? & ? & ? & ? & _).
  apply storable_object; [lia|]. rewrite !Forall_app, !Forall_cons, !Forall_nil. cbn [fst snd storable].
  assert (Forall (λ kv : bytes * json, utf8 kv.1 ∧ storable (0 + 1) kv.2) (if mo_SupportFunctionCall m then [(bs "support_function_call", JBool true)] else [])).
  { destruct (mo_SupportFunctionCall m); by repeat constructor. }
  split_and!; try (apply storable_opt; done); try done. apply number_text_Itoa.
Qed.

(** One field of the response: the keys are compared by evaluation. *)
Ltac eval_keys := repeat match goal with |- context [decide (fold_name ?a = fold_name ?b)] =>
  first [rewrite (decide_True (P := fold_name a = fold_name b)) by (vm_compute; reflexivity)
        |rewrite (decide_False (P := fold_name a = fold_name b)) by (vm_compute; discriminate)] end.
Ltac one_field m :=
  unfold string_field, int_field, bool_field, internalModelResponse;
  destruct (mo_SupportFunctionCall m); rewrite !fields_app, !fields_opt, ?fields_cons, ?fields_nil; eval_keys; cbn [app foldl];
  rewrite ?bind_some; repeat match goal with |- context [decide (?v = [])] => let He := fresh in destruct (decide (v = [])) as [He|]; [rewrite He|] end;
  cbn [app foldl]; try reflexivity.

Lemma UnmarshalJSON_internal m : well_formed m → UnmarshalJSON (marshal (internalModelResponse m)) = Some (cache_image m).
Proof.
  intros Hm. pose proof Hm as [Hc _]. unfold UnmarshalJSON. rewrite parse_marshal by by apply storable_internal. rewrite bind_some.
  assert (as_struct (internalModelResponse m) = Some (internalModelResponse m)) as -> by done. rewrite bind_some.
  assert (int_field (bs "created") (internalModelResponse m) = Some (mo_Created m)) as -> by (one_field m; by apply ParseInt_Itoa).
  assert (string_field (bs "id") (internalModelResponse m) = Some (mo_ID m)) as -> by one_field m.
  assert (string_field (bs "object") (internalModelResponse m) = Some (mo_Object m)) as -> by one_field m.
  assert (string_field (bs "owned_by") (internalModelResponse m) = Some (mo_OwnedBy m)) as -> by one_field m.
  assert (string_field (bs "task") (internalModelResponse m) = Some (mo_Task m)) as -> by one_field m.
  assert (bool_field (bs "support_function_call") (internalModelResponse m) = Some (mo_SupportFunctionCall m)) as -> by one_field m.
  assert (bool_field (bs "public") (internalModelResponse m) = Some (mo_Public m)) as -> by one_field m.
  assert (string_field (bs "endpoint") (internalModelResponse m) = Some (mo_Endpoint m)) as -> by one_field m.
  assert (string_field (bs "cluster_id") (internalModelResponse m) = Some (mo_ClusterID m)) as -> by one_field m.
  assert (string_field (bs "svc_name") (internalModelResponse m) = Some (mo_SvcName m)) as -> by one_field m.
  assert (string_field (bs "image_id") (internalModelResponse m) = Some (mo_ImageID m)) as -> by one_field m.
  assert (string_field (bs "auth_head") (internalModelResponse m) = Some (mo_AuthHead m)) as -> by one_field m.
  assert (string_field (bs "provider") (internalModelResponse m) = Some (mo_Provider m)) as -> by one_field m.
  reflexivity.
Qed.

(** ** Runs of the shared cache *)

(** A call that only reads: the world keeps all but its schedule of faults. *)
Definition reads {A} (m : dio A) : Prop := ∀ w, ∃ fs, (m w).2 = set_faults fs w.

Lemma set_faults_twice (w : model_world) fs fs' : set_faults fs' (set_faults fs w) = set_faults fs' w.
Proof. done. Qed.
Lemma set_faults_self (w : model_world) : w = set_faults (mw_faulty w) w.
Proof. by destruct w. Qed.

Lemma reads_ret {A} (a : A) : reads (mret a).
Proof. intros w. exists (mw_faulty w). apply set_faults_self. Qed.
Lemma reads_fail {A} e : reads (A := A) (io_fail e).
Proof. intros w. exists (mw_faulty w). apply set_faults_self. Qed.
Lemma reads_panic {A} : reads (A := A) io_panic.
Proof. intros w. exists (mw_faulty w). apply set_faults_self. Qed.
Lemma reads_gets {A} (f : model_world → A) : reads (io_gets f).
Proof. intros w. exists (mw_faulty w). apply set_faults_self. Qed.
Lemma reads_bind {A B} (m : dio A) (f : A → dio B) : reads m → (∀ a, reads (f a)) → reads (m ≫= f).
Proof.
  intros Hm Hf w. destruct (Hm w) as [fs Hw]. unfold mbind, io_bind. destruct (m w) as [[a|e|] w']; cbn [snd] in Hw; subst w'; [|by exists fs..].
  destruct (Hf a (set_faults fs w)) as [fs' Hw']. exists fs'. by rewrite Hw', set_faults_twice.
Qed.
Lemma reads_try {A} (m : dio A) : reads m → reads (io_try m).
Proof. intros Hm w. destruct (Hm w) as [fs Hw]. unfold io_try. exists fs. by destruct (m w) as [[] ?]. Qed.
Lemma reads_wrap {A} f (m : dio A) : reads m → reads (io_wrap f m).
Proof. intros Hm w. destruct (Hm w) as [fs Hw]. unfold io_wrap. exists fs. by destruct (m w) as [[] ?]. Qed.
Lemma reads_next_fault : reads next_fault.
Proof.
  intros w. unfold next_fault. destruct (get_faults w) as [|[] fs]; [exists (mw_faulty w); apply set_faults_self|by exists fs..].
Qed.
Create HintDb reads.
#[export] Hint Resolve reads_ret reads_fail reads_panic reads_gets reads_bind reads_try reads_wrap reads_next_fault : reads.

Lemma reads_query {A} (f : tables → A) : reads (query f).
Proof. unfold query. auto with reads. Qed.
Lemma reads_found {A} (o : option A) : reads (found o).
Proof. destruct o; simpl; auto with reads. Qed.
#[export] Hint Resolve reads_query reads_found : reads.
Lemma reads_each {A B} (f : A → dio B) l : (∀ x, reads (f x)) → reads (each f l).
Proof. intros Hf. induction l; simpl; auto with reads. Qed.
Lemma reads_csghub userID : reads (getCSGHubModels userID).
Proof.
  unfold getCSGHubModels, RunningVisibleToUser. apply reads_bind; [auto with reads|]. intros rows. apply reads_each.
  intros [[d [r|]] [u|]]; simpl; auto with reads.
Qed.
#[export] Hint Resolve reads_csghub : reads.

Section component.
Variable scan_order : Z → list llm_row → list llm_row.
Variable sort_priority : list llm_row → list llm_row.
Variable range_order : list (bytes * list llm_row) → list (bytes * list llm_row).
Variable unicode_lower : Z → Z.
Abbreviation GetAvailableModels := (GwModels.GetAvailableModels scan_order sort_priority range_order).
Abbreviation GetModelByID := (GwModels.GetModelByID scan_order sort_priority range_order).
Abbreviation getExternalModels := (GwModels.getExternalModels scan_order sort_priority range_order).
Abbreviation ListModels := (GwModels.ListModels scan_order sort_priority range_order unicode_lower).
Abbreviation pages := (GwModels.pages scan_order).

Lemma reads_pages fuel : ∀ page acc, reads (pages fuel page acc).
Proof.
  induction fuel as [|fuel IH]; intros page acc; simpl; [auto with reads|]. apply reads_bind; [unfold Index; auto 10 with reads|].
  intros [rows|e]; [case_decide|]; auto with reads.
Qed.
Lemma reads_external : reads getExternalModels.
Proof.
  unfold GwModels.getExternalModels. apply reads_bind; [auto with reads|]. intros n. apply reads_bind; [apply reads_pages|].
  intros r. destruct (_ ≫= _); auto with reads.
Qed.
Lemma reads_load id : reads (loadModelFromCache id).
Proof.
  unfold loadModelFromCache, Exists, HGet. apply reads_bind; [auto with reads|]. intros [|]; [|auto with reads].
  apply reads_bind; [apply reads_wrap, reads_bind; [auto with reads|]; intros _; apply reads_bind; [auto with reads|]; intros [[m ttl]|]; [destruct (m !! id)|]; auto with reads|].
  intros s. destruct (UnmarshalJSON s); auto with reads.
Qed.

Definition add_save (models : list Model) (w : model_world) : model_world :=
  if decide (models = []) then w else mk_mw (mw_tables w) (mw_hash w) (mw_saves w ++ [models]) (mw_events w) (mw_tok w) (mw_faulty w).

(** Listing, without the save. *)
Definition listed (u : bytes) : dio (list Model) :=
  u ← io_wrap (MWrap (bs "failed to find user by username in db,error:")) (FindByUsername u);
  cs ← getCSGHubModels (u_ID u); ex ← getExternalModels; mret (cs ++ ex).
Lemma reads_listed u : reads (listed u).
Proof.
  unfold listed, FindByUsername. apply reads_bind; [auto with reads|]. intros ?. apply reads_bind; [auto with reads|]. intros ?.
  apply reads_bind; [apply reads_external|auto with reads].
Qed.
Lemma GetAvailableModels_listed u w : GetAvailableModels u w = (models ← listed u; start_save models;; mret models) w.
Proof.
  unfold GwModels.GetAvailableModels, listed, userPreference, mbind, io_bind. destruct (io_wrap _ _ w) as [[u0|e|] w1]; try done.
  destruct (getCSGHubModels _ w1) as [[cs|e|] w2]; try done. destruct (GwModels.getExternalModels _ _ _ w2) as [[ex|e|] w3]; done.
Qed.

(** Listing reads the tables; when it returns models it starts their save. *)
Lemma GetAvailableModels_effect u w :
  (∃ fs, (GetAvailableModels u w).2 = set_faults fs w ∧ ∀ models, (GetAvailableModels u w).1 ≠ Ret models) ∨
  (∃ fs models, GetAvailableModels u w = (Ret models, add_save models (set_faults fs w))).
Proof.
  rewrite GetAvailableModels_listed. destruct (reads_listed u w) as [fs Hw]. unfold mbind, io_bind.
  destruct (listed u w) as [[models|e|] w1]; cbn [snd] in Hw; subst w1.
  - right. exists fs, models. unfold add_save, start_save, io_modify, mret, io_ret. by destruct (decide (models = [])).
  - left. by exists fs.
  - left. by exists fs.
Qed.

(** One request: at most a save is started. *)
Definition available (w : model_world) (u : bytes) (m : Model) : Prop :=
  ∃ fs models w', GetAvailableModels u (set_faults fs w) = (Ret models, w') ∧ m ∈ models.

Definition started (u : bytes) (w w' : model_world) : Prop :=
  ∃ fs, w' = set_faults fs w ∨ ∃ models, w' = add_save models (set_faults fs w) ∧ ∀ m, m ∈ models → available w u m.

Lemma GetAvailableModels_started u w : started u w (GetAvailableModels u w).2.
Proof.
  destruct (GetAvailableModels_effect u w) as [(fs & -> & _)|(fs & models & Heq)]; [by exists fs; left|].
  rewrite Heq. exists fs. right. exists models. split; [done|]. intros m Hm. exists (mw_faulty w), models, (add_save models (set_faults fs w)).
  by rewrite <-set_faults_self.
Qed.
Lemma started_after u w fs w' : started u (set_faults fs w) w' → started u w w'.
Proof. intros (fs' & [->|(models & -> & Hm)]); [by exists fs'; left|]. exists fs'. right. by exists models. Qed.
Lemma started_bind {A B} u (m : dio A) (f : A → dio B) w : started u w (m w).2 → (∀ a, reads (f a)) → started u w ((m ≫= f) w).2.
Proof.
  intros Hm Hf. unfold mbind, io_bind. destruct (m w) as [[a|e|] w1]; try done. destruct (Hf a w1) as [fs ->]. cbn [snd] in Hm.
  destruct Hm as (fs' & [->|(models & -> & Hm)]); [by exists fs; left|]. exists fs. right. exists models. split; [|done].
  unfold add_save. by destruct (decide (models = [])).
Qed.
Lemma GetModelByID_started u id w : started u w (GetModelByID u id w).2.
Proof.
  unfold GwModels.GetModelByID. destruct (reads_load id w) as [fs Hw]. unfold mbind at 1, io_bind at 1, io_try.
  destruct (loadModelFromCache id w) as [[[m|]|e|] w1]; cbn [snd] in Hw; subst w1.
  - by exists fs; left.
  - eapply started_after, started_bind; [apply GetAvailableModels_started|auto with reads].
  - destruct (is_redis_nil e); [|by exists fs; left]. eapply started_after, started_bind; [apply GetAvailableModels_started|auto with reads].
  - by exists fs; left.
Qed.
Lemma ListModels_started u req w : started u w (ListModels u req w).2.
Proof.
  apply started_bind; [apply GetAvailableModels_started|]. intros models. destruct (filterAndPaginateModels _ _ _); auto with reads.
Qed.

(** The steps of the gateway: a user asks for a model or a page of models; a
    save runs; the hash expires; the tables and the failures change. *)
Definition take_save (i : nat) (w : model_world) : model_world :=
  mk_mw (mw_tables w) (mw_hash w) (delete i (mw_saves w)) (mw_events w) (mw_tok w) (mw_faulty w).
Definition environment (t : tables) (fs : list (option merr)) (w : model_world) : model_world :=
  mk_mw t (mw_hash w) (mw_saves w) (mw_events w) (mw_tok w) fs.

Inductive model_step (w : model_world) : model_world → Prop :=
  | step_get u id : model_step w (GetModelByID u id w).2
  | step_list u req : model_step w (ListModels u req w).2
  | step_save i models : mw_saves w !! i = Some models → model_step w (saveModelsToCache models (take_save i w)).2
  | step_expire m : mw_hash w = Some (m, true) → model_step w (set_hash None w)
  | step_environment t fs : model_step w (environment t fs w).

Definition fresh (w : model_world) : Prop := mw_hash w = None ∧ mw_saves w = [].

(** A model that was available to someone on the way from [w0] to [w]. *)
Definition source (w0 w : model_world) (m : Model) : Prop :=
  ∃ w1 u, rtc model_step w0 w1 ∧ rtc model_step w1 w ∧ available w1 u m.
Definition entry (w : model_world) (id text : bytes) : Prop := ∃ h ttl, mw_hash w = Some (h, ttl) ∧ h !! id = Some text.

(** Saves started and fields cached have a source. *)
Definition traced (w0 w : model_world) : Prop :=
  (∀ models m, models ∈ mw_saves w → m ∈ models → source w0 w m) ∧
  (∀ id text, entry w id text → ∃ m, source w0 w m ∧ id = mo_ID m ∧ text = MarshalJSON (ForInternalUse m)).

Lemma source_step w0 w w' m : source w0 w m → model_step w w' → source w0 w' m.
Proof. intros (w1 & u & H1 & H2 & Ha) Hs. exists w1, u. split_and!; [done| |done]. by eapply rtc_r. Qed.

(** A write to the cache: entries are old or come from [models]. *)
Definition saves_from (models : list Model) (w w' : model_world) : Prop :=
  mw_saves w' = mw_saves w ∧
  ∀ id text, entry w' id text → entry w id text ∨ ∃ m, m ∈ models ∧ id = mo_ID m ∧ text = MarshalJSON (ForInternalUse m).

Lemma saves_from_trans models w w' w'' : saves_from models w w' → saves_from models w' w'' → saves_from models w w''.
Proof. intros [H1 H2] [H3 H4]. split; [congruence|]. intros id text [He|He]%H4; [by apply H2|by right]. Qed.
Lemma saves_from_bind {A B} models (m : dio A) (f : A → dio B) w :
  saves_from models w (m w).2 → (∀ a w', saves_from models w' (f a w').2) → saves_from models w ((m ≫= f) w).2.
Proof.
  intros Hm Hf. unfold mbind, io_bind. destruct (m w) as [[a|e|] w1]; [|done..]. cbn [snd] in Hm. eapply saves_from_trans; [done|apply Hf].
Qed.
Lemma saves_from_reads {A} models (m : dio A) w : reads m → saves_from models w (m w).2.
Proof. intros Hm. destruct (Hm w) as [fs ->]. split; [done|]. intros id text He. by left. Qed.
Lemma saves_from_wrap {A} models f (m : dio A) w : saves_from models w (m w).2 → saves_from models w (io_wrap f m w).2.
Proof. unfold io_wrap. by destruct (m w) as [[] ?]. Qed.

Lemma HSet_saves models m w : m ∈ models → saves_from models w (HSet (mo_ID m) (MarshalJSON (ForInternalUse m)) w).2.
Proof.
  intros Hm. apply saves_from_bind; [by apply saves_from_reads, reads_next_fault|]. intros _ w'. split; [done|].
  intros id text (h & ttl & Hh & Hl). simpl in Hh. destruct (mw_hash w') as [[h0 ttl0]|] eqn:Hw; simplify_eq.
  - rewrite lookup_insert in Hl. case_decide; simplify_eq; [right; by exists m|left; by exists h0, ttl].
  - rewrite lookup_singleton in Hl. case_decide; simplify_eq. right. by exists m.
Qed.
Lemma Expire_saves models w : saves_from models w (Expire w).2.
Proof.
  apply saves_from_bind; [by apply saves_from_reads, reads_next_fault|]. intros _ w'. split; [done|].
  intros id text (h & ttl & Hh & Hl). simpl in Hh. destruct (mw_hash w') as [[h0 ttl0]|] eqn:Hw; simplify_eq. left. by exists h, ttl0.
Qed.
Lemma saveModelsToCache_saves models w : saves_from models w (saveModelsToCache models w).2.
Proof.
  assert (∀ l w, (∀ m, m ∈ l → m ∈ models) → saves_from models w (save_each l w).2) as Heach.
  { induction l as [|m l IH]; intros w' Hl; cbn [save_each].
    - apply saves_from_reads, reads_ret.
    - apply saves_from_bind; [apply saves_from_wrap, HSet_saves, Hl; by left|]. intros _ w2. apply IH. intros m' Hm'. apply Hl. by right. }
  apply saves_from_bind; [by apply Heach|]. intros _ w'. apply saves_from_wrap, Expire_saves.
Qed.

Lemma started_entry u w w' id text : started u w w' → entry w' id text → entry w id text.
Proof.
  intros (fs & [->|(models & -> & _)]); intros (h & ttl & Hh & Hl); exists h, ttl; [done|]. split; [|done]. revert Hh. unfold add_save. by destruct (decide _).
Qed.
Lemma started_saves u w w' models m : started u w w' → models ∈ mw_saves w' → m ∈ models → models ∈ mw_saves w ∨ available w u m.
Proof.
  intros (fs & [->|(l & -> & Hl)]) Hm Hin; [by left|]. revert Hm. unfold add_save. destruct (decide _); [by left|].
  cbn [mw_saves]. rewrite elem_of_app. intros [Hm|Hm%list_elem_of_singleton]; [by left|]. subst l. right. by apply Hl.
Qed.

Lemma traced_reachable w0 w : fresh w0 → rtc model_step w0 w → traced w0 w.
Proof.
  intros [Hh Hp]. revert w. apply rtc_ind_r.
  { split; [rewrite Hp; by intros ?? ?%elem_of_nil|]. intros id text (h & ttl & Hw & _). congruence. }
  intros w w' Hrun Hstep [Hs He]. assert (∀ m, source w0 w m → source w0 w' m) as Hkeep by (intros m Hm; by eapply source_step).
  assert (∀ u, started u w w' → traced w0 w') as Hstart.
  { intros u Hst. split.
    - intros models m Hm Hin. apply Hkeep. destruct (started_saves u w w' models m Hst Hm Hin) as [?|Ha]; [by eapply Hs|]. by exists w, u.
    - intros id text Hin. apply (started_entry u w w' id text Hst) in Hin. destruct (He _ _ Hin) as (m & ? & ?). exists m. auto. }
  inversion Hstep as [u id Heq|u req Heq|i models Hi Heq|m Hm Heq|t fs Heq]; subst.
  - eapply Hstart, GetModelByID_started.
  - eapply Hstart, ListModels_started.
  - destruct (saveModelsToCache_saves models (take_save i w)) as [Hsv Hen]. split.
    + intros models' m Hm Hin. rewrite Hsv in Hm. cbn [take_save mw_saves] in Hm. apply Hkeep, (Hs models'); [|done].
      apply list_elem_of_lookup in Hm as [j Hj].
      apply list_elem_of_lookup_2 with (if decide (j < i)%nat then j else S j). case_decide; [by rewrite list_lookup_delete_lt in Hj|by rewrite list_lookup_delete_ge in Hj by lia].
    + intros id text [Hin|(m & Hm & -> & ->)]%Hen; [destruct (He id text Hin) as (m & ? & ?); exists m; auto|].
      exists m. split_and!; [|done..]. eapply Hkeep, Hs; [|done]. by eapply list_elem_of_lookup_2.
  - split; [intros models m' Hin ?; by eapply Hkeep, Hs|]. intros id text (h & ttl & Hw & _). by simpl in Hw.
  - split; [intros models m' Hin ?; by eapply Hkeep, Hs|]. intros id text Hin. destruct (He id text Hin) as (m & ? & ?). exists m. auto.
Qed.

(** A cached entry is what was stored, read back. *)
Lemma run_bind_Ret {A B} (m : dio A) (f : A → dio B) w b w' : (m ≫= f) w = (Ret b, w') → ∃ a w1, m w = (Ret a, w1) ∧ f a w1 = (Ret b, w').
Proof. unfold mbind, io_bind. destruct (m w) as [[a|e|] w1]; [eauto|done..]. Qed.
Lemma run_wrap_Ret {A} f (m : dio A) w a w' : io_wrap f m w = (Ret a, w') → m w = (Ret a, w').
Proof. unfold io_wrap. by destruct (m w) as [[] ?]. Qed.
Lemma reads_entry {A} (m : dio A) w o w' id text : reads m → m w = (o, w') → entry w' id text → entry w id text.
Proof. intros Hr Hm. destruct (Hr w) as [fs Hw]. rewrite Hm in Hw. cbn [snd] in Hw. by subst w'. Qed.

Lemma HGet_entry id w text w' : HGet id w = (Ret text, w') → entry w id text.
Proof.
  intros ([] & w1 & Hf & Hg)%run_bind_Ret. eapply (reads_entry next_fault); [apply reads_next_fault|done|]. unfold mbind, io_bind, io_gets in Hg.
  destruct (mw_hash w1) as [[h ttl]|] eqn:Hh; [|done]. destruct (h !! id) as [v|] eqn:Hl; [|done]. unfold mret, io_ret in Hg. simplify_eq. by exists h, ttl.
Qed.
Lemma loadModelFromCache_entry id w m w' : loadModelFromCache id w = (Ret (Some m), w') → ∃ text, entry w id text ∧ UnmarshalJSON text = Some m.
Proof.
  intros ([] & w1 & He & Hl)%run_bind_Ret; [|done]. apply run_bind_Ret in Hl as (text & w2 & Hg%run_wrap_Ret & Hu).
  exists text. destruct (UnmarshalJSON text) as [m'|]; [|done]. unfold mret, io_ret in Hu. simplify_eq. split; [|done].
  apply HGet_entry in Hg. eapply (reads_entry _ w _ w1); [|done|done]. unfold Exists. auto with reads.
Qed.

Lemma find_by_Some {A} (P : A → Prop) `{!∀ x, Decision (P x)} (l : list A) x : find_by P l = Some x → x ∈ l ∧ P x.
Proof. unfold find_by. intros ([i y] & (Hi & Hp & _)%list_find_Some & ->)%fmap_Some. split; [by eapply list_elem_of_lookup_2|done]. Qed.

(** C9: from an empty cache on, with any users, table changes and failures, a
    model resolved for an id is a model with that id that is listed for this
    user now, or one that was listed for some user before, as the cache keeps
    it. *)
Theorem resolved_model_was_listed w0 w u id m w' : fresh w0 → rtc model_step w0 w → GetModelByID u id w = (Ret (Some m), w') →
  (mo_ID m = id ∧ available w u m) ∨
  (∃ w1 u' m0, rtc model_step w0 w1 ∧ rtc model_step w1 w ∧ available w1 u' m0 ∧ mo_ID m0 = id ∧ (well_formed m0 → m = cache_image m0)).
Proof.
  intros Hf Hr (r & w1 & Ht & Hg)%run_bind_Ret. destruct (traced_reachable w0 w Hf Hr) as [_ He]. unfold io_try in Ht.
  destruct (loadModelFromCache id w) as [o wl] eqn:Hl. destruct (reads_load id w) as [fs Hw]. rewrite Hl in Hw. cbn [snd] in Hw. subst wl.
  assert (w1 = set_faults fs w) as -> by (by destruct o; simplify_eq).
  assert ((models ← GetAvailableModels u; mret (find_by (λ m, mo_ID m = id) models)) (set_faults fs w) = (Ret (Some m), w') → mo_ID m = id ∧ available w u m) as Hlist.
  { intros (models & w2 & Ha & Hm)%run_bind_Ret. unfold mret, io_ret in Hm. assert (find_by (λ m, mo_ID m = id) models = Some m) as [Hin Hid]%find_by_Some by congruence.
    split; [done|]. by exists fs, models, w2. }
  destruct o as [[m1|]|e|]; simplify_eq.
  - right. unfold mret, io_ret in Hg. simplify_eq. apply loadModelFromCache_entry in Hl as (text & Hen & Hu).
    destruct (He id text Hen) as (m0 & (w1 & u' & H1 & H2 & Ha) & -> & ->). exists w1, u', m0. split_and!; [done..|]. intros Hwf.
    change (MarshalJSON (ForInternalUse m0)) with (marshal (internalModelResponse m0)) in Hu. rewrite UnmarshalJSON_internal in Hu by done. congruence.
  - left. by apply Hlist.
  - destruct (is_redis_nil e); [left; by apply Hlist|done].
Qed.
End component.
