(* ===== verification/GwListing.v ===== *)
(** Listing and charging in the gateway's model component: who a cached model
    serves, the pages of a list, the providers' models, token events and
    balance checks. *)
From Stdlib Require Import Sorting.Sorted.
From S2P Require Import Prelude GoLib GoFloat GoJson GoJsonText Sensitive Accounting GwModeration GwStream GwRoute GwToken GwModels GwModelsSpec.
Open Scope Z_scope.

(** ** Runs without failures *)

Definition no_faults (w : model_world) : Prop := mw_faulty w = [].
Lemma next_fault_none w : no_faults w → next_fault w = (Ret tt, w).
Proof. unfold no_faults, next_fault. cbn [get_faults model_world_faulty]. by intros ->. Qed.
Lemma query_none {A} (f : tables → A) w : no_faults w → query f w = (Ret (f (mw_tables w)), w).
Proof. intros Hw. unfold query, mbind, io_bind, io_gets. by rewrite next_fault_none. Qed.
Lemma bind_Ret {A B} (m : dio A) (f : A → dio B) w a w' : m w = (Ret a, w') → (m ≫= f) w = f a w'.
Proof. unfold mbind, io_bind. by intros ->. Qed.
Lemma wrap_Ret {A} f (m : dio A) w a w' : m w = (Ret a, w') → io_wrap f m w = (Ret a, w').
Proof. unfold io_wrap. by intros ->. Qed.
Lemma try_Ret {A} (m : dio A) w a w' : m w = (Ret a, w') → io_try m w = (Ret (Ok a), w').
Proof. unfold io_try. by intros ->. Qed.

(** ** Pages of a list *)

(** Within bounds a page is its window of the list; it may be the last one or
    beyond the end. *)
Lemma paginate_window models per page : 0 < per → 0 < page → (page - 1) * per < 2 ^ 63 → len models + per < 2 ^ 63 →
  ∃ l, paginate models per page = Some l ∧ ml_Data l = take (Z.to_nat per) (drop (Z.to_nat ((page - 1) * per)) models) ∧
    (ml_HasMore l = true ↔ page * per < len models) ∧ ml_TotalCount l = len models ∧
    ml_FirstID l = mo_ID <$> head (ml_Data l) ∧ ml_LastID l = mo_ID <$> last (ml_Data l).
Proof.
  intros Hper Hpage Ho Hlen. pose proof (Nat2Z.is_nonneg (length models)) as Hnn. unfold paginate. rewrite (i64_small ((page - 1) * per)) by nia.
  set (off := (page - 1) * per) in *. assert (0 ≤ off) as Hoff by (subst off; nia).
  set (start := if decide (len models < off) then len models else off).
  assert (start = Z.min off (len models)) as Hstart by (subst start; case_decide; lia). unfold len in *.
  rewrite (i64_small (start + per)) by lia.
  set (stop := if decide (Z.of_nat (length models) < start + per) then Z.of_nat (length models) else start + per).
  assert (stop = Z.min (start + per) (Z.of_nat (length models))) as Hstop by (subst stop; case_decide; lia).
  unfold slice. rewrite decide_True by (unfold len; lia). rewrite bind_some. eexists. split; [done|]. cbn [ml_Data ml_HasMore ml_TotalCount ml_FirstID ml_LastID].
  split_and!; [| |done..].
  - destruct (decide (off ≤ Z.of_nat (length models))).
    + replace start with off by lia. destruct (decide (off + per ≤ Z.of_nat (length models))); [by replace (stop - off) with per by lia|].
      rewrite !take_ge; [done|rewrite length_drop; lia..].
    + rewrite !drop_ge by lia. by rewrite !take_nil.
  - rewrite bool_decide_eq_true. replace (page * per) with (off + per) by (subst off; lia). lia.
Qed.

(** The pages 1 to [n]. *)
Definition page_data (models : list Model) (per : Z) (n : nat) : list Model :=
  seqZ 1 (Z.of_nat n) ≫= λ page, match paginate models per page with Some l => ml_Data l | None => [] end.

Lemma page_data_take models per n : 0 < per → Z.of_nat n * per < 2 ^ 63 → len models + per < 2 ^ 63 →
  page_data models per n = take (n * Z.to_nat per) models.
Proof.
  intros Hper Hn Hlen. unfold page_data. induction n as [|n IH]; [done|].
  replace (Z.of_nat (S n)) with (Z.of_nat n + 1) by lia. rewrite seqZ_app by lia. rewrite bind_app, IH by lia.
  replace (seqZ (1 + Z.of_nat n) 1) with [1 + Z.of_nat n] by (by rewrite seqZ_cons by lia). cbn [mbind list_bind]. rewrite app_nil_r.
  destruct (paginate_window models per (1 + Z.of_nat n)) as (l & -> & -> & _); [lia..|].
  replace (Z.to_nat ((1 + Z.of_nat n - 1) * per)) with (n * Z.to_nat per)%nat by nia.
  rewrite take_take_drop. f_equal. lia.
Qed.

(** The pages of a list, one after the other, are the list: each model is
    on one page, in order; the last page says there is no more, and any page
    tells the first and last id it holds. *)
Theorem pages_partition models per n : 0 < per ≤ 100 → (0 < n)%nat → Z.of_nat n * per < 2 ^ 63 → len models + per < 2 ^ 63 →
  (Z.of_nat n - 1) * per < len models ≤ Z.of_nat n * per →
  page_data models per n = models ∧
  ∀ page, 1 ≤ page ≤ Z.of_nat n → ∃ l, paginate models per page = Some l ∧ len (ml_Data l) = Z.min per (len models - (page - 1) * per) ∧
    (ml_HasMore l = false ↔ page = Z.of_nat n) ∧ ml_TotalCount l = len models ∧
    ml_FirstID l = mo_ID <$> head (ml_Data l) ∧ ml_LastID l = mo_ID <$> last (ml_Data l).
Proof.
  intros Hper Hn Ho Hlen Hlast. split.
  - rewrite page_data_take by lia. apply take_ge. unfold len in Hlast. nia.
  - intros page Hpage. destruct (paginate_window models per page) as (l & Hl & Hd & Hm & Ht & Hfl); [lia|lia|nia|lia|].
    exists l. split; [done|]. split; [|split; [|by split]].
    + rewrite Hd. unfold len in *. rewrite length_take, length_drop. nia.
    + rewrite <-not_true_iff_false, Hm. nia.
Qed.

(** A page number near the largest integer overflows the offset: listing
    panics instead of returning an empty page. *)
Theorem huge_page_panics unicode_lower models query public :
  filterAndPaginateModels unicode_lower models (mk_lreq query public [] (bs "9223372036854775807")) = None.
Proof.
  unfold filterAndPaginateModels. set (l := public_filter _ _). clearbody l. cbn [lr_Per lr_Page].
  change (per_of []) with 20. assert (page_of (bs "9223372036854775807") = 9223372036854775807) as -> by (vm_compute; reflexivity).
  unfold paginate. change (i64 ((9223372036854775807 - 1) * 20)) with (-40). pose proof (Nat2Z.is_nonneg (length l)). unfold len.
  rewrite !(decide_False (P := Z.of_nat (length l) < -40)) by lia. change (i64 (-40 + 20)) with (-20).
  rewrite (decide_False (P := Z.of_nat (length l) < -20)) by lia. unfold slice. by rewrite decide_False by lia.
Qed.

(** ** The providers' models *)

Section external.
Variable scan_order : Z → list llm_row → list llm_row.
Variable sort_priority : list llm_row → list llm_row.
Variable range_order : list (bytes * list llm_row) → list (bytes * list llm_row).
(** A query returns each row once; [sort.Slice] sorts; a map's range visits
    each key once. *)
Hypothesis scan_perm : ∀ page l, scan_order page l ≡ₚ l.
Hypothesis sort_perm : ∀ l, sort_priority l ≡ₚ l.
Hypothesis sort_sorted : ∀ l, StronglySorted (λ a b, cf_priority a ≤ cf_priority b) (sort_priority l).
Hypothesis range_perm : ∀ l, range_order l ≡ₚ l.
Abbreviation pages := (GwModels.pages scan_order).
Abbreviation getExternalModels := (GwModels.getExternalModels scan_order sort_priority range_order).

(** *** Grouping *)

Lemma group_lookup cfgs name :
  group cfgs !! name = match filter (λ c, cf_enabled c = true ∧ cf_modelName c = name) cfgs with [] => None | l => Some l end.
Proof.
  unfold group. induction cfgs as [|c cfgs IH] using rev_ind; [done|]. rewrite foldl_app, filter_app. cbn [foldl]. rewrite filter_cons, filter_nil.
  destruct (cf_enabled c) eqn:He.
  - rewrite lookup_insert. case_decide as Hn.
    + rewrite decide_True by done. subst name. rewrite IH. by destruct (filter _ cfgs).
    + rewrite decide_False by naive_solver. by rewrite app_nil_r.
  - rewrite decide_False by naive_solver. by rewrite app_nil_r.
Qed.
Lemma group_nonempty cfgs name l : group cfgs !! name = Some l → l ≠ [].
Proof. rewrite group_lookup. destruct (filter _ cfgs) eqn:Hf; [done|]. intros [= <-]. done. Qed.

Lemma external_model_Some g : g.2 ≠ [] → ∃ primary rest, sort_priority g.2 = primary :: rest ∧
  external_model sort_priority g = Some (mk_mo g.1 (bs "model") 0 (cf_provider primary) [] false None true [] [] [] [] 0 []
    (cf_provider primary) (cf_authHeader primary) (cf_endpoint primary) false (row_endpoint <$> rest)).
Proof.
  intros Hg. unfold external_model. destruct (sort_priority g.2) as [|primary rest] eqn:Hs; [|by exists primary, rest].
  pose proof (sort_perm g.2) as Hp. rewrite Hs in Hp. by apply Permutation_nil_l in Hp.
Qed.
Lemma external_all gs : (∀ g, g ∈ gs → g.2 ≠ []) → ∃ models, mapM (external_model sort_priority) gs = Some models.
Proof.
  induction gs as [|g gs IH]; intros Hg; [by exists []|]. destruct (external_model_Some g) as (p & rest & _ & Hm); [apply Hg; by left|].
  destruct IH as [models Hms]; [intros; apply Hg; by right|]. eexists. cbn [mapM]. by rewrite Hm, bind_some, Hms.
Qed.
Lemma group_all cfgs : ∃ models, mapM (external_model sort_priority) (range_order (map_to_list (group cfgs))) = Some models.
Proof.
  apply external_all. intros [name l]. rewrite range_perm, elem_of_map_to_list. apply group_nonempty.
Qed.

(** *** The loop over the pages *)

Lemma Index_faults page w : ∃ fs, (∃ rows, Index scan_order 50 page w = (Ret rows, set_faults fs w) ∧
    rows = take 50 (drop (Z.to_nat ((page - 1) * 50)) (scan_order page (filter external_row (t_llms (mw_tables w)))))) ∨
  ∃ e, Index scan_order 50 page w = (Fail e, set_faults fs w).
Proof.
  unfold Index, query, mbind, io_bind. destruct (next_fault w) as [o1 w1] eqn:H1. destruct (reads_next_fault w) as [fs1 Hw1]. rewrite H1 in Hw1. cbn [snd] in Hw1. subst w1.
  destruct o1 as [[]|e|]; [|by exists fs1; right; eexists|unfold next_fault in H1; by destruct (get_faults w) as [|[] ?]].
  cbn [io_gets]. unfold io_gets. destruct (next_fault (set_faults fs1 w)) as [o2 w2] eqn:H2. destruct (reads_next_fault (set_faults fs1 w)) as [fs2 Hw2].
  rewrite H2 in Hw2. cbn [snd] in Hw2. subst w2. rewrite set_faults_twice.
  destruct o2 as [[]|e|]; [exists fs2; left; eexists; by split|by exists fs2; right; eexists|unfold next_fault in H2; by destruct (get_faults (set_faults fs1 w)) as [|[] ?]].
Qed.

Lemma external_rows_length (l : list llm_row) page : (length (scan_order page (filter external_row l)) ≤ length l)%nat.
Proof. rewrite scan_perm. apply length_filter. Qed.

Lemma pages_end fuel : ∀ page acc w, (0 < fuel)%nat → 1 ≤ page → Z.of_nat (length (t_llms (mw_tables w))) < (page - 1) * 50 + 50 * Z.of_nat fuel →
  ∃ rows fs, pages fuel page acc w = (Ret (Some rows), set_faults fs w).
Proof.
  induction fuel as [|fuel IH]; intros page acc w H0 Hp Hf; [lia|]. cbn [GwModels.pages]. unfold mbind, io_bind, io_try.
  destruct (Index_faults page w) as (fs & [(rows & -> & Hrows)|(e & ->)]); [|by eexists _, fs].
  case_decide as Hlen; [by eexists _, fs|]. pose proof (external_rows_length (t_llms (mw_tables w)) page) as Hle.
  rewrite Hrows in Hlen. unfold len in Hlen. rewrite length_take, length_drop in Hlen.
  destruct (IH (page + 1) (acc ++ rows) (set_faults fs w)) as (rows' & fs' & Heq); [lia|lia|cbn [set_faults model_world_faulty mw_tables]; lia|].
  exists rows', fs'. exact Heq.
Qed.

(** With any failures and any order of the rows, listing the providers'
    models ends: the loop over the pages returns and no group is empty. *)
Theorem external_models_listed w : ∃ models fs, getExternalModels w = (Ret models, set_faults fs w).
Proof.
  unfold GwModels.getExternalModels, mbind at 1, io_bind at 1, io_gets.
  destruct (pages_end (S (length (t_llms (mw_tables w)))) 1 [] w) as (rows & fs & Hr); [lia..|].
  unfold mbind at 1, io_bind at 1. rewrite Hr. rewrite bind_some. destruct (group_all rows) as [models Hm]. rewrite Hm. by exists models, fs.
Qed.

(** *** A stable order *)

Lemma pages_stable fuel : ∀ page acc w, no_faults w → (∀ p l, scan_order p l = l) → (0 < fuel)%nat → 1 ≤ page →
  let rows := filter external_row (t_llms (mw_tables w)) in
  Z.of_nat (length rows) < (page - 1) * 50 + 50 * Z.of_nat fuel →
  pages fuel page acc w = (Ret (Some (acc ++ drop (Z.to_nat ((page - 1) * 50)) rows)), w).
Proof.
  induction fuel as [|fuel IH]; intros page acc w Hn Hs H0 Hp rows Hf; [lia|]. cbn [GwModels.pages].
  assert (Index scan_order 50 page w = (Ret (take 50 (drop (Z.to_nat ((page - 1) * 50)) rows)), w)) as Hi.
  { unfold Index. erewrite bind_Ret by by apply query_none. erewrite bind_Ret by by apply next_fault_none. by rewrite Hs. }
  erewrite bind_Ret by by apply try_Ret. cbv beta iota. unfold len. rewrite length_take, length_drop. case_decide as Hlen.
  - by rewrite take_ge by (rewrite length_drop; lia).
  - rewrite IH; [|done|done|lia|lia|fold rows; lia]. fold rows. rewrite <-(assoc_L (++)).
    replace (Z.to_nat ((page + 1 - 1) * 50)) with (Z.to_nat ((page - 1) * 50) + 50)%nat by lia. rewrite <-drop_drop. by rewrite take_drop.
Qed.

Definition named (name : bytes) (c : llm_row) : Prop := external_row c ∧ cf_enabled c = true ∧ cf_modelName c = name.
#[export] Instance named_dec name c : Decision (named name c).
Proof. unfold named. apply _. Defined.

Lemma mapM_Forall2 {A B} (f : A → option B) l k : mapM f l = Some k → Forall2 (λ x y, f x = Some y) l k.
Proof. apply mapM_Some_1. Qed.

(** With a stable order and no failures every enabled provider
    configuration is served once: one model per name, whose endpoint has the
    least priority number of the name's configurations and whose fallbacks are
    the others, in order of priority. *)
Theorem external_models_complete w : no_faults w → (∀ p l, scan_order p l = l) →
  ∃ models, getExternalModels w = (Ret models, w) ∧ NoDup (mo_ID <$> models) ∧
    ∀ name, let cfgs := filter (named name) (t_llms (mw_tables w)) in
      (name ∈ mo_ID <$> models ↔ cfgs ≠ []) ∧
      ∀ m, m ∈ models → mo_ID m = name → ∃ primary rest, primary :: rest ≡ₚ cfgs ∧ StronglySorted (λ a b, cf_priority a ≤ cf_priority b) (primary :: rest) ∧
        mk_ep (mo_Provider m) (mo_Endpoint m) (mo_AuthHead m) = row_endpoint primary ∧ mo_Fallbacks m = row_endpoint <$> rest.
Proof.
  intros Hn Hs. set (rows := filter external_row (t_llms (mw_tables w))). destruct (group_all rows) as [models Hm]. exists models.
  assert (getExternalModels w = (Ret models, w)) as Heq.
  { unfold GwModels.getExternalModels, mbind at 1, io_bind at 1, io_gets. pose proof (length_filter external_row (t_llms (mw_tables w))) as Hlf.
    pose proof (pages_stable (S (length (t_llms (mw_tables w)))) 1 [] w Hn Hs ltac:(lia) ltac:(lia) ltac:(cbv zeta; lia)) as Hp.
    rewrite (bind_Ret _ _ _ _ _ Hp). cbn [app]. rewrite bind_some. change (Z.to_nat ((1 - 1) * 50)) with 0%nat. rewrite drop_0. fold rows. by rewrite Hm. }
  split; [done|]. apply mapM_Forall2 in Hm.
  assert (mo_ID <$> models = fst <$> range_order (map_to_list (group rows))) as Hids.
  { clear Heq. revert Hm. generalize (range_order (map_to_list (group rows))). intros gs. induction 1 as [|g m gs ms Hg _ IH]; [done|].
    rewrite !fmap_cons, IH. f_equal. unfold external_model in Hg. destruct (sort_priority g.2); [done|]. by simplify_eq. }
  assert (∀ name, filter (λ c, cf_enabled c = true ∧ cf_modelName c = name) rows = filter (named name) (t_llms (mw_tables w))) as Hfilter.
  { intros name. unfold rows. rewrite list_filter_filter. apply list_filter_iff. intros c. unfold named. tauto. }
  split; [rewrite Hids, range_perm; apply NoDup_fst_map_to_list|]. intros name. split.
  - rewrite Hids, range_perm. rewrite list_elem_of_fmap. split.
    + intros ([n l] & -> & Hin%elem_of_map_to_list). rewrite group_lookup, Hfilter in Hin. cbn [fst] in *. by destruct (filter (named n) (t_llms (mw_tables w))).
    + intros Hne. exists (name, filter (named name) (t_llms (mw_tables w))). split; [done|]. apply elem_of_map_to_list. rewrite group_lookup, Hfilter. by destruct (filter (named name) (t_llms (mw_tables w))).
  - intros m Hin Hid. destruct (list_elem_of_lookup_1 _ _ Hin) as [i Hi]. destruct (Forall2_lookup_r _ _ _ _ _ Hm Hi) as ([n l] & Hg & He).
    apply list_elem_of_lookup_2 in Hg. rewrite range_perm, elem_of_map_to_list in Hg.
    destruct (external_model_Some (n, l)) as (primary & rest & Hsort & Hmodel); [by eapply group_nonempty|].
    rewrite He in Hmodel. simplify_eq. cbn [fst snd] in *. rewrite group_lookup, Hfilter in Hg. exists primary, rest.
    split_and!; [|rewrite <-Hsort; apply sort_sorted|done..]. rewrite <-Hsort, sort_perm. by destruct (filter (named _) _); simplify_eq.
Qed.
End external.

(** *** An order that changes between queries *)

(** Fifty-one configurations. *)
Definition many_rows : list llm_row := (λ i, mk_row 16 (Itoa i) (bs "openai") (bs "https://api.openai.com") [] 0 true) <$> seqZ 0 51.
Definition moving_order (page : Z) (l : list llm_row) : list llm_row := if decide (page = 1) then l else match last l with Some x => x :: removelast l | None => [] end.
Definition many_tables : tables := mk_tables [] [] [] many_rows [] (λ _, f0) (λ _, f0) (λ _, f0).
Definition many_world : model_world := mk_mw many_tables None [] [] (mk_tok []) [].

Lemma moving_order_perm page l : moving_order page l ≡ₚ l.
Proof.
  unfold moving_order. case_decide; [done|]. induction l as [|x l _] using rev_ind; [done|].
  rewrite last_snoc, removelast_last. by rewrite (comm (++)).
Qed.

(** The pages' queries have no ORDER BY: an order that changes between two
    of them loses an enabled configuration and serves another one twice. *)
Theorem unordered_pages_lose_a_config : ∃ c models,
  c ∈ t_llms many_tables ∧ named (cf_modelName c) c ∧ (∀ page l, moving_order page l ≡ₚ l) ∧
  getExternalModels moving_order id id many_world = (Ret models, many_world) ∧
  cf_modelName c ∉ mo_ID <$> models ∧ ∃ m, m ∈ models ∧ mo_Fallbacks m = [mk_ep (mo_Provider m) (mo_Endpoint m) (mo_AuthHead m)].
Proof.
  set (r := getExternalModels moving_order id id many_world).
  assert (∃ models, r = (Ret models, many_world) ∧ bool_decide (bs "50" ∈ mo_ID <$> models) = false ∧
    existsb (λ m, bool_decide (mo_Fallbacks m = [mk_ep (mo_Provider m) (mo_Endpoint m) (mo_AuthHead m)])) models = true) as (models & Hr & H50 & Hm).
  { eexists. split_and!; vm_compute; reflexivity. }
  exists (mk_row 16 (bs "50") (bs "openai") (bs "https://api.openai.com") [] 0 true), models.
  split; [apply list_elem_of_lookup_2 with 50%nat; reflexivity|]. split; [split; [reflexivity|by split]|]. split; [apply moving_order_perm|].
  split; [exact Hr|]. split; [by apply bool_decide_eq_false in H50|].
  apply existsb_exists in Hm as (m & Hin & Hf). exists m. split; [by apply list_elem_of_In|by apply bool_decide_eq_true in Hf].
Qed.

(** ** Whom the cache serves *)

Section served.
Variable scan_order : Z → list llm_row → list llm_row.
Variable sort_priority : list llm_row → list llm_row.
Variable range_order : list (bytes * list llm_row) → list (bytes * list llm_row).

Definition saved_fields (models : list Model) (h : gmap bytes bytes) : gmap bytes bytes :=
  foldl (λ h m, <[mo_ID m := MarshalJSON (ForInternalUse m)]> h) h models.

Lemma HSet_none f v w : no_faults w → ∃ ttl,
  HSet f v w = (Ret tt, set_hash (Some (<[f := v]> (default ∅ (fst <$> mw_hash w)), ttl)) w).
Proof.
  intros Hw. unfold HSet. rewrite (bind_Ret _ _ _ _ _ (next_fault_none w Hw)). unfold io_modify.
  destruct (mw_hash w) as [[m ttl]|]; [by exists ttl|]. exists false. by rewrite <-insert_empty.
Qed.
Lemma save_each_none models : ∀ w, no_faults w → ∃ w', save_each models w = (Ret tt, w') ∧
  no_faults w' ∧ (models ≠ [] → is_Some (mw_hash w')) ∧ default ∅ (fst <$> mw_hash w') = saved_fields models (default ∅ (fst <$> mw_hash w)).
Proof.
  induction models as [|m models IH]; intros w Hw; [by exists w|]. cbn [save_each].
  destruct (HSet_none (mo_ID m) (MarshalJSON (ForInternalUse m)) w Hw) as [ttl Hs]. rewrite (bind_Ret _ _ _ _ _ (wrap_Ret _ _ _ _ _ Hs)).
  destruct (IH (set_hash (Some (<[mo_ID m := MarshalJSON (ForInternalUse m)]> (default ∅ (fst <$> mw_hash w)), ttl)) w) Hw) as (w' & -> & Hw' & Hh & Heq).
  exists w'. split_and!; [done|done| |by rewrite Heq]. intros _. destruct models as [|m' models]; [|by apply Hh].
  destruct (mw_hash w') eqn:E; [done|]. simpl in Heq. exfalso. apply (insert_non_empty (M := gmap bytes) (default ∅ (fst <$> mw_hash w)) (mo_ID m) (MarshalJSON (ForInternalUse m))). by rewrite <-Heq.
Qed.
Lemma saved_fields_lookup models : ∀ h m, m ∈ models → NoDup (mo_ID <$> models) → saved_fields models h !! mo_ID m = Some (MarshalJSON (ForInternalUse m)).
Proof.
  induction models as [|m' models IH] using rev_ind; intros h m Hin Hd; [by apply elem_of_nil in Hin|]. unfold saved_fields. rewrite foldl_app. cbn [foldl].
  rewrite fmap_app in Hd. apply NoDup_app in Hd as (Hd & Hnot & _). rewrite lookup_insert. apply elem_of_app in Hin as [Hin|Hin%list_elem_of_singleton].
  - rewrite decide_False; [by apply IH|]. intros Heq. apply (Hnot (mo_ID m)); [by apply list_elem_of_fmap_2|]. rewrite <-Heq. by left.
  - subst. by rewrite decide_True.
Qed.

(** Once a user's models are saved, every user is given them by id, private
    deployments of others included: the cache asks neither who lists nor who
    may see. *)
Theorem saved_models_serve_anyone models m w : no_faults w → m ∈ models → NoDup (mo_ID <$> models) → well_formed m →
  ∃ w', saveModelsToCache models w = (Ret tt, w') ∧
    ∀ u, GetModelByID scan_order sort_priority range_order u (mo_ID m) w' = (Ret (Some (cache_image m)), w').
Proof.
  intros Hw Hin Hd Hwf. destruct (save_each_none models w Hw) as (w1 & Hs & Hw1 & Hsome & Hh).
  assert (models ≠ []) as [[h ttl] Hsh]%Hsome by (intros ->; by apply elem_of_nil in Hin). rewrite Hsh in Hh. cbn in Hh.
  exists (set_hash (Some (h, true)) w1). split.
  - unfold saveModelsToCache. rewrite (bind_Ret _ _ _ _ _ Hs). apply wrap_Ret. unfold Expire.
    rewrite (bind_Ret _ _ _ _ _ (next_fault_none w1 Hw1)). unfold io_modify. by rewrite Hsh.
  - intros u. set (w2 := set_hash _ w1). assert (no_faults w2) as Hw2 by done. unfold GetModelByID.
    assert (loadModelFromCache (mo_ID m) w2 = (Ret (Some (cache_image m)), w2)) as Hload.
    { unfold loadModelFromCache, Exists. rewrite (bind_Ret _ _ w2 true w2); [|apply wrap_Ret; by rewrite (bind_Ret _ _ _ _ _ (next_fault_none w2 Hw2))].
      rewrite (bind_Ret _ _ w2 (MarshalJSON (ForInternalUse m)) w2).
      - change (MarshalJSON (ForInternalUse m)) with (marshal (internalModelResponse m)). by rewrite UnmarshalJSON_internal.
      - apply wrap_Ret. unfold HGet. rewrite (bind_Ret _ _ _ _ _ (next_fault_none w2 Hw2)). unfold mbind, io_bind, io_gets. cbn [w2 set_hash mw_hash].
        rewrite Hh, saved_fields_lookup by done. reflexivity. }
    rewrite (bind_Ret _ _ _ _ _ (try_Ret _ _ _ _ Hload)). reflexivity.
Qed.
End served.

(** ** Metering *)

Definition event_of (userUUID : bytes) (m : Model) (u : TokenUsage) (ownerType sceneValue id : bytes) (now : Z) : MeteringEvent :=
  mk_event id userUUID (tu_Total u) TokenNumberType (parseScene sceneValue) (bs "aigateway")
    (usage_resource m).1 (usage_resource m).1 (usage_resource m).2 now (usage_extra u ownerType).

Definition add_event (e : MeteringEvent) (w : model_world) : model_world :=
  mk_mw (mw_tables w) (mw_hash w) (mw_saves w) (mw_events w ++ [e]) (mw_tok w) (mw_faulty w).

(** The counter's run, on the token service's part of the world. *)
Definition counts (counter : tio TokenUsage) (u : TokenUsage) : Prop := ∀ t, counter t = (Ret u, t).

Lemma RecordUsage_event userUUID m counter sceneValue id now u ty w : counts counter u → no_faults w →
  owner_type userUUID m w = (Ret ty, w) →
  RecordUsage userUUID m counter sceneValue id now w = (Ret tt, add_event (event_of userUUID m u ty sceneValue id now) w).
Proof.
  intros Hc Hw Hty. unfold RecordUsage. assert (on_tok counter w = (Ret u, w)) as Hu by (unfold on_tok; rewrite (Hc (mw_tok w)); by destruct w).
  rewrite (bind_Ret _ _ _ _ _ (wrap_Ret _ _ _ _ _ Hu)), (bind_Ret _ _ _ _ _ Hty). unfold event_of. destruct (usage_resource m) as [resource customer].
  cbn [fst snd]. do 2 apply wrap_Ret. cbn [tries]. assert (∀ e, publish_event e w = (Ret tt, add_event e w)) as Hp.
  { intros e. unfold publish_event. by rewrite (bind_Ret _ _ _ _ _ (next_fault_none w Hw)). }
  by rewrite (bind_Ret _ _ _ _ _ (try_Ret _ _ _ _ (Hp _))).
Qed.

(** The tokens of a serverless platform model are metered against the
    repository and the service on the request that lists it, and against no
    resource and no customer once the model comes from the cache. *)
Theorem cached_usage_unattributed userUUID m counter sceneValue id now u w : counts counter u → no_faults w →
  mo_CSGHubModelID m ≠ [] → mo_Provider m = [] → mo_SvcType m = ServerlessType →
  RecordUsage userUUID m counter sceneValue id now w =
    (Ret tt, add_event (mk_event id userUUID (tu_Total u) TokenNumberType 15 (bs "aigateway") (mo_CSGHubModelID m) (mo_CSGHubModelID m) (mo_SvcName m) now
      (usage_extra u CSGHubServerlessInference)) w) ∧
  RecordUsage userUUID (cache_image m) counter sceneValue id now w =
    (Ret tt, add_event (mk_event id userUUID (tu_Total u) TokenNumberType 15 (bs "aigateway") [] [] [] now (usage_extra u [])) w).
Proof.
  intros Hc Hw Hid Hp Hty. split.
  - rewrite (RecordUsage_event _ m _ _ _ _ u CSGHubServerlessInference w) by (try done; unfold owner_type; rewrite (decide_False (P := mo_CSGHubModelID m = [])) by done; rewrite Hty, Hp; reflexivity).
    unfold event_of, usage_resource. rewrite Hp. rewrite (decide_False (P := [] ≠ [])) by naive_solver. by rewrite decide_True.
  - rewrite (RecordUsage_event _ (cache_image m) _ _ _ _ u [] w) by (try done; unfold owner_type; cbn [cache_image mo_CSGHubModelID mo_Provider]; by rewrite Hp).
    unfold event_of, usage_resource. cbn [cache_image mo_CSGHubModelID mo_Provider]. by rewrite Hp.
Qed.

(** ** Charging *)

(** Without failures the balance check refuses exactly a user whose budget
    is set and spent, or - with charging on and for a provider's model - one
    whose credit is not positive; an unknown user passes. *)
Lemma CheckBalance_decides charging name m w : no_faults w →
  CheckBalance charging name m w =
    (match find_by (λ u, u_Username u = name) (t_users (mw_tables w)) with
     | None => Ret tt
     | Some u =>
         let t := mw_tables w in
         if fltb f0 (u_MonthlyBudget u) && fleb (u_MonthlyBudget u) (t_spend t (u_ID u)) then Fail ErrBudgetExceeded
         else if charging && negb (bool_decide (mo_Provider m = [])) && fleb (fsub (t_granted t (u_ID u)) (t_spent t (u_ID u))) f0
         then Fail ErrInsufficientBalance else Ret tt
     end, w).
Proof.
  intros Hw. unfold CheckBalance. unfold mbind at 1, io_bind at 1, io_try at 1, FindByUsername. rewrite (bind_Ret _ _ _ _ _ (query_none _ w Hw)).
  destruct (find_by _ (t_users (mw_tables w))) as [u|]; [|done]. cbn [found]. cbv beta iota zeta.
  assert (MonthlySpend (u_ID u) w = (Ret (t_spend (mw_tables w) (u_ID u)), w)) as Hsp by by apply (query_none (λ t, t_spend t (u_ID u))).
  assert (Balance (u_ID u) w = (Ret (fsub (t_granted (mw_tables w) (u_ID u)) (t_spent (mw_tables w) (u_ID u))), w)) as Hb.
  { unfold Balance. rewrite (bind_Ret _ _ _ _ _ (query_none (λ t, t_granted t (u_ID u)) w Hw)).
    by rewrite (bind_Ret _ _ _ _ _ (query_none (λ t, t_spent t (u_ID u)) w Hw)). }
  unfold mret at 1, io_ret at 1. cbv beta iota.
  rewrite (bind_Ret _ _ w (fltb f0 (u_MonthlyBudget u) && fleb (u_MonthlyBudget u) (t_spend (mw_tables w) (u_ID u))) w).
  2: { destruct (fltb _ _); [|done]. by rewrite (bind_Ret _ _ _ _ _ (try_Ret _ _ _ _ Hsp)). }
  destruct (_ && _); [done|]. destruct charging; [|done]. cbn [negb andb]. destruct (decide (mo_Provider m = [])) as [He|He].
  - by rewrite bool_decide_eq_true_2.
  - rewrite bool_decide_eq_false_2 by done. cbn [negb andb]. rewrite (bind_Ret _ _ _ _ _ (try_Ret _ _ _ _ Hb)). by destruct (fleb _ f0).
Qed.


(** ** Worlds stay without failures *)

Definition calm {A} (m : dio A) : Prop := ∀ w, no_faults w → no_faults (m w).2.
Lemma calm_ret {A} (a : A) : calm (mret a).
Proof. by intros w. Qed.
Lemma calm_fail {A} e : calm (A := A) (io_fail e).
Proof. by intros w. Qed.
Lemma calm_panic {A} : calm (A := A) io_panic.
Proof. by intros w. Qed.
Lemma calm_gets {A} (f : model_world → A) : calm (io_gets f).
Proof. by intros w. Qed.
Lemma calm_bind {A B} (m : dio A) (f : A → dio B) : calm m → (∀ a, calm (f a)) → calm (m ≫= f).
Proof. intros Hm Hf w Hw. specialize (Hm w Hw). unfold mbind, io_bind. destruct (m w) as [[a|e|] w']; cbn [snd] in Hm; [by apply Hf|done..]. Qed.
Lemma calm_try {A} (m : dio A) : calm m → calm (io_try m).
Proof. intros Hm w Hw. specialize (Hm w Hw). unfold io_try. by destruct (m w) as [[] ?]. Qed.
Lemma calm_wrap {A} f (m : dio A) : calm m → calm (io_wrap f m).
Proof. intros Hm w Hw. specialize (Hm w Hw). unfold io_wrap. by destruct (m w) as [[] ?]. Qed.
Lemma calm_next_fault : calm next_fault.
Proof. intros w Hw. by rewrite next_fault_none. Qed.
Create HintDb calm.
#[export] Hint Resolve calm_ret calm_fail calm_panic calm_gets calm_bind calm_try calm_wrap calm_next_fault : calm.
Lemma calm_query {A} (f : tables → A) : calm (query f).
Proof. unfold query. auto with calm. Qed.
Lemma calm_found {A} (o : option A) : calm (found o).
Proof. destruct o; simpl; auto with calm. Qed.
#[export] Hint Resolve calm_query calm_found : calm.
Lemma calm_csghub userID : calm (getCSGHubModels userID).
Proof.
  unfold getCSGHubModels, RunningVisibleToUser. apply calm_bind; [auto with calm|]. intros rows.
  induction rows as [|[[d [r|]] [u|]] rows IH]; cbn [each csghub_model]; auto with calm.
Qed.
Lemma calm_load id : calm (loadModelFromCache id).
Proof.
  unfold loadModelFromCache, Exists, HGet. apply calm_bind; [auto with calm|]. intros [|]; [|auto with calm].
  apply calm_bind; [apply calm_wrap, calm_bind; [auto with calm|]; intros _; apply calm_bind; [auto with calm|]; intros [[m ttl]|]; [destruct (m !! id)|]; auto with calm|].
  intros s. destruct (UnmarshalJSON s); auto with calm.
Qed.
#[export] Hint Resolve calm_csghub calm_load : calm.
Lemma calm_find scan sort range u id : calm (GetModelByID scan sort range u id).
Proof.
  assert (calm (getExternalModels scan sort range)) as Hext.
  { unfold getExternalModels. apply calm_bind; [auto with calm|]. intros n. apply calm_bind.
    - generalize 1, (@nil llm_row). induction (S n) as [|k IH]; intros page acc; cbn [pages]; [auto with calm|].
      apply calm_bind; [unfold Index; auto 10 with calm|]. intros [rows|e]; [case_decide|]; auto with calm.
    - intros r. destruct (_ ≫= _); auto with calm. }
  assert (∀ models, calm (start_save models)) as Hsave by (by intros models w).
  assert (calm (GetAvailableModels scan sort range u)) as Hall by (unfold GetAvailableModels, FindByUsername; auto 10 with calm).
  unfold GetModelByID. apply calm_bind; [auto with calm|]. intros [[m|]|e]; [auto with calm..|]. destruct (is_redis_nil e); auto with calm.
Qed.
