(* ===== verification/GwTokenSpec.v ===== *)
(** What the token counters report: the reference count of a chat request, and
    the tokenizer answers that stop a metering run. *)
From S2P Require Import Prelude GoLib GoFloat GoJson Sensitive Accounting GwModeration GwStream GwRoute GwToken GwModels GwModelsSpec GwListing.
Open Scope Z_scope.


Lemma i64_idem a : i64 (i64 a) = i64 a.
Proof. pose proof (i64_add_l a 0) as H. by rewrite !Z.add_0_r in H. Qed.

Lemma tok_bind_Ret {A B} (m : tio A) (f : A → tio B) w a w' : m w = (Ret a, w') → (m ≫= f) w = f a w'.
Proof. unfold mbind, io_bind. by intros ->. Qed.

Lemma scan_chunks_find chunks : ∀ buf,
  scan_chunks buf chunks = match list_find (λ c, 0 < TotalTokens (ck_Usage c)) chunks with
                           | Some (_, c) => inl (token_usage (ck_Usage c))
                           | None => inr (buf ++ (chunks ≫= chunk_text))
                           end.
Proof.
  induction chunks as [|c chunks IH]; intros buf; cbn [scan_chunks list_find]; [by rewrite app_nil_r|].
  destruct (decide (0 < TotalTokens (ck_Usage c))); [done|]. rewrite IH. destruct (list_find _ chunks) as [[i c']|]; [done|]. cbn. by rewrite (assoc_L (++)).
Qed.

Section reference.
(** A tokenizer that counts: what it counts, and what it asks its engine. *)
Variable t : Tokenizer.
Variable count : tok_message → Z.
Variable asks : tok_message → list tok_call.
Hypothesis t_counts : ∀ m log, Encode t m (mk_tok log) = (Ret (count m), mk_tok (log ++ asks m)).

Definition tok_of (p : prompt) : tok_message := mk_tm (default [] (pr_role p)) (prompt_text (pr_content p)).
Definition prompts_count (ps : list prompt) : Z := foldr Z.add 0 (count ∘ tok_of <$> ps).

Lemma prompt_tokens_sum ps : ∀ acc log, Forall (λ p, is_Some (pr_role p)) ps → (ps = [] → i64 acc = acc) →
  prompt_tokens t acc ps (mk_tok log) = (Ret (i64 (acc + prompts_count ps)), mk_tok (log ++ (ps ≫= asks ∘ tok_of))).
Proof.
  induction ps as [|p ps IH]; intros acc log Hall Hacc; cbn [prompt_tokens].
  { unfold prompts_count. simpl. by rewrite Z.add_0_r, Hacc, app_nil_r. }
  apply Forall_cons in Hall as [[role Hr] Hall]. rewrite Hr. rewrite (tok_bind_Ret _ _ _ _ _ (t_counts _ log)).
  rewrite IH; [|done|intros _; apply i64_idem]. rewrite i64_add_l, bind_cons, (assoc_L (++)). unfold prompts_count, tok_of. cbn [fmap list_fmap foldr compose].
  rewrite Hr. simpl. by rewrite Z.add_assoc.
Qed.

(** The count of a request, from what its counter was given: the completion's
    usage, or the first usage of the stream, or what the tokenizer counts of
    the whole text and of each prompt, and three tokens between them. *)
Definition reference_usage (l : chatTokenCounter) : TokenUsage :=
  match ctc_completion l, list_find (λ c, 0 < TotalTokens (ck_Usage c)) (ctc_chunks l) with
  | Some c, _ => token_usage (cp_Usage c)
  | None, Some (_, c) => token_usage (ck_Usage c)
  | None, None =>
      let p := prompts_count (ctc_prompts l) + 3 in
      let c := count (mk_tm [] (ctc_chunks l ≫= chunk_text)) in
      mk_tu (i64 (p + c)) (i64 p) c
  end.

(** What the engine is asked for it: nothing when there is a usage; otherwise
    the text of the answer, then each prompt. *)
Definition reference_asks (l : chatTokenCounter) : list tok_call :=
  match ctc_completion l, list_find (λ c, 0 < TotalTokens (ck_Usage c)) (ctc_chunks l) with
  | None, None => asks (mk_tm [] (ctc_chunks l ≫= chunk_text)) ++ (ctc_prompts l ≫= asks ∘ tok_of)
  | _, _ => []
  end.

(** A chat request is metered with the reference count, and the engine is
    asked once per text and only when the answer carries no usage; the counts
    are those of 64-bit integers, and exact when the sum fits. *)
Theorem chat_usage_is_reference l log : ctc_tokenizer l = Some t → Forall (λ p, is_Some (pr_role p)) (ctc_prompts l) →
  chatUsage l (mk_tok log) = (Ret (reference_usage l), mk_tok (log ++ reference_asks l)) ∧
  (ctc_completion l = None → list_find (λ c, 0 < TotalTokens (ck_Usage c)) (ctc_chunks l) = None →
   let p := prompts_count (ctc_prompts l) + 3 in let c := count (mk_tm [] (ctc_chunks l ≫= chunk_text)) in
   - 2 ^ 63 ≤ p < 2 ^ 63 → - 2 ^ 63 ≤ p + c < 2 ^ 63 →
   tu_Total (reference_usage l) = tu_Prompt (reference_usage l) + tu_Completion (reference_usage l)).
Proof.
  intros Ht Hall. split.
  - unfold chatUsage, reference_usage, reference_asks. destruct (ctc_completion l) as [c|]; [by rewrite app_nil_r|]. rewrite scan_chunks_find.
    destruct (list_find _ (ctc_chunks l)) as [[i c]|]; [by rewrite app_nil_r|]. rewrite Ht, (tok_bind_Ret _ _ _ _ _ (t_counts _ log)).
    rewrite (tok_bind_Ret _ _ _ _ _ (prompt_tokens_sum _ _ _ Hall (λ _, eq_refl))). cbv zeta.
    rewrite !i64_add_l, Z.add_0_l, <-!Z.add_assoc, !i64_add_l, (assoc_L (++)). reflexivity.
  - intros Hc Hf p c Hp Ht'. unfold reference_usage. rewrite Hc, Hf. cbn [tu_Total tu_Prompt tu_Completion]. fold p c. by rewrite !i64_small.
Qed.
End reference.

(** The three text tokenizers count so when their engine answers a text the
    same way each time. *)
Section engine.
Variable answer : tok_call → bytes.
Abbreviation steady := (λ (_ : list tok_call) c, Ok (answer c) : result bytes bytes).
Definition engine_call (endpoint host : bytes) (req : bytes → json) (m : tok_message) : tok_call :=
  mk_tok_call (endpoint ++ bs "/tokenize") host (req (parseTextMessage m)).
Definition engine_count (endpoint host : bytes) (req : bytes → json) (count : bytes → option Z) (m : tok_message) : Z :=
  if decide (parseTextMessage m = []) then 0 else default 0 (count (answer (engine_call endpoint host req m))).
Definition engine_asks (endpoint host : bytes) (req : bytes → json) (m : tok_message) : list tok_call :=
  if decide (parseTextMessage m = []) then [] else [engine_call endpoint host req m].

Lemma engine_counts endpoint host req count : (∀ c, is_Some (count (answer c))) → ∀ m log,
  encode_with steady endpoint host req count m (mk_tok log) = (Ret (engine_count endpoint host req count m), mk_tok (log ++ engine_asks endpoint host req m)).
Proof.
  intros Hc m log. unfold encode_with, engine_count, engine_asks. destruct (decide (parseTextMessage m = [])); [by rewrite app_nil_r|].
    destruct (Hc (engine_call endpoint host req m)) as [k Hk].
  unfold engine_call in *. unfold Tokenize, mbind, io_bind, io_gets, io_modify. cbn -[bs app]. by rewrite Hk.
Qed.
End engine.

(** Without a tokenizer and without a usage there is no count. *)
Lemma chat_usage_missing l w : ctc_completion l = None → ctc_tokenizer l = None →
  list_find (λ c, 0 < TotalTokens (ck_Usage c)) (ctc_chunks l) = None → ∃ e, chatUsage l w = (Fail e, w).
Proof. intros Hc Ht Hf. unfold chatUsage. rewrite Hc, scan_chunks_find, Hf, Ht. by eexists. Qed.

(** ** Embedding requests *)

(** A response that decodes is counted by its usage, absent or not; the
    tokenizer is not asked. *)
Lemma embedding_response_counts gunzip decode_usage data st p total w : decode_usage (match gunzip data with Some (Some d) => d | _ => data end) = Some (p, total) →
  let st' := embeddingWrite gunzip decode_usage data st in st'.1 = st.1 ++ [data] ∧ embeddingUsage st'.2 w = (Ret (mk_tu total p 0), w).
Proof. intros Hd. unfold embeddingWrite. by rewrite Hd. Qed.

(** A text-embeddings engine that answers a tokenize call with an empty
    array stops the metering of an embedding request with a panic; the
    goroutine that meters has no recover. *)
Theorem empty_tei_answer_panics svc endpoint host model image input userUUID m sceneValue id now w :
  (∀ log c, svc log c = Ok (bs "[]")) → NewTokenizerImpl svc endpoint host model image = Some (newTEITokenizerImpl svc endpoint host) →
  (RecordUsage userUUID m (embeddingUsage (Input input (NewEmbedding svc endpoint host model image))) sceneValue id now w).1 = Panic.
Proof.
  intros Hs Ht. unfold NewEmbedding. rewrite Ht. unfold RecordUsage, mbind at 1, io_bind at 1, io_wrap at 1, on_tok at 1.
  assert (∀ t, (embeddingUsage (Input input (NewEmbeddingTokenCounter (Some (newTEITokenizerImpl svc endpoint host)))) t).1 = Panic) as Hp.
  { intros t. unfold embeddingUsage, mbind, io_bind. cbn [etc_usage etc_tokenizer Input NewEmbeddingTokenCounter newTEITokenizerImpl EmbeddingEncode].
    unfold TEIEmbeddingEncode, Tokenize, mbind, io_bind, io_gets, io_modify. by rewrite Hs. }
  specialize (Hp (mw_tok w)). destruct (embeddingUsage _ (mw_tok w)) as [o t']. cbn [fst] in Hp. by subst o.
Qed.
