(* ===== verification/GwRequest.v ===== *)
(** The chat request of the AI gateway and the response cache in front of its
    handler (aigateway/handler/requests.go, response_cache.go). The OpenAI
    library's message, tool and tool-choice types, and the text of a float, are
    parameters. *)
From S2P Require Import Prelude GoLib GoFloat GoJson Sensitive GoHash GwModeration GwStream GwRoute.
Open Scope Z_scope.

(** ** requests.go *)

(** What the handler uses of the library: the decoders of the request's
    members, their JSON, and a system message. *)
Record openai_lib (msg tool choice : Type) := mk_lib {
  decode_messages : list json → option (option (list msg));
  decode_tools : list json → option (option (list tool));
  decode_choice : list json → option (option choice);
  msg_json : msg → json; tool_json : tool → json; choice_json : choice → json;
  SystemMessage : bytes → msg;
  format_float : float64 → bytes;
}.
Arguments decode_messages {_ _ _}. Arguments decode_tools {_ _ _}. Arguments decode_choice {_ _ _}.
Arguments msg_json {_ _ _}. Arguments tool_json {_ _ _}. Arguments choice_json {_ _ _}.
Arguments SystemMessage {_ _ _}. Arguments format_float {_ _ _}.

(** Slices and pointers are [None] when nil; [rq_RawJSON] is the map of the
    unknown fields. *)
Record ChatCompletionRequest (msg tool choice : Type) := mk_req {
  rq_Model : bytes; rq_Messages : option (list msg); rq_ToolChoice : option choice; rq_Tools : option (list tool);
  rq_Temperature : float64; rq_MaxTokens : Z; rq_Stream : bool; rq_StreamOptions : option bool; rq_Skill : bytes;
  rq_RawJSON : gmap bytes json;
}.
Arguments mk_req {_ _ _}. Arguments rq_Model {_ _ _}. Arguments rq_Messages {_ _ _}. Arguments rq_ToolChoice {_ _ _}. Arguments rq_Tools {_ _ _}.
Arguments rq_Temperature {_ _ _}. Arguments rq_MaxTokens {_ _ _}. Arguments rq_Stream {_ _ _}. Arguments rq_StreamOptions {_ _ _}.
Arguments rq_Skill {_ _ _}. Arguments rq_RawJSON {_ _ _}.

(** A float field; a struct pointer with one bool. *)
Definition float_field (name : bytes) (j : json) : option float64 :=
  foldl (λ acc v, f ← acc; match v with JNum lit => ParseFloat lit | JNull => Some f | _ => None end) (Some (S754_zero false)) (fields name j).
Definition stream_options (j : json) : option (option bool) :=
  foldl (λ acc v, _ ← acc; match v with
                           | JNull => Some None
                           | JObj _ => b ← bool_field (bs "include_usage") v; Some (Some b)
                           | _ => None
                           end) (Some None) (fields (bs "stream_options") j).

(** Decoding into a [map[string]json.RawMessage]: the last member of a name. *)
Definition raw_map (j : json) : gmap bytes json :=
  match j with JObj l => foldl (λ m kv, <[kv.1 := kv.2]> m) ∅ l | _ => ∅ end.

Definition known_fields : list bytes :=
  bs <$> ["model"; "messages"; "tool_choice"; "tools"; "temperature"; "max_tokens"; "stream"; "stream_options"]%string.

(** The order of a map's keys in [json.Marshal]. *)
Fixpoint insert_key (kv : bytes * json) (l : list (bytes * json)) : list (bytes * json) :=
  match l with
  | [] => [kv]
  | kv' :: rest => if bytes_leb kv.1 kv'.1 then kv :: l else kv' :: insert_key kv rest
  end.
Definition map_json (m : gmap bytes json) : json := JObj (foldr insert_key [] (map_to_list m)).

Section request.
Context {msg tool choice : Type}.
Variable lib : openai_lib msg tool choice.
Abbreviation ChatCompletionRequest := (ChatCompletionRequest msg tool choice).

Definition UnmarshalRequest (data : bytes) : option ChatCompletionRequest :=
  j ← parse_json data; o ← as_struct j;
  model ← string_field (bs "model") o;
  messages ← decode_messages lib (fields (bs "messages") o);
  tool_choice ← decode_choice lib (fields (bs "tool_choice") o);
  tools ← decode_tools lib (fields (bs "tools") o);
  temperature ← float_field (bs "temperature") o;
  max_tokens ← int_field (bs "max_tokens") o;
  stream ← bool_field (bs "stream") o;
  options ← stream_options o;
  skill ← string_field (bs "skill") o;
  Some (mk_req model messages tool_choice tools temperature max_tokens stream options skill
          (foldr delete (raw_map o) known_fields)).

Definition messages_json (messages : option (list msg)) : json :=
  match messages with Some l => JArr (msg_json lib <$> l) | None => JNull end.

Definition known_json (r : ChatCompletionRequest) : list (bytes * json) :=
  [(bs "model", JStr (rq_Model r)); (bs "messages", messages_json (rq_Messages r))] ++
  (match rq_ToolChoice r with Some c => [(bs "tool_choice", choice_json lib c)] | None => [] end) ++
  (match rq_Tools r with Some l => [(bs "tools", JArr (tool_json lib <$> l))] | None => [] end) ++
  (if feqb (rq_Temperature r) (S754_zero false) then [] else [(bs "temperature", JNum (format_float lib (rq_Temperature r)))]) ++
  (if decide (rq_MaxTokens r = 0) then [] else [(bs "max_tokens", JNum (Itoa (rq_MaxTokens r)))]) ++
  (if rq_Stream r then [(bs "stream", JBool true)] else []) ++
  (match rq_StreamOptions r with Some b => [(bs "stream_options", JObj (if b then [(bs "include_usage", JBool true)] else []))] | None => [] end) ++
  (if decide (rq_Skill r = []) then [] else [(bs "skill", JStr (rq_Skill r))]).

(** The raw fields are written over the known ones. *)
Definition request_json (r : ChatCompletionRequest) : json :=
  if decide (rq_RawJSON r = ∅) then JObj (known_json r)
  else map_json (rq_RawJSON r ∪ raw_map (JObj (known_json r))).
Definition MarshalRequest (r : ChatCompletionRequest) : bytes := marshal (request_json r).

(** ** response_cache.go *)

Definition buildCacheKey (r : ChatCompletionRequest) : bytes :=
  bs "aitra:cache:" ++ SHA256 (rq_Model r ++ marshal (messages_json (rq_Messages r)) ++ FormatFixed 2 (rq_Temperature r)).

Record response := mk_resp { rs_status : Z; rs_headers : header; rs_body : bytes }.

(** [cacheEntry], with the one header it is stored with. *)
Definition marshal_entry (status : Z) (content_type body : bytes) : bytes :=
  marshal (JObj [(bs "status_code", JNum (Itoa status)); (bs "headers", JObj [(bs "Content-Type", JStr content_type)]); (bs "body", JStr body)]).
(** The headers of all the maps given, in order; null empties them. *)
Definition headers_field (j : json) : option (list (bytes * bytes)) :=
  foldl (λ acc v, hs ← acc;
    match v with
    | JNull => Some []
    | JObj l => l' ← mapM (λ kv : bytes * json, match kv.2 with JStr s => Some (kv.1, s) | JNull => Some (kv.1, []) | _ => None end) l; Some (hs ++ l')
    | _ => None
    end) (Some []) (fields (bs "headers") j).
Definition unmarshal_entry (data : bytes) : option (Z * list (bytes * bytes) * bytes) :=
  j ← parse_json data; o ← as_struct j;
  status ← int_field (bs "status_code") o; headers ← headers_field o; body ← string_field (bs "body") o;
  Some (status, headers, body).

(** [c.Header]: an empty value removes the header. *)
Definition set_header (h : header) (kv : bytes * bytes) : header := if decide (kv.2 = []) then header_Del kv.1 h else header_Set kv.1 kv.2 h.

(** The reply to a hit; [c.Data] sets a content type that is missing. *)
Definition replay (h : header) (e : Z * list (bytes * bytes) * bytes) : response :=
  let '(status, headers, body) := e in
  let h := foldl set_header (header_Set (bs "X-Cache") (bs "HIT") h) headers in
  mk_resp status (match h !! bs "Content-Type" with Some (_ :: _) => h | _ => header_Set (bs "Content-Type") (bs "application/json") h end) body.

(** The body read, and the X-No-Cache header. *)
Record http_request := mk_hreq { hq_post : bool; hq_body : option bytes; hq_no_cache : bytes }.

(** [get] is the cache's answer to a key ([None] for a miss or an error); the
    third result is the entry whose storing is started. [next] is the handler,
    given the headers set so far. *)
Definition Middleware {S} (enabled : bool) (get : bytes → option bytes) (q : http_request) (next : header → S → response * S) (h : header) (s : S) :
    response * S * option (bytes * bytes) :=
  let pass := (next h s, None) in
  if negb enabled || negb (hq_post q) then pass else
  match hq_body q with
  | None => pass
  | Some body =>
      match UnmarshalRequest body with
      | None => pass
      | Some chatReq =>
          if rq_Stream chatReq || bool_decide (hq_no_cache q = bs "true") then pass else
          let cacheKey := buildCacheKey chatReq in
          let miss :=
            let '(r, s') := next (header_Set (bs "X-Cache") (bs "MISS") h) s in
            (r, s', if decide (200 ≤ rs_status r < 300 ∧ rs_body r ≠ [])
                    then Some (cacheKey, marshal_entry (rs_status r) (default [] (head (default [] (rs_headers r !! bs "Content-Type")))) (rs_body r)) else None) in
          match get cacheKey with
          | Some cached =>
              if decide (cached = []) then miss
              else match unmarshal_entry cached with
                   | Some e => (replay h e, s, None)
                   | None => miss
                   end
          | None => miss
          end
      end
  end.
End request.

(** ** requests.go: embeddings *)

(** The library's embedding parameters: their JSON and what the handler
    reads. *)
Record embedding_lib (params : Type) := mk_elib {
  decode_params : json → option params; params_json : params → json;
  em_Model : params → bytes; set_Model : bytes → params → params;
  em_string : params → bytes; em_has_input : params → bool;
}.
Arguments decode_params {_}. Arguments params_json {_}. Arguments em_Model {_}. Arguments set_Model {_}. Arguments em_string {_}. Arguments em_has_input {_}.

Record EmbeddingRequest (params : Type) := mk_emb { em_params : params; em_RawJSON : gmap bytes json }.
Arguments mk_emb {_}. Arguments em_params {_}. Arguments em_RawJSON {_}.

Definition known_embedding_fields : list bytes := bs <$> ["model"; "input"; "encoding_format"]%string.
Definition UnmarshalEmbedding {params} (elib : embedding_lib params) (data : bytes) : option (EmbeddingRequest params) :=
  j ← parse_json data; p ← decode_params elib j; o ← as_struct j;
  Some (mk_emb p (foldr delete (raw_map o) known_embedding_fields)).
Definition embedding_json {params} (elib : embedding_lib params) (r : EmbeddingRequest params) : json :=
  if decide (em_RawJSON r = ∅) then params_json elib (em_params r) else map_json (em_RawJSON r ∪ raw_map (params_json elib (em_params r))).
Definition MarshalEmbedding {params} (elib : embedding_lib params) (r : EmbeddingRequest params) : bytes := marshal (embedding_json elib r).
