(* ===== verification/GwRequestSpec.v ===== *)
(** What holds of the chat request's JSON and of the response cache. *)
From S2P Require Import Prelude GoLib GoFloat GoJson GoJsonText Sensitive GoHash GwModeration GwStream GwRoute GwModelsSpec GwRequest.
Open Scope Z_scope.

(** ** Maps and their JSON *)

Lemma foldl_insert_app (l : list (bytes * json)) : ∀ (m : gmap bytes json) k, foldl (λ m kv, <[kv.1 := kv.2]> m) m l !! k =
  match last (snd <$> filter (λ kv : bytes * json, kv.1 = k) l) with Some v => Some v | None => m !! k end.
Proof.
  induction l as [|[k' v] l IH]; intros m k; [done|]. cbn [foldl fst snd]. rewrite IH, filter_cons. cbn [fst]. case_decide as Hk.
  - subst k'. rewrite fmap_cons. destruct (snd <$> filter _ l) as [|x xs] eqn:E; [cbn; by rewrite lookup_insert_eq|].
    rewrite (last_cons (k, v).2). destruct (last (x :: xs)) eqn:El; [done|]. by apply last_None in El.
  - destruct (last _); [done|]. by rewrite lookup_insert_ne.
Qed.

Lemma insert_key_perm kv l : insert_key kv l ≡ₚ kv :: l.
Proof. induction l as [|kv' l IH]; [done|]. cbn [insert_key]. destruct (bytes_leb _ _); [done|]. rewrite IH. apply perm_swap. Qed.
Lemma sorted_perm l : foldr insert_key [] l ≡ₚ l.
Proof. induction l as [|kv l IH]; [done|]. cbn [foldr]. by rewrite insert_key_perm, IH. Qed.

Lemma raw_map_list l : NoDup l.*1 → raw_map (JObj l) = list_to_map l.
Proof.
  intros Hd. apply map_eq. intros k. unfold raw_map. rewrite foldl_insert_app, lookup_empty.
  induction l as [|[k' v] l IH]; [done|]. rewrite fmap_cons in Hd. apply NoDup_cons in Hd as [Hk Hd]. cbn [list_to_map fst] in *.
  rewrite filter_cons. cbn [fst]. rewrite list_to_map_cons. rewrite lookup_insert. case_decide as Hkk.
  - subst k'. rewrite fmap_cons. assert (filter (λ kv : bytes * json, kv.1 = k) l = []) as ->; [|done].
    apply filter_all_out. intros [k2 v2] Hin Heq. cbn in Heq. subst k2. apply Hk. apply list_elem_of_fmap. by exists (k, v2).
  - by apply IH.
Qed.
Lemma raw_map_json m : raw_map (map_json m) = m.
Proof.
  unfold map_json. rewrite raw_map_list by (rewrite sorted_perm; apply NoDup_fst_map_to_list).
  rewrite <-(list_to_map_to_list m) at 2. apply list_to_map_proper; [rewrite sorted_perm; apply NoDup_fst_map_to_list|apply sorted_perm].
Qed.

Lemma delete_all_lookup (m : gmap bytes json) ks k : foldr delete m ks !! k = if decide (k ∈ ks) then None else m !! k.
Proof.
  induction ks as [|k' ks IH]; cbn [foldr]; [rewrite decide_False; [done|apply not_elem_of_nil]|].
  rewrite lookup_delete, IH. repeat case_decide; try done; set_solver.
Qed.

(** A name that is among the known ones, by evaluation. *)
Ltac known := apply (bool_decide_unpack _); vm_compute; exact I.

Section request.
Context {msg tool choice : Type}.
Variable lib : openai_lib msg tool choice.
Abbreviation ChatCompletionRequest := (ChatCompletionRequest msg tool choice).

Lemma UnmarshalRequest_raw data r : UnmarshalRequest lib data = Some r → ∃ j o, parse_json data = Some j ∧ as_struct j = Some o ∧ rq_RawJSON r = foldr delete (raw_map o) known_fields.
Proof.
  unfold UnmarshalRequest. intros (j & Hj & (o & Ho & H)%bind_Some)%bind_Some. exists j, o. split_and!; [done..|].
  repeat (apply bind_Some in H as (? & _ & H)). by simplify_eq.
Qed.

Lemma request_json_raw r : raw_map (request_json lib r) = rq_RawJSON r ∪ raw_map (JObj (known_json lib r)).
Proof. unfold request_json. case_decide as Hr; [by rewrite Hr, (left_id_L ∅ (∪))|]. apply raw_map_json. Qed.

Lemma known_keys r k : k ∉ known_fields → k ≠ bs "skill" → raw_map (JObj (known_json lib r)) !! k = None.
Proof.
  intros Hk Hs. unfold raw_map. rewrite foldl_insert_app, lookup_empty.
  assert (∀ kv, kv ∈ known_json lib r → kv.1 ∈ known_fields ∨ kv.1 = bs "skill") as Hkeys.
  { unfold known_json. intros kv. rewrite !elem_of_app. intros Hin.
    assert (∀ k v, kv ∈ [(k, v)] → kv.1 = k) as Hone by (intros ? ? Hkv; by apply list_elem_of_singleton in Hkv as ->).
    destruct Hin as [Hin|[Hin|[Hin|[Hin|[Hin|[Hin|[Hin|Hin]]]]]]].
    - apply elem_of_cons in Hin as [->|Hin%Hone]; left; [cbn [fst]|rewrite Hin]; known.
    - destruct (rq_ToolChoice r); [|by apply elem_of_nil in Hin]. apply Hone in Hin. left. rewrite Hin. known.
    - destruct (rq_Tools r); [|by apply elem_of_nil in Hin]. apply Hone in Hin. left. rewrite Hin. known.
    - destruct (feqb _ _); [by apply elem_of_nil in Hin|]. apply Hone in Hin. left. rewrite Hin. known.
    - destruct (decide (rq_MaxTokens r = 0)); [by apply elem_of_nil in Hin|]. apply Hone in Hin. left. rewrite Hin. known.
    - destruct (rq_Stream r); [|by apply elem_of_nil in Hin]. apply Hone in Hin. left. rewrite Hin. known.
    - destruct (rq_StreamOptions r); [|by apply elem_of_nil in Hin]. apply Hone in Hin. left. rewrite Hin. known.
    - destruct (decide (rq_Skill r = [])); [by apply elem_of_nil in Hin|]. apply Hone in Hin. by right. }
  rewrite filter_all_out; [done|]. intros kv Hin <-. by destruct (Hkeys kv Hin).
Qed.

(** Whatever the handler changes of a decoded request but its unknown
    fields, the body sent on has every unknown field of the client's body with
    its value, the known fields as the request has them, and the skill field of
    the gateway as the client wrote it. *)
Theorem forwarded_fields data r r' j o : UnmarshalRequest lib data = Some r → parse_json data = Some j → as_struct j = Some o →
  rq_RawJSON r' = rq_RawJSON r →
  (∀ k, k ∉ known_fields → k ≠ bs "skill" → raw_map (request_json lib r') !! k = raw_map o !! k) ∧
  (∀ k, k ∈ known_fields → raw_map (request_json lib r') !! k = raw_map (JObj (known_json lib r')) !! k) ∧
  (∀ v, raw_map o !! bs "skill" = Some v → raw_map (request_json lib r') !! bs "skill" = Some v).
Proof.
  intros Hu Hj Ho Hr. destruct (UnmarshalRequest_raw data r Hu) as (j' & o' & Hj' & Ho' & Hraw). simplify_eq.
  rewrite request_json_raw, Hr, Hraw. split_and!.
  - intros k Hk Hs. rewrite lookup_union, known_keys, delete_all_lookup, decide_False by done. by destruct (raw_map o !! k).
  - intros k Hk. rewrite lookup_union_r; [done|]. by rewrite delete_all_lookup, decide_True.
  - intros v Hv. apply lookup_union_Some_l. rewrite delete_all_lookup, decide_False; [done|]. apply (bool_decide_unpack _). vm_compute. exact I.
Qed.

(** ** The response cache *)

Lemma entry_roundtrip status ct body : - 2 ^ 63 ≤ status < 2 ^ 63 → utf8 ct → utf8 body →
  unmarshal_entry (marshal_entry status ct body) = Some (status, [(bs "Content-Type", ct)], body).
Proof.
  intros Hst Hct Hb. unfold unmarshal_entry, marshal_entry. rewrite parse_marshal.
  2: { apply storable_object; [lia|]. repeat constructor; try done; [by apply number_text_Itoa|by apply number_text_Itoa]. }
  rewrite bind_some. cbn [as_struct]. rewrite bind_some. unfold int_field, string_field, headers_field.
  rewrite !fields_cons, !fields_nil. eval_keys. cbn [app foldl]. rewrite !bind_some, ParseInt_Itoa by done. reflexivity.
Qed.

(** What a stored reply is stored as. *)
Definition content_type_of (r : response) : bytes := default [] (head (default [] (rs_headers r !! bs "Content-Type"))).

Definition cacheable (q : http_request) (r : ChatCompletionRequest) : Prop :=
  hq_post q = true ∧ hq_no_cache q ≠ bs "true" ∧ rq_Stream r = false ∧ ∃ body, hq_body q = Some body ∧ UnmarshalRequest lib body = Some r.

Lemma Middleware_miss {S : Type} (get : bytes → option bytes) (q : http_request) (r : ChatCompletionRequest) (next : header → S → response * S) h s : cacheable q r → get (buildCacheKey lib r) = None →
  Middleware lib true get q next h s =
    let '(a, s') := next (header_Set (bs "X-Cache") (bs "MISS") h) s in
    (a, s', if decide (200 ≤ rs_status a < 300 ∧ rs_body a ≠ []) then Some (buildCacheKey lib r, marshal_entry (rs_status a) (content_type_of a) (rs_body a)) else None).
Proof.
  intros (Hp & Hn & Hs & body & Hb & Hu) Hg. unfold Middleware. rewrite Hp, Hb, Hu, Hs, Hg. cbn [negb orb]. by rewrite bool_decide_eq_false_2.
Qed.
Lemma Middleware_hit {S : Type} (get : bytes → option bytes) (q : http_request) (r : ChatCompletionRequest) (next : header → S → response * S) h s text e : cacheable q r → get (buildCacheKey lib r) = Some text → text ≠ [] →
  unmarshal_entry text = Some e → Middleware lib true get q next h s = (replay h e, s, None).
Proof.
  intros (Hp & Hn & Hs & body & Hb & Hu) Hg Ht He. unfold Middleware. rewrite Hp, Hb, Hu, Hs, Hg. cbn [negb orb].
  rewrite bool_decide_eq_false_2 by done. by rewrite decide_False, He.
Qed.

Lemma replay_entry h status ct body : ct ≠ [] → replay h (status, [(bs "Content-Type", ct)], body) =
  mk_resp status (<[bs "Content-Type" := [ct]]> (<[bs "X-Cache" := [bs "HIT"]]> h)) body.
Proof.
  intros Hct. unfold replay. cbn [foldl]. unfold set_header. cbn [fst snd]. rewrite decide_False by done. unfold header_Set.
  assert (CanonicalHeaderKey (bs "Content-Type") = bs "Content-Type") as -> by (vm_compute; reflexivity).
  assert (CanonicalHeaderKey (bs "X-Cache") = bs "X-Cache") as -> by (vm_compute; reflexivity). by rewrite lookup_insert_eq.
Qed.

(** A reply stored for one request is given to every later request with
    the same model, messages and temperature to two decimals: whatever its user
    and other parameters (tools, token limit, unknown fields), it gets the same
    status, content type and body, and the handler - permissions, balance,
    moderation, metering - does not run. *)
Theorem cached_reply_ignores_the_rest {S1 S2 : Type} (get1 get2 : bytes → option bytes) (q1 q2 : http_request) (r1 r2 : ChatCompletionRequest) (next1 : header → S1 → response * S1) (next2 : header → S2 → response * S2) h1 h2 s1 s2 a s1' :
  cacheable q1 r1 → cacheable q2 r2 → get1 (buildCacheKey lib r1) = None →
  next1 (header_Set (bs "X-Cache") (bs "MISS") h1) s1 = (a, s1') →
  200 ≤ rs_status a < 300 → rs_body a ≠ [] → utf8 (rs_body a) → utf8 (content_type_of a) → content_type_of a ≠ [] →
  rq_Model r2 = rq_Model r1 → rq_Messages r2 = rq_Messages r1 → FormatFixed 2 (rq_Temperature r2) = FormatFixed 2 (rq_Temperature r1) →
  Middleware lib true get1 q1 next1 h1 s1 = (a, s1', Some (buildCacheKey lib r1, marshal_entry (rs_status a) (content_type_of a) (rs_body a))) ∧
  (get2 (buildCacheKey lib r1) = Some (marshal_entry (rs_status a) (content_type_of a) (rs_body a)) →
   Middleware lib true get2 q2 next2 h2 s2 =
     (mk_resp (rs_status a) (<[bs "Content-Type" := [content_type_of a]]> (<[bs "X-Cache" := [bs "HIT"]]> h2)) (rs_body a), s2, None)).
Proof.
  intros Hc1 Hc2 Hg Hn Hst Hb Hub Huc Hct Hm Hms Ht. split.
  - rewrite (Middleware_miss get1 q1 r1) by done. rewrite Hn. by rewrite decide_True.
  - intros Hg2. rewrite <-(replay_entry h2 (rs_status a) (content_type_of a) (rs_body a)) by done. eapply Middleware_hit; [done| | |].
    + assert (buildCacheKey lib r2 = buildCacheKey lib r1) as -> by (unfold buildCacheKey; by rewrite Hm, Hms, Ht). exact Hg2.
    + done.
    + apply entry_roundtrip; [lia|done..].
Qed.

(** What is never stored or replayed: streams, opted-out requests, bodies that
    do not parse. *)
Lemma Middleware_passes {S : Type} (get : bytes → option bytes) (q : http_request) (next : header → S → response * S) h s :
  (∀ r : ChatCompletionRequest, ¬ cacheable q r) → Middleware lib true get q next h s = (next h s, None).
Proof.
  intros Hc. unfold Middleware. destruct (hq_post q) eqn:Hp; [|done]. cbn [negb orb]. destruct (hq_body q) as [body|] eqn:Hb; [|done].
  destruct (UnmarshalRequest lib body) as [r|] eqn:Hu; [|done]. destruct (rq_Stream r) eqn:Hs; [done|]. cbn [orb].
  case_bool_decide as Hn; [done|]. exfalso. apply (Hc r). split_and!; [done..|by exists body].
Qed.
End request.

(** Compressed bytes are not text: what is replayed is not what was stored. *)
Lemma binary_body_corrupted : ∃ body e, unmarshal_entry (marshal_entry 200 (bs "application/json") body) = Some e ∧ e.2 ≠ body.
Proof.
  exists ["031"; "139"]%char, (200, [(bs "Content-Type", bs "application/json")], "031"%char :: EncodeRune RuneError).
  split; [vm_compute; reflexivity|]. vm_compute. discriminate.
Qed.
