(* ===== verification/GwChat.v ===== *)
(** The AI gateway's chat and embedding handlers (aigateway/handler/openai.go):
    from a decoded request to the request sent upstream, with the skill
    injected, the model found, the key's permission, the balance and the
    prompts checked, and the metering and the usage log after it. A handler
    that writes a reply and returns is a failed run with that reply. *)
From S2P Require Import Prelude GoLib GoFloat GoJson Sensitive Accounting GwModeration GwStream GwRoute GwToken GwModels GwRequest.
Open Scope Z_scope.

(** ** Tables *)

Record AISkill := mk_skill {
  sk_ID : Z; sk_Name : bytes; sk_SystemPrompt : bytes; sk_PreferredModel : bytes; sk_Enabled : bool; sk_Tools : list json;
}.
Record AccessToken := mk_token { at_Token : bytes; at_App : bytes; at_IsActive : bool; at_AllowedModels : list bytes }.
Record cluster := mk_cluster { cl_ID : bytes; cl_AppEndpoint : bytes }.
Record LLMBilling := mk_billing { bl_Provider : bytes; bl_ModelID : bytes; bl_PriceInput : float64; bl_PriceOutput : float64 }.
Record ModelUsageLog := mk_log {
  lg_UserID : Z; lg_Username : bytes; lg_ModelID : bytes; lg_Provider : bytes; lg_InputTokens : Z; lg_OutputTokens : Z;
  lg_CostUSD : float64; lg_StatusCode : Z; lg_LatencyMs : Z; lg_RequestSummary : bytes; lg_CreatedAt : Z;
}.

(** A reply written by a handler: a string, an error's text, a JSON value, or
    raw bytes. *)
Inductive reply :=
  | RError (status : Z) (prefix : bytes) (e : merr)
  | RText (status : Z) (text : bytes)
  | RJSON (status : Z) (headers : list (bytes * bytes)) (j : json)
  | RCustom (status : Z) (e : merr)
  | RRaw (data : bytes).

(** [gin.H{"error": types.Error{...}}] *)
Definition api_error (code message type_ : bytes) : json :=
  JObj [(bs "error", JObj [(bs "code", JStr code); (bs "message", JStr message); (bs "type", JStr type_)])].
(** [gin.H{"error": map[string]string{...}}] *)
Definition typed_error (message type_ : bytes) : json := JObj [(bs "error", JObj [(bs "message", JStr message); (bs "type", JStr type_)])].

Definition model_not_found (modelID : bytes) : reply :=
  RJSON 400 [] (api_error (bs "model_not_found") (bs "model '" ++ modelID ++ bs "' not found") (bs "invalid_request_error")).
Definition model_not_running (modelID : bytes) : reply :=
  RJSON 400 [] (api_error (bs "model_not_running") (bs "model '" ++ modelID ++ bs "' not running") (bs "invalid_request_error")).
Definition get_model_failed (modelID : bytes) (e : merr) : reply := RError 500 (bs "failed to get model by id '" ++ modelID ++ bs "',error:") e.
Definition bad_model_id : reply :=
  RText 400 (bs "invalid model id format, should be in format 'model_name:svc_name' or 'model_name'").

(** What is sent: the provider, target and host, the path, whether over the
    fallbacks, and the body of the direct request. *)
Record forwarded := mk_fw { fw_model : Model; fw_provider : bytes; fw_target : bytes; fw_host : bytes; fw_api : bytes; fw_body : bytes; fw_fallback : bool }.

(** [apicomp.ExtractDeployTargetAndHost]; [hostname] is [url.Parse] with
    [Hostname]. *)
Definition extractHostFromEndpoint (hostname : bytes → option bytes) (endpoint : bytes) : option bytes :=
  h ← hostname endpoint; if decide (h = []) then None else Some h.
Definition ExtractDeployTargetAndHost (hostname : bytes → option bytes) (c : cluster) (endpoint : bytes) : option (bytes * bytes) :=
  if decide (cl_AppEndpoint c = []) then Some (endpoint, [])
  else if decide (endpoint = []) then None
  else host ← extractHostFromEndpoint hostname endpoint; Some (cl_AppEndpoint c, host).

Definition is_anthropic (m : Model) : bool := bool_decide (mo_SvcName m = [] ∧ mo_Provider m = bs "anthropic").
Definition route_model (m : Model) : model := mk_model (mo_Provider m) (mo_Endpoint m) (mo_AuthHead m) (mo_Fallbacks m).

Section chat.
Context {W : Type} `{!Moderation W}.
Context {msg tool choice : Type}.
Variable lib : openai_lib msg tool choice.
(** A message as the moderation component and the token counter see it. *)
Variable mod_message : msg → message.
Variable tok_prompt : msg → prompt.
Variable unicode_lower : Z → Z.
Variable ParseRequestURI : bytes → option bytes.
Variable url_ok : bytes → bool.
Variable hostname : bytes → option bytes.
Variable serve : list outgoing → outgoing → answer * bool.
Variable marshal_chunk : ChatCompletionChunk → bytes.
Variable scan_order : Z → list llm_row → list llm_row.
Variable sort_priority : list llm_row → list llm_row.
Variable range_order : list (bytes * list llm_row) → list (bytes * list llm_row).
Variable tok_svc : tok_service.
Abbreviation ChatCompletionRequest := (ChatCompletionRequest msg tool choice).

(** [config.Frontend.URL], the accounting switch and the providers' keys. *)
Record gateway_config := mk_cfg { cfg_FrontendURL : bytes; cfg_ChargingEnable : bool; cfg_Keys : APIKeys }.
Variable config : gateway_config.

Record chat_world := mk_cw {
  cw_model : model_world; cw_mod : W;
  cw_skills : list AISkill; cw_tokens : list AccessToken; cw_clusters : list cluster; cw_billing : list LLMBilling;
  cw_used : list Z;               (* skills whose count is incremented *)
  cw_route : state;               (* headers, requests sent, what the client's writer is given *)
  cw_logs : list ModelUsageLog;
}.
Abbreviation cio := (io chat_world reply).

Definition set_model (m : model_world) (w : chat_world) : chat_world :=
  mk_cw m (cw_mod w) (cw_skills w) (cw_tokens w) (cw_clusters w) (cw_billing w) (cw_used w) (cw_route w) (cw_logs w).
Definition set_route (r : state) (w : chat_world) : chat_world :=
  mk_cw (cw_model w) (cw_mod w) (cw_skills w) (cw_tokens w) (cw_clusters w) (cw_billing w) (cw_used w) r (cw_logs w).

(** A component's call, its error handed back. *)
Definition on_model {A} (m : dio A) : cio (result A merr) := λ w,
  let '(o, mw) := m (cw_model w) in
  (match o with Ret a => Ret (Ok a) | Fail e => Ret (Err e) | Panic => Panic end, set_model mw w).
Definition on_mod {A} (m : io W bytes A) : cio (result A bytes) := λ w,
  let '(o, mw) := m (cw_mod w) in
  (match o with Ret a => Ret (Ok a) | Fail e => Ret (Err e) | Panic => Panic end,
   mk_cw (cw_model w) mw (cw_skills w) (cw_tokens w) (cw_clusters w) (cw_billing w) (cw_used w) (cw_route w) (cw_logs w)).

(** A store's lookup: [None] when it fails or finds nothing. *)
Definition lookup_row {A} (f : chat_world → option A) : cio (option A) :=
  r ← on_model next_fault;
  match r with Ok _ => io_gets f | Err _ => mret None end.

(** ** The skill *)

Definition find_skill (s : bytes) : cio (option AISkill) :=
  skill ← lookup_row (λ w, find_by (λ k, sk_Name k = s) (cw_skills w));
  match skill with
  | Some k => mret (Some k)
  | None => match ParseInt s with
            | Some sid => lookup_row (λ w, find_by (λ k, sk_ID k = sid) (cw_skills w))
            | None => mret None
            end
  end.

Definition inject (k : AISkill) (r : ChatCompletionRequest) : ChatCompletionRequest :=
  let messages := if decide (sk_SystemPrompt k = []) then rq_Messages r else Some (SystemMessage lib (sk_SystemPrompt k) :: default [] (rq_Messages r)) in
  let model := if decide (sk_PreferredModel k ≠ [] ∧ rq_Model r = []) then sk_PreferredModel k else rq_Model r in
  let tools :=
    if decide (sk_Tools k = []) then rq_Tools r
    else match decode_tools lib [JArr (sk_Tools k)] with
         | Some (Some (_ :: _ as l)) => Some (default [] (rq_Tools r) ++ l)
         | _ => rq_Tools r
         end in
  mk_req model messages (rq_ToolChoice r) tools (rq_Temperature r) (rq_MaxTokens r) (rq_Stream r) (rq_StreamOptions r) (rq_Skill r) (rq_RawJSON r).

Definition inject_skill (r : ChatCompletionRequest) : cio ChatCompletionRequest :=
  if decide (rq_Skill r = []) then mret r
  else
    skill ← find_skill (rq_Skill r);
    match skill with
    | Some k =>
        if sk_Enabled k then
          io_modify (λ w, mk_cw (cw_model w) (cw_mod w) (cw_skills w) (cw_tokens w) (cw_clusters w) (cw_billing w) (cw_used w ++ [sk_ID k]) (cw_route w) (cw_logs w));;
          mret (inject k r)
        else mret r
    | None => mret r
    end.

(** ** The request's steps *)

Definition find_model (username modelID : bytes) : cio Model :=
  r ← on_model (GetModelByID scan_order sort_priority range_order username modelID);
  match r with
  | Err e => io_fail (get_model_failed modelID e)
  | Ok None => io_fail (model_not_found modelID)
  | Ok (Some m) => mret m
  end.

Definition find_target (modelID : bytes) (m : Model) : cio (bytes * bytes) :=
  t ← (if decide (mo_SvcName m = []) then mret (Some (mo_Endpoint m, []))
       else c ← lookup_row (λ w, find_by (λ c, cl_ID c = mo_ClusterID m) (cw_clusters w));
            mret (c ← c; ExtractDeployTargetAndHost hostname c (mo_Endpoint m)));
  match t with
  | Some (_ :: _ as target, host) => mret (target, host)
  | _ => io_fail (model_not_running modelID)
  end.

(** The model's name, and usage in a stream from the platform's engines. *)
Definition address (modelName : bytes) (m : Model) (r : ChatCompletionRequest) : ChatCompletionRequest :=
  let options := if decide (rq_Stream r = true ∧ mo_SvcName m ≠ [] ∧ Contains (mo_ImageID m) (bs "vllm-cpu") = false) then Some true else rq_StreamOptions r in
  mk_req modelName (rq_Messages r) (rq_ToolChoice r) (rq_Tools r) (rq_Temperature r) (rq_MaxTokens r) (rq_Stream r) options (rq_Skill r) (rq_RawJSON r).

Definition not_allowed (modelName : bytes) : reply :=
  RJSON 403 [] (typed_error (bs "API key does not have access to model '" ++ modelName ++ bs "'") (bs "model_not_allowed")).

(** A token of another application, or a lookup that fails, restricts
    nothing. *)
Definition check_token (accessToken modelName : bytes) : cio unit :=
  if decide (accessToken = []) then mret tt
  else
    t ← lookup_row (λ w, find_by (λ t, at_Token t = accessToken ∧ at_IsActive t = true ∧ at_App t = bs "aigateway") (cw_tokens w));
    match t with
    | Some t => if decide (at_AllowedModels t ≠ [] ∧ modelName ∉ at_AllowedModels t) then io_fail (not_allowed modelName) else mret tt
    | None => mret tt
    end.

Definition handleInsufficientBalance (isStream : bool) (e : merr) : reply :=
  match e with
  | ErrBudgetExceeded =>
      RJSON 429 [(bs "Retry-After", bs "3600")]
        (typed_error (bs "Monthly budget exceeded. Please increase your budget or wait until next month.") (bs "budget_exceeded"))
  | ErrInsufficientBalance =>
      if isStream then RRaw (bs "data: " ++ marshal_chunk (generateInsufficientBalanceResp (cfg_FrontendURL config)) ++ nlnl ++ bs "data: [DONE]" ++ nlnl)
      else RCustom 403 e
  | e => RCustom 500 e
  end.

Definition check_balance (isStream : bool) (username : bytes) (m : Model) : cio unit :=
  r ← on_model (CheckBalance (cfg_ChargingEnable config) username m);
  match r with Ok _ => mret tt | Err e => io_fail (handleInsufficientBalance isStream e) end.

Definition default_max_tokens (m : Model) (r : ChatCompletionRequest) : ChatCompletionRequest :=
  if is_anthropic m && bool_decide (rq_MaxTokens r = 0)
  then mk_req (rq_Model r) (rq_Messages r) (rq_ToolChoice r) (rq_Tools r) (rq_Temperature r) 4096 (rq_Stream r) (rq_StreamOptions r) (rq_Skill r) (rq_RawJSON r)
  else r.

(** A message whose JSON has the role system; its text, if it is a string. *)
Definition str_of (j : option json) : option bytes := match j with Some (JStr s) => Some s | _ => None end.
Definition is_system (m : msg) : bool := bool_decide (str_of (raw_map (msg_json lib m) !! bs "role") = Some (bs "system")).
Definition system_text (m : msg) : option bytes := str_of (raw_map (msg_json lib m) !! bs "content").

Definition buildAnthropicBody (r : ChatCompletionRequest) : bytes :=
  let messages := default [] (rq_Messages r) in
  let systemParts := omap system_text (filter (λ m, is_system m = true) messages) in
  let nonSystem := filter (λ m, is_system m = false) messages in
  marshal (map_json (list_to_map (
    [(bs "model", JStr (rq_Model r)); (bs "messages", if decide (length nonSystem = 0%nat) then JNull else JArr (msg_json lib <$> nonSystem));
     (bs "max_tokens", JNum (Itoa (rq_MaxTokens r))); (bs "stream", JBool (rq_Stream r))] ++
    (if decide (systemParts = []) then [] else [(bs "system", JStr (Join systemParts nlnl))]) ++
    (if fltb (S754_zero false) (rq_Temperature r) then [(bs "temperature", JNum (format_float lib (rq_Temperature r)))] else [])))).

Definition sensitive_reply : reply := RRaw (bs "data: " ++ marshal_chunk generateSensitiveRespForPrompt ++ nlnl ++ bs "[DONE]").

Definition check_prompts (messages : option (list msg)) (key : bytes) : cio unit :=
  r ← on_mod (mod_CheckChatPrompts (mod_message <$> default [] messages) key);
  match r with
  | Err e => io_fail (RText 500 (bs "failed to call moderation error:" ++ e))
  | Ok result => if IsSensitive result then io_fail sensitive_reply else mret tt
  end.

(** ** Sending it on *)

(** The direct path; a target that does not parse leaves a nil proxy. *)
Definition send_direct (target host body : bytes) (m : Model) : cio forwarded :=
  let api := proxyToApi ParseRequestURI (mo_Endpoint m) in
  (if decide (mo_SvcName m = [])
   then io_modify (λ w, set_route (mk_state (injectAuthHeaders unicode_lower (cfg_Keys config) (mo_Provider m) (mo_Endpoint m) (mo_AuthHead m) (q_headers (cw_route w)))
                                     (sent (cw_route w)) (client (cw_route w))) w)
   else mret tt);;
  if negb (url_ok target) then io_panic
  else
    io_modify (λ w, let out := mk_out (mo_Provider m) target api (director_headers (q_headers (cw_route w))) body in
      set_route (mk_state (q_headers (cw_route w)) (sent (cw_route w) ++ [out]) (Some (mo_Provider m, (serve (sent (cw_route w)) out).1))) w);;
    mret (mk_fw m (mo_Provider m) target host api body false).

(** The path over the fallbacks marshals the request again. *)
Definition send_fallback (r : ChatCompletionRequest) (target host body : bytes) (m : Model) : cio forwarded :=
  st ← io_gets cw_route;
  let '(provider, st) := proxyWithFallback unicode_lower ParseRequestURI url_ok serve (cfg_Keys config) (MarshalRequest lib r) (route_model m) 2 st in
  io_modify (set_route st);; mret (mk_fw m provider target host (proxyToApi ParseRequestURI (mo_Endpoint m)) body true).

Definition send (r : ChatCompletionRequest) (target host : bytes) (m : Model) : cio forwarded :=
  let body := if is_anthropic m then buildAnthropicBody r else MarshalRequest lib r in
  if decide (mo_SvcName m = [] ∧ mo_Fallbacks m ≠ []) then send_fallback r target host body m else send_direct target host body m.

(** The handler up to the request's answer; [data] is the body, and the error
    of binding it is the library's. *)
Definition Chat (bind_error : bytes) (username userUUID accessToken data : bytes) : cio (forwarded * chatTokenCounter) :=
  match UnmarshalRequest lib data with
  | None => io_fail (RText 400 (bs "invalid chat compoletion request body:" ++ bind_error))
  | Some chatReq =>
      chatReq ← inject_skill chatReq;
      let modelID := rq_Model chatReq in
      m ← find_model username modelID;
      '(target, host) ← find_target modelID m;
      match model_id_From modelID with
      | None => io_fail bad_model_id
      | Some (modelName, _) =>
          let chatReq := address modelName m chatReq in
          check_token accessToken modelName;;
          check_balance (rq_Stream chatReq) username m;;
          let chatReq := default_max_tokens m chatReq in
          check_prompts (rq_Messages chatReq) (userUUID ++ bs ":" ++ modelID);;
          let counter := AppendPrompts (tok_prompt <$> default [] (rq_Messages chatReq)) (NewChat tok_svc target host modelName (mo_ImageID m)) in
          fw ← send chatReq target host m;
          mret (fw, counter)
      end
  end.

(** ** After the answer *)

Definition float_million : float64 := float_of_Z 1000000.
(** [float64(in) / 1e6 * PriceInput + float64(out) / 1e6 * PriceOutput] *)
Definition cost_usd (b : LLMBilling) (inputTokens outputTokens : Z) : float64 :=
  fadd (fmul (fdiv (float_of_Z inputTokens) float_million) (bl_PriceInput b)) (fmul (fdiv (float_of_Z outputTokens) float_million) (bl_PriceOutput b)).

(** The usage log: the tokens captured from the answer, or else the counter's;
    nothing is logged without tokens or without the user. *)
Definition usage_log (captured : Z * Z) (counter : tio TokenUsage) (username modelName : bytes) (messages : Z) (m : Model) (status latency now : Z) : cio unit :=
  tokens ← (if decide (captured = (0, 0)) then
              u ← on_model (on_tok counter);
              mret (match u with Ok u => (tu_Prompt u, tu_Completion u) | Err _ => (0, 0) end)
            else mret captured);
  if decide (tokens = (0, 0)) then mret tt
  else
    u ← on_model (FindByUsername username);
    match u with
    | Err _ => mret tt
    | Ok u =>
        b ← lookup_row (λ w, find_by (λ b, bl_Provider b = mo_Provider m ∧ bl_ModelID b = modelName) (cw_billing w));
        let cost := match b with Some b => cost_usd b tokens.1 tokens.2 | None => S754_zero false end in
        r ← on_model next_fault;
        match r with
        | Err _ => mret tt
        | Ok _ => io_modify (λ w, mk_cw (cw_model w) (cw_mod w) (cw_skills w) (cw_tokens w) (cw_clusters w) (cw_billing w) (cw_used w) (cw_route w)
                    (cw_logs w ++ [mk_log (u_ID u) username modelName (mo_Provider m) tokens.1 tokens.2 cost status latency
                       (bs "model=" ++ modelName ++ bs ", messages=" ++ Itoa messages) now]))
        end
    end.

(** ** Other handlers *)

Definition GetModel (username modelID : bytes) : cio Model :=
  if decide (modelID = []) then io_fail (RJSON 400 [] (api_error (bs "model_not_found") (bs "model id can not be empty") (bs "invalid_request_error")))
  else find_model username modelID.

Definition ListModelsHandler (currentUser : bytes) (req : ListModelsReq) : cio ModelList :=
  r ← on_model (ListModels scan_order sort_priority range_order unicode_lower currentUser req);
  match r with
  | Ok l => mret l
  | Err _ => io_fail (RJSON 500 [] (api_error (bs "internal_server_error") (bs "Failed to retrieve models") (bs "server_error")))
  end.

(** No permission of the key and no prompt is checked; the balance is, before
    the model's id. The reply names no provider. *)
Definition EmbeddingHandler {params} (elib : embedding_lib params) (bind_error username data : bytes) : cio (forwarded * embeddingTokenCounter) :=
  match UnmarshalEmbedding elib data with
  | None => io_fail (RJSON 400 [] (JObj [(bs "error", JStr bind_error)]))
  | Some req =>
      let p := em_params req in
      if decide (em_Model elib p = []) then io_fail (RJSON 400 [] (JObj [(bs "error", JStr (bs "Model cannot be empty"))]))
      else if negb (em_has_input elib p) then io_fail (RJSON 400 [] (JObj [(bs "error", JStr (bs "Input cannot be empty"))]))
      else
        let modelID := em_Model elib p in
        r ← on_model (GetModelByID scan_order sort_priority range_order username modelID);
        match r with
        | Err e => io_fail (RError 500 [] e)
        | Ok None => io_fail (model_not_found modelID)
        | Ok (Some m) =>
            '(target, host) ← find_target modelID m;
            check_balance false username m;;
            match model_id_From modelID with
            | None => io_fail bad_model_id
            | Some (modelName, _) =>
                let body := MarshalEmbedding elib (mk_emb (set_Model elib modelName p) (em_RawJSON req)) in
                (if decide (mo_SvcName m = [])
                 then io_modify (λ w, set_route (mk_state (injectAuthHeaders unicode_lower (cfg_Keys config) (mo_Provider m) (mo_Endpoint m) (mo_AuthHead m) (q_headers (cw_route w)))
                                                   (sent (cw_route w)) (client (cw_route w))) w)
                 else mret tt);;
                if negb (url_ok target) then io_panic
                else
                  let counter := NewEmbedding tok_svc target host modelName (mo_ImageID m) in
                  io_modify (λ w, let out := mk_out (mo_Provider m) target [] (director_headers (q_headers (cw_route w))) body in
                    set_route (mk_state (q_headers (cw_route w)) (sent (cw_route w) ++ [out]) (Some ([], (serve (sent (cw_route w)) out).1))) w);;
                  mret (mk_fw m (mo_Provider m) target host [] body false, if decide (em_string elib p = []) then counter else Input (em_string elib p) counter)
            end
        end
  end.
End chat.
