(* ===== verification/GwChatSpec.v ===== *)
(** What holds of the chat handler: what is checked before a request goes
    upstream, what a refused request leaves alone, and what the two ways of
    sending it send. *)
From S2P Require Import Prelude GoLib GoFloat GoJson Sensitive Accounting GwModeration GwStream GwRoute GwToken GwModels GwModelsSpec GwListing GwRequest GwChat.
Open Scope Z_scope.

Section chat.
Context {W : Type} `{!Moderation W}.
Context {msg tool choice : Type}.
Variable lib : openai_lib msg tool choice.
Variable mod_message : msg → message.
Variable tok_prompt : msg → prompt.
Variable unicode_lower : Z → Z.
Variable ParseRequestURI : bytes → option bytes.
Variable url_ok : bytes → bool.
Variable hostname : bytes → option bytes.
Variable serve : list outgoing → outgoing → answer * bool.
Variable marshal_chunk : ChatCompletionChunk → bytes.
Variable scan_order : Z → list llm_row → list llm_row.
Variable sort_priority : list llm_row → list llm_row.
Variable range_order : list (bytes * list llm_row) → list (bytes * list llm_row).
Variable tok_svc : tok_service.
Variable config : gateway_config.
Abbreviation world := (@chat_world W).
Abbreviation cio := (io world reply).
Abbreviation find_model := (GwChat.find_model scan_order sort_priority range_order).
Abbreviation find_target := (GwChat.find_target hostname).
Abbreviation check_balance := (GwChat.check_balance marshal_chunk config).
Abbreviation check_prompts := (GwChat.check_prompts mod_message marshal_chunk).
Abbreviation send := (GwChat.send lib unicode_lower ParseRequestURI url_ok serve config).
Abbreviation Chat := (GwChat.Chat lib mod_message tok_prompt unicode_lower ParseRequestURI url_ok hostname serve marshal_chunk
  scan_order sort_priority range_order tok_svc config).

(** ** Steps that only prepare *)

(** The parts of the world that only sending and the work after it touch. *)
Definition outcome_of (w : world) : state * list ModelUsageLog * list MeteringEvent := (cw_route w, cw_logs w, mw_events (cw_model w)).
Definition prepares {A} (m : cio A) : Prop := ∀ w, outcome_of (m w).2 = outcome_of w.

Lemma prepares_ret {A} (a : A) : prepares (mret a).
Proof. done. Qed.
Lemma prepares_fail {A} e : prepares (A := A) (io_fail e).
Proof. done. Qed.
Lemma prepares_gets {A} (f : world → A) : prepares (io_gets f).
Proof. done. Qed.
Lemma prepares_bind {A B} (m : cio A) (f : A → cio B) : prepares m → (∀ a, prepares (f a)) → prepares (m ≫= f).
Proof.
  intros Hm Hf w. specialize (Hm w). unfold mbind, io_bind. destruct (m w) as [[a|e|] w']; cbn [snd] in Hm |- *; [by rewrite Hf|done..].
Qed.
Lemma prepares_mod {A} (m : io W bytes A) : prepares (on_mod m).
Proof. intros w. unfold on_mod. by destruct (m (cw_mod w)) as [[] ?]. Qed.
Definition keeps_events {A} (m : dio A) : Prop := ∀ w, mw_events (m w).2 = mw_events w.
Lemma prepares_model {A} (m : dio A) : keeps_events m → prepares (on_model m).
Proof. intros Hm w. specialize (Hm (cw_model w)). unfold on_model. destruct (m (cw_model w)) as [[] ?]; cbn [snd] in Hm; unfold outcome_of; cbn; by rewrite Hm. Qed.
Lemma reads_keeps {A} (m : dio A) : reads m → keeps_events m.
Proof. intros Hm w. destruct (Hm w) as [fs ->]. done. Qed.
Create HintDb prepares.
#[local] Hint Resolve prepares_ret prepares_fail prepares_gets prepares_bind prepares_mod prepares_model reads_keeps : prepares.
#[local] Hint Resolve reads_next_fault : prepares.

Lemma prepares_lookup {A} (f : world → option A) : prepares (lookup_row f).
Proof. unfold lookup_row. apply prepares_bind; [auto with prepares|]. intros []; auto with prepares. Qed.
#[local] Hint Resolve prepares_lookup : prepares.
Lemma prepares_skill r : prepares (inject_skill lib r).
Proof.
  unfold inject_skill. case_decide; [auto with prepares|]. apply prepares_bind.
  - unfold find_skill. apply prepares_bind; [auto with prepares|]. intros []; [auto with prepares|]. destruct (ParseInt _); auto with prepares.
  - intros [k|]; [destruct (sk_Enabled k)|]; auto with prepares. apply prepares_bind; [by intros w|auto with prepares].
Qed.
Lemma started_keeps u w w' : started scan_order sort_priority range_order u w w' → mw_events w' = mw_events w ∧ mw_tables w' = mw_tables w.
Proof. intros (fs & [->|(models & -> & _)]); [done|]. unfold add_save. by destruct (decide _). Qed.
Lemma prepares_find username id : prepares (find_model username id).
Proof.
  unfold GwChat.find_model. apply prepares_bind.
  - apply prepares_model. intros w. by apply (started_keeps username), GetModelByID_started.
  - intros [[m|]|e]; auto with prepares.
Qed.
Lemma prepares_target id m : prepares (find_target id m).
Proof.
  unfold GwChat.find_target. apply prepares_bind.
  - case_decide; auto with prepares.
  - intros [[[|c t] h]|]; auto with prepares.
Qed.
Lemma prepares_token t name : prepares (check_token t name).
Proof.
  unfold check_token. case_decide; [auto with prepares|]. apply prepares_bind; [auto with prepares|]. intros [r|]; [case_decide|]; auto with prepares.
Qed.
Lemma reads_balance charging name m : reads (CheckBalance charging name m).
Proof.
  unfold CheckBalance, FindByUsername. apply reads_bind; [auto with reads|]. intros [u|]; [|auto with reads]. apply reads_bind.
  - destruct (fltb _ _); [|auto with reads]. unfold MonthlySpend. auto with reads.
  - intros []; [auto with reads|]. destruct charging; cbn [negb]; [|auto with reads]. case_decide; [auto with reads|].
    apply reads_bind; [unfold Balance; auto 10 with reads|]. intros []; [|auto with reads]. destruct (fleb _ _); auto with reads.
Qed.
Lemma prepares_balance stream name m : prepares (check_balance stream name m).
Proof. unfold GwChat.check_balance. apply prepares_bind; [auto using reads_balance with prepares|]. intros []; auto with prepares. Qed.
Lemma prepares_prompts ms key : prepares (check_prompts ms key).
Proof. unfold GwChat.check_prompts. apply prepares_bind; [auto with prepares|]. intros [r|]; [destruct (IsSensitive r)|]; auto with prepares. Qed.
#[local] Hint Resolve prepares_skill prepares_find prepares_target prepares_token prepares_balance prepares_prompts : prepares.

Lemma send_never_fails r target host m (w w' : world) e : send r target host m w = (Fail e, w') → False.
Proof.
  unfold GwChat.send. case_decide.
  - unfold send_fallback, mbind, io_bind, io_gets. by destruct (proxyWithFallback _ _ _ _ _ _ _ _ _).
  - unfold send_direct, mbind, io_bind, io_modify. destruct (decide _); destruct (url_ok target); done.
Qed.

Lemma fail_bind {A B} (m : cio A) (f : A → cio B) w e w' : prepares m → (m ≫= f) w = (Fail e, w') →
  (m w = (Fail e, w') ∧ outcome_of w' = outcome_of w) ∨ ∃ a w1, m w = (Ret a, w1) ∧ outcome_of w1 = outcome_of w ∧ f a w1 = (Fail e, w').
Proof.
  intros Hm. specialize (Hm w). unfold mbind, io_bind. destruct (m w) as [[a|e'|] w1]; cbn [snd] in Hm; intros H; [right; by exists a, w1| |done]. injection H as -> ->. left. by split.
Qed.

(** C38: a chat request that is refused - by its body, its model, its target,
    its key, its balance or its prompts - sends nothing upstream, sets no header
    for a provider, and is neither metered nor logged. *)
Theorem refused_sends_nothing bind_error username userUUID accessToken data (w w' : world) r :
  Chat bind_error username userUUID accessToken data w = (Fail r, w') → outcome_of w' = outcome_of w.
Proof.
  unfold GwChat.Chat. destruct (UnmarshalRequest lib data) as [req|]; [|by intros [= _ <-]].
  intros H. apply fail_bind in H as [[_ ->]|(r1 & w1 & _ & <- & H)]; [done| |auto with prepares].
  apply fail_bind in H as [[_ ->]|(m & w2 & _ & <- & H)]; [done| |auto with prepares].
  apply fail_bind in H as [[_ ->]|([target host] & w3 & _ & <- & H)]; [done| |auto with prepares].
  destruct (model_id_From _) as [[name svc]|]; [|by injection H as _ <-].
  apply fail_bind in H as [[_ ->]|([] & w4 & _ & <- & H)]; [done| |auto with prepares].
  apply fail_bind in H as [[_ ->]|([] & w5 & _ & <- & H)]; [done| |auto with prepares].
  apply fail_bind in H as [[_ ->]|([] & w6 & _ & <- & H)]; [done| |auto with prepares].
  exfalso. unfold mbind, io_bind in H. destruct (send _ _ _ _ w6) as [[fw|e|] w7] eqn:Hs; [done| |done]. by eapply send_never_fails.
Qed.

(** ** Steps that passed *)

Lemma ret_bind {A B} (m : cio A) (f : A → cio B) w b w' : (m ≫= f) w = (Ret b, w') → ∃ a w1, m w = (Ret a, w1) ∧ f a w1 = (Ret b, w').
Proof. unfold mbind, io_bind. destruct (m w) as [[a|e|] w1]; [eauto|done..]. Qed.

(** What the checks read and leave: no failures left over, the tables, keys and
    clusters, and the moderation component before its call. *)
Definition same_inputs (w w' : world) : Prop :=
  no_faults (cw_model w') ∧ mw_tables (cw_model w') = mw_tables (cw_model w) ∧ cw_tokens w' = cw_tokens w ∧ cw_mod w' = cw_mod w.

Lemma lookup_row_none {A} (f : world → option A) w : no_faults (cw_model w) → lookup_row f w = (Ret (f w), w).
Proof.
  intros Hw. unfold lookup_row, mbind, io_bind, on_model. rewrite next_fault_none by done. unfold io_gets. by destruct w.
Qed.
Lemma skill_passed r (w w' : world) r' : no_faults (cw_model w) → inject_skill lib r w = (Ret r', w') →
  same_inputs w w' ∧ (r' = r ∨ ∃ k, k ∈ cw_skills w ∧ sk_Enabled k = true ∧ r' = inject lib k r) ∧ cw_model w' = cw_model w.
Proof.
  intros Hw. unfold inject_skill. destruct (decide (rq_Skill r = [])); [intros [= <- <-]; split; [done|split; [by left|done]]|].
  intros (o & w1 & Hf & Hi)%ret_bind. assert (w1 = w ∧ ∀ k, o = Some k → k ∈ cw_skills w) as [-> Ho].
  { unfold find_skill in Hf. apply ret_bind in Hf as (o1 & w2 & Hl & Hf). rewrite lookup_row_none in Hl by done. injection Hl as <- <-.
    destruct (find_by _ (cw_skills w)) as [k|] eqn:Hk; [injection Hf as <- <-; split; [done|]; intros ? [= <-]; by apply find_by_Some in Hk as [? _]|].
    destruct (ParseInt _); [|by injection Hf as <- <-]. rewrite lookup_row_none in Hf by done. injection Hf as <- <-. split; [done|].
    intros k Hk'. by apply find_by_Some in Hk' as [? _]. }
  destruct o as [k|]; [|injection Hi as <- <-; split; [done|split; [by left|done]]].
  destruct (sk_Enabled k) eqn:He; [|injection Hi as <- <-; split; [done|split; [by left|done]]].
  unfold mbind, io_bind, io_modify in Hi. injection Hi as <- <-. split; [done|]. split; [|done]. right. exists k. split_and!; auto.
Qed.
Lemma find_passed username id (w w' : world) m : no_faults (cw_model w) → find_model username id w = (Ret m, w') →
  same_inputs w w' ∧ ∃ mw, GetModelByID scan_order sort_priority range_order username id (cw_model w) = (Ret (Some m), mw).
Proof.
  intros Hw (r & w1 & Ho & H)%ret_bind. unfold on_model in Ho. pose proof (calm_find scan_order sort_priority range_order username id _ Hw) as Hc.
  pose proof (proj2 (started_keeps username _ _ (GetModelByID_started scan_order sort_priority range_order username id (cw_model w)))) as Ht.
  destruct (GetModelByID _ _ _ username id (cw_model w)) as [[o|e|] mw]; cbn [snd] in *; [|injection Ho as <- <-; done|done].
  injection Ho as <- <-. destruct o as [m'|]; [|done]. injection H as <- <-. split; [done|]. by exists mw.
Qed.
Lemma target_passed id m (w w' : world) t : no_faults (cw_model w) → find_target id m w = (Ret t, w') → w' = w.
Proof.
  intros Hw (o & w1 & Ho & H)%ret_bind. assert (w1 = w) as ->.
  { destruct (decide (mo_SvcName m = [])); [by injection Ho|]. apply ret_bind in Ho as (c & w2 & Hl & Ho). rewrite lookup_row_none in Hl by done. injection Hl as <- <-. by injection Ho. }
  destruct o as [[[|x l] h]|]; by injection H.
Qed.
Lemma token_passed t name (w w' : world) : no_faults (cw_model w) → check_token t name w = (Ret tt, w') → w' = w ∧
  ∀ k, t ≠ [] → find_by (λ k, at_Token k = t ∧ at_IsActive k = true ∧ at_App k = bs "aigateway") (cw_tokens w) = Some k →
    at_AllowedModels k = [] ∨ name ∈ at_AllowedModels k.
Proof.
  intros Hw. unfold check_token. destruct (decide (t = [])); [by intros [= <-]|]. intros (o & w1 & Hl & H)%ret_bind.
  rewrite lookup_row_none in Hl by done. injection Hl as <- <-. destruct (find_by _ _) as [k|]; [|by injection H as <-].
  destruct (decide (at_AllowedModels k ≠ [] ∧ name ∉ at_AllowedModels k)) as [|Hn]; [done|]. injection H as <-. split; [done|]. intros k' _ [= <-].
  destruct (decide (at_AllowedModels k = [])); [by left|]. right. apply dec_stable. naive_solver.
Qed.
Lemma balance_passed stream name m (w w' : world) : no_faults (cw_model w) → check_balance stream name m w = (Ret tt, w') → w' = w ∧
  ∀ mw, no_faults mw → mw_tables mw = mw_tables (cw_model w) → CheckBalance (cfg_ChargingEnable config) name m mw = (Ret tt, mw).
Proof.
  intros Hw (r & w1 & Ho & H)%ret_bind. unfold on_model in Ho. rewrite CheckBalance_decides in Ho by done.
  assert (∀ mw, no_faults mw → mw_tables mw = mw_tables (cw_model w) → CheckBalance (cfg_ChargingEnable config) name m mw =
    ((CheckBalance (cfg_ChargingEnable config) name m (cw_model w)).1, mw)) as Hmw.
  { intros mw Hn Ht. rewrite !CheckBalance_decides by done. by rewrite Ht. }
  rewrite CheckBalance_decides in Hmw by done. cbn [fst] in Hmw.
  destruct (match find_by _ _ with Some _ => _ | None => _ end) as [[]|e|]; [|by injection Ho as <- <-|done].
  injection Ho as <- <-. injection H as <-. split; [by destruct w|exact Hmw].
Qed.
Lemma prompts_passed ms key (w w' : world) : check_prompts ms key w = (Ret tt, w') →
  ∃ result mm, mod_CheckChatPrompts (mod_message <$> default [] ms) key (cw_mod w) = (Ret result, mm) ∧ IsSensitive result = false.
Proof.
  intros (r & w1 & Ho & H)%ret_bind. unfold on_mod in Ho. destruct (mod_CheckChatPrompts _ key (cw_mod w)) as [[result|e|] mm]; [|by injection Ho as <- <-|done].
  injection Ho as <- <-. destruct (IsSensitive result) eqn:Hs; [done|]. by exists result, mm.
Qed.
Lemma send_model r target host m (w w' : world) fw : send r target host m w = (Ret fw, w') → fw_model fw = m.
Proof.
  unfold GwChat.send. case_decide.
  - unfold send_fallback, mbind, io_bind, io_gets. destruct (proxyWithFallback _ _ _ _ _ _ _ _ _). intros [= <- _]. done.
  - unfold send_direct, mbind, io_bind, io_modify. destruct (decide _); destruct (url_ok target); by intros [= <- _].
Qed.

(** C8: without database failures a request goes upstream only for a model
    the user's lookup returns, with a key that allows the model's name, with a
    balance check that passes, and after the moderation component has accepted
    every prompt, an injected skill's included. *)
Theorem forwarded_only_when_checked bind_error username userUUID accessToken data (w w' : world) fw counter : no_faults (cw_model w) →
  Chat bind_error username userUUID accessToken data w = (Ret (fw, counter), w') →
  ∃ r0 r name svc, UnmarshalRequest lib data = Some r0 ∧
    (r = r0 ∨ ∃ k, k ∈ cw_skills w ∧ sk_Enabled k = true ∧ r = inject lib k r0) ∧
    model_id_From (rq_Model r) = Some (name, svc) ∧
    (∃ mw, GetModelByID scan_order sort_priority range_order username (rq_Model r) (cw_model w) = (Ret (Some (fw_model fw)), mw)) ∧
    (∀ k, accessToken ≠ [] → find_by (λ k, at_Token k = accessToken ∧ at_IsActive k = true ∧ at_App k = bs "aigateway") (cw_tokens w) = Some k →
       at_AllowedModels k = [] ∨ name ∈ at_AllowedModels k) ∧
    (∀ mw, no_faults mw → mw_tables mw = mw_tables (cw_model w) → CheckBalance (cfg_ChargingEnable config) username (fw_model fw) mw = (Ret tt, mw)) ∧
    ∃ result mm, mod_CheckChatPrompts (mod_message <$> default [] (rq_Messages r)) (userUUID ++ bs ":" ++ rq_Model r) (cw_mod w) = (Ret result, mm) ∧
      IsSensitive result = false.
Proof.
  intros Hw. unfold GwChat.Chat. destruct (UnmarshalRequest lib data) as [r0|]; [|done].
  intros (r & w1 & Hs & H)%ret_bind. apply skill_passed in Hs as ((Hw1 & Ht1 & Hk1 & Hm1) & Hr & Hmw1); [|done].
  apply ret_bind in H as (m & w2 & Hf & H). apply find_passed in Hf as ((Hw2 & Ht2 & Hk2 & Hm2) & mw & Hget); [|done].
  apply ret_bind in H as ([target host] & w3 & Ht & H). apply target_passed in Ht as ->; [|done].
  destruct (model_id_From (rq_Model r)) as [[name svc]|] eqn:Hid; [|done].
  apply ret_bind in H as ([] & w4 & Hk & H). apply token_passed in Hk as [-> Hk]; [|done].
  apply ret_bind in H as ([] & w5 & Hb & H). apply balance_passed in Hb as [-> Hb]; [|done].
  apply ret_bind in H as ([] & w6 & Hp & H). apply prompts_passed in Hp as (result & mm & Hp & Hsens).
  apply ret_bind in H as (fw' & w7 & Hsend & H). injection H as <- _ _. apply send_model in Hsend as Hfm.
  exists r0, r, name, svc. rewrite Hfm. split_and!; [done|done|done| | | |].
  - exists mw. by rewrite <-Hmw1.
  - intros k. rewrite <-Hk1, <-Hk2. apply Hk.
  - intros mw' Hn Ht. apply Hb; [done|]. by rewrite Ht, Ht2, Ht1.
  - exists result, mm. split; [|done]. rewrite <-Hm1, <-Hm2. unfold default_max_tokens, address in Hp. by destruct (_ && _).
Qed.

(** ** What is sent *)

Lemma try_bodies cfg body direct eps : ∀ p st, ∃ outs,
  sent (try_endpoints unicode_lower ParseRequestURI url_ok serve cfg body direct p eps st).2 = sent st ++ outs ∧
  Forall (λ o, og_body o = body) outs ∧
  (∀ ep rest, eps = ep :: rest → url_ok (ep_url ep) = true → ∃ o outs', outs = o :: outs' ∧ og_provider o = ep_provider ep ∧ og_target o = ep_url ep).
Proof.
  induction eps as [|ep rest IH]; intros p st; cbn [try_endpoints]; [exists []; rewrite app_nil_r; by split_and!|].
  set (h := injectAuthHeaders unicode_lower cfg (ep_provider ep) (ep_url ep) (ep_authHead ep) (q_headers st)).
  destruct (url_ok (ep_url ep)) eqn:Hu; cbn [negb].
  - set (o := request_to ParseRequestURI cfg body ep h). cbn [sent client]. destruct (serve (sent st) o) as [a in_time].
    destruct (decide (rest = [] ∨ direct = true)); cbn [snd sent client].
    { exists [o]. split_and!; [done|by repeat constructor|]. intros ? ? [= <- <-] _. by exists o, []. }
    destruct (negb in_time || isServerError a); cbn [snd sent client].
    + destruct (IH p (mk_state h (sent st ++ [o]) (client st))) as (outs & -> & Hall & _). exists (o :: outs). cbn [sent]. rewrite <-(assoc_L (++)).
      split_and!; [done|by constructor|]. intros ? ? [= <- <-] _. by exists o, outs.
    + exists [o]. split_and!; [done|by repeat constructor|]. intros ? ? [= <- <-] _. by exists o, [].
  - destruct (IH p (mk_state h (sent st) (client st))) as (outs & Hs & Hall & _). exists outs. split_and!; [done..|]. intros ? ? [= <- <-] Hok. congruence.
Qed.

(** A model of Anthropic that has fallbacks is sent the OpenAI body as it
    is: the body built for Anthropic - system messages moved to the top level -
    is only sent to a model without fallbacks. *)
Theorem anthropic_fallback_gets_openai_body r target host m (w : world) : is_anthropic m = true → url_ok (mo_Endpoint m) = true → url_ok target = true →
  ∃ fw w' o, send r target host m w = (Ret fw, w') ∧ sent (cw_route w') !! length (sent (cw_route w)) = Some o ∧ og_provider o = bs "anthropic" ∧
    og_body o = (if decide (mo_Fallbacks m = []) then buildAnthropicBody lib r else MarshalRequest lib r).
Proof.
  intros Ha Hu Ht. pose proof Ha as [Hsvc Hprov]%bool_decide_eq_true. unfold GwChat.send. rewrite Ha. destruct (decide (mo_Fallbacks m = [])) as [Hfb|Hfb].
  - rewrite decide_False by naive_solver. unfold send_direct. rewrite decide_True by done. rewrite Ht. cbn [negb].
    unfold mbind, io_bind, io_modify. eexists _, _, _. split; [reflexivity|]. cbn [cw_route set_route sent]. split; [by apply list_lookup_middle|]. by rewrite Hprov.
  - rewrite decide_True by done. unfold send_fallback, mbind, io_bind, io_gets, proxyWithFallback.
    pose proof (try_bodies (cfg_Keys config) (MarshalRequest lib r) (bool_decide (Fallbacks (route_model m) = []))
      (take (Z.to_nat (max_attempts 2)) (endpoints_of (route_model m))) (Provider (route_model m)) (cw_route w)) as (outs & Hs & Hall & Hhead).
    destruct (try_endpoints _ _ _ _ _ _ _ _ _ _) as [p st]. cbn [snd] in Hs. eexists _, _.
    destruct (Hhead _ _ eq_refl Hu) as (o & outs' & -> & Hp & _). exists o. split; [reflexivity|]. cbn [cw_route set_route]. rewrite Hs.
    split; [by apply list_lookup_middle|]. apply Forall_cons in Hall as [Hb _]. split; [by rewrite Hp|done].
Qed.

(** A provider's model taken from the cache is sent to its first endpoint
    only: the client is given that endpoint's answer, a server error included,
    though the listed model has fallbacks. *)
Theorem cached_model_never_falls_back r target host m (w : world) : mo_SvcName m = [] → mo_Fallbacks m ≠ [] → url_ok target = true →
  ∃ fw w' o, send r target host (cache_image m) w = (Ret fw, w') ∧ fw_fallback fw = false ∧
    sent (cw_route w') = sent (cw_route w) ++ [o] ∧ og_target o = target ∧
    client (cw_route w') = Some (mo_Provider m, (serve (sent (cw_route w)) o).1).
Proof.
  intros Hsvc Hfb Ht. unfold GwChat.send. cbn [cache_image mo_Fallbacks mo_SvcName]. rewrite decide_False by naive_solver. unfold send_direct.
  cbn [mo_SvcName]. rewrite decide_True by done. rewrite Ht. cbn [negb]. unfold mbind, io_bind, io_modify. eexists _, _, _.
  split; [reflexivity|]. by split_and!.
Qed.

(** A system message whose content is not a string is dropped from the body
    built for Anthropic. *)
Lemma system_parts_dropped r ms1 m ms2 : rq_Messages r = Some (ms1 ++ m :: ms2) → is_system lib m = true → system_text lib m = None →
  buildAnthropicBody lib r = buildAnthropicBody lib (mk_req (rq_Model r) (Some (ms1 ++ ms2)) (rq_ToolChoice r) (rq_Tools r) (rq_Temperature r) (rq_MaxTokens r)
    (rq_Stream r) (rq_StreamOptions r) (rq_Skill r) (rq_RawJSON r)).
Proof.
  intros Hm Hs Ht. unfold buildAnthropicBody. rewrite Hm. cbn [rq_Messages rq_Model rq_MaxTokens rq_Stream rq_Temperature]. change (default [] (Some ?x)) with x.
  rewrite !filter_app, !filter_cons. rewrite (decide_True (P := is_system lib m = true)) by done. rewrite (decide_False (P := is_system lib m = false)) by congruence.
  rewrite !omap_app. cbn [omap list_omap]. by rewrite Ht.
Qed.
End chat.

(** A colon in a provider's model name starts a service name: the model asked
    for upstream is another one. *)
Lemma colon_in_name_dropped : model_id_From (bs "deepseek/deepseek-r1:free") = Some (bs "deepseek/deepseek-r1", bs "free").
Proof. vm_compute. reflexivity. Qed.
