(* ===== verification/GwExample.v ===== *)
(** Concrete runs of the gateway's models, cache and handlers: each general
    theorem at an input where its hypotheses hold. *)
From Stdlib Require Import Sorting.Sorted.
From S2P Require Import Prelude GoLib GoFloat GoJson GoJsonText Sensitive Accounting GoHash GwModeration GwStream GwRoute GwToken GwModels GwModelsSpec GwListing GwTokenSpec GwRequest GwRequestSpec GwChat GwChatSpec.
Open Scope Z_scope.

(** ** A gateway *)

(** Alice deploys a private inference endpoint; Bob has none. *)
Definition alice : user := mk_user 1 (bs "uuid-a") (bs "alice") f0.
Definition bob : user := mk_user 2 (bs "uuid-b") (bs "bob") f0.
Definition private_deploy : deploy :=
  mk_deploy Running InferenceType 1 7 EndpointPrivate 1700000000 (bs "--tool-call-parser x") (bs "text-generation") (bs "c1") (bs "svc-1") (bs "vllm-local:1") (bs "http://svc-1.app").
Definition gpt : llm_row := mk_row 16 (bs "gpt") (bs "openai") (bs "https://api.openai.com/v1/chat/completions") (bs "{}") 0 true.
Definition gpt_backup : llm_row := mk_row 16 (bs "gpt") (bs "openrouter") (bs "https://openrouter.ai/api/v1/chat/completions") (bs "{}") 1 true.
Definition ex_tables : tables :=
  mk_tables [alice; bob] [mk_repo 7 (bs "alice/llm") []] [private_deploy] [gpt_backup; gpt] [] (λ _, f0) (λ _, float_of_Z 5) (λ _, f0).
Definition ex_world : model_world := mk_mw ex_tables None [] [] (mk_tok []) [].

Definition ex_scan (page : Z) (l : list llm_row) : list llm_row := l.
Fixpoint insert_priority (c : llm_row) (l : list llm_row) : list llm_row :=
  match l with [] => [c] | d :: rest => if decide (cf_priority c ≤ cf_priority d) then c :: l else d :: insert_priority c rest end.
Definition ex_sort (l : list llm_row) : list llm_row := foldr insert_priority [] l.
Definition ex_range (l : list (bytes * list llm_row)) : list (bytes * list llm_row) := l.

Lemma insert_priority_perm c l : insert_priority c l ≡ₚ c :: l.
Proof. induction l as [|d l IH]; [done|]. cbn [insert_priority]. case_decide; [done|]. rewrite IH. apply perm_swap. Qed.
Lemma ex_sort_perm l : ex_sort l ≡ₚ l.
Proof. induction l as [|c l IH]; [done|]. cbn [ex_sort foldr]. rewrite insert_priority_perm. by apply perm_skip. Qed.
Lemma insert_priority_sorted c l : StronglySorted (λ a b, cf_priority a ≤ cf_priority b) l → StronglySorted (λ a b, cf_priority a ≤ cf_priority b) (insert_priority c l).
Proof.
  induction 1 as [|d l Hl IH Hd]; [by repeat constructor|]. cbn [insert_priority]. case_decide as Hcd.
  - constructor; [by constructor|]. constructor; [done|]. eapply Forall_impl; [exact Hd|]. intros e ?. cbn in *. lia.
  - constructor; [done|]. rewrite insert_priority_perm. constructor; [lia|done].
Qed.
Lemma ex_sort_sorted l : StronglySorted (λ a b, cf_priority a ≤ cf_priority b) (ex_sort l).
Proof. induction l as [|c l IH]; [constructor|]. by apply insert_priority_sorted. Qed.

(** ** The model component *)

Definition alice_id : bytes := bs "alice/llm:svc-1".
Definition ex_req : ListModelsReq := mk_lreq [] [] [] [].
Definition listed_world : model_world := (ListModels ex_scan ex_sort ex_range (λ r, r) (bs "alice") ex_req ex_world).2.
Definition ex_models : list Model := default [] (mw_saves listed_world !! 0%nat).
Definition saved_world : model_world := (saveModelsToCache ex_models (take_save 0 listed_world)).2.
Definition private_model : Model := default (mk_mo [] [] 0 [] [] false None false [] [] [] [] 0 [] [] [] [] false []) (head ex_models).

(** Alice lists, the save runs, and Bob gets her private model. *)
Lemma resolved_model_was_listed_witness : ∃ m,
  GetModelByID ex_scan ex_sort ex_range (bs "bob") alice_id saved_world = (Ret (Some m), saved_world) ∧
  mo_Endpoint m = bs "http://svc-1.app" ∧ mo_Public m = false ∧
  ((mo_ID m = alice_id ∧ available ex_scan ex_sort ex_range saved_world (bs "bob") m) ∨
   (∃ w1 u' m0, rtc (model_step ex_scan ex_sort ex_range (λ r, r)) ex_world w1 ∧ rtc (model_step ex_scan ex_sort ex_range (λ r, r)) w1 saved_world ∧
      available ex_scan ex_sort ex_range w1 u' m0 ∧ mo_ID m0 = alice_id ∧ (well_formed m0 → m = cache_image m0))).
Proof.
  assert (GetModelByID ex_scan ex_sort ex_range (bs "bob") alice_id saved_world = (Ret (Some (cache_image private_model)), saved_world)) as Hget by (vm_compute; reflexivity).
  eexists. split; [exact Hget|]. split; [vm_compute; reflexivity|]. split; [vm_compute; reflexivity|].
  refine (resolved_model_was_listed ex_scan ex_sort ex_range (λ r, r) ex_world saved_world (bs "bob") alice_id _ saved_world _ _ Hget); [by split|].
  eapply rtc_l; [exact (step_list _ _ _ _ ex_world (bs "alice") ex_req)|]. eapply rtc_l; [|apply rtc_refl].
  apply (step_save _ _ _ _ listed_world 0 ex_models). vm_compute. reflexivity.
Defined.

Lemma private_model_well_formed : well_formed private_model.
Proof. split; [vm_compute; split; [discriminate|reflexivity]|]. repeat (apply Forall_cons; split; [vm_compute; reflexivity|]). apply Forall_nil. done. Qed.

Lemma saved_models_serve_anyone_witness : no_faults ex_world ∧ ∃ w', saveModelsToCache ex_models ex_world = (Ret tt, w') ∧
  GetModelByID ex_scan ex_sort ex_range (bs "bob") (mo_ID private_model) w' = (Ret (Some (cache_image private_model)), w').
Proof.
  split; [done|]. destruct (saved_models_serve_anyone ex_scan ex_sort ex_range ex_models private_model ex_world) as (w' & Hs & Hu).
  - done.
  - apply list_elem_of_lookup_2 with 0%nat. vm_compute. reflexivity.
  - apply (bool_decide_unpack _). vm_compute. exact I.
  - exact private_model_well_formed.
  - exists w'. split; [exact Hs|exact (Hu (bs "bob"))].
Defined.

Lemma external_models_listed_witness : ∃ models fs, getExternalModels ex_scan ex_sort ex_range ex_world = (Ret models, set_faults fs ex_world).
Proof. apply (external_models_listed ex_scan ex_sort ex_range (λ _ _, reflexivity _) ex_sort_perm (λ _, reflexivity _) ex_world). Defined.

Lemma external_models_complete_witness : no_faults ex_world ∧
  ∃ models, getExternalModels ex_scan ex_sort ex_range ex_world = (Ret models, ex_world) ∧ NoDup (mo_ID <$> models) ∧ bs "gpt" ∈ mo_ID <$> models.
Proof.
  split; [done|].
  destruct (external_models_complete ex_scan ex_sort ex_range ex_sort_perm ex_sort_sorted (λ _, reflexivity _) ex_world) as (models & Hr & Hd & Hn).
  - done.
  - done.
  - exists models. split; [exact Hr|]. split; [exact Hd|]. apply (Hn (bs "gpt")). vm_compute. discriminate.
Defined.

Lemma pages_partition_witness : page_data ex_models 1 2 = ex_models.
Proof. apply (pages_partition ex_models 1 2); vm_compute; try split; try discriminate; try reflexivity; lia. Defined.

(** ** Metering *)

Definition three_tokens : tio TokenUsage := mret (mk_tu 3 2 1).
Definition serverless_model : Model :=
  mk_mo (bs "org/llm:svc-2") (bs "model") 0 (bs "OpenCSG") [] false None true (bs "org/llm") (bs "uuid-a") (bs "c1") (bs "svc-2") ServerlessType [] [] [] (bs "http://svc-2.app") false [].

Lemma cached_usage_unattributed_witness : ∃ w', RecordUsage (bs "uuid-b") (cache_image serverless_model) three_tokens [] (bs "id") 0 ex_world = (Ret tt, w') ∧
  ev_ResourceID <$> last (mw_events w') = Some [] ∧ ev_Value <$> last (mw_events w') = Some 3.
Proof.
  destruct (cached_usage_unattributed (bs "uuid-b") serverless_model three_tokens [] (bs "id") 0 (mk_tu 3 2 1) ex_world) as [_ Hr].
  - by intros t.
  - done.
  - done.
  - done.
  - done.
  - eexists. split; [exact Hr|]. by split.
Defined.

(** A vLLM engine that counts five tokens in every text. *)
Definition five (_ : tok_call) : bytes := bs "{" ++ jstr "count" ++ bs ":5}".
Definition vllm : option Tokenizer := NewTokenizerImpl (λ _ c, Ok (five c)) (bs "http://e") (bs "h") (bs "m") (bs "x/vllm-local:1").
Lemma chat_usage_is_reference_witness :
  let l := AppendPrompts [mk_prompt (Some (bs "user")) (PString (bs "hi")); mk_prompt (Some (bs "user")) (PString (bs "there"))] (NewLLMTokenCounter vllm) in
  ∃ asked, length asked = 2%nat ∧ chatUsage l (mk_tok []) = (Ret (mk_tu 13 13 0), mk_tok asked).
Proof.
  eexists. split; [|apply (chat_usage_is_reference (newVllmTokenizerImpl (λ _ c, Ok (five c)) (bs "http://e") (bs "h") (bs "m")) _ _
    (engine_counts five (bs "http://e") (bs "h") (VllmGPUTokenizeReq (bs "m")) VllmGPUTokenizeResponse (λ c, ex_intro _ 5 eq_refl))
    (AppendPrompts [mk_prompt (Some (bs "user")) (PString (bs "hi")); mk_prompt (Some (bs "user")) (PString (bs "there"))] (NewLLMTokenCounter vllm)) [])].
  - reflexivity.
  - reflexivity.
  - by repeat constructor.
Defined.

(** ** The handlers *)

(** The library's values as JSON. *)
Definition ex_list (l : list json) : option (option (list json)) :=
  foldl (λ acc v, _ ← acc; match v with JArr xs => Some (Some xs) | JNull => Some None | _ => None end) (Some None) l.
Definition ex_lib : openai_lib json json json :=
  mk_lib json json json ex_list ex_list (λ l, Some (last l)) id id id (λ s, JObj [(bs "role", JStr (bs "system")); (bs "content", JStr s)]) (FormatFixed 2).
Definition user_message (s : string) : json := JObj [(bs "role", JStr (bs "user")); (bs "content", JStr (bs s))].
Definition ex_body (model : string) (extra : list (bytes * json)) : bytes :=
  marshal (JObj ([(bs "model", JStr (bs model)); (bs "messages", JArr [user_message "hello"])] ++ extra)).

(** A request with an unknown field, as it is sent on under another name. *)
Definition topped : list (bytes * json) := [(bs "top_k", JNum (bs "3")); (bs "skill", JStr (bs "s1"))].
Definition topped_request : ChatCompletionRequest json json json :=
  default (mk_req [] None None None (S754_zero false) 0 false None [] ∅) (UnmarshalRequest ex_lib (ex_body "gpt" topped)).
Definition renamed_request : ChatCompletionRequest json json json :=
  mk_req (bs "gpt-4") (rq_Messages topped_request) None None (S754_zero false) 4096 false None (rq_Skill topped_request) (rq_RawJSON topped_request).
Lemma forwarded_fields_witness :
  raw_map (request_json ex_lib renamed_request) !! bs "top_k" = Some (JNum (bs "3")) ∧
  raw_map (request_json ex_lib renamed_request) !! bs "model" = Some (JStr (bs "gpt-4")) ∧
  raw_map (request_json ex_lib renamed_request) !! bs "skill" = Some (JStr (bs "s1")).
Proof.
  destruct (forwarded_fields ex_lib (ex_body "gpt" topped) topped_request renamed_request
    (JObj ([(bs "model", JStr (bs "gpt")); (bs "messages", JArr [user_message "hello"])] ++ topped))
    (JObj ([(bs "model", JStr (bs "gpt")); (bs "messages", JArr [user_message "hello"])] ++ topped))) as (Hu & Hk & Hs).
  - vm_compute. reflexivity.
  - vm_compute. reflexivity.
  - reflexivity.
  - reflexivity.
  - split_and!.
    + rewrite Hu; [vm_compute; reflexivity|apply (bool_decide_unpack _); vm_compute; exact I|done].
    + rewrite Hk; [vm_compute; reflexivity|apply (bool_decide_unpack _); vm_compute; exact I].
    + apply Hs. vm_compute. reflexivity.
Defined.

(** Two requests that differ in their token limit and tools share a reply. *)
Definition q_short : http_request := mk_hreq true (Some (ex_body "gpt" [])) [].
Definition q_long : http_request := mk_hreq true (Some (ex_body "gpt" [(bs "max_tokens", JNum (bs "9000")); (bs "tools", JArr [JObj []])])) [].
Definition r_short : ChatCompletionRequest json json json := default renamed_request (UnmarshalRequest ex_lib (ex_body "gpt" [])).
Definition r_long : ChatCompletionRequest json json json :=
  default renamed_request (UnmarshalRequest ex_lib (ex_body "gpt" [(bs "max_tokens", JNum (bs "9000")); (bs "tools", JArr [JObj []])])).
Definition ex_reply : response := mk_resp 200 {[bs "Content-Type" := [bs "application/json"]]} (bs "{}").
Definition stored_reply : bytes := marshal_entry 200 (bs "application/json") (bs "{}").
Lemma cached_reply_ignores_the_rest_witness :
  Middleware ex_lib true (λ _, None) q_short (λ _ n, (ex_reply, S n)) ∅ 0%nat = (ex_reply, 1%nat, Some (buildCacheKey ex_lib r_short, stored_reply)) ∧
  Middleware ex_lib true (λ _, Some stored_reply) q_long (λ _ n, (ex_reply, S n)) ∅ 7%nat =
    (mk_resp 200 (<[bs "Content-Type" := [bs "application/json"]]> (<[bs "X-Cache" := [bs "HIT"]]> ∅)) (bs "{}"), 7%nat, None).
Proof.
  assert (cacheable ex_lib q_short r_short) as Hc1.
  { split_and!; [done|vm_compute; discriminate|vm_compute; reflexivity|]. eexists. split; [reflexivity|vm_compute; reflexivity]. }
  assert (cacheable ex_lib q_long r_long) as Hc2.
  { split_and!; [done|vm_compute; discriminate|vm_compute; reflexivity|]. eexists. split; [reflexivity|vm_compute; reflexivity]. }
  destruct (cached_reply_ignores_the_rest (S1 := nat) (S2 := nat) ex_lib (λ _, None) (λ _, Some stored_reply)
    q_short q_long r_short r_long (λ _ n, (ex_reply, S n)) (λ _ n, (ex_reply, S n)) ∅ ∅ 0%nat 7%nat ex_reply 1%nat Hc1 Hc2) as [H1 H2].
  1-10: first [reflexivity|vm_compute; reflexivity|split; vm_compute; [discriminate|reflexivity]|vm_compute; discriminate].
  split; [exact H1|]. apply H2. vm_compute. reflexivity.
Defined.

(** A chat request of Bob's for the provider's model, moderated by a service
    that passes everything, and one refused by his key. *)
Definition ex_moderation : Moderation mod_world := moderation_of (mk_impl (Some (λ _ _, pass)) false false).
Definition ex_config : gateway_config := mk_cfg (bs "https://hub") true (mk_keys [] (bs "sk-1") [] []).
Definition ex_chat_world : @chat_world mod_world :=
  mk_cw ex_world (mk_mod ∅ [] []) [] [mk_token (bs "tok") (bs "aigateway") true [bs "llama"]] [] [] [] (mk_state ∅ [] None) [].
Definition ex_Chat (accessToken : bytes) : io (@chat_world mod_world) reply (forwarded * chatTokenCounter) :=
  @Chat mod_world ex_moderation json json json ex_lib (λ j, mk_message (Some (bs "user")) (COther j)) (λ j, mk_prompt (Some (bs "user")) POther) (λ r, r)
    (λ _, Some (bs "/v1/chat/completions")) (λ _, true) Some (λ _ _, (mk_answer 200 ∅ (bs "{}"), true)) (λ _, []) ex_scan ex_sort ex_range (λ _ _, Err [])
    ex_config (bs "EOF") (bs "bob") (bs "uuid-b") accessToken (ex_body "gpt" []).

Lemma refused_sends_nothing_witness : ∃ r w', ex_Chat (bs "tok") ex_chat_world = (Fail r, w') ∧ r = not_allowed (bs "gpt") ∧ outcome_of w' = outcome_of ex_chat_world.
Proof.
  set (r := ex_Chat (bs "tok") ex_chat_world). assert (r = (Fail (not_allowed (bs "gpt")), r.2)) as Hr by (vm_compute; reflexivity).
  exists (not_allowed (bs "gpt")), r.2. split; [exact Hr|]. split; [done|]. eapply refused_sends_nothing. exact Hr.
Defined.

Lemma forwarded_only_when_checked_witness : ∃ fw counter w', ex_Chat [] ex_chat_world = (Ret (fw, counter), w') ∧ mo_ID (fw_model fw) = bs "gpt" ∧
  CheckBalance true (bs "bob") (fw_model fw) ex_world = (Ret tt, ex_world).
Proof.
  destruct (ex_Chat [] ex_chat_world) as [[[fw counter]|e|] w'] eqn:Hr; [|exfalso; by vm_compute in Hr..].
  exists fw, counter, w'. split; [done|]. pose proof Hr as Hr2. eapply forwarded_only_when_checked in Hr2 as (r0 & r & name & svc & Hu & Hor & Hid & Hg & Hk & Hb & Hp); [|done].
  split; [vm_compute in Hr; injection Hr as <- _ _; reflexivity|]. by apply Hb.
Defined.
