(* ===== verification/Mirror.v ===== *)
(** Mirror tasks: the status machine and the task store
    (builder/store/database/mirror_task.go), the repository worker
    (mirror/reposyncer/repo.go) and the LFS worker (mirror/lfssyncer/lfs.go)
    as far as they drive tasks, and the manager component. Git, object storage
    and messages are inputs: a sync either changes its task and succeeds,
    fails, or panics. *)
From S2P Require Import Prelude GoLib GoFloat.
Open Scope Z_scope.

(** ** common/types/mirror.go *)

Inductive MirrorTaskStatus :=
  | MirrorQueued | MirrorRepoSyncStart | MirrorRepoSyncFailed | MirrorRepoSyncFinished | MirrorRepoSyncFatal
  | MirrorLfsSyncStart | MirrorLfsSyncFailed | MirrorLfsSyncFinished | MirrorLfsSyncFatal | MirrorLfsIncomplete
  | MirrorCanceled | MirrorRepoTooLarge.
#[export] Instance MirrorTaskStatus_eq_dec : EqDecision MirrorTaskStatus.
Proof. solve_decision. Defined.

(** The strings statuses and events are. *)
Definition status_string (s : MirrorTaskStatus) : bytes :=
  bs match s with
  | MirrorQueued => "queued" | MirrorRepoSyncStart => "running" | MirrorRepoSyncFailed => "repo_failed"
  | MirrorRepoSyncFinished => "repo_synced" | MirrorRepoSyncFatal => "repo_fatal" | MirrorLfsSyncStart => "lfs_start"
  | MirrorLfsSyncFailed => "failed" | MirrorLfsSyncFinished => "finished" | MirrorLfsSyncFatal => "fatal"
  | MirrorLfsIncomplete => "incomplete" | MirrorCanceled => "cancelled" | MirrorRepoTooLarge => "too_large"
  end.

Inductive RepositorySyncStatus := SyncStatusPending | SyncStatusInProgress | SyncStatusFailed | SyncStatusCompleted | SyncStatusCanceled.

Definition MirrorTaskStatusToRepoStatus (s : MirrorTaskStatus) : RepositorySyncStatus :=
  match s with
  | MirrorQueued => SyncStatusPending
  | MirrorRepoSyncStart => SyncStatusInProgress
  | MirrorRepoSyncFailed => SyncStatusFailed
  | MirrorRepoSyncFinished => SyncStatusInProgress
  | MirrorRepoSyncFatal => SyncStatusFailed
  | MirrorLfsSyncStart => SyncStatusInProgress
  | MirrorLfsSyncFailed => SyncStatusFailed
  | MirrorLfsSyncFinished => SyncStatusCompleted
  | MirrorLfsSyncFatal => SyncStatusFailed
  | MirrorLfsIncomplete => SyncStatusFailed
  | MirrorCanceled => SyncStatusCanceled
  | MirrorRepoTooLarge => SyncStatusFailed
  end.

Definition LowMirrorPriority : Z := 1.

(** ** The status machine *)

Inductive MirrorEvent := MirrorContinue | MirrorFail | MirrorSuccess | MirrorRetry | MirrorCancel | MirrorFatal | MirrorNoLfsToSync.
#[export] Instance MirrorEvent_eq_dec : EqDecision MirrorEvent.
Proof. solve_decision. Defined.

Definition event_string (e : MirrorEvent) : bytes :=
  bs match e with
  | MirrorContinue => "continue" | MirrorFail => "fail" | MirrorSuccess => "success" | MirrorRetry => "retry"
  | MirrorCancel => "cancel" | MirrorFatal => "fatal" | MirrorNoLfsToSync => "no_lfs_to_sync"
  end.

(** The table: event, sources, destination. *)
Definition fsm_events : list (MirrorEvent * list MirrorTaskStatus * MirrorTaskStatus) := [
  (MirrorContinue, [MirrorQueued], MirrorRepoSyncStart);
  (MirrorRetry, [MirrorRepoSyncFailed; MirrorLfsSyncFailed], MirrorQueued);
  (MirrorNoLfsToSync, [MirrorRepoSyncStart], MirrorLfsSyncFinished);
  (MirrorContinue, [MirrorRepoSyncFinished], MirrorLfsSyncStart);
  (MirrorFail, [MirrorRepoSyncStart], MirrorRepoSyncFailed);
  (MirrorFail, [MirrorLfsSyncStart], MirrorLfsSyncFailed);
  (MirrorFatal, [MirrorRepoSyncFailed], MirrorRepoSyncFatal);
  (MirrorFatal, [MirrorLfsSyncFailed], MirrorLfsSyncFatal);
  (MirrorSuccess, [MirrorRepoSyncStart], MirrorRepoSyncFinished);
  (MirrorSuccess, [MirrorLfsSyncStart], MirrorLfsSyncFinished);
  (MirrorCancel, [MirrorQueued; MirrorRepoSyncStart; MirrorRepoSyncFailed; MirrorRepoSyncFinished; MirrorRepoSyncFatal;
                  MirrorLfsSyncStart; MirrorLfsSyncFailed; MirrorLfsSyncFinished; MirrorLfsSyncFatal], MirrorCanceled)].

(** [SubmitEvent] and then [Current]: the new status, when the event is
    possible (no row of the table stays where it is, which the fsm library
    would report as an error). *)
Definition SubmitEvent (status : MirrorTaskStatus) (event : MirrorEvent) : option MirrorTaskStatus :=
  r ← list_find (λ row : MirrorEvent * list MirrorTaskStatus * MirrorTaskStatus, row.1.1 = event ∧ status ∈ row.1.2) fsm_events;
  Some r.2.2.

(** ** The store *)

(** Go errors as far as the code looks into them: context.Canceled, texts, and
    errors wrapped with %w. *)
Inductive merr := Canceled | Text (s : bytes) | Wrap (prefix : bytes) (e : merr).
Fixpoint Error (e : merr) : bytes :=
  match e with Canceled => bs "context canceled" | Text s => s | Wrap p e => p ++ Error e end.
(** [errors.Is(err, context.Canceled)] *)
Fixpoint is_canceled (e : merr) : bool :=
  match e with Canceled => true | Text _ => false | Wrap _ e => is_canceled e end.

Record MirrorRow := mk_mirror { m_ID : Z; m_RepositoryID : Z; m_CurrentTaskID : Z; m_Priority : Z }.

(** [mt_Mirror] is the loaded relation. *)
Record MirrorTask := mk_mt {
  mt_ID : Z; mt_MirrorID : Z; mt_Mirror : option MirrorRow; ErrorMessage : bytes; Status : MirrorTaskStatus;
  RetryCount : Z; Payload : bytes; Priority : Z; BeforeLastCommitID : bytes; AfterLastCommitID : bytes; Progress : Z;
  UpdatedAt : Z;
}.

Record mirror_world := mk_mw {
  mw_tasks : list MirrorTask;
  mw_mirrors : list MirrorRow;
  mw_repos : gmap Z RepositorySyncStatus; (* sync_status of each repository *)
  mw_faults : list (option merr);
}.

#[export] Program Instance mirror_world_faulty : Faulty mirror_world merr := {|
  get_faults := mw_faults;
  set_faults fs w := mk_mw (mw_tasks w) (mw_mirrors w) (mw_repos w) fs |}.
Next Obligation. by intros []. Qed.

Abbreviation wio := (io mirror_world merr).

Definition set_Status (s : MirrorTaskStatus) (t : MirrorTask) : MirrorTask :=
  mk_mt (mt_ID t) (mt_MirrorID t) (mt_Mirror t) (ErrorMessage t) s (RetryCount t) (Payload t) (Priority t) (BeforeLastCommitID t) (AfterLastCommitID t) (Progress t) (UpdatedAt t).
Definition set_UpdatedAt (now : Z) (t : MirrorTask) : MirrorTask :=
  mk_mt (mt_ID t) (mt_MirrorID t) (mt_Mirror t) (ErrorMessage t) (Status t) (RetryCount t) (Payload t) (Priority t) (BeforeLastCommitID t) (AfterLastCommitID t) (Progress t) now.
Definition set_ErrorMessage (e : bytes) (t : MirrorTask) : MirrorTask :=
  mk_mt (mt_ID t) (mt_MirrorID t) (mt_Mirror t) e (Status t) (RetryCount t) (Payload t) (Priority t) (BeforeLastCommitID t) (AfterLastCommitID t) (Progress t) (UpdatedAt t).
Definition set_RetryCount (n : Z) (t : MirrorTask) : MirrorTask :=
  mk_mt (mt_ID t) (mt_MirrorID t) (mt_Mirror t) (ErrorMessage t) (Status t) n (Payload t) (Priority t) (BeforeLastCommitID t) (AfterLastCommitID t) (Progress t) (UpdatedAt t).
Definition set_Progress (n : Z) (t : MirrorTask) : MirrorTask :=
  mk_mt (mt_ID t) (mt_MirrorID t) (mt_Mirror t) (ErrorMessage t) (Status t) (RetryCount t) (Payload t) (Priority t) (BeforeLastCommitID t) (AfterLastCommitID t) n (UpdatedAt t).
Definition set_Priority (p : Z) (t : MirrorTask) : MirrorTask :=
  mk_mt (mt_ID t) (mt_MirrorID t) (mt_Mirror t) (ErrorMessage t) (Status t) (RetryCount t) (Payload t) p (BeforeLastCommitID t) (AfterLastCommitID t) (Progress t) (UpdatedAt t).
Definition set_Mirror (m : option MirrorRow) (t : MirrorTask) : MirrorTask :=
  mk_mt (mt_ID t) (mt_MirrorID t) m (ErrorMessage t) (Status t) (RetryCount t) (Payload t) (Priority t) (BeforeLastCommitID t) (AfterLastCommitID t) (Progress t) (UpdatedAt t).

(** Rows keep no loaded relations. *)
Definition put_task (now : Z) (task : MirrorTask) (tasks : list MirrorTask) : list MirrorTask :=
  (λ t, if decide (mt_ID t = mt_ID task) then set_UpdatedAt now (set_Mirror None task) else t) <$> tasks.
Definition on_tasks (f : list MirrorTask → list MirrorTask) (w : mirror_world) : mirror_world :=
  mk_mw (f (mw_tasks w)) (mw_mirrors w) (mw_repos w) (mw_faults w).

(** [Relation("Mirror")] *)
Definition load (mirrors : list MirrorRow) (t : MirrorTask) : MirrorTask :=
  set_Mirror (snd <$> list_find (λ m, m_ID m = mt_MirrorID t) mirrors) t.

Definition mt_Update (now : Z) (task : MirrorTask) : wio unit :=
  next_fault;; io_modify (on_tasks (put_task now task)).

(** One transaction; the repository is reached through the loaded mirror. *)
Definition UpdateStatusAndRepoSyncStatus (now : Z) (task : MirrorTask) (syncStatus : RepositorySyncStatus) : wio unit :=
  next_fault;;
  match mt_Mirror task with
  | None => λ w, (Panic, w)
  | Some m => io_modify (λ w, mk_mw (put_task now task (mw_tasks w)) (mw_mirrors w)
                (match mw_repos w !! m_RepositoryID m with Some _ => <[m_RepositoryID m := syncStatus]> (mw_repos w) | None => mw_repos w end)
                (mw_faults w))
  end.

Definition mt_FindByID (id : Z) : wio MirrorTask :=
  next_fault;; ts ← io_gets mw_tasks; ms ← io_gets mw_mirrors;
  match list_find (λ t, mt_ID t = id) ts with
  | Some (_, t) => mret (load ms t)
  | None => io_fail (Text (bs "sql: no rows in result set"))
  end.

(** [ORDER BY priority DESC, updated_at DESC]; among equals the first. *)
Definition better (a b : MirrorTask) : bool :=
  bool_decide (Priority b < Priority a ∨ Priority a = Priority b ∧ UpdatedAt b < UpdatedAt a).
Fixpoint highest (tasks : list MirrorTask) : option MirrorTask :=
  match tasks with
  | [] => None
  | t :: rest => match highest rest with Some u => if better u t then Some u else Some t | None => Some t end
  end.

(** One transaction. *)
Definition GetHighestPriorityByTaskStatus (now : Z) (statuses : list MirrorTaskStatus) : wio MirrorTask :=
  let statuses := match statuses with [] => [MirrorQueued] | _ => statuses end in
  next_fault;; ts ← io_gets mw_tasks; ms ← io_gets mw_mirrors;
  match highest (filter (λ t, Status t ∈ statuses) ts) with
  | None => io_fail (Text (bs "sql: no rows in result set"))
  | Some task =>
      match SubmitEvent (Status task) MirrorContinue with
      | None => io_fail (Text (bs "mirror task status not allow to continue"))
      | Some s =>
          let task := set_Status s task in
          io_modify (λ w, mk_mw (put_task now task (mw_tasks w))
            ((λ m, if decide (m_ID m = mt_MirrorID task) then mk_mirror (m_ID m) (m_RepositoryID m) (mt_ID task) (m_Priority m) else m) <$> mw_mirrors w)
            (mw_repos w) (mw_faults w));;
          mret (set_UpdatedAt now (load ms task))
      end
  end.

(** One transaction: all tasks of the mirror are canceled; the new task's row
    is inserted. *)
Definition CancelOtherTasksAndCreate (now new_id : Z) (task : MirrorTask) : wio MirrorTask :=
  next_fault;;
  let row := mk_mt new_id (mt_MirrorID task) None (ErrorMessage task) (Status task) (RetryCount task) (Payload task) (Priority task)
               (BeforeLastCommitID task) (AfterLastCommitID task) (Progress task) now in
  io_modify (on_tasks (λ ts, ((λ t, if decide (mt_MirrorID t = mt_MirrorID task) then set_Status MirrorCanceled t else t) <$> ts) ++ [row]));;
  mret row.

Definition ResetRunningTasks (fromStatus toStatus : MirrorTaskStatus) : wio Z :=
  next_fault;; ts ← io_gets mw_tasks;
  io_modify (on_tasks (λ ts, (λ t, if decide (Status t = fromStatus) then set_Status toStatus t else t) <$> ts));;
  mret (len (filter (λ t, Status t = fromStatus) ts)).

(** ** reposyncer/repo.go *)

Definition specificErrorMsg : bytes := bs "rate limit".

(** What a sync did: it panicked, or changed the task and perhaps failed. *)
Inductive sync_result := SyncPanic | Synced (mt : MirrorTask) (err : option merr).

Definition repo_action (MaxRetryCount : Z) (mt : MirrorTask) (err : option merr) : MirrorTask * MirrorEvent :=
  match err with
  | Some e =>
      let mt := set_ErrorMessage (Error e) mt in
      if Contains (Error e) specificErrorMsg then
        let mt := set_RetryCount (RetryCount mt + 1) mt in
        (mt, if decide (MaxRetryCount < RetryCount mt) then MirrorFatal else MirrorRetry)
      else (mt, MirrorFail)
  | None => (mt, if decide (Progress mt = 100) then MirrorNoLfsToSync else MirrorSuccess)
  end.

(** [found] is whether the mirror was found; errors are logged. *)
Definition handleTask (MaxRetryCount now : Z) (found : bool) (SyncRepo : MirrorTask → sync_result) (mt : MirrorTask) : wio unit :=
  if negb found then mret tt
  else
    match SyncRepo mt with
    | SyncPanic => λ w, (Panic, w)
    | Synced mt err =>
        let '(mt, statusAction) := repo_action MaxRetryCount mt err in
        match SubmitEvent (Status mt) statusAction with
        | None => mret tt
        | Some s =>
            let mt := set_Status s mt in
            io_try (UpdateStatusAndRepoSyncStatus now mt (MirrorTaskStatusToRepoStatus s));; mret tt
        end
    end.

(** A worker catches a panic and starts again. *)
Definition recover (m : wio unit) : wio unit := λ w, match m w with (Panic, w') => (Ret tt, w') | r => r end.

(** One round: the dispatcher takes a task, a worker handles it. *)
Definition repo_round (MaxRetryCount now : Z) (found : bool) (SyncRepo : MirrorTask → sync_result) : wio unit :=
  r ← io_try (GetHighestPriorityByTaskStatus now [MirrorQueued]);
  match r with
  | Err _ => mret tt
  | Ok task => if decide (mt_ID task = 0) then mret tt else recover (handleTask MaxRetryCount now found SyncRepo task)
  end.


(** ** The process *)

(** What goes on besides a round: further rounds, the LFS manager taking a
    task, and its reset of running tasks when it starts. *)
Inductive mirror_step :=
  | RepoRound (MaxRetryCount now : Z) (found : bool) (SyncRepo : MirrorTask → sync_result)
  | LfsDispatch (now : Z)
  | ManagerStart.
Definition run_step (s : mirror_step) : wio unit :=
  match s with
  | RepoRound max now found sync => repo_round max now found sync
  | LfsDispatch now => io_try (GetHighestPriorityByTaskStatus now [MirrorRepoSyncFinished]);; mret tt
  | ManagerStart => io_try (ResetRunningTasks MirrorLfsSyncStart MirrorRepoSyncFinished);; mret tt
  end.
Fixpoint run_steps (l : list mirror_step) : wio unit :=
  match l with [] => mret tt | s :: l => run_step s;; run_steps l end.

(** * How mirror tasks move: which task a dispatcher takes, how a round settles
    it, and where tasks get stuck. *)

(** ** The choice of a task *)

Lemma better_trans a b c : better b a = false → better c b = false → better c a = false.
Proof. unfold better. rewrite !bool_decide_eq_false. lia. Qed.
Lemma better_asym a b : better a b = true → better b a = false.
Proof. unfold better. rewrite bool_decide_eq_true, bool_decide_eq_false. lia. Qed.

Lemma highest_Some l t : highest l = Some t → t ∈ l ∧ ∀ u, u ∈ l → better u t = false.
Proof.
  assert (Hrefl : ∀ x, better x x = false) by (intros x; unfold better; rewrite bool_decide_eq_false; lia).
  revert t. induction l as [|x l IH]; intros t; cbn [highest]; [done|].
  destruct (highest l) as [u|] eqn:Hh.
  - destruct (IH u eq_refl) as [Hu Hmax]. destruct (better u x) eqn:Hb; intros [= <-].
    + split; [by right|]. intros v. rewrite elem_of_cons. intros [->|Hv]; [by apply better_asym|by apply Hmax].
    + split; [by left|]. intros v. rewrite elem_of_cons. intros [->|Hv]; [apply Hrefl|]. by apply (better_trans x u); [|apply Hmax].
  - intros [= <-]. split; [by left|]. intros v. rewrite elem_of_cons. intros [->|Hv]; [apply Hrefl|].
    destruct l; [by apply elem_of_nil in Hv|]. simpl in Hh. by repeat case_match.
Qed.
Lemma highest_None l : highest l = None → l = [].
Proof. destruct l; simpl; [done|]. by repeat case_match. Qed.

(** ** Rows *)

Lemma put_task_ids now task ts : mt_ID <$> put_task now task ts = mt_ID <$> ts.
Proof.
  unfold put_task. rewrite <-list_fmap_compose. apply list_fmap_ext. intros i t _. simpl. by case_decide.
Qed.
Lemma put_task_other now task ts t : t ∈ ts → mt_ID t ≠ mt_ID task → t ∈ put_task now task ts.
Proof. intros Hin Hne. apply list_elem_of_fmap. exists t. by rewrite decide_False. Qed.
Lemma put_task_self now task ts t : t ∈ ts → mt_ID t = mt_ID task → set_UpdatedAt now (set_Mirror None task) ∈ put_task now task ts.
Proof. intros Hin He. apply list_elem_of_fmap. exists t. by rewrite decide_True. Qed.
Lemma same_id (ts : list MirrorTask) a b : NoDup (mt_ID <$> ts) → a ∈ ts → b ∈ ts → mt_ID a = mt_ID b → a = b.
Proof.
  intros Hnd [i Hi]%list_elem_of_lookup_1 [j Hj]%list_elem_of_lookup_1 He. rewrite NoDup_alt in Hnd.
  assert (i = j) as ->; [|congruence]. apply (Hnd i j (mt_ID a)); rewrite list_lookup_fmap; [by rewrite Hi|by rewrite Hj, He].
Qed.

(** Tasks a table keeps whatever else happens to it. *)
Definition keeps (t : MirrorTask) (w : mirror_world) : Prop := NoDup (mt_ID <$> mw_tasks w) ∧ t ∈ mw_tasks w.

Lemma keeps_put t now task w ms rs fs : keeps t w → mt_ID t ≠ mt_ID task → keeps t (mk_mw (put_task now task (mw_tasks w)) ms rs fs).
Proof. intros [Hnd Hin] Hne. split; simpl; [by rewrite put_task_ids|by apply put_task_other]. Qed.

Lemma wp_mw_fault Q (w : mirror_world) :
  (∀ r fs, Q r (mk_mw (mw_tasks w) (mw_mirrors w) (mw_repos w) fs)) → wp next_fault Q w.
Proof. intros HQ. apply wp_next_fault. intros fs r. apply HQ. Qed.

(** The task the dispatcher takes is a row of one of the statuses. *)
Lemma wp_dispatch now status t w : keeps t w → Status t ≠ status →
  wp (GetHighestPriorityByTaskStatus now [status]) (λ r w', keeps t w' ∧ match r with Ok u => mt_ID u ≠ mt_ID t | Err _ => True end) w.
Proof.
  intros Hk Hs. unfold GetHighestPriorityByTaskStatus. wp_simpl. apply wp_mw_fault. intros [[]|e] fs; wp_simpl; [|done]. simpl.
  destruct (highest _) as [u|] eqn:Hh; wp_simpl; [|done]. apply highest_Some in Hh as [Hu _]. apply list_elem_of_filter in Hu as [Hus Hu].
  assert (mt_ID t ≠ mt_ID u) as Hne.
  { intros He. destruct Hk as [Hnd Hin]. rewrite (same_id _ _ _ Hnd Hin Hu He) in Hs. by apply list_elem_of_singleton in Hus. }
  destruct (SubmitEvent _ _); wp_simpl; [|done]. simpl. split; [|done]. by apply (keeps_put _ now (set_Status m u)).
Qed.

Definition keeps_id (SyncRepo : MirrorTask → sync_result) : Prop :=
  ∀ mt mt' err, SyncRepo mt = Synced mt' err → mt_ID mt' = mt_ID mt.

Lemma repo_action_id max mt err : mt_ID (repo_action max mt err).1 = mt_ID mt ∧ Status (repo_action max mt err).1 = Status mt.
Proof. unfold repo_action. by repeat case_match. Qed.

(** The handler changes at most the row of its task. *)
Lemma handleTask_keeps max now found sync u t w : keeps_id sync → keeps t w → mt_ID u ≠ mt_ID t →
  keeps t (recover (handleTask max now found sync u) w).2 ∧ (recover (handleTask max now found sync u) w).1 = Ret tt.
Proof.
  intros Hid Hk Hne. unfold recover, handleTask. destruct (negb found); [done|].
  destruct (sync u) as [|mt err] eqn:Hs; [done|]. apply Hid in Hs.
  destruct (repo_action max mt err) as [mt' act] eqn:Ha. pose proof (repo_action_id max mt err) as [Hid' _]. rewrite Ha in Hid'. simpl in Hid'.
  destruct (SubmitEvent _ _) as [s|]; [|done].
  unfold UpdateStatusAndRepoSyncStatus, mbind, io_bind, io_try, next_fault, io_modify. simpl.
  destruct (mw_faults w) as [|[e|] fs]; simpl; [|done|]; destruct (mt_Mirror mt'); simpl; try done.
  all: split; [|done]; apply (keeps_put _ now (set_Status s mt')); [done|simpl; congruence].
Qed.

(** A round never touches a task that is not queued. *)
Lemma repo_round_keeps max now found sync t w : keeps_id sync → keeps t w → Status t ≠ MirrorQueued →
  ∃ w', repo_round max now found sync w = (Ret tt, w') ∧ keeps t w'.
Proof.
  intros Hid Hk Hs. unfold repo_round. destruct (wp_run _ _ _ (wp_dispatch now MirrorQueued t w Hk Hs)) as (r & w1 & Hrun & Hk1 & Hr).
  unfold mbind, io_bind, io_try. rewrite Hrun. destruct r as [u|e]; simpl; [|by eauto].
  case_decide; [by exists w1|]. destruct (handleTask_keeps max now found sync u t w1 Hid Hk1 Hr) as [Hk2 Hret].
  destruct (recover _ w1) as [o w2]. simpl in *. subst. by eauto.
Qed.

(** ** The process *)

Definition step_ok (s : mirror_step) : Prop := match s with RepoRound _ _ _ sync => keeps_id sync | _ => True end.

Lemma run_step_keeps s t w : step_ok s → keeps t w → Status t ≠ MirrorQueued → Status t ≠ MirrorRepoSyncFinished → Status t ≠ MirrorLfsSyncStart →
  ∃ w', run_step s w = (Ret tt, w') ∧ keeps t w'.
Proof.
  intros Hok Hk Hq Hf Hl. destruct s as [max now found sync|now|]; simpl.
  - by apply repo_round_keeps.
  - destruct (wp_run _ _ _ (wp_dispatch now MirrorRepoSyncFinished t w Hk Hf)) as (r & w1 & Hrun & Hk1 & _).
    unfold mbind, io_bind, io_try. rewrite Hrun. destruct r; simpl; by eauto.
  - unfold ResetRunningTasks, mbind, io_bind, io_try, next_fault, io_modify, io_gets, on_tasks. simpl.
    assert (∀ fs, keeps t (mk_mw ((λ x, if decide (Status x = MirrorLfsSyncStart) then set_Status MirrorRepoSyncFinished x else x) <$> mw_tasks w)
      (mw_mirrors w) (mw_repos w) fs)) as Hr.
    { intros fs. destruct Hk as [Hnd Hin]. split; simpl.
      - rewrite <-list_fmap_compose. erewrite list_fmap_ext; [exact Hnd|]. intros i x _. simpl. by case_decide.
      - apply list_elem_of_fmap. exists t. by rewrite decide_False. }
    destruct (mw_faults w) as [|[e|] fs] eqn:Hfs; simpl; [|by eauto|by eauto].
    eexists. split; [done|]. rewrite Hfs in *. by apply Hr.
Qed.
Lemma run_steps_keeps l : ∀ t w, Forall step_ok l → keeps t w →
  Status t ≠ MirrorQueued → Status t ≠ MirrorRepoSyncFinished → Status t ≠ MirrorLfsSyncStart →
  ∃ w', run_steps l w = (Ret tt, w') ∧ keeps t w'.
Proof.
  induction l as [|s l IH]; intros t w Hok Hk Hq Hf Hl; simpl; [by eauto|]. apply Forall_cons in Hok as [Hs Hok].
  destruct (run_step_keeps s t w Hs Hk Hq Hf Hl) as (w1 & Hrun & Hk1). rewrite (io_bind_run _ _ _ _ _ Hrun). by apply IH.
Qed.

(** The mirror of a task that is taken names it as its current one. *)
Definition take_mirror (t : MirrorTask) (m : MirrorRow) : MirrorRow :=
  if decide (m_ID m = mt_MirrorID t) then mk_mirror (m_ID m) (m_RepositoryID m) (mt_ID t) (m_Priority m) else m.

(** What a successful dispatch did. *)
Lemma dispatch_ok now status u w w1 : GetHighestPriorityByTaskStatus now [status] w = (Ret u, w1) →
  ∃ u0 s, highest (filter (λ t, Status t ∈ [status]) (mw_tasks w)) = Some u0 ∧ SubmitEvent status MirrorContinue = Some s ∧
    u = set_UpdatedAt now (load (mw_mirrors w) (set_Status s u0)) ∧
    mw_tasks w1 = put_task now (set_Status s u0) (mw_tasks w) ∧ mw_repos w1 = mw_repos w ∧
    mw_mirrors w1 = take_mirror u0 <$> mw_mirrors w ∧ (mw_faults w = [] → mw_faults w1 = []).
Proof.
  unfold GetHighestPriorityByTaskStatus, mbind, io_bind, next_fault, io_gets. simpl.
  intros Hrun. destruct (mw_faults w) as [|[e|] fs] eqn:Hfs; simpl in Hrun; [|done|].
  all: destruct (highest _) as [u0|] eqn:Hh; [|done]; pose proof (highest_Some _ _ Hh) as [Hin _].
  all: apply list_elem_of_filter in Hin as [Hst%list_elem_of_singleton _]; rewrite Hst in Hrun.
  all: destruct (SubmitEvent _ _) as [s|]; [|done]; simpl in Hrun; injection Hrun as <- <-; exists u0, s; rewrite ?Hfs; by split_and!.
Qed.

(** A repository sync that fails with a rate limit is lost: the retry the
    worker asks for is no event of a running task, so nothing is written. The
    row stays running with its count of retries unchanged, through all later
    rounds, dispatches and restarts of the manager. *)
Theorem retryable_failure_stuck max now sync u mt e w w1 steps :
  NoDup (mt_ID <$> mw_tasks w) →
  GetHighestPriorityByTaskStatus now [MirrorQueued] w = (Ret u, w1) →
  sync u = Synced mt (Some e) → Status mt = Status u → Contains (Error e) specificErrorMsg = true → Forall step_ok steps →
  ∃ row w2, repo_round max now true sync w = (Ret tt, w1) ∧
    mt_ID row = mt_ID u ∧ Status row = MirrorRepoSyncStart ∧ RetryCount row = RetryCount u ∧ row ∈ mw_tasks w1 ∧
    run_steps steps w1 = (Ret tt, w2) ∧ row ∈ mw_tasks w2.
Proof.
  intros Hnd Hrun Hsync Hst Hc Hok. destruct (dispatch_ok _ _ _ _ _ Hrun) as (u0 & s & Hh & [= <-] & Hu & Hts & _).
  pose proof (highest_Some _ _ Hh) as [[_ Hin]%list_elem_of_filter _].
  pose proof (put_task_self now (set_Status MirrorRepoSyncStart u0) _ u0 Hin eq_refl) as Hrow. rewrite <-Hts in Hrow.
  set (row := set_UpdatedAt now (set_Mirror None (set_Status MirrorRepoSyncStart u0))) in *.
  assert (keeps row w1) as Hk by (split; [by rewrite Hts, put_task_ids|done]).
  destruct (run_steps_keeps steps row w1 Hok Hk) as (w2 & Hrun2 & _ & Hrow2); [done..|].
  exists row, w2. subst u. split_and!; try done.
  unfold repo_round. rewrite (io_bind_run _ _ _ _ _ (io_try_run _ _ _ _ Hrun)). case_decide; [done|].
  unfold recover, handleTask. simpl. rewrite Hsync. unfold repo_action. cbv zeta. rewrite Hc. simpl. rewrite Hst. by case_decide.
Qed.

Definition ex_task (id prio : Z) (s : MirrorTaskStatus) : MirrorTask := mk_mt id 7 None [] s 0 [] prio [] [] 0 100.
Definition ex_world : mirror_world :=
  mk_mw [ex_task 1 1 MirrorQueued; ex_task 2 4 MirrorQueued; ex_task 3 9 MirrorLfsSyncStart] [mk_mirror 7 70 0 4] {[ 70 := SyncStatusPending ]} [].
Definition rate_limited (mt : MirrorTask) : sync_result := Synced mt (Some (Wrap (bs "failed to sync mirror repo, error: ") (Text (bs "github: rate limit")))).

Theorem retryable_failure_stuck_witness : ∃ row w1 w2,
  repo_round 3 200 true rate_limited ex_world = (Ret tt, w1) ∧ mt_ID row = 2 ∧ Status row = MirrorRepoSyncStart ∧ RetryCount row = 0 ∧
  run_steps [RepoRound 3 300 true rate_limited; LfsDispatch 310; ManagerStart] w1 = (Ret tt, w2) ∧ row ∈ mw_tasks w2.
Proof.
  pose (u := set_UpdatedAt 200 (load (mw_mirrors ex_world) (set_Status MirrorRepoSyncStart (ex_task 2 4 MirrorQueued)))).
  pose (w1 := (GetHighestPriorityByTaskStatus 200 [MirrorQueued] ex_world).2).
  destruct (retryable_failure_stuck 3 200 rate_limited u u (Wrap (bs "failed to sync mirror repo, error: ") (Text (bs "github: rate limit")))
    ex_world w1 [RepoRound 3 300 true rate_limited; LfsDispatch 310; ManagerStart]) as (row & w2 & H1 & H2 & H3 & H4 & _ & H5 & H6);
    try (vm_compute; reflexivity).
  - repeat (constructor; [set_solver|]). constructor.
  - constructor; [by intros mt mt' err [= <- <-]|]. by repeat constructor.
  - by exists row, w1, w2.
Defined.

(** ** A round that settles *)

(** Whether the failure is one the worker means to retry. *)
Definition retryable (err : option merr) : bool := match err with Some e => Contains (Error e) specificErrorMsg | None => false end.
Definition settled (err : option merr) (progress : Z) : MirrorTaskStatus :=
  match err with
  | Some _ => MirrorRepoSyncFailed
  | None => if decide (progress = 100) then MirrorLfsSyncFinished else MirrorRepoSyncFinished
  end.

(** The row a settled task is left with: as the sync left the task, with the
    outcome and the text of the failure. *)
Definition settled_row (now : Z) (mt : MirrorTask) (err : option merr) : MirrorTask :=
  mk_mt (mt_ID mt) (mt_MirrorID mt) None (match err with Some e => Error e | None => ErrorMessage mt end) (settled err (Progress mt))
    (RetryCount mt) (Payload mt) (Priority mt) (BeforeLastCommitID mt) (AfterLastCommitID mt) (Progress mt) now.

Lemma repo_action_settles max now mt err : retryable err = false → Status mt = MirrorRepoSyncStart →
  let r := repo_action max mt err in
  SubmitEvent (Status r.1) r.2 = Some (settled err (Progress mt)) ∧ mt_Mirror r.1 = mt_Mirror mt ∧
  set_UpdatedAt now (set_Mirror None (set_Status (settled err (Progress mt)) r.1)) = settled_row now mt err.
Proof. unfold repo_action. destruct err as [e|]; simpl; intros He Hs; [rewrite He|]; simpl; rewrite ?Hs; split_and!; try done; by repeat case_decide. Qed.

(** C12: Without database failures a round takes the queued task with the
    highest priority, the most recently updated among equals; its mirror and
    repository exist. Unless the failure is a rate limit, the task's row is then
    as the sync left the task (the sync itself is an input, which leaves the
    task's id, status and mirror alone: its git transfers and what it writes of
    the mirror's last update and the repository's default branch are not rows of
    this model) with how it ended and the text of its failure; the repository's
    sync status says the same; the task's mirror names it as its current task;
    and no other task, mirror or repository's sync status is touched by the
    round. *)
Theorem repo_round_settles max now sync u0 m w mt err :
  NoDup (mt_ID <$> mw_tasks w) → mw_faults w = [] →
  highest (filter (λ t, Status t ∈ [MirrorQueued]) (mw_tasks w)) = Some u0 → mt_ID u0 ≠ 0 →
  let u := set_UpdatedAt now (load (mw_mirrors w) (set_Status MirrorRepoSyncStart u0)) in
  mt_Mirror u = Some m → is_Some (mw_repos w !! m_RepositoryID m) →
  sync u = Synced mt err → keeps_id sync → Status mt = Status u → mt_Mirror mt = mt_Mirror u → retryable err = false →
  (u0 ∈ mw_tasks w ∧ Status u0 = MirrorQueued ∧ ∀ v, v ∈ mw_tasks w → Status v = MirrorQueued → better v u0 = false) ∧
  repo_round max now true sync w = (Ret tt, mk_mw
    ((λ t, if decide (mt_ID t = mt_ID u0) then settled_row now mt err else t) <$> mw_tasks w)
    ((λ m, if decide (m_ID m = mt_MirrorID u0) then mk_mirror (m_ID m) (m_RepositoryID m) (mt_ID u0) (m_Priority m) else m) <$> mw_mirrors w)
    (<[m_RepositoryID m := MirrorTaskStatusToRepoStatus (settled err (Progress mt))]> (mw_repos w)) []).
Proof.
  intros Hnd Hf Hh Hid u Hm [s0 Hrepo] Hsync Hkid Hst Hmm Hnr. pose proof (highest_Some _ _ Hh) as [[Hq Hin]%list_elem_of_filter Hmax].
  apply list_elem_of_singleton in Hq. split.
  { split_and!; [done..|]. intros v Hv Hvq. apply Hmax, list_elem_of_filter. split; [by rewrite Hvq; left|done]. }
  assert (∃ w1, GetHighestPriorityByTaskStatus now [MirrorQueued] w = (Ret u, w1)) as [w1 Hrun].
  { unfold GetHighestPriorityByTaskStatus, mbind, io_bind, next_fault, io_gets. simpl. rewrite Hf. simpl. rewrite Hh, Hq. simpl. by eexists. }
  destruct (dispatch_ok _ _ _ _ _ Hrun) as (u0' & s & Hh' & [= <-] & _ & Hts & Hrs & Hms & Hf1). rewrite Hh in Hh'. injection Hh' as <-.
  pose proof (Hkid _ _ _ Hsync) as Hmid. destruct (repo_action_settles max now mt err Hnr) as (Hse & Hmm' & Hrow); [by rewrite Hst|].
  destruct (repo_action max mt err) as [mt' act] eqn:Ha. cbn [fst snd] in Hse, Hmm', Hrow.
  unfold repo_round. rewrite (io_bind_run _ _ _ _ _ (io_try_run _ _ _ _ Hrun)). rewrite decide_False by done.
  unfold recover, handleTask. simpl. rewrite Hsync, Ha, Hse.
  unfold UpdateStatusAndRepoSyncStatus, mbind, io_bind, io_try, next_fault, io_modify. simpl. rewrite (Hf1 Hf). simpl.
  rewrite Hmm', Hmm, Hm. simpl. rewrite Hrs, Hrepo, Hms, Hts, (Hf1 Hf). do 2 f_equal. unfold put_task. rewrite Hrow, <-list_fmap_compose.
  apply list_fmap_ext. intros i t _. assert (mt_ID mt' = mt_ID u0) as Hid2 by (apply (f_equal mt_ID) in Hrow; simpl in Hrow; by rewrite Hrow, Hmid).
  simpl. rewrite Hid2. destruct (decide (mt_ID t = mt_ID u0)); [by rewrite decide_True|by rewrite decide_False].
Qed.

Definition lfs_left (mt : MirrorTask) : sync_result := Synced (set_Progress 0 mt) None.
Theorem repo_round_settles_witness : repo_round 3 200 true lfs_left ex_world = (Ret tt, mk_mw
  [ex_task 1 1 MirrorQueued; mk_mt 2 7 None [] MirrorRepoSyncFinished 0 [] 4 [] [] 0 200; ex_task 3 9 MirrorLfsSyncStart]
  [mk_mirror 7 70 2 4] {[ 70 := SyncStatusInProgress ]} []).
Proof.
  assert (keeps_id lfs_left) as Hid by (by intros mt mt' err [= <- <-]).
  assert (NoDup (mt_ID <$> mw_tasks ex_world)) as Hnd by (repeat (constructor; [set_solver|]); constructor).
  pose (mt := set_Progress 0 (set_UpdatedAt 200 (load (mw_mirrors ex_world) (set_Status MirrorRepoSyncStart (ex_task 2 4 MirrorQueued))))).
  exact (proj2 (repo_round_settles 3 200 lfs_left (ex_task 2 4 MirrorQueued) (mk_mirror 7 70 0 4) ex_world mt None
    Hnd eq_refl eq_refl ltac:(done) eq_refl ltac:(done) eq_refl Hid eq_refl eq_refl eq_refl)).
Defined.
