(* ===== verification/MirrorLfs.v ===== *)
(** The LFS worker (mirror/lfssyncer/lfs.go) with the table of LFS objects
    (builder/store/database/lfs_meta_object.go) and the manager component
    (mirror/component/manager.go): which files of a repository are fetched,
    what is recorded of them and when the branch moves on. The batch API of
    the source and the multipart transfer of a file are inputs; messages and
    the recommendation weight set at the end are left out. *)
From S2P Require Import Prelude GoLib GoFloat GoJson GoHash Mirror.
Open Scope Z_scope.

(** [int(math.Ceil(f))]; what is no int converts to the least one. *)
Definition int_Ceil (f : float64) : Z :=
  match f with
  | S754_zero _ => 0
  | S754_finite s m e =>
      let v := if s then Z.neg m else Z.pos m in
      if decide (0 ≤ e) then v * 2 ^ e else - (- v / 2 ^ (- e))
  | _ => - 2 ^ 63
  end.

(** ** Data *)

Record LfsMetaObject := mk_lmo { lmo_ID : Z; lmo_Oid : bytes; lmo_Size : Z; lmo_RepositoryID : Z; Existing : bool; XnetUsed : bool }.
Record Pointer := mk_ptr { p_Oid : bytes; p_Size : Z; DownloadURL : bytes }.

(** The loaded repository of a mirror. *)
Record RepoInfo := mk_repo { r_ID : Z; r_Path : bytes; Migrated : bool }.

(** Objects are rows of one table; [lw_store] is the bucket, [lw_head] the
    commit the repository's default branch points to, [lw_pushed] the commits
    the push workflow was started for. *)
Record lfs_world := mk_lw {
  lw_mirror : mirror_world;
  lw_objects : list LfsMetaObject;
  lw_next : Z;
  lw_store : gmap bytes Z;
  lw_head : bytes;
  lw_pushed : list bytes;
}.
Definition set_mirror (m : mirror_world) (w : lfs_world) : lfs_world :=
  mk_lw m (lw_objects w) (lw_next w) (lw_store w) (lw_head w) (lw_pushed w).
Definition on_objects (f : list LfsMetaObject → list LfsMetaObject) (w : lfs_world) : lfs_world :=
  mk_lw (lw_mirror w) (f (lw_objects w)) (lw_next w) (lw_store w) (lw_head w) (lw_pushed w).
Definition on_store (f : gmap bytes Z → gmap bytes Z) (w : lfs_world) : lfs_world :=
  mk_lw (lw_mirror w) (lw_objects w) (lw_next w) (f (lw_store w)) (lw_head w) (lw_pushed w).

#[export] Program Instance lfs_world_faulty : Faulty lfs_world merr := {|
  get_faults w := get_faults (lw_mirror w);
  set_faults fs w := set_mirror (set_faults fs (lw_mirror w)) w |}.
Next Obligation. by intros [[]]. Qed.

Abbreviation lio := (io lfs_world merr).

(** A call on the tables of mirrors and tasks. *)
Definition lift {A} (m : io mirror_world merr A) : lio A := λ w,
  let '(r, mw) := m (lw_mirror w) in (r, set_mirror mw w).
Definition lio_panic {A} : lio A := λ w, (Panic, w).

(** ** builder/store/database/lfs_meta_object.go *)

Definition FindByRepoID (repoID : Z) : lio (list LfsMetaObject) :=
  next_fault;; io_gets (λ w, filter (λ o, lmo_RepositoryID o = repoID) (lw_objects w)).

(** One transaction: the repository's rows are deleted, the given inserted. *)
Definition BulkUpdateOrCreate (repoID : Z) (input : list LfsMetaObject) : lio unit :=
  next_fault;; io_modify (on_objects (λ os, filter (λ o, lmo_RepositoryID o ≠ repoID) os ++ input)).

Definition same_object (a b : LfsMetaObject) : Prop := lmo_Oid a = lmo_Oid b ∧ lmo_RepositoryID a = lmo_RepositoryID b.
#[export] Instance same_object_dec a b : Decision (same_object a b).
Proof. apply _. Defined.

(** An update of no row is an error like any other, and is followed by an
    insert, which the unique index on repository and oid guards. *)
Definition UpdateOrCreate (input : LfsMetaObject) : lio unit :=
  r ← io_try (
    next_fault;; os ← io_gets lw_objects;
    match filter (same_object input) os with
    | [] => io_fail (Text (bs "sql: no rows in result set"))
    | _ => io_modify (on_objects (λ os, (λ o, if decide (same_object input o)
             then mk_lmo (lmo_ID o) (lmo_Oid o) (lmo_Size input) (lmo_RepositoryID o) (Existing input) (XnetUsed input) else o) <$> os))
    end);
  match r with
  | Ok _ => mret tt
  | Err _ => io_wrap (Wrap (bs "create lfs meta object in tx failed,error:")) (
      next_fault;; os ← io_gets lw_objects;
      match filter (same_object input) os with
      | [] => io_modify (λ w, mk_lw (lw_mirror w)
                (lw_objects w ++ [mk_lmo (lw_next w) (lmo_Oid input) (lmo_Size input) (lmo_RepositoryID input) (Existing input) (XnetUsed input)])
                (lw_next w + 1) (lw_store w) (lw_head w) (lw_pushed w))
      | _ => io_fail (Text (bs "duplicate key value violates unique constraint"))
      end)
  end.

(** ** common/utils/common *)

(** [None] is the panic on a short oid. *)
Definition BuildLfsPath (repoID : Z) (oid : bytes) (migrated : bool) : option bytes :=
  if migrated then
    let sha256Path := SHA256 (Itoa repoID) in
    a ← slice sha256Path 0 2; b ← slice sha256Path 2 4;
    Some (bs "repos/" ++ a ++ bs "/" ++ b ++ bs "/" ++ sha256Path ++ bs "/" ++ oid)
  else
    a ← slice oid 0 2; b ← slice oid 2 4; c ← slice oid 4 (len oid);
    Some (path_Join [bs "lfs"; path_Join [a; b; c]]).

Definition GetNamespaceAndNameFromPath (path : bytes) : result (bytes * bytes) merr :=
  match Split path (bs "/") with
  | [namespace; name] => Ok (namespace, name)
  | _ => Err (Text (bs "invalid namespace or name"))
  end.

(** ** Groups of pointers *)

Definition MaxGroupSize : Z := 10 * 1024 * 1024 * 1024.
Definition MaxGroupCount : Z := 15.
Definition maxPartNum : Z := 1000.

(** The loop, with the groups so far and the current group latest first. *)
Fixpoint split_loop (pointers : list Pointer) (groups : list (list Pointer)) (currentGroup : list Pointer) (currentSize : Z) : list (list Pointer) :=
  match pointers with
  | [] => reverse (match currentGroup with [] => groups | _ => reverse currentGroup :: groups end)
  | p :: rest =>
      let '(groups, currentGroup, currentSize) :=
        if decide (MaxGroupSize < i64 (currentSize + p_Size p) ∨ MaxGroupCount ≤ len currentGroup)
        then (match currentGroup with [] => groups | _ => reverse currentGroup :: groups end, [], 0)
        else (groups, currentGroup, currentSize) in
      split_loop rest groups (p :: currentGroup) (i64 (currentSize + p_Size p))
  end.
Definition SplitPointersBySizeAndCount (pointers : list Pointer) : list (list Pointer) := split_loop pointers [] [] 0.

(** ** The worker *)

(** What transferring a file ends in: an error, or an object of some size. *)
Inductive upload := UploadErr (e : merr) | Uploaded (size : Z).

Section worker.
(** The text of the bucket's answer for a missing object, the source's batch
    API, the transfer of a file in parts of a size, the configured part size
    and the clock. *)
Context (missing : bytes) (GetLFSDownloadURLs : list Pointer → result (list Pointer) merr)
  (multipartUploadWithRetry : Z → Pointer → upload) (PartSize now : Z).

Definition StatObject (objectKey : bytes) : lio Z :=
  next_fault;; s ← io_gets lw_store;
  match s !! objectKey with Some size => mret size | None => io_fail (Text missing) end.
Definition RemoveObject (objectKey : bytes) : lio unit := next_fault;; io_modify (on_store (delete objectKey)).

Definition CheckIfLFSFileExists (objectKey : bytes) : lio bool :=
  r ← io_try (StatObject objectKey);
  match r with
  | Ok _ => mret true
  | Err e => if Contains (Error e) (bs "NoSuchKey") || Contains (Error e) (bs "not found") then mret false else io_fail e
  end.
(** Both callers log an error and go on with the false it comes with. *)
Definition exists_logged (objectKey : bytes) : lio bool :=
  r ← io_try (CheckIfLFSFileExists objectKey); mret (match r with Ok b => b | Err _ => false end).

(** The loop over the repository's objects. *)
Fixpoint sync_pointers_loop (repo : RepoInfo) (objs : list LfsMetaObject) (pointers : list Pointer) (toBeUpdate : list LfsMetaObject)
    : lio (list Pointer * list LfsMetaObject) :=
  match objs with
  | [] => mret (pointers, toBeUpdate)
  | o :: rest =>
      match BuildLfsPath (r_ID repo) (lmo_Oid o) (Migrated repo) with
      | None => lio_panic
      | Some objectKey =>
          exists_ ← exists_logged objectKey;
          if exists_ : bool
          then sync_pointers_loop repo rest pointers
                 (toBeUpdate ++ [mk_lmo (lmo_ID o) (lmo_Oid o) (lmo_Size o) (lmo_RepositoryID o) true (XnetUsed o)])
          else sync_pointers_loop repo rest (pointers ++ [mk_ptr (lmo_Oid o) (lmo_Size o) []]) toBeUpdate
      end
  end.

Definition getSyncPointers (repo : RepoInfo) : lio (list Pointer) :=
  objs ← io_wrap (Wrap (bs "fail to get lfs meta objects: ")) (FindByRepoID (r_ID repo));
  r ← sync_pointers_loop repo objs [] [];
  (match r.2 with [] => mret tt | _ => io_try (BulkUpdateOrCreate (r_ID repo) r.2);; mret tt end);;
  mret r.1.

(** The size of a part: none is defined for a part size of zero. *)
Definition part_size (size : Z) : option Z :=
  let partSize := i64 (PartSize * 1024 * 1024) in
  if decide (partSize = 0) then None
  else if decide (maxPartNum < Z.quot size partSize) then Some (Z.quot size maxPartNum) else Some partSize.

Definition downloadAndUploadLFSFile (repo : RepoInfo) (pointer : Pointer) : lio unit :=
  match BuildLfsPath (r_ID repo) (p_Oid pointer) (Migrated repo) with
  | None => lio_panic
  | Some objectKey =>
      exists_ ← exists_logged objectKey;
      let lmo := mk_lmo 0 (p_Oid pointer) (p_Size pointer) (r_ID repo) exists_ false in
      io_wrap (Wrap (bs "failed to update lfs meta object: ")) (UpdateOrCreate lmo);;
      if exists_ : bool then mret tt
      else if decide (DownloadURL pointer = []) then io_fail (Text (bs "pointer download url is empty"))
      else match part_size (p_Size pointer) with
      | None => lio_panic
      | Some partSize =>
          match multipartUploadWithRetry partSize pointer with
          | UploadErr e => io_fail (Wrap (bs "failed to upload object: ") e)
          | Uploaded size =>
              io_modify (on_store (insert objectKey size));;
              info ← io_wrap (Wrap (bs "failed to stat object: ")) (StatObject objectKey);
              if decide (info ≠ p_Size pointer) then
                io_try (RemoveObject objectKey);;
                io_fail (Text (bs "object size mismatch"))
              else io_wrap (Wrap (bs "failed to update lfs meta object existing: "))
                     (UpdateOrCreate (mk_lmo 0 (p_Oid pointer) (p_Size pointer) (r_ID repo) true false))
          end
      end
  end.

(** The task is changed as it goes, so it is handed on along with an error. *)
Fixpoint files_loop (repo : RepoInfo) (total : Z) (pointers : list Pointer) (mt : MirrorTask) (synced : Z) : lio (MirrorTask * Z * option merr) :=
  match pointers with
  | [] => mret (mt, synced, None)
  | pointer :: rest =>
      io_try (downloadAndUploadLFSFile repo pointer);;
      let synced := synced + 1 in
      let mt := set_Progress (int_Ceil (fmul (fdiv (float_of_Z synced) (float_of_Z total)) (float_of_Z 100))) mt in
      r ← io_try (lift (mt_Update now mt));
      match r with
      | Err e => mret (mt, synced, Some (Wrap (bs "failed to update mirror task progress: ") e))
      | Ok _ => files_loop repo total rest mt synced
      end
  end.

Fixpoint groups_loop (repo : RepoInfo) (total : Z) (groups : list (list Pointer)) (mt : MirrorTask) (synced : Z) : lio (MirrorTask * option merr) :=
  match groups with
  | [] => mret (mt, None)
  | pointers :: rest =>
      match GetLFSDownloadURLs pointers with
      | Err e => mret (mt, Some (Wrap (bs "failed to get lfs download urls: ") e))
      | Ok pointers =>
          r ← files_loop repo total pointers mt synced;
          let '(mt, synced, err) := r in
          match err with
          | Some e => mret (mt, Some e)
          | None => groups_loop repo total rest mt synced
          end
      end
  end.

Definition downloadAndUploadLFSFiles (repo : RepoInfo) (pointerGroups : list (list Pointer)) (mt : MirrorTask) : lio (MirrorTask * option merr) :=
  groups_loop repo (len (concat pointerGroups)) pointerGroups mt 0.

Definition getRepoLastCommit : lio bytes := io_wrap (Wrap (bs "failed to get repo last commit: ")) (next_fault;; io_gets lw_head).
Definition UpdateRef (commit : bytes) : lio unit :=
  next_fault;; io_modify (λ w, mk_lw (lw_mirror w) (lw_objects w) (lw_next w) (lw_store w) commit (lw_pushed w)).
Definition triggerGitCallback (commit : bytes) : lio unit :=
  io_wrap (Wrap (bs "failed to get diff between two commits: ")) next_fault;;
  io_wrap (Wrap (bs "failed to handle git push callback: ")) next_fault;;
  io_modify (λ w, mk_lw (lw_mirror w) (lw_objects w) (lw_next w) (lw_store w) (lw_head w) (lw_pushed w ++ [commit])).

(** What follows the files. *)
Definition publish_commit (repo : RepoInfo) (mt : MirrorTask) : lio unit :=
  match GetNamespaceAndNameFromPath (r_Path repo) with
  | Err e => io_fail (Wrap (bs "failed to get namespace and name from mirror repository path: ") e)
  | Ok _ =>
      commit ← io_wrap (Wrap (bs "failed to get repo last commit: ")) getRepoLastCommit;
      (if decide (commit ≠ AfterLastCommitID mt)
       then io_wrap (Wrap (bs "failed to point HEAD to new commit: ")) (UpdateRef (AfterLastCommitID mt)) else mret tt);;
      lastCommit ← io_wrap (Wrap (bs "failed to get repo last commit: ")) getRepoLastCommit;
      io_wrap (Wrap (bs "failed to trigger git callback: ")) (triggerGitCallback lastCommit)
  end.

(** [repo] is the repository loaded with the task's mirror. *)
Definition SyncLfs (repo : option RepoInfo) (mt : MirrorTask) : lio (MirrorTask * option merr) :=
  match mt_Mirror mt, repo with
  | Some _, Some repo =>
      r ← io_try (getSyncPointers repo);
      match r with
      | Err e => mret (mt, Some e)
      | Ok pointers =>
          r ← (match pointers with
               | [] => mret (mt, None)
               | _ => downloadAndUploadLFSFiles repo (SplitPointersBySizeAndCount pointers) mt
               end);
          let '(mt, err) := r in
          match err with
          | Some e => mret (mt, Some (Wrap (bs "fail to download and upload lfs files: ") e))
          | None => c ← io_try (publish_commit repo mt);
                    mret (mt, match c with Ok _ => None | Err e => Some e end)
          end
      end
  | _, _ => mret (mt, Some (Text (bs "invalid mirror task")))
  end.

Inductive should := ShouldErr | ShouldNot | Should.

(** [found], [repo_found] and [shouldSync] are the answers of the stores and of
    the filter. *)
Definition Run (found repo_found : bool) (shouldSync : should) (repo : option RepoInfo) (mt : MirrorTask) : lio unit :=
  if negb found then io_try (lift (mt_Update now (set_Status MirrorLfsSyncFailed (set_ErrorMessage (bs "mirror not found") mt))));; mret tt
  else if negb repo_found then mret tt
  else match shouldSync with
  | ShouldErr => mret tt
  | ShouldNot =>
      match mt_Mirror mt with
      | None => lio_panic
      | Some m =>
          let m := mk_mirror (m_ID m) (m_RepositoryID m) (m_CurrentTaskID m) LowMirrorPriority in
          io_try (lift (mt_Update now (set_Priority LowMirrorPriority (set_Mirror (Some m) mt))));;
          io_try (lift (next_fault;; io_modify (λ w, mk_mw (mw_tasks w) ((λ x, if decide (m_ID x = m_ID m) then m else x) <$> mw_mirrors w) (mw_repos w) (mw_faults w))));;
          mret tt
      end
  | Should =>
      r ← SyncLfs repo mt;
      let '(mt, err) := r in
      let '(mt, action) := match err with
        | Some e => (set_ErrorMessage (Error e) mt, if is_canceled e then MirrorCancel else MirrorFail)
        | None => (set_Progress 100 mt, MirrorSuccess) end in
      match SubmitEvent (Status mt) action with
      | None =>
          let mt := set_Status MirrorLfsSyncFailed (set_ErrorMessage
            (bs "fail to submit event, status: " ++ status_string (Status mt) ++ bs ", action: " ++ event_string action) mt) in
          io_try (lift (UpdateStatusAndRepoSyncStatus now mt (MirrorTaskStatusToRepoStatus MirrorLfsSyncFailed)));; mret tt
      | Some s => io_try (lift (UpdateStatusAndRepoSyncStatus now (set_Status s mt) (MirrorTaskStatusToRepoStatus s)));; mret tt
      end
  end.

(** ** mirror/component/manager.go *)

(** The task handed to a worker: the manager runs it next. *)
Definition SyncNow (mtID : Z) : lio MirrorTask :=
  mt ← io_wrap (Wrap (bs "fail to find mirror task: ")) (lift (mt_FindByID mtID));
  let mt := set_Status MirrorLfsSyncStart mt in
  io_wrap (Wrap (bs "fail to update mirror task: ")) (lift (mt_Update now mt));;
  mret mt.

End worker.
