(* ===== verification/MirrorLfsSpec.v ===== *)
(** What a sync of LFS files leaves behind: the groups files are fetched in,
    the objects stored and recorded, and the ways files get lost although the
    task ends as finished. *)
From S2P Require Import Prelude GoLib GoFloat GoJson GoHash Mirror MirrorLfs.
Open Scope Z_scope.

(** ** Groups *)

Definition total_size (g : list Pointer) : Z := foldr (λ p n, p_Size p + n) 0 g.
Definition good_group (g : list Pointer) : Prop :=
  g ≠ [] ∧ len g ≤ MaxGroupCount ∧ (length g = 1%nat ∨ total_size g ≤ MaxGroupSize).

Lemma total_size_app a b : total_size (a ++ b) = total_size a + total_size b.
Proof. induction a; simpl; lia. Qed.
Lemma total_size_reverse a : total_size (reverse a) = total_size a.
Proof. induction a; [done|]. rewrite reverse_cons, total_size_app. simpl. lia. Qed.
Lemma good_group_reverse g : good_group g → good_group (reverse g).
Proof.
  unfold good_group, len. rewrite length_reverse, total_size_reverse. intros (Hn & Hc & Hs). split_and!; [|done..].
  intros Hr. apply Hn. by rewrite <-(reverse_involutive g), Hr.
Qed.

Definition closed (groups : list (list Pointer)) (cur : list Pointer) : list (list Pointer) :=
  match cur with [] => groups | _ => reverse cur :: groups end.
Lemma closed_good groups cur : Forall good_group groups → (cur = [] ∨ good_group cur) → Forall good_group (closed groups cur).
Proof.
  intros Hg [->|Hc]; simpl; [done|]. destruct cur; [done|]. constructor; [|done]. by apply good_group_reverse.
Qed.
Lemma closed_concat groups cur : concat (reverse (closed groups cur)) = concat (reverse groups) ++ reverse cur.
Proof. destruct cur; simpl closed; [by rewrite app_nil_r|]. rewrite reverse_cons, concat_app. simpl. by rewrite app_nil_r. Qed.

Lemma split_loop_good ps : ∀ groups cur,
  Forall (λ p, 0 ≤ p_Size p < 2 ^ 62) ps → Forall good_group groups → (cur = [] ∨ good_group cur) → 0 ≤ total_size cur < 2 ^ 62 →
  let r := split_loop ps groups cur (total_size cur) in
  concat r = concat (reverse groups) ++ reverse cur ++ ps ∧ Forall good_group r.
Proof.
  induction ps as [|p ps IH]; intros groups cur Hps Hg Hc Hs; cbn [split_loop].
  - change (match cur with [] => groups | _ => reverse cur :: groups end) with (closed groups cur).
    rewrite closed_concat, app_nil_r. split; [done|]. apply Forall_reverse. by apply closed_good.
  - apply Forall_cons in Hps as [Hp Hps]. change (match cur with [] => groups | _ => reverse cur :: groups end) with (closed groups cur).
    rewrite i64_small by lia. unfold MaxGroupSize, MaxGroupCount in *. case_decide as Hd; cbv beta iota zeta.
    + rewrite i64_small by lia. destruct (IH (closed groups cur) [p]) as [Hcat Hgood]; try done.
      * by apply closed_good.
      * right. unfold good_group, len, MaxGroupCount. simpl. split_and!; [done|lia|by left].
      * simpl. lia.
      * cbn [total_size foldr] in Hcat, Hgood. replace (p_Size p + 0) with (0 + p_Size p) in * by lia. split; [|done]. rewrite Hcat, closed_concat. change (reverse [p]) with [p]. by rewrite <-!(assoc_L (++)).
    + rewrite i64_small by lia. destruct (IH groups (p :: cur)) as [Hcat Hgood]; try done.
      * right. unfold good_group, len, MaxGroupCount, MaxGroupSize in *. simpl length. split_and!; [done|lia|]. right. simpl. lia.
      * simpl. lia.
      * change (total_size (p :: cur)) with (p_Size p + total_size cur) in Hcat, Hgood. replace (p_Size p + total_size cur) with (total_size cur + p_Size p) in * by lia.
        split; [|done]. rewrite Hcat, reverse_cons. by rewrite <-(assoc_L (++)).
Qed.

(** Cutting a list of files into groups loses and reorders nothing; every
    group has between 1 and 15 files, and at most 10 GB unless it is one
    file. *)
Theorem pointer_groups_partition pointers : Forall (λ p, 0 ≤ p_Size p < 2 ^ 62) pointers →
  let groups := SplitPointersBySizeAndCount pointers in
  concat groups = pointers ∧ Forall good_group groups.
Proof. intros Hp. apply (split_loop_good pointers [] []); [done..|by left|simpl; lia]. Qed.

Theorem pointer_groups_partition_witness :
  let ps := [mk_ptr (bs "a") 6000000000 []; mk_ptr (bs "b") 6000000000 []; mk_ptr (bs "c") 20000000000 []; mk_ptr (bs "d") 1 []] in
  length (SplitPointersBySizeAndCount ps) = 4%nat ∧ concat (SplitPointersBySizeAndCount ps) = ps.
Proof. split; [vm_compute; reflexivity|]. apply pointer_groups_partition. by repeat (constructor; [simpl; lia|]). Defined.

(** ** Runs without failing calls *)

Section runs.
Context (missing : bytes) (urls : list Pointer → result (list Pointer) merr) (transfer : Z → Pointer → upload)
  (PartSize now : Z) (repo : RepoInfo).
Hypothesis Hpart : i64 (PartSize * 1024 * 1024) ≠ 0.

Definition calm (w : lfs_world) : Prop := mw_faults (lw_mirror w) = [].
Definition key_of (oid : bytes) : option bytes := BuildLfsPath (r_ID repo) oid (Migrated repo).
(** The object's file is in the bucket. *)
Definition stored (oid : bytes) (w : lfs_world) : Prop := ∃ k, key_of oid = Some k ∧ is_Some (lw_store w !! k).
#[export] Instance stored_dec oid w : Decision (stored oid w).
Proof.
  destruct (key_of oid) as [k|] eqn:Hk; [destruct (decide (is_Some (lw_store w !! k)))|]; [left; by exists k|right|right]; intros (k' & Hk' & ?); congruence.
Defined.
(** And its row says so. *)
Definition synced (oid : bytes) (w : lfs_world) : Prop :=
  stored oid w ∧ ∃ o, o ∈ lw_objects w ∧ lmo_Oid o = oid ∧ lmo_RepositoryID o = r_ID repo ∧ Existing o = true.

Lemma fault_run w : calm w → (next_fault : io lfs_world merr unit) w = (Ret tt, w).
Proof. unfold calm, next_fault. simpl. by intros ->. Qed.
Lemma lfault_run (w : mirror_world) : mw_faults w = [] → (next_fault : io mirror_world merr unit) w = (Ret tt, w).
Proof. unfold next_fault. simpl. by intros ->. Qed.

Lemma StatObject_run k w : calm w →
  StatObject missing k w = (match lw_store w !! k with Some size => Ret size | None => Fail (Text missing) end, w).
Proof. intros Hc. unfold StatObject. rewrite (io_bind_run _ _ _ _ _ (fault_run w Hc)). unfold mbind, io_bind, io_gets. by case_match. Qed.
Lemma exists_run k w : calm w → exists_logged missing k w = (Ret (bool_decide (is_Some (lw_store w !! k))), w).
Proof.
  intros Hc. unfold exists_logged, CheckIfLFSFileExists, mbind, io_bind, io_try. rewrite (StatObject_run k w Hc).
  destruct (lw_store w !! k) as [sz|]; [by rewrite (bool_decide_true (is_Some (Some sz))) by eauto|].
  rewrite bool_decide_false by (by intros [? [=]]). cbv iota. by destruct (_ || _).
Qed.

Lemma run_bind {A B} (m : lio A) (f : A → lio B) w a w' r : m w = (Ret a, w') → f a w' = r → (m ≫= f) w = r.
Proof. unfold mbind, io_bind. by intros ->. Qed.

(** *** Rows *)

Lemma UpdateOrCreate_run input w : calm w → ∃ w', UpdateOrCreate input w = (Ret tt, w') ∧
  lw_mirror w' = lw_mirror w ∧ lw_store w' = lw_store w ∧ lw_head w' = lw_head w ∧ lw_pushed w' = lw_pushed w ∧
  (∃ o, o ∈ lw_objects w' ∧ same_object input o ∧ Existing o = Existing input) ∧
  (∀ o, o ∈ lw_objects w → ¬ same_object input o → o ∈ lw_objects w').
Proof.
  intros Hc. unfold UpdateOrCreate, mbind, io_bind, io_try, io_wrap, io_gets, io_modify, io_fail. rewrite (fault_run w Hc).
  destruct (filter (same_object input) (lw_objects w)) as [|x l] eqn:Hf.
  - rewrite (fault_run w Hc), Hf. eexists. split; [done|]. simpl. split_and!; try done.
    + eexists. split; [by apply elem_of_app; right; left|]. done.
    + intros o Ho _. apply elem_of_app. by left.
  - eexists. split; [done|]. simpl. split_and!; try done.
    + assert (x ∈ filter (same_object input) (lw_objects w)) as [Hs Hx]%list_elem_of_filter by (rewrite Hf; left).
      eexists. split; [apply list_elem_of_fmap; exists x; split; [reflexivity|done]|]. by rewrite decide_True.
    + intros o Ho Hns. apply list_elem_of_fmap. exists o. by rewrite decide_False.
Qed.

(** *** One file *)

(** What a file's transfer can and does not do: everything but the bucket, the
    rows of objects, the progress of the task stays; what was synced stays so;
    a file that no transfer delivers stays missing. *)
Definition undeliverable (k : bytes) : Prop := ∀ part p, key_of (p_Oid p) = Some k → transfer part p ≠ Uploaded (p_Size p).
Definition quiet (w w' : lfs_world) : Prop :=
  calm w' ∧ mt_ID <$> mw_tasks (lw_mirror w') = mt_ID <$> mw_tasks (lw_mirror w) ∧ mw_repos (lw_mirror w') = mw_repos (lw_mirror w) ∧
  lw_head w' = lw_head w ∧ lw_pushed w' = lw_pushed w ∧ (∀ oid, synced oid w → synced oid w') ∧
  (∀ k, undeliverable k → lw_store w !! k = None → lw_store w' !! k = None).

Lemma quiet_refl w : calm w → quiet w w.
Proof. done. Qed.
Lemma quiet_trans w1 w2 w3 : quiet w1 w2 → quiet w2 w3 → quiet w1 w3.
Proof. unfold quiet. intros (?&?&?&?&?&?&?) (?&?&?&?&?&?&?). split_and!; try congruence; eauto. Qed.

(** The effect of recording an object as [b] when the bucket has it as [b]. *)
Lemma UpdateOrCreate_quiet pointer b w k : calm w → key_of (p_Oid pointer) = Some k → (is_Some (lw_store w !! k) → b = true) →
  ∃ w', UpdateOrCreate (mk_lmo 0 (p_Oid pointer) (p_Size pointer) (r_ID repo) b false) w = (Ret tt, w') ∧ quiet w w' ∧
    lw_store w' = lw_store w ∧ (b = true → is_Some (lw_store w !! k) → synced (p_Oid pointer) w').
Proof.
  intros Hc Hk Hb. destruct (UpdateOrCreate_run (mk_lmo 0 (p_Oid pointer) (p_Size pointer) (r_ID repo) b false) w Hc)
    as (w' & Hrun & Hm & Hs & Hh & Hp & (o & Ho & [Hoid Hrid] & Hex) & Hoth). simpl in *.
  exists w'. split; [done|]. split; [|split; [done|]].
  - unfold quiet, calm. rewrite Hm, Hs, Hh, Hp. split_and!; try done. intros oid [Hst (x & Hx & Hxo & Hxr & Hxe)].
    split; [unfold stored in *; by rewrite Hs|]. destruct (decide (p_Oid pointer = oid)) as [<-|Hne].
    + exists o. split_and!; try done. rewrite Hex. apply Hb. destruct Hst as (k' & Hk' & ?). congruence.
    + exists x. split_and!; try done. apply Hoth; [done|]. intros [He _]. simpl in He. congruence.
  - intros Hbt Hst. split; [exists k; by rewrite Hs|]. exists o. split_and!; try done. by rewrite Hex.
Qed.

Lemma quiet_store w k size : calm w → lw_store w !! k = None → ¬ undeliverable k → quiet w (on_store (insert k size) w).
Proof.
  intros Hc Hk Hd. unfold quiet, calm in *. simpl. split_and!; try done.
  - intros oid [(k' & Hk' & [z Hz]) Ho]. split; [|done]. exists k'. split; [done|]. simpl. rewrite lookup_insert_is_Some'. right. by exists z.
  - intros k' Hu Hn. rewrite lookup_insert_ne; [done|]. by intros ->.
Qed.

(** A file that every transfer delivers. *)
Definition delivered (p : Pointer) : Prop := DownloadURL p ≠ [] ∧ ∀ part, transfer part p = Uploaded (p_Size p).

Lemma part_size_some size : ∃ part, part_size PartSize size = Some part.
Proof. unfold part_size. rewrite decide_False by done. case_decide; eauto. Qed.

Lemma download_run p k w : calm w → key_of (p_Oid p) = Some k → ∃ r w',
  io_try (downloadAndUploadLFSFile missing transfer PartSize repo p) w = (Ret r, w') ∧ quiet w w' ∧ (delivered p → synced (p_Oid p) w').
Proof.
  intros Hc Hk. unfold downloadAndUploadLFSFile. fold (key_of (p_Oid p)). rewrite Hk. unfold io_try.
  rewrite (io_bind_run _ _ _ _ _ (exists_run k w Hc)).
  destruct (UpdateOrCreate_quiet p (bool_decide (is_Some (lw_store w !! k))) w k Hc Hk) as (w1 & Hr1 & Hq1 & Hs1 & Hsy1); [by intros; apply bool_decide_eq_true|].
  rewrite (io_bind_run _ _ _ _ _ (io_wrap_run _ _ _ _ _ Hr1)). destruct (bool_decide (is_Some (lw_store w !! k))) eqn:Hb.
  { apply bool_decide_eq_true in Hb. exists (Ok tt), w1. split_and!; [done..|]. intros _. by apply Hsy1. }
  apply bool_decide_eq_false in Hb. rewrite <-eq_None_not_Some, <-Hs1 in Hb. clear Hsy1.
  assert (calm w1) as Hc1 by apply Hq1.
  case_decide as Hu; [eexists _, w1; split_and!; [done..|]; by intros []|].
  destruct (part_size_some (p_Size p)) as [part ->]. destruct (transfer part p) as [e|size] eqn:Ht.
  { eexists _, w1. split_and!; [done..|]. intros [_ Hd]. by rewrite Hd in Ht. }
  set (w2 := on_store (insert k size) w1). assert (io_modify (on_store (insert k size)) w1 = (Ret tt : outcome merr unit, w2)) as Hm by done.
  rewrite (io_bind_run _ _ _ _ _ Hm). assert (calm w2) as Hc2 by done. pose proof (StatObject_run k w2 Hc2) as Hst.
  assert (lw_store w2 !! k = Some size) as Hk2 by apply lookup_insert_eq. rewrite Hk2 in Hst.
  rewrite (io_bind_run _ _ _ _ _ (io_wrap_run _ _ _ _ _ Hst)). case_decide as Hsz.
  - unfold RemoveObject, mbind, io_bind, io_try. rewrite (fault_run w2 Hc2). unfold io_modify, io_fail. eexists _, _. split; [done|]. split.
    + replace (on_store (delete k) w2) with w1; [done|]. unfold w2, on_store. destruct w1 as [m os n s h ps]. simpl in *.
      f_equal. by rewrite delete_insert_eq, delete_id.
    + intros [_ Hd]. rewrite Hd in Ht. injection Ht as <-. done.
  - subst size.
    assert (quiet w1 w2) as Hq2 by (apply quiet_store; [done..|intros Hud; by apply (Hud part p)]).
    destruct (UpdateOrCreate_quiet p true w2 k Hc2 Hk) as (w3 & Hr3 & Hq3 & Hs3 & Hsy3); [done|].
    rewrite (io_wrap_run _ _ _ _ _ Hr3). eexists _, w3. split_and!; [done|by eapply quiet_trans, quiet_trans|].
    intros _. apply Hsy3; [done|]. by rewrite Hk2.
Qed.

Lemma mt_Update_quiet mt w : calm w → ∃ w', io_try (lift (mt_Update now mt)) w = (Ret (Ok tt), w') ∧ quiet w w'.
Proof.
  intros Hc. unfold io_try, lift, mt_Update. rewrite (io_bind_run _ _ _ _ _ (lfault_run _ Hc)). simpl. eexists. split; [done|].
  unfold quiet, calm, on_tasks. simpl. split_and!; try done. apply put_task_ids.
Qed.

(** *** All files *)

Lemma files_run total ps : ∀ mt n w, calm w → (∀ p, p ∈ ps → is_Some (key_of (p_Oid p))) → ∃ pr n' w',
  files_loop missing transfer PartSize now repo total ps mt n w = (Ret (set_Progress pr mt, n', None), w') ∧
  quiet w w' ∧ (∀ p, p ∈ ps → delivered p → synced (p_Oid p) w').
Proof.
  induction ps as [|p ps IH]; intros mt n w Hc Hk; cbn [files_loop].
  { exists (Progress mt), n, w. split_and!; [by destruct mt|done|]. set_solver. }
  destruct (Hk p) as [k Hkp]; [by left|]. destruct (download_run p k w Hc Hkp) as (r & w1 & Hr1 & Hq1 & Hs1).
  rewrite (io_bind_run _ _ _ _ _ Hr1). cbv zeta. set (mt1 := set_Progress _ mt).
  destruct (mt_Update_quiet mt1 w1) as (w2 & Hr2 & Hq2); [apply Hq1|]. rewrite (io_bind_run _ _ _ _ _ Hr2).
  destruct (IH mt1 (n + 1) w2) as (pr & n' & w3 & Hr3 & Hq3 & Hs3); [apply Hq2|set_solver|].
  exists pr, n', w3. rewrite Hr3. split_and!; [done|by eapply quiet_trans, quiet_trans|].
  intros q [->|Hq]%elem_of_cons Hd; [|by apply Hs3]. apply Hq3, Hq2, Hs1. done.
Qed.

(** The batch API answers for groups of known keys with known keys. *)
Definition answers (g : list Pointer) : Prop := ∃ g', urls g = Ok g' ∧ ∀ p, p ∈ g' → is_Some (key_of (p_Oid p)).
Definition answer_of (g : list Pointer) : list Pointer := match urls g with Ok g' => g' | Err _ => [] end.

Lemma groups_run total gs : ∀ mt n w, calm w → Forall answers gs → ∃ pr w',
  groups_loop missing urls transfer PartSize now repo total gs mt n w = (Ret (set_Progress pr mt, None), w') ∧
  quiet w w' ∧ (∀ g p, g ∈ gs → p ∈ answer_of g → delivered p → synced (p_Oid p) w').
Proof.
  induction gs as [|g gs IH]; intros mt n w Hc Ha; cbn [groups_loop].
  { exists (Progress mt), w. split_and!; [by destruct mt|done|]. set_solver. }
  apply Forall_cons in Ha as [(g' & Hg & Hk) Ha]. rewrite Hg.
  destruct (files_run total g' mt n w Hc Hk) as (pr & n' & w1 & Hr1 & Hq1 & Hs1). rewrite (io_bind_run _ _ _ _ _ Hr1).
  destruct (IH (set_Progress pr mt) n' w1) as (pr2 & w2 & Hr2 & Hq2 & Hs2); [apply Hq1|done|]. exists pr2, w2. cbv iota beta. rewrite Hr2.
  split_and!; [done|by eapply quiet_trans|]. intros h p [->|Hh]%elem_of_cons Hp Hd; [|by apply (Hs2 h)].
  apply Hq2. apply Hs1; [|done]. unfold answer_of in Hp. by rewrite Hg in Hp.
Qed.

(** *** The objects of the repository *)

Definition repo_rows (w : lfs_world) : list LfsMetaObject := filter (λ o, lmo_RepositoryID o = r_ID repo) (lw_objects w).
Definition keyed (w : lfs_world) : Prop := ∀ o, o ∈ repo_rows w → is_Some (key_of (lmo_Oid o)).
Definition pointer_of (o : LfsMetaObject) : Pointer := mk_ptr (lmo_Oid o) (lmo_Size o) [].
Definition mark (o : LfsMetaObject) : LfsMetaObject := mk_lmo (lmo_ID o) (lmo_Oid o) (lmo_Size o) (lmo_RepositoryID o) true (XnetUsed o).
(** What is to be fetched. *)
Definition wanted (w : lfs_world) : list Pointer := pointer_of <$> filter (λ o, ¬ stored (lmo_Oid o) w) (repo_rows w).

Lemma sync_pointers_loop_run w objs : calm w → (∀ o, o ∈ objs → is_Some (key_of (lmo_Oid o))) → ∀ ps ts,
  sync_pointers_loop missing repo objs ps ts w =
    (Ret (ps ++ (pointer_of <$> filter (λ o, ¬ stored (lmo_Oid o) w) objs), ts ++ (mark <$> filter (λ o, stored (lmo_Oid o) w) objs)), w).
Proof.
  intros Hc. induction objs as [|o objs IH]; intros Hk ps ts; cbn [sync_pointers_loop]; [by rewrite !app_nil_r|].
  destruct (Hk o) as [k Hko]; [by left|]. fold (key_of (lmo_Oid o)). rewrite Hko, (io_bind_run _ _ _ _ _ (exists_run k w Hc)).
  assert (stored (lmo_Oid o) w ↔ is_Some (lw_store w !! k)) as Hst by (unfold stored; rewrite Hko; naive_solver).
  rewrite !filter_cons. case_bool_decide as Hb; rewrite IH by set_solver.
  - rewrite (decide_False (P := ¬ stored _ _)), decide_True by tauto. by rewrite <-(assoc_L (++)).
  - rewrite decide_True, (decide_False (P := stored _ _)) by tauto. by rewrite <-(assoc_L (++)).
Qed.

Lemma getSyncPointers_run w : calm w → keyed w → ∃ w', getSyncPointers missing repo w = (Ret (wanted w), w') ∧ quiet w w' ∧
  lw_mirror w' = lw_mirror w ∧ lw_store w' = lw_store w ∧ lw_head w' = lw_head w ∧ lw_pushed w' = lw_pushed w ∧
  (∀ o, o ∈ repo_rows w → stored (lmo_Oid o) w → synced (lmo_Oid o) w') ∧
  ((∃ o, o ∈ repo_rows w ∧ stored (lmo_Oid o) w) → repo_rows w' = mark <$> filter (λ o, stored (lmo_Oid o) w) (repo_rows w)).
Proof.
  intros Hc Hk. unfold getSyncPointers, FindByRepoID, mbind, io_bind, io_wrap, io_gets. rewrite (fault_run w Hc). fold (repo_rows w).
  rewrite (sync_pointers_loop_run w (repo_rows w) Hc Hk [] []). rewrite !app_nil_l. fold (wanted w). cbn [fst snd].
  set (marks := mark <$> filter (λ o, stored (lmo_Oid o) w) (repo_rows w)). destruct marks as [|x l] eqn:Hm.
  - assert (∀ o, o ∈ repo_rows w → ¬ stored (lmo_Oid o) w) as Hno.
    { intros o Ho Hs. apply fmap_nil_inv in Hm. assert (o ∈ @nil LfsMetaObject) as []%elem_of_nil. rewrite <-Hm. by apply list_elem_of_filter. }
    exists w. split_and!; try done; naive_solver.
  - rewrite <-Hm. unfold BulkUpdateOrCreate, mbind, io_bind, io_try. rewrite (fault_run w Hc).
    unfold io_modify. eexists. split; [done|]. clear Hm. set (w' := on_objects _ w).
    assert (∀ o, o ∈ repo_rows w → stored (lmo_Oid o) w → synced (lmo_Oid o) w') as Hsy.
    { intros o Ho Hs. pose proof Ho as [Hr _]%list_elem_of_filter. split; [done|]. exists (mark o). simpl. split_and!; try done.
      apply elem_of_app. right. apply list_elem_of_fmap. exists o. split; [done|]. by apply list_elem_of_filter. }
    split_and!; try done.
    + unfold quiet. split_and!; try done. intros oid [Hs (o & Ho & <- & Hr & _)]. apply Hsy; [by apply list_elem_of_filter|done].
    + intros _. unfold repo_rows at 1, w', on_objects. cbn [lw_objects]. rewrite filter_app, filter_all_out.
      * apply filter_all_in. intros y (o & -> & [_ [Hr _]%list_elem_of_filter]%list_elem_of_filter)%list_elem_of_fmap. done.
      * intros y [Hy _]%list_elem_of_filter. done.
Qed.

Hypothesis Hpath : ∃ ns, GetNamespaceAndNameFromPath (r_Path repo) = Ok ns.

Lemma publish_commit_run mt w : calm w → publish_commit repo mt w =
  (Ret tt, mk_lw (lw_mirror w) (lw_objects w) (lw_next w) (lw_store w) (AfterLastCommitID mt) (lw_pushed w ++ [AfterLastCommitID mt])).
Proof.
  intros Hc. unfold publish_commit. destruct Hpath as [ns ->].
  unfold getRepoLastCommit, UpdateRef, triggerGitCallback, mbind, io_bind, io_wrap, io_gets, io_modify. rewrite (fault_run w Hc). case_decide as Hd.
  - rewrite (fault_run w Hc). simpl. set (w1 := mk_lw _ _ _ _ _ _). assert (calm w1) as Hc1 by done. by rewrite !(fault_run w1 Hc1).
  - simpl. rewrite !(fault_run w Hc). by rewrite Hd.
Qed.

(** *** A sync *)

Definition sync_effect (mt : MirrorTask) (w w' : lfs_world) : Prop :=
  calm w' ∧ mt_ID <$> mw_tasks (lw_mirror w') = mt_ID <$> mw_tasks (lw_mirror w) ∧ mw_repos (lw_mirror w') = mw_repos (lw_mirror w) ∧
  lw_head w' = AfterLastCommitID mt ∧ (∀ oid, synced oid w → synced oid w') ∧
  (∀ k, undeliverable k → lw_store w !! k = None → lw_store w' !! k = None).

Lemma publish_effect pr mt w w' : quiet w w' → ∃ w'', publish_commit repo (set_Progress pr mt) w' = (Ret tt, w'') ∧ sync_effect mt w w'' ∧
  (∀ oid, synced oid w' → synced oid w'') ∧ lw_store w'' = lw_store w'.
Proof.
  intros (Hc&Hi&Hr&_&_&Hs&Hu). eexists. split; [by apply publish_commit_run|]. unfold sync_effect, calm. simpl. split_and!; try done.
Qed.

Definition sync_groups (w : lfs_world) : list (list Pointer) := SplitPointersBySizeAndCount (wanted w).

Lemma SyncLfs_run mt w : calm w → keyed w → is_Some (mt_Mirror mt) → Forall answers (sync_groups w) → ∃ pr w',
  SyncLfs missing urls transfer PartSize now (Some repo) mt w = (Ret (set_Progress pr mt, None), w') ∧ sync_effect mt w w' ∧
  (∀ o, o ∈ repo_rows w → stored (lmo_Oid o) w → synced (lmo_Oid o) w') ∧
  (∀ g p, g ∈ sync_groups w → p ∈ answer_of g → delivered p → synced (p_Oid p) w') ∧
  (wanted w = [] → lw_store w' = lw_store w).
Proof.
  intros Hc Hk [m Hm] Ha. unfold SyncLfs. rewrite Hm. destruct (getSyncPointers_run w Hc Hk) as (w1 & Hr1 & Hq1 & _ & Hst1 & _ & _ & Hsy1 & _).
  rewrite (io_bind_run _ _ _ _ _ (io_try_run _ _ _ _ Hr1)). cbv beta iota.
  assert (∃ pr w2, (match wanted w with [] => mret (mt, None)
      | _ => downloadAndUploadLFSFiles missing urls transfer PartSize now repo (SplitPointersBySizeAndCount (wanted w)) mt end) w1
      = (Ret (set_Progress pr mt, None), w2) ∧ quiet w1 w2 ∧
      (∀ g p, g ∈ sync_groups w → p ∈ answer_of g → delivered p → synced (p_Oid p) w2) ∧ (wanted w = [] → w2 = w1)) as (pr & w2 & Hr2 & Hq2 & Hsy2 & Hst2).
  { destruct (wanted w) as [|p ps] eqn:Hw.
    - exists (Progress mt), w1. unfold sync_groups. rewrite Hw. split_and!; [by destruct mt|exact (quiet_refl w1 (proj1 Hq1))|set_solver|done].
    - unfold downloadAndUploadLFSFiles. unfold sync_groups in *. rewrite Hw in *.
      destruct (groups_run (len (concat (SplitPointersBySizeAndCount (p :: ps)))) _ mt 0 w1 (proj1 Hq1) Ha) as (pr & w2 & Hr2 & Hq2 & Hsy2). by exists pr, w2. }
  rewrite (io_bind_run _ _ _ _ _ Hr2). cbv iota beta.
  destruct (publish_effect pr mt w w2) as (w3 & Hr3 & He3 & Hs3 & Hst3); [by eapply quiet_trans|].
  rewrite (io_bind_run _ _ _ _ _ (io_try_run _ _ _ _ Hr3)). exists pr, w3. split_and!; [done|done|..].
  - intros o Ho Hs. apply Hs3, Hq2, Hsy1; done.
  - intros g p Hg Hp Hd. apply Hs3. by apply (Hsy2 g).
  - intros Hw. rewrite Hst3, Hst2, Hst1; done.
Qed.

(** The task's row and the repository once it is settled. *)
Definition finished (mt : MirrorTask) (w : lfs_world) : Prop :=
  (∃ row, row ∈ mw_tasks (lw_mirror w) ∧ mt_ID row = mt_ID mt ∧ Status row = MirrorLfsSyncFinished ∧ Progress row = 100) ∧
  ∃ m, mt_Mirror mt = Some m ∧ mw_repos (lw_mirror w) !! m_RepositoryID m = Some SyncStatusCompleted.

(** A task a worker is given: started, with its row and repository there. *)
Definition startable (mt : MirrorTask) (w : lfs_world) : Prop :=
  Status mt = MirrorLfsSyncStart ∧ mt_ID mt ∈ mt_ID <$> mw_tasks (lw_mirror w) ∧
  ∃ m, mt_Mirror mt = Some m ∧ is_Some (mw_repos (lw_mirror w) !! m_RepositoryID m).

Lemma Run_run mt w : calm w → keyed w → startable mt w → Forall answers (sync_groups w) → ∃ w',
  Run missing urls transfer PartSize now true true Should (Some repo) mt w = (Ret tt, w') ∧ finished mt w' ∧ lw_head w' = AfterLastCommitID mt ∧
  (∀ o, o ∈ repo_rows w → stored (lmo_Oid o) w → synced (lmo_Oid o) w') ∧
  (∀ g p, g ∈ sync_groups w → p ∈ answer_of g → delivered p → synced (p_Oid p) w') ∧
  (∀ k, undeliverable k → lw_store w !! k = None → lw_store w' !! k = None) ∧ (wanted w = [] → lw_store w' = lw_store w).
Proof.
  intros Hc Hk (Hst & Hid & m & Hm & [s Hrepo]) Ha. unfold Run. simpl.
  destruct (SyncLfs_run mt w Hc Hk) as (pr & w1 & Hr1 & (Hc1 & Hi1 & Hrs1 & Hh1 & _ & Hu1) & Hs1 & Hd1 & Hw1); [by rewrite Hm|done|].
  rewrite (io_bind_run _ _ _ _ _ Hr1). cbv iota beta zeta. change (Status (set_Progress 100 (set_Progress pr mt))) with (Status mt). rewrite Hst. simpl.
  unfold UpdateStatusAndRepoSyncStatus, mbind, io_bind, io_try, lift. rewrite (lfault_run _ Hc1). simpl. rewrite Hm. unfold io_modify. rewrite Hrs1, Hrepo.
  eexists. split; [done|]. rewrite <-Hi1 in Hid. apply list_elem_of_fmap in Hid as (t & Htid & Ht).
  split_and!; try done. split; simpl.
  - eexists. split; [by eapply put_task_self|]. done.
  - exists m. split; [done|]. by rewrite lookup_insert_eq.
Qed.

(** A sync that gets no addresses fails; rows of stored objects, if there are
    any, are all that is left. *)
Lemma failed_sync reason mt w : (∀ g, urls g = Err (Text reason)) → calm w → keyed w → is_Some (mt_Mirror mt) → wanted w ≠ [] →
  Forall (λ p, 0 ≤ p_Size p < 2 ^ 62) (wanted w) → ∃ e w', is_canceled e = false ∧
  SyncLfs missing urls transfer PartSize now (Some repo) mt w = (Ret (mt, Some e), w') ∧
  lw_mirror w' = lw_mirror w ∧ lw_store w' = lw_store w ∧ lw_head w' = lw_head w ∧
  ((∃ o, o ∈ repo_rows w ∧ stored (lmo_Oid o) w) → repo_rows w' = mark <$> filter (λ o, stored (lmo_Oid o) w) (repo_rows w)).
Proof.
  intros Hu Hc Hk [m Hm] Hw Hsz. unfold SyncLfs. rewrite Hm.
  destruct (getSyncPointers_run w Hc Hk) as (w1 & Hr1 & _ & Hm1 & Hst1 & Hh1 & _ & _ & Hl).
  rewrite (io_bind_run _ _ _ _ _ (io_try_run _ _ _ _ Hr1)). cbv beta iota.
  pose proof (proj1 (split_loop_good (wanted w) [] [] Hsz (Forall_nil_2 _) (or_introl eq_refl) (conj (Z.le_refl 0) eq_refl))) as Hcat.
  destruct (wanted w) as [|p ps]; [done|]. unfold downloadAndUploadLFSFiles, SplitPointersBySizeAndCount. simpl total_size in Hcat.
  destruct (split_loop (p :: ps) [] [] 0) as [|g gs]; [done|]. cbn [groups_loop]. rewrite Hu.
  eexists _, w1. split_and!; [|reflexivity|done..]. done.
Qed.

End runs.

(** ** The properties *)

(** C13: When the source hands out an address for every file and every
    transfer delivers its file, a sync without failing calls puts the file of
    every object of the repository into the bucket, records it as existing,
    moves the branch to the mirrored commit and finishes the task, its
    repository as completed. *)
Theorem sync_stores_all missing urls transfer PartSize now repo mt w :
  i64 (PartSize * 1024 * 1024) ≠ 0 → (∃ ns, GetNamespaceAndNameFromPath (r_Path repo) = Ok ns) →
  calm w → keyed repo w → startable mt w → Forall (λ p, 0 ≤ p_Size p < 2 ^ 62) (wanted repo w) →
  (∀ g, g ∈ sync_groups repo w → ∃ g', urls g = Ok g' ∧ (p_Oid <$> g') = (p_Oid <$> g) ∧ Forall (delivered transfer) g') →
  ∃ w', Run missing urls transfer PartSize now true true Should (Some repo) mt w = (Ret tt, w') ∧
    finished mt w' ∧ lw_head w' = AfterLastCommitID mt ∧ ∀ o, o ∈ repo_rows repo w → synced repo (lmo_Oid o) w'.
Proof.
  intros Hp Hpath Hc Hk Hst Hsz Hu. assert (concat (sync_groups repo w) = wanted repo w) as Hcat.
  { apply (split_loop_good (wanted repo w) [] []); [done..|by left|simpl; lia]. }
  assert (∀ g p, g ∈ sync_groups repo w → p ∈ g → p ∈ wanted repo w) as Hin.
  { intros g p Hg Hpg. rewrite <-Hcat. apply list_elem_of_In, in_concat. exists g. by rewrite <-!list_elem_of_In. }
  destruct (Run_run missing urls transfer PartSize now repo Hp Hpath mt w Hc Hk Hst) as (w' & Hr & Hf & Hh & Hs & Hd & _).
  { apply Forall_forall. intros g Hg. destruct (Hu g Hg) as (g' & Hg' & Hids & _). exists g'. split; [done|]. intros p Hpg.
    assert (p_Oid p ∈ p_Oid <$> g) as (q & -> & Hq)%list_elem_of_fmap by (rewrite <-Hids; by apply list_elem_of_fmap_2).
    pose proof (Hin g q Hg Hq) as (o & -> & [_ Ho]%list_elem_of_filter)%list_elem_of_fmap. by apply Hk. }
  exists w'. split_and!; [done..|]. intros o Ho. destruct (decide (stored repo (lmo_Oid o) w)) as [Hso|Hso]; [by apply Hs|].
  assert (pointer_of o ∈ concat (sync_groups repo w)) as Hpo by (rewrite Hcat; apply list_elem_of_fmap_2, list_elem_of_filter; done).
  apply list_elem_of_In, in_concat in Hpo as (g & Hg%list_elem_of_In & Hpg%list_elem_of_In).
  destruct (Hu g Hg) as (g' & Hg' & Hids & Hdel).
  assert (lmo_Oid o ∈ p_Oid <$> g') as (q & Hqo & Hq)%list_elem_of_fmap by (rewrite Hids; by apply (list_elem_of_fmap_2 p_Oid _ (pointer_of o))).
  rewrite Hqo. apply (Hd g q Hg); [unfold answer_of; by rewrite Hg'|]. rewrite Forall_forall in Hdel. by apply Hdel.
Qed.

(** A file that cannot be transferred does not keep its task from
    finishing: the branch moves to the mirrored commit and the repository is
    completed, with the file missing from the bucket. *)
Theorem failed_downloads_finish missing urls transfer PartSize now repo mt w o k :
  i64 (PartSize * 1024 * 1024) ≠ 0 → (∃ ns, GetNamespaceAndNameFromPath (r_Path repo) = Ok ns) →
  calm w → keyed repo w → startable mt w → Forall (answers urls repo) (sync_groups repo w) →
  o ∈ repo_rows repo w → key_of repo (lmo_Oid o) = Some k → lw_store w !! k = None → undeliverable transfer repo k →
  ∃ w', Run missing urls transfer PartSize now true true Should (Some repo) mt w = (Ret tt, w') ∧
    finished mt w' ∧ lw_head w' = AfterLastCommitID mt ∧ lw_store w' !! k = None.
Proof.
  intros Hp Hpath Hc Hk Hst Ha Ho Hko Hn Hu.
  destruct (Run_run missing urls transfer PartSize now repo Hp Hpath mt w Hc Hk Hst Ha) as (w' & Hr & Hf & Hh & _ & _ & Hs & _).
  exists w'. split_and!; [done..|]. by apply Hs.
Qed.

(** When a repository has both stored and missing files and the source's
    batch API fails, the rows of the missing files are gone. A later run of
    the task, started anew, finishes it and moves the branch without fetching
    anything, whatever the source would answer then. *)
Theorem failed_sync_forgets_files missing urls reason transfer PartSize now repo mt m w o o' :
  i64 (PartSize * 1024 * 1024) ≠ 0 → (∃ ns, GetNamespaceAndNameFromPath (r_Path repo) = Ok ns) →
  calm w → keyed repo w → Status mt = MirrorLfsSyncStart → mt_Mirror mt = Some m →
  Forall (λ p, 0 ≤ p_Size p < 2 ^ 62) (wanted repo w) →
  o ∈ repo_rows repo w → stored repo (lmo_Oid o) w → o' ∈ repo_rows repo w → ¬ stored repo (lmo_Oid o') w →
  (∀ g, urls g = Err (Text reason)) →
  ∃ w1, Run missing urls transfer PartSize now true true Should (Some repo) mt w = (Ret tt, w1) ∧
    (∀ x, x ∈ repo_rows repo w1 → stored repo (lmo_Oid x) w1) ∧
    ∀ urls2 transfer2 now2 mw mt2, mw_faults mw = [] → startable mt2 (set_mirror mw w1) →
      ∃ w2, Run missing urls2 transfer2 PartSize now2 true true Should (Some repo) mt2 (set_mirror mw w1) = (Ret tt, w2) ∧
        finished mt2 w2 ∧ lw_head w2 = AfterLastCommitID mt2 ∧ ¬ stored repo (lmo_Oid o') w2.
Proof.
  intros Hp Hpath Hc Hk Hst Hm Hsz Ho Hso Ho' Hso' Hu.
  destruct (failed_sync missing urls transfer PartSize now repo Hp reason mt w Hu Hc Hk) as (e & w1 & Hce & Hr1 & Hm1 & Hs1 & _ & Hrows); [by rewrite Hm| |done|].
  { intros Hw%fmap_nil_inv. assert (o' ∈ @nil LfsMetaObject) as []%elem_of_nil. rewrite <-Hw. by apply list_elem_of_filter. }
  specialize (Hrows (ex_intro _ o (conj Ho Hso))).
  assert (∃ mw1, Run missing urls transfer PartSize now true true Should (Some repo) mt w = (Ret tt, set_mirror mw1 w1)) as [mw1 Hrun].
  { unfold Run. cbn [negb]. rewrite (io_bind_run _ _ _ _ _ Hr1). cbv beta iota zeta. rewrite Hce.
    change (Status (set_ErrorMessage (Error e) mt)) with (Status mt). rewrite Hst. cbn [SubmitEvent].
    unfold UpdateStatusAndRepoSyncStatus, mbind, io_bind, io_try, lift. simpl. rewrite Hm1, (lfault_run _ Hc). simpl. rewrite Hm. simpl. by eexists. }
  exists (set_mirror mw1 w1). split; [done|].
  assert (∀ mw x, x ∈ repo_rows repo (set_mirror mw w1) → is_Some (key_of repo (lmo_Oid x)) ∧ stored repo (lmo_Oid x) (set_mirror mw w1)) as Hall.
  { intros mw x Hx. change (x ∈ repo_rows repo w1) in Hx. rewrite Hrows in Hx.
    apply list_elem_of_fmap in Hx as (y & -> & [Hy Hyr]%list_elem_of_filter). split; [exact (Hk y Hyr)|]. unfold stored in *. simpl. by rewrite Hs1. }
  split; [intros x Hx; by apply Hall|]. intros urls2 transfer2 now2 mw mt2 Hmw Hst2.
  assert (wanted repo (set_mirror mw w1) = []) as Hw.
  { unfold wanted. rewrite filter_all_out; [done|]. intros x Hx Hn. apply Hn. by apply Hall. }
  destruct (Run_run missing urls2 transfer2 PartSize now2 repo Hp Hpath mt2 (set_mirror mw w1)) as (w2 & Hr2 & Hf2 & Hh2 & _ & _ & _ & Hst'); [done| |done| |].
  - intros x Hx. by apply (Hall mw).
  - unfold sync_groups. rewrite Hw. constructor.
  - exists w2. split_and!; [done..|]. unfold stored in *. rewrite Hst' by done. simpl. by rewrite Hs1.
Qed.

(** ** Instances *)

Definition ex_repo : RepoInfo := mk_repo 70 (bs "ns/model") false.
Definition ex_mt : MirrorTask :=
  mk_mt 3 7 (Some (mk_mirror 7 70 3 4)) [] MirrorLfsSyncStart 0 [] 9 [] (bs "c2") 0 100.
Definition ex_lw : lfs_world :=
  mk_lw ex_world [mk_lmo 1 (bs "aabb01") 5 70 false false; mk_lmo 2 (bs "ccdd02") 6 70 false false; mk_lmo 3 (bs "eeff03") 7 71 false false] 4
    {[ bs "lfs/aa/bb/01" := 5 ]} (bs "c1") [].
Definition addresses (g : list Pointer) : result (list Pointer) merr :=
  Ok ((λ p, mk_ptr (p_Oid p) (p_Size p) (bs "https://hub/" ++ p_Oid p)) <$> g).
Definition unreachable (g : list Pointer) : result (list Pointer) merr := Err (Text (bs "unexpected status code: 503")).
Definition deliver (part : Z) (p : Pointer) : upload := Uploaded (p_Size p).
Definition refuse (part : Z) (p : Pointer) : upload := UploadErr (Text (bs "connection reset")).

Lemma ex_keyed : keyed ex_repo ex_lw.
Proof. intros o Ho. vm_compute in Ho. repeat (apply elem_of_cons in Ho as [->|Ho]; [vm_compute; eauto|]). by apply elem_of_nil in Ho. Qed.
Lemma ex_startable : startable ex_mt ex_lw.
Proof. split_and!; [done|set_solver|]. eexists. split; [reflexivity|]. vm_compute. by eexists. Qed.
Lemma ex_path : ∃ ns, GetNamespaceAndNameFromPath (r_Path ex_repo) = Ok ns.
Proof. vm_compute. by eexists. Qed.
Lemma ex_wanted : wanted ex_repo ex_lw = [mk_ptr (bs "ccdd02") 6 []].
Proof. vm_compute. reflexivity. Qed.
Lemma ex_groups : sync_groups ex_repo ex_lw = [[mk_ptr (bs "ccdd02") 6 []]].
Proof. unfold sync_groups. by rewrite ex_wanted. Qed.

Theorem sync_stores_all_witness : ∃ w',
  Run [] addresses deliver 64 200 true true Should (Some ex_repo) ex_mt ex_lw = (Ret tt, w') ∧ finished ex_mt w' ∧ lw_head w' = bs "c2" ∧
  synced ex_repo (bs "aabb01") w' ∧ synced ex_repo (bs "ccdd02") w'.
Proof.
  destruct (sync_stores_all [] addresses deliver 64 200 ex_repo ex_mt ex_lw) as (w' & Hr & Hf & Hh & Hs).
  - by vm_compute.
  - apply ex_path.
  - done.
  - apply ex_keyed.
  - apply ex_startable.
  - rewrite ex_wanted. by repeat constructor.
  - rewrite ex_groups. intros g ->%list_elem_of_singleton. eexists. split; [reflexivity|]. split; [done|]. by repeat constructor.
  - exists w'. split_and!; try done.
    + apply (Hs (mk_lmo 1 (bs "aabb01") 5 70 false false)). vm_compute. left.
    + apply (Hs (mk_lmo 2 (bs "ccdd02") 6 70 false false)). vm_compute. right. left.
Defined.

Theorem failed_downloads_finish_witness : ∃ w',
  Run [] addresses refuse 64 200 true true Should (Some ex_repo) ex_mt ex_lw = (Ret tt, w') ∧ finished ex_mt w' ∧
  lw_head w' = bs "c2" ∧ lw_store w' !! bs "lfs/cc/dd/02" = None.
Proof.
  apply (failed_downloads_finish [] addresses refuse 64 200 ex_repo ex_mt ex_lw (mk_lmo 2 (bs "ccdd02") 6 70 false false) (bs "lfs/cc/dd/02")).
  - by vm_compute.
  - apply ex_path.
  - done.
  - apply ex_keyed.
  - apply ex_startable.
  - rewrite ex_groups. constructor; [|constructor]. eexists. split; [reflexivity|]. intros p Hp. vm_compute in Hp.
    apply list_elem_of_singleton in Hp as ->. vm_compute. eauto.
  - vm_compute. right. left.
  - vm_compute. reflexivity.
  - vm_compute. reflexivity.
  - intros part p _. done.
Defined.

Theorem failed_sync_forgets_files_witness : ∃ w1 mt2 w1' w2,
  Run [] unreachable deliver 64 200 true true Should (Some ex_repo) ex_mt ex_lw = (Ret tt, w1) ∧
  SyncNow 300 3 w1 = (Ret mt2, w1') ∧
  Run [] addresses deliver 64 400 true true Should (Some ex_repo) mt2 w1' = (Ret tt, w2) ∧
  finished mt2 w2 ∧ lw_head w2 = bs "c2" ∧ ¬ stored ex_repo (bs "ccdd02") w2.
Proof.
  destruct (failed_sync_forgets_files [] unreachable (bs "unexpected status code: 503") deliver 64 200 ex_repo ex_mt (mk_mirror 7 70 3 4) ex_lw
    (mk_lmo 1 (bs "aabb01") 5 70 false false) (mk_lmo 2 (bs "ccdd02") 6 70 false false)) as (w1 & Hr1 & _ & Hlater).
  - by vm_compute.
  - apply ex_path.
  - done.
  - apply ex_keyed.
  - done.
  - done.
  - rewrite ex_wanted. by repeat constructor.
  - vm_compute. left.
  - exists (bs "lfs/aa/bb/01"). split; [by vm_compute|]. vm_compute. by eexists.
  - vm_compute. right. left.
  - apply (bool_decide_unpack _). vm_compute. done.
  - done.
  - assert (w1 = (Run [] unreachable deliver 64 200 true true Should (Some ex_repo) ex_mt ex_lw).2) as -> by (by rewrite Hr1).
    destruct (SyncNow 300 3 (Run [] unreachable deliver 64 200 true true Should (Some ex_repo) ex_mt ex_lw).2) as [o w1'] eqn:Hn.
    vm_compute in Hn. destruct o as [mt2| |]; try done. injection Hn as <- Hw1'.
    destruct (Hlater addresses deliver 400 (lw_mirror w1') (mk_mt 3 7 (Some (mk_mirror 7 70 0 4)) (Error (Wrap (bs "fail to download and upload lfs files: ")
      (Wrap (bs "failed to get lfs download urls: ") (Text (bs "unexpected status code: 503"))))) MirrorLfsSyncStart 0 [] 9 [] (bs "c2") 0 200))
      as (w2 & Hr2 & Hf2 & Hh2 & Hn2).
    + by subst w1'.
    + subst w1'. split_and!; [done|vm_compute; set_solver|]. eexists. split; [reflexivity|]. vm_compute. by eexists.
    + eexists _, _, _, w2. split_and!; [exact Hr1| |exact Hr2|exact Hf2|exact Hh2|exact Hn2]. vm_compute. subst w1'. reflexivity.
Defined.
