(* ===== verification/MirrorManager.v ===== *)
(** The LFS worker manager (mirror/manager/lfs_worker_manager.go): a loop that
    waits for a worker id in [conChan] and then for a task, goroutines that run
    a task under their id and give the id back, and calls that stop workers.
    Its interleavings are a step relation; the work of a task (MirrorLfs) is a
    goroutine's stay in [Running], tasks come from the dispatcher at any time. *)
From S2P Require Import Prelude.
Open Scope Z_scope.

(** Where [startWorker] is: before it holds the mutex, in [Run], or giving its
    id back. *)
Inductive phase := Starting | Running | Returning.
#[export] Instance phase_eq_dec : EqDecision phase.
Proof. solve_decision. Defined.

Record goroutine := mk_go { g_no : nat; g_id : Z; g_mirror : Z; g_phase : phase; g_canceled : bool }.

(** An entry of [workers]: the task's mirror and whom [cancel] reaches. *)
Record Worker := mk_worker { RunningTask : Z; worker_of : nat }.

(** The loop of [Start]: receiving an id, or holding one and waiting for a
    task. *)
Inductive loop_state := Receiving | Holding (id : Z).

(** A stop under way holds the mutex: the id it is sending back, if any, and
    the workers still to stop. *)
Record Manager := mk_manager {
  workerNumber : nat;
  conChan : list Z;
  loop : loop_state;
  workers : gmap Z Worker;
  goroutines : list goroutine;
  next_no : nat;
  priorityTasks : list Z;
  stopping : option (option Z * list Z);
}.

(** [InitManger] and the part of [Start] before its loop. *)
Definition init (n : nat) : Manager := mk_manager n (seqZ 1 (Z.of_nat n)) Receiving ∅ [] 0 [] None.

Definition set_conChan (c : list Z) (s : Manager) : Manager :=
  mk_manager (workerNumber s) c (loop s) (workers s) (goroutines s) (next_no s) (priorityTasks s) (stopping s).
Definition set_loop (l : loop_state) (s : Manager) : Manager :=
  mk_manager (workerNumber s) (conChan s) l (workers s) (goroutines s) (next_no s) (priorityTasks s) (stopping s).
Definition set_workers (ws : gmap Z Worker) (s : Manager) : Manager :=
  mk_manager (workerNumber s) (conChan s) (loop s) ws (goroutines s) (next_no s) (priorityTasks s) (stopping s).
Definition set_goroutines (gs : list goroutine) (s : Manager) : Manager :=
  mk_manager (workerNumber s) (conChan s) (loop s) (workers s) gs (next_no s) (priorityTasks s) (stopping s).
Definition set_priorityTasks (ps : list Z) (s : Manager) : Manager :=
  mk_manager (workerNumber s) (conChan s) (loop s) (workers s) (goroutines s) (next_no s) ps (stopping s).
Definition set_stopping (st : option (option Z * list Z)) (s : Manager) : Manager :=
  mk_manager (workerNumber s) (conChan s) (loop s) (workers s) (goroutines s) (next_no s) (priorityTasks s) st.

Definition has_room (s : Manager) : Prop := (length (conChan s) < workerNumber s)%nat.
Definition set_phase (p : phase) (g : goroutine) : goroutine := mk_go (g_no g) (g_id g) (g_mirror g) p (g_canceled g).

(** [worker.cancel()]: the context of the goroutine's run is canceled; when
    the run heeds that is its own affair. *)
Definition cancel (who : nat) (s : Manager) : Manager :=
  set_goroutines ((λ g, if decide (g_no g = who) then mk_go (g_no g) (g_id g) (g_mirror g) (g_phase g) true else g) <$> goroutines s) s.

(** [worker.cancel(); delete(m.workers, id)] *)
Definition cancel_worker (id : Z) (s : Manager) : Manager :=
  match workers s !! id with
  | Some w => set_workers (delete id (workers s)) (cancel (worker_of w) s)
  | None => s
  end.

(** The workers a mirror has, in the order [range] happens to go. *)
Definition workers_of (mirror : Z) (s : Manager) : list Z :=
  (filter (λ iw : Z * Worker, RunningTask iw.2 = mirror) (map_to_list (workers s))).*1.

(** The goroutine [startWorker(id, &mt)]. *)
Definition spawn (id mirror : Z) (s : Manager) : Manager :=
  mk_manager (workerNumber s) (conChan s) Receiving (workers s) (mk_go (next_no s) id mirror Starting false :: goroutines s)
    (S (next_no s)) (priorityTasks s) (stopping s).

(** Its part under the mutex: the mirror's other workers are canceled, the
    worker is registered. *)
Definition register (g : goroutine) (s : Manager) : Manager :=
  let s := foldr cancel_worker s (workers_of (g_mirror g) s) in
  set_workers (<[g_id g := mk_worker (g_mirror g) (g_no g)]> (workers s)) s.

Inductive label := LStop | LOther.

Inductive step : label → Manager → Manager → Prop :=
  (** [for id := range m.conChan] *)
  | step_receive id ids s : loop s = Receiving → conChan s = id :: ids →
      step LOther s (set_loop (Holding id) (set_conChan ids s))
  (** the two cases of [select] *)
  | step_take_priority id mirror ps1 ps2 s : loop s = Holding id → priorityTasks s = ps1 ++ mirror :: ps2 →
      step LOther s (spawn id mirror (set_priorityTasks (ps1 ++ ps2) s))
  | step_take id mirror s : loop s = Holding id → step LOther s (spawn id mirror s)
  (** [NewLFSSyncWorker] fails: [startWorker] returns *)
  | step_start_fails g gs1 gs2 s : goroutines s = gs1 ++ g :: gs2 → g_phase g = Starting →
      step LOther s (set_goroutines (gs1 ++ gs2) s)
  | step_register g gs1 gs2 s s' : goroutines s = gs1 ++ g :: gs2 → g_phase g = Starting → stopping s = None →
      s' = register g s →
      step LOther s (set_goroutines ((λ h, if decide (g_no h = g_no g) then set_phase Running h else h) <$> goroutines s') s')
  (** [Run] returns *)
  | step_finish g gs1 gs2 s : goroutines s = gs1 ++ g :: gs2 → g_phase g = Running →
      step LOther s (set_goroutines (gs1 ++ set_phase Returning g :: gs2) s)
  (** [m.conChan <- id] at the end of [startWorker] *)
  | step_return g gs1 gs2 s : goroutines s = gs1 ++ g :: gs2 → g_phase g = Returning → has_room s →
      step LOther s (set_conChan (conChan s ++ [g_id g]) (set_goroutines (gs1 ++ gs2) s))
  (** [ReRun]: the task waits in a goroutine of its own for the loop *)
  | step_rerun id mirror s : stopping s = None →
      step LOther s (set_priorityTasks (mirror :: priorityTasks s) (cancel_worker (if decide (id = 0) then 1 else id) s))
  (** [StopWorker] and [StopWorkerByMirrorID] find workers and lock the mutex *)
  | step_stop id s : stopping s = None → is_Some (workers s !! id) →
      step LStop s (set_stopping (Some (None, [id])) s)
  | step_stop_mirror mirror ids s : stopping s = None → ids ≠ [] → ids ≡ₚ workers_of mirror s →
      step LStop s (set_stopping (Some (None, ids)) s)
  (** [worker.cancel(); delete(m.workers, id)] *)
  | step_stop_cancel id rest s : stopping s = Some (None, id :: rest) →
      step LStop s (set_stopping (Some (Some id, rest)) (cancel_worker id s))
  (** [m.conChan <- id], and the next worker or the end *)
  | step_stop_send id rest s : stopping s = Some (Some id, rest) → has_room s →
      step LStop s (set_stopping (match rest with [] => None | _ => Some (None, rest) end) (set_conChan (conChan s ++ [id]) s)).

Definition any_step (s s' : Manager) : Prop := ∃ l, step l s s'.
Definition quiet_step : Manager → Manager → Prop := step LOther.

(** ** What is counted *)

(** The ids about: in the channel, held by the loop, by goroutines, and on
    their way back from a stop. *)
Definition tokens (s : Manager) : list Z :=
  conChan s ++ (match loop s with Holding id => [id] | Receiving => [] end) ++ (g_id <$> goroutines s) ++
  (match stopping s with Some (Some id, _) => [id] | _ => [] end).
Definition running (s : Manager) : nat := length (filter (λ g, g_phase g = Running) (goroutines s)).
(** Workers at work, leaving out those that were told to stop. *)
Definition active (s : Manager) : nat := length (filter (λ g, g_phase g = Running ∧ g_canceled g = false) (goroutines s)).

(** * How many LFS workers run at once: at most the configured number as long as
    nothing stops them, and any number once workers are stopped. *)

(** ** Without stops *)

Lemma cancel_ids who s : g_id <$> goroutines (cancel who s) = g_id <$> goroutines s.
Proof. simpl. rewrite <-list_fmap_compose. apply list_fmap_ext. intros i g _. simpl. by case_decide. Qed.
Lemma cancel_worker_tokens id s : tokens (cancel_worker id s) = tokens s ∧ stopping (cancel_worker id s) = stopping s ∧
  workerNumber (cancel_worker id s) = workerNumber s.
Proof. unfold cancel_worker. destruct (workers s !! id) as [w|]; [|done]. split; [|done].
  change (tokens (cancel (worker_of w) s) = tokens s). unfold tokens. by rewrite cancel_ids. Qed.
Lemma cancel_workers_tokens ids s : tokens (foldr cancel_worker s ids) = tokens s ∧ stopping (foldr cancel_worker s ids) = stopping s ∧
  workerNumber (foldr cancel_worker s ids) = workerNumber s.
Proof.
  induction ids as [|id ids IH]; simpl; [done|]. destruct (cancel_worker_tokens id (foldr cancel_worker s ids)) as (-> & -> & ->). done.
Qed.
Lemma register_tokens g s : tokens (register g s) = tokens s ∧ stopping (register g s) = stopping s ∧ workerNumber (register g s) = workerNumber s.
Proof. unfold register. apply (cancel_workers_tokens (workers_of (g_mirror g) s) s). Qed.

Lemma set_phases_tokens f s : (∀ g, g_id (f g) = g_id g) → tokens (set_goroutines (f <$> goroutines s) s) = tokens s.
Proof. intros Hf. unfold tokens. simpl. do 3 f_equal. rewrite <-list_fmap_compose. apply list_fmap_ext. intros. apply Hf. Qed.

(** A step that is no stop never adds an id. *)
Lemma quiet_step_tokens s s' : quiet_step s s' → stopping s = None →
  tokens s' ⊆+ tokens s ∧ stopping s' = None ∧ workerNumber s' = workerNumber s.
Proof.
  unfold quiet_step. intros Hs. remember LOther as l eqn:Hl. destruct Hs as [id ids s Hlp Hc|id mi ps1 ps2 s Hlp _|id mi s Hlp|g gs1 gs2 s Hg _|g gs1 gs2 s s' Hg _ _ ->|g gs1 gs2 s Hg _|g gs1 gs2 s Hg _ _|id mi s _| | | | ];
    intros Hst; try done.
  - split; [|done]. unfold tokens. simpl. rewrite Hlp, Hc. simpl. solve_submseteq.
  - split; [|done]. unfold tokens. simpl. rewrite Hlp. simpl. done.
  - split; [|done]. unfold tokens. simpl. rewrite Hlp. simpl. done.
  - split; [|done]. unfold tokens. simpl. rewrite Hg, !fmap_app. simpl. solve_submseteq.
  - destruct (register_tokens g s) as (Ht & Hs1 & Hn). split; [|by split; [rewrite <-Hst, <-Hs1|rewrite <-Hn]].
    rewrite set_phases_tokens, Ht; [done|]. intros h. by case_decide.
  - split; [|done]. unfold tokens. simpl. rewrite Hg, !fmap_app. simpl. done.
  - split; [|done]. unfold tokens. simpl. rewrite Hg, !fmap_app. simpl. solve_submseteq.
  - destruct (cancel_worker_tokens (if decide (id = 0) then 1 else id) s) as (Ht & Hs1 & Hn).
    split; [|by split; [rewrite <-Hst, <-Hs1|rewrite <-Hn]]. change (tokens (set_priorityTasks ?p ?x)) with (tokens x). by rewrite Ht.
Qed.

(** C14: As long as no worker is stopped, whatever tasks arrive, fail to start
    or are run again, the ids in the channel, with the loop and with goroutines
    are distinct ids from 1 to the configured number, and no two goroutines share
    one: at most that many workers run, and giving an id back never blocks. *)
Theorem workers_bounded n s : rtc quiet_step (init n) s →
  tokens s ⊆+ seqZ 1 (Z.of_nat n) ∧ NoDup (g_id <$> goroutines s) ∧ (length (goroutines s) ≤ n)%nat ∧
  (goroutines s ≠ [] → has_room s).
Proof.
  intros Hr. assert (tokens s ⊆+ seqZ 1 (Z.of_nat n) ∧ stopping s = None ∧ workerNumber s = n) as (Ht & Hst & Hn).
  { apply (rtc_ind_r (R := quiet_step) (λ s, tokens s ⊆+ seqZ 1 (Z.of_nat n) ∧ stopping s = None ∧ workerNumber s = n) (init n)); [|..|done].
    - unfold tokens. simpl. by rewrite app_nil_r.
    - intros s1 s2 _ Hs (Ht & Hst & Hn). destruct (quiet_step_tokens s1 s2 Hs Hst) as (Ht2 & Hst2 & Hn2). split_and!; [by etrans|done|congruence]. }
  assert (NoDup (tokens s)) as Hnd.
  { destruct (submseteq_Permutation _ _ Ht) as [k Hk]. pose proof (NoDup_seqZ 1 (Z.of_nat n)) as Hnd. rewrite Hk in Hnd. by apply NoDup_app in Hnd as (? & _). }
  pose proof (submseteq_length _ _ Ht) as Hlen. rewrite length_seqZ, Nat2Z.id in Hlen.
  unfold tokens, has_room in *. rewrite !length_app, length_fmap in Hlen. split_and!; [done|..|lia|].
  - apply NoDup_app in Hnd as (_ & _ & Hnd). apply NoDup_app in Hnd as (_ & _ & Hnd). by apply NoDup_app in Hnd as (? & _).
  - intros Hg. destruct (goroutines s); [done|]. simpl in Hlen. lia.
Qed.

Theorem workers_bounded_witness : ∃ s, rtc quiet_step (init 2) s ∧ goroutines s = [mk_go 0 1 7 Starting false] ∧ has_room s ∧
  tokens s ⊆+ [1; 2].
Proof.
  exists (spawn 1 7 (set_loop (Holding 1) (set_conChan [2] (init 2)))).
  assert (rtc quiet_step (init 2) (spawn 1 7 (set_loop (Holding 1) (set_conChan [2] (init 2))))) as Hr.
  { eapply rtc_l; [by apply (step_receive 1 [2])|]. eapply rtc_l; [by apply (step_take 1 7)|]. constructor. }
  destruct (workers_bounded 2 _ Hr) as (Ht & _ & _ & Hroom). split_and!; [exact Hr|reflexivity|by apply Hroom|exact Ht].
Defined.

(** ** With stops *)

Definition fresh_nos (s : Manager) : Prop := NoDup (g_no <$> goroutines s) ∧ Forall (λ g, (g_no g < next_no s)%nat) (goroutines s).

Lemma fresh_spawn s id mirror ph c : fresh_nos s →
  NoDup (g_no <$> mk_go (next_no s) id mirror ph c :: goroutines s) ∧
  Forall (λ g, (g_no g < S (next_no s))%nat) (mk_go (next_no s) id mirror ph c :: goroutines s).
Proof.
  intros [Hnd Hlt]. split.
  - apply NoDup_cons. split; [|done]. intros (g & Hg & Hin)%list_elem_of_fmap. rewrite Forall_forall in Hlt. apply Hlt in Hin. simpl in Hg. lia.
  - constructor; simpl; [lia|]. eapply Forall_impl; [done|]. simpl. lia.
Qed.
Lemma map_other_nos (f : goroutine → goroutine) no gs : Forall (λ g, g_no g ≠ no) gs →
  (λ g, if decide (g_no g = no) then f g else g) <$> gs = gs.
Proof. intros Hf. rewrite Forall_forall in Hf. rewrite <-(list_fmap_id gs) at 2. apply list_fmap_ext. intros i g Hg%list_elem_of_lookup_2. rewrite decide_False by auto. done. Qed.
Lemma older_nos s no : (next_no s ≤ no)%nat → fresh_nos s → Forall (λ g, g_no g ≠ no) (goroutines s).
Proof. intros Hle [_ Hlt]. eapply Forall_impl; [done|]. simpl. lia. Qed.

(** The loop takes an id and a task of a mirror no worker is registered for. *)
Definition started (id mirror : Z) (ids : list Z) (s : Manager) : Manager :=
  mk_manager (workerNumber s) ids Receiving (<[id := mk_worker mirror (next_no s)]> (workers s))
    (mk_go (next_no s) id mirror Running false :: goroutines s) (S (next_no s)) (priorityTasks s) None.

Lemma start_one id ids s : loop s = Receiving → conChan s = id :: ids → stopping s = None → fresh_nos s →
  ∃ mirror, rtc any_step s (started id mirror ids s).
Proof.
  intros Hl Hc Hst Hf. set (mirror := fresh ((λ iw : Z * Worker, RunningTask iw.2) <$> map_to_list (workers s))). exists mirror.
  assert (workers_of mirror s = []) as Hno.
  { unfold workers_of. rewrite filter_all_out; [done|]. intros iw Hin He.
    apply (infinite_is_fresh ((λ iw : Z * Worker, RunningTask iw.2) <$> map_to_list (workers s))). fold mirror. rewrite <-He.
    by apply (list_elem_of_fmap_2 (λ iw : Z * Worker, RunningTask iw.2)). }
  eapply rtc_l; [exists LOther; by apply (step_receive id ids)|]. eapply rtc_l; [exists LOther; by apply (step_take id mirror)|].
  set (g := mk_go (next_no s) id mirror Starting false).
  eapply rtc_l; [exists LOther; apply (step_register g [] (goroutines s)); done|]. destruct s as [n cc lp ws gs no ps st]. simpl in *. subst.
  unfold register. change (workers_of _ (spawn _ _ _)) with (workers_of mirror (mk_manager n (id :: ids) Receiving ws gs no ps None)). rewrite Hno.
  unfold set_goroutines, set_workers, started. simpl. rewrite decide_True by done. change (list_fmap _ _ ?f gs) with (f <$> gs).
  rewrite (map_other_nos (set_phase Running) no gs (older_nos _ _ (Nat.le_refl _) Hf)). constructor.
Qed.
Lemma started_fresh id mirror ids s : fresh_nos s → fresh_nos (started id mirror ids s).
Proof. apply fresh_spawn. Qed.
Lemma started_active id mirror ids s : active (started id mirror ids s) = S (active s).
Proof. unfold active, started. cbn [goroutines]. by rewrite filter_cons_True by done. Qed.

(** All ids are out, and the latest worker is at work and can be stopped. *)
Definition busy (n k : nat) (s : Manager) : Prop :=
  workerNumber s = n ∧ conChan s = [] ∧ loop s = Receiving ∧ stopping s = None ∧ fresh_nos s ∧ active s = k ∧
  ∃ g gs, goroutines s = g :: gs ∧ g_phase g = Running ∧ g_canceled g = false ∧ workers s !! g_id g = Some (mk_worker (g_mirror g) (g_no g)).

Lemma start_all ids : ∀ s, loop s = Receiving → conChan s = ids → stopping s = None → fresh_nos s → ids ≠ [] →
  ∃ s', rtc any_step s s' ∧ busy (workerNumber s) (active s + length ids) s'.
Proof.
  induction ids as [|id ids IH]; intros s Hl Hc Hst Hf Hne; [done|].
  destruct (start_one id ids s Hl Hc Hst Hf) as [mirror Hr]. pose proof (started_fresh id mirror ids s Hf) as Hf1.
  pose proof (started_active id mirror ids s) as Ha. destruct ids as [|id2 ids].
  - exists (started id mirror [] s). split; [done|]. split_and!; try done; [simpl; lia|]. eexists _, _. split; [done|]. simpl. split_and!; try done. apply lookup_insert_eq.
  - destruct (IH (started id mirror (id2 :: ids) s)) as (s' & Hr' & Hb); [done..|]. exists s'. split; [by etrans|].
    replace (active s + length (id :: id2 :: ids))%nat with (active (started id mirror (id2 :: ids) s) + length (id2 :: ids))%nat by (rewrite Ha; simpl; lia).
    exact Hb.
Qed.

(** Stopping the latest worker sends its id back. *)
Lemma stop_latest n k s g gs : (0 < n)%nat → busy n k s → goroutines s = g :: gs → g_phase g = Running → g_canceled g = false →
  workers s !! g_id g = Some (mk_worker (g_mirror g) (g_no g)) →
  rtc any_step s (mk_manager n [g_id g] Receiving (delete (g_id g) (workers s))
    (mk_go (g_no g) (g_id g) (g_mirror g) Running true :: gs) (next_no s) (priorityTasks s) None).
Proof.
  intros Hn (Hw & Hc & Hl & Hst & [Hnd Hlt] & _) Hg Hp Hca Hreg. destruct s as [n' cc lp ws gs' no ps st]. simpl in *. subst.
  eapply rtc_l; [exists LStop; apply (step_stop (g_id g)); simpl; [done|by rewrite Hreg]|].
  eapply rtc_l; [exists LStop; by apply (step_stop_cancel (g_id g) [])|].
  eapply rtc_l; [exists LStop; apply (step_stop_send (g_id g) []); [done|unfold has_room, cancel_worker; simpl; rewrite Hreg; simpl; lia]|].
  unfold cancel_worker. simpl. rewrite Hreg. unfold set_stopping, set_conChan, set_workers, cancel, set_goroutines. simpl. rewrite decide_True by done. change (list_fmap _ _ ?f gs) with (f <$> gs).
  rewrite map_other_nos; [rewrite Hp; constructor|]. apply NoDup_cons in Hnd as [Hnd _]. apply Forall_forall. intros h Hh He. apply Hnd. rewrite <-He.
  by apply list_elem_of_fmap_2.
Qed.

(** A worker that was told to stop ends and gives its id back once more. *)
Lemma return_stopped n g2 g gs ws no ps : (0 < n)%nat → g_phase g = Running →
  rtc any_step (mk_manager n [] Receiving ws (g2 :: g :: gs) no ps None) (mk_manager n [g_id g] Receiving ws (g2 :: gs) no ps None).
Proof.
  intros Hn Hp. eapply rtc_l; [exists LOther; by apply (step_finish g [g2] gs)|].
  eapply rtc_l; [exists LOther; apply (step_return (set_phase Returning g) [g2] gs); [done..|unfold has_room; simpl; lia]|]. constructor.
Qed.

Lemma fresh_drop g2 g gs no : NoDup (g_no <$> g2 :: g :: gs) ∧ Forall (λ g, (g_no g < no)%nat) (g2 :: g :: gs) →
  NoDup (g_no <$> g2 :: gs) ∧ Forall (λ g, (g_no g < no)%nat) (g2 :: gs).
Proof.
  intros [Hnd Hlt]. rewrite !fmap_cons, !NoDup_cons in Hnd. destruct Hnd as (H2 & _ & Hnd). apply Forall_cons in Hlt as [? [_ ?]%Forall_cons].
  split; [|by constructor]. rewrite fmap_cons. apply NoDup_cons. split; [|done]. intros Hin. apply H2. by right.
Qed.

Lemma grow n k s : (0 < n)%nat → busy n k s → ∃ s', rtc any_step s s' ∧ busy n (S k) s'.
Proof.
  intros Hn Hb. pose proof Hb as (_ & _ & _ & _ & [Hnd Hlt] & Ha & g & gs & Hg & Hp & Hc & Hreg).
  pose proof (stop_latest n k s g gs Hn Hb Hg Hp Hc Hreg) as Hr1.
  set (s1 := mk_manager n _ _ _ _ _ _ _) in Hr1. assert (fresh_nos s1) as Hf1.
  { rewrite Hg in Hnd, Hlt. split; [exact Hnd|]. apply Forall_cons in Hlt as [? ?]. by constructor. }
  destruct (start_one (g_id g) [] s1) as [mirror Hr2]; [done..|]. pose proof (started_fresh (g_id g) mirror [] s1 Hf1) as Hf2.
  set (g2 := mk_go (next_no s1) (g_id g) mirror Running false).
  pose proof (return_stopped n g2 (mk_go (g_no g) (g_id g) (g_mirror g) Running true) gs (workers (started (g_id g) mirror [] s1)) (S (next_no s)) (priorityTasks s) Hn eq_refl) as Hr3.
  set (s3 := mk_manager n [_] _ _ _ _ _ _) in Hr3. assert (fresh_nos s3) as Hf3 by (by eapply fresh_drop, Hf2).
  destruct (start_all [g_id g] s3) as (s4 & Hr4 & Hb4); [done..|]. exists s4. split; [do 3 (etrans; [done|]); done|].
  replace (S k) with (active s3 + 1)%nat; [exact Hb4|]. rewrite <-Ha. unfold active, s3. rewrite Hg. cbn [goroutines].
  rewrite !filter_cons_True by done. simpl. lia.
Qed.

(** Stopping workers lifts the limit: for every configured number of
    workers and every larger number [k], some execution has [k] workers at work
    at once, none of them told to stop. *)
Theorem stops_exceed_limit n k : (0 < n ≤ k)%nat → ∃ s, rtc any_step (init n) s ∧ active s = k.
Proof.
  intros [Hn Hk]. destruct (start_all (seqZ 1 (Z.of_nat n)) (init n)) as (s & Hr & Hb); try done.
  - split; constructor.
  - intros He. apply (f_equal length) in He. rewrite length_seqZ in He. simpl in He. lia.
  - rewrite length_seqZ, Nat2Z.id in Hb. change (active (init n)) with 0%nat in Hb. simpl in Hb.
    assert (∃ s', rtc any_step s s' ∧ busy n k s') as (s' & Hr' & Hb'); [|exists s'; split; [by etrans|apply Hb']].
    clear Hr. revert s Hb. induction Hk as [|k Hk IH]; intros s Hb; [by exists s|].
    destruct (IH s Hb) as (s1 & Hr1 & Hb1). destruct (grow n k s1 Hn Hb1) as (s2 & Hr2 & Hb2). exists s2. split; [by etrans|done].
Qed.

Theorem stops_exceed_limit_witness : ∃ s, rtc any_step (init 3) s ∧ active s = 5%nat.
Proof. apply (stops_exceed_limit 3 5). lia. Defined.
