(* ===== verification/DpEnv.v ===== *)
(** What a deployment is given to run with (builder/deploy/common,
    api/workflow/activity/deploy_activity.go): names of services and
    workflows, the hardware request, and the environment of its container. *)
From S2P Require Import Prelude GoLib GoJson Sensitive.
Open Scope Z_scope.

(** ** Errors and common/types *)

(** Errors as far as the code looks into them: sql.ErrNoRows, texts, and
    errors wrapped with %w. *)
Inductive derr := NoRows | DText (m : bytes) | DWrap (prefix : bytes) (e : derr).
Fixpoint derr_text (e : derr) : bytes :=
  match e with NoRows => bs "sql: no rows in result set" | DText m => m | DWrap p e => p ++ derr_text e end.
(** [errors.Is(err, sql.ErrNoRows)] *)
Fixpoint no_rows (e : derr) : bool := match e with NoRows => true | DText _ => false | DWrap _ e => no_rows e end.

Definition SpaceType : Z := 0.
Definition InferenceType : Z := 1.
Definition FinetuneType : Z := 2.
Definition ServerlessType : Z := 3.
Definition EvaluationType : Z := 4.
Definition NotebookType : Z := 5.

Record SDKConfig := mk_sdk { sdk_Name : bytes; sdk_Port : Z }.
Definition GRADIO : SDKConfig := mk_sdk (bs "gradio") 7860.
Definition STREAMLIT : SDKConfig := mk_sdk (bs "streamlit") 8501.
Definition NGINX : SDKConfig := mk_sdk (bs "nginx") 8000.
Definition DOCKER : SDKConfig := mk_sdk (bs "docker") 8080.
Definition MCPSERVER : SDKConfig := mk_sdk (bs "mcp_server") 8000.
Definition DefaultContainerPort : Z := 8080.

(** ** appname.go *)

Definition alphabet : bytes := bs "0123456789abcdefghijklmnopqrstuvwxyz".

(** The loop writes the last digit first. *)
Fixpoint encode_digits (fuel : nat) (num : Z) : bytes :=
  match fuel with
  | O => []
  | S fuel => if decide (0 < num) then nth (Z.to_nat (num `mod` 36)) alphabet "0"%char :: encode_digits fuel (num / 36) else []
  end.
(** An int64 has at most 13 digits. *)
Definition numberToString (num : Z) : bytes := reverse (encode_digits 13 num).

(** [alphabetMap[r]] is 0 for a rune that is no digit. *)
Definition digit_value (r : Z) : Z := match list_find (λ c, byte_Z c = r) alphabet with Some (i, _) => Z.of_nat i | None => 0 end.
Definition stringToNumber (encoded : bytes) : Z := foldl (λ num r, i64 (i64 (num * 36) + digit_value r)) 0 (to_runes encoded).

Section names.
(** [unicode.ToLower] *)
Variable unicode_lower : Z → Z.

(** [None] is a slice out of range. *)
Definition UniqueSpaceAppName (prefix namespace name : bytes) (spaceID : Z) : option bytes :=
  let encodedSpaceID := numberToString spaceID in
  let avaiMaxLen := 63 - len encodedSpaceID - 3 in
  let nameSpaceAndName := namespace ++ bs "-" ++ name in
  n ← (if decide (avaiMaxLen < len nameSpaceAndName) then slice nameSpaceAndName 0 avaiMaxLen else Some nameSpaceAndName);
  let uniqueAppName := prefix ++ bs "-" ++ n ++ bs "-" ++ encodedSpaceID in
  Some (ToLower unicode_lower (ReplaceAll (ReplaceAll uniqueAppName (bs "_") (bs "-")) (bs ".") (bs "-"))).
End names.

Definition parseUniqueSpaceAppName (spaceAppName : bytes) : Z :=
  stringToNumber (default [] (last (Split spaceAppName (bs "-")))).

(** ** utils.go *)

Definition GetNamespaceAndNameFromGitPath (gitpath : bytes) : option (bytes * bytes) :=
  if decide (gitpath = []) then None
  else
    let idx := Index gitpath (bs "_") in
    let rest := if decide (-1 < idx ∧ idx + 1 < len gitpath) then drop (Z.to_nat (idx + 1)) gitpath else gitpath in
    match Split rest (bs "/") with [a; b] => Some (a, b) | _ => None end.

(** ** The workflow's id (api/workflow/deployer.go) *)

Definition deployTypeNames (ty : Z) : bytes :=
  bs match ty with 0 => "space" | 1 => "model" | 2 => "finetune" | 3 => "serverless" | 4 => "evaluation" | 5 => "notebook" | _ => "unknown" end.

Definition GetDeploymentWorkflowID (ty : Z) (gitPath : bytes) (id : Z) : bytes :=
  let sanitizedGitPath := ReplaceAll gitPath (bs "/") (bs "-") in
  bs "deploy-" ++ deployTypeNames ty ++ bs "-" ++ take 20 sanitizedGitPath ++ bs "-" ++ Itoa id.

(** ** Hardware (common/types/hardware.go) *)

Record Processor := mk_processor { pc_Type : bytes; pc_Num : bytes; pc_ResourceName : bytes; pc_ResourceMemName : bytes; pc_MemSize : bytes }.
Record HardWare := mk_hardware {
  hw_Gpu : Processor; hw_Npu : Processor; hw_Gcu : Processor; hw_Mlu : Processor; hw_Dcu : Processor; hw_GPGpu : Processor;
  hw_CpuType : bytes; hw_CpuNum : bytes; hw_Memory : bytes; hw_EphemeralStorage : bytes; hw_Replicas : Z;
}.

(** A struct inside a struct: the objects given are decoded one over the
    other. *)
Definition sub_struct (name : bytes) (j : json) : option json :=
  JObj <$> foldl (λ acc v, l ← acc; match v with JObj l' => Some (l ++ l') | JNull => Some l | _ => None end) (Some []) (fields name j).
(** The labels are decoded, and not read. *)
Definition labels_ok (j : json) : option unit :=
  foldl (λ acc v, _ ← acc; match v with JNull => Some tt
                           | JObj l => if forallb (λ kv : bytes * json, match kv.2 with JStr _ | JNull => true | _ => false end) l then Some tt else None
                           | _ => None end) (Some tt) (fields (bs "labels") j).
Definition unmarshal_processor (name : bytes) (j : json) : option Processor :=
  p ← sub_struct name j;
  ty ← string_field (bs "type") p; num ← string_field (bs "num") p; rn ← string_field (bs "resource_name") p;
  _ ← labels_ok p; mn ← string_field (bs "resource_mem_name") p; ms ← string_field (bs "mem_size") p;
  Some (mk_processor ty num rn mn ms).
Definition unmarshal_hardware (data : bytes) : option HardWare :=
  j ← parse_json data; o ← as_struct j;
  gpu ← unmarshal_processor (bs "gpu") o; npu ← unmarshal_processor (bs "npu") o; gcu ← unmarshal_processor (bs "gcu") o;
  mlu ← unmarshal_processor (bs "mlu") o; dcu ← unmarshal_processor (bs "dcu") o; gpgpu ← unmarshal_processor (bs "gpgpu") o;
  cpu ← sub_struct (bs "cpu") o; ct ← string_field (bs "type") cpu; cn ← string_field (bs "num") cpu; _ ← labels_ok cpu;
  mem ← string_field (bs "memory") o; es ← string_field (bs "ephemeral_storage") o; replicas ← int_field (bs "replicas") o;
  Some (mk_hardware gpu npu gcu mlu dcu gpgpu ct cn mem es replicas).

Definition ContainsGraphicResource (h : HardWare) : bool :=
  bool_decide (pc_Num (hw_Gpu h) ≠ [] ∨ pc_Num (hw_Npu h) ≠ [] ∨ pc_Num (hw_Gcu h) ≠ [] ∨ pc_Num (hw_Mlu h) ≠ [] ∨ pc_Num (hw_Dcu h) ≠ [] ∨ pc_Num (hw_GPGpu h) ≠ []).

(** The first processor with a number, and its variable. *)
Definition first_xpu (h : HardWare) : option (bytes * bytes) :=
  if decide (pc_Num (hw_Gpu h) ≠ []) then Some (bs "GPU_NUM", pc_Num (hw_Gpu h))
  else if decide (pc_Num (hw_Npu h) ≠ []) then Some (bs "NPU_NUM", pc_Num (hw_Npu h))
  else if decide (pc_Num (hw_Gcu h) ≠ []) then Some (bs "GCU_NUM", pc_Num (hw_Gcu h))
  else if decide (pc_Num (hw_Mlu h) ≠ []) then Some (bs "MLU_NUM", pc_Num (hw_Mlu h))
  else if decide (pc_Num (hw_Dcu h) ≠ []) then Some (bs "DCU_NUM", pc_Num (hw_Dcu h))
  else if decide (pc_Num (hw_GPGpu h) ≠ []) then Some (bs "GPGPU_NUM", pc_Num (hw_GPGpu h))
  else None.
Definition GetXPUNumber (h : HardWare) : option Z := Atoi (match first_xpu h with Some (_, n) => n | None => bs "0" end).

Definition UpdateEvaluationEnvHardware (env : gmap bytes bytes) (h : HardWare) : gmap bytes bytes :=
  let '(env, xpuNum) := match first_xpu h with Some (k, n) => (<[k := n]> env, n) | None => (env, bs "0") end in
  if decide (xpuNum ≠ bs "0") then <[bs "GPU_NUM" := xpuNum]> env else env.

(** ** common/utils/common *)

(** [JsonStrToMap]: [None] is an error; the map is nil ([Some None]) for
    null. *)
Definition JsonStrToMap (s : bytes) : option (option (gmap bytes bytes)) :=
  if decide (len (TrimSpace s) = 0) then Some (Some ∅)
  else
    j ← parse_json s;
    match j with
    | JNull => Some None
    | _ => l ← string_map s; Some (Some (foldl (λ m kv, <[kv.1 := kv.2]> m) ∅ l))
    end.
(** Assigning to a nil map panics; reading one finds nothing. *)
Definition assigned {E A} (m : option A) : outcome E A := match m with Some m => Ret m | None => Panic end.
Definition read_map (m : option (gmap bytes bytes)) : gmap bytes bytes := default ∅ m.

(** ** The environment *)

Record DeployInfo := mk_info {
  di_Type : Z; di_SpaceID : Z; di_SvcName : bytes; di_Env : bytes; di_Variables : bytes; di_EngineArgs : bytes;
  di_ContainerPort : Z; di_Task : bytes;
}.
Record RepoInfo := mk_repoinfo {
  ri_DeployID : Z; ri_SpaceID : Z; ri_ModelID : Z; ri_RepoID : Z; ri_Path : bytes; ri_Name : bytes; ri_Sdk : bytes; ri_SdkVersion : bytes;
  ri_DriverVersion : bytes; ri_HTTPCloneURL : bytes; ri_UserName : bytes; ri_RepoType : bytes;
}.
Record EngineArg := mk_arg { ea_Name : bytes; ea_Value : bytes; ea_Format : bytes }.
Record EnvConfig := mk_ecfg { ec_S3Internal : bool; ec_ModelDownloadEndpoint : bytes; ec_PublicRootDomain : bytes }.

Section env.
Variable unicode_lower : Z → Z.
(** [fmt.Sprintf] of one string, and [url.JoinPath] with its error ignored. *)
Variable Sprintf : bytes → bytes → bytes.
Variable JoinPath : bytes → bytes → bytes.

Definition ShortenCommitID7 (fullCommitID : bytes) : option bytes :=
  let commitID := TrimSpace (ToLower unicode_lower fullCommitID) in
  if decide (len commitID < 7) then None else Some (take 7 commitID).

Definition getHttpCloneURLWithToken (httpCloneURL username token : bytes) : bytes :=
  let protocolIndex := Index httpCloneURL (bs "://") in
  if decide (-1 < protocolIndex)
  then take (Z.to_nat (protocolIndex + 3)) httpCloneURL ++ username ++ bs ":" ++ token ++ bs "@" ++ drop (Z.to_nat (protocolIndex + 3)) httpCloneURL
  else httpCloneURL.

(** One engine argument: a default is not repeated; a format without a verb
    is a flag. *)
Definition engine_arg (values : gmap bytes bytes) (arg : EngineArg) : bytes :=
  match values !! ea_Name arg with
  | None => []
  | Some value =>
      if decide (ea_Value arg ≠ [] ∧ value = ea_Value arg) then []
      else if negb (Contains (ea_Format arg) (bs "%")) then
        if decide (value ∈ [bs "false"; bs "0"; []; bs "disable"]) then [] else bs " " ++ ea_Format arg
      else bs " " ++ Sprintf (ea_Format arg) value
  end.

Definition replace_first (s old new : bytes) : bytes := match Cut s old with Some (a, b) => a ++ new ++ b | None => s end.

Definition auto_tool : bytes := bs "--enable-auto-tool-choice".
(** The parser of the model's architecture; no architecture, no tools. *)
Definition tool_call_parser (args : bytes) (parsers : gmap bytes bytes) (arch : bytes) : bytes :=
  if Contains args auto_tool && bool_decide (parsers ≠ ∅) then
    if decide (arch ≠ []) then
      replace_first args auto_tool (auto_tool ++ bs " --tool-call-parser " ++ default (bs "openai") (parsers !! arch))
    else ReplaceAll args auto_tool []
  else args.

Definition engine_args (templates : list EngineArg) (parsers : gmap bytes bytes) (arch engineArgs : bytes) : bytes :=
  tool_call_parser (match JsonStrToMap engineArgs with Some m => templates ≫= engine_arg (read_map m) | None => [] end) parsers arch.

Definition set_all (l : list (bytes * bytes)) (env : gmap bytes bytes) : gmap bytes bytes := foldl (λ env kv, <[kv.1 := kv.2]> env) env l.

(** The switch on a space's SDK; the second case of streamlit is dead. *)
Definition sdk_env (cfg : EnvConfig) (sdk : bytes) (port : Z) : list (bytes * bytes) :=
  let hf := (bs "HF_ENDPOINT", ec_ModelDownloadEndpoint cfg) in
  let known := λ s, [(bs "port", Itoa (sdk_Port s)); (bs "SDK", sdk_Name s); hf] in
  if decide (sdk = sdk_Name GRADIO) then known GRADIO
  else if decide (sdk = sdk_Name STREAMLIT) then known STREAMLIT
  else if decide (sdk = sdk_Name NGINX) then known NGINX
  else if decide (sdk = sdk_Name DOCKER) then [(bs "SDK", sdk_Name DOCKER); (bs "port", Itoa port); hf]
  else if decide (sdk = sdk_Name MCPSERVER) then known MCPSERVER
  else [(bs "port", Itoa DefaultContainerPort)].

Definition inference_env (cfg : EnvConfig) (d : DeployInfo) : list (bytes * bytes) :=
  [(bs "port", Itoa (di_ContainerPort d)); (bs "HF_ENDPOINT", ec_ModelDownloadEndpoint cfg); (bs "HF_HUB_OFFLINE", bs "1");
   (bs "HF_TASK", di_Task d); (bs "VLLM_ENFORCE_EAGER", bs "1")].
Definition finetune_env (cfg : EnvConfig) (d : DeployInfo) (token : bytes) : list (bytes * bytes) :=
  [(bs "port", Itoa (di_ContainerPort d)); (bs "HF_ENDPOINT", JoinPath (ec_ModelDownloadEndpoint cfg) (bs "csg")); (bs "HF_TOKEN", token);
   (bs "USE_CSGHUB_MODEL", bs "1"); (bs "USE_CSGHUB_DATASET", bs "1"); (bs "JUPYTER_ENABLE_LAB", bs "yes"); (bs "TERM", bs "xterm-256color")].
Definition path_env (cfg : EnvConfig) (d : DeployInfo) : list (bytes * bytes) :=
  if decide (ec_PublicRootDomain cfg = []) then
    let path := bs "/endpoint/" ++ di_SvcName d in
    if decide (di_Type d = FinetuneType) then [(bs "CONTEXT_PATH", path)]
    else if decide (di_Type d = SpaceType) then [(bs "GRADIO_ROOT_PATH", path); (bs "STREAMLIT_SERVER_BASE_URL_PATH", path)]
    else []
  else [].

(** The git part; [commit] is the answer of the git server. *)
Definition git_env (d : DeployInfo) (r : RepoInfo) (username token : bytes) (commit : result bytes derr) : outcome derr (list (bytes * bytes)) :=
  if decide (di_Type d = NotebookType) then Ret [(bs "HTTPCloneURL", []); (bs "REPO_ID", []); (bs "REVISION", [])]
  else if decide (length (Split (ri_Path r) (bs "/")) < 2)%nat then Panic
  else match commit with
       | Err e => Fail e
       | Ok id =>
           match ShortenCommitID7 id with
           | None => Fail (DText (bs "SERVERLESS-ERR-8"))
           | Some commitID =>
               Ret [(bs "HTTPCloneURL", getHttpCloneURLWithToken (ri_HTTPCloneURL r) username token); (bs "REPO_ID", ri_Path r); (bs "REVISION", commitID)]
           end
       end.

(** [arch] is the architecture in the repository's metadata, empty when there
    is none. *)
Definition makeDeployEnv (cfg : EnvConfig) (hardware : HardWare) (username token : bytes) (d : DeployInfo) (templates : list EngineArg)
    (parsers : gmap bytes bytes) (r : RepoInfo) (commit : result bytes derr) (arch : bytes) : outcome derr (gmap bytes bytes) :=
  let env := match JsonStrToMap (di_Env d) with Some m => m | None => Some ∅ end in
  let vars := match JsonStrToMap (di_Variables d) with Some m => read_map m | None => ∅ end in
  env ← assigned env;
  git ← git_env d r username token commit;
  let env := set_all ([(bs "S3_INTERNAL", bs (if ec_S3Internal cfg then "true" else "false")); (bs "ACCESS_TOKEN", token)] ++ git) (vars ∪ env) in
  let env := if decide (templates = []) then env else <[bs "ENGINE_ARGS" := engine_args templates parsers arch (di_EngineArgs d)]> env in
  let env := UpdateEvaluationEnvHardware env hardware in
  Ret (set_all ((if decide (0 < di_SpaceID d) then sdk_env cfg (ri_Sdk r) (di_ContainerPort d) else []) ++
                (if decide (di_Type d = InferenceType ∨ di_Type d = ServerlessType) then inference_env cfg d else []) ++
                (if decide (di_Type d = FinetuneType) then finetune_env cfg d token else []) ++
                (if decide (di_Type d = NotebookType) then [(bs "port", Itoa (di_ContainerPort d))] else []) ++
                path_env cfg d) env).
End env.
