(* ===== verification/DpTask.v ===== *)
(** Deployments: their rows and tasks (builder/store/database/deploy_task.go),
    the workflow that builds and runs them (api/workflow), the events the
    runner sends back (component/executors), and the operations that create,
    start and stop them (builder/deploy/deployer.go, component/repo_deploy.go).
    Database calls and calls of the builder and the runner may fail at any
    point; what the builder and the runner were asked is recorded. *)
From S2P Require Import Prelude GoLib GoJson Sensitive DpEnv.
Open Scope Z_scope.

(** ** builder/deploy/common/status.go *)

Definition TaskStatusCancelled : Z := -1.
Definition TaskStatusBuildPending : Z := 0.
Definition TaskStatusBuildInProgress : Z := 1.
Definition TaskStatusBuildFailed : Z := 2.
Definition TaskStatusBuildSucceed : Z := 3.
Definition TaskStatusBuildSkip : Z := 4.
Definition TaskStatusBuildInQueue : Z := 5.
Definition TaskStatusDeploying : Z := 1.
Definition TaskStatusDeployFailed : Z := 2.

Definition Pending : Z := 0.
Definition BuildInQueue : Z := 10.
Definition Building : Z := 11.
Definition BuildFailed : Z := 12.
Definition BuildSuccess : Z := 13.
Definition Deploying : Z := 20.
Definition DeployFailed : Z := 21.
Definition Running : Z := 23.
Definition Stopped : Z := 26.
Definition Deleted : Z := 27.
Definition ResourceUnhealthy : Z := 28.

Definition TaskTypeBuild : Z := 0.
Definition TaskTypeDeploy : Z := 1.

(** ** Rows *)

Record Instance := mk_instance { in_Name : bytes; in_Status : bytes }.

(** The columns a redeployment replaces, and the ones it keeps. *)
Record Options := mk_options {
  op_UserUUID : bytes; op_SKU : bytes; op_Annotation : bytes; op_Env : bytes; op_Hardware : bytes; op_RuntimeFramework : bytes;
  op_Secret : bytes; op_SecureLevel : Z; op_ContainerPort : Z; op_Template : bytes; op_MinReplica : Z; op_MaxReplica : Z;
  op_EngineArgs : bytes; op_Variables : bytes; op_ClusterID : bytes; op_Task : bytes;
}.
Record Origin := mk_origin {
  or_DeployName : bytes; or_SpaceID : Z; or_GitPath : bytes; or_GitBranch : bytes; or_ModelID : Z; or_UserID : Z; or_RepoID : Z;
  or_Type : Z; or_OrderDetailID : Z;
}.
Record Deploy := mk_deploy {
  dp_ID : Z; dp_Status : Z; dp_ImageID : bytes; dp_SvcName : bytes; dp_Endpoint : bytes; dp_Message : bytes; dp_Reason : bytes;
  dp_ClusterNode : bytes; dp_QueueName : bytes; dp_Instances : list Instance; dp_CreatedAt : Z;
  dp_opts : Options; dp_origin : Origin;
}.
Record DeployTask := mk_task { dt_ID : Z; dt_TaskType : Z; dt_Status : Z; dt_Message : bytes; dt_DeployID : Z; dt_CreatedAt : Z }.

Definition set_dp_Status (s : Z) (d : Deploy) : Deploy :=
  mk_deploy (dp_ID d) s (dp_ImageID d) (dp_SvcName d) (dp_Endpoint d) (dp_Message d) (dp_Reason d) (dp_ClusterNode d) (dp_QueueName d) (dp_Instances d) (dp_CreatedAt d) (dp_opts d) (dp_origin d).
Definition set_dp_ImageID (i : bytes) (d : Deploy) : Deploy :=
  mk_deploy (dp_ID d) (dp_Status d) i (dp_SvcName d) (dp_Endpoint d) (dp_Message d) (dp_Reason d) (dp_ClusterNode d) (dp_QueueName d) (dp_Instances d) (dp_CreatedAt d) (dp_opts d) (dp_origin d).
Definition set_dp_SvcName (s : bytes) (d : Deploy) : Deploy :=
  mk_deploy (dp_ID d) (dp_Status d) (dp_ImageID d) s (dp_Endpoint d) (dp_Message d) (dp_Reason d) (dp_ClusterNode d) (dp_QueueName d) (dp_Instances d) (dp_CreatedAt d) (dp_opts d) (dp_origin d).
Definition set_task (status : Z) (message : bytes) (t : DeployTask) : DeployTask :=
  mk_task (dt_ID t) (dt_TaskType t) status message (dt_DeployID t) (dt_CreatedAt t).

(** The rows other tables have for a deployment. *)
Record RepoRow := mk_reporow { rr_ID : Z; rr_Path : bytes; rr_Name : bytes; rr_Username : bytes }.
Record SpaceRow := mk_space { sp_ID : Z; sp_Sdk : bytes; sp_SdkVersion : bytes; sp_DriverVersion : bytes; sp_Repo : RepoRow }.
Record ModelRow := mk_modelrow { ml_ID : Z; ml_Repo : RepoRow }.
Record TokenRow := mk_tokenrow { tk_UserID : Z; tk_Username : bytes; tk_Token : bytes }.
Record FrameworkRow := mk_framework { rf_FrameImage : bytes; rf_EngineArgs : bytes; rf_ToolCallParsers : bytes }.
Record UserResources := mk_resources { ur_ID : Z; ur_UserUID : bytes; ur_OrderDetailID : Z; ur_DeployId : Z }.
Record NodeRow := mk_node { nd_ClusterID : bytes; nd_Name : bytes; nd_EnableVXPU : bool }.

Record ImageBuilderRequest := mk_build {
  ib_OrgName : bytes; ib_SpaceName : bytes; ib_Hardware : bytes; ib_Sdk : bytes; ib_SdkVersion : bytes; ib_DriverVersion : bytes;
  ib_SpaceURL : bytes; ib_GitRef : bytes; ib_UserId : bytes; ib_GitAccessToken : bytes; ib_DeployId : bytes; ib_ClusterID : bytes;
  ib_LastCommitID : bytes; ib_TaskId : Z; ib_RepoId : Z;
}.
Record RunRequest := mk_run {
  rn_ID : Z; rn_OrgName : bytes; rn_RepoName : bytes; rn_RepoType : bytes; rn_UserName : bytes; rn_Annotation : gmap bytes bytes;
  rn_Hardware : HardWare; rn_Env : gmap bytes bytes; rn_GitPath : bytes; rn_GitRef : bytes; rn_ImageID : bytes; rn_DeployID : Z;
  rn_MinReplica : Z; rn_MaxReplica : Z; rn_Accesstoken : bytes; rn_ClusterID : bytes; rn_SvcName : bytes; rn_DeployType : Z;
  rn_UserID : bytes; rn_Sku : bytes; rn_OrderDetailID : Z; rn_TaskId : Z; rn_Nodes : list (bytes * bool);
}.
(** The calls made of the builder and the runner, failed ones included. A
    request to run is recorded for every attempt the runner's client makes at
    it, another call of the runner once for all its attempts. *)
Inductive call :=
  | CBuild (r : ImageBuilderRequest) | CRun (r : RunRequest) | CStopBuild (deployID taskID : Z) | CStop (svc : bytes) | CPurge (svc : bytes) | CExist (svc : bytes).

(** builder/store/database/cluster.go, user.go, space_resource.go *)
Record ClusterInfo := mk_cluster { ci_ClusterID : bytes; ci_Enable : bool; ci_Status : bytes; ci_UpdatedAt : Z }.
Record UserRow := mk_userrow { us_ID : Z; us_Username : bytes; us_UUID : bytes; us_RoleMask : bytes }.
Definition CanAdmin (u : UserRow) : bool := Contains (us_RoleMask u) (bs "admin") || Contains (us_RoleMask u) (bs "super_user").
Record SpaceResource := mk_sku { sr_ID : Z; sr_Name : bytes }.

(** builder/store/database/argo_workflow.go; a time never set is the zero
    time. *)
Record ArgoWorkflow := mk_argo {
  aw_UserUUID : bytes; aw_TaskId : bytes; aw_ClusterID : bytes; aw_Status : bytes; aw_ResourceId : Z; aw_ResourceName : bytes; aw_StartTime : Z;
}.

(** The tables only read here; members are organisation and user. *)
Record Tables := mk_tables {
  tb_spaces : list SpaceRow; tb_models : list ModelRow; tb_tokens : list TokenRow; tb_frameworks : list FrameworkRow; tb_nodes : list NodeRow;
  tb_clusters : list ClusterInfo; tb_users : list UserRow; tb_members : list (Z * Z); tb_skus : list SpaceResource;
  tb_argo : list ArgoWorkflow;
}.

Record deploy_world := mk_dw {
  dw_deploys : list Deploy; dw_tasks : list DeployTask; dw_next : Z;    (* the next id of either table *)
  dw_resources : list UserResources; dw_tables : Tables;
  dw_calls : list call; dw_notices : list Deploy;
  dw_workflows : list (option Z * Z);         (* workflows started: build task, run task *)
  dw_faulty : list (option derr);
}.

Definition set_deploys (f : list Deploy → list Deploy) (w : deploy_world) : deploy_world :=
  mk_dw (f (dw_deploys w)) (dw_tasks w) (dw_next w) (dw_resources w) (dw_tables w) (dw_calls w) (dw_notices w) (dw_workflows w) (dw_faulty w).
Definition set_tasks (f : list DeployTask → list DeployTask) (w : deploy_world) : deploy_world :=
  mk_dw (dw_deploys w) (f (dw_tasks w)) (dw_next w) (dw_resources w) (dw_tables w) (dw_calls w) (dw_notices w) (dw_workflows w) (dw_faulty w).
Definition set_next (n : Z) (w : deploy_world) : deploy_world :=
  mk_dw (dw_deploys w) (dw_tasks w) n (dw_resources w) (dw_tables w) (dw_calls w) (dw_notices w) (dw_workflows w) (dw_faulty w).
Definition set_resources (f : list UserResources → list UserResources) (w : deploy_world) : deploy_world :=
  mk_dw (dw_deploys w) (dw_tasks w) (dw_next w) (f (dw_resources w)) (dw_tables w) (dw_calls w) (dw_notices w) (dw_workflows w) (dw_faulty w).
Definition add_call (c : call) (w : deploy_world) : deploy_world :=
  mk_dw (dw_deploys w) (dw_tasks w) (dw_next w) (dw_resources w) (dw_tables w) (dw_calls w ++ [c]) (dw_notices w) (dw_workflows w) (dw_faulty w).
Definition add_notice (d : Deploy) (w : deploy_world) : deploy_world :=
  mk_dw (dw_deploys w) (dw_tasks w) (dw_next w) (dw_resources w) (dw_tables w) (dw_calls w) (dw_notices w ++ [d]) (dw_workflows w) (dw_faulty w).
Definition add_workflow (b : option Z) (r : Z) (w : deploy_world) : deploy_world :=
  mk_dw (dw_deploys w) (dw_tasks w) (dw_next w) (dw_resources w) (dw_tables w) (dw_calls w) (dw_notices w) (dw_workflows w ++ [(b, r)]) (dw_faulty w).

#[export] Program Instance deploy_world_faulty : Faulty deploy_world derr := {|
  get_faults := dw_faulty;
  set_faults fs w := mk_dw (dw_deploys w) (dw_tasks w) (dw_next w) (dw_resources w) (dw_tables w) (dw_calls w) (dw_notices w) (dw_workflows w) fs |}.
Next Obligation. by intros []. Qed.

Abbreviation pio := (io deploy_world derr).
Definition p_panic {A} : pio A := λ w, (Panic, w).
(** The ids and names formatted into a text are left out where nothing reads
    them. *)
Definition wrap (m : string) : derr → derr := DWrap (bs m).
Definition found_by {A} (P : A → Prop) `{!∀ x, Decision (P x)} (l : list A) : option A := snd <$> list_find P l.
Definition row {A} (o : option A) : pio A := match o with Some a => mret a | None => io_fail NoRows end.
Definition read {A} (f : deploy_world → A) : pio A := next_fault;; io_gets f.
Definition read_row {A} (f : deploy_world → option A) : pio A := o ← read f; row o.

(** ** The store *)

(** The row of largest key. *)
Definition newest {A} (key : A → Z) (l : list A) : option A :=
  foldl (λ best a, match best with Some b => if decide (key b < key a) then Some a else best | None => Some a end) None l.

Definition put_deploy (d : Deploy) (l : list Deploy) : list Deploy := (λ x, if decide (dp_ID x = dp_ID d) then d else x) <$> l.
Definition put_task (t : DeployTask) (l : list DeployTask) : list DeployTask := (λ x, if decide (dt_ID x = dt_ID t) then t else x) <$> l.

(** The insert sets the id. *)
Definition CreateDeploy (now : Z) (d : Deploy) : pio Deploy :=
  next_fault;; id ← io_gets dw_next;
  let d := mk_deploy id (dp_Status d) (dp_ImageID d) (dp_SvcName d) (dp_Endpoint d) (dp_Message d) (dp_Reason d) (dp_ClusterNode d) (dp_QueueName d) (dp_Instances d) now (dp_opts d) (dp_origin d) in
  io_modify (set_next (id + 1));; io_modify (set_deploys (λ l, l ++ [d]));; mret d.
Definition UpdateDeploy (d : Deploy) : pio unit := next_fault;; io_modify (set_deploys (put_deploy d)).
Definition CreateDeployTask (now deployID taskType status : Z) (message : bytes) : pio DeployTask :=
  next_fault;; id ← io_gets dw_next;
  let t := mk_task id taskType status message deployID now in
  io_modify (set_next (id + 1));; io_modify (set_tasks (λ l, l ++ [t]));; mret t.
Definition UpdateDeployTask (t : DeployTask) : pio unit := next_fault;; io_modify (set_tasks (put_task t)).

Definition GetLatestDeployBySpaceID (spaceID : Z) : pio Deploy :=
  read_row (λ w, newest dp_CreatedAt (filter (λ d, or_SpaceID (dp_origin d) = spaceID) (dw_deploys w))).
(** No row is no error. *)
Definition GetServerlessDeployByRepID (repoID : Z) : pio (option Deploy) :=
  read (λ w, found_by (λ d, or_RepoID (dp_origin d) = repoID ∧ or_Type (dp_origin d) = ServerlessType) (dw_deploys w)).
Definition GetDeployByID (id : Z) : pio Deploy := read_row (λ w, found_by (λ d, dp_ID d = id) (dw_deploys w)).
Definition GetDeployBySvcName (svc : bytes) : pio Deploy := read_row (λ w, found_by (λ d, dp_SvcName d = svc) (dw_deploys w)).
(** The task with its deployment, if that row exists. *)
Definition GetDeployTask (id : Z) : pio (DeployTask * option Deploy) :=
  read_row (λ w, t ← found_by (λ t, dt_ID t = id) (dw_tasks w); Some (t, found_by (λ d, dp_ID d = dt_DeployID t) (dw_deploys w))).
Definition GetLastTaskByType (deployID taskType : Z) : pio DeployTask :=
  read_row (λ w, newest dt_ID (filter (λ t, dt_DeployID t = deployID ∧ dt_TaskType t = taskType) (dw_tasks w))).

(** One transaction: begin, the deployment's columns if there is one, the
    task's status and message, commit. *)
Definition UpdateInTx (columns : Deploy → Deploy → Deploy) (d : option Deploy) (t : DeployTask) : pio unit :=
  next_fault;;
  (match d with Some _ => io_wrap (wrap "failed to update deploy,") next_fault | None => mret tt end);;
  io_wrap (wrap "failed to update deploy tasks in tx,") next_fault;;
  next_fault;;
  io_modify (set_deploys (λ l, match d with Some d => (λ x, if decide (dp_ID x = dp_ID d) then columns d x else x) <$> l | None => l end));;
  io_modify (set_tasks (λ l, (λ x, if decide (dt_ID x = dt_ID t) then set_task (dt_Status t) (dt_Message t) x else x) <$> l)).
Definition col_status (d x : Deploy) : Deploy := set_dp_Status (dp_Status d) x.
Definition col_status_svc (d x : Deploy) : Deploy := set_dp_SvcName (dp_SvcName d) (set_dp_Status (dp_Status d) x).
Definition col_status_image (d x : Deploy) : Deploy := set_dp_ImageID (dp_ImageID d) (set_dp_Status (dp_Status d) x).

(** Updates that must affect one row. *)
Definition affect_one (P : Deploy → Prop) `{!∀ d, Decision (P d)} (f : list Deploy → list Deploy) : pio unit :=
  next_fault;; n ← io_gets (λ w, length (filter P (dw_deploys w)));
  io_modify (set_deploys f);;
  if decide (n = 1%nat) then mret tt else io_fail (DText (bs "affected rows")).
Definition DeleteDeployNow (id : Z) : pio unit := affect_one (λ d, dp_ID d = id) (filter (λ d, dp_ID d ≠ id)).
Definition owned (id repoID userID : Z) (d : Deploy) : Prop := dp_ID d = id ∧ or_RepoID (dp_origin d) = repoID ∧ or_UserID (dp_origin d) = userID.
#[export] Instance owned_dec id repoID userID d : Decision (owned id repoID userID d).
Proof. unfold owned. apply _. Defined.
Definition set_owned_status (s id repoID userID : Z) : pio unit :=
  affect_one (owned id repoID userID) (fmap (λ d, if decide (owned id repoID userID d) then set_dp_Status s d else d)).
Definition DeleteDeploy (repoID userID id : Z) : pio unit := set_owned_status Deleted id repoID userID.
Definition StopDeploy (repoID userID id : Z) : pio unit := set_owned_status Stopped id repoID userID.
