(* ===== verification/DpFlow.v ===== *)
(** What moves a deployment: the workflow's two activities
    (api/workflow/activity/deploy_activity.go) and their retries
    (api/workflow/deployer.go), and the events of the image builder and of the
    runner (component/executors). *)
From S2P Require Import Prelude GoLib GoJson Sensitive DpEnv DpTask.
Open Scope Z_scope.

Record DeployConfig := mk_dcfg {
  dc_env : EnvConfig; dc_PublicDomain : bytes; dc_BuildTimeoutInMin : Z; dc_SpaceDeployTimeoutInMin : Z; dc_ModelDeployTimeoutInMin : Z;
}.

(** ** JSON *)

Definition unmarshal_arg (j : json) : option EngineArg :=
  o ← as_struct j; n ← string_field (bs "name") o; v ← string_field (bs "value") o; f ← string_field (bs "format") o; Some (mk_arg n v f).
Definition unmarshal_args (data : bytes) : option (list EngineArg) :=
  j ← parse_json data; match j with JArr l => mapM unmarshal_arg l | JNull => Some [] | _ => None end.
(** A member of another type leaves an empty string and an error that is only
    logged. *)
Definition unmarshal_parsers (data : bytes) : gmap bytes bytes :=
  match parse_json data with
  | Some (JObj l) => foldl (λ m kv, <[kv.1 := match kv.2 with JStr s => s | _ => [] end]> m) ∅ l
  | _ => ∅
  end.

Record ServiceEvent := mk_sevt {
  se_ServiceName : bytes; se_Status : Z; se_Endpoint : bytes; se_Message : bytes; se_Reason : bytes; se_TaskID : Z; se_ClusterNode : bytes;
  se_QueueName : bytes; se_Instances : list Instance;
}.
Definition unmarshal_instance (j : json) : option Instance :=
  o ← as_struct j; n ← string_field (bs "name") o; s ← string_field (bs "status") o; Some (mk_instance n s).
Definition unmarshal_instances (o : json) : option (list Instance) :=
  foldl (λ acc v, _ ← acc; match v with JArr l => mapM unmarshal_instance l | JNull => Some [] | _ => None end) (Some []) (fields (bs "instances") o).
Definition unmarshal_service_event (data : bytes) : option ServiceEvent :=
  j ← parse_json data; o ← as_struct j;
  n ← string_field (bs "service_name") o; s ← int_field (bs "status") o; e ← string_field (bs "endpoint") o; m ← string_field (bs "message") o;
  r ← string_field (bs "reason") o; t ← int_field (bs "task_id") o; c ← string_field (bs "cluster_node") o; q ← string_field (bs "queue_name") o;
  i ← unmarshal_instances o; Some (mk_sevt n s e m r t c q i).

Record ImageBuilderEvent := mk_bevt { be_TaskId : Z; be_Status : bytes; be_Message : bytes; be_ImagetPath : bytes }.
Definition unmarshal_builder_event (data : bytes) : option ImageBuilderEvent :=
  j ← parse_json data; o ← as_struct j;
  _ ← string_field (bs "deploy_id") o; t ← int_field (bs "task_id") o; s ← string_field (bs "status") o; m ← string_field (bs "message") o;
  p ← string_field (bs "imaget_path") o; Some (mk_bevt t s m p).

Section flow.
Variable unicode_lower : Z → Z.
Variable Sprintf : bytes → bytes → bytes.
Variable JoinPath : bytes → bytes → bytes.
(** The git server's last commit of a branch (type, namespace, name, ref), the
    architecture in a repository's metadata, and the service name the runner
    answers a run request with. *)
Variable last_commit : bytes → bytes → bytes → bytes → bytes.
Variable architecture : Z → bytes.
Variable runner_answer : RunRequest → bytes.
Variable cfg : DeployConfig.

(** ** Repository of a task *)

Definition buildHTTPCloneURL (domain repoType path : bytes) : bytes := TrimSuffix domain (bs "/") ++ bs "/" ++ repoType ++ bs "s/" ++ path ++ bs ".git".

Definition createSpaceRepoInfo (s : SpaceRow) (deployID : Z) : RepoInfo :=
  let r := sp_Repo s in
  mk_repoinfo deployID (sp_ID s) 0 (rr_ID r) (rr_Path r) (rr_Name r) (sp_Sdk s) (sp_SdkVersion s) (sp_DriverVersion s)
    (buildHTTPCloneURL (dc_PublicDomain cfg) (bs "space") (rr_Path r)) (rr_Username r) (bs "space").
Definition createModelRepoInfo (m : ModelRow) (deployID : Z) : RepoInfo :=
  let r := ml_Repo m in
  mk_repoinfo deployID 0 (ml_ID m) (rr_ID r) (rr_Path r) (rr_Name r) [] [] [] [] (rr_Username r) (bs "model").
Definition getRepositoryInfo (d : Deploy) : pio RepoInfo :=
  let o := dp_origin d in
  if decide (0 < or_SpaceID o) then
    s ← io_wrap (wrap "failed to get space by ID:") (read_row (λ w, found_by (λ s, sp_ID s = or_SpaceID o) (tb_spaces (dw_tables w))));
    mret (createSpaceRepoInfo s (dp_ID d))
  else if decide (0 < or_ModelID o) then
    m ← io_wrap (wrap "failed to get model by ID:") (read_row (λ w, found_by (λ m, ml_ID m = or_ModelID o) (tb_models (dw_tables w))));
    mret (createModelRepoInfo m (dp_ID d))
  else mret (mk_repoinfo 0 0 0 0 (bs "/") [] [] [] [] [] [] []).

(** A nil deployment is dereferenced. *)
Definition deploy_of (td : DeployTask * option Deploy) : pio (DeployTask * Deploy) :=
  match td with (t, Some d) => mret (t, d) | (_, None) => p_panic end.

(** ** Recording a task's status *)

(** The deployment is left alone when a newer task of the type exists. *)
Definition update_status (columns : Deploy → Deploy → Deploy) (t : DeployTask) (d : Deploy) : pio unit :=
  lastTask ← io_wrap (wrap "failed to get last task by type:") (GetLastTaskByType (dp_ID d) (dt_TaskType t));
  UpdateInTx columns (if decide (dt_ID lastTask = dt_ID t) then Some d else None) t.
Definition updateTaskStatus (t : DeployTask) (d : Deploy) : pio unit := update_status col_status t d.

Definition handleRepositoryNotFound (t : DeployTask) (d : Deploy) : pio unit :=
  io_wrap (wrap "handleRepositoryNotFound failed to update deploy task status:")
    (updateTaskStatus (set_task TaskStatusBuildFailed (bs "repository not found, please check the repository path") t) (set_dp_Status BuildFailed d)).
Definition handleRepoInfoError (t : DeployTask) (d : Deploy) (e : derr) : pio unit :=
  if no_rows e then handleRepositoryNotFound t d else io_fail (wrap "failed to get repository info:" e).
Definition handleBuildCancelled (t : DeployTask) : pio unit :=
  io_wrap (wrap "handleBuildCancelled failed to update deploy task status:") (UpdateDeployTask (set_task TaskStatusCancelled (bs "Cancelled") t)).
Definition handleBuildTaskTimeout (t : DeployTask) (d : Deploy) : pio unit :=
  io_wrap (wrap "handleBuildTaskTimeout failed to update deploy task status:")
    (updateTaskStatus (set_task TaskStatusBuildFailed (bs "build task timeout") t) (set_dp_Status BuildFailed d)).
Definition handleBuildError (t : DeployTask) (d : Deploy) (e : derr) : pio unit :=
  io_wrap (wrap "handleBuildError failed to update deploy task status:")
    (updateTaskStatus (set_task TaskStatusBuildFailed (bs "build task failed: " ++ derr_text e) t) (set_dp_Status BuildFailed d)).
Definition handleBuildTaskToBuildInQueue (t : DeployTask) (d : Deploy) : pio unit :=
  io_wrap (wrap "handleBuildTaskToBuildInQueue failed to update deploy task status:")
    (updateTaskStatus (set_task TaskStatusBuildInQueue (bs "build in queue") t) (set_dp_Status BuildInQueue d)).
Definition handleDeployError (t : DeployTask) (d : Deploy) (e : derr) : pio unit :=
  io_wrap (wrap "handleDeployError failed to update deploy task status:")
    (updateTaskStatus (set_task TaskStatusDeployFailed (derr_text e) t) (set_dp_Status DeployFailed d)).
Definition updateDeployTaskStatus (t : DeployTask) (d : Deploy) (serviceName : bytes) : pio unit :=
  let d := set_dp_Status Deploying d in
  update_status col_status_svc (set_task TaskStatusDeploying (bs "deploy in progress") t) (if decide (serviceName = []) then d else set_dp_SvcName serviceName d).

Definition isTaskTimedOut (now : Z) (t : DeployTask) (d : option Deploy) : pio bool :=
  minutes ← (if decide (dt_TaskType t = TaskTypeBuild) then mret (dc_BuildTimeoutInMin cfg)
             else match d with
                  | None => p_panic
                  | Some d => mret (if decide (or_SpaceID (dp_origin d) = 0 ∧ 0 < or_ModelID (dp_origin d)) then dc_ModelDeployTimeoutInMin cfg
                                    else dc_SpaceDeployTimeoutInMin cfg)
                  end);
  mret (bool_decide (dt_CreatedAt t + minutes * Minute < now)).

(** ** Build *)

Definition FindByUID (uid : Z) : pio TokenRow :=
  o ← read (λ w, found_by (λ k, tk_UserID k = uid) (tb_tokens (dw_tables w)));
  match o with Some k => mret k | None => io_fail (DText (bs "access token not found")) end.
Definition GetRepoLastCommit (repoType namespace name ref : bytes) : pio bytes := next_fault;; mret (last_commit repoType namespace name ref).

Definition parseHardware (input : bytes) : bytes := if Contains input (bs "GPU") || Contains input (bs "NVIDIA") then bs "gpu" else bs "cpu".

Definition createBuildRequest (t : DeployTask) (d : Deploy) (r : RepoInfo) : pio ImageBuilderRequest :=
  token ← io_wrap (wrap "failed to get git access token:") (FindByUID (or_UserID (dp_origin d)));
  match Split (ri_Path r) (bs "/") with
  | ns :: name :: _ =>
      commit ← io_wrap (wrap "failed to get repository last commit:") (GetRepoLastCommit (ri_RepoType r) ns name (or_GitBranch (dp_origin d)));
      mret (mk_build ns name (parseHardware (op_Hardware (dp_opts d))) (ri_Sdk r) (ri_SdkVersion r) (ri_DriverVersion r) (ri_HTTPCloneURL r)
              (or_GitBranch (dp_origin d)) (tk_Username token) (tk_Token token) (Itoa (dt_DeployID t)) (op_ClusterID (dp_opts d)) commit (dt_ID t) (ri_RepoID r))
  | _ => io_fail (DText (bs "invalid repository path format: " ++ ri_Path r))
  end.

(** What the build activity keeps between two looks at its task. *)
Record poll_state := mk_poll { ps_task : DeployTask; ps_deploy : Deploy; ps_request : ImageBuilderRequest }.

Definition ask_builder (p : poll_state) : pio bool :=
  io_modify (add_call (CBuild (ps_request p)));;
  r ← io_try next_fault;
  match r with
  | Err e => handleBuildError (ps_task p) (ps_deploy p) e;; io_fail (wrap "build failed:" e)
  | Ok _ => handleBuildTaskToBuildInQueue (ps_task p) (ps_deploy p);; mret true
  end.
(** Whether to go on looking. *)
Definition checkBuildStatus (now : Z) (p : poll_state) : pio bool :=
  '(t, d) ← io_wrap (wrap "failed to get deploy task:") (GetDeployTask (dt_ID (ps_task p)));
  if decide (dt_Status t = TaskStatusBuildPending) then ask_builder p
  else if decide (dt_Status t = TaskStatusBuildFailed) then io_fail (DText (bs "build task failed: " ++ dt_Message t))
  else if decide (dt_Status t = TaskStatusBuildSucceed) then mret false
  else
    timedOut ← isTaskTimedOut now t d;
    if timedOut : bool then '(t, d) ← deploy_of (t, d); handleBuildTaskTimeout t d;; mret false else mret true.

(** The activity up to its first look: [None] when there is nothing to wait
    for. *)
Definition Build (now taskId : Z) : pio (option poll_state) :=
  '(t, d) ← io_wrap (wrap "failed to get deploy task:") (GetDeployTask taskId);
  if decide (dt_Status t = TaskStatusBuildSkip) then mret None
  else
    '(t, d) ← deploy_of (t, d);
    r ← io_try (getRepositoryInfo d);
    match r with
    | Err e => handleRepoInfoError t d e;; io_fail (wrap "failed to get repository info:" e)
    | Ok repo =>
        request ← io_wrap (wrap "failed to create build request:") (createBuildRequest t d repo);
        let p := mk_poll t d request in
        go ← checkBuildStatus now p; mret (if go : bool then Some p else None)
    end.

(** What the loop of [pollBuildStatus] wakes up for. *)
Inductive wake := StatusTick (now : Z) | Heartbeat | HeartbeatCancelled | CtxDone.
Definition pollBuildStatus (p : poll_state) (e : wake) : pio bool :=
  match e with
  | StatusTick now => checkBuildStatus now p
  | Heartbeat => mret true
  | HeartbeatCancelled => handleBuildError (ps_task p) (ps_deploy p) (DText (bs "build activity cancelled: context canceled"));; mret false
  | CtxDone =>
      io_modify (add_call (CStopBuild (dt_DeployID (ps_task p)) (dt_ID (ps_task p))));;
      io_try next_fault;; handleBuildCancelled (ps_task p);; mret false
  end.

(** ** Run *)

Definition info_of (d : Deploy) : DeployInfo :=
  mk_info (or_Type (dp_origin d)) (or_SpaceID (dp_origin d)) (dp_SvcName d) (op_Env (dp_opts d)) (op_Variables (dp_opts d)) (op_EngineArgs (dp_opts d))
    (op_ContainerPort (dp_opts d)) (op_Task (dp_opts d)).
Definition lift {A} (o : outcome derr A) : pio A := λ w, (o, w).

Definition engine_templates (d : Deploy) : pio (list EngineArg * gmap bytes bytes) :=
  if decide (op_RuntimeFramework (dp_opts d) = []) then mret ([], ∅)
  else
    f ← io_wrap (DWrap (bs "failed to get runtime framework by name " ++ op_RuntimeFramework (dp_opts d) ++ bs ":"))
          (read_row (λ w, found_by (λ f, rf_FrameImage f = dp_ImageID d) (tb_frameworks (dw_tables w))));
    args ← (let s := TrimSpace (rf_EngineArgs f) in
            if decide (s = []) then mret []
            else match unmarshal_args s with Some l => mret l | None => io_fail (DText (bs "failed to unmarshal engine args")) end);
    mret (args, unmarshal_parsers (TrimSpace (rf_ToolCallParsers f))).

(** The metadata is read when the arguments ask for tools. *)
Definition model_architecture (templates : list EngineArg) (parsers : gmap bytes bytes) (d : Deploy) : pio bytes :=
  let args := match JsonStrToMap (op_EngineArgs (dp_opts d)) with Some m => templates ≫= engine_arg Sprintf (read_map m) | None => [] end in
  if bool_decide (templates ≠ []) && Contains args auto_tool && bool_decide (parsers ≠ ∅)
  then r ← io_try next_fault; mret (match r with Ok _ => architecture (or_RepoID (dp_origin d)) | Err _ => [] end)
  else mret [].

Definition deploy_env (hardware : HardWare) (token : TokenRow) (d : Deploy) (templates : list EngineArg) (parsers : gmap bytes bytes) (r : RepoInfo) : pio (gmap bytes bytes) :=
  commit ← (match Split (ri_Path r) (bs "/") with
            | ns :: name :: _ => if decide (or_Type (dp_origin d) = NotebookType) then mret (Ok []) else io_try (GetRepoLastCommit (ri_RepoType r) ns name (or_GitBranch (dp_origin d)))
            | _ => mret (Ok [])
            end);
  arch ← model_architecture templates parsers d;
  lift (makeDeployEnv unicode_lower Sprintf JoinPath (dc_env cfg) hardware (tk_Username token) (tk_Token token) (info_of d) templates parsers r commit arch).

Definition createDeployRequest (t : DeployTask) (d0 : Deploy) (r : RepoInfo) : pio RunRequest :=
  token ← io_wrap (wrap "failed to get git access token:") (FindByUID (or_UserID (dp_origin d0)));
  d ← io_wrap (wrap "failed to get deploy with error:") (GetDeployByID (dt_DeployID t));
  let o := dp_origin d in
  let '(orgName, repoName) :=
    if decide (or_Type o = NotebookType) then (bs "notebook", dp_SvcName d)
    else match Split (ri_Path r) (bs "/") with a :: b :: _ => (a, b) | _ => ([], []) end in
  '(templates, parsers) ← engine_templates d;
  annotation ← (match JsonStrToMap (op_Annotation (dp_opts d)) with
                | None => io_fail (DText (bs "failed to parse deploy annotation"))
                | Some m => lift (assigned m)
                end);
  hardware ← (match unmarshal_hardware (op_Hardware (dp_opts d)) with
              | None => io_fail (DText (bs "failed to parse deploy hardware")) | Some h => mret h end);
  env ← io_wrap (wrap "failed to make deploy env:") (deploy_env hardware token d templates parsers r);
  nodes ← io_wrap (DWrap (bs "failed to get cluster " ++ op_ClusterID (dp_opts d) ++ bs " nodes, error:"))
            (read (λ w, filter (λ n, nd_ClusterID n = op_ClusterID (dp_opts d)) (tb_nodes (dw_tables w))));
  mret (mk_run (if decide (or_SpaceID o = 0 ∧ 0 < or_ModelID o) then dp_ID d else or_SpaceID o) orgName repoName (ri_RepoType r) (ri_UserName r)
    (<[bs "hub-deploy-id" := Itoa (dp_ID d)]> annotation) hardware env (or_GitPath o) (or_GitBranch o) (dp_ImageID d) (dp_ID d)
    (op_MinReplica (dp_opts d)) (op_MaxReplica (dp_opts d)) (tk_Token token) (op_ClusterID (dp_opts d)) (dp_SvcName d) (or_Type o)
    (op_UserUUID (dp_opts d)) (op_SKU (dp_opts d)) (or_OrderDetailID o) (dt_ID t) ((λ n, (nd_Name n, nd_EnableVXPU n)) <$> nodes)).

Definition updateUserResourceDeployID (q : RunRequest) : pio unit :=
  u ← io_wrap (wrap "failed to find user resource by order detail id:")
        (read_row (λ w, found_by (λ u, ur_OrderDetailID u = rn_OrderDetailID q ∧ (rn_UserID q = [] ∨ ur_UserUID u = rn_UserID q)) (dw_resources w)));
  io_wrap (wrap "failed to update deploy id for user resource:") next_fault;;
  io_modify (set_resources (fmap (λ x, if decide (ur_ID x = ur_ID u) then mk_resources (ur_ID u) (ur_UserUID u) (ur_OrderDetailID u) (rn_DeployID q) else x))).

(** ** imagerunner/remote_runner.go, rpc/http_client.go *)

(** The client's attempts at a request: a transport failure is tried again, and
    a request whose answer is lost has reached the runner all the same. The
    error is that of the last attempt. *)
Definition runnerAttempts : nat := 2.
Fixpoint post_run (attempts : nat) (q : RunRequest) : pio unit :=
  match attempts with
  | O => mret tt
  | S n =>
      io_modify (add_call (CRun q));;
      r ← io_try next_fault;
      match r with Ok _ => mret tt | Err e => if decide (n = 0%nat) then io_fail e else post_run n q end
  end.

(** The endpoint of the request's cluster, the default one without a cluster. *)
Definition GetRemoteRunnerHost (clusterID : bytes) : pio unit :=
  if decide (clusterID = []) then mret tt
  else read_row (λ w, found_by (λ c, ci_ClusterID c = clusterID) (tb_clusters (dw_tables w)));; mret tt.

(** The last failure is an answer that refuses, or that cannot be read. *)
Definition Run (q : RunRequest) : pio bytes :=
  GetRemoteRunnerHost (rn_ClusterID q);; post_run runnerAttempts q;; next_fault;; mret (runner_answer q).

Definition ask_runner (t : DeployTask) (d : Deploy) (q : RunRequest) : pio unit :=
  r ← io_try (Run q);
  match r with
  | Err e => handleDeployError t d e;; io_fail (wrap "failed to call image runner:" e)
  | Ok svc => updateDeployTaskStatus t d svc
  end.

Definition DeployActivity (taskId : Z) : pio unit :=
  td ← io_wrap (wrap "failed to get deploy task:") (GetDeployTask taskId);
  '(t, d) ← deploy_of td;
  r ← io_try (getRepositoryInfo d);
  match r with
  | Err e => handleRepoInfoError t d e;; io_fail (wrap "deploy failed to get repository info:" e)
  | Ok repo =>
      q ← io_wrap (wrap "failed to create deploy request:") (createDeployRequest t d repo);
      if decide (rn_ImageID q = []) then io_fail (DText (bs "failed to deploy: image id is empty"))
      else
        (if decide (rn_OrderDetailID q = 0) then mret tt else updateUserResourceDeployID q);;
        '(updated, _) ← io_wrap (wrap "failed to get deploy task:") (GetDeployTask (dt_ID t));
        if decide (dt_Status updated = Pending) then ask_runner t d q else mret tt
  end.

(** ** The workflow *)

(** Where a workflow is; the number counts the attempts at its activity. *)
Inductive wf_state := WBuild (attempt : nat) | WPoll (attempt : nat) (p : poll_state) | WRun (attempt : nat) | WDone | WFailed.

(** An activity that fails or panics is tried again, three times in all. *)
Definition activity {A} (m : pio A) : pio (option A) := λ w,
  match m w with (Ret a, w') => (Ret (Some a), w') | (_, w') => (Ret None, w') end.
Definition MaximumAttempts : nat := 3.
Definition retry (attempt : nat) (again : nat → wf_state) : wf_state := if decide (attempt < MaximumAttempts)%nat then again (S attempt) else WFailed.
Definition after_build (runTaskId : Z) : wf_state := if decide (runTaskId = 0) then WDone else WRun 1.
Definition wf_start (buildTaskId : option Z) (runTaskId : Z) : wf_state := match buildTaskId with Some _ => WBuild 1 | None => after_build runTaskId end.

(** An attempt whose end is not learned in time counts as one that failed,
    whatever it did. *)
Definition lost (s : wf_state) : wf_state :=
  match s with WBuild n | WPoll n _ => retry n WBuild | WRun n => retry n WRun | WDone | WFailed => s end.

Definition DeployWorkflow (e : wake) (now : Z) (buildTaskId : option Z) (runTaskId : Z) (s : wf_state) : pio wf_state :=
  match s with
  | WBuild n =>
      r ← activity (Build now (default 0 buildTaskId));
      mret (match r with Some (Some p) => WPoll n p | Some None => after_build runTaskId | None => retry n WBuild end)
  | WPoll n p =>
      r ← activity (pollBuildStatus p e);
      mret (match r with Some true => WPoll n p | Some false => after_build runTaskId | None => retry n WBuild end)
  | WRun n =>
      r ← activity (DeployActivity runTaskId);
      mret (match r with Some _ => WDone | None => retry n WRun end)
  | WDone | WFailed => mret s
  end.

(** ** Events of the image builder (webhook_executor_imagebuilder.go) *)

(** The task's and the deployment's status an event asks for, and the
    message. *)
Definition build_transition (status : bytes) (message path : bytes) (d : Deploy) : option (Z * bytes * Deploy) :=
  if decide (status = bs "Running") then
    if decide (dp_Status d = BuildInQueue) then Some (TaskStatusBuildInProgress, bs "build in progress", set_dp_Status Building d) else None
  else if decide (status = bs "Succeeded") then
    if decide (dp_Status d = Building) then Some (TaskStatusBuildSucceed, bs "build success, image path: " ++ path, set_dp_Status BuildSuccess (set_dp_ImageID path d)) else None
  else if decide (status = bs "Failed" ∨ status = bs "Error") then
    if decide (dp_Status d = Building) then Some (TaskStatusBuildFailed, message, set_dp_Status BuildFailed d) else None
  else None.

Definition builder_event (e : ImageBuilderEvent) : pio unit :=
  '(t, od) ← io_wrap (wrap "failed to get deploy task to update builder deploy status, error:") (GetDeployTask (be_TaskId e));
  match od with
  | None => mret tt
  | Some d =>
      lastTask ← io_wrap (wrap "failed to get last build task to update builder deploy status, error:") (GetLastTaskByType (dp_ID d) (dt_TaskType t));
      if decide (dt_ID lastTask ≠ dt_ID t) then mret tt
      else
        match build_transition (be_Status e) (be_Message e) (be_ImagetPath e) d with
        | None => mret tt
        | Some (status, message, d) =>
            if decide (dt_Status t = TaskStatusCancelled ∨ dt_Status t = TaskStatusBuildFailed) then mret tt
            else if decide (dt_Status t ≠ TaskStatusBuildInQueue ∧ status ≤ dt_Status t) then mret tt
            else UpdateInTx col_status_image (Some d) (set_task status message t)
        end
  end.
(** Only change events are acted on. *)
Definition builder_ProcessEvent (eventType data : bytes) : pio unit :=
  match unmarshal_builder_event data with
  | None => io_fail (DText (bs "failed to unmarshal event data"))
  | Some e => if decide (eventType = bs "runner.builder.change") then builder_event e else mret tt
  end.

(** ** Events of the runner (webhook_executor_kservice.go) *)

(** The type and the address in a notice; none for other types. *)
Definition buildDeployNotification (d : Deploy) : option bytes * bytes :=
  let o := dp_origin d in
  if decide (or_Type o = SpaceType) then (Some (bs "space"), bs "/spaces/" ++ or_GitPath o)
  else if decide (or_Type o = InferenceType) then (Some (bs "inference"), bs "/endpoints/" ++ or_GitPath o ++ bs "/" ++ Itoa (dp_ID d))
  else if decide (or_Type o = FinetuneType) then (Some (bs "finetune"), bs "/finetune/" ++ or_GitPath o ++ bs "/" ++ or_DeployName o ++ bs "/" ++ Itoa (dp_ID d))
  else if decide (or_Type o = EvaluationType) then (Some (bs "evaluation"), [])
  else if decide (or_Type o = ServerlessType) then (Some (bs "serverless"), [])
  else (None, []).

(** At most [n] attempts; no attempt is no error. *)
Fixpoint sendNotification (n : nat) (d : Deploy) : pio unit :=
  match n with
  | O => mret tt
  | S n =>
      r ← io_try next_fault;
      match r with
      | Ok _ => io_modify (add_notice d)
      | Err e => match n with O => io_fail (wrap "failed to send notification after attempts, err:" e) | _ => sendNotification n d end
      end
  end.

Definition add_node (nodes node : bytes) : bytes :=
  if decide (node ≠ [] ∧ node ∉ Split nodes (bs ",")) then
    let nodes := if decide (nodes = []) then nodes else nodes ++ bs "," in
    nodes ++ (nodes ++ node)
  else nodes.

Definition event_row (e : ServiceEvent) (d : Deploy) : Deploy :=
  mk_deploy (dp_ID d) (se_Status e) (dp_ImageID d) (dp_SvcName d) (se_Endpoint e) (se_Message e) (se_Reason e)
    (add_node (dp_ClusterNode d) (se_ClusterNode e)) (if decide (se_QueueName e = []) then dp_QueueName d else se_QueueName e)
    (if decide (se_Instances e = []) then dp_Instances d else se_Instances e) (dp_CreatedAt d) (dp_opts d) (dp_origin d).

Definition updateDeployStatus (retryCount : nat) (e : ServiceEvent) : pio unit :=
  '(t, _) ← io_wrap (wrap "failed to get deploy task in webhook error:") (GetDeployTask (se_TaskID e));
  lastTask ← io_wrap (wrap "failed to get last deploy task in webhook error:") (GetLastTaskByType (dt_DeployID t) (dt_TaskType t));
  if decide (dt_ID lastTask ≠ dt_ID t) then mret tt
  else
    r ← io_try (GetDeployBySvcName (se_ServiceName e));
    match r with
    | Err err => if no_rows err then mret tt else io_fail (DText (bs "failed to get deploy by service name " ++ se_ServiceName e ++ bs " in webhook"))
    | Ok d =>
        if decide (dp_Status d = Stopped ∧ se_Status e = DeployFailed) then mret tt
        else if decide (dp_Status d = Deleted) then mret tt
        else
          let d' := event_row e d in
          io_wrap (wrap "failed to update deploy status in webhook error:") (UpdateDeploy d');;
          if decide (se_Status e = Running ∧ dp_Status d ≠ Running) then io_try (sendNotification retryCount d');; mret tt else mret tt
    end.
Definition service_ProcessEvent (retryCount : nat) (data : bytes) : pio unit :=
  match unmarshal_service_event data with
  | None => io_fail (DText (bs "failed to unmarshal webhook kservice event error"))
  | Some e => io_wrap (wrap "failed to update deploy status in webhook error:") (updateDeployStatus retryCount e)
  end.
End flow.
