(* ===== verification/DpOps.v ===== *)
(** Creating, starting, stopping, updating and deleting deployments
    (builder/deploy/deployer.go, component/repo_deploy.go, the community
    edition's hooks being empty, and the stop of component/space.go). *)
From stdpp Require Import sorting.
From S2P Require Import Prelude GoLib GoJson Sensitive DpEnv DpTask DpFlow.
Open Scope Z_scope.

(** ** builder/deploy/deployer.go: creating *)

Record DeployRepo := mk_repo_req { dr_opts : Options; dr_origin : Origin; dr_ImageID : bytes }.

Section ops.
Variable unicode_lower : Z → Z.

(** [snowflake] is the next id of the generator. *)
Definition GenerateUniqueSvcName (snowflake : bytes) (dr : DeployRepo) : outcome derr bytes :=
  let o := dr_origin dr in
  let name prefix id :=
    match Split (or_GitPath o) (bs "/") with
    | ns :: n :: _ => match UniqueSpaceAppName unicode_lower prefix ns n id with Some s => Ret s | None => Panic end
    | _ => Panic
    end in
  if decide (or_Type o = SpaceType) then name (bs "u") (or_SpaceID o)
  else if decide (or_Type o = ServerlessType) then name (bs "s") (or_RepoID o)
  else Ret snowflake.

(** The row a space or a serverless model already has is reused. *)
Definition serverlessDeploy (dr : DeployRepo) : pio (option Deploy) :=
  r ← io_try (if decide (or_Type (dr_origin dr) = SpaceType) then d ← GetLatestDeployBySpaceID (or_SpaceID (dr_origin dr)); mret (Some d)
              else GetServerlessDeployByRepID (or_RepoID (dr_origin dr)));
  match r with
  | Err e => if no_rows e then mret None else io_fail (wrap "failed to find space or serverless deploy," e)
  | Ok None => mret None
  | Ok (Some d) =>
      let d := mk_deploy (dp_ID d) (dp_Status d) (dr_ImageID dr) (dp_SvcName d) (dp_Endpoint d) (dp_Message d) (dp_Reason d) (dp_ClusterNode d)
                 (dp_QueueName d) (dp_Instances d) (dp_CreatedAt d) (dr_opts dr) (dp_origin d) in
      io_wrap (wrap "fail reset deploy image,") (UpdateDeploy d);; mret (Some d)
  end.

Definition dedicatedDeploy (now : Z) (snowflake : bytes) (dr : DeployRepo) : pio Deploy :=
  svc ← lift (GenerateUniqueSvcName snowflake dr);
  if decide (svc = []) then io_fail (DText (bs "failed to generate uuid for deploy"))
  else
    let o := dr_origin dr in
    CreateDeploy now (mk_deploy 0 0 (dr_ImageID dr) svc [] [] [] [] [] [] 0 (dr_opts dr)
      (mk_origin (or_DeployName o) (or_SpaceID o) (or_GitPath o) (or_GitBranch o) (or_ModelID o) (or_UserID o) (or_RepoID o) (or_Type o) 0)).

Definition buildDeploy (now : Z) (snowflake : bytes) (dr : DeployRepo) : pio Deploy :=
  let ty := or_Type (dr_origin dr) in
  existing ← (if decide (ty = SpaceType ∨ ty = ServerlessType) then io_wrap (wrap "fail to check serverless deploy for spaceID,") (serverlessDeploy dr) else mret None);
  match existing with Some d => mret d | None => dedicatedDeploy now snowflake dr end.

(** api/workflow/deployer.go: what runs on the deployment is told to stop,
    then the workflow is started; three attempts in all. A start whose answer is
    lost has happened, and is made again. The caller does not wait and the error
    is logged. *)
Definition startAttempts : nat := 3.
Fixpoint StartNewDeployTaskWithCancelOld (attempts : nat) (b : option Z) (r : Z) : pio unit :=
  match attempts with
  | O => mret tt
  | S n =>
      s ← io_try (next_fault;; next_fault;; io_modify (add_workflow b r);; next_fault);
      match s with Ok _ => mret tt | Err _ => StartNewDeployTaskWithCancelOld n b r end
  end.

(** A build task that is skipped when there is an image, a run task, and the
    workflow over both. *)
Definition Deploy_ (now : Z) (snowflake : bytes) (dr : DeployRepo) : pio Z :=
  d ← io_wrap (wrap "failed to create deploy in db,") (buildDeploy now snowflake dr);
  let '(status, message) := if decide (TrimFunc (λ r, bool_decide (r = 32)) (dp_ImageID d) = []) then (0, []) else (TaskStatusBuildSkip, bs "Skip") in
  buildTask ← io_wrap (wrap "create deploy task failed:") (CreateDeployTask now (dp_ID d) TaskTypeBuild status message);
  runTask ← io_wrap (wrap "create deploy task failed:") (CreateDeployTask now (dp_ID d) TaskTypeDeploy 0 []);
  StartNewDeployTaskWithCancelOld startAttempts (Some (dt_ID buildTask)) (dt_ID runTask);;
  mret (dp_ID d).

Definition StartDeploy (now : Z) (d : Deploy) : pio unit :=
  io_wrap (wrap "failed to update deploy,") (UpdateDeploy (set_dp_Status Pending d));;
  runTask ← io_wrap (wrap "create deploy task failed:") (CreateDeployTask now (dp_ID d) TaskTypeDeploy 0 []);
  StartNewDeployTaskWithCancelOld startAttempts None (dt_ID runTask).

(** ** deployer.go: status and the runner's answers *)

Definition ClusterStatusRunning : bytes := bs "Running".
Definition ClusterStatusUnavailable : bytes := bs "Unavailable".

Definition ByClusterID (id : bytes) : pio ClusterInfo := read_row (λ w, found_by (λ c, ci_ClusterID c = id) (tb_clusters (dw_tables w))).

(** Times in nanoseconds; the last update is taken in seconds. [interval] is
    the heartbeat's, in seconds. *)
Definition CheckClusterHealthy (now interval : Z) (clusterID : bytes) : pio bool :=
  r ← io_try (c ← ByClusterID clusterID; next_fault;; mret c);
  match r with
  | Err _ => mret false
  | Ok c =>
      if negb (ci_Enable c) then mret false
      else if decide (ci_Status c = ClusterStatusUnavailable) then mret false
      else mret (bool_decide (now - (ci_UpdatedAt c / 1000000000) * 1000000000 ≤ interval * 2 * 1000000000))
  end.

Definition deployer_Status (now interval deployID : Z) : pio (bytes * Z * list Instance) :=
  d ← io_wrap (wrap "can't get deploy,") (GetDeployByID deployID);
  healthy ← CheckClusterHealthy now interval (op_ClusterID (dp_opts d));
  mret (if healthy : bool then (dp_SvcName d, dp_Status d, dp_Instances d) else ([], ResourceUnhealthy, [])).

(** The runner's answers are arguments: the code of a check. *)
Definition Exist (code : Z) (svc : bytes) : pio bool :=
  io_modify (add_call (CExist svc));;
  next_fault;;
  if decide (code = -1) then io_fail (DText (bs "fail to check deploy instance")) else mret (bool_decide (code ≠ Stopped)).
(** The community edition releases nothing: the error of the runner is
    overwritten by the release's. *)
Definition deployer_Stop (svc : bytes) : pio unit := io_modify (add_call (CStop svc));; io_try next_fault;; mret tt.
Definition Purge (svc : bytes) : pio unit := io_modify (add_call (CPurge svc));; next_fault.

(** ** component/repo_deploy.go *)

Record DeployActReq := mk_act { ar_CurrentUser : bytes; ar_DeployID : Z; ar_DeployType : Z }.

Definition FindUser (name : bytes) : pio UserRow := read_row (λ w, found_by (λ u, us_Username u = name) (tb_users (dw_tables w))).
(** An error counts as no organisation. *)
Definition IsInSameOrg (currentID ownerID : Z) : pio bool :=
  r ← io_try (read (λ w, existsb (λ m : Z * Z, bool_decide (m.2 = currentID ∧ (m.1, ownerID) ∈ tb_members (dw_tables w))) (tb_members (dw_tables w))));
  mret (match r with Ok b => b | Err _ => false end).

Definition CheckDeployPermissionForUser (req : DeployActReq) : pio (UserRow * Deploy) :=
  user ← io_wrap (wrap "deploy permission check user failed,") (FindUser (ar_CurrentUser req));
  d ← io_wrap (wrap "fail to get user deploy," ) (GetDeployByID (ar_DeployID req));
  allowed ← (if decide (or_UserID (dp_origin d) = us_ID user) then mret true
             else if CanAdmin user then mret true else IsInSameOrg (us_ID user) (or_UserID (dp_origin d)));
  if allowed : bool then mret (user, d) else io_fail (DText (bs "deploy was not created by user")).
Definition checkDeployPermissionForServerless (req : DeployActReq) : pio (UserRow * Deploy) :=
  user ← io_wrap (wrap "deploy permission check user failed,") (FindUser (ar_CurrentUser req));
  if CanAdmin user then
    d ← io_wrap (wrap "fail to get serverless deploy,") (GetDeployByID (ar_DeployID req)); mret (user, d)
  else io_fail (DText (bs "need admin permission for Serverless deploy")).
Definition check_permission (req : DeployActReq) : pio (UserRow * Deploy) :=
  if decide (ar_DeployType req = ServerlessType) then checkDeployPermissionForServerless req else CheckDeployPermissionForUser req.

Definition DeployStop (code : Z) (req : DeployActReq) : pio unit :=
  '(_, d) ← io_wrap (wrap "fail to check permission for stop deploy,") (check_permission req);
  deployer_Stop (dp_SvcName d);;
  exist ← Exist code (dp_SvcName d);
  if exist : bool then io_fail (DText (bs "fail to stop deploy instance"))
  else io_wrap (wrap "fail to stop deploy instance,") (StopDeploy (or_RepoID (dp_origin d)) (or_UserID (dp_origin d)) (ar_DeployID req)).

(** The running status this function compares with. *)
Definition deployStatusRunning : Z := 4.
(** [affordable] is the outcome of the account and resource check. *)
Definition DeployStart (now interval code : Z) (affordable : option derr) (req : DeployActReq) : pio unit :=
  '(_, d) ← io_wrap (wrap "failed to check permission for start deploy,") (check_permission req);
  resourceId ← (match ParseInt (op_SKU (dp_opts d)) with Some n => mret n | None => io_fail (DText (bs "failed to parse resource id")) end);
  io_wrap (wrap "failed to find resource,") (read_row (λ w, found_by (λ s, sr_ID s = resourceId) (tb_skus (dw_tables w))));;
  (match affordable with Some e => io_fail e | None => mret tt end);;
  exist ← Exist code (dp_SvcName d);
  (if exist : bool then
     '(_, status, _) ← io_wrap (wrap "failed to get deploy status,") (deployer_Status now interval (ar_DeployID req));
     if decide (status = deployStatusRunning) then io_fail (DText (bs "stop deploy first"))
     else deployer_Stop (dp_SvcName d)
   else mret tt);;
  io_wrap (wrap "fail to start deploy,") (StartDeploy now d).

(** A failed purge or check is only logged. *)
Definition component_DeleteDeploy (code : Z) (req : DeployActReq) (serverlessRepo : Z) : pio unit :=
  id ← (if decide (ar_DeployType req = ServerlessType) then
          d ← io_wrap (wrap "fail to get deploy for serverless,") (GetServerlessDeployByRepID serverlessRepo);
          match d with Some d => mret (dp_ID d) | None => io_fail (DText (bs "no deploy found for serverless type")) end
        else mret (ar_DeployID req));
  '(user, d) ← CheckDeployPermissionForUser (mk_act (ar_CurrentUser req) id (ar_DeployType req));
  io_try (Purge (dp_SvcName d));;
  r ← io_try (Exist code (dp_SvcName d));
  match r with
  | Ok true => io_fail (DText (bs "fail to delete service"))
  | _ =>
      io_wrap (wrap "fail to remove deploy instance,")
        (if decide (ar_DeployType req = ServerlessType) then DeleteDeployNow id else DeleteDeploy (or_RepoID (dp_origin d)) (us_ID user) id);;
      if decide (or_OrderDetailID (dp_origin d) = 0) then mret tt
      else
        u ← io_wrap (wrap "fail to find user resource,")
              (read_row (λ w, found_by (λ u, ur_OrderDetailID u = or_OrderDetailID (dp_origin d) ∧ (op_UserUUID (dp_opts d) = [] ∨ ur_UserUID u = op_UserUUID (dp_opts d))) (dw_resources w)));
        io_wrap (wrap "fail to release resource,") next_fault;;
        io_modify (set_resources (fmap (λ x, if decide (ur_ID x = ur_ID u) then mk_resources (ur_ID u) (ur_UserUID u) (ur_OrderDetailID u) 0 else x)))
  end.
(** ** component/space.go *)

(** [sort.Slice] by descending id. *)
Definition not_older (a b : DeployTask) : Prop := dt_ID b ≤ dt_ID a.
#[export] Instance not_older_dec : RelDecision not_older.
Proof. intros a b. unfold not_older. apply _. Defined.
Definition by_id_desc (l : list DeployTask) : list DeployTask := merge_sort not_older l.
Definition GetDeployTasksOfDeploy (deployID : Z) : pio (list DeployTask) := read (λ w, filter (λ t, dt_DeployID t = deployID) (dw_tasks w)).
Definition StopBuild (deployID taskID : Z) : pio unit :=
  io_modify (add_call (CStopBuild deployID taskID));; io_wrap (wrap "deployer stop build failed,") next_fault.

Definition stopSpaceDeploy (spaceID : Z) : pio unit :=
  d ← io_wrap (wrap "can't get space deployment,") (GetLatestDeployBySpaceID spaceID);
  (if decide (dp_Status d = Building) then
     tasks ← io_wrap (wrap "can't get space delopyment,") (GetDeployTasksOfDeploy (dp_ID d));
     match by_id_desc tasks with
     | _ :: buildTask :: _ => io_wrap (wrap "can't stop space service build for service,") (StopBuild (dp_ID d) (dt_ID buildTask))
     | _ => io_fail (DText (bs "can't get space delopyment"))
     end
   else mret tt);;
  deployer_Stop (dp_SvcName d);;
  io_wrap (wrap "fail to update space deploy status to stopped,") (StopDeploy (or_RepoID (dp_origin d)) (or_UserID (dp_origin d)) (dp_ID d)).
End ops.
