(* ===== verification/DpMeter.v ===== *)
(** Metering of what runs (builder/deploy/deployer.go): one cycle of
    [startAcctMetering], from the rows of the deployments and evaluations to the
    events published for the accounting consumer. *)
From S2P Require Import Prelude GoLib GoJson Sensitive Accounting DpEnv DpTask DpFlow DpOps.
Open Scope Z_scope.

(** The scenes' numbers (common/types/accounting.go). *)
Definition scene_number (s : SceneType) : Z :=
  match s with
  | SceneReserve => 0 | ScenePortalCharge => 1 | ScenePayOrder => 2 | SceneCashCharge => 3 | ScenePaySubscription => 4
  | SceneModelInference => 10 | SceneSpace => 11 | SceneModelFinetune => 12 | SceneMultiSync => 13
  | SceneEvaluation => 14 | SceneModelServerless => 15
  | SceneStarship => 20 | SceneGuiAgent => 22 | SceneAgenticHub => 30 | SceneUnknow => 99
  | SceneOther n => n
  end.

Definition GetValidSceneType (deployType : Z) : SceneType :=
  match deployType with
  | 0 => SceneSpace | 1 => SceneModelInference | 2 => SceneModelFinetune | 3 => SceneModelServerless | 5 => SceneModelInference
  | _ => SceneUnknow
  end.

Definition startAcctRequestFeeExtra (source : bytes) : bytes :=
  if decide (source = []) then []
  else bs "{ " ++ ["034"%char] ++ bs "from_source" ++ ["034"%char] ++ bs ": " ++ ["034"%char] ++ source ++ ["034"%char] ++ bs " }".

Record MeterConfig := mk_mcfg { mc_SyncInterval : Z; mc_HeartBeatTimeInSec : Z; mc_UniqueServiceName : bytes }.

Section metering.
(** The clock, the uuids and the runner's counts of replicas, by the number of
    the item the cycle is at, and by deployment. *)
Variable clock : nat → Z.
Variable new_uuid : nat → bytes.
Variable actual_replica : Deploy → Z.
Variable cfg : MeterConfig.

Definition getResourceMap : pio (gmap bytes bytes) :=
  r ← io_try (read (λ w, tb_skus (dw_tables w)));
  mret (match r with Ok l => foldl (λ m s, <[Itoa (sr_ID s) := sr_Name s]> m) ∅ l | Err _ => ∅ end).
Definition getClusterMap : pio (gmap bytes ClusterInfo) :=
  r ← io_try (read (λ w, tb_clusters (dw_tables w)));
  mret (match r with Ok l => foldl (λ m c, <[ci_ClusterID c := c]> m) ∅ l | Err _ => ∅ end).
Definition ListAllRunningDeploys : pio (list Deploy) := read (λ w, filter (λ d, dp_Status d = Running) (dw_deploys w)).
Definition ListAllRunningEvaluations : pio (list ArgoWorkflow) := read (λ w, filter (λ a, aw_Status a = bs "Running") (tb_argo (dw_tables w))).

(** Unix seconds. *)
Definition Unix (t : Z) : Z := t / 1000000000.
Definition cluster_alive (now : Z) (c : ClusterInfo) : Prop :=
  ci_Status c = ClusterStatusRunning ∧ Unix now - Unix (ci_UpdatedAt c) ≤ mc_HeartBeatTimeInSec cfg * 2.
#[export] Instance cluster_alive_dec now c : Decision (cluster_alive now c) := _.

(** What is billed for a deployment before its replicas are asked for: the
    resource's name, the scene and the hardware. *)
Definition billable (resMap : gmap bytes bytes) (clusterMap : gmap bytes ClusterInfo) (now : Z) (d : Deploy) : option (bytes * SceneType * HardWare) :=
  c ← clusterMap !! op_ClusterID (dp_opts d);
  if decide (¬ cluster_alive now c) then None
  else if decide (op_SKU (dp_opts d) = []) then None
  else
    resName ← resMap !! op_SKU (dp_opts d);
    match GetValidSceneType (or_Type (dp_origin d)) with
    | SceneUnknow | SceneModelServerless => None
    | scene => hardware ← unmarshal_hardware (op_Hardware (dp_opts d)); Some (resName, scene, hardware)
    end.

(** The runner is not asked about several nodes. *)
Definition replicas (d : Deploy) (h : HardWare) : pio Z :=
  if decide (hw_Replicas h < 2) then
    r ← io_try next_fault;
    mret (match r with Ok _ => if decide (0 < actual_replica d) then actual_replica d else 1 | Err _ => 1 end)
  else mret 1.

(** Three tries; whether the event was published. *)
Fixpoint publish_tries (n : nat) : pio bool :=
  match n with
  | O => mret false
  | S n => r ← io_try next_fault; match r with Ok _ => mret true | Err _ => publish_tries n end
  end.
Definition PublishMeteringEvent (e : MeteringEvent) : pio (list MeteringEvent) :=
  ok ← publish_tries 3; mret (if ok : bool then [e] else []).

Definition deploy_event (eventTime : Z) (uuid : bytes) (d : Deploy) (resName : bytes) (scene : SceneType) (count : Z) : MeteringEvent :=
  mk_event uuid (op_UserUUID (dp_opts d)) (i64 (mc_SyncInterval cfg * count)) TimeDurationMinType (scene_number scene) []
    (op_SKU (dp_opts d)) resName (dp_SvcName d) eventTime (startAcctRequestFeeExtra (mc_UniqueServiceName cfg)).
Definition startAcctMeteringRequest (resMap : gmap bytes bytes) (clusterMap : gmap bytes ClusterInfo) (eventTime : Z) (k : nat) (d : Deploy) : pio (list MeteringEvent) :=
  match billable resMap clusterMap (clock k) d with
  | None => mret []
  | Some (resName, scene, hardware) =>
      count ← replicas d hardware;
      PublishMeteringEvent (deploy_event eventTime (new_uuid k) d resName scene count)
  end.

Definition startAcctForEvaluations (clusterMap : gmap bytes ClusterInfo) (k : nat) (a : ArgoWorkflow) : pio (list MeteringEvent) :=
  match clusterMap !! aw_ClusterID a with
  | None => mret []
  | Some c =>
      if decide (¬ cluster_alive (clock k) c) then mret []
      else if decide (86400 * 2 < Unix (clock k) - Unix (aw_StartTime a)) then mret []
      else if decide (aw_ResourceId a < 1) then mret []
      else PublishMeteringEvent (mk_event (new_uuid k) (aw_UserUUID a) (mc_SyncInterval cfg) TimeDurationMinType (scene_number SceneEvaluation) []
             (Itoa (aw_ResourceId a)) (aw_ResourceName a) (aw_TaskId a) (clock k) [])
  end.

Fixpoint each {A} (f : nat → A → pio (list MeteringEvent)) (k : nat) (l : list A) : pio (list MeteringEvent) :=
  match l with [] => mret [] | a :: l => es ← f k a; es' ← each f (S k) l; mret (es ++ es') end.

Definition startAcctMeteringProcess (eventTime : Z) : pio (list MeteringEvent) :=
  r ← io_try ListAllRunningDeploys;
  match r with
  | Err _ => mret []
  | Ok deploys =>
      resMap ← getResourceMap;
      clusterMap ← getClusterMap;
      es ← each (startAcctMeteringRequest resMap clusterMap eventTime) 0 deploys;
      r ← io_try ListAllRunningEvaluations;
      match r with
      | Err _ => mret es
      | Ok evaluations => es' ← each (startAcctForEvaluations clusterMap) (length deploys) evaluations; mret (es ++ es')
      end
  end.
End metering.
