(* ===== verification/DpFlowSpec.v ===== *)
(** The deployment workflow and its events: what they leave alone whatever
    fails, how often the runner is asked, how a build's status moves, and that
    a workflow comes to rest. *)
From S2P Require Import Prelude GoLib GoJson Sensitive DpEnv DpTask DpFlow DpOps.
Open Scope Z_scope.

#[local] Arguments deploy_of _ : simpl never.

(** ** Runs that return *)

Lemma bind_ret {W E A B} (m : io W E A) (f : A → io W E B) w b w' : (m ≫= f) w = (Ret b, w') → ∃ a w1, m w = (Ret a, w1) ∧ f a w1 = (Ret b, w').
Proof. unfold mbind, io_bind. destruct (m w) as [[a|e|] w1]; naive_solver. Qed.
Lemma wrap_ret {W E A} f (m : io W E A) w a w' : io_wrap f m w = (Ret a, w') → m w = (Ret a, w').
Proof. unfold io_wrap. by destruct (m w) as [[]]. Qed.
Lemma try_ret {W E A} (m : io W E A) w r w' : io_try m w = (Ret r, w') → (snd (m w) = w') ∧ ∀ a, r = Ok a → m w = (Ret a, w').
Proof. unfold io_try. destruct (m w) as [[a|e|] w1] eqn:?; naive_solver. Qed.
Ltac returned H :=
  repeat (apply bind_ret in H as (? & ? & ? & H)).

(** ** One walk through the activities

    [T] and [D] hold of the task and the deployment an activity works for; the
    runner may be asked for along [S], everything else goes along [R]. *)
Lemma moves_activity {A} I R (P : A → Prop) (m : pio A) : moves I R P m → moves I R (λ o, ∀ a, o = Some a → P a) (activity m).
Proof.
  intros Hm w Hw. destruct (Hm w Hw) as (HI & HR & HP). unfold activity.
  destruct (m w) as [[a|e|] w'] eqn:?; cbn in *; split_and!; try done; intros o Ho a' Ha'; simplify_eq; eauto.
Qed.

(** The runner's client, where its requests are allowed. *)
Lemma moves_Run I R `{!PreOrder R} (runner_answer : RunRequest → bytes) q :
  moves I R anywhere (next_fault : pio unit) → moves I R anywhere (io_modify (add_call (CRun q)) : pio unit) → moves I R anywhere (Run runner_answer q).
Proof. intros. unfold Run, runnerAttempts, GetRemoteRunnerHost, read_row, read, row. cbn [post_run]. moves. Qed.

Section walk.
Context (unicode_lower : Z → Z) (Sprintf JoinPath : bytes → bytes → bytes) (last_commit : bytes → bytes → bytes → bytes → bytes)
  (architecture : Z → bytes) (runner_answer : RunRequest → bytes) (cfg : DeployConfig).
Context (I : deploy_world → Prop) (R S : deploy_world → deploy_world → Prop) `{!PreOrder R} (T : DeployTask → Prop) (D : Deploy → Prop) (taskId : Z).
Hypothesis T_id : ∀ t, T t → dt_ID t = taskId.
Hypothesis T_set : ∀ s m t, T t → T (set_task s m t).
Hypothesis D_status : ∀ s d, D d → D (set_dp_Status s d).
Hypothesis D_svc : ∀ s d, D d → D (set_dp_SvcName s d).
Hypothesis fault : moves I R anywhere next_fault.
Hypothesis get_task : moves I R (λ td, T td.1 ∧ ∀ d, td.2 = Some d → D d) (GetDeployTask taskId).
Hypothesis update : ∀ cols t d, T t → D d → moves I R anywhere (update_status cols t d).
Hypothesis update_task : ∀ t, T t → moves I R anywhere (UpdateDeployTask t).
Hypothesis other_call : ∀ c, (∀ q, c ≠ CRun q) → moves I R anywhere (io_modify (add_call c) : pio unit).
Hypothesis resource : ∀ f, moves I R anywhere (io_modify (set_resources f) : pio unit).
Hypothesis RS : ∀ x y z, R x y → S y z → S x z.
Hypothesis sub : ∀ x y, R x y → S x y.
Hypothesis run : ∀ t d q, T t → D d → rn_TaskId q = taskId → moves I S anywhere (ask_runner runner_answer t d q).

Local Hint Resolve fault update update_task resource T_set D_status D_svc : moves.

Lemma walk_read {A} (f : deploy_world → A) : moves I R anywhere (read f).
Proof. unfold read. moves. Qed.
Lemma walk_row {A} (o : option A) : moves I R anywhere (row o).
Proof. unfold row. moves. Qed.
Local Hint Resolve walk_read walk_row : moves.
Lemma walk_read_row {A} (f : deploy_world → option A) : moves I R anywhere (read_row f).
Proof. unfold read_row. moves. Qed.
Local Hint Resolve walk_read_row : moves.
Lemma walk_lift {A} (o : outcome derr A) : moves I R anywhere (lift o).
Proof. by intros w. Qed.
Lemma walk_panic {A} (P : A → Prop) : moves I R P (p_panic : pio A).
Proof. by intros w. Qed.
Local Hint Resolve walk_lift walk_panic : moves.

Lemma walk_repository d : moves I R anywhere (getRepositoryInfo cfg d).
Proof. unfold getRepositoryInfo. moves. Qed.
Lemma walk_deploy_of td : T td.1 → (∀ d, td.2 = Some d → D d) → moves I R (λ td', T td'.1 ∧ D td'.2) (deploy_of td).
Proof. destruct td as [t [d|]]; cbn; intros Ht Hd; [|apply walk_panic]. apply moves_ret; [apply _|]. cbn. auto. Qed.

Ltac recorded := intros; repeat unfold handleRepositoryNotFound, handleBuildCancelled, handleBuildTaskTimeout, handleBuildError, handleBuildTaskToBuildInQueue, handleDeployError, updateTaskStatus;
  repeat apply moves_wrap; eauto 6 with moves.
Lemma walk_notfound t d : T t → D d → moves I R anywhere (handleRepositoryNotFound t d).
Proof. recorded. Qed.
Lemma walk_cancelled t : T t → moves I R anywhere (handleBuildCancelled t).
Proof. recorded. Qed.
Lemma walk_timeout t d : T t → D d → moves I R anywhere (handleBuildTaskTimeout t d).
Proof. recorded. Qed.
Lemma walk_build_error t d e : T t → D d → moves I R anywhere (handleBuildError t d e).
Proof. recorded. Qed.
Lemma walk_queue t d : T t → D d → moves I R anywhere (handleBuildTaskToBuildInQueue t d).
Proof. recorded. Qed.
Lemma walk_deploy_error t d e : T t → D d → moves I R anywhere (handleDeployError t d e).
Proof. recorded. Qed.
Lemma walk_deploying t d svc : T t → D d → moves I R anywhere (updateDeployTaskStatus t d svc).
Proof. intros. unfold updateDeployTaskStatus. case_decide; eauto 6 with moves. Qed.
Local Hint Resolve walk_repository walk_notfound walk_cancelled walk_timeout walk_build_error walk_queue walk_deploy_error walk_deploying : moves.
Lemma walk_repo_error t d e : T t → D d → moves I R anywhere (handleRepoInfoError t d e).
Proof. unfold handleRepoInfoError. intros. moves. Qed.
Lemma walk_timed_out now t d : moves I R anywhere (isTaskTimedOut cfg now t d).
Proof. unfold isTaskTimedOut. moves. Qed.
Lemma walk_token uid : moves I R anywhere (FindByUID uid).
Proof. unfold FindByUID. moves. Qed.
Lemma walk_commit a b c d : moves I R anywhere (GetRepoLastCommit last_commit a b c d).
Proof. unfold GetRepoLastCommit. moves. Qed.
Local Hint Resolve walk_repo_error walk_timed_out walk_token walk_commit : moves.
Lemma walk_build_request t d r : moves I R anywhere (createBuildRequest last_commit t d r).
Proof. unfold createBuildRequest. moves. Qed.
Lemma walk_deploy_by id : moves I R anywhere (GetDeployByID id).
Proof. unfold GetDeployByID. moves. Qed.
Lemma walk_templates d : moves I R anywhere (engine_templates d).
Proof. unfold engine_templates. moves. Qed.
Lemma walk_architecture l p d : moves I R anywhere (model_architecture Sprintf architecture l p d).
Proof. unfold model_architecture. moves. Qed.
Local Hint Resolve walk_build_request walk_deploy_by walk_templates walk_architecture : moves.
Lemma walk_env h k d l p r : moves I R anywhere (deploy_env unicode_lower Sprintf JoinPath last_commit architecture cfg h k d l p r).
Proof. unfold deploy_env. moves. Qed.
Local Hint Resolve walk_env : moves.
Lemma walk_resource q : moves I R anywhere (updateUserResourceDeployID q).
Proof. unfold updateUserResourceDeployID. moves. Qed.
Local Hint Resolve walk_resource : moves.
Lemma walk_run_request t d r : moves I R (λ q, rn_TaskId q = dt_ID t)
  (createDeployRequest unicode_lower Sprintf JoinPath last_commit architecture cfg t d r).
Proof. unfold createDeployRequest. moves. Qed.

(** The task and its deployment, as an activity starts. *)
Lemma walk_start {A} (Q : DeployTask → Deploy → Prop) (f : DeployTask * Deploy → pio A) S' :
  (∀ x y z, R x y → S' y z → S' x z) → (∀ x y, R x y → S' x y) → (∀ td, T td.1 → D td.2 → moves I S' anywhere (f td)) →
  moves I S' anywhere (td ← io_wrap (wrap "failed to get deploy task:") (GetDeployTask taskId); td' ← deploy_of td; f td').
Proof.
  intros Hseq Hsub Hf. eapply moves_seq; [exact Hseq|exact Hsub|apply moves_wrap, get_task|]. intros td [Ht Hd].
  eapply moves_seq; [exact Hseq|exact Hsub|by apply walk_deploy_of|]. intros td' [??]. auto.
Qed.

Definition good_poll (p : poll_state) : Prop := T (ps_task p) ∧ D (ps_deploy p).
Local Hint Extern 3 (_ ≠ _) => done : moves.
Local Hint Resolve other_call : moves.

Lemma walk_builder p : good_poll p → moves I R anywhere (ask_builder p).
Proof. intros []. unfold ask_builder. moves. Qed.
Local Hint Resolve walk_builder : moves.
Lemma walk_check now p : good_poll p → moves I R anywhere (checkBuildStatus cfg now p).
Proof.
  intros Hp. unfold checkBuildStatus. destruct Hp as [Ht ?] eqn:Hp'. rewrite (T_id _ Ht).
  apply moves_bind with (P := λ td, T td.1 ∧ ∀ d, td.2 = Some d → D d); [apply _|apply moves_wrap, get_task|]. intros [t od] [? Hd]; cbn in *.
  repeat case_decide; [moves..|]. apply moves_bind_true; [apply _|moves|]. intros [].
  - eapply moves_bind; [apply _|by apply walk_deploy_of|]. intros [] []. cbn in *. moves.
  - moves.
Qed.
Local Hint Resolve walk_check : moves.
Lemma walk_poll p e : good_poll p → moves I R anywhere (pollBuildStatus cfg p e).
Proof. intros Hp. unfold pollBuildStatus. pose proof Hp as []. destruct e; moves. Qed.
Lemma walk_Build now : moves I R (λ o, ∀ p, o = Some p → good_poll p) (Build last_commit cfg now taskId).
Proof.
  unfold Build. eapply moves_bind; [apply _|apply moves_wrap, get_task|]. intros [t od] [Ht Hd].
  case_decide; [by apply moves_ret|].
  eapply moves_bind; [apply _|by apply walk_deploy_of|]. intros [t' d'] [Ht' Hd']; cbn [fst snd] in *.
  apply moves_bind_true; [apply _|moves|]. intros [repo|err].
  - apply moves_bind_true; [apply _|moves|]. intros q. apply moves_bind_true; [apply _|by apply walk_check|].
    intros []; (apply moves_ret; [apply _|]); intros p Hp; simplify_eq; done.
  - apply moves_bind_true; [apply _|moves|intros _]. apply moves_fail, _.
Qed.
Lemma walk_DeployActivity : moves I S anywhere
  (DeployActivity unicode_lower Sprintf JoinPath last_commit architecture runner_answer cfg taskId).
Proof.
  unfold DeployActivity. apply walk_start; [done..|]. intros [t d] Ht Hd; cbn [fst snd] in *.
  eapply moves_seq with (P := anywhere); [done..|moves|]. intros [repo|err] _.
  - eapply moves_seq; [done..|apply moves_wrap, walk_run_request|]. intros q Hq. rewrite (T_id _ Ht) in *.
    case_decide; [apply moves_weaken with R anywhere; [apply moves_fail, _|done..]|].
    eapply moves_seq with (P := anywhere); [done..|moves|intros _ _].
    eapply moves_seq with (P := anywhere); [done..|apply moves_wrap; by eapply moves_true, get_task|]. intros [t' ?] _.
    case_decide; [by apply run|]. apply moves_weaken with R anywhere; [by apply moves_ret|done..].
  - apply moves_weaken with R anywhere; [moves|done..].
Qed.
End walk.
