(* ===== verification/DpRunSpec.v ===== *)
(** Workflows, events and operations interleaved: how often a workflow is
    started for a run task, and how often the runner is then asked. *)
From S2P Require Import Prelude GoLib GoJson Sensitive DpEnv DpTask DpFlow DpOps DpFlowSpec.
Open Scope Z_scope.

(** ** Calls of the runner *)

Definition run_of (t : Z) (c : call) : Prop := match c with CRun q => rn_TaskId q = t | _ => False end.
#[export] Instance run_of_dec t c : Decision (run_of t c).
Proof. destruct c; cbn; apply _. Defined.
(** How often the runner was asked to run a task. *)
Definition runs (t : Z) (w : deploy_world) : nat := length (filter (run_of t) (dw_calls w)).

(** How many workflows of a list run a task. *)
Definition starts (t : Z) (l : list (option Z * Z)) : nat := length (filter (λ br, br.2 = t) l).
(** Workflows are only added, at most three for a run task made meanwhile. *)
Definition launches (w w' : deploy_world) : Prop :=
  dw_next w ≤ dw_next w' ∧ ∃ l, dw_workflows w' = dw_workflows w ++ l ∧ (∀ t, starts t l ≤ 3)%nat ∧ ∀ r, r ∈ l.*2 → dw_next w ≤ r < dw_next w'.
(** At most [n] calls for the task [t]. *)
Definition asks (n : nat) (t : Z) (w w' : deploy_world) : Prop :=
  (∀ t', (runs t' w' ≤ runs t' w + if decide (t' = t) then n else 0)%nat) ∧ launches w w'.
Definition quiet (w w' : deploy_world) : Prop := (∀ t, runs t w' = runs t w) ∧ launches w w'.

Lemma starts_app t l1 l2 : starts t (l1 ++ l2) = (starts t l1 + starts t l2)%nat.
Proof. unfold starts. by rewrite filter_app, length_app. Qed.
Lemma starts_none t l : t ∉ l.*2 → starts t l = 0%nat.
Proof.
  intros Ht. unfold starts. rewrite filter_all_out; [done|]. intros br Hbr <-. apply Ht, list_elem_of_fmap. by exists br.
Qed.
Lemma launches_none (w w' : deploy_world) : dw_next w ≤ dw_next w' → dw_workflows w' = dw_workflows w → launches w w'.
Proof. intros Hn Hf. split; [done|]. exists []. rewrite Hf, app_nil_r. split_and!; [done|by intros; cbn; lia|]. intros r Hr. set_solver. Qed.
#[export] Instance launches_preorder : PreOrder launches.
Proof.
  split; [by intros w; apply launches_none|].
  intros x y z [Hn1 (l1 & Hl1 & Hd1 & Hr1)] [Hn2 (l2 & Hl2 & Hd2 & Hr2)]. split; [lia|]. exists (l1 ++ l2).
  rewrite Hl2, Hl1, (assoc_L (++)), fmap_app. split_and!; [done| |].
  - intros t. rewrite starts_app. specialize (Hd1 t). specialize (Hd2 t). destruct (decide (t ∈ l1.*2)) as [H1|H1]; [|by rewrite (starts_none t l1)].
    rewrite (starts_none t l2); [lia|]. intros H2. specialize (Hr1 t H1). specialize (Hr2 t H2). lia.
  - intros r [H|H]%elem_of_app; [specialize (Hr1 r H)|specialize (Hr2 r H)]; lia.
Qed.
#[export] Instance quiet_preorder : PreOrder quiet.
Proof. split; [by intros w|]. intros x y z [Hr1 Hl1] [Hr2 Hl2]. split; [intros t; by rewrite Hr2|by etrans]. Qed.
Lemma asks_seq n t x y z : quiet x y → asks n t y z → asks n t x z.
Proof. intros [Hr1 Hl1] [Hr2 Hl2]. split; [intros t'; rewrite <-Hr1; apply Hr2|by etrans]. Qed.
Lemma asks_add n m t x y z : asks n t x y → asks m t y z → asks (n + m) t x z.
Proof. intros [Hr1 Hl1] [Hr2 Hl2]. split; [intros t'; specialize (Hr1 t'); specialize (Hr2 t'); case_decide; lia|by etrans]. Qed.
Lemma asks_seq_r n t x y z : asks n t x y → quiet y z → asks n t x z.
Proof. intros [Hr1 Hl1] [Hr2 Hl2]. split; [intros t'; rewrite Hr2; apply Hr1|by etrans]. Qed.
Lemma quiet_asks n t x y : quiet x y → asks n t x y.
Proof. intros [Hr Hl]. split; [intros t'; rewrite Hr; lia|done]. Qed.

(** A change of rows, or of the tables and logs that are not counted. *)
Lemma quiet_frame (w w' : deploy_world) : dw_calls w' = dw_calls w → dw_workflows w' = dw_workflows w → dw_next w ≤ dw_next w' → quiet w w'.
Proof.
  intros Hc Hf Hn. split; [intros t; unfold runs; by rewrite Hc|]. by apply launches_none.
Qed.
Ltac framed := apply moves_modify; intros ? _; split; [done|apply quiet_frame; [done|done|cbn; lia]].

Abbreviation quietly := (moves (E := derr) anywhere quiet anywhere).

Lemma quiet_fault : quietly (next_fault (W := deploy_world)).
Proof. apply moves_next_fault; [apply _|]. intros w fs _. split; [done|by apply quiet_frame]. Qed.
Lemma quiet_deploys f : quietly (io_modify (set_deploys f)).
Proof. framed. Qed.
Lemma quiet_tasks f : quietly (io_modify (set_tasks f)).
Proof. framed. Qed.
Lemma quiet_resources f : quietly (io_modify (set_resources f)).
Proof. framed. Qed.
Lemma quiet_notice d : quietly (io_modify (add_notice d)).
Proof. framed. Qed.
Lemma quiet_call c : (∀ q, c ≠ CRun q) → quietly (io_modify (add_call c)).
Proof.
  intros Hc. apply moves_modify. intros w _. split; [done|]. split.
  - intros t. unfold runs. cbn. rewrite filter_app, filter_cons_False, app_nil_r; [done|]. destruct c; cbn; naive_solver.
  - by apply launches_none.
Qed.
#[export] Hint Resolve quiet_fault quiet_deploys quiet_tasks quiet_resources quiet_notice quiet_call : moves.
#[export] Hint Extern 3 (∀ _, _ ≠ CRun _) => done : moves.

Lemma quiet_read {A} (f : deploy_world → A) : quietly (read f).
Proof. unfold read. moves. Qed.
Lemma quiet_row {A} (o : option A) : quietly (row o).
Proof. unfold row. moves. Qed.
#[export] Hint Resolve quiet_read quiet_row : moves.
Lemma quiet_read_row {A} (f : deploy_world → option A) : quietly (read_row f).
Proof. unfold read_row. moves. Qed.
Lemma quiet_lift {A} (o : outcome derr A) : quietly (lift o).
Proof. by intros w. Qed.
#[export] Hint Resolve quiet_read_row quiet_lift : moves.

(** ** The store, the workflow, the events and the operations are quiet *)

Ltac store := unfold GetDeployTask, GetLastTaskByType, GetDeployByID, GetDeployBySvcName, GetLatestDeployBySpaceID, GetServerlessDeployByRepID,
  GetDeployTasksOfDeploy, UpdateDeploy, UpdateDeployTask, UpdateInTx, StopDeploy, DeleteDeploy, set_owned_status, DeleteDeployNow, affect_one.

Lemma quiet_get_task id : moves (E := derr) anywhere quiet (λ td, dt_ID td.1 = id) (GetDeployTask id).
Proof.
  unfold GetDeployTask, read_row. eapply moves_bind with (P := λ o, ∀ td, o = Some td → dt_ID td.1 = id); [apply _| |].
  - unfold read. apply moves_bind_true; [apply _|apply quiet_fault|intros _]. apply moves_gets; [apply _|]. intros w _ td Htd.
    unfold found_by in Htd. destruct (list_find _ (dw_tasks w)) as [[i t]|] eqn:Hf; cbn in *; [|done]. simplify_eq. cbn.
    by apply list_find_Some in Hf as (_ & ? & _).
  - intros [td|] Htd; [|by apply moves_fail, _]. apply moves_ret; [apply _|]. by apply Htd.
Qed.
Lemma quiet_update_status cols t d : quietly (update_status cols t d).
Proof. unfold update_status. store. moves. Qed.
Lemma quiet_update_task t : quietly (UpdateDeployTask t).
Proof. store. moves. Qed.
Lemma quiet_create_deploy now d : quietly (CreateDeploy now d).
Proof.
  unfold CreateDeploy. apply moves_bind_true; [apply _|apply quiet_fault|intros _]. intros w _. unfold mbind, io_bind. cbn. split_and!; [done| |done].
  apply quiet_frame; [done|done|cbn; lia].
Qed.
Lemma quiet_create_task now id ty s m : quietly (CreateDeployTask now id ty s m).
Proof.
  unfold CreateDeployTask. apply moves_bind_true; [apply _|apply quiet_fault|intros _]. intros w _. unfold mbind, io_bind. cbn. split_and!; [done| |done].
  apply quiet_frame; [done|done|cbn; lia].
Qed.
#[export] Hint Resolve quiet_update_status quiet_update_task quiet_create_deploy quiet_create_task : moves.

(** A run task made and its workflow started, up to three times. *)
Definition same_but_flows (b : option Z) (r : Z) (k : nat) (w w' : deploy_world) : Prop :=
  dw_calls w' = dw_calls w ∧ dw_next w' = dw_next w ∧ ∃ n, (n ≤ k)%nat ∧ dw_workflows w' = dw_workflows w ++ replicate n (b, r).
Lemma start_flows b r k : ∀ w, same_but_flows b r k w (snd (StartNewDeployTaskWithCancelOld k b r w)) ∧ fst (StartNewDeployTaskWithCancelOld k b r w) = Ret tt.
Proof.
  induction k as [|k IH]; intros w; [split; [|done]; split_and!; [done..|]; exists 0%nat; by rewrite app_nil_r|].
  assert (Hretry : ∀ w1, same_but_flows b r 1 w w1 → let out := StartNewDeployTaskWithCancelOld k b r w1 in same_but_flows b r (S k) w (snd out) ∧ fst out = Ret tt).
  { intros w1 (Hc & Hn & n & Hle & Hf). destruct (IH w1) as [(Hc' & Hn' & m & Hle' & Hf') Hret]. split; [|done]. split_and!; [congruence..|].
    exists (n + m)%nat. split; [lia|]. by rewrite Hf', Hf, <-(assoc_L (++)), <-replicate_add. }
  assert (H0 : ∀ fs, same_but_flows b r 1 w (set_faults fs w)) by (intros fs; split_and!; [done..|]; exists 0%nat; split; [lia|]; by rewrite app_nil_r).
  assert (H1 : ∀ fs, same_but_flows b r 1 w (set_faults fs (add_workflow b r w))) by (intros fs; split_and!; [done..|]; by exists 1%nat).
  cbn [StartNewDeployTaskWithCancelOld]. unfold mbind, io_bind, io_try, next_fault, io_modify. destruct w as [ds ts n rs tb cs ns fl fs]. cbn.
  destruct fs as [|[e|] [|[e'|] [|[e''|] fs]]]; cbn; try (apply Hretry; first [apply (H0 _)|apply (H1 _)]).
  all: split; [|done]; split_and!; [done..|]; exists 1%nat; (split; [lia|done]).
Qed.
Lemma quiet_new_flows b k (w w' : deploy_world) : (k ≤ 3)%nat → dw_next w' = dw_next w + 1 → dw_calls w' = dw_calls w →
  (∃ n, (n ≤ k)%nat ∧ dw_workflows w' = dw_workflows w ++ replicate n (b, dw_next w)) → quiet w w'.
Proof.
  intros Hk Hn Hc (n & Hle & Hf). split; [intros t; unfold runs; by rewrite Hc|]. split; [lia|]. exists (replicate n (b, dw_next w)). split_and!; [done| |].
  - intros t. unfold starts. pose proof (length_filter (λ br : option Z * Z, br.2 = t) (replicate n (b, dw_next w))) as Hl. rewrite length_replicate in Hl. lia.
  - intros r (br & -> & [-> _]%elem_of_replicate)%list_elem_of_fmap. cbn. lia.
Qed.
Ltac launch := intros w _; unfold CreateDeployTask, io_wrap, mbind, io_bind, next_fault; destruct (get_faults w) as [|[e|] fs]; cbn -[StartNewDeployTaskWithCancelOld];
  [|split_and!; [done|by apply quiet_frame|done]|];
  match goal with |- context [StartNewDeployTaskWithCancelOld ?k ?b ?r ?w1] => destruct (start_flows b r k w1) as [(Hc & Hn & Hf) Hret];
    destruct (StartNewDeployTaskWithCancelOld k b r w1) as [o w2]; cbn in Hret, Hc, Hn, Hf |- *; subst o; cbn; split_and!; [done| |done];
    by apply (quiet_new_flows b 3) end.
Lemma quiet_launch now id ty s m b (f : derr → derr) :
  quietly (runTask ← io_wrap f (CreateDeployTask now id ty s m); StartNewDeployTaskWithCancelOld startAttempts b (dt_ID runTask)).
Proof. launch. Qed.
Lemma quiet_launch_ret {A} now id ty s m b (f : derr → derr) (a : A) :
  quietly (runTask ← io_wrap f (CreateDeployTask now id ty s m); StartNewDeployTaskWithCancelOld startAttempts b (dt_ID runTask);; mret a).
Proof. launch. Qed.
#[export] Hint Resolve quiet_launch quiet_launch_ret : moves.

Section operations.
Context (unicode_lower : Z → Z).

Lemma quiet_builder ty data : quietly (builder_ProcessEvent ty data).
Proof. unfold builder_ProcessEvent, builder_event. pose proof (λ id, moves_true _ _ _ _ (quiet_get_task id)). store. moves. Qed.
Lemma quiet_send n d : quietly (sendNotification n d).
Proof. induction n; cbn; moves. Qed.
Hint Resolve quiet_send : moves.
Lemma quiet_runner n data : quietly (service_ProcessEvent n data).
Proof. unfold service_ProcessEvent, updateDeployStatus. store. moves. Qed.
Lemma quiet_serverless dr : quietly (serverlessDeploy dr).
Proof. unfold serverlessDeploy. store. moves. Qed.
Lemma quiet_dedicated now sf dr : quietly (dedicatedDeploy unicode_lower now sf dr).
Proof. unfold dedicatedDeploy. moves. Qed.
Hint Resolve quiet_serverless quiet_dedicated : moves.
Lemma quiet_Deploy now sf dr : quietly (Deploy_ unicode_lower now sf dr).
Proof. unfold Deploy_, buildDeploy. moves. Qed.
Lemma quiet_status now i id : quietly (deployer_Status now i id).
Proof. unfold deployer_Status, CheckClusterHealthy, ByClusterID. store. moves. Qed.
Lemma quiet_Exist c s : quietly (Exist c s).
Proof. unfold Exist. moves. Qed.
Lemma quiet_Stop s : quietly (deployer_Stop s).
Proof. unfold deployer_Stop. moves. Qed.
Hint Resolve quiet_status quiet_Exist quiet_Stop : moves.
Lemma quiet_allowed req : quietly (CheckDeployPermissionForUser req).
Proof. unfold CheckDeployPermissionForUser, FindUser, IsInSameOrg. store. moves. Qed.
Hint Resolve quiet_allowed : moves.
Lemma quiet_permission req : quietly (check_permission req).
Proof. unfold check_permission, checkDeployPermissionForServerless, FindUser. store. moves. Qed.
Hint Resolve quiet_permission : moves.
Lemma quiet_DeployStop c req : quietly (DeployStop c req).
Proof. unfold DeployStop. store. moves. Qed.
Lemma quiet_DeployStart now i c a req : quietly (DeployStart now i c a req).
Proof. unfold DeployStart, StartDeploy. store. moves. Qed.
Lemma quiet_DeleteDeploy c req r : quietly (component_DeleteDeploy c req r).
Proof. unfold component_DeleteDeploy, Purge. store. moves. Qed.
Lemma quiet_stop_space id : quietly (stopSpaceDeploy id).
Proof. unfold stopSpaceDeploy, StopBuild. store. moves. Qed.
End operations.

(** ** The system *)

Section system.
Context (unicode_lower : Z → Z) (Sprintf JoinPath : bytes → bytes → bytes) (last_commit : bytes → bytes → bytes → bytes → bytes)
  (architecture : Z → bytes) (runner_answer : RunRequest → bytes) (cfg : DeployConfig).
Abbreviation DeployWorkflow := (DeployWorkflow unicode_lower Sprintf JoinPath last_commit architecture runner_answer cfg).

Lemma asks_call q : moves anywhere (asks 1 (rn_TaskId q)) anywhere (io_modify (add_call (CRun q)) : pio unit).
Proof.
  apply moves_modify. intros w _. split; [done|]. split; [|by apply launches_none].
  intros t'. unfold runs. cbn [add_call dw_calls]. rewrite filter_app, length_app, filter_cons, filter_nil.
  destruct (decide (run_of t' (CRun q))) as [Hr|Hr]; cbn in *; [|lia]. rewrite decide_True by congruence. lia.
Qed.
Lemma moves_add n m t {A B} (P : A → Prop) (Q : B → Prop) (x : pio A) (f : A → pio B) : moves anywhere (asks n t) P x →
  (∀ a, moves anywhere (asks m t) Q (f a)) → moves anywhere (asks (n + m) t) Q (x ≫= f).
Proof.
  intros Hx Hf w _. destruct (Hx w I) as (_ & H1 & _). unfold mbind, io_bind. destruct (x w) as [[a|e|] w1]; cbn in *.
  - destruct (Hf a w1 I) as (_ & H2 & HQ). split_and!; [done|by eapply asks_add|done].
  - split_and!; [done| |done]. eapply asks_add; [exact H1|apply quiet_asks; reflexivity].
  - split_and!; [done| |done]. eapply asks_add; [exact H1|apply quiet_asks; reflexivity].
Qed.
Lemma quiet_asks_moves {A} n t (P : A → Prop) (m : pio A) : moves anywhere quiet P m → moves anywhere (asks n t) P m.
Proof. intros H. eapply moves_weaken; [exact H|apply quiet_asks|done]. Qed.
Lemma asks_post n q : moves anywhere (asks n (rn_TaskId q)) anywhere (post_run n q).
Proof.
  induction n as [|n IH]; cbn [post_run]; [apply quiet_asks_moves; moves|]. change (S n) with (1 + n)%nat.
  eapply moves_add; [apply asks_call|intros _]. change n with (0 + n)%nat at 1.
  eapply moves_add with (P := anywhere); [apply quiet_asks_moves; moves|]. intros [u|e]; [apply quiet_asks_moves; moves|].
  case_decide; [apply quiet_asks_moves; moves|exact IH].
Qed.
(** One call of the client asks twice at most. *)
Lemma asks_run t d q taskId : rn_TaskId q = taskId → moves anywhere (asks 2 taskId) anywhere (ask_runner runner_answer t d q).
Proof.
  intros <-. unfold ask_runner. eapply (moves_seq _ (asks 2 _) quiet) with (P := anywhere); [apply asks_seq_r|done| |].
  - apply moves_try_true. unfold Run. change 2%nat with (0 + 2)%nat.
    eapply moves_add with (P := anywhere); [apply quiet_asks_moves; unfold GetRemoteRunnerHost; moves|intros _]. change 2%nat with (2 + 0)%nat.
    eapply moves_add; [apply asks_post|intros _]. apply quiet_asks_moves. moves.
  - intros r _. unfold handleDeployError, updateTaskStatus, updateDeployTaskStatus. moves.
Qed.

Lemma quiet_task_started id : moves (E := derr) anywhere quiet (λ td, dt_ID td.1 = id ∧ ∀ d, td.2 = Some d → True) (GetDeployTask id).
Proof. eapply moves_weaken; [apply quiet_get_task|done|]. by intros td ?. Qed.
Hint Resolve quiet_task_started : moves.
Hint Extern 1 (PreOrder _) => apply quiet_preorder : moves.

Lemma quiet_Build now taskId : quietly (Build last_commit cfg now taskId).
Proof. eapply moves_true, walk_Build with (T := λ t, dt_ID t = taskId) (D := anywhere); eauto with moves. Qed.
Lemma quiet_poll p e : quietly (pollBuildStatus cfg p e).
Proof. eapply walk_poll with (T := λ t, dt_ID t = dt_ID (ps_task p)) (D := anywhere); eauto with moves. done. Qed.
Lemma asks_DeployActivity taskId : moves anywhere (asks 2 taskId) anywhere
  (DeployActivity unicode_lower Sprintf JoinPath last_commit architecture runner_answer cfg taskId).
Proof. eapply walk_DeployActivity with (R := quiet) (T := λ t, dt_ID t = taskId) (D := anywhere); eauto using asks_seq, quiet_asks, asks_run with moves. Qed.

(** A step of a workflow asks only for its run task, and only in its run. *)
Definition flow_moves (r : Z) (s : wf_state) : deploy_world → deploy_world → Prop := match s with WRun _ => asks 2 r | _ => quiet end.
Lemma workflow_moves e now b r s : moves anywhere (flow_moves r s) anywhere (DeployWorkflow e now b r s).
Proof.
  destruct s as [n|n p|n| |]; cbn.
  - apply moves_bind_true; [apply _|eapply moves_true, moves_activity, quiet_Build|]. intros [[]|]; moves.
  - apply moves_bind_true; [apply _|eapply moves_true, moves_activity, quiet_poll|]. intros [[]|]; moves.
  - eapply (moves_seq _ (asks 2 r) quiet); [apply asks_seq_r|done|eapply moves_activity, asks_DeployActivity|]. intros [] _; moves.
  - moves.
  - moves.
Qed.

(** Everything else that may happen meanwhile. *)
Inductive operation :=
  | ODeploy (now : Z) (snowflake : bytes) (dr : DeployRepo)
  | OStart (now interval code : Z) (affordable : option derr) (req : DeployActReq)
  | OStop (code : Z) (req : DeployActReq)
  | ODelete (code : Z) (req : DeployActReq) (serverlessRepo : Z)
  | OStopSpace (spaceID : Z)
  | OBuilderEvent (ty data : bytes)
  | ORunnerEvent (retryCount : nat) (data : bytes).
Definition perform (o : operation) (w : deploy_world) : deploy_world :=
  match o with
  | ODeploy now sf dr => snd (Deploy_ unicode_lower now sf dr w)
  | OStart now i c a req => snd (DeployStart now i c a req w)
  | OStop c req => snd (DeployStop c req w)
  | ODelete c req r => snd (component_DeleteDeploy c req r w)
  | OStopSpace id => snd (stopSpaceDeploy id w)
  | OBuilderEvent ty data => snd (builder_ProcessEvent ty data w)
  | ORunnerEvent n data => snd (service_ProcessEvent n data w)
  end.
Lemma perform_quiet o w : quiet w (perform o w).
Proof.
  destruct o; cbn.
  - by destruct (quiet_Deploy unicode_lower now snowflake dr w) as (_ & ? & _).
  - by destruct (quiet_DeployStart now interval code affordable req w) as (_ & ? & _).
  - by destruct (quiet_DeployStop code req w) as (_ & ? & _).
  - by destruct (quiet_DeleteDeploy code req serverlessRepo w) as (_ & ? & _).
  - by destruct (quiet_stop_space spaceID w) as (_ & ? & _).
  - by destruct (quiet_builder ty data w) as (_ & ? & _).
  - by destruct (quiet_runner retryCount data w) as (_ & ? & _).
Qed.

(** A world with the states of the workflows started in it. *)
Definition system : Type := deploy_world * list wf_state.
Definition started (k : nat) (w : deploy_world) : list wf_state := (λ br : option Z * Z, wf_start br.1 br.2) <$> drop k (dw_workflows w).
Inductive sys_step : system → system → Prop :=
  | step_operation o w fl : sys_step (w, fl) (perform o w, fl ++ started (length fl) (perform o w))
  | step_workflow i b r s e now w fl s' w' :
      dw_workflows w !! i = Some (b, r) → fl !! i = Some s → DeployWorkflow e now b r s w = (Ret s', w') →
      sys_step (w, fl) (w', <[i := s']> fl ++ started (length fl) w')
  | step_lost i b r s e now w fl s' w' :
      dw_workflows w !! i = Some (b, r) → fl !! i = Some s → DeployWorkflow e now b r s w = (Ret s', w') →
      sys_step (w, fl) (w', <[i := lost s]> fl ++ started (length fl) w').

(** The calls of the client a workflow may have made. *)
Definition spent (s : wf_state) : nat := match s with WBuild _ | WPoll _ _ => 0 | WRun n => n - 1 | WDone | WFailed => 3 end.
Definition sound (s : wf_state) : Prop := match s with WRun n => (1 ≤ n ≤ 3)%nat | _ => True end.
(** All workflows of a task together. *)
Definition budget (t : Z) (l : list (option Z * Z)) (fl : list wf_state) : nat :=
  sum_list_with (λ bs : (option Z * Z) * wf_state, if decide (bs.1.2 = t) then spent bs.2 else 0%nat) (zip l fl).
Record sys_inv (sy : system) : Prop := {
  inv_length : length sy.2 = length (dw_workflows sy.1);
  inv_starts : ∀ t, (starts t (dw_workflows sy.1) ≤ 3)%nat;
  inv_old : ∀ r, r ∈ (dw_workflows sy.1).*2 → r < dw_next sy.1;
  inv_sound : Forall sound sy.2;
  inv_runs : ∀ t, (runs t sy.1 ≤ 2 * budget t (dw_workflows sy.1) sy.2)%nat;
}.

Lemma sound_start b r : sound (wf_start b r).
Proof. destruct b; cbn; [done|]. unfold after_build. case_decide; cbn; [done|lia]. Qed.
Lemma budget_app t l1 l2 fl1 fl2 : length l1 = length fl1 → budget t (l1 ++ l2) (fl1 ++ fl2) = (budget t l1 fl1 + budget t l2 fl2)%nat.
Proof. intros Hl. unfold budget. by rewrite zip_with_app, sum_list_with_app. Qed.
Lemma budget_insert t l : ∀ fl i b r s s', l !! i = Some (b, r) → fl !! i = Some s →
  (budget t l (<[i := s']> fl) + (if decide (r = t) then spent s else 0) = budget t l fl + if decide (r = t) then spent s' else 0)%nat.
Proof.
  unfold budget. induction l as [|[b0 r0] l IH]; intros [|s0 fl] [|i] b r s s' Hi Hs; try done; cbn in *; simplify_eq; [repeat case_decide; lia|].
  specialize (IH fl i b r s s' Hi Hs). cbn in IH. unfold insert in *. lia.
Qed.
Lemma budget_bound t l : ∀ fl, Forall sound fl → (budget t l fl ≤ 3 * starts t l)%nat.
Proof.
  unfold budget, starts. induction l as [|[b r] l IH]; intros [|s fl] Hs; cbn [zip_with sum_list_with]; [lia..|].
  apply Forall_cons in Hs as [Hs Hfl]. specialize (IH fl Hfl). rewrite filter_cons. cbn [fst snd].
  destruct (decide (r = t)); [|lia]. cbn [length]. assert (spent s ≤ 3)%nat; [destruct s; cbn in *; lia|lia].
Qed.

Lemma inv_step w w' fl fl' : sys_inv (w, fl) → launches w w' → length fl' = length fl → Forall sound fl' →
  (∀ t, (runs t w' ≤ 2 * budget t (dw_workflows w) fl')%nat) → sys_inv (w', fl' ++ started (length fl) w').
Proof.
  intros [Hlen Hst Hold _ _] (Hnext & l & Hl & Hsl & Hr) Hlen' Hsound Hruns. cbn [fst snd] in *.
  assert (started (length fl) w' = (λ br : option Z * Z, wf_start br.1 br.2) <$> l) as ->.
  { unfold started. rewrite Hl, Hlen. by rewrite drop_app_length. }
  split; cbn [fst snd]; rewrite ?Hl.
  - rewrite !length_app, length_fmap. lia.
  - intros t. rewrite starts_app. specialize (Hst t). specialize (Hsl t). destruct (decide (t ∈ l.*2)) as [Hin|Hin]; [|rewrite (starts_none t l Hin); lia].
    rewrite (starts_none t (dw_workflows w)); [lia|]. intros H. specialize (Hold t H). specialize (Hr t Hin). lia.
  - intros r. rewrite fmap_app. intros [H|H]%elem_of_app; [specialize (Hold r H)|specialize (Hr r H)]; lia.
  - apply Forall_app. split; [done|]. apply Forall_fmap, Forall_forall. intros br _. apply sound_start.
  - intros t. rewrite budget_app by lia. specialize (Hruns t). lia.
Qed.

Lemma inv_operation o w fl : sys_inv (w, fl) → sys_inv (perform o w, fl ++ started (length fl) (perform o w)).
Proof.
  intros Hinv. destruct (perform_quiet o w) as [Hcalls Hl]. apply inv_step with w; try done; [apply Hinv|].
  intros t. rewrite Hcalls. apply (inv_runs _ Hinv).
Qed.

(** What a step adds to the calls its workflow may have made. *)
Definition call_of (s : wf_state) : nat := match s with WRun _ => 1 | _ => 0 end.
Lemma spent_step r s e now b w s' w' : DeployWorkflow e now b r s w = (Ret s', w') → sound s →
  sound s' ∧ (spent s + call_of s ≤ spent s')%nat.
Proof.
  assert (Hafter : sound (after_build r)) by (unfold after_build; case_decide; cbn; [done|lia]).
  destruct s as [n|n p|n| |]; cbn; unfold mret, io_ret, mbind, io_bind, activity, retry, MaximumAttempts; intros Hrun Hs.
  - destruct (Build _ _ _ _ w) as [[[p|]|?|] ?]; simplify_eq; try case_decide; (split; [done|cbn; lia]).
  - destruct (pollBuildStatus _ _ _ w) as [[[]|?|] ?]; simplify_eq; try case_decide; (split; [done|cbn; lia]).
  - destruct (DeployActivity _ _ _ _ _ _ _ _ w) as [[[]|?|] ?]; simplify_eq; try case_decide; cbn in *; lia.
  - simplify_eq. cbn. lia.
  - simplify_eq. cbn. lia.
Qed.
Lemma spent_lost s : sound s → sound (lost s) ∧ (spent s + call_of s ≤ spent (lost s))%nat.
Proof. destruct s as [n|n p|n| |]; cbn; unfold retry, MaximumAttempts; intros Hs; try case_decide; cbn; (split; [done || lia|lia]). Qed.

(** What a step of a workflow does to the counts. *)
Lemma flow_counts r s w w' : flow_moves r s w w' → launches w w' ∧ ∀ t, (runs t w' ≤ runs t w + if decide (r = t) then 2 * call_of s else 0)%nat.
Proof. destruct s; cbn; intros [Hr Hl]; (split; [done|]); intros t; specialize (Hr t); repeat case_decide; subst; try done; lia. Qed.

Lemma inv_workflow i b r s e now w fl s0 s' w' : dw_workflows w !! i = Some (b, r) → fl !! i = Some s → DeployWorkflow e now b r s w = (Ret s0, w') →
  sound s' → (spent s + call_of s ≤ spent s')%nat → sys_inv (w, fl) → sys_inv (w', <[i := s']> fl ++ started (length fl) w').
Proof.
  intros Hi Hs Hrun Hsound Hspent Hinv. destruct (workflow_moves e now b r s w I) as (_ & Hmove & _). rewrite Hrun in Hmove. cbn [snd] in Hmove.
  destruct (flow_counts _ _ _ _ Hmove) as [Hl Hcount]. apply inv_step with w; [done|done|by rewrite length_insert| |].
  - apply Forall_insert; [apply Hinv|done].
  - intros t. pose proof (inv_runs _ Hinv t) as Hr. specialize (Hcount t). pose proof (budget_insert t _ fl i b r s s' Hi Hs) as Hb.
    cbn [fst snd] in *. case_decide; lia.
Qed.

Lemma reachable_inv sy sy' : rtc sys_step sy sy' → sys_inv sy → sys_inv sy'.
Proof.
  induction 1 as [|sy1 sy2 sy3 Hstep _ IH]; [done|]. intros Hinv. apply IH.
  destruct Hstep as [o w fl|i b r s e now w fl s' w' Hi Hs Hrun|i b r s e now w fl s' w' Hi Hs Hrun]; [by apply inv_operation|..].
  all: pose proof (proj1 (Forall_lookup _ _) (inv_sound _ Hinv) i s Hs) as Hsound.
  - destruct (spent_step _ _ _ _ _ _ _ _ Hrun Hsound). by eapply inv_workflow.
  - destruct (spent_lost s Hsound). by eapply inv_workflow.
Qed.

(** C15: From any tables without workflows on, and however workflows,
    operations, events and failures interleave, attempts whose end is lost
    included, at most three workflows are started for a run task and the runner
    is asked at most six times by each of them to run it: twice by each call of
    its client, which tries again when a request fails in transit, in each of
    the three attempts the activity has. So a run is asked for at most eighteen
    times, and never without a workflow of its own. *)
Theorem runner_asked_bounded w fl w' t :
  dw_workflows w = [] → dw_calls w = [] → rtc sys_step (w, []) (w', fl) →
  (starts t (dw_workflows w') ≤ 3 ∧ runs t w' ≤ 6 * starts t (dw_workflows w'))%nat.
Proof.
  intros Hf Hc Hreach. assert (sys_inv (w', fl)) as Hinv.
  { apply (reachable_inv _ _ Hreach). split; cbn; rewrite ?Hf; cbn; try done; [by intros; cbn; lia|set_solver|]. intros t'. unfold runs. by rewrite Hc. }
  split; [apply (inv_starts _ Hinv)|]. pose proof (inv_runs _ Hinv t) as Hr. pose proof (budget_bound t (dw_workflows w') fl (inv_sound _ Hinv)). cbn in Hr. lia.
Qed.
End system.
