(* ===== verification/DpStateSpec.v ===== *)
(** What may change the state of a deployment: a task a newer one has replaced
    may not, and a build's status only moves on. *)
From S2P Require Import Prelude GoLib GoJson Sensitive DpEnv DpTask DpFlow DpOps DpFlowSpec.
Open Scope Z_scope.

(** ** The newest row *)

Lemma newest_spec {A} (key : A → Z) l a : newest key l = Some a → a ∈ l ∧ ∀ b, b ∈ l → key b ≤ key a.
Proof.
  unfold newest. induction l as [|x l IH] using rev_ind in a |- *; [done|]. rewrite foldl_app. cbn.
  destruct (foldl _ None l) as [m|] eqn:Hm.
  - destruct (IH m eq_refl) as [Hin Hmax]. case_decide; intros [= <-]; (split; [set_solver|]); intros b [Hb| ->%list_elem_of_singleton]%elem_of_app;
      try specialize (Hmax b Hb); lia.
  - intros [= <-]. assert (l = []) as -> by (destruct l as [|z l _] using rev_ind; [done|]; rewrite foldl_app in Hm; cbn in Hm; destruct (foldl _ None l); [case_decide|]; done).
    split; [set_solver|]. intros b ->%list_elem_of_singleton. lia.
Qed.

(** ** Tasks that newer ones have replaced *)

Section superseded.
Context (taskId ty did : Z).

(** The task is of deployment [did] and type [ty], which has a newer one. *)
Record superseded (w : deploy_world) : Prop := {
  sup_task : ∀ t, t ∈ dw_tasks w → dt_ID t = taskId → dt_TaskType t = ty ∧ dt_DeployID t = did;
  sup_newer : ∃ t, t ∈ dw_tasks w ∧ taskId < dt_ID t ∧ dt_TaskType t = ty ∧ dt_DeployID t = did;
}.
Definition of_task (t : DeployTask) : Prop := dt_ID t = taskId ∧ dt_TaskType t = ty ∧ dt_DeployID t = did.
Definition of_deploy (d : Deploy) : Prop := dp_ID d = did.
Definition same_deploys (w w' : deploy_world) : Prop := dw_deploys w' = dw_deploys w.
#[local] Instance same_deploys_preorder : PreOrder same_deploys.
Proof. split; [done|]. intros x y z H1 H2. unfold same_deploys in *. congruence. Qed.

Abbreviation spares := (moves (E := derr) superseded same_deploys).

Lemma sup_frame (w w' : deploy_world) : dw_tasks w' = dw_tasks w → superseded w → superseded w'.
Proof. intros Ht [H1 H2]. split; by rewrite Ht. Qed.
Lemma spare_fault : spares anywhere (next_fault (W := deploy_world)).
Proof. apply moves_next_fault; [apply _|]. intros w fs Hw. by split; [eapply sup_frame, Hw|]. Qed.
Lemma spare_call c : spares anywhere (io_modify (add_call c)).
Proof. apply moves_modify. intros w Hw. by split; [eapply sup_frame, Hw|]. Qed.
Lemma spare_resources f : spares anywhere (io_modify (set_resources f)).
Proof. apply moves_modify. intros w Hw. by split; [eapply sup_frame, Hw|]. Qed.
Hint Resolve spare_fault spare_call spare_resources : moves.

(** Writing the task's row keeps it replaced. *)
Lemma spare_tasks t (f : DeployTask → DeployTask) : of_task t → (∀ x, of_task x → of_task (f x)) →
  spares anywhere (io_modify (set_tasks (λ l, (λ x, if decide (dt_ID x = dt_ID t) then f x else x) <$> l))).
Proof.
  intros (Hid & Hty & Hdid) Hf. apply moves_modify. intros w [Ht (n & Hn & Hlt & Hn1 & Hn2)]. split; [|done]. split; cbn.
  - intros x (y & -> & Hy)%list_elem_of_fmap. case_decide as Hy'; [|by apply Ht]. intros Hx.
    destruct (Ht y Hy) as [Hyt Hyd]; [congruence|]. destruct (Hf y) as (_ & ? & ?); [|done]. split_and!; [congruence|done|done].
  - exists n. split_and!; [|done..]. apply list_elem_of_fmap. exists n. split; [|done]. rewrite decide_False by lia. done.
Qed.
Lemma spare_task_read id : id = taskId → spares (λ td, of_task td.1 ∧ ∀ d, td.2 = Some d → of_deploy d) (GetDeployTask id).
Proof.
  intros ->. unfold GetDeployTask, read_row. eapply moves_bind with (P := λ o, ∀ td, o = Some td → of_task td.1 ∧ ∀ d, td.2 = Some d → of_deploy d); [apply _| |].
  - unfold read. apply moves_bind_true; [apply _|apply spare_fault|intros _]. apply moves_gets; [apply _|]. intros w [Ht _] [t od] Htd. cbn [fst snd].
    unfold found_by in Htd. destruct (list_find _ (dw_tasks w)) as [[i t']|] eqn:Hf; cbn in *; [|done]. injection Htd as <- <-.
    apply list_find_Some in Hf as (Hin%list_elem_of_lookup_2 & Hid & _). destruct (Ht t' Hin Hid). split; [done|]. intros d Hd.
    destruct (list_find _ (dw_deploys w)) as [[? d']|] eqn:Hf; cbn in Hd; [|done]. injection Hd as <-. apply list_find_Some in Hf as (_ & Hd & _). unfold of_deploy. congruence.
  - intros [td|] Htd; [|by apply moves_fail, _]. apply moves_ret; [apply _|]. by apply Htd.
Qed.
(** The last task of the type is another one. *)
Lemma spare_last : spares (λ t, dt_ID t ≠ taskId) (GetLastTaskByType did ty).
Proof.
  unfold GetLastTaskByType, read_row. eapply moves_bind with (P := λ o, ∀ t, o = Some t → dt_ID t ≠ taskId); [apply _| |].
  - unfold read. apply moves_bind_true; [apply _|apply spare_fault|intros _]. apply moves_gets; [apply _|].
    intros w [_ (n & Hn & Hlt & Hn1 & Hn2)] t [_ Hmax]%newest_spec. specialize (Hmax n). rewrite list_elem_of_filter in Hmax. specialize (Hmax (conj (conj Hn2 Hn1) Hn)). lia.
  - intros [t|] Ht; [|by apply moves_fail, _]. apply moves_ret; [apply _|]. by apply Ht.
Qed.

Lemma spare_update cols t d : of_task t → of_deploy d → spares anywhere (update_status cols t d).
Proof.
  intros Ht Hd. unfold update_status. rewrite Hd. destruct Ht as (Hid & Hty & Hdid) eqn:Ht'. rewrite Hty.
  eapply moves_bind; [apply _|apply moves_wrap, spare_last|]. intros lt Hlt. cbn in Hlt. rewrite decide_False by congruence.
  unfold UpdateInTx. do 4 (apply moves_bind_true; [apply _|moves|intros _]).
  apply moves_bind_true; [apply _| |intros _; by apply spare_tasks].
  apply moves_modify. intros w Hw. by split; [eapply sup_frame, Hw|].
Qed.
Lemma spare_put t : of_task t → spares anywhere (UpdateDeployTask t).
Proof. intros Ht. unfold UpdateDeployTask. apply moves_bind_true; [apply _|moves|intros _]. apply (spare_tasks t (λ _, t)); [done|]. auto. Qed.

Section activities.
Context (unicode_lower : Z → Z) (Sprintf JoinPath : bytes → bytes → bytes) (last_commit : bytes → bytes → bytes → bytes → bytes)
  (architecture : Z → bytes) (runner_answer : RunRequest → bytes) (cfg : DeployConfig).

Hint Resolve spare_update spare_put spare_task_read : moves.
Lemma of_task_id t : of_task t → dt_ID t = taskId.
Proof. by intros [? _]. Qed.
Hint Resolve of_task_id : moves.
Hint Extern 1 (PreOrder _) => apply same_deploys_preorder : moves.

Lemma spare_run t d q : of_task t → of_deploy d → spares anywhere (ask_runner runner_answer t d q).
Proof.
  intros Ht Hd. unfold ask_runner, handleDeployError, updateTaskStatus, updateDeployTaskStatus.
  assert (∀ cols s m d', of_deploy d' → spares anywhere (update_status cols (set_task s m t) d')) as Hset by (intros; by apply spare_update).
  apply moves_bind_true; [apply _|apply moves_try_true, moves_Run; [apply _|moves..]|intros r].
  destruct r; [|apply moves_bind_true; [apply _|apply moves_wrap, Hset; done|intros _; apply moves_fail, _]].
  apply Hset. by case_decide.
Qed.

(** The poll states of the task, as [Build] leaves them. *)
Definition poll_of (p : poll_state) : Prop := of_task (ps_task p) ∧ of_deploy (ps_deploy p).

Lemma spare_Build now : spares (λ o, ∀ p, o = Some p → poll_of p) (Build last_commit cfg now taskId).
Proof. eapply walk_Build with (T := of_task) (D := of_deploy); eauto with moves. Qed.
Lemma spare_poll p e : poll_of p → spares anywhere (pollBuildStatus cfg p e).
Proof. intros Hp. eapply walk_poll with (T := of_task) (D := of_deploy); eauto with moves. Qed.
Lemma spare_DeployActivity : spares anywhere (DeployActivity unicode_lower Sprintf JoinPath last_commit architecture runner_answer cfg taskId).
Proof. eapply walk_DeployActivity with (R := same_deploys) (T := of_task) (D := of_deploy); eauto using spare_run with moves. intros x y z H1 H2. by etrans. Qed.

(** Works for the replaced task. *)
Definition flow_of (b : option Z) (r : Z) (s : wf_state) : Prop :=
  match s with WBuild _ => default 0 b = taskId | WPoll _ p => poll_of p | WRun _ => r = taskId | WDone | WFailed => True end.
Lemma spare_workflow e now b r s : flow_of b r s →
  spares anywhere (DeployWorkflow unicode_lower Sprintf JoinPath last_commit architecture runner_answer cfg e now b r s).
Proof.
  destruct s as [n|n p|n| |]; cbn; intros Hs; [rewrite Hs| |rewrite Hs|moves..].
  - apply moves_bind_true; [apply _|eapply moves_true, moves_activity, spare_Build|]. intros [[]|]; moves.
  - apply moves_bind_true; [apply _|eapply moves_true, moves_activity, spare_poll, Hs|]. intros [[]|]; moves.
  - apply moves_bind_true; [apply _|eapply moves_true, moves_activity, spare_DeployActivity|]. intros []; moves.
Qed.

Lemma spare_builder_event e : be_TaskId e = taskId → spares anywhere (builder_event e).
Proof.
  intros He. unfold builder_event. eapply moves_bind; [apply _|apply moves_wrap, spare_task_read, He|]. intros [t [d|]] [(Hid & Hty & Hdid) Hd]; cbn [fst snd] in *; [|moves].
  rewrite Hty, (Hd d eq_refl). eapply moves_bind; [apply _|apply moves_wrap, spare_last|]. intros lt Hlt. cbn in Hlt. rewrite decide_True by congruence. moves.
Qed.
Lemma spare_service_event n e : se_TaskID e = taskId → spares anywhere (updateDeployStatus n e).
Proof.
  intros He. unfold updateDeployStatus. eapply moves_bind; [apply _|apply moves_wrap, spare_task_read, He|]. intros [t od] [(Hid & Hty & Hdid) _]; cbn [fst snd] in *.
  rewrite Hty, Hdid. eapply moves_bind; [apply _|apply moves_wrap, spare_last|]. intros lt Hlt. cbn in Hlt. rewrite decide_True by congruence. moves.
Qed.

(** A task that a newer one of its deployment and type has replaced changes no
    deployment any more, whatever fails: not in its workflow, whether it
    builds, polls or runs, not through an event of the builder and not through
    one of the runner; and it stays replaced. *)
Theorem superseded_task_leaves_deployments w : superseded w →
  (∀ e now b r s, flow_of b r s →
     let w' := snd (DeployWorkflow unicode_lower Sprintf JoinPath last_commit architecture runner_answer cfg e now b r s w) in
     superseded w' ∧ dw_deploys w' = dw_deploys w) ∧
  (∀ e, be_TaskId e = taskId → dw_deploys (snd (builder_event e w)) = dw_deploys w) ∧
  (∀ n e, se_TaskID e = taskId → dw_deploys (snd (updateDeployStatus n e w)) = dw_deploys w).
Proof.
  intros Hw. split_and!.
  - intros e now b r s Hs w'. by destruct (spare_workflow e now b r s Hs w Hw) as (? & ? & _).
  - intros e He. by destruct (spare_builder_event e He w Hw) as (_ & ? & _).
  - intros n e He. by destruct (spare_service_event n e He w Hw) as (_ & ? & _).
Qed.
End activities.
End superseded.

(** ** The status of a build *)

(** Tasks: pending or queued, in progress, then succeeded or failed. *)
Inductive task_edge : Z → Z → Prop :=
  | edge_running s : s ∈ [TaskStatusBuildPending; TaskStatusBuildInQueue] → task_edge s TaskStatusBuildInProgress
  | edge_succeeded s : s ∈ [TaskStatusBuildPending; TaskStatusBuildInQueue; TaskStatusBuildInProgress] → task_edge s TaskStatusBuildSucceed
  | edge_failed s : s ∈ [TaskStatusBuildPending; TaskStatusBuildInQueue; TaskStatusBuildInProgress] → task_edge s TaskStatusBuildFailed.
Inductive deploy_edge : Z → Z → Prop :=
  | edge_building : deploy_edge BuildInQueue Building
  | edge_built : deploy_edge Building BuildSuccess
  | edge_broken : deploy_edge Building BuildFailed.

(** A row keeps what identifies it; the image comes with the success. *)
Record task_moves (t t' : DeployTask) : Prop := {
  tm_row : dt_ID t' = dt_ID t ∧ dt_TaskType t' = dt_TaskType t ∧ dt_DeployID t' = dt_DeployID t ∧ dt_CreatedAt t' = dt_CreatedAt t;
  tm_status : rtc task_edge (dt_Status t) (dt_Status t');
}.
Record deploy_moves (d d' : Deploy) : Prop := {
  dm_row : d' = set_dp_Status (dp_Status d') (set_dp_ImageID (dp_ImageID d') d);
  dm_status : rtc deploy_edge (dp_Status d) (dp_Status d');
  dm_image : dp_ImageID d' = dp_ImageID d ∨ dp_Status d' = BuildSuccess ∧ dp_Status d ≠ BuildSuccess;
}.

Definition rows_move (w w' : deploy_world) : Prop :=
  Forall2 task_moves (dw_tasks w) (dw_tasks w') ∧ Forall2 deploy_moves (dw_deploys w) (dw_deploys w').
(** Ids identify rows, and statuses are those of status.go. *)
Record keyed (w : deploy_world) : Prop := {
  key_task : NoDup (dt_ID <$> dw_tasks w);
  key_deploy : NoDup (dp_ID <$> dw_deploys w);
  key_status : Forall (λ t, TaskStatusCancelled ≤ dt_Status t ≤ TaskStatusBuildInQueue) (dw_tasks w);
}.

Lemma task_moves_refl t : task_moves t t.
Proof. by split. Qed.
Lemma deploy_moves_refl d : deploy_moves d d.
Proof. split; [by destruct d|done|by left]. Qed.
Lemma from_success s : rtc deploy_edge BuildSuccess s → s = BuildSuccess.
Proof. intros H. inversion H as [|? y ? Hy]; [done|]. inversion Hy. Qed.
#[export] Instance rows_move_preorder : PreOrder rows_move.
Proof.
  split.
  - intros w. split; (eapply Forall_Forall2_diag, Forall_true); auto using task_moves_refl, deploy_moves_refl.
  - intros x y z [Ht1 Hd1] [Ht2 Hd2]. split.
    + eapply Forall2_trans; [|done..]. intros a b c [(? & ? & ? & ?) ?] [(? & ? & ? & ?) ?]. split; [split_and!; congruence|by etrans].
    + eapply Forall2_trans; [|done..]. intros a b c [Hr1 Hs1 Hi1] [Hr2 Hs2 Hi2]. split; [|by etrans|].
      * rewrite Hr2, Hr1. by destruct a.
      * destruct Hi1 as [Hi1|[Hi1 ?]]; [destruct Hi2 as [Hi2|[Hi2 Hne]]; [left; congruence|right; split; [done|]]|].
        -- intros Ha. rewrite Ha in Hs1. apply from_success in Hs1. congruence.
        -- right. rewrite Hi1 in Hs2. apply from_success in Hs2. done.
Qed.

(** *** One event *)

Lemma transition_cases st m p d s msg d' : build_transition st m p d = Some (s, msg, d') →
  s = TaskStatusBuildInProgress ∧ dp_Status d = BuildInQueue ∧ d' = set_dp_Status Building d ∨
  s = TaskStatusBuildSucceed ∧ dp_Status d = Building ∧ d' = set_dp_Status BuildSuccess (set_dp_ImageID p d) ∨
  s = TaskStatusBuildFailed ∧ dp_Status d = Building ∧ d' = set_dp_Status BuildFailed d.
Proof. unfold build_transition. intros Htr. repeat case_decide; simplify_eq; auto. Qed.

Section event.
Context (ts : list DeployTask) (ds : list Deploy).
Definition at_rows (w : deploy_world) : Prop := dw_tasks w = ts ∧ dw_deploys w = ds.
Abbreviation looks := (moves (E := derr) at_rows (λ _ _, True)).

#[local] Instance trivial_preorder : PreOrder (λ _ _ : deploy_world, True).
Proof. by split. Qed.
Lemma look_fault : looks anywhere (next_fault (W := deploy_world)).
Proof. by apply moves_next_fault; [apply _|]. Qed.
Lemma look_task id : looks (λ td, td.1 ∈ ts ∧ dt_ID td.1 = id ∧ ∀ d, td.2 = Some d → d ∈ ds ∧ dp_ID d = dt_DeployID td.1) (GetDeployTask id).
Proof.
  unfold GetDeployTask, read_row, read.
  eapply moves_bind with (P := λ o, ∀ td, o = Some td → td.1 ∈ ts ∧ dt_ID td.1 = id ∧ ∀ d, td.2 = Some d → d ∈ ds ∧ dp_ID d = dt_DeployID td.1); [apply _| |].
  - apply moves_bind_true; [apply _|apply look_fault|intros _]. apply moves_gets; [apply _|]. intros w [Hts Hds] [t od] Htd. unfold found_by in Htd.
    destruct (list_find _ (dw_tasks w)) as [[i t']|] eqn:Hf; cbn in *; [|done]. injection Htd as <- <-.
    apply list_find_Some in Hf as (Hin%list_elem_of_lookup_2 & Hid & _). rewrite Hts in Hin. split_and!; [done|done|]. intros d Hd.
    destruct (list_find _ (dw_deploys w)) as [[? d']|] eqn:Hf; cbn in Hd; [|done]. injection Hd as <-.
    apply list_find_Some in Hf as (Hin'%list_elem_of_lookup_2 & Hd & _). by rewrite Hds in Hin'.
  - intros [td|] Htd; [|by apply moves_fail, _]. apply moves_ret; [apply _|]. by apply Htd.
Qed.
Lemma look_last id ty : looks anywhere (GetLastTaskByType id ty).
Proof. unfold GetLastTaskByType, read_row, read, row. pose proof look_fault. moves. Qed.

Definition moved (w : deploy_world) : Prop := Forall2 task_moves ts (dw_tasks w) ∧ Forall2 deploy_moves ds (dw_deploys w).
Lemma moved_none w : at_rows w → moved w.
Proof. intros [Ht Hd]. unfold moved. rewrite Ht, Hd. split; (eapply Forall_Forall2_diag, Forall_true); auto using task_moves_refl, deploy_moves_refl. Qed.

Lemma recorded_moves t d s msg d' w : NoDup (dt_ID <$> ts) → NoDup (dp_ID <$> ds) → t ∈ ts → d ∈ ds →
  task_moves t (set_task s msg t) → deploy_moves d d' → dp_ID d' = dp_ID d → at_rows w →
  moved (snd (UpdateInTx col_status_image (Some d') (set_task s msg t) w)).
Proof.
  intros Hnt Hnd Ht Hd Htm Hdm Hid Hw. unfold UpdateInTx. pose proof look_fault as Hl.
  eapply moves_end; [apply Hl|done|apply moved_none|]. intros _ w1 H1 _. eapply moves_end; [apply moves_wrap, Hl|done|apply moved_none|]. intros _ w2 H2 _.
  eapply moves_end; [apply moves_wrap, Hl|done|apply moved_none|]. intros _ w3 H3 _. eapply moves_end; [apply Hl|done|apply moved_none|]. intros _ w4 [Ht4 Hd4] _.
  unfold mbind, io_bind. cbn. split; cbn; rewrite ?Ht4, ?Hd4; apply Forall2_fmap_r, Forall_Forall2_diag, Forall_forall; intros x Hx; cbn.
  - case_decide as Hxid; [|apply task_moves_refl]. by rewrite (keyed_eq dt_ID _ x t Hnt Hx Ht Hxid).
  - case_decide as Hxid; [|apply deploy_moves_refl]. rewrite Hid in Hxid. rewrite (keyed_eq dp_ID _ x d Hnd Hx Hd Hxid).
    unfold col_status_image. destruct Hdm as [Hrow Hst Him]. rewrite Hrow. by split.
Qed.

Lemma event_task s ts0 d d' msg : TaskStatusCancelled ≤ dt_Status ts0 ≤ TaskStatusBuildInQueue →
  dt_Status ts0 ≠ TaskStatusCancelled → dt_Status ts0 ≠ TaskStatusBuildFailed → dt_Status ts0 = TaskStatusBuildInQueue ∨ dt_Status ts0 < s →
  (∃ st m p, build_transition st m p d = Some (s, msg, d')) → task_moves ts0 (set_task s msg ts0) ∧ deploy_moves d d' ∧ dp_ID d' = dp_ID d.
Proof.
  intros Hrange Hc Hf Hlt (st & m & p & Htr).
  assert (dt_Status ts0 = 0 ∨ dt_Status ts0 = 1 ∨ dt_Status ts0 = 5 ∨ dt_Status ts0 = 3 ∨ dt_Status ts0 = 4) as Hcases
    by (unfold TaskStatusCancelled, TaskStatusBuildInQueue, TaskStatusBuildFailed in *; lia).
  destruct (transition_cases _ _ _ _ _ _ _ Htr) as [(-> & Hd & ->)|[(-> & Hd & ->)|(-> & Hd & ->)]].
  all: split_and!; [split; [done|cbn; apply rtc_once]|split; [by destruct d|cbn; rewrite Hd; apply rtc_once; constructor|]|done].
  all: unfold TaskStatusBuildInQueue, TaskStatusBuildInProgress, TaskStatusBuildSucceed, TaskStatusBuildFailed in *.
  all: try (by left).
  all: try (constructor; destruct Hcases as [Hx|[Hx|[Hx|[Hx|Hx]]]]; rewrite Hx in *; try lia; set_solver).
  right. split; [done|by rewrite Hd].
Qed.
End event.

Lemma event_rows e w : keyed w → rows_move w (snd (builder_event e w)).
Proof.
  intros [Hnt Hnd Hst]. set (ts := dw_tasks w). set (ds := dw_deploys w). assert (at_rows ts ds w) as Hw by done.
  change (moved ts ds (snd (builder_event e w))). unfold builder_event.
  eapply moves_end; [apply moves_wrap, look_task|done|apply moved_none|]. intros [t od] w1 H1 (Ht & Hid & Hod); cbn [fst snd] in *.
  destruct od as [d|]; [|by apply moved_none]. destruct (Hod d eq_refl) as [Hd Hdid].
  eapply moves_end; [apply moves_wrap, look_last|done|apply moved_none|]. intros lt w2 H2 _.
  case_decide; [by apply moved_none|]. destruct (build_transition _ _ _ d) as [[[s msg] d']|] eqn:Htr; [|by apply moved_none].
  do 2 (case_decide; [by apply moved_none|]). pose proof (proj1 (Forall_forall _ _) Hst t Ht) as Hrange.
  destruct (event_task s t d d' msg Hrange) as (? & ? & ?); [tauto|tauto| |by eauto|by apply recorded_moves with d].
  destruct (decide (dt_Status t = TaskStatusBuildInQueue)); [by left|right; lia].
Qed.

Lemma edge_range s s' : rtc task_edge s s' → TaskStatusCancelled ≤ s ≤ TaskStatusBuildInQueue → TaskStatusCancelled ≤ s' ≤ TaskStatusBuildInQueue.
Proof.
  unfold TaskStatusCancelled, TaskStatusBuildInQueue. induction 1 as [s|s s1 s2 He Hrtc IH]; [done|]. intros Hs. apply IH. clear -He Hs. revert Hs.
  destruct He; unfold TaskStatusBuildInProgress, TaskStatusBuildSucceed, TaskStatusBuildFailed; lia.
Qed.
Lemma keyed_move w w' : rows_move w w' → keyed w → keyed w'.
Proof.
  intros [Hts Hds] [Hnt Hnd Hst]. split.
  - replace (dt_ID <$> dw_tasks w') with (dt_ID <$> dw_tasks w); [done|]. apply list_eq_Forall2, Forall2_fmap. eapply Forall2_impl; [exact Hts|].
    by intros t t' [(? & _) _].
  - replace (dp_ID <$> dw_deploys w') with (dp_ID <$> dw_deploys w); [done|]. apply list_eq_Forall2, Forall2_fmap. eapply Forall2_impl; [exact Hds|].
    intros d d' [-> _ _]. done.
  - apply Forall_forall. intros t' Ht'. apply list_elem_of_lookup_1 in Ht' as [i Hi]. destruct (Forall2_lookup_r _ _ _ _ _ Hts Hi) as (t & Hi0 & [_ Hrtc]).
    by eapply edge_range, (proj1 (Forall_forall _ _) Hst t (list_elem_of_lookup_2 _ _ _ Hi0)).
Qed.
Lemma task_final s s' : rtc task_edge s s' → s ∈ [TaskStatusCancelled; TaskStatusBuildFailed; TaskStatusBuildSucceed; TaskStatusBuildSkip] → s' = s.
Proof.
  intros H Hs. inversion H as [|? y ? Hy]; [done|]. exfalso.
  destruct Hy as [? Hx|? Hx|? Hx]; repeat (apply elem_of_cons in Hs as [Hs|Hs]; [subst; vm_compute in Hx; set_solver|]); set_solver.
Qed.
Lemma deploy_final s s' : rtc deploy_edge s s' → s ∉ [BuildInQueue; Building] → s' = s.
Proof. intros H Hs. inversion H as [|? y ? Hy]; [done|]. exfalso. apply Hs. destruct Hy; set_solver. Qed.

(** C16: Whatever events of the builder arrive, in whatever order and with whatever
    failures, each row of a task only moves along pending or queued, in
    progress, succeeded or failed, and each deployment along queued, building,
    built or broken: a task that has been cancelled, has failed, has succeeded
    or was skipped keeps its status, as does a deployment that is neither
    queued nor building, and an image changes only with a success. *)
Theorem build_events_move_on es w : keyed w →
  let w' := foldl (λ w e, snd (builder_event e w)) w es in
  rows_move w w' ∧
  (∀ i t t', dw_tasks w !! i = Some t → dw_tasks w' !! i = Some t' →
     dt_Status t ∈ [TaskStatusCancelled; TaskStatusBuildFailed; TaskStatusBuildSucceed; TaskStatusBuildSkip] → dt_Status t' = dt_Status t) ∧
  (∀ i d d', dw_deploys w !! i = Some d → dw_deploys w' !! i = Some d' →
     dp_Status d ∉ [BuildInQueue; Building] → dp_Status d' = dp_Status d).
Proof.
  intros Hk w'. assert (rows_move w w') as Hmove.
  { clear -Hk. unfold w'. clear w'. revert w Hk. induction es as [|e es IH]; intros w Hk; cbn; [done|].
    pose proof (event_rows e w Hk) as Hm. etrans; [exact Hm|]. apply IH. by eapply keyed_move. }
  split; [done|]. destruct Hmove as [Hts Hds]. split.
  - intros i t t' Hi Hi' Hst. destruct (Forall2_lookup_lr _ _ _ _ _ _ Hts Hi Hi') as [_ Hrtc]. by apply task_final in Hrtc.
  - intros i d d' Hi Hi' Hst. destruct (Forall2_lookup_lr _ _ _ _ _ _ Hds Hi Hi') as [_ Hrtc _]. by apply deploy_final in Hrtc.
Qed.
