(* ===== verification/DpSettleSpec.v ===== *)
(** A deployment's workflow comes to rest: past the deadlines, nine steps are
    enough whatever fails. *)
From S2P Require Import Prelude GoLib GoJson Sensitive DpEnv DpTask DpFlow DpOps DpFlowSpec.
Open Scope Z_scope.

Section settle.
Context (unicode_lower : Z → Z) (Sprintf JoinPath : bytes → bytes → bytes) (last_commit : bytes → bytes → bytes → bytes → bytes)
  (architecture : Z → bytes) (runner_answer : RunRequest → bytes) (cfg : DeployConfig) (now : Z).
Abbreviation DeployWorkflow := (DeployWorkflow unicode_lower Sprintf JoinPath last_commit architecture runner_answer cfg).

(** Past every deadline a task may have. *)
Definition late_task (t : DeployTask) : Prop :=
  ∀ m, m ∈ [dc_BuildTimeoutInMin cfg; dc_SpaceDeployTimeoutInMin cfg; dc_ModelDeployTimeoutInMin cfg] → dt_CreatedAt t + m * Minute < now.
Definition late (w : deploy_world) : Prop := ∀ t, t ∈ dw_tasks w → late_task t.

Definition any_world (_ _ : deploy_world) : Prop := True.
#[local] Instance any_preorder : PreOrder any_world.
Proof. by split. Qed.
Abbreviation stays := (moves (E := derr) late any_world).
Ltac stay := apply moves_modify; intros w Hw; split; [|done].

Lemma late_fault : stays anywhere (next_fault (W := deploy_world)).
Proof. by apply moves_next_fault; [apply _|]. Qed.
Lemma late_call c : stays anywhere (io_modify (add_call c)).
Proof. by stay. Qed.
Lemma late_resources f : stays anywhere (io_modify (set_resources f)).
Proof. by stay. Qed.
Lemma late_deploys f : stays anywhere (io_modify (set_deploys f)).
Proof. by stay. Qed.
Hint Resolve late_fault late_call late_resources late_deploys : moves.
Lemma late_tasks (f : DeployTask → DeployTask) : (∀ t, late_task t → late_task (f t)) → stays anywhere (io_modify (set_tasks (fmap f))).
Proof. intros Hf. stay. intros t (y & -> & Hy)%list_elem_of_fmap. apply Hf, Hw, Hy. Qed.
Lemma late_update cols t d : stays anywhere (update_status cols t d).
Proof.
  unfold update_status, GetLastTaskByType, read_row, read, row, UpdateInTx. repeat (apply moves_bind_true; [apply _|try solve [moves]|intros]).
  apply late_tasks. intros x Hx. by case_decide.
Qed.
Lemma late_put t : late_task t → stays anywhere (UpdateDeployTask t).
Proof. intros Ht. unfold UpdateDeployTask. apply moves_bind_true; [apply _|moves|intros _]. apply late_tasks. intros x Hx. by case_decide. Qed.
Lemma late_read id : stays (λ td, (dt_ID td.1 = id ∧ late_task td.1) ∧ ∀ d, td.2 = Some d → True) (GetDeployTask id).
Proof.
  unfold GetDeployTask, read_row. eapply moves_bind with (P := λ o, ∀ td, o = Some td → dt_ID td.1 = id ∧ late_task td.1); [apply _| |].
  - unfold read. apply moves_bind_true; [apply _|apply late_fault|intros _]. apply moves_gets; [apply _|]. intros w Hw [t od] Htd. unfold found_by in Htd.
    destruct (list_find _ (dw_tasks w)) as [[i t']|] eqn:Hf; cbn in *; [|done]. injection Htd as <- <-.
    apply list_find_Some in Hf as (Hin%list_elem_of_lookup_2 & Hid & _). auto.
  - intros [td|] Htd; [|by apply moves_fail, _]. apply moves_ret; [apply _|]. split; [by apply Htd|done].
Qed.
Lemma late_run t d q : stays anywhere (ask_runner runner_answer t d q).
Proof.
  unfold ask_runner, handleDeployError, updateTaskStatus, updateDeployTaskStatus. pose proof late_update.
  apply moves_bind_true; [apply _|apply moves_try_true, moves_Run; [apply _|moves..]|intros r]. moves.
Qed.

Definition working (taskId : Z) (t : DeployTask) : Prop := dt_ID t = taskId ∧ late_task t.
Lemma working_id taskId t : working taskId t → dt_ID t = taskId.
Proof. by intros []. Qed.
Hint Resolve late_update late_put late_read late_run working_id : moves.
Hint Extern 1 (PreOrder _) => apply any_preorder : moves.
Hint Extern 1 (late_task _) => (match goal with H : working _ _ |- _ => apply H end) : moves.

Lemma late_put' taskId t : working taskId t → stays anywhere (UpdateDeployTask t).
Proof. intros []. by apply late_put. Qed.
Hint Resolve late_put' : moves.
Lemma late_Build taskId : stays (λ o, ∀ p, o = Some p → working taskId (ps_task p)) (Build last_commit cfg now taskId).
Proof.
  eapply moves_weaken; [eapply walk_Build with (T := working taskId) (D := anywhere); eauto with moves|done|].
  intros o Ho p Hp. by destruct (Ho p Hp).
Qed.
Lemma late_check p : working (dt_ID (ps_task p)) (ps_task p) → stays anywhere (checkBuildStatus cfg now p).
Proof. intros Hp. eapply walk_check with (T := working (dt_ID (ps_task p))) (D := anywhere); eauto with moves. done. Qed.
Lemma late_DeployActivity taskId : stays anywhere (DeployActivity unicode_lower Sprintf JoinPath last_commit architecture runner_answer cfg taskId).
Proof. eapply walk_DeployActivity with (R := any_world) (T := working taskId) (D := anywhere); eauto with moves. Qed.

(** ** The builder is asked once *)

Definition asked (id : Z) (w : deploy_world) : Prop := ∀ t, t ∈ dw_tasks w → dt_ID t = id → dt_Status t ≠ TaskStatusBuildPending.

Lemma recorded_status cols t d w u w' x : update_status cols t d w = (Ret u, w') → x ∈ dw_tasks w' → dt_ID x = dt_ID t → dt_Status x = dt_Status t.
Proof.
  unfold update_status. intros H. apply bind_ret in H as (lt & w1 & _ & H). unfold UpdateInTx in H. do 5 (apply bind_ret in H as (? & ? & _ & H)).
  injection H as _ <-. cbn. intros (y & -> & Hy)%list_elem_of_fmap. by case_decide.
Qed.
Lemma asked_once p w w' : ask_builder p w = (Ret true, w') → asked (dt_ID (ps_task p)) w'.
Proof.
  unfold ask_builder. intros H. apply bind_ret in H as (? & w1 & _ & H). apply bind_ret in H as (r & w2 & _ & H). destruct r.
  - apply bind_ret in H as ([] & w3 & H & [= <-]). apply wrap_ret in H. intros t Ht Hid. by rewrite (recorded_status _ _ _ _ _ _ t H Ht Hid).
  - apply bind_ret in H as (? & ? & _ & H). done.
Qed.

(** Past the deadlines a look at the task goes on only by asking. *)
Lemma late_timed_out t d w b w' : late_task t → isTaskTimedOut cfg now t d w = (Ret b, w') → b = true.
Proof.
  intros Ht H. unfold isTaskTimedOut in H. apply bind_ret in H as (m & w1 & Hm & H). injection H as <- _. apply bool_decide_eq_true_2.
  apply Ht. repeat case_decide; [|destruct d as [d|]; [case_decide|]]; (injection Hm as <- _; set_solver) || done.
Qed.
Lemma late_go_on p w w' : late w → checkBuildStatus cfg now p w = (Ret true, w') → ¬ asked (dt_ID (ps_task p)) w ∧ asked (dt_ID (ps_task p)) w'.
Proof.
  intros Hw H. unfold checkBuildStatus in H. apply bind_ret in H as ([t od] & w1 & Ht & H). apply wrap_ret in Ht.
  assert (t ∈ dw_tasks w ∧ dt_ID t = dt_ID (ps_task p)) as [Hin Hid].
  { unfold GetDeployTask, read_row, read in Ht. apply bind_ret in Ht as (o & w2 & Ho & Ht). apply bind_ret in Ho as (? & w3 & Hf & [= <- <-]).
    assert (dw_tasks w3 = dw_tasks w) as Hrows by (unfold next_fault in Hf; destruct (get_faults w) as [|[]]; simplify_eq; done). rewrite <-Hrows. clear Hf Hrows.
    unfold found_by, row in Ht. destruct (list_find _ (dw_tasks w3)) as [[i t']|] eqn:Hfind; [|done]. injection Ht as <- _ _.
    apply list_find_Some in Hfind as (?%list_elem_of_lookup_2 & ? & _). done. }
  case_decide as Hst.
  - split; [|by eapply asked_once]. intros Ha. by apply (Ha t).
  - case_decide; [done|]. case_decide; [injection H as ?; done|]. apply bind_ret in H as (b & w2 & Hb & H).
    rewrite (late_timed_out _ _ _ _ _ (Hw t Hin) Hb) in H. apply bind_ret in H as ([] & ? & _ & H). apply bind_ret in H as (? & ? & _ & [= ]).
Qed.

Lemma still_late {A} (P : A → Prop) (m : pio A) w o w' : stays P m → late w → m w = (o, w') → late w'.
Proof. intros Hm Hw Hrun. destruct (Hm w Hw) as (? & _ & _). by rewrite Hrun in *. Qed.
Lemma Build_asks taskId p w w' : late w → Build last_commit cfg now taskId w = (Ret (Some p), w') → asked (dt_ID (ps_task p)) w'.
Proof.
  intros Hw H. unfold Build in H. apply bind_ret in H as ([t od] & w1 & Ht & H). apply wrap_ret in Ht.
  apply (still_late _ _ _ _ _ (late_read taskId) Hw) in Ht as Hw1.
  case_decide; [done|]. apply bind_ret in H as ([t' d] & w2 & Htd & H).
  assert (w2 = w1) as -> by (unfold deploy_of in Htd; destruct od; [by injection Htd|done]).
  apply bind_ret in H as (r & w3 & Hr & H). assert (late w3) as Hw3 by (eapply still_late; [eapply moves_try, walk_repository; eauto with moves|exact Hw1|exact Hr]).
  destruct r as [repo|err]; [|apply bind_ret in H as (? & ? & _ & H); done].
  apply bind_ret in H as (q & w4 & Hq & H). assert (late w4) as Hw4 by (eapply still_late; [apply moves_wrap; eapply walk_build_request; eauto with moves|exact Hw3|exact Hq]).
  apply bind_ret in H as ([] & w5 & Hgo & [= <- <-]). by destruct (late_go_on _ _ _ Hw4 Hgo).
Qed.

(** ** Steps left *)

Fixpoint drive (n : nat) (b : option Z) (r : Z) (s : wf_state) (w : deploy_world) : wf_state * deploy_world :=
  match n with
  | O => (s, w)
  | S n => match DeployWorkflow (StatusTick now) now b r s w with (Ret s', w') => drive n b r s' w' | (_, w') => (s, w') end
  end.
Definition left_over (s : wf_state) : nat :=
  match s with WBuild n => 3 + 2 * (3 - n) + 2 | WPoll n _ => 3 + 2 * (3 - n) + 1 | WRun n => S (3 - n) | WDone | WFailed => 0 end.
Definition in_order (s : wf_state) (w : deploy_world) : Prop :=
  late w ∧ match s with
           | WPoll n p => (n ≤ 3)%nat ∧ working (dt_ID (ps_task p)) (ps_task p) ∧ asked (dt_ID (ps_task p)) w
           | WBuild n | WRun n => (n ≤ 3)%nat
           | _ => True
           end.
Definition at_rest (s : wf_state) : Prop := s = WDone ∨ s = WFailed.

Lemma left_after_build r : (left_over (after_build r) ≤ 3)%nat.
Proof. unfold after_build. case_decide; cbn; lia. Qed.
Lemma order_after_build r w : late w → in_order (after_build r) w.
Proof. intros Hw. unfold after_build. case_decide; split; try done. lia. Qed.

(** An attempt that failed. *)
Lemma retried n w : (n ≤ 3)%nat → late w → in_order (retry n WBuild) w ∧ (left_over (retry n WBuild) < 3 + 2 * (3 - n) + 2)%nat.
Proof. intros Hn Hw. unfold retry, MaximumAttempts. case_decide; (split; [split; [done|try lia; done]|cbn; lia]). Qed.
Lemma retried_poll n w : (n ≤ 3)%nat → late w → in_order (retry n WBuild) w ∧ (left_over (retry n WBuild) < 3 + 2 * (3 - n) + 1)%nat.
Proof. intros Hn Hw. unfold retry, MaximumAttempts. case_decide; (split; [split; [done|try lia; done]|cbn; lia]). Qed.
Lemma retried_run n w : (n ≤ 3)%nat → late w → in_order (retry n WRun) w ∧ (left_over (retry n WRun) < S (3 - n))%nat.
Proof. intros Hn Hw. unfold retry, MaximumAttempts. case_decide; (split; [split; [done|try lia; done]|cbn; lia]). Qed.

Lemma step_left b r s w : in_order s w → at_rest s ∨
  ∃ s' w', DeployWorkflow (StatusTick now) now b r s w = (Ret s', w') ∧ in_order s' w' ∧ (left_over s' < left_over s)%nat.
Proof.
  intros [Hw Hs]. destruct s as [n|n p|n| |]; [right..|by left; left|by left; right].
  - destruct (late_Build (default 0 b) w Hw) as (HI & _ & HP). cbn. unfold mbind, io_bind, mret, io_ret, activity.
    destruct (Build _ _ _ _ w) as [[[p|]|e|] w'] eqn:Hrun; cbn in *; eexists _, _; (split; [done|]); [|split; [by apply order_after_build|pose proof (left_after_build r); lia]|by apply retried..].
    split; [split; [done|]|cbn; lia]. destruct (HP _ eq_refl p eq_refl) as [Hid Hl]. split_and!; [done|by split|by eapply (Build_asks _ p w)].
  - destruct Hs as (Hn & Hp & Ha). destruct (late_check p Hp w Hw) as (HI & _ & _). cbn. unfold mbind, io_bind, mret, io_ret, activity.
    destruct (checkBuildStatus cfg now p w) as [[[]|e|] w'] eqn:Hrun; cbn in *; eexists _, _; (split; [done|]); [|split; [by apply order_after_build|pose proof (left_after_build r); lia]|by apply retried_poll..].
    by destruct (late_go_on _ _ _ Hw Hrun) as [[] _].
  - destruct (late_DeployActivity r w Hw) as (HI & _ & _). cbn. unfold mbind, io_bind, mret, io_ret, activity.
    destruct (DeployActivity _ _ _ _ _ _ _ _ w) as [[[]|e|] w'] eqn:Hrun; cbn in *; eexists _, _; (split; [done|]); [split; [by split|cbn; lia]|by apply retried_run..].
Qed.

Lemma drive_settles k b r : ∀ s w, in_order s w → (left_over s ≤ k)%nat → at_rest (drive k b r s w).1.
Proof.
  induction k as [|k IH]; intros s w Hs Hk; cbn.
  - destruct s; cbn in *; try lia; [by left|by right].
  - destruct (step_left b r s w Hs) as [Hrest|(s' & w' & Hrun & Hs' & Hlt)].
    + destruct Hrest as [-> | ->]; cbn; apply IH; try done; try (cbn; lia); by split; [apply Hs|].
    + rewrite Hrun. apply IH; [done|lia].
Qed.

(** C17: Once every deadline has passed, a workflow takes at most nine steps to
    come to rest, whatever fails: three attempts at the build with one look at
    its task each, and three at the run. *)
Theorem workflow_settles b r w : late w → at_rest (drive 9 b r (wf_start b r) w).1.
Proof.
  intros Hw. apply drive_settles.
  - destruct b; cbn; [split; [done|lia]|by apply order_after_build].
  - destruct b; cbn; [lia|]. pose proof (left_after_build r). lia.
Qed.
End settle.
