(* ===== verification/DpEnvSpec.v ===== *)
(** What a deployment is given to run with: its service's name names it, its
    environment cannot replace the platform's, and the list of its nodes
    doubles. *)
From S2P Require Import Prelude GoLib GoJson Sensitive DpEnv DpTask DpFlow.
Open Scope Z_scope.

(** ** Names *)

Lemma digit_char z : 0 ≤ z < 36 → digit_value (byte_Z (nth (Z.to_nat z) alphabet "0"%char)) = z.
Proof.
  intros Hz. rewrite <-(Z2Nat.id z) by lia. set (n := Z.to_nat z). assert (n < 36)%nat as Hn by lia. clearbody n. rewrite Nat2Z.id.
  do 36 (destruct n as [|n]; [vm_compute; reflexivity|]). lia.
Qed.
Lemma digit_in_alphabet z : 0 ≤ z < 36 → nth (Z.to_nat z) alphabet "0"%char ∈ alphabet.
Proof. intros Hz. apply list_elem_of_In, nth_In. change (length alphabet) with 36%nat. lia. Qed.
Lemma digits_in_alphabet fuel num : Forall (λ c, c ∈ alphabet) (encode_digits fuel num).
Proof.
  induction fuel as [|fuel IH] in num |- *; cbn; [constructor|]. case_decide; [|constructor]. constructor; [|apply IH].
  apply digit_in_alphabet. apply Z.mod_pos_bound. lia.
Qed.
Lemma alphabet_plain s : Forall (λ c, c ∈ alphabet) s → plain s.
Proof.
  intros Hs. assert (plain alphabet) as Ha by (apply (bool_decide_eq_true_1 (plain alphabet)); vm_compute; reflexivity).
  eapply Forall_impl; [exact Hs|]. intros c Hc. exact (proj1 (Forall_forall _ _) Ha c Hc).
Qed.

Definition step_digit (num : Z) (c : ascii) : Z := i64 (i64 (num * 36) + digit_value (byte_Z c)).
Lemma decode_digits fuel num : 0 ≤ num < 2 ^ 63 → num < 36 ^ Z.of_nat fuel → foldl step_digit 0 (reverse (encode_digits fuel num)) = num.
Proof.
  revert num. induction fuel as [|fuel IH]; intros num Hnum Hf.
  - cbn in *. lia.
  - cbn [encode_digits]. case_decide as Hpos; [|cbn; lia]. rewrite reverse_cons, foldl_app. cbn [foldl].
    pose proof (Z.div_mod num 36 ltac:(lia)). pose proof (Z.div_pos num 36 ltac:(lia) ltac:(lia)). pose proof (Z.mod_pos_bound num 36 ltac:(lia)).
    rewrite IH.
    + unfold step_digit. rewrite digit_char by lia. assert (num / 36 * 36 + num `mod` 36 = num) as Heq by lia.
      change (2 ^ 63) with 9223372036854775808 in *. rewrite (i64_small (num / 36 * 36)) by lia. rewrite Heq. apply i64_small. lia.
    + split; [apply Z.div_pos; lia|]. apply Z.div_lt_upper_bound; [lia|]. change (2 ^ 63) with 9223372036854775808 in *. lia.
    + apply Z.div_lt_upper_bound; [lia|]. rewrite <-Z.pow_succ_r, <-Nat2Z.inj_succ by lia. done.
Qed.
Lemma stringToNumber_plain s : plain s → stringToNumber s = foldl step_digit 0 s.
Proof. intros Hs. unfold stringToNumber. rewrite runes_plain by done. generalize 0. induction s as [|c s IH]; intros z; [done|]. cbn. apply IH. by inversion Hs. Qed.

(** The number of a name is read back. *)
Lemma number_roundtrip num : 0 ≤ num < 2 ^ 63 → stringToNumber (numberToString num) = num.
Proof.
  intros Hnum. unfold numberToString. rewrite stringToNumber_plain; [apply decode_digits; [done|]|].
  - change (36 ^ Z.of_nat 13) with 170581728179578208256. lia.
  - apply alphabet_plain, Forall_reverse, digits_in_alphabet.
Qed.

Lemma Join_byte c d n s : (length s ≤ n)%nat → Join (Split_fuel n s [c]) [d] = (λ x, if decide (x = c) then d else x) <$> s.
Proof.
  revert s. induction n as [|n IH]; intros s Hn; cbn [Split_fuel].
  - by destruct s; [|cbn in Hn; lia].
  - assert (∀ l : bytes, c ∉ l → (λ x, if decide (x = c) then d else x) <$> l = l) as Hskip.
    { intros l Hl. induction l as [|x l IHl]; [done|]. cbn. rewrite decide_False by set_solver. f_equal. apply IHl. set_solver. }
    destruct (Cut s [c]) as [[a b]|] eqn:Hc.
    + apply Cut_byte_Some in Hc as [-> Ha]. rewrite length_app in Hn. cbn in Hn. cbn [Join].
      pose proof (IH b ltac:(lia)) as Hb. rewrite fmap_app, fmap_cons, decide_True, Hskip by done.
      destruct (Split_fuel n b [c]) as [|x l] eqn:Hs; [by destruct n; [|cbn in Hs; destruct (Cut b [c]) as [[]|]]|]. by rewrite Hb.
    + apply Cut_byte_None in Hc. cbn. by rewrite Hskip.
Qed.
Lemma ReplaceAll_byte s c d : ReplaceAll s [c] [d] = (λ x, if decide (x = c) then d else x) <$> s.
Proof. by apply Join_byte. Qed.

Lemma cut_before (a b x y : bytes) c : a ++ c :: b = x ++ c :: y → c ∉ x → y = b ∨ ∃ k, y = k ++ c :: b.
Proof.
  revert x. induction a as [|z a IH]; intros [|w x] Heq Hx; simplify_eq/=; [by left|set_solver|right; by exists a|].
  apply IH with x; [done|set_solver].
Qed.
Lemma last_Split_fuel n c s b : (length s ≤ n)%nat → (∃ a, s = a ++ c :: b) → c ∉ b → last (Split_fuel n s [c]) = Some b.
Proof.
  revert s. induction n as [|n IH]; intros s Hn [a ->] Hb; cbn [Split_fuel].
  - rewrite length_app in Hn. cbn in Hn. lia.
  - destruct (Cut (a ++ c :: b) [c]) as [[x y]|] eqn:Hc; [|apply Cut_byte_None in Hc; set_solver].
    apply Cut_byte_Some in Hc as [Heq Hx]. rewrite Heq, length_app in Hn. cbn in Hn. rewrite last_cons.
    destruct (cut_before _ _ _ _ _ Heq Hx) as [-> |Hk]; [|by rewrite (IH y); [|lia|..]].
    destruct n; cbn; [done|]. by rewrite Cut_absent.
Qed.
Lemma last_Split a c b : c ∉ b → last (Split (a ++ c :: b) [c]) = Some b.
Proof. intros Hb. by apply last_Split_fuel; [|exists a|]. Qed.

(** *** Names of services *)

Section names.
Variable unicode_lower : Z → Z.

Lemma ToLower_plain s : plain s → ToLower unicode_lower s = to_lower_byte <$> s.
Proof.
  intros Hs. unfold ToLower. rewrite runes_plain by done. induction Hs as [|c s [Hc _] _ IH]; [done|]. cbn. unfold of_runes in *. cbn. rewrite IH.
  change (to_lower_byte c :: (to_lower_byte <$> s)) with ([to_lower_byte c] ++ (to_lower_byte <$> s)). f_equal.
  unfold lower_rune, to_lower_byte. rewrite decide_True by lia. unfold EncodeRune. repeat case_decide; try lia; [done|by rewrite Z_byte_Z].
Qed.

Definition dash_for (bad c : ascii) : ascii := if decide (c = bad) then "-"%char else c.
Definition label_byte (c : ascii) : ascii := to_lower_byte (dash_for "." (dash_for "_" c)).
Lemma dash_plain bad s : plain s → plain (dash_for bad <$> s).
Proof.
  intros Hs. apply Forall_fmap. eapply Forall_impl; [exact Hs|]. intros c Hc. unfold dash_for. cbn. case_decide; [|done].
  split; [done|]. apply (bool_decide_eq_true_1 (_ ∉ _)). reflexivity.
Qed.
Lemma label_bytes s : plain s →
  ToLower unicode_lower (ReplaceAll (ReplaceAll s (bs "_") (bs "-")) (bs ".") (bs "-")) = label_byte <$> s.
Proof.
  intros Hs. change (bs "_") with ["_"%char]. change (bs ".") with ["."%char]. change (bs "-") with ["-"%char].
  rewrite !ReplaceAll_byte. rewrite ToLower_plain by (by do 2 apply (dash_plain _)). by rewrite <-!list_fmap_compose.
Qed.
Lemma label_clean c : c ∈ ["_"; "."]%char → ∀ d, label_byte d ≠ c.
Proof.
  intros Hc d. unfold label_byte, to_lower_byte.
  assert (∀ x, x ∈ ["_"; "."]%char → ¬ (65 ≤ byte_Z x - 32 ≤ 90)) as Hlow by (intros x Hx; apply (proj1 (Forall_forall (λ x, ¬ (65 ≤ byte_Z x - 32 ≤ 90)) ["_"; "."]%char)); [|done]; repeat constructor; vm_compute; intros []; congruence).
  case_decide as Hr.
  - intros Heq. apply (Hlow _ Hc). rewrite <-Heq. unfold Z_byte, byte_Z in *. rewrite N_ascii_embedding; lia.
  - unfold dash_for. repeat case_decide; set_solver.
Qed.
Lemma label_alphabet c : c ∈ "-"%char :: alphabet → label_byte c = c.
Proof. intros Hc. apply (proj1 (Forall_forall (λ c, label_byte c = c) ("-"%char :: alphabet))); [|done]. repeat constructor. Qed.
Lemma dash_not_digit s : Forall (λ c, c ∈ alphabet) s → "-"%char ∉ s.
Proof. intros Hs Hin. apply (proj1 (Forall_forall _ _) Hs) in Hin. assert (¬ "-"%char ∈ alphabet) as Hn by (apply (bool_decide_eq_false_1 _); vm_compute; reflexivity). done. Qed.

Lemma base36_digits num : Forall (λ c, c ∈ alphabet) (numberToString num).
Proof. apply Forall_reverse, digits_in_alphabet. Qed.
Lemma number_length num : (length (numberToString num) ≤ 13)%nat.
Proof.
  unfold numberToString. rewrite length_reverse. generalize 13%nat. intros n. revert num. induction n as [|n IH]; intros num; cbn; [done|].
  case_decide; cbn; [|lia]. specialize (IH (num / 36)). lia.
Qed.

Lemma name_clean c pre n e : c ∈ ["_"; "."]%char → Forall (λ d, d ∈ alphabet) e →
  c ∉ (label_byte <$> pre) ++ bs "-" ++ (label_byte <$> n) ++ bs "-" ++ e.
Proof.
  intros Hc He. rewrite !elem_of_app.
  assert (c ∉ "-"%char :: alphabet) as Hdash by (apply (proj1 (Forall_forall (λ c, c ∉ "-"%char :: alphabet) ["_"; "."]%char)); [|done]; apply (bool_decide_eq_true_1 _); vm_compute; reflexivity).
  intros [(x & Hx & _)%list_elem_of_fmap|[Hin|[(x & Hx & _)%list_elem_of_fmap|[Hin|Hin]]]]; try (by apply (label_clean c Hc x)).
  3: by apply (proj1 (Forall_forall _ _) He) in Hin; set_solver.
  all: apply Hdash; apply list_elem_of_singleton in Hin; rewrite Hin; by left.
Qed.

(** C20: The name of a service is at most 63 bytes long, as a label must be, and
    gives back the number it was made from, so that no two spaces have the same
    name, however their namespaces and names are cut. *)
Theorem service_name_roundtrip prefix namespace name id :
  plain prefix → plain namespace → plain name → length prefix = 1%nat → 0 ≤ id < 2 ^ 63 →
  ∃ svc, UniqueSpaceAppName unicode_lower prefix namespace name id = Some svc ∧ len svc ≤ 63 ∧ parseUniqueSpaceAppName svc = id ∧
    "_"%char ∉ svc ∧ "."%char ∉ svc.
Proof.
  intros Hpre Hns Hname Hlen Hid. unfold UniqueSpaceAppName. set (e := numberToString id).
  assert (length e ≤ 13)%nat as He by apply number_length. assert (plain e) as Hpe by apply alphabet_plain, base36_digits.
  assert (plain (namespace ++ bs "-" ++ name)) as Hnn by (apply Forall_app; split; [done|]; apply Forall_app; split; [|done]; apply (bool_decide_eq_true_1 (plain (bs "-"))); reflexivity).
  assert (∃ n, (if decide (63 - len e - 3 < len (namespace ++ bs "-" ++ name)) then slice (namespace ++ bs "-" ++ name) 0 (63 - len e - 3) else Some (namespace ++ bs "-" ++ name)) = Some n
    ∧ plain n ∧ len n ≤ 60 - len e) as (n & -> & Hn & Hnl).
  { unfold len in *. case_decide as Hc.
    - unfold slice, len. rewrite decide_True by lia. eexists. split; [done|]. rewrite drop_0. split; [by apply Forall_take|]. rewrite length_take. lia.
    - eexists. split; [done|]. split; [done|]. lia. }
  cbn [mbind option_bind]. eexists. split; [done|].
  assert (plain (bs "-")) as Hdash by (apply (bool_decide_eq_true_1 (plain (bs "-"))); reflexivity).
  rewrite label_bytes by (repeat (apply Forall_app; split); done). rewrite !fmap_app.
  assert (label_byte <$> bs "-" = bs "-") as -> by reflexivity.
  assert (label_byte <$> e = e) as ->.
  { assert (Forall (λ c, c ∈ alphabet) e) as Hd by apply base36_digits. clear -Hd. induction Hd as [|c s Hc _ IH]; [done|]. cbn. f_equal; [|done]. apply label_alphabet. by right. }
  split_and!.
  - unfold len in *. rewrite !length_app, !length_fmap. change (length (bs "-")) with 1%nat. lia.
  - unfold parseUniqueSpaceAppName. rewrite !(assoc_L (++)). rewrite <-(assoc_L (++) _ (bs "-") e). change (bs "-" ++ e) with ("-"%char :: e).
    change (bs "-") with ["-"%char]. rewrite last_Split by (apply dash_not_digit, base36_digits). by apply number_roundtrip.
  - apply name_clean; [set_solver|apply base36_digits].
  - apply name_clean; [set_solver|apply base36_digits].
Qed.
End names.

(** ** The environment *)

Lemma set_all_union (l : list (bytes * bytes)) (m1 m2 : gmap bytes bytes) : set_all l (m1 ∪ m2) = set_all l m1 ∪ m2.
Proof. unfold set_all. induction l as [|[k v] l IH] in m1 |- *; [done|]. cbn. by rewrite insert_union_l, IH. Qed.
Lemma hardware_union (m1 m2 : gmap bytes bytes) h : UpdateEvaluationEnvHardware (m1 ∪ m2) h = UpdateEvaluationEnvHardware m1 h ∪ m2.
Proof. unfold UpdateEvaluationEnvHardware. destruct (first_xpu h) as [[k n]|]; case_decide; by rewrite ?insert_union_l. Qed.
Lemma set_all_other (l : list (bytes * bytes)) (m : gmap bytes bytes) k : k ∉ l.*1 → set_all l m !! k = m !! k.
Proof.
  unfold set_all. induction l as [|[k' v] l IH] in m |- *; [done|]. cbn. intros [Hne Hk]%not_elem_of_cons. rewrite IH by done. by rewrite lookup_insert_ne.
Qed.
Lemma hardware_other (m : gmap bytes bytes) h k : k ∉ [bs "GPU_NUM"; bs "NPU_NUM"; bs "GCU_NUM"; bs "MLU_NUM"; bs "DCU_NUM"; bs "GPGPU_NUM"] →
  UpdateEvaluationEnvHardware m h !! k = m !! k.
Proof.
  intros Hk. unfold UpdateEvaluationEnvHardware, first_xpu. repeat case_decide; rewrite ?lookup_insert_ne; try done; set_solver.
Qed.

Section env.
Variable unicode_lower : Z → Z.
Variable Sprintf : bytes → bytes → bytes.
Variable JoinPath : bytes → bytes → bytes.
Abbreviation makeDeployEnv := (makeDeployEnv unicode_lower Sprintf JoinPath).

Definition without_user_env (d : DeployInfo) : DeployInfo :=
  mk_info (di_Type d) (di_SpaceID d) (di_SvcName d) [] [] (di_EngineArgs d) (di_ContainerPort d) (di_Task d).
Definition user_map (s : bytes) : gmap bytes bytes := match JsonStrToMap s with Some m => read_map m | None => ∅ end.

(** Keys set last, and the ones set before that stay. *)
Definition late_env (cfg : EnvConfig) (d : DeployInfo) (r : RepoInfo) (token : bytes) : list (bytes * bytes) :=
  (if decide (0 < di_SpaceID d) then sdk_env cfg (ri_Sdk r) (di_ContainerPort d) else []) ++
  (if decide (di_Type d = InferenceType ∨ di_Type d = ServerlessType) then inference_env cfg d else []) ++
  (if decide (di_Type d = FinetuneType) then finetune_env JoinPath cfg d token else []) ++
  (if decide (di_Type d = NotebookType) then [(bs "port", Itoa (di_ContainerPort d))] else []) ++ path_env cfg d.
Definition kept_keys : list bytes := [bs "S3_INTERNAL"; bs "ACCESS_TOKEN"; bs "HTTPCloneURL"; bs "REPO_ID"; bs "REVISION"].
Definition later_keys : list bytes := [bs "port"; bs "SDK"; bs "HF_ENDPOINT"; bs "HF_HUB_OFFLINE"; bs "HF_TASK"; bs "VLLM_ENFORCE_EAGER"; bs "HF_TOKEN";
  bs "USE_CSGHUB_MODEL"; bs "USE_CSGHUB_DATASET"; bs "JUPYTER_ENABLE_LAB"; bs "TERM"; bs "CONTEXT_PATH"; bs "GRADIO_ROOT_PATH"; bs "STREAMLIT_SERVER_BASE_URL_PATH"].
Lemma late_env_keys cfg d r token k : k ∈ (late_env cfg d r token).*1 → k ∈ later_keys.
Proof.
  unfold late_env, sdk_env, inference_env, finetune_env, path_env. rewrite !fmap_app, !elem_of_app.
  intros [H|[H|[H|[H|H]]]]; repeat case_decide; cbn in H; unfold later_keys; set_solver.
Qed.

(** Everything the platform writes over what the user gave. *)
Definition platform_over (cfg : EnvConfig) (hardware : HardWare) (token : bytes) (d : DeployInfo) (templates : list EngineArg) (parsers : gmap bytes bytes)
    (r : RepoInfo) (arch : bytes) (git : list (bytes * bytes)) (base : gmap bytes bytes) : gmap bytes bytes :=
  let env := set_all ([(bs "S3_INTERNAL", bs (if ec_S3Internal cfg then "true" else "false")); (bs "ACCESS_TOKEN", token)] ++ git) base in
  let env := if decide (templates = []) then env else <[bs "ENGINE_ARGS" := engine_args Sprintf templates parsers arch (di_EngineArgs d)]> env in
  set_all (late_env cfg d r token) (UpdateEvaluationEnvHardware env hardware).
Lemma platform_over_union cfg hardware token d templates parsers r arch git m1 m2 :
  platform_over cfg hardware token d templates parsers r arch git (m1 ∪ m2) = platform_over cfg hardware token d templates parsers r arch git m1 ∪ m2.
Proof. unfold platform_over. rewrite set_all_union. case_decide; by rewrite ?insert_union_l, hardware_union, set_all_union. Qed.
Lemma makeDeployEnv_layers cfg hardware username token d templates parsers r commit arch :
  makeDeployEnv cfg hardware username token d templates parsers r commit arch =
  env ← assigned (match JsonStrToMap (di_Env d) with Some m => m | None => Some ∅ end);
  git ← git_env unicode_lower d r username token commit;
  Ret (platform_over cfg hardware token (without_user_env d) templates parsers r arch git (user_map (di_Variables d) ∪ env)).
Proof. reflexivity. Qed.

Lemma kept_lookup cfg hardware token d templates parsers r arch (git : list (bytes * bytes)) base k : k ∈ kept_keys →
  platform_over cfg hardware token d templates parsers r arch git base !! k =
  set_all ([(bs "S3_INTERNAL", bs (if ec_S3Internal cfg then "true" else "false")); (bs "ACCESS_TOKEN", token)] ++ git) base !! k.
Proof.
  intros Hk. assert (∀ l : list bytes, Forall (λ k, k ∉ l) kept_keys → k ∉ l) as Hout by (intros l Hl; by apply (proj1 (Forall_forall _ _) Hl)).
  unfold platform_over. rewrite set_all_other, hardware_other.
  - case_decide; [done|]. apply lookup_insert_ne. intros <-. apply (Hout [bs "ENGINE_ARGS"]); [apply (bool_decide_eq_true_1 _); vm_compute; reflexivity|by left].
  - apply Hout, (bool_decide_eq_true_1 _). vm_compute. reflexivity.
  - intros Hin%late_env_keys. apply (Hout later_keys); [apply (bool_decide_eq_true_1 _); vm_compute; reflexivity|done].
Qed.

(** C19: The environment of a container is what the platform makes for a deployment
    without variables, over the variables, over the environment the user gave:
    whatever they contain, the token, the repository and the rest of the
    platform's keys are the platform's. An environment that is the JSON null is
    the one that stops it, with a panic. *)
Theorem platform_env_wins cfg hardware username token d templates parsers r commit arch :
  (makeDeployEnv cfg hardware username token d templates parsers r commit arch =
   match JsonStrToMap (di_Env d) with
   | Some None => Panic
   | _ => platform ← makeDeployEnv cfg hardware username token (without_user_env d) templates parsers r commit arch;
          Ret (platform ∪ (user_map (di_Variables d) ∪ user_map (di_Env d)))
   end) ∧
  (∀ platform, makeDeployEnv cfg hardware username token (without_user_env d) templates parsers r commit arch = Ret platform →
     platform !! bs "ACCESS_TOKEN" = Some token ∧ platform !! bs "S3_INTERNAL" = Some (bs (if ec_S3Internal cfg then "true" else "false")) ∧
     platform !! bs "REPO_ID" = Some (if decide (di_Type d = NotebookType) then [] else ri_Path r)).
Proof.
  rewrite !makeDeployEnv_layers. cbn [di_Env di_Variables without_user_env]. change (user_map []) with (∅ : gmap bytes bytes).
  change (JsonStrToMap []) with (Some (Some (∅ : gmap bytes bytes))). cbn [assigned mbind outcome_bind].
  change (git_env unicode_lower (without_user_env d) r username token commit) with (git_env unicode_lower d r username token commit).
  rewrite (left_id_L ∅ (∪)). split.
  - change (without_user_env (without_user_env d)) with (without_user_env d). generalize (user_map (di_Variables d)) as vars. intros vars. unfold user_map.
    destruct (JsonStrToMap (di_Env d)) as [[e|]|]; [|done|]; destruct (git_env _ _ _ _ _ _) as [git|err|]; try done.
    all: unfold mbind, outcome_bind; cbn -[platform_over]; f_equal; rewrite <-platform_over_union; by rewrite (left_id_L ∅ (∪)).
  - intros platform. destruct (git_env _ _ _ _ _ _) as [git|err|] eqn:Hgit; [|done..]. intros [= <-].
    rewrite !kept_lookup by (unfold kept_keys; set_solver). unfold git_env in Hgit. case_decide; [|case_decide; [done|]; destruct commit as [id|]; [|done]; destruct (ShortenCommitID7 _ _); [|done]].
    all: injection Hgit as <-; split_and!; reflexivity.
Qed.
End env.

(** ** The list of nodes *)

Definition node_name (n : bytes) : Prop := n ≠ [] ∧ ","%char ∉ n.

Lemma add_node_Join l node : Forall node_name l → node_name node → node ∉ l → l ≠ [] →
  add_node (Join l (bs ",")) node = Join (l ++ l ++ [node]) (bs ",").
Proof.
  intros Hl [Hne Hc] Hnew Hnil. change (bs ",") with [","%char]. unfold add_node. change (bs ",") with [","%char].
  rewrite Split_Join by (done || by apply (Forall_impl _ _ _ Hl); intros ? []). rewrite decide_True by done.
  rewrite decide_False by (apply Join_nonempty; [done|by apply (Forall_impl _ _ _ Hl); intros ? []]).
  assert (l ++ [node] ≠ []) as Hsnoc by (intros Heq; by apply app_nil in Heq as [_ ?]).
  rewrite (Join_app _ l (l ++ [node])), (Join_app _ l [node]) by done. by rewrite <-!(assoc_L (++)).
Qed.

(** A deployment that has run on [k] nodes, one after the other, lists 2^k-1
    of them: each new node repeats the whole list before it. *)
Theorem node_list_doubles nodes : nodes ≠ [] → NoDup nodes → Forall node_name nodes →
  length (Split (foldl add_node [] nodes) (bs ",")) = (2 ^ length nodes - 1)%nat.
Proof.
  intros Hnil Hnd Hn.
  assert (∃ l, l ≠ [] ∧ foldl add_node [] nodes = Join l (bs ",") ∧ length l = (2 ^ length nodes - 1)%nat ∧ Forall (λ x, x ∈ nodes) l) as (l & Hl & -> & Hlen & Hin).
  { induction nodes as [|n nodes IH] using rev_ind; [done|]. apply Forall_app in Hn as [Hn Hn1]. apply NoDup_app in Hnd as (Hnd & Hnew & _).
    inversion Hn1 as [|?? Hname _]; subst. rewrite foldl_app. cbn [foldl]. destruct (decide (nodes = [])) as [-> |Hne].
    - exists [n]. split_and!; [done| |done|repeat constructor]. cbn. unfold add_node. destruct Hname. rewrite decide_True; [done|]. cbn. split; [done|set_solver].
    - destruct IH as (l & Hl & -> & Hlen & Hin); [done..|]. exists (l ++ l ++ [n]). split_and!; [by destruct l| | |].
      + apply add_node_Join; [|done| |done].
        * eapply Forall_impl; [exact Hin|]. intros x Hx. by apply (proj1 (Forall_forall _ _) Hn).
        * intros Hx. apply (proj1 (Forall_forall _ _) Hin) in Hx. apply (Hnew n Hx). by left.
      + rewrite !length_app, Hlen. cbn [length]. rewrite (Nat.add_1_r (length nodes)), Nat.pow_succ_r'. pose proof (Nat.pow_nonzero 2 (length nodes) ltac:(done)). lia.
      + rewrite !Forall_app. split_and!; [eapply Forall_impl; [exact Hin|set_solver]..|repeat constructor; set_solver]. }
  change (bs ",") with [","%char]. rewrite Split_Join; [done|done|]. eapply Forall_impl; [exact Hin|]. intros x Hx. by apply (proj1 (Forall_forall _ _) Hn).
Qed.
