(* ===== verification/DpOpsSpec.v ===== *)
(** Runs of the deployment operations: starting a running deployment restarts
    it, a stop the runner refuses is recorded as done, a run it refuses is not
    tried again, and a build that ends before its start is told has timed
    out. *)
From S2P Require Import Prelude GoLib GoJson Sensitive DpEnv DpTask DpFlow DpOps DpFlowSpec.
Open Scope Z_scope.

(** ** Undisturbed calls *)

Definition calm (w : deploy_world) : Prop := dw_faulty w = [].

Lemma calm_fault w : calm w → next_fault w = (Ret tt, w).
Proof. unfold calm, next_fault. cbn. by intros ->. Qed.
Lemma calm_read {A} (f : deploy_world → A) w : calm w → read f w = (Ret (f w), w).
Proof. intros Hw. unfold read, mbind, io_bind. by rewrite calm_fault. Qed.
Lemma calm_row {A} (f : deploy_world → option A) w a : calm w → f w = Some a → read_row f w = (Ret a, w).
Proof. intros Hw Hf. unfold read_row. erewrite io_bind_run by (by apply calm_read). by rewrite Hf. Qed.
Lemma calm_update d w : calm w → UpdateDeploy d w = (Ret tt, set_deploys (put_deploy d) w).
Proof. intros Hw. unfold UpdateDeploy. by erewrite io_bind_run by (by apply calm_fault). Qed.
Lemma calm_create_task now id ty s m w : calm w →
  CreateDeployTask now id ty s m w = (Ret (mk_task (dw_next w) ty s m id now), set_tasks (λ l, l ++ [mk_task (dw_next w) ty s m id now]) (set_next (dw_next w + 1) w)).
Proof. intros Hw. unfold CreateDeployTask. by erewrite io_bind_run by (by apply calm_fault). Qed.
Lemma calm_Stop svc w : dw_faulty w = [] → deployer_Stop svc w = (Ret tt, add_call (CStop svc) w).
Proof. intros Hw. unfold deployer_Stop, mbind, io_bind. cbn. unfold io_try, next_fault. cbn. by rewrite Hw. Qed.
Lemma calm_Exist code svc w : calm w → code ≠ -1 → Exist code svc w = (Ret (bool_decide (code ≠ Stopped)), add_call (CExist svc) w).
Proof. intros Hw Hc. unfold Exist, mbind, io_bind. cbn. rewrite calm_fault by done. by case_decide. Qed.

Lemma found_task id w td w' : GetDeployTask id w = (Ret td, w') → td.1 ∈ dw_tasks w' ∧ dt_ID td.1 = id.
Proof.
  unfold GetDeployTask, read_row, read. intros H. apply bind_ret in H as (o & w1 & Ho & H). apply bind_ret in Ho as (? & w2 & _ & [= <- <-]).
  unfold found_by, row in H. destruct (list_find _ (dw_tasks w2)) as [[i t']|] eqn:Hf; [|done]. injection H as <- <-.
  apply list_find_Some in Hf as (?%list_elem_of_lookup_2 & ? & _). done.
Qed.

(** ** Starting *)

Lemma calm_Status now interval id d c w : calm w → found_by (λ d, dp_ID d = id) (dw_deploys w) = Some d →
  found_by (λ c, ci_ClusterID c = op_ClusterID (dp_opts d)) (tb_clusters (dw_tables w)) = Some c →
  deployer_Status now interval id w =
    (Ret (if ci_Enable c && bool_decide (ci_Status c ≠ ClusterStatusUnavailable) && bool_decide (now - (ci_UpdatedAt c / 1000000000) * 1000000000 ≤ interval * 2 * 1000000000)
          then (dp_SvcName d, dp_Status d, dp_Instances d) else ([], ResourceUnhealthy, [])), w).
Proof.
  intros Hw Hd Hc. unfold deployer_Status. erewrite io_bind_run by (eapply io_wrap_run, calm_row; done).
  assert (CheckClusterHealthy now interval (op_ClusterID (dp_opts d)) w =
    (Ret (ci_Enable c && bool_decide (ci_Status c ≠ ClusterStatusUnavailable) && bool_decide (now - (ci_UpdatedAt c / 1000000000) * 1000000000 ≤ interval * 2 * 1000000000)), w)) as Hh.
  { unfold CheckClusterHealthy. erewrite io_bind_run.
    2: { eapply io_try_run. erewrite io_bind_run by (by eapply calm_row). by erewrite io_bind_run by (by apply calm_fault). }
    cbn. destruct (ci_Enable c); [|done]. cbn. case_decide as He; [rewrite bool_decide_eq_false_2 by naive_solver; done|rewrite (bool_decide_eq_true_2 _ He); done]. }
  by erewrite io_bind_run by exact Hh.
Qed.

Lemma calm_start b r w : calm w → StartNewDeployTaskWithCancelOld startAttempts b r w = (Ret tt, add_workflow b r w).
Proof. intros Hw. unfold startAttempts. cbn [StartNewDeployTaskWithCancelOld]. unfold mbind, io_bind, io_try, next_fault, io_modify. cbn. unfold calm in Hw. cbn in Hw. rewrite Hw. cbn. rewrite ?Hw. by destruct w. Qed.

(** Starting a deployment that runs does not ask to stop it first: the code
    compares its status with 4, and a running one's is 23. It is stopped, its
    row goes back to pending, and a new run is started for it. *)
Theorem start_restarts_running now interval code req w u d c sku n :
  calm w → ar_DeployType req ≠ ServerlessType →
  found_by (λ u, us_Username u = ar_CurrentUser req) (tb_users (dw_tables w)) = Some u →
  found_by (λ d, dp_ID d = ar_DeployID req) (dw_deploys w) = Some d → or_UserID (dp_origin d) = us_ID u →
  dp_Status d = Running → ParseInt (op_SKU (dp_opts d)) = Some n → found_by (λ s, sr_ID s = n) (tb_skus (dw_tables w)) = Some sku →
  found_by (λ c, ci_ClusterID c = op_ClusterID (dp_opts d)) (tb_clusters (dw_tables w)) = Some c → code ≠ -1 → code ≠ Stopped →
  ∃ w', DeployStart now interval code None req w = (Ret tt, w') ∧
    dw_calls w' = dw_calls w ++ [CExist (dp_SvcName d); CStop (dp_SvcName d)] ∧
    dw_deploys w' = put_deploy (set_dp_Status Pending d) (dw_deploys w) ∧
    dw_workflows w' = dw_workflows w ++ [(None, dw_next w)].
Proof.
  intros Hw Hty Hu Hd Hown Hst Hn Hsku Hc Hcode Hexist. eexists. unfold DeployStart, check_permission. rewrite decide_False by done.
  assert (CheckDeployPermissionForUser req w = (Ret (u, d), w)) as Hperm.
  { unfold CheckDeployPermissionForUser, FindUser. erewrite io_bind_run by (eapply io_wrap_run, calm_row; done).
    erewrite io_bind_run by (eapply io_wrap_run, calm_row; done). by rewrite decide_True. }
  erewrite io_bind_run by (apply io_wrap_run, Hperm). cbn iota. rewrite Hn.
  erewrite io_bind_run by done. erewrite io_bind_run by (eapply io_wrap_run, calm_row; done). erewrite io_bind_run by done.
  erewrite io_bind_run by (by apply calm_Exist). rewrite bool_decide_eq_true_2 by done.
  erewrite io_bind_run.
  2: { erewrite io_bind_run by (eapply io_wrap_run, calm_Status; done). cbn iota.
       match goal with |- context [if ?b then _ else _] => destruct b end; rewrite ?Hst; by apply calm_Stop. }
  unfold StartDeploy. split; [apply io_wrap_run|].
  - erewrite io_bind_run by (by apply io_wrap_run, calm_update). erewrite io_bind_run by (by apply io_wrap_run, calm_create_task). by apply calm_start.
  - cbn. by rewrite <-(assoc_L (++)).
Qed.

(** ** Stopping *)

Lemma faults_next (w : deploy_world) f fs : dw_faulty w = f :: fs → next_fault w = (match f with Some e => Fail e | None => Ret tt end, set_faults fs w).
Proof. intros Hw. unfold next_fault. cbn. rewrite Hw. by destruct f. Qed.
Lemma row_after {A} (f : deploy_world → option A) w fs a : dw_faulty w = None :: fs → f (set_faults fs w) = Some a → read_row f w = (Ret a, set_faults fs w).
Proof. intros Hw Hf. unfold read_row, read, mbind, io_bind. rewrite (faults_next _ _ _ Hw). cbn -[set_faults]. by rewrite Hf. Qed.
Lemma owned_once id repo user ds d : NoDup (dp_ID <$> ds) → d ∈ ds → owned id repo user d → length (filter (owned id repo user) ds) = 1%nat.
Proof.
  intros Hnd Hin Ho. assert (∀ y, y ∈ ds → owned id repo user y → y = d) as Hone.
  { intros y Hy [Hid _]. destruct Ho as [Hd _]. by apply (keyed_eq dp_ID ds); [..|congruence]. }
  assert (NoDup (filter (owned id repo user) ds)) as Hf by (apply NoDup_filter; by eapply NoDup_fmap_1).
  assert (d ∈ filter (owned id repo user) ds) as Hdf by (by apply list_elem_of_filter).
  destruct (filter (owned id repo user) ds) as [|x [|y l]] eqn:He; [set_solver|done|]. exfalso.
  assert (∀ z, z ∈ x :: y :: l → z = d) as Hall by (rewrite <-He; intros z [Hz ?]%list_elem_of_filter; auto).
  rewrite (Hall x), (Hall y) in Hf by set_solver. inversion Hf. set_solver.
Qed.

(** When the runner refuses to stop a space, the error is replaced by that of a
    release that does nothing: the stop succeeds, and a space that still runs
    is recorded as stopped. *)
Theorem failed_stop_marks_stopped spaceID w d e :
  dw_faulty w = [None; Some e] → NoDup (dp_ID <$> dw_deploys w) →
  newest dp_CreatedAt (filter (λ d, or_SpaceID (dp_origin d) = spaceID) (dw_deploys w)) = Some d → d ∈ dw_deploys w → dp_Status d ≠ Building →
  ∃ w', stopSpaceDeploy spaceID w = (Ret tt, w') ∧ dw_calls w' = dw_calls w ++ [CStop (dp_SvcName d)] ∧
    dw_deploys w' = (λ x, if decide (dp_ID x = dp_ID d) then set_dp_Status Stopped d else x) <$> dw_deploys w.
Proof.
  intros Hw Hnd Hnew Hin Hst. eexists. unfold stopSpaceDeploy.
  erewrite io_bind_run by (apply io_wrap_run, (row_after _ _ _ _ Hw Hnew)).
  rewrite decide_False by done. erewrite io_bind_run by done.
  erewrite io_bind_run by (unfold deployer_Stop, mbind, io_bind, io_try, next_fault; cbn; done).
  assert (owned (dp_ID d) (or_RepoID (dp_origin d)) (or_UserID (dp_origin d)) d) as Ho by done.
  split; [apply io_wrap_run|].
  - unfold StopDeploy, set_owned_status, affect_one. erewrite io_bind_run by (by apply calm_fault). erewrite io_bind_run by done. erewrite io_bind_run by done.
    cbn. rewrite (owned_once _ _ _ _ d Hnd Hin Ho). done.
  - cbn. split; [done|]. apply list_fmap_ext. intros i x Hx%list_elem_of_lookup_2. destruct (decide (dp_ID x = dp_ID d)) as [Heq|Hne].
    + rewrite (keyed_eq dp_ID _ x d Hnd Hx Hin Heq). by rewrite decide_True.
    + rewrite decide_False; [done|]. by intros [? _].
Qed.
(** ** Recording a status *)

Definition put_status (cols : Deploy → Deploy → Deploy) (t : DeployTask) (d : Deploy) (w : deploy_world) : deploy_world :=
  set_tasks (λ l, (λ x, if decide (dt_ID x = dt_ID t) then set_task (dt_Status t) (dt_Message t) x else x) <$> l)
    (set_deploys (λ l, (λ x, if decide (dp_ID x = dp_ID d) then cols d x else x) <$> l) w).
Definition last_task (t : DeployTask) (did : Z) (w : deploy_world) : Prop :=
  ∃ t', newest dt_ID (filter (λ t', dt_DeployID t' = did ∧ dt_TaskType t' = dt_TaskType t) (dw_tasks w)) = Some t' ∧ dt_ID t' = dt_ID t.
Lemma calm_status cols t d w : calm w → last_task t (dp_ID d) w → update_status cols t d w = (Ret tt, put_status cols t d w).
Proof.
  intros Hw (t' & Ht' & Hid). unfold update_status. erewrite io_bind_run by (by eapply io_wrap_run, calm_row). rewrite decide_True by done.
  unfold UpdateInTx. erewrite io_bind_run by (by apply calm_fault). erewrite io_bind_run by (by apply io_wrap_run, calm_fault).
  erewrite io_bind_run by (by apply io_wrap_run, calm_fault). by erewrite io_bind_run by (by apply calm_fault).
Qed.
Lemma put_status_task cols t d w x : x ∈ dw_tasks (put_status cols t d w) → dt_ID x = dt_ID t → dt_Status x = dt_Status t ∧ dt_Message x = dt_Message t.
Proof. cbn. intros (y & -> & _)%list_elem_of_fmap. by case_decide. Qed.
Lemma put_status_deploy cols t d w x : (∀ y, dp_ID (cols d y) = dp_ID y ∧ dp_Status (cols d y) = dp_Status d) →
  x ∈ dw_deploys (put_status cols t d w) → dp_ID x = dp_ID d → dp_Status x = dp_Status d.
Proof. intros Hc. cbn. intros (y & -> & _)%list_elem_of_fmap. case_decide; [|done]. intros _. apply Hc. Qed.

(** The runner's endpoint is found. *)
Lemma host_run q w fs fs' :
  (if decide (rn_ClusterID q = []) then fs = []
   else fs = [None] ∧ is_Some (found_by (λ c, ci_ClusterID c = rn_ClusterID q) (tb_clusters (dw_tables w)))) →
  dw_faulty w = fs ++ fs' → GetRemoteRunnerHost (rn_ClusterID q) w = (Ret tt, set_faults fs' w).
Proof.
  unfold GetRemoteRunnerHost. case_decide; [intros -> Hw; cbn in *; subst; by destruct w|]. intros [-> [c Hc]] Hw.
  by erewrite io_bind_run by (by eapply row_after).
Qed.

Section runs.
Context (unicode_lower : Z → Z) (Sprintf JoinPath : bytes → bytes → bytes) (last_commit : bytes → bytes → bytes → bytes → bytes)
  (architecture : Z → bytes) (runner_answer : RunRequest → bytes) (cfg : DeployConfig).

(** ** A run the runner refuses *)

(** The refusal is recorded and the activity fails; the workflow's next
    attempt finds its task no longer pending, asks nothing, and reports the run
    as done. *)
Theorem refused_run_reported_done w t d q e fs :
  (if decide (rn_ClusterID q = []) then fs = []
   else fs = [None] ∧ is_Some (found_by (λ c, ci_ClusterID c = rn_ClusterID q) (tb_clusters (dw_tables w)))) →
  dw_faulty w = fs ++ [None; Some e] → last_task t (dp_ID d) w →
  let w' := snd (ask_runner runner_answer t d q w) in
  fst (ask_runner runner_answer t d q w) = Fail (wrap "failed to call image runner:" e) ∧
  dw_calls w' = dw_calls w ++ [CRun q] ∧
  (∀ x, x ∈ dw_tasks w' → dt_ID x = dt_ID t → dt_Status x = TaskStatusDeployFailed ∧ dt_Message x = derr_text e) ∧
  (∀ x, x ∈ dw_deploys w' → dp_ID x = dp_ID d → dp_Status x = DeployFailed) ∧
  (∀ ev now b n t' d' repo q',
     GetDeployTask (dt_ID t) w' = (Ret (t', Some d'), w') → getRepositoryInfo cfg d' w' = (Ret repo, w') →
     createDeployRequest unicode_lower Sprintf JoinPath last_commit architecture cfg t' d' repo w' = (Ret q', w') →
     rn_ImageID q' ≠ [] → rn_OrderDetailID q' = 0 →
     DeployWorkflow unicode_lower Sprintf JoinPath last_commit architecture runner_answer cfg ev now b (dt_ID t) (WRun n) w' = (Ret WDone, w')).
Proof.
  intros Hcl Hw Hlast.
  assert (ask_runner runner_answer t d q w = (Fail (wrap "failed to call image runner:" e),
    put_status col_status (set_task TaskStatusDeployFailed (derr_text e) t) (set_dp_Status DeployFailed d) (set_faults [] (add_call (CRun q) w)))) as Hrun.
  { assert (Run runner_answer q w = (Fail e, set_faults [] (add_call (CRun q) w))) as HR.
    { unfold Run. erewrite io_bind_run by (by apply (host_run q w fs [None; Some e])). unfold mbind, io_bind, io_try, next_fault, io_modify. by cbn. }
    unfold ask_runner. erewrite io_bind_run by (unfold io_try; by rewrite HR).
    cbv iota. erewrite io_bind_run; [done|]. apply io_wrap_run, calm_status; done. }
  rewrite Hrun. cbn zeta. cbn [fst snd]. split; [done|]. split; [done|]. split; [exact (λ x, put_status_task _ _ _ _ x)|].
  split; [intros x Hx Hid; exact (put_status_deploy col_status (set_task TaskStatusDeployFailed (derr_text e) t) (set_dp_Status DeployFailed d) _ x (λ y, conj eq_refl eq_refl) Hx Hid)|].
  intros ev now b n t' d' repo q' Hget Hrepo Hq Himg Horder.
  assert (dt_ID t' = dt_ID t ∧ dt_Status t' = TaskStatusDeployFailed) as [Hid Hst].
  { destruct (found_task _ _ _ _ Hget) as [Hin Hid]. split; [done|]. by eapply put_status_task in Hin as [??]. }
  assert (DeployActivity unicode_lower Sprintf JoinPath last_commit architecture runner_answer cfg (dt_ID t)
    (put_status col_status (set_task TaskStatusDeployFailed (derr_text e) t) (set_dp_Status DeployFailed d) (set_faults [] (add_call (CRun q) w))) =
    (Ret tt, put_status col_status (set_task TaskStatusDeployFailed (derr_text e) t) (set_dp_Status DeployFailed d) (set_faults [] (add_call (CRun q) w)))) as Hact.
  { unfold DeployActivity. erewrite io_bind_run by apply io_wrap_run, Hget. erewrite io_bind_run by done. cbv iota. erewrite io_bind_run by apply io_try_run, Hrepo.
    cbv iota. erewrite io_bind_run by apply io_wrap_run, Hq. rewrite decide_False by done. rewrite decide_True by done. erewrite io_bind_run by done.
    rewrite Hid. erewrite io_bind_run by apply io_wrap_run, Hget. cbv iota. by rewrite Hst. }
  unfold DeployWorkflow. by erewrite io_bind_run by (unfold activity; rewrite Hact; done).
Qed.

(** ** A build that ends before its start is told *)

(** An event of the builder that reports success while the deployment is still
    queued is dropped, even undisturbed; and if no other event comes, the first
    look past the deadline records the finished build as timed out. *)
Theorem early_success_times_out e w t d p now :
  calm w → GetDeployTask (be_TaskId e) w = (Ret (t, Some d), w) → last_task t (dp_ID d) w → dt_TaskType t = TaskTypeBuild →
  be_Status e = bs "Succeeded" → dt_Status t = TaskStatusBuildInQueue → dp_Status d = BuildInQueue →
  dt_ID (ps_task p) = be_TaskId e → dt_CreatedAt t + dc_BuildTimeoutInMin cfg * Minute < now →
  builder_event e w = (Ret tt, w) ∧
  ∃ w', pollBuildStatus cfg p (StatusTick now) w = (Ret false, w') ∧
    (∀ x, x ∈ dw_tasks w' → dt_ID x = dt_ID t → dt_Status x = TaskStatusBuildFailed ∧ dt_Message x = bs "build task timeout") ∧
    (∀ x, x ∈ dw_deploys w' → dp_ID x = dp_ID d → dp_Status x = BuildFailed).
Proof.
  intros Hw Hget Hlast Hty He Hst Hd Hp Hlate. split.
  - destruct Hlast as (t' & Ht' & Hid). unfold builder_event. erewrite io_bind_run by apply io_wrap_run, Hget. cbn iota.
    erewrite io_bind_run by (by eapply io_wrap_run, calm_row). rewrite decide_False by (by intros []). unfold build_transition. rewrite He.
    rewrite decide_False by done. rewrite decide_True by done. by rewrite decide_False by (by rewrite Hd).
  - eexists. cbn [pollBuildStatus]. unfold checkBuildStatus. rewrite Hp. erewrite io_bind_run by apply io_wrap_run, Hget. cbn iota. rewrite Hst.
    rewrite !decide_False by done. erewrite io_bind_run.
    2: { unfold isTaskTimedOut. rewrite decide_True by done. erewrite io_bind_run by done. rewrite bool_decide_eq_true_2 by done. done. }
    cbv iota. erewrite io_bind_run by done. cbv iota. split; [erewrite io_bind_run; [done|]|].
    + by apply io_wrap_run, calm_status.
    + split; [exact (λ x, put_status_task _ _ _ _ x)|intros x Hx Hid; exact (put_status_deploy col_status (set_task TaskStatusBuildFailed (bs "build task timeout") t) (set_dp_Status BuildFailed d) _ x (λ y, conj eq_refl eq_refl) Hx Hid)].
Qed.
End runs.
