(* ===== verification/DpMeterSpec.v ===== *)
(** A metering cycle and the accounting consumer together: what runs is
    recorded once. *)
From S2P Require Import Prelude GoLib GoJson Sensitive Accounting AccountingSpec DpEnv DpTask DpFlow DpOps DpMeter DpFlowSpec DpOpsSpec.
Open Scope Z_scope.

(** ** The consumer, undisturbed *)

Section consumer.
Variable event_body : MeteringEvent → gmap bytes bytes.
Variable unmarshal_event : bytes → option MeteringEvent.
Abbreviation handleMsgWithRetry := (handleMsgWithRetry event_body unmarshal_event).
Abbreviation handleMessages := (handleMessages event_body unmarshal_event).

Definition undisturbed (w : world) : Prop := faults w = [].
#[local] Instance any_preorder : PreOrder (λ _ _ : world, True).
Proof. by split. Qed.
Abbreviation calmly := (moves (E := err) undisturbed (λ _ _, True) anywhere).

Lemma calmly_fault : calmly (next_fault (W := world)).
Proof. intros w Hw. unfold next_fault. cbn. by rewrite Hw. Qed.
Lemma calmly_modify f : (∀ w, faults (f w) = faults w) → calmly (io_modify f).
Proof. intros Hf. apply moves_modify. intros w Hw. split; [|done]. unfold undisturbed. by rewrite Hf. Qed.
Hint Resolve calmly_fault : moves.
Hint Extern 1 (moves _ _ _ (io_modify _)) => apply calmly_modify; reflexivity : moves.
Lemma calmly_panic {A} : calmly ((λ w, (Panic, w)) : io world err A).
Proof. by intros w. Qed.
Hint Resolve calmly_panic : moves.
Lemma calmly_attempts {A} n (m : io world err A) : calmly m → calmly (attempts n m).
Proof. intros Hm. induction n; cbn; [done|]. moves. Qed.
Lemma calmly_message charging data : calmly (handleMsgWithRetry charging data).
Proof.
  assert (calmly (handleMsgData event_body unmarshal_event data)) as Hd.
  { unfold handleMsgData, parseMessageData, logAndVerifyEvent, checkDuplicatedEvent, GetMeteringByEventUUID, GetByEventUUID,
      FindMeteringByCustomerIDAndRecordAtInMin, FindByCustomerIDAndRecordAtInMin, AddNewAccountingEvent, GetByEventID, Create_event,
      SaveMeteringEventRecord, Create_metering. moves.
 }
  pose proof (λ A n (m : io world err A), calmly_attempts n m) as Ha. unfold Accounting.handleMsgWithRetry, pubFeeEventWithReTry, moveMsgToDLQWithReTry, publish, ack. moves.
  all: apply Ha; moves.
Qed.

Definition checked (e : MeteringEvent) : Prop := IsNeedCheckMeteringInMinute (scene_of (ev_Scene e)) (ev_ValueType e) = true.
Definition clear (e : MeteringEvent) (w : world) : Prop := ∀ m, m ∈ meterings w → ¬ conflicts e m.

Lemma logAndVerify_clear e w : undisturbed w → clear e w →
  wp (logAndVerifyEvent event_body e) (λ r w', r = Ok tt ∧ undisturbed w' ∧ frame w w') w.
Proof.
  intros Hf Hc. unfold logAndVerifyEvent. wp_simpl.
  assert (wp (if IsNeedCheckMeteringInMinute (scene_of (ev_Scene e)) (ev_ValueType e) then checkDuplicatedEvent e else mret (false, None, None))
    (λ r w', r = Ok (false, None, None) ∧ w' = w) w) as Hck.
  { destruct (IsNeedCheckMeteringInMinute _ _); wp_simpl; [|done].
    unfold checkDuplicatedEvent, GetMeteringByEventUUID, GetByEventUUID, FindMeteringByCustomerIDAndRecordAtInMin, FindByCustomerIDAndRecordAtInMin.
    wp_simpl. apply wp_no_fault; [done|]. wp_simpl. destruct (list_find (λ m, EventUUID m = _) _) as [[i m]|] eqn:Hu.
    { apply list_find_Some in Hu as (Hm%list_elem_of_lookup_2 & Hu & _). destruct (Hc m Hm). by left. }
    cbn. wp_simpl. apply wp_no_fault; [done|]. wp_simpl. destruct (list_find (λ m, CustomerID m = _ ∧ _) _) as [[i m]|] eqn:Hu'; [|cbn; by wp_simpl].
    apply list_find_Some in Hu' as (Hm%list_elem_of_lookup_2 & Hu' & _). destruct (Hc m Hm). by right. }
  eapply wp_mono; [|exact Hck]. intros r w' [-> ->]. cbn. unfold AddNewAccountingEvent, GetByEventID, Create_event. wp_simpl.
  apply wp_no_fault; [done|]. wp_simpl. destruct (list_find _ _) as [[i ae]|]; wp_simpl; [done|].
  cbn [is_no_rows]. wp_simpl. apply wp_no_fault; [done|]. by wp_simpl.
Qed.
Lemma message_clear charging data e w : undisturbed w → unmarshal_event data = Some e → clear e w →
  ∃ w', handleMsgWithRetry charging data w = (Ret tt, w') ∧ undisturbed w' ∧ meterings w' = meterings w ++ [metering_of e].
Proof.
  intros Hf Hu Hc. destruct (wp_run _ _ _ (logAndVerify_clear e w Hf Hc)) as (r & w1 & Hrun & -> & Hf1 & Hm & _).
  set (w2 := mk_world (faults w1) (meterings w1 ++ [metering_of e]) (events w1) (published w1) (acked w1)).
  assert (handleMsgData event_body unmarshal_event data w = (Ret e, w2)) as Hdata.
  { unfold handleMsgData, parseMessageData. rewrite Hu. erewrite io_bind_run by done. erewrite io_bind_run by apply io_wrap_run, Hrun.
    erewrite io_bind_run; [done|]. apply io_wrap_run. unfold SaveMeteringEventRecord. apply io_wrap_run. unfold Create_metering.
    rewrite (io_bind_run _ _ _ tt w1); [done|]. apply io_wrap_run. unfold next_fault. cbn. by rewrite Hf1. }
  assert (attempts 2 (handleMsgData event_body unmarshal_event data) w = (Ret e, w2)) as Hatt.
  { cbn [attempts]. by rewrite (io_bind_run _ _ _ _ _ (io_try_run _ _ _ _ Hdata)). }
  subst w2.
  unfold Accounting.handleMsgWithRetry. rewrite (io_bind_run _ _ _ _ _ (io_try_run _ _ _ _ Hatt)).
  destruct w1 as [fs ms evs ps ak]. unfold undisturbed in Hf1. cbn in *. subst.
  destruct charging; unfold pubFeeEventWithReTry; repeat case_decide; eexists; by split_and!.
Qed.
(** A message whose event is in the ledger already changes nothing in it. *)
Lemma message_conflict charging data e w : undisturbed w → unmarshal_event data = Some e → checked e → ¬ clear e w →
  ∃ w', handleMsgWithRetry charging data w = (Ret tt, w') ∧ undisturbed w' ∧ meterings w' = meterings w.
Proof.
  intros Hf Hu Hck Hc. destruct (wp_run _ _ _ (handleMsgWithRetry_spec event_body unmarshal_event charging data w)) as (r & w' & Hrun & -> & Hh & _).
  exists w'. split; [done|]. split; [|destruct Hh as [(e' & He' & _ & Hno & _)|[Hm _]]; [|done]].
  - destruct (calmly_message charging data w Hf) as (Hf' & _). by rewrite Hrun in Hf'.
  - rewrite Hu in He'. simplify_eq. exfalso. apply Hc. exact (Hno Hck).
Qed.

(** Messages of distinct events, none in the ledger, are recorded in order. *)
Lemma messages_clear marshal charging es : ∀ w, undisturbed w → Forall (λ e, unmarshal_event (marshal e) = Some e) es →
  Forall (λ e, clear e w) es → (∀ i j e e', (i < j)%nat → es !! i = Some e → es !! j = Some e' → ¬ conflicts e' (metering_of e)) →
  ∃ w', handleMessages charging (marshal <$> es) w = (Ret tt, w') ∧ undisturbed w' ∧ meterings w' = meterings w ++ (metering_of <$> es).
Proof.
  induction es as [|e es IH]; intros w Hf Hu Hc Hd; cbn [fmap list_fmap Accounting.handleMessages].
  - exists w. by rewrite app_nil_r.
  - inversion Hu as [|?? Hu1 Hus]; subst. inversion Hc as [|?? Hc1 Hcs]; subst.
    destruct (message_clear charging (marshal e) e w Hf Hu1 Hc1) as (w1 & Hrun & Hf1 & Hm1).
    destruct (IH w1 Hf1 Hus) as (w2 & Hrun2 & Hf2 & Hm2).
    + apply Forall_forall. intros e' [j Hj]%list_elem_of_lookup_1 m. rewrite Hm1, elem_of_app. intros [Hm| ->%list_elem_of_singleton].
      * by apply (proj1 (Forall_forall _ _) Hcs e' (list_elem_of_lookup_2 _ _ _ Hj)).
      * by apply (Hd 0%nat (S j)); [lia|..].
    + intros i j a b Hij Ha Hb. by apply (Hd (S i) (S j)); [lia|..].
    + exists w2. split; [by rewrite (io_bind_run _ _ _ _ _ Hrun)|]. split; [done|]. rewrite Hm2, Hm1. by rewrite <-(assoc_L (++)).
Qed.
(** Events that are in the ledger may be delivered again. *)
Lemma messages_again marshal charging es : ∀ w, undisturbed w → Forall (λ e, unmarshal_event (marshal e) = Some e ∧ checked e ∧ metering_of e ∈ meterings w) es →
  ∃ w', handleMessages charging (marshal <$> es) w = (Ret tt, w') ∧ undisturbed w' ∧ meterings w' = meterings w.
Proof.
  induction es as [|e es IH]; intros w Hf He; cbn [fmap list_fmap Accounting.handleMessages]; [by exists w|].
  inversion He as [|?? (Hu & Hck & Hin) Hes]; subst.
  destruct (message_conflict charging (marshal e) e w Hf Hu Hck) as (w1 & Hrun & Hf1 & Hm1).
  { intros Hc. apply (Hc _ Hin). by left. }
  destruct (IH w1 Hf1) as (w2 & Hrun2 & Hf2 & Hm2); [by rewrite Hm1|].
  exists w2. split; [by rewrite (io_bind_run _ _ _ _ _ Hrun)|]. split; [done|]. by rewrite Hm2.
Qed.
End consumer.

(** ** The cycle, undisturbed *)

Section cycle.
Variable clock : nat → Z.
Variable new_uuid : nat → bytes.
Variable actual_replica : Deploy → Z.
Variable cfg : MeterConfig.
Abbreviation startAcctMeteringProcess := (startAcctMeteringProcess clock new_uuid actual_replica cfg).

Definition running (w : deploy_world) : list Deploy := filter (λ d, dp_Status d = Running) (dw_deploys w).
Definition evaluations (w : deploy_world) : list ArgoWorkflow := filter (λ a, aw_Status a = bs "Running") (tb_argo (dw_tables w)).
Definition resource_names (w : deploy_world) : gmap bytes bytes := foldl (λ m s, <[Itoa (sr_ID s) := sr_Name s]> m) ∅ (tb_skus (dw_tables w)).
Definition cluster_map (w : deploy_world) : gmap bytes ClusterInfo := foldl (λ m c, <[ci_ClusterID c := c]> m) ∅ (tb_clusters (dw_tables w)).

(** The instances a deployment is charged for: several nodes count as one. *)
Definition counted (d : Deploy) (h : HardWare) : Z := if decide (hw_Replicas h < 2 ∧ 0 < actual_replica d) then actual_replica d else 1.
Definition deploy_metered (w : deploy_world) (eventTime : Z) (k : nat) (d : Deploy) : option MeteringEvent :=
  '(name, scene, h) ← billable cfg (resource_names w) (cluster_map w) (clock k) d;
  Some (deploy_event cfg eventTime (new_uuid k) d name scene (counted d h)).
Definition evaluation_metered (w : deploy_world) (k : nat) (a : ArgoWorkflow) : option MeteringEvent :=
  c ← cluster_map w !! aw_ClusterID a;
  if decide (cluster_alive cfg (clock k) c ∧ Unix (clock k) - Unix (aw_StartTime a) ≤ 86400 * 2 ∧ 1 ≤ aw_ResourceId a) then
    Some (mk_event (new_uuid k) (aw_UserUUID a) (mc_SyncInterval cfg) TimeDurationMinType (scene_number SceneEvaluation) []
      (Itoa (aw_ResourceId a)) (aw_ResourceName a) (aw_TaskId a) (clock k) [])
  else None.
Fixpoint events_of {A} (g : nat → A → option MeteringEvent) (k : nat) (l : list A) : list MeteringEvent :=
  match l with [] => [] | a :: l => match g k a with Some e => [e] | None => [] end ++ events_of g (S k) l end.
Definition cycle_events (w : deploy_world) (eventTime : Z) : list MeteringEvent :=
  events_of (deploy_metered w eventTime) 0 (running w) ++ events_of (evaluation_metered w) (length (running w)) (evaluations w).

Lemma calm_each {A} (f : nat → A → pio (list MeteringEvent)) g w : (∀ k a, f k a w = (Ret (match g k a with Some e => [e] | None => [] end), w)) →
  ∀ l k, each f k l w = (Ret (events_of g k l), w).
Proof. intros Hf. induction l as [|a l IH]; intros k; [done|]. cbn [each]. rewrite (io_bind_run _ _ _ _ _ (Hf k a)). by rewrite (io_bind_run _ _ _ _ _ (IH (S k))). Qed.
Lemma calm_publish e w : calm w → PublishMeteringEvent e w = (Ret [e], w).
Proof.
  intros Hw. unfold PublishMeteringEvent. rewrite (io_bind_run _ _ _ true w); [done|]. cbn [publish_tries].
  by rewrite (io_bind_run _ _ _ _ _ (io_try_run _ _ _ _ (calm_fault w Hw))).
Qed.

Lemma calm_deploy w eventTime k d : calm w →
  startAcctMeteringRequest clock new_uuid actual_replica cfg (resource_names w) (cluster_map w) eventTime k d w =
  (Ret (match deploy_metered w eventTime k d with Some e => [e] | None => [] end), w).
Proof.
  intros Hw. unfold startAcctMeteringRequest, deploy_metered. destruct (billable _ _ _ _ d) as [[[name scene] h]|]; [|done]. cbn [mbind option_bind].
  rewrite (io_bind_run _ _ _ (counted d h) w); [by apply calm_publish|]. unfold replicas, counted. case_decide as Hn.
  - rewrite (io_bind_run _ _ _ _ _ (io_try_run _ _ _ _ (calm_fault w Hw))). case_decide; [by rewrite decide_True|rewrite decide_False; [done|tauto]].
  - rewrite decide_False; [done|tauto].
Qed.
Lemma calm_evaluation w k a : calm w →
  startAcctForEvaluations clock new_uuid cfg (cluster_map w) k a w = (Ret (match evaluation_metered w k a with Some e => [e] | None => [] end), w).
Proof.
  intros Hw. unfold startAcctForEvaluations, evaluation_metered. destruct (cluster_map w !! _) as [c|]; [|done]. cbn [mbind option_bind].
  case_decide as H1; [rewrite decide_False; [done|tauto]|]. case_decide as H2; [rewrite decide_False; [done|lia]|]. case_decide as H3; [rewrite decide_False; [done|lia]|].
  rewrite decide_True; [by apply calm_publish|]. split; [|lia]. destruct (decide (cluster_alive cfg (clock k) c)); tauto.
Qed.
Lemma calm_cycle w eventTime : calm w → startAcctMeteringProcess eventTime w = (Ret (cycle_events w eventTime), w).
Proof.
  intros Hw. unfold DpMeter.startAcctMeteringProcess.
  rewrite (io_bind_run _ _ _ (Ok (running w)) w); [|by apply io_try_run, calm_read].
  rewrite (io_bind_run _ _ _ (resource_names w) w); [|by unfold getResourceMap; rewrite (io_bind_run _ _ _ _ _ (io_try_run _ _ _ _ (calm_read _ _ Hw)))].
  rewrite (io_bind_run _ _ _ (cluster_map w) w); [|by unfold getClusterMap; rewrite (io_bind_run _ _ _ _ _ (io_try_run _ _ _ _ (calm_read _ _ Hw)))].
  rewrite (io_bind_run _ _ _ _ _ (calm_each _ _ w (λ k d, calm_deploy w eventTime k d Hw) _ 0)).
  rewrite (io_bind_run _ _ _ (Ok (evaluations w)) w); [|by apply io_try_run, calm_read].
  by rewrite (io_bind_run _ _ _ _ _ (calm_each _ _ w (λ k a, calm_evaluation w k a Hw) _ _)).
Qed.

(** *** What the events are *)

Lemma events_in {A} (g : nat → A → option MeteringEvent) l : ∀ k e, e ∈ events_of g k l ↔ ∃ i a, l !! i = Some a ∧ g (k + i)%nat a = Some e.
Proof.
  induction l as [|a l IH]; intros k e; cbn [events_of].
  - split; [set_solver|]. by intros (i & a & Hi & _).
  - rewrite elem_of_app, IH. split.
    + intros [He|(i & b & Hi & Hb)]; [exists 0%nat, a; rewrite Nat.add_0_r; destruct (g k a); set_solver|].
      exists (S i), b. by rewrite Nat.add_succ_r.
    + intros ([|i] & b & Hi & Hb); simplify_eq/=; [left; rewrite Nat.add_0_r in Hb; rewrite Hb; set_solver|].
      right. exists i, b. by rewrite Nat.add_succ_r in Hb.
Qed.
Lemma events_keys {A} (g : nat → A → option MeteringEvent) (key : A → bytes) l : (∀ k a e, g k a = Some e → ev_CustomerID e = key a) →
  ∀ k, sublist (ev_CustomerID <$> events_of g k l) (key <$> l).
Proof.
  intros Hg. induction l as [|a l IH]; intros k; [done|]. cbn [events_of]. rewrite fmap_app, fmap_cons. destruct (g k a) as [e|] eqn:He; cbn [fmap list_fmap app].
  - rewrite (Hg _ _ _ He). by apply sublist_skip.
  - by apply sublist_cons.
Qed.
Lemma events_uuids {A} (g : nat → A → option MeteringEvent) l : (∀ k a e, g k a = Some e → ev_Uuid e = new_uuid k) →
  ∀ k, sublist (ev_Uuid <$> events_of g k l) (new_uuid <$> seq k (length l)).
Proof.
  intros Hg. induction l as [|a l IH]; intros k; [done|]. cbn [events_of length seq]. rewrite fmap_app, fmap_cons. destruct (g k a) as [e|] eqn:He; cbn [fmap list_fmap app].
  - rewrite (Hg _ _ _ He). by apply sublist_skip.
  - by apply sublist_cons.
Qed.

Lemma valid_scene ty : GetValidSceneType ty ∈ [SceneSpace; SceneModelInference; SceneModelFinetune; SceneModelServerless; SceneUnknow].
Proof. destruct ty as [|p|p]; [set_solver| |set_solver]. do 3 (try destruct p as [p|p|]); cbn; set_solver. Qed.
Lemma billable_scene res cl now d name scene h : billable cfg res cl now d = Some (name, scene, h) →
  scene = SceneSpace ∨ scene = SceneModelInference ∨ scene = SceneModelFinetune.
Proof.
  unfold billable. destruct (cl !! _); [|done]. cbn [mbind option_bind]. do 2 (case_decide; [done|]). destruct (res !! _); [|done]. cbn [option_bind].
  pose proof (valid_scene (or_Type (dp_origin d))) as Hs. destruct (unmarshal_hardware _); cbn [option_bind];
    destruct (GetValidSceneType _); try done; try set_solver; intros [= <- <- <-]; auto.
Qed.
Lemma deploy_metered_event w eventTime k d e : deploy_metered w eventTime k d = Some e → ev_Uuid e = new_uuid k ∧ ev_CustomerID e = dp_SvcName d ∧ checked e.
Proof.
  unfold deploy_metered. destruct (billable _ _ _ _ d) as [[[name scene] h]|] eqn:Hb; [|done]. cbn. intros [= <-]. split_and!; [done|done|].
  apply billable_scene in Hb as [-> |[-> | ->]]; reflexivity.
Qed.
Lemma evaluation_metered_event w k a e : evaluation_metered w k a = Some e → ev_Uuid e = new_uuid k ∧ ev_CustomerID e = aw_TaskId a ∧ checked e.
Proof. unfold evaluation_metered. destruct (cluster_map w !! _); [|done]. cbn. case_decide; [|done]. by intros [= <-]. Qed.

Lemma cycle_checked w eventTime e : e ∈ cycle_events w eventTime → checked e.
Proof.
  unfold cycle_events. rewrite elem_of_app, !events_in. intros [(i & d & _ & He)|(i & a & _ & He)].
  - by apply deploy_metered_event in He as (_ & _ & ?).
  - by apply evaluation_metered_event in He as (_ & _ & ?).
Qed.
Lemma cycle_customers w eventTime : NoDup ((dp_SvcName <$> running w) ++ (aw_TaskId <$> evaluations w)) → NoDup (ev_CustomerID <$> cycle_events w eventTime).
Proof.
  intros Hnd. eapply sublist_NoDup; [exact Hnd|]. unfold cycle_events. rewrite fmap_app. apply sublist_app.
  - apply events_keys. intros k d e He. by apply deploy_metered_event in He as (_ & ? & _).
  - apply events_keys. intros k a e He. by apply evaluation_metered_event in He as (_ & ? & _).
Qed.
Lemma cycle_uuids w eventTime : Inj (=) (=) new_uuid → NoDup (ev_Uuid <$> cycle_events w eventTime).
Proof.
  intros Hinj. apply (sublist_NoDup _ (new_uuid <$> seq 0 (length (running w) + length (evaluations w)))); [apply NoDup_fmap_2, NoDup_seq; done|].
  rewrite seq_app. unfold cycle_events. rewrite !fmap_app. apply sublist_app.
  - apply events_uuids. intros k d e He. by apply deploy_metered_event in He as (? & _).
  - apply events_uuids. intros k a e He. by apply evaluation_metered_event in He as (? & _).
Qed.
Lemma distinct_no_conflict es i j e e' : NoDup (ev_Uuid <$> es) → NoDup (ev_CustomerID <$> es) → (i < j)%nat → es !! i = Some e → es !! j = Some e' →
  ¬ conflicts e' (metering_of e).
Proof.
  intros Hu Hc Hij Hi Hj [Heq|[Heq _]]; cbn in Heq; assert (i = j) as ->; try lia.
  - eapply (NoDup_lookup _ _ _ (ev_Uuid e) Hu); rewrite list_lookup_fmap; [by rewrite Hi|by rewrite Hj, Heq].
  - eapply (NoDup_lookup _ _ _ (ev_CustomerID e) Hc); rewrite list_lookup_fmap; [by rewrite Hi|by rewrite Hj, Heq].
Qed.

Lemma messages_app event_body unmarshal_event charging l k : ∀ a a1 r, handleMessages event_body unmarshal_event charging l a = (Ret tt, a1) →
  handleMessages event_body unmarshal_event charging k a1 = r → handleMessages event_body unmarshal_event charging (l ++ k) a = r.
Proof.
  induction l as [|d l IH]; intros a a1 r Hl Hk; cbn [app handleMessages] in *; [by injection Hl as <-|].
  apply bind_ret in Hl as ([] & a2 & Hd & Hl). rewrite (io_bind_run _ _ _ _ _ Hd). by eapply IH.
Qed.

(** C18: From the deployments that run to the ledger, undisturbed: the cycle
    publishes one event for each running deployment that can be billed, worth
    the interval for each of its instances; the consumer records each of them,
    and nothing more however often they are delivered again. *)
Theorem running_deployments_metered_once event_body unmarshal_event marshal charging w a eventTime redelivered :
  calm w → undisturbed a → Inj (=) (=) new_uuid → NoDup ((dp_SvcName <$> running w) ++ (aw_TaskId <$> evaluations w)) →
  let es := cycle_events w eventTime in
  Forall (λ e, unmarshal_event (marshal e) = Some e) es → Forall (λ e, clear e a) es → Forall (λ e, e ∈ es) redelivered →
  startAcctMeteringProcess eventTime w = (Ret es, w) ∧
  (∀ k d name scene h, running w !! k = Some d → billable cfg (resource_names w) (cluster_map w) (clock k) d = Some (name, scene, h) →
     ∃ e, e ∈ es ∧ ev_CustomerID e = dp_SvcName d ∧ ev_UserUUID e = op_UserUUID (dp_opts d) ∧ ev_Value e = i64 (mc_SyncInterval cfg * counted d h)) ∧
  (∃ a', handleMessages event_body unmarshal_event charging (marshal <$> es ++ redelivered) a = (Ret tt, a') ∧
     meterings a' = meterings a ++ (metering_of <$> es)).
Proof.
  intros Hw Ha Hinj Hnd es Hu Hc Hre. split; [by apply calm_cycle|]. split.
  - intros k d name scene h Hk Hb. exists (deploy_event cfg eventTime (new_uuid k) d name scene (counted d h)). split_and!; try done.
    unfold es, cycle_events. apply elem_of_app. left. apply events_in. exists k, d. split; [done|]. change (0 + k)%nat with k. unfold deploy_metered. by rewrite Hb.
  - destruct (messages_clear event_body unmarshal_event marshal charging es a Ha Hu Hc) as (a1 & Hrun & Ha1 & Hm1).
    { intros i j e e' Hij Hi Hj. by eapply distinct_no_conflict; [apply cycle_uuids|apply cycle_customers|..]. }
    destruct (messages_again event_body unmarshal_event marshal charging redelivered a1 Ha1) as (a2 & Hrun2 & _ & Hm2).
    { eapply Forall_impl; [exact Hre|]. intros e He. split_and!; [by apply (proj1 (Forall_forall _ _) Hu)|exact (cycle_checked w eventTime e He)|].
      rewrite Hm1. apply elem_of_app. right. by apply list_elem_of_fmap_2. }
    exists a2. split; [rewrite fmap_app; by eapply messages_app|by rewrite Hm2].
Qed.
End cycle.
