(* ===== verification/DpExample.v ===== *)
(** A space, its user, cluster and resources: the theorems on deployments at
    work on them. *)
From S2P Require Import Prelude GoLib GoJson Sensitive Accounting AccountingSpec DpEnv DpTask DpFlow DpOps DpMeter DpFlowSpec DpRunSpec DpStateSpec DpSettleSpec DpEnvSpec DpOpsSpec DpMeterSpec.
Open Scope Z_scope.

(** ** The rows *)

Definition quoted (s : string) : bytes := ["034"%char] ++ bs s ++ ["034"%char].
Definition ex_env : bytes := bs "{" ++ quoted "ACCESS_TOKEN" ++ bs ":" ++ quoted "mine" ++ bs "," ++ quoted "MODE" ++ bs ":" ++ quoted "fast" ++ bs "}".
Definition ex_opts : Options :=
  mk_options (bs "u-1") (bs "3") [] ex_env (bs "{}") [] [] 0 8080 [] 1 1 [] [] (bs "c1") [].
Definition ex_origin : Origin := mk_origin (bs "demo") 7 (bs "ann/demo") (bs "main") 0 1 70 SpaceType 0.
Definition ex_deploy (status : Z) : Deploy := mk_deploy 1 status (bs "image") (bs "u-ann-demo-7") [] [] [] [] [] [] 0 ex_opts ex_origin.
Definition ex_task (id type status : Z) : DeployTask := mk_task id type status [] 1 0.
Definition ex_tables : Tables := mk_tables
  [mk_space 7 (bs "gradio") (bs "4") [] (mk_reporow 70 (bs "ann/demo") (bs "demo") (bs "ann"))] [] [mk_tokenrow 1 (bs "ann") (bs "secret")] [] []
  [mk_cluster (bs "c1") true (bs "Running") 0] [mk_userrow 1 (bs "ann") (bs "u-1") []] [] [mk_sku 3 (bs "cpu")] [].
Definition ex_world (deploys : list Deploy) (tasks : list DeployTask) (faults : list (option derr)) : deploy_world :=
  mk_dw deploys tasks 10 [] ex_tables [] [] [] faults.

Definition ex_commit (_ _ _ _ : bytes) : bytes := bs "0123456789abcdef".
Definition ex_cfg : DeployConfig := mk_dcfg (mk_ecfg true (bs "http://hub") []) (bs "http://hub") 30 30 30.
Abbreviation ex_workflow := (DeployWorkflow id app app ex_commit (λ _, []) rn_SvcName ex_cfg).
Abbreviation ex_activity := (DeployActivity id app app ex_commit (λ _, []) rn_SvcName ex_cfg).

(** ** A deployment created and run *)

Definition ex_request : DeployRepo := mk_repo_req ex_opts ex_origin (bs "image").
(** The answer to the first start is lost, so the workflow is started twice. Its
    request to run fails twice in transit, and so does the record of that; the
    next attempt is answered. *)
Definition ex_down : option derr := Some (DText (bs "timeout")).
Definition ex_faults : list (option derr) := replicate 6 None ++ [ex_down] ++ replicate 12 None ++ [ex_down; ex_down; ex_down].
Definition ex_created : deploy_world := perform id (ODeploy 0 [] ex_request) (ex_world [] [] ex_faults).
Definition ex_built : deploy_world := snd (ex_workflow Heartbeat 0 (Some 11) 12 (WBuild 1) ex_created).
Definition ex_failed : deploy_world := snd (ex_workflow Heartbeat 0 (Some 11) 12 (WRun 1) ex_built).
Definition ex_ran : deploy_world := snd (ex_workflow Heartbeat 0 (Some 11) 12 (WRun 2) ex_failed).

Lemma runner_asked_bounded_witness : ∃ fl,
  rtc (sys_step id app app ex_commit (λ _, []) rn_SvcName ex_cfg) (ex_world [] [] ex_faults, []) (ex_ran, fl) ∧
  starts 12 (dw_workflows ex_ran) = 2%nat ∧ runs 12 ex_ran = 3%nat ∧
  (starts 12 (dw_workflows ex_ran) ≤ 3 ∧ runs 12 ex_ran ≤ 6 * starts 12 (dw_workflows ex_ran))%nat.
Proof.
  eexists.
  assert (rtc (sys_step id app app ex_commit (λ _, []) rn_SvcName ex_cfg) (ex_world [] [] ex_faults, [])
    (ex_ran, <[0%nat := WDone]> (<[0%nat := WRun 2]> (<[0%nat := WRun 1]> ([] ++ started 0 ex_created) ++ started 2 ex_built) ++ started 2 ex_failed) ++ started 2 ex_ran)) as Hreach.
  { eapply rtc_l; [apply (step_operation _ _ _ _ _ _ _ (ODeploy 0 [] ex_request))|].
    eapply rtc_l; [apply (step_workflow _ _ _ _ _ _ _ 0 (Some 11) 12 (WBuild 1) Heartbeat 0); vm_compute; reflexivity|].
    eapply rtc_l; [apply (step_workflow _ _ _ _ _ _ _ 0 (Some 11) 12 (WRun 1) Heartbeat 0); vm_compute; reflexivity|].
    eapply rtc_l; [apply (step_workflow _ _ _ _ _ _ _ 0 (Some 11) 12 (WRun 2) Heartbeat 0); vm_compute; reflexivity|]. apply rtc_refl. }
  split; [exact Hreach|]. split; [vm_compute; reflexivity|]. split; [vm_compute; reflexivity|]. by eapply runner_asked_bounded; [..|exact Hreach].
Defined.

(** ** States *)

(** Two runs of one deployment: the first is replaced, and asks the runner
    all the same. *)
Definition ex_two_runs : deploy_world := ex_world [ex_deploy Running] [ex_task 2 1 0; ex_task 5 1 0] [].
Lemma ex_superseded : superseded 2 1 1 ex_two_runs.
Proof.
  split.
  - intros t Ht. cbn in Ht. repeat (apply elem_of_cons in Ht as [-> |Ht]; [by cbn|]). set_solver.
  - exists (ex_task 5 1 0). split_and!; [set_solver|done..].
Qed.
Lemma superseded_task_leaves_deployments_witness :
  superseded 2 1 1 ex_two_runs ∧ dw_deploys (snd (ex_workflow Heartbeat 0 None 2 (WRun 1) ex_two_runs)) = dw_deploys ex_two_runs ∧
  length (dw_calls (snd (ex_workflow Heartbeat 0 None 2 (WRun 1) ex_two_runs))) = 1%nat.
Proof.
  split; [exact ex_superseded|]. split; [|vm_compute; reflexivity].
  destruct (superseded_task_leaves_deployments 2 1 1 id app app ex_commit (λ _, []) rn_SvcName ex_cfg ex_two_runs ex_superseded) as (H & _).
  by apply (H Heartbeat 0 None 2 (WRun 1)).
Defined.

(** A build queued, told to run, to succeed, and, late, to fail. *)
Definition ex_build (deploy task : Z) : deploy_world := ex_world [ex_deploy deploy] [ex_task 3 0 task] [].
Definition ex_event (status : string) : ImageBuilderEvent := mk_bevt 3 (bs status) (bs "m") (bs "image:2").
Definition ex_events : list ImageBuilderEvent := [ex_event "Running"; ex_event "Succeeded"; ex_event "Failed"].
Lemma ex_build_keyed deploy task : TaskStatusCancelled ≤ task ≤ TaskStatusBuildInQueue → keyed (ex_build deploy task).
Proof. intros Ht. split; cbn; [apply NoDup_singleton..|]. by constructor. Qed.
Lemma build_events_move_on_witness :
  let w' := foldl (λ w e, snd (builder_event e w)) (ex_build BuildInQueue TaskStatusBuildInQueue) ex_events in
  keyed (ex_build BuildInQueue TaskStatusBuildInQueue) ∧ rows_move (ex_build BuildInQueue TaskStatusBuildInQueue) w' ∧
  dt_Status <$> dw_tasks w' = [TaskStatusBuildSucceed] ∧ (λ d, (dp_Status d, dp_ImageID d)) <$> dw_deploys w' = [(BuildSuccess, bs "image:2")].
Proof.
  intros w'. assert (keyed (ex_build BuildInQueue TaskStatusBuildInQueue)) as Hk by (apply ex_build_keyed; unfold TaskStatusCancelled, TaskStatusBuildInQueue; lia).
  split; [done|]. split; [exact (proj1 (build_events_move_on ex_events _ Hk))|]. split; vm_compute; reflexivity.
Defined.

(** The builder never answers, and the database fails in between. *)
Definition ex_stuck : deploy_world := ex_world [ex_deploy Pending] [ex_task 3 0 0; ex_task 4 1 0] [None; Some NoRows; None; None; None; None; Some NoRows].
Lemma ex_late : late ex_cfg (31 * Minute) ex_stuck.
Proof.
  intros t Ht m Hm. cbn in Ht. repeat (apply elem_of_cons in Ht as [-> |Ht]; [cbn in *; repeat (apply elem_of_cons in Hm as [-> |Hm]; [vm_compute; reflexivity|]); set_solver|]). set_solver.
Qed.
Lemma workflow_settles_witness :
  late ex_cfg (31 * Minute) ex_stuck ∧ at_rest (drive id app app ex_commit (λ _, []) rn_SvcName ex_cfg (31 * Minute) 9 (Some 3) 4 (wf_start (Some 3) 4) ex_stuck).1.
Proof. split; [exact ex_late|]. exact (workflow_settles id app app ex_commit (λ _, []) rn_SvcName ex_cfg (31 * Minute) (Some 3) 4 ex_stuck ex_late). Defined.

(** ** Names, environments, nodes *)

Lemma service_name_roundtrip_witness :
  UniqueSpaceAppName id (bs "u") (bs "Ann_B") (bs "my.demo") 12345 = Some (bs "u-ann-b-my-demo-9ix") ∧
  ∃ svc, UniqueSpaceAppName id (bs "u") (bs "Ann_B") (bs "my.demo") 12345 = Some svc ∧ len svc ≤ 63 ∧ parseUniqueSpaceAppName svc = 12345 ∧
    "_"%char ∉ svc ∧ "."%char ∉ svc.
Proof.
  split; [vm_compute; reflexivity|].
  apply (service_name_roundtrip id (bs "u") (bs "Ann_B") (bs "my.demo") 12345); [..|reflexivity|lia]; apply (bool_decide_eq_true_1 (plain _)); vm_compute; reflexivity.
Defined.

Definition ex_info : DeployInfo := info_of (ex_deploy Pending).
Definition ex_repo : RepoInfo := createSpaceRepoInfo ex_cfg (mk_space 7 (bs "gradio") (bs "4") [] (mk_reporow 70 (bs "ann/demo") (bs "demo") (bs "ann"))) 1.
Definition ex_hardware : HardWare := default (mk_hardware (mk_processor [] [] [] [] []) (mk_processor [] [] [] [] []) (mk_processor [] [] [] [] []) (mk_processor [] [] [] [] []) (mk_processor [] [] [] [] []) (mk_processor [] [] [] [] []) [] [] [] [] 0) (unmarshal_hardware (bs "{}")).
Definition ex_made (d : DeployInfo) : outcome derr (gmap bytes bytes) :=
  makeDeployEnv id app app (dc_env ex_cfg) ex_hardware (bs "ann") (bs "secret") d [] ∅ ex_repo (Ok (bs "0123456789")) [].
(** The user's own token is not used. *)
Lemma ex_makes : ∃ platform, ex_made (without_user_env ex_info) = Ret platform.
Proof.
  unfold ex_made. rewrite makeDeployEnv_layers. destruct (git_env _ _ _ _ _ _) as [git|e|] eqn:Hg; [eexists; reflexivity|vm_compute in Hg; discriminate..].
Qed.
Lemma platform_env_wins_witness : ∃ platform, ex_made (without_user_env ex_info) = Ret platform ∧
  platform !! bs "ACCESS_TOKEN" = Some (bs "secret") ∧ platform !! bs "S3_INTERNAL" = Some (bs "true") ∧ platform !! bs "REPO_ID" = Some (bs "ann/demo").
Proof.
  destruct ex_makes as [platform Hp]. exists platform. split; [exact Hp|].
  exact (proj2 (platform_env_wins id app app (dc_env ex_cfg) ex_hardware (bs "ann") (bs "secret") ex_info [] ∅ ex_repo (Ok (bs "0123456789")) []) platform Hp).
Defined.
Example ex_own_token : user_map (di_Env ex_info) !! bs "ACCESS_TOKEN" = Some (bs "mine").
Proof. vm_compute. reflexivity. Qed.

Lemma node_list_doubles_witness : length (Split (foldl add_node [] [bs "n1"; bs "n2"; bs "n3"]) (bs ",")) = 7%nat ∧
  foldl add_node [] [bs "n1"; bs "n2"; bs "n3"] = bs "n1,n1,n2,n1,n1,n2,n3".
Proof.
  split; [|vm_compute; reflexivity].
  refine (node_list_doubles [bs "n1"; bs "n2"; bs "n3"] _ _ _); [done|apply (bool_decide_eq_true_1 _); vm_compute; reflexivity|].
  repeat constructor; try done; apply (bool_decide_eq_true_1 (_ ∉ _)); vm_compute; reflexivity.
Defined.

(** ** Operations *)

Definition ex_act : DeployActReq := mk_act (bs "ann") 1 InferenceType.
Definition ex_running : deploy_world := ex_world [ex_deploy Running] [ex_task 2 1 1] [].
Lemma start_restarts_running_witness : ∃ w',
  DeployStart 0 60 Running None ex_act ex_running = (Ret tt, w') ∧
  dw_calls w' = [] ++ [CExist (bs "u-ann-demo-7"); CStop (bs "u-ann-demo-7")] ∧
  dw_deploys w' = put_deploy (set_dp_Status Pending (ex_deploy Running)) (dw_deploys ex_running) ∧
  dw_workflows w' = [] ++ [(None, 10)].
Proof.
  apply (start_restarts_running 0 60 Running ex_act ex_running (mk_userrow 1 (bs "ann") (bs "u-1") []) (ex_deploy Running)
    (mk_cluster (bs "c1") true (bs "Running") 0) (mk_sku 3 (bs "cpu")) 3); try reflexivity; discriminate.
Defined.

Definition ex_failing_stop : deploy_world := ex_world [ex_deploy Running] [] [None; Some (DText (bs "runner down"))].
Lemma failed_stop_marks_stopped_witness : ∃ w', stopSpaceDeploy 7 ex_failing_stop = (Ret tt, w') ∧ dw_calls w' = [] ++ [CStop (bs "u-ann-demo-7")] ∧
  dw_deploys w' = (λ x, if decide (dp_ID x = 1) then set_dp_Status Stopped x else x) <$> [ex_deploy Running].
Proof.
  apply (failed_stop_marks_stopped 7 ex_failing_stop (ex_deploy Running) (DText (bs "runner down"))); try reflexivity; [apply NoDup_singleton|by left|discriminate].
Defined.

(** The first attempt is refused, the second reports success. *)
Definition ex_asking : deploy_world := ex_world [ex_deploy Pending] [ex_task 2 1 0] [None; Some (DText (bs "no capacity"))].
Definition ex_sent : RunRequest := mk_run 7 (bs "ann") (bs "demo") [] [] ∅ ex_hardware ∅ [] [] (bs "image") 1 1 1 [] [] (bs "u-ann-demo-7") 0 [] [] 0 2 [].
Definition ex_refused : deploy_world := snd (ask_runner rn_SvcName (ex_task 2 1 0) (ex_deploy Pending) ex_sent ex_asking).
Lemma refused_run_reported_done_witness :
  (∀ x, x ∈ dw_tasks ex_refused → dt_ID x = 2 → dt_Status x = TaskStatusDeployFailed ∧ dt_Message x = bs "no capacity") ∧
  dw_calls ex_refused = [] ++ [CRun ex_sent].
Proof.
  destruct (refused_run_reported_done id app app ex_commit (λ _, []) rn_SvcName ex_cfg ex_asking (ex_task 2 1 0) (ex_deploy Pending) ex_sent (DText (bs "no capacity")) [])
    as (_ & Hcalls & Htasks & _ & _); [reflexivity|reflexivity|exists (ex_task 2 1 0); split; reflexivity|]. split; [exact Htasks|exact Hcalls].
Defined.
Example ex_reported_done : fst (ex_workflow Heartbeat 0 None 2 (WRun 2) ex_refused) = Ret WDone.
Proof. vm_compute. reflexivity. Qed.

Definition ex_queued : deploy_world := ex_build BuildInQueue TaskStatusBuildInQueue.
Definition ex_poll : poll_state := mk_poll (ex_task 3 0 0) (ex_deploy Pending) (mk_build [] [] [] [] [] [] [] [] [] [] [] [] [] 3 70).
Lemma early_success_times_out_witness :
  builder_event (ex_event "Succeeded") ex_queued = (Ret tt, ex_queued) ∧
  ∃ w', pollBuildStatus ex_cfg ex_poll (StatusTick (31 * Minute)) ex_queued = (Ret false, w') ∧
    (∀ x, x ∈ dw_tasks w' → dt_ID x = 3 → dt_Status x = TaskStatusBuildFailed ∧ dt_Message x = bs "build task timeout") ∧
    (∀ x, x ∈ dw_deploys w' → dp_ID x = 1 → dp_Status x = BuildFailed).
Proof.
  apply (early_success_times_out ex_cfg (ex_event "Succeeded") ex_queued (ex_task 3 0 TaskStatusBuildInQueue) (ex_deploy BuildInQueue) ex_poll (31 * Minute)); try reflexivity.
  exists (ex_task 3 0 TaskStatusBuildInQueue). split; reflexivity.
Defined.

(** ** A cycle of metering, recorded *)

Definition ex_mcfg : MeterConfig := mk_mcfg 5 60 [].
Definition ex_uuid (k : nat) : bytes := replicate k "x"%char.
Definition ex_cycle : list MeteringEvent := cycle_events (λ _, 0) ex_uuid (λ _, 3) ex_mcfg ex_running 0.
Definition ex_ledger : world := mk_world [] [] [] [] 0.
Definition ex_decode (data : bytes) : option MeteringEvent := found_by (λ e, ev_Uuid e = data) ex_cycle.

(** Three instances for five minutes. *)
Definition ex_metered : MeteringEvent := mk_event [] (bs "u-1") 15 TimeDurationMinType 11 [] (bs "3") (bs "cpu") (bs "u-ann-demo-7") 0 [].
Example ex_cycle_value : ex_cycle = [ex_metered].
Proof. vm_compute. reflexivity. Qed.

Lemma running_deployments_metered_once_witness :
  startAcctMeteringProcess (λ _, 0) ex_uuid (λ _, 3) ex_mcfg 0 ex_running = (Ret ex_cycle, ex_running) ∧
  ∃ a', handleMessages (λ _, ∅) ex_decode true (ev_Uuid <$> ex_cycle ++ [ex_metered; ex_metered]) ex_ledger = (Ret tt, a') ∧
    meterings a' = [] ++ (metering_of <$> ex_cycle).
Proof.
  destruct (running_deployments_metered_once (λ _, 0) ex_uuid (λ _, 3) ex_mcfg (λ _, ∅) ex_decode ev_Uuid true ex_running ex_ledger 0 [ex_metered; ex_metered]) as (Hc & _ & Ha).
  - reflexivity.
  - reflexivity.
  - intros x y Hxy. apply (f_equal length) in Hxy. unfold ex_uuid in Hxy. by rewrite !length_replicate in Hxy.
  - apply NoDup_singleton.
  - change (cycle_events _ _ _ _ _ _) with ex_cycle. rewrite ex_cycle_value. constructor; [|constructor]. unfold ex_decode. rewrite ex_cycle_value. reflexivity.
  - apply Forall_forall. intros e _ m Hm. by apply elem_of_nil in Hm.
  - change (cycle_events _ _ _ _ _ _) with ex_cycle. rewrite ex_cycle_value. repeat constructor; by left.
  - split; [exact Hc|exact Ha].
Defined.
