(* ===== verification/Errorx.v ===== *)
(** Errors (common/errorx): error codes, wrapping, [errors.Is] and what a
    response tells of an error (api/httpbase/response.go). *)
From S2P Require Import Prelude GoLib GoJsonText.
Open Scope Z_scope.

(** ** Errors as values

    A package's error variable ([Sentinel], compared by identity), an error
    made where it occurs, one wrapped with %w, several joined in one text (by
    errors.Join, or by more than one %w), and the two types of the package. The context of a custom error is only formatted into responses,
    and left out. *)
Inductive goerr :=
  | Sentinel (name : bytes)
  | NewError (m : bytes)
  | Errorf (prefix : bytes) (e : goerr)
  | Joined (text : bytes) (es : list goerr)
  | CustomError (prefix : bytes) (code : Z) (err : option goerr)
  | HTTPError (StatusCode : Z) (Message : bytes).

Definition ErrNoRows : goerr := Sentinel (bs "sql: no rows in result set").
Definition ErrNotFound : goerr := Sentinel (bs "not found").
Definition ErrAlreadyExists : goerr := Sentinel (bs "the record already exists").
Definition ErrContentLengthTooLarge : goerr := Sentinel (bs "content length too large").

Definition errAuthPrefix : bytes := bs "AUTH-ERR".
Definition ErrUnauthorized : goerr := CustomError errAuthPrefix 0 None.
Definition ErrUserNotFound : goerr := CustomError errAuthPrefix 1 None.
Definition ErrForbidden : goerr := CustomError errAuthPrefix 2 None.
Definition ErrInvalidAuthHeader : goerr := CustomError errAuthPrefix 5 None.
Definition ErrForbiddenMsg (msg : bytes) : goerr := CustomError errAuthPrefix 2 (Some (NewError msg)).

Definition errSysPrefix : bytes := bs "SYS-ERR".
Definition InternalServerError (e : goerr) : goerr := CustomError errSysPrefix 0 (Some e).
Definition RemoteSvcFail (e : goerr) : goerr := CustomError errSysPrefix 1 (Some e).
Definition LastOrgAdmin (e : goerr) : goerr := CustomError errSysPrefix 6 (Some e).
Definition CannotPromoteSelfToAdmin (e : goerr) : goerr := CustomError errSysPrefix 7 (Some e).

Definition errGitPrefix : bytes := bs "GIT-ERR".
Definition ErrServiceUnavaliable : goerr := CustomError errGitPrefix 34 None.
Definition ErrUsingGitInXnetRepository : goerr := CustomError errGitPrefix 37 None.

(** ** The methods of an error *)

Definition Code_of (prefix : bytes) (code : Z) : bytes := prefix ++ bs "-" ++ Itoa code.
Fixpoint Error (e : goerr) : bytes :=
  match e with
  | Sentinel m | NewError m => m
  | Errorf p e => p ++ Error e
  | Joined m _ => m
  | CustomError p c None => Code_of p c
  | CustomError p c (Some e) => Code_of p c ++ bs ": " ++ Error e
  | HTTPError s m => bs "StatusCode: " ++ Itoa s ++ bs ", Message: " ++ m
  end.
(** [None] is a nil error. *)
Definition Unwrap (e : goerr) : option goerr :=
  match e with Errorf _ e => Some e | CustomError _ _ o => o | _ => None end.

(** [errors.Is]: identity, or the error's own [Is], in the tree of errors. *)
Definition same_error (e target : goerr) : bool :=
  match e, target with
  | Sentinel m, Sentinel n => bool_decide (m = n)
  | CustomError p c _, CustomError q d _ => bool_decide (p = q ∧ c = d)
  | _, _ => false
  end.
Fixpoint Is (e target : goerr) : bool :=
  same_error e target ||
  match e with
  | Errorf _ e | CustomError _ _ (Some e) => Is e target
  | Joined _ es => existsb (λ e, Is e target) es
  | _ => false
  end.

(** ** error.go *)

(** The error and all it wraps, outermost first; joined errors one after the
    other. *)
Fixpoint UnwrapAllError (e : goerr) : list goerr :=
  e :: match e with Errorf _ e | CustomError _ _ (Some e) => UnwrapAllError e | Joined _ es => flat_map UnwrapAllError es | _ => [] end.
Definition is_custom (e : goerr) : bool := match e with CustomError _ _ _ => true | _ => false end.
Definition GetCustomErrors (e : goerr) : list goerr := filter is_custom (reverse (UnwrapAllError e)).
(** The innermost custom error, or the error itself. *)
Definition GetFirstCustomError (e : goerr) : goerr * bool :=
  match GetCustomErrors e with c :: _ => (c, true) | [] => (e, false) end.
(** What it ends in; a custom error that wraps nothing leaves a nil error, and
    joined errors are not looked into. *)
Fixpoint UnwrapError (e : goerr) : option goerr :=
  match e with
  | Errorf _ e | CustomError _ _ (Some e) => UnwrapError e
  | CustomError _ _ None => None
  | _ => Some e
  end.

(** ** errorx.go *)

Definition upper (c : ascii) : bool := bool_decide (65 ≤ byte_Z c ≤ 90).
(** The two groups of the pattern ^([A-Z]+-ERR)-(\d+)$. *)
Definition error_code_match (s : bytes) : option (bytes * bytes) :=
  '(letters, rest) ← Cut s (bs "-");
  '(err, digits) ← Cut rest (bs "-");
  if decide (letters ≠ [] ∧ forallb upper letters ∧ err = bs "ERR" ∧ digits ≠ [] ∧ forallb (λ c, if digit c then true else false) digits)
  then Some (letters ++ bs "-ERR", digits) else None.
Definition IsValidErrorCode (code : bytes) : bool := if error_code_match code then true else false.
(** The default's prefix and code when the code cannot be read. *)
Definition ParseError (errorCode : bytes) (prefix : bytes) (code : Z) : goerr :=
  match error_code_match errorCode with
  | Some (p, digits) => match Atoi digits with Some n => CustomError p n None | None => CustomError prefix code None end
  | None => CustomError prefix code None
  end.

(** ** error_system.go *)

Definition databaseFailure : Z := 2.
Definition databaseNoRows : Z := 3.
Definition databaseDuplicateKey : Z := 4.
Definition HandleDBError (e : goerr) : goerr :=
  if Is e ErrNoRows then CustomError errSysPrefix databaseNoRows (Some e)
  else if Contains (Error e) (bs "duplicate key value") then CustomError errSysPrefix databaseDuplicateKey (Some e)
  else CustomError errSysPrefix databaseFailure (Some e).

(** ** api/httpbase/response.go *)

(** What the functions for each status write: code and message. *)
Definition error_response (e : goerr) : option bytes * bytes :=
  match GetFirstCustomError e with
  | (CustomError p c o, true) => (Some (Code_of p c), Error (CustomError p c o))
  | (e, _) => (None, Error e)
  end.

(** * What a client makes of an error response: the innermost custom error of
    what the handler returned, and no other. *)

(** Induction on the tree of errors. *)
Lemma goerr_ind' (P : goerr → Prop) : (∀ n, P (Sentinel n)) → (∀ m, P (NewError m)) → (∀ p e, P e → P (Errorf p e)) →
  (∀ m es, Forall P es → P (Joined m es)) → (∀ p c, P (CustomError p c None)) → (∀ p c e, P e → P (CustomError p c (Some e))) →
  (∀ s m, P (HTTPError s m)) → ∀ e, P e.
Proof.
  intros Hn Hm Hf Hj Hc Hs Hh. fix IH 1. intros [n|m|p e|m es|p c [e|]|s m]; [apply Hn|apply Hm|apply Hf, IH| |apply Hs, IH|apply Hc|apply Hh].
  apply Hj. induction es as [|e es IHes]; constructor; [apply IH|exact IHes].
Qed.

(** A prefix and code that the pattern of codes admits. *)
Definition letters_ERR (letters : bytes) : bytes := letters ++ bs "-ERR".
Definition code_ok (letters : bytes) (code : Z) : Prop := letters ≠ [] ∧ forallb upper letters = true ∧ 0 ≤ code < 2 ^ 63.

Lemma upper_no_dash letters : forallb upper letters = true → "-"%char ∉ letters.
Proof.
  rewrite forallb_forall. intros Hall Hin%list_elem_of_In. specialize (Hall _ Hin). apply bool_decide_eq_true in Hall. vm_compute in Hall. intuition congruence.
Qed.
Lemma Itoa_digits z : 0 ≤ z → Itoa z ≠ [] ∧ forallb (λ c, if digit c then true else false) (Itoa z) = true.
Proof.
  intros Hz. rewrite Itoa_cases. rewrite decide_False by lia. destruct (nat_text_spec (Z.to_N z)) as (c & l & -> & Hall & _). split; [done|].
  apply forallb_forall. intros d Hd%list_elem_of_In. rewrite Forall_forall in Hall. specialize (Hall d Hd). apply bool_decide_eq_true in Hall.
  unfold digit. by rewrite decide_True.
Qed.
(** The code of an error is read as the error's prefix and code. *)
Lemma match_Code letters code : code_ok letters code → error_code_match (Code_of (letters_ERR letters) code) = Some (letters_ERR letters, Itoa code).
Proof.
  intros (Hne & Hup & Hc). destruct (Itoa_digits code) as (Hd & Hall); [lia|]. unfold error_code_match, Code_of, letters_ERR.
  rewrite <- !(assoc_L (++)). change (bs "-ERR" ++ bs "-" ++ Itoa code) with ("-"%char :: bs "ERR" ++ "-"%char :: Itoa code).
  change (bs "-") with ["-"%char]. rewrite Cut_byte_app by by apply upper_no_dash. cbn [mbind option_bind]. rewrite Cut_byte_app by (vm_compute; set_solver).
  cbn [mbind option_bind]. rewrite decide_True by (split_and!; done || by rewrite ?Hup, ?Hall). done.
Qed.

(** An error with no custom error in it. *)
Fixpoint custom_free (e : goerr) : bool :=
  match e with
  | CustomError _ _ _ => false
  | Errorf _ e => custom_free e
  | Joined _ es => forallb custom_free es
  | _ => true
  end.
(** The innermost custom error of an error: one that has no further one in it,
    under whatever wraps it, and of joined errors in the last that has any. *)
Inductive innermost : goerr → goerr → Prop :=
  | innermost_bare p c : innermost (CustomError p c None) (CustomError p c None)
  | innermost_last p c e : custom_free e = true → innermost (CustomError p c (Some e)) (CustomError p c (Some e))
  | innermost_custom p c e t : innermost e t → innermost (CustomError p c (Some e)) t
  | innermost_wrapped p e t : innermost e t → innermost (Errorf p e) t
  | innermost_joined m l e r t : innermost e t → forallb custom_free r = true → innermost (Joined m (l ++ e :: r)) t.

Lemma Is_head e t : same_error e t = true → Is e t = true.
Proof. intros Ht. destruct e as [| |? ?|? ?|? ? []|]; apply orb_true_iff; by left. Qed.
Lemma innermost_Is e t x : innermost e t → same_error t x = true → Is e x = true.
Proof.
  induction 1 as [p c|p c e|p c e t _ IH|p e t _ IH|m l e r t _ IH _]; intros Hx; [by apply Is_head|by apply Is_head|apply orb_true_iff; right; auto..|].
  apply orb_true_iff. right. apply existsb_exists. exists e. split; [|by auto]. apply list_elem_of_In. set_solver.
Qed.
Lemma is_custom_innermost e t : innermost e t → is_custom t = true.
Proof. by induction 1. Qed.

(** The custom errors of the list the code walks. *)
Lemma custom_free_none e : custom_free e = true → filter is_custom (UnwrapAllError e) = [].
Proof.
  induction e as [n|m|p e IH|m es IH|p c|p c e IH|s m] using goerr_ind'; cbn [custom_free UnwrapAllError]; intros Hf; try done; rewrite filter_cons_False by (by intros []); [by apply IH|].
  induction IH as [|e es IHe _ IHes]; [done|]. cbn [forallb flat_map] in *. apply andb_true_iff in Hf as [He Hes].
  rewrite filter_app, IHe by done. by apply IHes.
Qed.
Lemma custom_free_all es : forallb custom_free es = true → filter is_custom (flat_map UnwrapAllError es) = [].
Proof. intros Hf. pose proof (custom_free_none (Joined [] es) Hf) as H. cbn [UnwrapAllError] in H. by rewrite filter_cons_False in H by (by intros []). Qed.
Lemma innermost_listed e t : innermost e t → ∃ l, filter is_custom (UnwrapAllError e) = l ++ [t].
Proof.
  induction 1 as [p c|p c e Hf|p c e t _ (l & IH)|p e t _ (l & IH)|m l e r t _ (l' & IH) Hr]; cbn [UnwrapAllError].
  - by exists [].
  - exists []. by rewrite filter_cons_True, custom_free_none.
  - eexists (_ :: l). rewrite filter_cons_True by done. by rewrite IH.
  - exists l. by rewrite filter_cons_False by (by intros []).
  - eexists. rewrite filter_cons_False by (by intros []). rewrite flat_map_app, filter_app. cbn [flat_map].
    rewrite filter_app, (custom_free_all r Hr), app_nil_r, IH. apply (assoc_L (++)).
Qed.
(** Every error has an innermost custom error or none at all. *)
Lemma innermost_or_free e : custom_free e = true ∨ ∃ p c o, innermost e (CustomError p c o).
Proof.
  induction e as [n|m|p e IH|m es IH|p c|p c e IH|s m] using goerr_ind'; [by left|by left| | | | |by left].
  - destruct IH as [?|(q & d & o & ?)]; [by left|right]. exists q, d, o. by constructor.
  - induction IH as [|e es IHe _ [IHes|(q & d & o & IHes)]]; [by left|..].
    + destruct IHe as [He|(q & d & o & He)]; [left; cbn in *; by rewrite He|right]. exists q, d, o. by apply (innermost_joined m [] e es).
    + right. exists q, d, o. inversion IHes as [| | | |m' l x r t Hx Hr]; subst. by apply (innermost_joined m (e :: l) x r).
  - right. exists p, c, None. constructor.
  - right. destruct IH as [?|(q & d & o & ?)]; [exists p, c, (Some e)|exists q, d, o]; by constructor.
Qed.

(** C24: An error response carries the code and the text of the innermost
    custom error of what the handler returned, of joined errors that of the
    last that has one; and a code of the documented form (capital letters, -ERR
    and a number) is read back to the same error: a client that parses it holds
    an error with which the handler's error is identified by [errors.Is],
    whatever was wrapped around it on the way. An error with no custom error in
    it, and no other, has no code, and its own text is told. *)
Theorem error_code_survives e :
  (custom_free e = true ∧ error_response e = (None, Error e) ∧ ∀ t, ¬ innermost e t) ∨
  ∃ p c o, innermost e (CustomError p c o) ∧ error_response e = (Some (p ++ bs "-" ++ Itoa c), Error (CustomError p c o)) ∧
    (∀ t, innermost e t → t = CustomError p c o) ∧
    ∀ letters dp dc, code_ok letters c → p = letters ++ bs "-ERR" →
      IsValidErrorCode (p ++ bs "-" ++ Itoa c) = true ∧ ParseError (p ++ bs "-" ++ Itoa c) dp dc = CustomError p c None ∧
      Is e (ParseError (p ++ bs "-" ++ Itoa c) dp dc) = true.
Proof.
  unfold error_response, GetFirstCustomError, GetCustomErrors. rewrite filter_reverse. destruct (innermost_or_free e) as [Hf|(p & c & o & Hin)].
  - left. split; [done|]. rewrite custom_free_none by done. split; [by destruct e as [| |? ?|? ?|? ? []|]|].
    intros t Ht. apply innermost_listed in Ht as (l & Hl). rewrite custom_free_none in Hl by done. by destruct l.
  - right. exists p, c, o. destruct (innermost_listed _ _ Hin) as (l & Hl). rewrite Hl, reverse_snoc. split_and!; [done..| |].
    + intros t (l' & Hl')%innermost_listed. rewrite Hl' in Hl. by apply app_inj_tail in Hl as [_ ->].
    + intros letters dp dc Hok ->. change ((letters ++ bs "-ERR") ++ bs "-" ++ Itoa c) with (Code_of (letters_ERR letters) c).
      unfold IsValidErrorCode, ParseError. rewrite match_Code by done. unfold Atoi. rewrite ParseInt_Itoa by (destruct Hok; lia).
      split_and!; [done..|]. eapply innermost_Is; [exact Hin|]. by apply bool_decide_eq_true.
Qed.

(** A forbidden member, wrapped and joined with another failure. *)
Lemma error_code_survives_witness :
  let e := Errorf (bs "failed,error:") (RemoteSvcFail (Joined (bs "two failures") [ErrUserNotFound; Errorf (bs "x: ") (ErrForbiddenMsg (bs "no")); ErrNoRows])) in
  code_ok (bs "AUTH") 2 ∧ fst (error_response e) = Some (bs "AUTH-ERR-2") ∧
    ParseError (bs "AUTH-ERR-2") (bs "SYS-ERR") 0 = ErrForbidden ∧ Is e (ParseError (bs "AUTH-ERR-2") (bs "SYS-ERR") 0) = true.
Proof.
  assert (code_ok (bs "AUTH") 2) as Hok by (unfold code_ok; split_and!; [done|by vm_compute|lia|lia]). cbv zeta. split; [exact Hok|].
  destruct (error_code_survives (Errorf (bs "failed,error:") (RemoteSvcFail (Joined (bs "two failures")
    [ErrUserNotFound; Errorf (bs "x: ") (ErrForbiddenMsg (bs "no")); ErrNoRows])))) as [(Hf & _)|(p & c & o & _ & Hr & Hone & Hparse)]; [by vm_compute in Hf|].
  assert (ErrForbiddenMsg (bs "no") = CustomError p c o) as Heq.
  { apply Hone. apply innermost_wrapped, innermost_custom, (innermost_joined _ [ErrUserNotFound] _ [ErrNoRows]); [|done]. by apply innermost_wrapped, innermost_last. }
  injection Heq as <- <- _. rewrite Hr. split; [reflexivity|]. exact (proj2 (Hparse (bs "AUTH") (bs "SYS-ERR") 0 Hok eq_refl)).
Defined.
