(* ===== verification/AcAccess.v ===== *)
(** Who may do what: users, namespaces, organizations and their members
    (builder/store/database), the operations on members
    (user/component/member.go), and the permissions on repositories
    (component/repo.go, builder/git/membership). Database and service calls may
    fail at any point. An error's message keeps its fixed words; the values it
    names are left out. *)
From S2P Require Import Prelude GoLib Errorx.
Open Scope Z_scope.

(** ** builder/git/membership/role.go *)

Definition Role := bytes.
Definition RoleUnknown : Role := [].
Definition RoleRead : Role := bs "read".
Definition RoleWrite : Role := bs "write".
Definition RoleAdmin : Role := bs "admin".
Definition CanRead (r : Role) : bool := bool_decide (r ≠ RoleUnknown).
Definition CanWrite (r : Role) : bool := bool_decide (r = RoleWrite ∨ r = RoleAdmin).
Definition CanAdmin (r : Role) : bool := bool_decide (r = RoleAdmin).

(** ** Tables

    A user who is deleted keeps the row, which the store's lookups no longer
    see and the joins of members do; other rows that are marked deleted are no
    longer in the tables. *)

Record User := mk_user { u_ID : Z; u_Username : bytes; u_UUID : bytes; u_RoleMask : bytes; u_Deleted : bool }.
Record Namespace := mk_ns { ns_Path : bytes; ns_NamespaceType : bytes }.
Record Organization := mk_org { og_ID : Z; og_Name : bytes }.
Record Member := mk_member { mb_OrganizationID : Z; mb_UserID : Z; mb_Role : bytes }.
Record Repository := mk_repo {
  rp_ID : Z; rp_Type : bytes; rp_Path : bytes; rp_Private : bool; rp_XnetEnabled : bool; rp_Migrated : bool; rp_Hashed : bool;
}.
Definition UserNamespace : bytes := bs "user".
Definition OrgNamespace : bytes := bs "organization".

(** The notice of a change of members, with those it goes to. *)
Record OrgMemberReq := mk_mreq { mr_UserUUIDs : list bytes; mr_OrgName : bytes; mr_Operation : bytes; mr_UserName : bytes; mr_NewRole : bytes }.

Record access := mk_access {
  ac_users : list User; ac_namespaces : list Namespace; ac_orgs : list Organization; ac_members : list Member;
  ac_repos : list Repository; ac_notices : list OrgMemberReq;
}.
Definition on_members (f : list Member → list Member) (a : access) : access :=
  mk_access (ac_users a) (ac_namespaces a) (ac_orgs a) (f (ac_members a)) (ac_repos a) (ac_notices a).
Definition add_notice (n : OrgMemberReq) (a : access) : access :=
  mk_access (ac_users a) (ac_namespaces a) (ac_orgs a) (ac_members a) (ac_repos a) (ac_notices a ++ [n]).

(** A world with these tables in it. *)
Class Access (W : Type) `{!Faulty W goerr} := {
  get_access : W → access;
  set_access : access → W → W;
  get_set_access a w : get_access (set_access a w) = a;
  get_access_faults fs w : get_access (set_faults fs w) = get_access w;
  set_access_faults a w : get_faults (set_access a w) = get_faults w;
  get_faults_set fs w : get_faults (set_faults fs w) = fs;
}.

(** The least such world. *)
Record access_world := mk_aw { aw_access : access; aw_faults : list (option goerr) }.
#[export] Program Instance access_world_faulty : Faulty access_world goerr := {|
  get_faults := aw_faults; set_faults fs w := mk_aw (aw_access w) fs |}.
Next Obligation. by intros []. Qed.
#[export] Program Instance access_world_access : Access access_world := {|
  get_access := aw_access; set_access a w := mk_aw a (aw_faults w) |}.
Solve All Obligations with done.

(** *** CanAdmin of builder/store/database/user.go *)
Definition user_CanAdmin (u : User) : bool := Contains (u_RoleMask u) (bs "admin") || Contains (u_RoleMask u) (bs "super_user").

Section access.
Context {W : Type} `{Access W}.
(** SQL's LOWER, and the retries of a notice. *)
Variable LOWER : bytes → bytes.
Variable NotificationRetryCount : nat.
Abbreviation aio := (io W goerr).

Definition found_by {A} (P : A → Prop) `{!∀ x, Decision (P x)} (l : list A) : option A := snd <$> list_find P l.
Definition read {A} (f : access → A) : aio A := next_fault;; io_gets (λ w, f (get_access w)).
Definition read_row {A} (f : access → option A) : aio A :=
  o ← read f; match o with Some a => mret a | None => io_fail ErrNoRows end.
Definition write (f : access → access) : aio unit := io_modify (λ w, set_access (f (get_access w)) w).
Definition wrap (m : string) : goerr → goerr := Errorf (bs m).

(** ** The stores *)

Definition FindByUsername (username : bytes) : aio User :=
  io_wrap HandleDBError (read_row (λ a, found_by (λ u, u_Username u = username ∧ u_Deleted u = false) (ac_users a))).
Definition namespace_FindByPath (path : bytes) : aio Namespace := read_row (λ a, found_by (λ n, ns_Path n = path) (ac_namespaces a)).
Definition org_FindByPath (path : bytes) : aio Organization :=
  io_wrap HandleDBError (read_row (λ a, found_by (λ o, og_Name o = path) (ac_orgs a))).
(** The path is compared without its case. *)
Definition repo_FindByPath (repoType namespace name : bytes) : aio Repository :=
  io_wrap HandleDBError (read_row (λ a, found_by (λ r, rp_Type r = repoType ∧ LOWER (rp_Path r) = LOWER (namespace ++ bs "/" ++ name)) (ac_repos a))).

Definition belongs (orgID userID : Z) (m : Member) : Prop := mb_OrganizationID m = orgID ∧ mb_UserID m = userID.
#[export] Instance belongs_dec orgID userID m : Decision (belongs orgID userID m).
Proof. unfold belongs. apply _. Defined.
Definition member_Find (orgID userID : Z) : aio Member := read_row (λ a, found_by (belongs orgID userID) (ac_members a)).
Definition member_Add (orgID userID : Z) (role : bytes) : aio unit :=
  next_fault;; write (on_members (λ l, l ++ [mk_member orgID userID role])).
(** The rows are changed also when they are not one. *)
Definition member_Update (orgID userID : Z) (role : bytes) : aio unit :=
  next_fault;; n ← io_gets (λ w, length (filter (belongs orgID userID) (ac_members (get_access w))));
  write (on_members (fmap (λ m, if decide (belongs orgID userID m) then mk_member orgID userID role else m)));;
  if decide (n = 1%nat) then mret tt else io_fail (NewError (bs "affected rows, want 1")).
Definition member_Delete (orgID userID : Z) (role : bytes) : aio unit :=
  next_fault;; write (on_members (filter (λ m, ¬ (belongs orgID userID m ∧ mb_Role m = role)))).
(** The rows of an organization and a role (any, if empty) with a row of
    their user. *)
Definition listed (users : list User) (orgID : Z) (role : bytes) (m : Member) : Prop :=
  mb_OrganizationID m = orgID ∧ (role = [] ∨ mb_Role m = role) ∧ mb_UserID m ∈ (u_ID <$> users).
#[export] Instance listed_dec users orgID role m : Decision (listed users orgID role m).
Proof. unfold listed. apply _. Defined.
Definition OrganizationMembers (orgID : Z) (role : bytes) (pageSize page : Z) : aio (list Member * Z) :=
  total ← io_wrap (wrap "failed to count org members,caused by:") (read (λ a, len (filter (listed (ac_users a) orgID role) (ac_members a))));
  members ← io_wrap (wrap "failed to find org members,caused by:")
    (read (λ a, take (Z.to_nat pageSize) (drop (Z.to_nat ((page - 1) * pageSize)) (filter (listed (ac_users a) orgID role) (ac_members a)))));
  mret (members, total).
Definition UserUUIDsByOrganizationID (orgID : Z) : aio (list bytes) :=
  io_wrap (wrap "failed to get user UUIDs by organization ID, caused by:")
    (read (λ a, filter (λ m, mb_OrganizationID m = orgID) (ac_members a) ≫= λ m,
                u_UUID <$> filter (λ u, u_ID u = mb_UserID m) (ac_users a))).

(** ** user/component/member.go *)

Definition allowMagnageMember (m : Member) : bool := bool_decide (mb_Role m = RoleAdmin).
Definition toGitRole (role : bytes) : Role :=
  if decide (role ∈ [RoleAdmin; RoleWrite; RoleRead]) then role else RoleUnknown.
(** A member, or none; other errors are errors. *)
Definition find_member (what : string) (orgID userID : Z) : aio (option Member) :=
  r ← io_try (member_Find orgID userID);
  match r with
  | Ok m => mret (Some m)
  | Err e => if Is e ErrNoRows then mret None else io_fail (wrap what e)
  end.

(** No attempt is no error. *)
Fixpoint send_notice (n : nat) (q : OrgMemberReq) : aio unit :=
  match n with
  | O => mret tt
  | S n =>
      r ← io_try next_fault;
      match r with
      | Ok _ => write (add_notice q)
      | Err e => match n with O => io_fail (wrap "failed to send notification after attempts, err: " e) | _ => send_notice n q end
      end
  end.
(** The goroutine that sends it, run here where it is started, only logs a
    failure. *)
Definition sendMemberMsg (q : OrgMemberReq) : aio unit := io_try (send_notice NotificationRetryCount q);; mret tt.

Definition SetAdmin (orgID userID : Z) : aio unit := io_wrap (wrap "failed to create member,caused by:") (member_Add orgID userID RoleAdmin).

Definition ChangeMemberRole (orgName userName operatorName oldRole newRole : bytes) : aio unit :=
  org ← io_wrap (wrap "failed to find org,caused by:") (org_FindByPath orgName);
  op ← io_wrap (wrap "failed to find op user,caused by:") (FindByUsername operatorName);
  opMember ← io_wrap (wrap "failed to get op user membership,caused by:") (member_Find (og_ID org) (u_ID op));
  user ← io_wrap (wrap "failed to find user,caused by:") (FindByUsername userName);
  (if decide (u_ID op = u_ID user) then
     '(_, adminCount) ← io_wrap (wrap "failed to count admins in org, caused by: ") (OrganizationMembers (og_ID org) RoleAdmin 1 1);
     if decide (adminCount ≤ 1 ∧ newRole ≠ RoleAdmin) then io_fail (LastOrgAdmin (NewError (bs "cannot revoke the last admin role from organization")))
     else if decide (newRole = RoleAdmin ∧ oldRole ≠ RoleAdmin) then io_fail (CannotPromoteSelfToAdmin (NewError (bs "cannot promote yourself to admin")))
     else mret tt
   else if allowMagnageMember opMember then mret tt
   else io_fail (ErrForbiddenMsg (bs "operation not allowed, you do not have permission to change the role of other members")));;
  m ← find_member "failed to check membership existence,caused by:" (og_ID org) (u_ID user);
  match m with
  | None => io_fail (NewError (bs "user " ++ userName ++ bs " is not a member of organization " ++ orgName))
  | Some _ =>
      io_wrap (wrap "failed to update member role,caused by:") (member_Update (og_ID org) (u_ID user) newRole);;
      userUUIDs ← io_wrap (wrap "failed to get uuids by orgid,error:") (UserUUIDsByOrganizationID (og_ID org));
      sendMemberMsg (mk_mreq userUUIDs orgName (bs "update") userName newRole)
  end.

Definition GetMemberRole (orgName userName : bytes) : aio Role :=
  org ← io_wrap (wrap "failed to find org, caused by:") (org_FindByPath orgName);
  user ← io_wrap (wrap "failed to find user, caused by:") (FindByUsername userName);
  m ← find_member "failed to check membership existence, caused by:" (og_ID org) (u_ID user);
  mret (match m with Some m => toGitRole (mb_Role m) | None => RoleUnknown end).

Fixpoint add_members (orgID : Z) (orgName : bytes) (users : list bytes) (role : bytes) : aio unit :=
  match users with
  | [] => mret tt
  | userName :: users =>
      user ← io_wrap (wrap "failed to find user,caused by:") (FindByUsername userName);
      m ← find_member "failed to check membership existence,caused by:" orgID (u_ID user);
      match m with
      | Some _ => add_members orgID orgName users role
      | None =>
          io_wrap (wrap "failed to create db member,caused by:") (member_Add orgID (u_ID user) role);;
          userUUIDs ← io_wrap (wrap "failed to get uuids by orgid,error:") (UserUUIDsByOrganizationID orgID);
          (if decide (userUUIDs = []) then mret tt else sendMemberMsg (mk_mreq userUUIDs orgName (bs "add") userName []));;
          add_members orgID orgName users role
      end
  end.
Definition AddMembers (orgName : bytes) (users : list bytes) (operatorName role : bytes) : aio unit :=
  org ← io_wrap (wrap "failed to find org,caused by:") (org_FindByPath orgName);
  op ← io_wrap (wrap "failed to find op user,caused by:") (FindByUsername operatorName);
  opMember ← io_wrap (wrap "failed to get op user membership,caused by:") (member_Find (og_ID org) (u_ID op));
  if allowMagnageMember opMember then add_members (og_ID org) orgName users role
  else io_fail (ErrForbiddenMsg (bs "add member operation not allowed, user:" ++ operatorName)).

Definition member_component_Delete (orgName userName operatorName role : bytes) : aio unit :=
  org ← io_wrap (wrap "failed to find org,caused by:") (org_FindByPath orgName);
  op ← io_wrap (wrap "failed to find user,caused by:") (FindByUsername operatorName);
  opMember ← io_wrap (wrap "failed to get op user membership,caused by:") (member_Find (og_ID org) (u_ID op));
  user ← io_wrap (wrap "failed to find user,caused by:") (FindByUsername userName);
  '(_, total) ← io_wrap (wrap "failed to find org members, caused by:") (OrganizationMembers (og_ID org) [] 1 1);
  if decide (total = 0) then io_fail (CustomError (bs "REQ-ERR") 6 (Some (NewError (bs "no member in organization"))))
  else
    (if decide (u_ID op = u_ID user) then
       if decide (mb_Role opMember = RoleAdmin) then
         '(_, adminCount) ← io_wrap (wrap "failed to count admins in org, caused by: ") (OrganizationMembers (og_ID org) (bs "admin") 1 1);
         if decide (adminCount ≤ 1) then io_fail (LastOrgAdmin (NewError (bs "cannot remove the last admin from organization"))) else mret tt
       else mret tt
     else if allowMagnageMember opMember then mret tt
     else io_fail (ErrForbiddenMsg (bs "operation not allowed, you do not have permission to remove other members")));;
    m ← find_member "failed to check membership existence,caused by:" (og_ID org) (u_ID user);
    match m with
    | None => mret tt
    | Some _ =>
        io_wrap (wrap "failed to delete member,caused by:") (member_Delete (og_ID org) (u_ID user) role);;
        userUUIDs ← io_wrap (wrap "failed to get uuids by orgid,error:") (UserUUIDsByOrganizationID (og_ID org));
        if decide (userUUIDs = []) then mret tt else sendMemberMsg (mk_mreq userUUIDs orgName (bs "remove") userName [])
    end.

(** ** component/repo.go *)

(** The user service over HTTP: the call may fail, and tells of an error only
    that there was one (builder/rpc/user_svc_client.go). *)
Definition svc_GetMemberRole (orgName userName : bytes) : aio Role :=
  io_wrap RemoteSvcFail (next_fault;;
    r ← io_try (GetMemberRole orgName userName);
    match r with
    | Ok role => mret role
    | Err _ => io_fail (NewError (bs "failed to get response, path:/api/v1/organization/" ++ orgName ++ bs "/members/" ++ userName))
    end).

Definition CheckCurrentUserPermission (userName namespace : bytes) (role : Role) : aio bool :=
  ns ← io_wrap (wrap "fail to find namespace, err:") (namespace_FindByPath namespace);
  u ← io_wrap (wrap "fail to find user, err:") (FindByUsername userName);
  if user_CanAdmin u then mret true
  else if decide (ns_NamespaceType ns = UserNamespace) then mret (bool_decide (userName = namespace))
  else
    r ← svc_GetMemberRole namespace userName;
    if decide (role = RoleAdmin) then mret (CanAdmin r)
    else if decide (role = RoleWrite) then mret (CanWrite r)
    else if decide (role = RoleRead) then mret (CanRead r)
    else io_fail (NewError (bs "unknown role " ++ role)).

(** [None] is a path without a slash. *)
Definition NamespaceAndName (r : Repository) : option (bytes * bytes) :=
  match Split (rp_Path r) (bs "/") with a :: b :: _ => Some (a, b) | _ => None end.
Definition namespace_of (r : Repository) : aio bytes :=
  match NamespaceAndName r with Some (namespace, _) => mret namespace | None => λ w, (Panic, w) end.

Definition AllowReadAccessRepo (r : Repository) (username : bytes) : aio bool :=
  if negb (rp_Private r) then mret true
  else if decide (username = []) then io_fail ErrUserNotFound
  else namespace ← namespace_of r; CheckCurrentUserPermission username namespace RoleRead.
Definition AllowReadAccess (repoType namespace name username : bytes) : aio bool :=
  r ← io_wrap (wrap "failed to find repo, error: ") (repo_FindByPath repoType namespace name);
  AllowReadAccessRepo r username.
(** The namespace that is asked about is the request's. *)
Definition allow_access (role : Role) (repoType namespace name username : bytes) : aio bool :=
  io_wrap (wrap "failed to find repo, error: ") (repo_FindByPath repoType namespace name);;
  if decide (username = []) then io_fail ErrUserNotFound else CheckCurrentUserPermission username namespace role.
Definition AllowWriteAccess : bytes → bytes → bytes → bytes → aio bool := allow_access RoleWrite.
Definition AllowAdminAccess : bytes → bytes → bytes → bytes → aio bool := allow_access RoleAdmin.

Record UserRepoPermission := mk_perm { p_CanRead : bool; p_CanWrite : bool; p_CanAdmin : bool }.
Definition GetUserRepoPermission (userName : bytes) (r : Repository) : aio UserRepoPermission :=
  if decide (userName = []) then mret (mk_perm (negb (rp_Private r)) false false)
  else
    user ← io_wrap (wrap "failed to find user when get user repo permission, error: ") (FindByUsername userName);
    if user_CanAdmin user then mret (mk_perm true true true)
    else
      namespace ← namespace_of r;
      ns ← io_wrap (wrap "failed to find namespace when get user repo permission, error: ") (namespace_FindByPath namespace);
      if decide (ns_NamespaceType ns = UserNamespace) then
        if decide (userName = namespace) then mret (mk_perm true true true) else mret (mk_perm (negb (rp_Private r)) false false)
      else
        role ← io_wrap (wrap "failed to get user member role of org when get user repo permission, error: ") (svc_GetMemberRole namespace userName);
        mret (mk_perm (CanRead role || negb (rp_Private r)) (CanWrite role) (CanAdmin role)).
End access.
