(* ===== verification/AcSpec.v ===== *)
(** What reading the tables of users, organizations and members gives, however
    calls fail, and what a permission rests on. *)
From S2P Require Import Prelude GoLib Errorx AcAccess.
Open Scope Z_scope.

Section access.
Context {W : Type} `{Access W}.
Variable LOWER : bytes → bytes.
Variable NotificationRetryCount : nat.
Abbreviation aio := (io W goerr).

(** ** Reading the tables *)

(** A failing call is not taken for one that finds nothing. *)
Definition honest (w : W) : Prop := Forall (λ f : option goerr, match f with Some e => Is e ErrNoRows = false | None => True end) (get_faults w).

(** The tables are [a], and, where that is assumed, calls fail honestly. *)
Variable hon : Prop.
Definition at_ (a : access) (w : W) : Prop := get_access w = a ∧ (hon → honest w).
Definition everywhere : W → W → Prop := λ _ _, True.
#[local] Instance everywhere_preorder : PreOrder everywhere.
Proof. by split. Qed.
Abbreviation reads a := (moves (E := goerr) (at_ a) everywhere).

Lemma at_fault a : reads a (λ _, True) next_fault.
Proof.
  intros w (Hw & Hh). unfold next_fault. destruct (get_faults w) as [|f fs] eqn:Hf; [done|].
  assert (at_ a (set_faults fs w)) as Hat.
  { split; [by rewrite get_access_faults|]. intros Hhon. specialize (Hh Hhon). unfold honest in *. rewrite Hf in Hh. rewrite get_faults_set. by inversion Hh. }
  by destruct f.
Qed.
Lemma at_read {A} a (f : access → A) : reads a (λ x, x = f a) (read f).
Proof. eapply moves_bind; [apply _|apply at_fault|]. intros _ _. apply moves_gets; [apply _|]. by intros w [<- _]. Qed.
Lemma at_row {A} a (f : access → option A) : reads a (λ x, f a = Some x) (read_row f).
Proof.
  eapply moves_bind; [apply _|apply at_read|]. intros o ->. destruct (f a); [by apply moves_ret; [apply _|]|apply moves_fail; apply _].
Qed.
Lemma at_user a n : reads a (λ u, found_by (λ u, u_Username u = n ∧ u_Deleted u = false) (ac_users a) = Some u) (FindByUsername n).
Proof. eapply moves_weaken; [apply moves_wrap, at_row|done|by intros]. Qed.
Lemma at_namespace a n : reads a (λ x, found_by (λ x, ns_Path x = n) (ac_namespaces a) = Some x) (namespace_FindByPath n).
Proof. eapply moves_weaken; [apply at_row|done|by intros]. Qed.
Lemma at_org a n : reads a (λ o, found_by (λ o, og_Name o = n) (ac_orgs a) = Some o) (org_FindByPath n).
Proof. eapply moves_weaken; [apply moves_wrap, at_row|done|by intros]. Qed.
Lemma at_repo a ty ns n :
  reads a (λ r, found_by (λ r, rp_Type r = ty ∧ LOWER (rp_Path r) = LOWER (ns ++ bs "/" ++ n)) (ac_repos a) = Some r) (repo_FindByPath LOWER ty ns n).
Proof. eapply moves_weaken; [apply moves_wrap, at_row|done|by intros]. Qed.
Lemma at_member a o u : reads a (λ m, found_by (belongs o u) (ac_members a) = Some m) (member_Find o u).
Proof. eapply moves_weaken; [apply at_row|done|by intros]. Qed.
Lemma at_count a o r n p : reads a (λ x, x.2 = len (filter (listed (ac_users a) o r) (ac_members a))) (OrganizationMembers o r n p).
Proof.
  eapply moves_bind; [apply _|apply moves_wrap, at_read|]. intros total ->. eapply moves_bind; [apply _|apply moves_wrap, at_read|]. intros ? _.
  by apply moves_ret; [apply _|].
Qed.
Lemma at_uuids a o : reads a (λ _, True) (UserUUIDsByOrganizationID o).
Proof. eapply moves_true, moves_wrap, at_read. Qed.
(** Told that there is no row, there is none. *)
Lemma no_rows_none a o u w e w' : hon → at_ a w → member_Find o u w = (Fail e, w') → Is e ErrNoRows = true → found_by (belongs o u) (ac_members a) = None.
Proof.
  intros Hhon (Hw & Hh) Hrun He. specialize (Hh Hhon). unfold honest in Hh. unfold member_Find, read_row, read, mbind, io_bind, next_fault in Hrun.
  destruct (get_faults w) as [|[f|] fs]; cbn in Hrun.
  - rewrite Hw in Hrun. by destruct (found_by _ _).
  - injection Hrun as -> _. inversion Hh. congruence.
  - rewrite get_access_faults, Hw in Hrun. by destruct (found_by _ _).
Qed.
Lemma at_find_member a s o u :
  reads a (λ m, (m = None ∨ m = found_by (belongs o u) (ac_members a)) ∧ (hon → m = found_by (belongs o u) (ac_members a))) (find_member s o u).
Proof.
  intros w Hw. destruct (at_member a o u w Hw) as (Hat & _ & HP). unfold find_member, mbind, io_bind, io_try.
  destruct (member_Find o u w) as [[m|e|] w'] eqn:Hrun; cbn [fst snd] in *; [|destruct (Is e ErrNoRows) eqn:He|].
  - split_and!; [done|done|]. intros ? [= <-]. rewrite (HP m eq_refl). auto.
  - split_and!; [done|done|]. intros ? [= <-]. split; [by left|]. intros Hhon. symmetry. exact (no_rows_none a o u w e w' Hhon Hw Hrun He).
  - by split_and!.
  - by split_and!.
Qed.

Lemma found_by_Some {A} (P : A → Prop) `{!∀ x, Decision (P x)} (l : list A) x : found_by P l = Some x → x ∈ l ∧ P x.
Proof. unfold found_by. destruct (list_find P l) as [[i y]|] eqn:Hf; [|done]. intros [= ->]. apply list_find_Some in Hf as (?%list_elem_of_lookup_2 & ? & _). done. Qed.
Lemma found_by_None {A} (P : A → Prop) `{!∀ x, Decision (P x)} (l : list A) : found_by P l = None → ∀ x, x ∈ l → ¬ P x.
Proof. unfold found_by. destruct (list_find P l) as [[i y]|] eqn:Hf; [done|]. intros _ x Hx. apply list_find_None in Hf. rewrite Forall_forall in Hf. auto. Qed.

(** ** Permissions are membership *)

(** The role a user name has in an organization. *)
Definition role_in (a : access) (org username : bytes) : option Role :=
  o ← found_by (λ o, og_Name o = org) (ac_orgs a);
  u ← found_by (λ u, u_Username u = username ∧ u_Deleted u = false) (ac_users a);
  Some (match found_by (belongs (og_ID o) (u_ID u)) (ac_members a) with Some m => toGitRole (mb_Role m) | None => RoleUnknown end).
Definition reaches (needed r : Role) : bool :=
  if decide (needed = RoleAdmin) then CanAdmin r else if decide (needed = RoleWrite) then CanWrite r else bool_decide (needed = RoleRead) && CanRead r.
(** What a user name may do in a namespace: everything as an administrator of
    the server or in the own namespace, and what the membership says in an
    organization. *)
Definition may (a : access) (username namespace : bytes) (needed : Role) : Prop :=
  ∃ u ns, found_by (λ u, u_Username u = username ∧ u_Deleted u = false) (ac_users a) = Some u ∧
    found_by (λ x, ns_Path x = namespace) (ac_namespaces a) = Some ns ∧
    (user_CanAdmin u = true ∨ (ns_NamespaceType ns = UserNamespace ∧ username = namespace) ∨
     (ns_NamespaceType ns ≠ UserNamespace ∧ ∃ r, role_in a namespace username = Some r ∧ reaches needed r = true)).

Lemma at_role a org n : reads a (λ r, r = RoleUnknown ∨ role_in a org n = Some r) (GetMemberRole org n).
Proof.
  unfold GetMemberRole. eapply moves_bind; [apply _|apply moves_wrap, at_org|]. intros o Ho.
  eapply moves_bind; [apply _|apply moves_wrap, at_user|]. intros u Hu. eapply moves_bind; [apply _|apply at_find_member|].
  intros m Hm. apply moves_ret; [apply _|]. destruct m as [m|]; [right|by left]. destruct Hm as [[?|Hm] _]; [done|].
  unfold role_in. rewrite Ho. cbn. rewrite Hu. cbn. by rewrite <- Hm.
Qed.
Lemma at_svc_role a org n : reads a (λ r, r = RoleUnknown ∨ role_in a org n = Some r) (svc_GetMemberRole org n).
Proof.
  apply moves_wrap. eapply moves_bind; [apply _|apply at_fault|]. intros _ _. eapply moves_bind; [apply _|apply moves_try, at_role|].
  intros [r|e] Hr; [by apply moves_ret; [apply _|]|apply moves_fail, _].
Qed.
Lemma reaches_unknown needed : reaches needed RoleUnknown = false.
Proof. unfold reaches, CanAdmin, CanWrite, CanRead. repeat case_decide; done. Qed.

(** A permission that is granted is one the tables give, whatever fails. *)
Lemma at_permission a u ns needed : reads a (λ b, b = true → may a u ns needed) (CheckCurrentUserPermission u ns needed).
Proof.
  unfold CheckCurrentUserPermission. eapply moves_bind; [apply _|apply moves_wrap, at_namespace|]. intros x Hx.
  eapply moves_bind; [apply _|apply moves_wrap, at_user|]. intros y Hy.
  destruct (user_CanAdmin y) eqn:Hadmin; [apply moves_ret; [apply _|]; intros _; exists y, x; split_and!; [done..|by left]|].
  case_decide as Hty; [apply moves_ret; [apply _|]; intros ?%bool_decide_eq_true; exists y, x; split_and!; [done..|by right; left]|].
  eapply moves_bind; [apply _|apply at_svc_role|]. intros r Hr.
  assert (∀ b, b = reaches needed r → reads a (λ b, b = true → may a u ns needed) (mret b : aio bool)) as Hret.
  { intros b ->. apply moves_ret; [apply _|]. intros Hb. destruct Hr as [-> |Hr]; [by rewrite reaches_unknown in Hb|]. exists y, x. split_and!; try done. right. right. eauto. }
  unfold reaches in Hret. repeat case_decide; subst; by try apply Hret.
Qed.
Lemma at_namespace_of a r : reads a (λ n, ∃ m, NamespaceAndName r = Some (n, m)) (namespace_of r).
Proof. unfold namespace_of. destruct (NamespaceAndName r) as [[n m]|]; [apply moves_ret; [apply _|eauto]|]. by intros w Hw. Qed.

(** What each of the repository's checks rests on. *)
Definition readable (a : access) (r : Repository) (username : bytes) : Prop :=
  rp_Private r = false ∨ ∃ n m, NamespaceAndName r = Some (n, m) ∧ may a username n RoleRead.
Definition repo_at (a : access) (ty ns n : bytes) : option Repository :=
  found_by (λ r, rp_Type r = ty ∧ LOWER (rp_Path r) = LOWER (ns ++ bs "/" ++ n)) (ac_repos a).
Lemma at_read_access a r u : reads a (λ b, b = true → readable a r u) (AllowReadAccessRepo r u).
Proof.
  unfold AllowReadAccessRepo. destruct (rp_Private r) eqn:Hp; cbn [negb]; [|by apply moves_ret; [apply _|intros _; left]].
  case_decide; [apply moves_fail, _|]. eapply moves_bind; [apply _|apply at_namespace_of|]. intros n (m & Hn).
  eapply moves_weaken; [apply at_permission|done|]. intros b Hb Hbt. right. exists n, m. split; [done|by apply Hb].
Qed.
Lemma at_AllowReadAccess a ty ns n u :
  reads a (λ b, b = true → ∃ r, repo_at a ty ns n = Some r ∧ readable a r u) (AllowReadAccess LOWER ty ns n u).
Proof.
  eapply moves_bind; [apply _|apply moves_wrap, at_repo|]. intros r Hr. eapply moves_weaken; [apply at_read_access|done|]. intros b Hb Hbt. exists r. split; [done|by apply Hb].
Qed.
Lemma at_allow_access a role ty ns n u :
  reads a (λ b, b = true → (∃ r, repo_at a ty ns n = Some r) ∧ u ≠ [] ∧ may a u ns role) (allow_access LOWER role ty ns n u).
Proof.
  eapply moves_bind; [apply _|apply moves_wrap, at_repo|]. intros r Hr. case_decide; [apply moves_fail, _|].
  eapply moves_weaken; [apply at_permission|done|]. intros b Hb Hbt. split_and!; [by exists r|done|by apply Hb].
Qed.
End access.
