(* ===== verification/AcMemberSpec.v ===== *)
(** The operations on members: which rows they change, and on whose word.
    Every operation, however it fails, is a sequence of a few kinds of guarded
    changes of the tables ([member_step]); what holds of these holds of the
    operations. *)
From S2P Require Import Prelude GoLib Errorx AcAccess AcSpec.
Open Scope Z_scope.

(** ** The changes *)

(** The rows after each of the three writes. *)
Definition updated (o u : Z) (role : bytes) : list Member → list Member := fmap (λ m, if decide (belongs o u m) then mk_member o u role else m).
Definition removed (o u : Z) (role : bytes) : list Member → list Member := filter (λ m, ¬ (belongs o u m ∧ mb_Role m = role)).
Definition added (o u : Z) (role : bytes) (l : list Member) : list Member := l ++ [mk_member o u role].

Definition user_named (a : access) (n : bytes) : option User := found_by (λ u, u_Username u = n ∧ u_Deleted u = false) (ac_users a).
Definition row_of (a : access) (o u : Z) : option Member := found_by (belongs o u) (ac_members a).
Definition admins (a : access) (o : Z) : list Member := filter (listed (ac_users a) o RoleAdmin) (ac_members a).
(** The operator is an administrator of the organization. *)
Definition admin_of (a : access) (op : User) (o : Z) : Prop := ∃ m, row_of a o (u_ID op) = Some m ∧ mb_Role m = RoleAdmin.

(** A change by the operator, in an operation that began at tables [a0]. *)
Inductive member_step (operator : bytes) (a0 : access) : access → access → Prop :=
  | step_notice q a : member_step operator a0 a (add_notice q a)
  | step_own_role a op o role m : user_named a operator = Some op → row_of a o (u_ID op) = Some m →
      (1 < length (admins a o))%nat ∨ role = RoleAdmin → member_step operator a0 a (on_members (updated o (u_ID op) role) a)
  | step_role a op u o role : user_named a operator = Some op → admin_of a0 op o → admin_of a op o → u_ID op ≠ u →
      member_step operator a0 a (on_members (updated o u role) a)
  | step_leave a op o role m : user_named a operator = Some op → row_of a o (u_ID op) = Some m →
      (mb_Role m = RoleAdmin → 1 < length (admins a o))%nat → member_step operator a0 a (on_members (removed o (u_ID op) role) a)
  | step_remove a op u o role : user_named a operator = Some op → admin_of a0 op o → admin_of a op o → u_ID op ≠ u →
      member_step operator a0 a (on_members (removed o u role) a)
  | step_add a op u o role : user_named a operator = Some op → admin_of a0 op o → admin_of a op o → row_of a o u = None →
      member_step operator a0 a (on_members (added o u role) a).

Section members.
Context {W : Type} `{Access W}.
Variable NotificationRetryCount : nat.
#[local] Existing Instance everywhere_preorder.

Inductive member_op :=
  | OChange (orgName userName operatorName oldRole newRole : bytes)
  | OAdd (orgName : bytes) (users : list bytes) (operatorName role : bytes)
  | ODelete (orgName userName operatorName role : bytes).
Definition member_perform (o : member_op) (w : W) : W :=
  match o with
  | OChange org user op old new => snd (ChangeMemberRole NotificationRetryCount org user op old new w)
  | OAdd org users op role => snd (AddMembers NotificationRetryCount org users op role w)
  | ODelete org user op role => snd (member_component_Delete NotificationRetryCount org user op role w)
  end.
Definition operator_of (o : member_op) : bytes :=
  match o with OChange _ _ op _ _ | OAdd _ _ op _ | ODelete _ _ op _ => op end.

Abbreviation reads a := (moves (W := W) (E := goerr) (at_ True a) everywhere).

Section steps.
(** The tables an operation begins at. *)
Variable a0 : access.

(** Tables that [a] leads to, with [J] of them, and calls that fail
    honestly. *)
Definition from (operator : bytes) (a : access) (J : access → Prop) (w : W) : Prop :=
  rtc (member_step operator a0) a (get_access w) ∧ J (get_access w) ∧ honest w.
Abbreviation later operator a J := (moves (W := W) (E := goerr) (from operator a J) everywhere).
(** [J] does not look at notices. *)
Definition settled (J : access → Prop) : Prop := ∀ q a, J a → J (add_notice q a).
(** From tables [a], the run of [m] is a sequence of changes. *)
Definition changes {A} (operator : bytes) (a : access) (m : io W goerr A) : Prop := ∀ w, at_ True a w → from operator a (λ _, True) (snd (m w)).

Lemma honest_set a w : honest w → honest (set_access a w).
Proof. unfold honest. by rewrite set_access_faults. Qed.
Lemma from_fault operator a J : later operator a J (λ _, True) next_fault.
Proof.
  intros w (Ha & HJ & Hh). unfold next_fault. destruct (get_faults w) as [|f fs] eqn:Hf; [done|].
  assert (from operator a J (set_faults fs w)) as Hat.
  { split_and!; [by rewrite get_access_faults..|]. unfold honest in *. rewrite Hf in Hh. rewrite get_faults_set. by inversion Hh. }
  by destruct f.
Qed.
Lemma from_read {A} operator a J (f : access → A) : later operator a J (λ _, True) (read f).
Proof. eapply moves_bind; [apply _|apply from_fault|]. intros _ _. by apply moves_gets; [apply _|]. Qed.
Lemma from_uuids operator a J o : later operator a J (λ _, True) (io_wrap (wrap "failed to get uuids by orgid,error:") (UserUUIDsByOrganizationID o)).
Proof. apply moves_wrap, moves_wrap, from_read. Qed.
Lemma from_tell operator a J q : settled J → later operator a J (λ _, True) (sendMemberMsg NotificationRetryCount q).
Proof.
  intros HJ. apply moves_bind_true; [apply _| |intros _; by apply moves_ret; [apply _|]]. apply moves_try_true.
  induction NotificationRetryCount as [|n IH]; cbn [send_notice]; [by apply moves_ret; [apply _|]|].
  apply moves_bind_true; [apply _|apply moves_try_true, from_fault|]. intros [|e].
  - apply moves_modify. intros w (Ha & Hj & Hh). split; [|done]. split_and!; [|rewrite get_set_access; by apply HJ|by apply honest_set].
    rewrite get_set_access. eapply rtc_r; [done|constructor].
  - destruct n; [apply moves_fail, _|done].
Qed.

(** The rules: a read, a change, and what follows it. *)
Lemma changes_read {A B} operator a (P : A → Prop) (m : io W goerr A) (f : A → io W goerr B) :
  reads a P m → (∀ x, P x → changes operator a (f x)) → changes operator a (m ≫= f).
Proof.
  intros Hm Hf w Hw. eapply moves_end; [exact Hm|done| |].
  - intros w' (<- & Hh'). split_and!; [done|done|auto].
  - intros x w' Hw' Hx. by apply Hf.
Qed.
Lemma changes_nothing {A} operator a (P : A → Prop) (m : io W goerr A) : reads a P m → changes operator a m.
Proof. intros Hm w Hw. destruct (Hm w Hw) as ((<- & Hh) & _). split_and!; [done|done|auto]. Qed.
Lemma changes_fail {A} operator a e : changes operator a (io_fail e : io W goerr A).
Proof. eapply (changes_nothing _ _ (λ _, True)), moves_fail, _. Qed.
Lemma changes_ret {A} operator a (x : A) : changes operator a (mret x : io W goerr A).
Proof. eapply (changes_nothing _ _ (λ _, True)). by apply moves_ret; [apply _|]. Qed.
Lemma changes_wrap {A} operator a f (m : io W goerr A) : changes operator a m → changes operator a (io_wrap f m).
Proof. intros Hm w Hw. specialize (Hm w Hw). unfold io_wrap. by destruct (m w) as [[] ?]. Qed.
Lemma changes_seq {A B} operator a (m : io W goerr A) (f : A → io W goerr B) : changes operator a m →
  (∀ x, later operator a (λ _, True) (λ _, True) (f x)) → changes operator a (m ≫= f).
Proof.
  intros Hm Hf w Hw. specialize (Hm w Hw). unfold mbind, io_bind. destruct (m w) as [[x|e|] w'] eqn:?; cbn in *; [|done..]. by apply Hf.
Qed.
(** A change that is one of the steps. *)
Lemma changes_write operator a (f : list Member → list Member) : member_step operator a0 a (on_members f a) → changes operator a (write (on_members f)).
Proof.
  intros Hf w (Hw & Hh). cbn. split_and!; [|done|by apply honest_set, Hh]. rewrite get_set_access, Hw. by apply rtc_once.
Qed.
Lemma changes_Update operator a o u role : member_step operator a0 a (on_members (updated o u role) a) → changes operator a (member_Update o u role).
Proof.
  intros Hf. eapply changes_read; [apply at_fault|]. intros _ _. eapply (changes_read _ _ (λ _, True)); [by apply moves_gets; [apply _|]|]. intros n _.
  apply changes_seq; [by apply changes_write|]. intros _. case_decide; [by apply moves_ret; [apply _|]|apply moves_fail, _].
Qed.
Lemma changes_Delete operator a o u role : member_step operator a0 a (on_members (removed o u role) a) → changes operator a (member_Delete o u role).
Proof. intros Hf. eapply changes_read; [apply at_fault|]. intros _ _. by apply changes_write. Qed.

(** What an addition ends in, and that it has been made when it returns. *)
Lemma changes_Add operator a o u role J : member_step operator a0 a (on_members (added o u role) a) → J (on_members (added o u role) a) →
  ∀ w, at_ True a w → let r := member_Add o u role w in
  from operator a (λ _, True) (snd r) ∧ ∀ x, fst r = Ret x → from operator (on_members (added o u role) a) J (snd r).
Proof.
  intros Hstep HJ w Hw r.
  destruct (at_fault True a w Hw) as ((Ha & Hh) & _). unfold r, member_Add, mbind, io_bind.
  destruct (next_fault w) as [[x|e|] w'] eqn:Hrun; cbn in *; (split; [|try done]).
  - split_and!; [rewrite get_set_access, Ha; by apply rtc_once|done|by apply honest_set, Hh].
  - intros ? _. split_and!; [by rewrite get_set_access, Ha|by rewrite get_set_access, Ha|by apply honest_set, Hh].
  - split_and!; [by rewrite Ha|done|by apply Hh].
  - split_and!; [by rewrite Ha|done|by apply Hh].
Qed.

(** ** The operations *)

Lemma count_admins a o (x : list Member * Z) : x.2 = len (admins a o) → ¬ x.2 ≤ 1 → (1 < length (admins a o))%nat.
Proof. unfold len. lia. Qed.
Lemma allowed a op o m : row_of a o (u_ID op) = Some m → allowMagnageMember m = true → admin_of a op o.
Proof. intros Hm ?%bool_decide_eq_true. by exists m. Qed.

Lemma change_is_steps org user op old new : changes op a0 (ChangeMemberRole NotificationRetryCount org user op old new).
Proof.
  eapply changes_read; [apply moves_wrap, at_org|]. intros o Ho. eapply changes_read; [apply moves_wrap, at_user|]. intros x Hx.
  eapply changes_read; [apply moves_wrap, at_member|]. intros m Hm. eapply changes_read; [apply moves_wrap, at_user|]. intros y Hy.
  eapply (changes_read _ _ (λ _, member_step op a0 a0 (on_members (updated (og_ID o) (u_ID y) new) a0))).
  - case_decide as Hsame.
    + eapply moves_bind; [apply _|apply moves_wrap, at_count|]. intros [l n] Hn. case_decide as Hlast; [apply moves_fail, _|].
      case_decide; [apply moves_fail, _|]. apply moves_ret; [apply _|]. rewrite <- Hsame. apply (step_own_role op a0 a0 x _ _ m); [exact Hx|exact Hm|].
      destruct (decide (new = RoleAdmin)); [by right|left]. eapply (count_admins _ _ (l, n)); [done|]. cbn. naive_solver.
    + destruct (allowMagnageMember m) eqn:Hallow; [|apply moves_fail, _]. apply moves_ret; [apply _|]. apply (step_role op a0 a0 x); [exact Hx|eapply allowed; [exact Hm|done]..|done].
  - intros _ Hstep. eapply changes_read; [apply at_find_member|]. intros [r|] _; [|apply changes_fail].
    apply changes_seq; [by apply changes_wrap, changes_Update|]. intros _. apply moves_bind_true; [apply _|apply from_uuids|]. intros l. by apply from_tell.
Qed.

Lemma delete_is_steps org user op role : changes op a0 (member_component_Delete NotificationRetryCount org user op role).
Proof.
  eapply changes_read; [apply moves_wrap, at_org|]. intros o Ho. eapply changes_read; [apply moves_wrap, at_user|]. intros x Hx.
  eapply changes_read; [apply moves_wrap, at_member|]. intros m Hm. eapply changes_read; [apply moves_wrap, at_user|]. intros y Hy.
  eapply changes_read; [apply moves_wrap, at_count|]. intros [ls total] _. case_decide; [apply changes_fail|].
  eapply (changes_read _ _ (λ _, member_step op a0 a0 (on_members (removed (og_ID o) (u_ID y) role) a0))).
  - case_decide as Hsame.
    + rewrite <- Hsame. case_decide as Hrole.
      * eapply moves_bind; [apply _|apply moves_wrap, at_count|]. intros [l n] Hn. case_decide; [apply moves_fail, _|]. apply moves_ret; [apply _|].
        apply (step_leave op a0 a0 x _ _ m); [exact Hx|exact Hm|]. intros _. by eapply (count_admins _ _ (l, n)).
      * apply moves_ret; [apply _|]. by apply (step_leave op a0 a0 x _ _ m); [exact Hx|exact Hm|].
    + destruct (allowMagnageMember m) eqn:Hallow; [|apply moves_fail, _]. apply moves_ret; [apply _|]. apply (step_remove op a0 a0 x); [exact Hx|eapply allowed; [exact Hm|done]..|done].
  - intros _ Hstep. eapply changes_read; [apply at_find_member|]. intros [r|] _; [|apply changes_ret].
    apply changes_seq; [by apply changes_wrap, changes_Delete|]. intros _. apply moves_bind_true; [apply _|apply from_uuids|]. intros l.
    case_decide; [by apply moves_ret; [apply _|]|by apply from_tell].
Qed.

(** The operator stays an administrator while members are added. *)
Definition stays (operator : bytes) (op : User) (o : Z) (a : access) : Prop := user_named a operator = Some op ∧ admin_of a op o.
Lemma stays_settled operator op o : settled (stays operator op o).
Proof. by intros q a. Qed.
Lemma found_by_app {A} (P : A → Prop) `{!∀ x, Decision (P x)} l l' x : found_by P l = Some x → found_by P (l ++ l') = Some x.
Proof.
  unfold found_by. destruct (list_find P l) as [[i y]|] eqn:Hf; [|done]. intros [= ->].
  apply list_find_Some in Hf as (Hi & HP & Hno). assert (list_find P (l ++ l') = Some (i, x)) as ->; [|done].
  apply list_find_Some. split_and!; [by apply lookup_app_l_Some|done|]. intros j z Hz Hj. apply (Hno j); [|done]. rewrite lookup_app_l in Hz; [done|].
  apply lookup_lt_Some in Hi. lia.
Qed.
Lemma stays_added operator op o a o' u role : stays operator op o a → stays operator op o (on_members (added o' u role) a).
Proof. intros (? & m & ? & ?). split; [done|]. exists m. split; [|done]. by apply found_by_app. Qed.

Lemma from_weaken operator a b J J' w : rtc (member_step operator a0) a b → (∀ x, J x → J' x) → from operator b J w → from operator a J' w.
Proof. intros Hab HJ (? & ? & ?). split_and!; [by etrans|auto|done]. Qed.
Lemma add_is_steps operator op o org users role : admin_of a0 op o → ∀ a, stays operator op o a → changes operator a (add_members NotificationRetryCount o org users role).
Proof.
  intros Hop. induction users as [|n users IH]; intros a Ha; cbn [add_members]; [apply changes_ret|].
  eapply changes_read; [apply moves_wrap, at_user|]. intros y Hy. eapply changes_read; [apply at_find_member|]. intros [r|] (_ & Hnone); [by apply IH|].
  assert (member_step operator a0 a (on_members (added o (u_ID y) role) a)) as Hstep.
  { apply (step_add operator a0 a op); [apply Ha|done|apply Ha|]. symmetry. by apply Hnone. }
  intros w Hw. destruct (changes_Add operator a o (u_ID y) role (stays operator op o) Hstep (stays_added _ _ _ _ _ _ _ Ha) w Hw) as (Hend & Hret).
  unfold mbind at 1, io_bind at 1, io_wrap at 1. destruct (member_Add o (u_ID y) role w) as [[[]|e|] w'] eqn:Hrun; cbn [fst snd] in *; [|done..].
  apply (from_weaken operator a (on_members (added o (u_ID y) role) a) (λ _, True)); [by apply rtc_once|done|].
  eapply moves_end; [apply from_uuids|exact (Hret tt eq_refl)|intros ? (? & ? & ?); by split_and!|]. intros l w2 Hw2 _.
  assert (later operator (on_members (added o (u_ID y) role) a) (stays operator op o) (λ _, True)
    (if decide (l = []) then mret tt else sendMemberMsg NotificationRetryCount (mk_mreq l org (bs "add") n []))) as Htell.
  { case_decide; [by apply moves_ret; [apply _|]|apply from_tell, stays_settled]. }
  eapply moves_end; [exact Htell|exact Hw2|intros ? (? & ? & ?); by split_and!|].
  intros _ w3 (Hreach & Hstays & Hh) _. eapply from_weaken; [exact Hreach|done|]. apply IH; [done|by split].
Qed.
Lemma adds_are_steps org users op role : changes op a0 (AddMembers NotificationRetryCount org users op role).
Proof.
  eapply changes_read; [apply moves_wrap, at_org|]. intros o Ho. eapply changes_read; [apply moves_wrap, at_user|]. intros x Hx.
  eapply changes_read; [apply moves_wrap, at_member|]. intros m Hm. destruct (allowMagnageMember m) eqn:Hallow; [|apply changes_fail].
  assert (admin_of a0 x (og_ID o)) by (eapply allowed; [exact Hm|done]). by apply (add_is_steps op x).
Qed.

End steps.

(** Every operation is a sequence of guarded changes. *)
Lemma operation_is_steps o w : honest w → rtc (member_step (operator_of o) (get_access w)) (get_access w) (get_access (member_perform o w)) ∧ honest (member_perform o w).
Proof.
  intros Hw. assert (at_ True (get_access w) w) as Hat by done.
  destruct o as [org user op old new|org users op role|org user op role]; cbn.
  - by destruct (change_is_steps _ org user op old new w Hat) as (? & _ & ?).
  - by destruct (adds_are_steps _ org users op role w Hat) as (? & _ & ?).
  - by destruct (delete_is_steps _ org user op role w Hat) as (? & _ & ?).
Qed.
End members.

(** ** What the changes keep *)

(** Each user has at most one row in an organization. *)
Definition paired (a : access) : Prop := NoDup ((λ m, (mb_OrganizationID m, mb_UserID m)) <$> ac_members a).

Lemma listed_op a op operator o m : user_named a operator = Some op → row_of a o (u_ID op) = Some m → mb_Role m = RoleAdmin → m ∈ admins a o.
Proof.
  intros (Hop & _)%found_by_Some (Hm & Ho & Hu)%found_by_Some Hr. apply list_elem_of_filter. split; [|done].
  split_and!; [done|by right|]. rewrite Hu. by apply list_elem_of_fmap_2.
Qed.
Lemma admins_kept a f o m : m ∈ admins a o → m ∈ f (ac_members a) → m ∈ admins (on_members f a) o.
Proof. unfold admins. rewrite !list_elem_of_filter. cbn. tauto. Qed.
Lemma in_updated o u role l m : m ∈ l → ¬ belongs o u m → m ∈ updated o u role l.
Proof. intros Hm Hb. apply list_elem_of_fmap. exists m. by rewrite decide_False. Qed.
Lemma in_removed o u role l m : m ∈ l → ¬ belongs o u m ∨ mb_Role m ≠ role → m ∈ removed o u role l.
Proof. intros Hm Hb. apply list_elem_of_filter. tauto. Qed.

(** Of several administrators not all are one user. *)
Lemma another_admin a o u : paired a → (1 < length (admins a o))%nat → ∃ m, m ∈ admins a o ∧ ¬ belongs o u m.
Proof.
  intros Hp Hn. unfold admins in *. assert (NoDup ((λ m, (mb_OrganizationID m, mb_UserID m)) <$> filter (listed (ac_users a) o RoleAdmin) (ac_members a))) as Hd.
  { eapply sublist_NoDup; [exact Hp|]. apply fmap_sublist, sublist_filter. }
  destruct (filter _ _) as [|m1 [|m2 l]]; cbn in *; [lia..|]. destruct (decide (belongs o u m1)) as [[H1 H1']|]; [|exists m1; by split; [left|]].
  exists m2. split; [by right; left|]. intros [H2 H2']. apply NoDup_cons in Hd as [Hd _]. apply Hd. rewrite H1, H1', H2, H2'. left.
Qed.
Lemma row_unique a o u m m' : paired a → row_of a o u = Some m → m' ∈ ac_members a → belongs o u m' → m' = m.
Proof.
  intros Hp (Hm & Ho & Hu)%found_by_Some Hm' [Ho' Hu']. eapply keyed_eq; [exact Hp|done..|]. cbn. congruence.
Qed.

(** The rows of an organization stay when another's are written. *)
Lemma other_org o o' u m a : m ∈ admins a o' → o' ≠ o → ¬ belongs o u m.
Proof. unfold admins. rewrite list_elem_of_filter. intros ((Hm & _) & _) Hne [Ho _]. congruence. Qed.

Lemma step_keeps_admin operator a0 a b orgID : paired a → member_step operator a0 a b → admins a orgID ≠ [] → admins b orgID ≠ [].
Proof.
  intros Hp Hstep Hsome. assert (∃ m0, m0 ∈ admins a orgID) as (m0 & Hm0).
  { destruct (admins a orgID) as [|m0 ?]; [done|]. exists m0. left. }
  clear Hsome.
  assert (∀ m (l : list Member), m ∈ l → l ≠ []) as Hne by (intros m [|??]; [by intros ?%not_elem_of_nil|done]).
  assert (∀ o u, orgID ≠ o → ¬ belongs o u m0) as Hother by (intros; by eapply other_org).
  assert (∀ m o, m ∈ admins a o → m ∈ ac_members a) as Hmem by (intros m o; unfold admins; rewrite list_elem_of_filter; tauto).
  destruct Hstep as [q|a op o role m Hop Hm Hguard|a op u o role Hop _ (m & Hm & Hr) Hneq|a op o role m Hop Hm Hguard|a op u o role Hop _ (m & Hm & Hr) Hneq|a op u o role Hop _ _ _].
  - by eapply Hne.
  - destruct (decide (orgID = o)) as [->|]; [|eapply Hne, admins_kept, in_updated; eauto]. destruct Hguard as [Hn| ->].
    + destruct (another_admin a o (u_ID op) Hp Hn) as (m' & Hm' & Hb). eapply Hne, admins_kept, in_updated; eauto.
    + apply (Hne (mk_member o (u_ID op) RoleAdmin)). apply list_elem_of_filter. apply found_by_Some in Hop as (Hop & _), Hm as (Hm & Hb).
      split; [split_and!; [done|by right|cbn; by apply list_elem_of_fmap_2]|]. apply list_elem_of_fmap. exists m. by rewrite decide_True.
  - destruct (decide (orgID = o)) as [->|]; [|eapply Hne, admins_kept, in_updated; eauto]. eapply (Hne m), admins_kept, in_updated; [by eapply listed_op| |].
    + by apply found_by_Some in Hm as (? & _).
    + apply found_by_Some in Hm as (_ & _ & Hu). intros [_ ?]. congruence.
  - destruct (decide (orgID = o)) as [->|]; [|eapply Hne, admins_kept, in_removed; eauto].
    destruct (decide (mb_Role m = RoleAdmin)) as [Hr|Hr].
    + destruct (another_admin a o (u_ID op) Hp (Hguard Hr)) as (m' & Hm' & Hb). eapply Hne, admins_kept, in_removed; eauto.
    + eapply (Hne m0), admins_kept, in_removed; [done|by eapply Hmem|]. left. intros Hb. apply Hr. rewrite <- (row_unique a o (u_ID op) m m0); [|done|done|by eapply Hmem|done].
      unfold admins in Hm0. rewrite list_elem_of_filter in Hm0. destruct Hm0 as ((_ & [?|?] & _) & _); done.
  - destruct (decide (orgID = o)) as [->|]; [|eapply Hne, admins_kept, in_removed; eauto]. eapply (Hne m), admins_kept, in_removed; [by eapply listed_op| |].
    + by apply found_by_Some in Hm as (? & _).
    + apply found_by_Some in Hm as (_ & _ & Hu). left. intros [_ ?]. congruence.
  - eapply Hne, admins_kept; [done|]. apply elem_of_app. left. by eapply Hmem.
Qed.
Lemma updated_keys o u role l : (λ m, (mb_OrganizationID m, mb_UserID m)) <$> updated o u role l = (λ m, (mb_OrganizationID m, mb_UserID m)) <$> l.
Proof. unfold updated. rewrite <- list_fmap_compose. apply list_fmap_ext. intros i m _. cbn. case_decide as Hb; [|done]. destruct Hb as [<- <-]. done. Qed.
Lemma step_paired operator a0 a b : member_step operator a0 a b → paired a → paired b.
Proof.
  unfold paired. intros Hstep Hp. destruct Hstep; cbn; rewrite ?updated_keys; try done.
  - eapply sublist_NoDup; [exact Hp|]. apply fmap_sublist, sublist_filter.
  - eapply sublist_NoDup; [exact Hp|]. apply fmap_sublist, sublist_filter.
  - unfold added. rewrite fmap_app. apply NoDup_app. split_and!; [done| |apply NoDup_singleton]. cbn.
    intros x (m & -> & Hm)%list_elem_of_fmap Hx%list_elem_of_singleton. injection Hx as Ho Hu.
    match goal with Hn : row_of _ _ _ = None |- _ => exact (found_by_None _ _ Hn m Hm (conj Ho Hu)) end.
Qed.
