(* ===== verification/AcRulesSpec.v ===== *)
(** What holds of members and permissions: over any operations an organization
    keeps an administrator, and who is not one changes no one else's
    membership, though any member may become one; a permission is granted only
    where the tables give it and, undisturbed, always there, and the
    permissions of a repository agree with it. *)
From S2P Require Import Prelude GoLib Errorx AcAccess AcSpec AcMemberSpec.
Open Scope Z_scope.

(** ** Runs of member operations *)

(** The rows of an organization that are not the operator's own. *)
Definition others (a : access) (operator : bytes) (orgID : Z) : list Member :=
  filter (λ m, mb_OrganizationID m = orgID ∧ (u_ID <$> user_named a operator) ≠ Some (mb_UserID m)) (ac_members a).

Lemma filter_updated (P : Member → Prop) `{!∀ m, Decision (P m)} o u role l :
  (∀ m, belongs o u m → ¬ P m) → (¬ P (mk_member o u role)) → filter P (updated o u role l) = filter P l.
Proof.
  intros Hb Hnew. induction l as [|m l IH]; [done|]. cbn [updated fmap list_fmap]. case_decide as Hm.
  - rewrite !filter_cons_False by auto. exact IH.
  - rewrite !filter_cons. case_decide; [f_equal|]; exact IH.
Qed.
Lemma filter_removed (P : Member → Prop) `{!∀ m, Decision (P m)} o u role l :
  (∀ m, belongs o u m → ¬ P m) → filter P (removed o u role l) = filter P l.
Proof.
  intros Hb. unfold removed. rewrite list_filter_filter. apply list_filter_iff. intros m. split; [tauto|]. intros HP. split; [done|]. intros [? _]. by eapply Hb.
Qed.
Lemma filter_added (P : Member → Prop) `{!∀ m, Decision (P m)} o u role l : ¬ P (mk_member o u role) → filter P (added o u role l) = filter P l.
Proof. intros Hnew. unfold added. rewrite filter_app, filter_cons_False by done. by rewrite filter_nil, app_nil_r. Qed.

Lemma step_users operator a0 a b : member_step operator a0 a b → ac_users b = ac_users a.
Proof. by destruct 1. Qed.
Lemma step_others operator a0 a b orgID : member_step operator a0 a b → ac_users a0 = ac_users a →
  (∀ op, user_named a0 operator = Some op → ¬ admin_of a0 op orgID) → others b operator orgID = others a operator orgID.
Proof.
  intros Hstep Husers Hno. assert (user_named a0 operator = user_named a operator) as Hnamed by (unfold user_named; by rewrite Husers).
  unfold others. replace (user_named b operator) with (user_named a operator) by (unfold user_named; by rewrite (step_users _ _ _ _ Hstep)).
  rewrite Hnamed in Hno. destruct Hstep as [q a|a op o role m Hop _ _|a op u o role Hop Ha _ _|a op o role m Hop _ _|a op u o role Hop Ha _ _|a op u o role Hop Ha _ _];
    rewrite ?Hop; cbn [on_members ac_members add_notice]; [done|..].
  - apply filter_updated; [intros m' (_ & Hu) (_ & Hne)|intros (_ & Hne)]; apply Hne; cbn in *; congruence.
  - apply filter_updated; [intros m' (Ho & _) (Ho' & _)|intros (Ho & _)]; cbn in *; subst; by apply (Hno op).
  - apply filter_removed. intros m' (_ & Hu) (_ & Hne). apply Hne. cbn. congruence.
  - apply filter_removed. intros m' (Ho & _) (Ho' & _). subst. by apply (Hno op).
  - apply filter_added. intros (Ho & _). cbn in *. subst. by apply (Hno op).
Qed.
Lemma steps_others operator a0 a b orgID : rtc (member_step operator a0) a b → ac_users a0 = ac_users a →
  (∀ op, user_named a0 operator = Some op → ¬ admin_of a0 op orgID) → others b operator orgID = others a operator orgID.
Proof.
  intros Hsteps Husers Hno. induction Hsteps as [|a b c Hstep _ IH]; [done|]. rewrite IH by (by rewrite (step_users _ _ _ _ Hstep)).
  by eapply step_others.
Qed.
Lemma steps_keep operator a0 a b orgID : rtc (member_step operator a0) a b → paired a →
  paired b ∧ (admins a orgID ≠ [] → admins b orgID ≠ []).
Proof.
  induction 1 as [|a b c Hstep _ IH]; [done|]. intros Hp. destruct IH as (? & Hadm); [by eapply step_paired|]. split; [done|].
  intros Ha. apply Hadm. exact (step_keeps_admin _ _ _ _ _ Hp Hstep Ha).
Qed.

Lemma found_by_cons {A} (P : A → Prop) `{!∀ x, Decision (P x)} x l : found_by P (x :: l) = if decide (P x) then Some x else found_by P l.
Proof. unfold found_by. cbn. case_decide; [done|]. by destruct (list_find P l) as [[]|]. Qed.
Lemma found_updated o u role l m : found_by (belongs o u) l = Some m → found_by (belongs o u) (updated o u role l) = Some (mk_member o u role).
Proof.
  induction l as [|x l IH]; [done|]. rewrite found_by_cons. cbn [updated fmap list_fmap]. rewrite found_by_cons. case_decide as Hx; [by rewrite decide_True|].
  by rewrite decide_False.
Qed.
Lemma one_row a o u m : paired a → row_of a o u = Some m → length (filter (belongs o u) (ac_members a)) = 1%nat.
Proof.
  intros Hp Hm. assert (m ∈ filter (belongs o u) (ac_members a)) as Hin by (apply list_elem_of_filter; apply found_by_Some in Hm; tauto).
  assert (NoDup (filter (belongs o u) (ac_members a))) as Hd by (apply NoDup_filter; by apply (NoDup_fmap_1 (λ m, (mb_OrganizationID m, mb_UserID m)))).
  assert (∀ x, x ∈ filter (belongs o u) (ac_members a) → x = m) as Hall.
  { intros x (Hx & Hin')%list_elem_of_filter. by eapply row_unique. }
  destruct (filter _ _) as [|x [|y l]]; [by apply not_elem_of_nil in Hin|done|].
  apply NoDup_cons in Hd as (Hd & _). destruct Hd. rewrite (Hall x) by left. rewrite (Hall y) by (right; left). left.
Qed.

Section rules.
Context {W : Type} `{Access W}.
Variable NotificationRetryCount : nat.
Abbreviation aio := (io W goerr).
#[local] Existing Instance everywhere_preorder.

Definition member_run (ops : list member_op) (w : W) : W := foldl (λ w o, member_perform NotificationRetryCount o w) w ops.

(** C21: Members may change roles, add and remove members, their own included,
    in any sequence of operations and whatever calls fail: an organization
    that has an administrator keeps one, and a user keeps at most one row in
    an organization (a failing call must not pass for one that finds no
    row). *)
Theorem orgs_keep_an_admin ops w orgID : honest w → paired (get_access w) → admins (get_access w) orgID ≠ [] →
  paired (get_access (member_run ops w)) ∧ admins (get_access (member_run ops w)) orgID ≠ [].
Proof.
  revert w. induction ops as [|o ops IH]; intros w Hw Hp Ha; [done|]. destruct (operation_is_steps NotificationRetryCount o w Hw) as (Hsteps & Hw').
  destruct (steps_keep _ _ _ _ orgID Hsteps Hp) as (? & ?). by apply (IH (member_perform NotificationRetryCount o w)); auto.
Qed.

(** An operation by a user who is not an administrator of an organization
    when it begins leaves the rows of everyone else in it as they are,
    whatever the request and whatever calls fail; one by a name that is no
    user leaves all rows. *)
Theorem member_changes_need_admin o w orgID : honest w →
  (∀ op, user_named (get_access w) (operator_of o) = Some op → ¬ admin_of (get_access w) op orgID) →
  others (get_access (member_perform NotificationRetryCount o w)) (operator_of o) orgID = others (get_access w) (operator_of o) orgID.
Proof. intros Hw Hno. destruct (operation_is_steps NotificationRetryCount o w Hw) as (Hsteps & _). by eapply steps_others. Qed.

(** ** Undisturbed runs *)

Lemma gives_read {A} (f : access → A) w : undisturbed w → gives (read f) w (f (get_access w)).
Proof. intros Hw. eapply gives_bind; [by apply gives_fault|done]. Qed.
Lemma gives_row {A} (f : access → option A) w x : undisturbed w → f (get_access w) = Some x → gives (read_row f) w x.
Proof. intros Hw Hx. eapply gives_bind; [by apply gives_read|]. by rewrite Hx. Qed.
Lemma gives_user w n u : undisturbed w → user_named (get_access w) n = Some u → gives (FindByUsername n) w u.
Proof. intros Hw Hu. by apply gives_wrap, gives_row. Qed.
Lemma gives_org w n o : undisturbed w → found_by (λ o, og_Name o = n) (ac_orgs (get_access w)) = Some o → gives (org_FindByPath n) w o.
Proof. intros Hw Hu. by apply gives_wrap, gives_row. Qed.
Lemma gives_member w o u m : undisturbed w → row_of (get_access w) o u = Some m → gives (member_Find o u) w m.
Proof. intros Hw Hu. by apply gives_row. Qed.
Lemma gives_count w o r : undisturbed w → ∃ ls, gives (OrganizationMembers o r 1 1) w (ls, len (filter (listed (ac_users (get_access w)) o r) (ac_members (get_access w)))).
Proof.
  intros Hw. eexists. eapply gives_bind; [by apply gives_wrap, gives_read|]. eapply gives_bind; [by apply gives_wrap, gives_read|]. done.
Qed.
Lemma gives_find_member w s o u : undisturbed w → gives (find_member s o u) w (row_of (get_access w) o u).
Proof.
  intros Hw. unfold find_member. destruct (row_of (get_access w) o u) as [m|] eqn:Hm.
  - eapply gives_bind; [by apply gives_try, gives_member|done].
  - unfold gives, mbind at 1, io_bind at 1, io_try, member_Find, read_row. rewrite (run_gives _ _ _ _ (gives_read _ _ Hw)).
    unfold row_of in Hm. by rewrite Hm.
Qed.
Lemma gives_svc_role w org n r : undisturbed w → role_in (get_access w) org n = Some r → gives (svc_GetMemberRole org n) w r.
Proof.
  intros Hw Hr. unfold role_in in Hr. destruct (found_by (λ o, og_Name o = org) _) as [o|] eqn:Ho; [|done]. cbn in Hr.
  destruct (found_by _ (ac_users _)) as [u|] eqn:Hu in Hr; [|done]. cbn in Hr. injection Hr as <-.
  apply gives_wrap. eapply gives_bind; [by apply gives_fault|]. cbv beta.
  eapply (gives_bind _ _ _ (Ok _)); [apply gives_try|reflexivity].
  eapply gives_bind; [by apply gives_wrap, gives_org|]. eapply gives_bind; [by apply gives_wrap, gives_user|].
  eapply gives_bind; [by apply gives_find_member|]. done.
Qed.
Lemma gives_permission w u ns needed : undisturbed w → needed ∈ [RoleRead; RoleWrite; RoleAdmin] → may (get_access w) u ns needed →
  gives (CheckCurrentUserPermission u ns needed) w true.
Proof.
  intros Hw Hneeded (y & x & Hy & Hx & Hmay). unfold CheckCurrentUserPermission.
  eapply gives_bind; [by apply gives_wrap, gives_row|]. eapply gives_bind; [by apply gives_wrap, gives_user|].
  destruct (user_CanAdmin y) eqn:Hadmin; [done|]. destruct Hmay as [?|[(Hty & Hu)|(Hty & r & Hr & Hreach)]]; [done| |].
  - rewrite decide_True by done. by rewrite bool_decide_eq_true_2.
  - rewrite decide_False by done. eapply gives_bind; [by apply gives_svc_role|]. unfold reaches in Hreach.
    repeat case_decide; try (unfold gives; by rewrite Hreach). all: apply andb_true_iff in Hreach as (?%bool_decide_eq_true & Hr'); try done; unfold gives; by rewrite Hr'.
Qed.

(** C22: A user is granted a role in a namespace only if the tables give it:
    the server's administrators, the owner of the namespace, and the members
    of an organization whose role suffices; this holds whatever calls fail.
    Undisturbed, the grant is also made wherever they give it. *)
Theorem permission_is_membership u ns needed w : needed ∈ [RoleRead; RoleWrite; RoleAdmin] →
  (fst (CheckCurrentUserPermission u ns needed w) = Ret true → may (get_access w) u ns needed) ∧
  (undisturbed w → may (get_access w) u ns needed → CheckCurrentUserPermission u ns needed w = (Ret true, w)).
Proof.
  intros Hneeded. split; [|intros; by apply gives_permission]. intros Hrun.
  destruct (at_permission False (get_access w) u ns needed w) as (_ & _ & HP); [by split|]. by apply (HP true).
Qed.

(** A change of a row that is there, and its notice. *)
Lemma run_Update w o u role m : undisturbed w → paired (get_access w) → row_of (get_access w) o u = Some m →
  member_Update o u role w = (Ret tt, set_access (on_members (updated o u role) (get_access w)) w).
Proof.
  intros Hw Hp Hm. unfold member_Update. rewrite (run_gives _ _ w tt) by (by apply gives_fault). erewrite (run_gives _ _ w) by done.
  erewrite run_seq by done. rewrite decide_True; [done|]. by eapply one_row.
Qed.
Lemma run_tell w q : undisturbed w → ∃ w', sendMemberMsg NotificationRetryCount q w = (Ret tt, w') ∧ ac_members (get_access w') = ac_members (get_access w).
Proof.
  intros Hw. unfold sendMemberMsg. destruct NotificationRetryCount as [|n]; [by exists w|].
  assert (send_notice (S n) q w = (Ret tt, set_access (add_notice q (get_access w)) w)) as Hsend.
  { cbn [send_notice]. by rewrite (run_gives _ _ w (Ok tt)) by (by apply gives_try, gives_fault). }
  eexists. split; [unfold io_try, mbind, io_bind; by rewrite Hsend|]. by rewrite get_set_access.
Qed.

(** The operator's claim of the old role is believed: any member, of
    whatever role, who asks for his own role to be changed from admin to admin
    becomes an administrator of the organization. *)
Theorem any_member_becomes_admin orgName userName org u m w : undisturbed w → paired (get_access w) →
  found_by (λ o, og_Name o = orgName) (ac_orgs (get_access w)) = Some org → user_named (get_access w) userName = Some u →
  row_of (get_access w) (og_ID org) (u_ID u) = Some m →
  let r := ChangeMemberRole NotificationRetryCount orgName userName userName RoleAdmin RoleAdmin w in
  fst r = Ret tt ∧ admin_of (get_access (snd r)) u (og_ID org).
Proof.
  intros Hw Hp Horg Hu Hm. cbv zeta. unfold ChangeMemberRole.
  rewrite (run_gives _ _ w org) by (by apply gives_wrap, gives_org). rewrite (run_gives _ _ w u) by (by apply gives_wrap, gives_user).
  rewrite (run_gives _ _ w m) by (by apply gives_wrap, gives_member). rewrite (run_gives _ _ w u) by (by apply gives_wrap, gives_user).
  destruct (gives_count w (og_ID org) RoleAdmin Hw) as (ls & Hcount).
  rewrite (run_gives _ _ w tt).
  2: { rewrite decide_True by done. eapply gives_bind; [by apply gives_wrap|]. cbv beta iota. rewrite !decide_False by naive_solver. done. }
  rewrite (run_gives _ _ w (Some m)) by (rewrite <- Hm; by apply gives_find_member). cbv iota.
  rewrite (run_seq _ _ w tt (set_access (on_members (updated (og_ID org) (u_ID u) RoleAdmin) (get_access w)) w)).
  2: { unfold io_wrap. by rewrite (run_Update _ _ _ _ m). }
  set (w' := set_access _ w). assert (undisturbed w') as Hw' by (unfold undisturbed, w'; by rewrite set_access_faults).
  erewrite run_gives by (by apply gives_wrap, gives_wrap, gives_read).
  match goal with |- context [sendMemberMsg _ ?q w'] => destruct (run_tell w' q Hw') as (w2 & -> & Hrows) end.
  split; [done|]. exists (mk_member (og_ID org) (u_ID u) RoleAdmin). split; [|done]. unfold row_of. cbn [snd]. rewrite Hrows. unfold w'. rewrite get_set_access.
  by eapply found_updated.
Qed.

(** ** The permissions of a repository *)

(** As a server administrator, or by what the repository's own namespace
    gives. *)
Definition earned (a : access) (u : bytes) (r : Repository) (needed : Role) : Prop :=
  (∃ y, user_named a u = Some y ∧ user_CanAdmin y = true) ∨ ∃ n m, NamespaceAndName r = Some (n, m) ∧ may a u n needed.
Definition permission_earned (a : access) (u : bytes) (r : Repository) (p : UserRepoPermission) : Prop :=
  (p_CanRead p = true → rp_Private r = false ∨ earned a u r RoleRead) ∧ (p_CanWrite p = true → earned a u r RoleWrite) ∧
  (p_CanAdmin p = true → earned a u r RoleAdmin).
Lemma at_repo_permission a u r : moves (E := goerr) (at_ (W := W) False a) everywhere (permission_earned a u r) (GetUserRepoPermission u r).
Proof.
  assert (permission_earned a u r (mk_perm (negb (rp_Private r)) false false)) as Hpublic.
  { split_and!; [|done..]. intros ?%negb_true_iff. by left. }
  unfold GetUserRepoPermission. case_decide; [by apply moves_ret; [apply _|]|].
  eapply moves_bind; [apply _|apply moves_wrap, at_user|]. intros y Hy. destruct (user_CanAdmin y) eqn:Hadmin.
  { apply moves_ret; [apply _|]. split_and!; intros _; [right|..]; left; by exists y. }
  eapply moves_bind; [apply _|apply at_namespace_of|]. intros n (m & Hn). eapply moves_bind; [apply _|apply moves_wrap, at_namespace|]. intros x Hx.
  case_decide as Hty.
  - case_decide as Hself; [|by apply moves_ret; [apply _|]]. apply moves_ret; [apply _|].
    assert (∀ needed, earned a u r needed) as He; [|split_and!; auto]. intros needed. right. exists n, m. split; [done|]. exists y, x. split_and!; [done..|]. by right; left.
  - eapply moves_bind; [apply _|apply moves_wrap, at_svc_role|]. intros role Hrole. apply moves_ret; [apply _|].
    assert (∀ needed, reaches needed role = true → earned a u r needed) as He.
    { intros needed Hr. destruct Hrole as [-> |Hrole]; [by rewrite reaches_unknown in Hr|]. right. exists n, m. split; [done|]. exists y, x. split_and!; [done..|].
      right; right. split; [done|]. by exists role. }
    split_and!; cbn [p_CanRead p_CanWrite p_CanAdmin].
    + intros [Hc|?%negb_true_iff]%orb_true_iff; [right|by left]. by apply He.
    + intros Hc. by apply He.
    + intros Hc. by apply He.
Qed.

(** What writing and administering rest on: a repository found without regard
    to case, and a role in the namespace as the request spells it. That is the
    repository's own namespace when the request spells it as the repository
    does. *)
Definition entitled_as_spelled (LOWER : bytes → bytes) (a : access) (repoType namespace name u : bytes) (needed : Role) : Prop :=
  ∃ r, repo_at LOWER a repoType namespace name = Some r ∧ u ≠ [] ∧ may a u namespace needed ∧
    (fst <$> NamespaceAndName r = Some namespace → earned a u r needed).
Lemma allowed_as_spelled LOWER w role repoType namespace name u :
  fst (allow_access LOWER role repoType namespace name u w) = Ret true → entitled_as_spelled LOWER (get_access w) repoType namespace name u role.
Proof.
  intros Hr. assert (at_ False (get_access w) w) as Hat by done.
  destruct (at_allow_access LOWER False (get_access w) role repoType namespace name u w Hat) as (_ & _ & HP).
  destruct (HP true Hr eq_refl) as ((r & Hat') & Hu & Hmay). exists r. split_and!; [done..|].
  destruct (NamespaceAndName r) as [[n m]|] eqn:Hn; [|done]. cbn. intros [= ->]. right. by exists namespace, m.
Qed.

(** C23: Every check of a repository grants only what the tables give,
    whatever calls fail: reading needs a public repository or a role in its
    namespace, and the permissions handed to the user interface need a role in
    the repository's own namespace. Writing and administering need a repository
    and a role in the namespace as the request spells it, so one in the
    repository's own namespace if that is how the request spells it. For a
    request that spells it in other letters, upper or lower case, they need
    nothing of the repository's own namespace ([case_variant_takes_over]). *)
Theorem access_is_earned (LOWER : bytes → bytes) w repoType namespace name u r : let a := get_access w in
  (fst (AllowReadAccess LOWER repoType namespace name u w) = Ret true → ∃ r, repo_at LOWER a repoType namespace name = Some r ∧ readable a r u) ∧
  (fst (AllowWriteAccess LOWER repoType namespace name u w) = Ret true → entitled_as_spelled LOWER a repoType namespace name u RoleWrite) ∧
  (fst (AllowAdminAccess LOWER repoType namespace name u w) = Ret true → entitled_as_spelled LOWER a repoType namespace name u RoleAdmin) ∧
  (∀ p, fst (GetUserRepoPermission u r w) = Ret p → permission_earned a u r p).
Proof.
  assert (at_ False (get_access w) w) as Hat by done. cbv zeta. split_and!; [|apply allowed_as_spelled..|].
  - intros Hr. destruct (at_AllowReadAccess LOWER False (get_access w) repoType namespace name u w Hat) as (_ & _ & HP). by apply (HP true).
  - intros p Hr. destruct (at_repo_permission (get_access w) u r w Hat) as (_ & _ & HP). by apply (HP p).
Qed.

Lemma run_user w n : undisturbed w →
  (∃ y, user_named (get_access w) n = Some y ∧ gives (FindByUsername n) w y) ∨ ∃ e, FindByUsername n w = (Fail e, w).
Proof.
  intros Hw. destruct (user_named (get_access w) n) as [y|] eqn:Hy; [left; exists y; split; [done|by apply gives_user]|right].
  eexists. unfold FindByUsername, io_wrap, read_row. rewrite (run_gives _ _ _ _ (gives_read _ _ Hw)). unfold user_named in Hy. by rewrite Hy.
Qed.
Lemma fst_bind_Ret {A B} (m : aio A) (f : A → aio B) w y : fst ((m ≫= f) w) = Ret y → ∃ x w', m w = (Ret x, w') ∧ fst (f x w') = Ret y.
Proof. unfold mbind, io_bind. destruct (m w) as [[x|e|] w'] eqn:?; [by intros; exists x, w'|done..]. Qed.
Lemma io_wrap_Ret {A} f (m : aio A) w x w' : io_wrap f m w = (Ret x, w') → m w = (Ret x, w').
Proof. unfold io_wrap. destruct (m w) as [[] ?]; congruence. Qed.

(** The permissions of a repository and the checks agree: undisturbed, for
    a user name and the repository's own namespace, what
    [GetUserRepoPermission] tells of reading, writing and administering is what
    each check answers, and each permission includes the lesser ones. *)
Theorem permissions_agree u r n m x p w : undisturbed w → u ≠ [] → NamespaceAndName r = Some (n, m) →
  found_by (λ x, ns_Path x = n) (ac_namespaces (get_access w)) = Some x → fst (GetUserRepoPermission u r w) = Ret p →
  fst (AllowReadAccessRepo r u w) = Ret (p_CanRead p) ∧ fst (CheckCurrentUserPermission u n RoleWrite w) = Ret (p_CanWrite p) ∧
  fst (CheckCurrentUserPermission u n RoleAdmin w) = Ret (p_CanAdmin p) ∧
  (p_CanAdmin p = true → p_CanWrite p = true) ∧ (p_CanWrite p = true → p_CanRead p = true).
Proof.
  intros Hw Hu Hn Hx. unfold GetUserRepoPermission. rewrite decide_False by done. intros (y & w1 & Hy & Hrun)%fst_bind_Ret. apply io_wrap_Ret in Hy.
  destruct (run_user w u Hw) as [(y' & Hy' & Hgives)|(e & He)]; [|congruence]. rewrite Hgives in Hy. injection Hy as -> <-.
  assert (fst (AllowReadAccessRepo r u w) = if rp_Private r then fst (CheckCurrentUserPermission u n RoleRead w) else Ret true) as ->.
  { unfold AllowReadAccessRepo. destruct (rp_Private r); [|done]. cbn [negb]. rewrite decide_False by done. unfold namespace_of. by rewrite Hn. }
  assert (∀ role, fst (CheckCurrentUserPermission u n role w) = fst ((if user_CanAdmin y then mret true
    else if decide (ns_NamespaceType x = UserNamespace) then mret (bool_decide (u = n))
    else r ← svc_GetMemberRole n u; if decide (role = RoleAdmin) then mret (CanAdmin r) else if decide (role = RoleWrite) then mret (CanWrite r)
      else if decide (role = RoleRead) then mret (CanRead r) else io_fail (NewError (bs "unknown role " ++ role)) : aio bool) w)) as Hcheck.
  { intros role. unfold CheckCurrentUserPermission. rewrite (run_gives _ _ w x) by (by apply gives_wrap, gives_row).
    by rewrite (run_gives _ _ w y) by (by apply gives_wrap, gives_user). }
  rewrite !Hcheck. clear Hcheck. unfold namespace_of in Hrun. rewrite Hn in Hrun. destruct (user_CanAdmin y).
  { injection Hrun as <-. cbn. by destruct (rp_Private r). }
  rewrite (run_gives _ _ w n) in Hrun by done. rewrite (run_gives _ _ w x) in Hrun by (by apply gives_wrap, gives_row).
  case_decide as Hty.
  - case_decide; injection Hrun as <-; cbn; [rewrite bool_decide_eq_true_2 by done|rewrite bool_decide_eq_false_2 by done]; by destruct (rp_Private r).
  - apply fst_bind_Ret in Hrun as (role & w2 & Hrole%io_wrap_Ret & Hrun). injection Hrun as <-. unfold mbind, io_bind. rewrite Hrole.
    cbn [p_CanRead p_CanWrite p_CanAdmin]. split_and!; [|done..| |].
    + rewrite orb_comm. by destruct (rp_Private r).
    + unfold CanAdmin, CanWrite. rewrite !bool_decide_eq_true. tauto.
    + unfold CanRead, CanWrite. rewrite orb_true_iff, !bool_decide_eq_true. intros [-> | ->]; by left.
Qed.

(** The repository is looked up without regard to case, but the role that
    is asked for is one in the namespace the request spells: whoever owns a
    user name that differs from a namespace only in case may administer every
    repository of that namespace, and every write goes to the repository
    found. *)
Theorem case_variant_takes_over (LOWER : bytes → bytes) repoType namespace name u y x r w : undisturbed w → u ≠ [] →
  repo_at LOWER (get_access w) repoType namespace name = Some r → LOWER (u ++ bs "/" ++ name) = LOWER (namespace ++ bs "/" ++ name) →
  user_named (get_access w) u = Some y → found_by (λ x, ns_Path x = u) (ac_namespaces (get_access w)) = Some x → ns_NamespaceType x = UserNamespace →
  AllowAdminAccess LOWER repoType u name u w = (Ret true, w) ∧ AllowWriteAccess LOWER repoType u name u w = (Ret true, w) ∧
  repo_FindByPath LOWER repoType u name w = (Ret r, w).
Proof.
  intros Hw Hu Hr Hcase Hy Hx Hty.
  assert (gives (repo_FindByPath LOWER repoType u name) w r) as Hfind by (apply gives_wrap, gives_row; [done|]; unfold repo_at in Hr; by rewrite Hcase).
  assert (∀ needed, needed ∈ [RoleRead; RoleWrite; RoleAdmin] → allow_access LOWER needed repoType u name u w = (Ret true, w)) as Hall.
  { intros needed Hneeded. unfold allow_access. rewrite (run_gives _ _ w r) by (by apply gives_wrap). rewrite decide_False by done.
    apply gives_permission; [done..|]. exists y, x. split_and!; [done..|]. by right; left. }
  split_and!; [apply Hall; set_solver..|exact Hfind].
Qed.
End rules.
