(* ===== verification/AcExample.v ===== *)
(** The rules of members and permissions at a small server: the organization
    Acme with two members, a repository of its own, and a user whose name is
    acme. *)
From S2P Require Import Prelude GoLib Errorx AcAccess AcSpec AcMemberSpec AcRulesSpec.
Open Scope Z_scope.

Definition ascii_LOWER : bytes → bytes := fmap to_lower_byte.
Definition ex_repo : Repository := mk_repo 9 (bs "model") (bs "Acme/m") true false false false.
Definition ex_access : access := mk_access
  [mk_user 1 (bs "alice") (bs "u1") [] false; mk_user 2 (bs "bob") (bs "u2") [] false; mk_user 3 (bs "acme") (bs "u3") [] false]
  [mk_ns (bs "Acme") OrgNamespace; mk_ns (bs "alice") UserNamespace; mk_ns (bs "acme") UserNamespace]
  [mk_org 7 (bs "Acme")] [mk_member 7 1 RoleAdmin; mk_member 7 2 RoleRead] [ex_repo] [].
Definition ex_world (faults : list (option goerr)) : access_world := mk_aw ex_access faults.
Definition ex_down : goerr := NewError (bs "connection refused").

Lemma ex_paired : paired ex_access.
Proof. unfold paired. cbn. repeat constructor; rewrite ?list_elem_of_In; cbn; intuition congruence. Qed.

(** Alice may not leave, the role she gives Bob fails to be told, and then she
    leaves. *)
Lemma orgs_keep_an_admin_witness :
  let w := ex_world [None; None; None; None; None; None; None; Some ex_down] in
  let ops := [ODelete (bs "Acme") (bs "alice") (bs "alice") RoleAdmin; OChange (bs "Acme") (bs "bob") (bs "alice") RoleRead RoleAdmin;
              ODelete (bs "Acme") (bs "alice") (bs "alice") RoleAdmin] in
  honest w ∧ (paired (get_access (member_run 3 ops w)) ∧ admins (get_access (member_run 3 ops w)) 7 ≠ []) ∧
  ac_members (get_access (member_run 3 ops w)) = [mk_member 7 2 RoleAdmin].
Proof.
  cbv zeta. assert (honest (ex_world [None; None; None; None; None; None; None; Some ex_down])) as Hh by (repeat constructor).
  split; [done|split; [|by vm_compute]]. apply (orgs_keep_an_admin 3); [done|apply ex_paired|by vm_compute].
Defined.

(** Bob removes Alice, and the service is down as well. *)
Lemma member_changes_need_admin_witness :
  let o := ODelete (bs "Acme") (bs "alice") (bs "bob") RoleAdmin in
  others (get_access (member_perform 3 o (ex_world [None; Some ex_down]))) (bs "bob") 7 = [mk_member 7 1 RoleAdmin].
Proof.
  cbv zeta. etrans; [apply (member_changes_need_admin 3 (ODelete (bs "Acme") (bs "alice") (bs "bob") RoleAdmin) (ex_world [None; Some ex_down]) 7)|by vm_compute].
  - repeat constructor.
  - intros op [= <-] (m & [= <-] & Hrole). discriminate Hrole.
Defined.

Lemma permission_is_membership_witness :
  RoleWrite ∈ [RoleRead; RoleWrite; RoleAdmin] ∧ may (get_access (ex_world [])) (bs "alice") (bs "Acme") RoleWrite ∧
  CheckCurrentUserPermission (bs "alice") (bs "Acme") RoleWrite (ex_world []) = (Ret true, ex_world []).
Proof.
  assert (RoleWrite ∈ [RoleRead; RoleWrite; RoleAdmin]) as Hin by set_solver.
  assert (may (get_access (ex_world [])) (bs "alice") (bs "Acme") RoleWrite) as Hmay.
  { apply (proj1 (permission_is_membership (bs "alice") (bs "Acme") RoleWrite (ex_world []) Hin)). by vm_compute. }
  split; [done|split; [done|]]. by apply (proj2 (permission_is_membership (bs "alice") (bs "Acme") RoleWrite (ex_world []) Hin)).
Defined.

(** Bob, who may only read, makes himself an administrator. *)
Lemma any_member_becomes_admin_witness :
  let r := ChangeMemberRole 3 (bs "Acme") (bs "bob") (bs "bob") RoleAdmin RoleAdmin (ex_world []) in
  fst r = Ret tt ∧ admin_of (get_access (snd r)) (mk_user 2 (bs "bob") (bs "u2") [] false) 7.
Proof.
  apply (any_member_becomes_admin 3 (bs "Acme") (bs "bob") (mk_org 7 (bs "Acme")) (mk_user 2 (bs "bob") (bs "u2") [] false) (mk_member 7 2 RoleRead) (ex_world []));
    [done|apply ex_paired|by vm_compute..].
Defined.

Lemma permissions_agree_witness :
  fst (AllowReadAccessRepo ex_repo (bs "bob") (ex_world [])) = Ret true ∧
  fst (CheckCurrentUserPermission (bs "bob") (bs "Acme") RoleWrite (ex_world [])) = Ret false.
Proof.
  destruct (permissions_agree (bs "bob") ex_repo (bs "Acme") (bs "m") (mk_ns (bs "Acme") OrgNamespace) (mk_perm true false false) (ex_world []))
    as (Hread & Hwrite & _); [by vm_compute..|]. split; [exact Hread|exact Hwrite].
Defined.

(** The user acme may not write to the organization, and administers its
    repository. *)
Lemma case_variant_takes_over_witness :
  fst (CheckCurrentUserPermission (bs "acme") (bs "Acme") RoleRead (ex_world [])) = Ret false ∧
  AllowAdminAccess ascii_LOWER (bs "model") (bs "acme") (bs "m") (bs "acme") (ex_world []) = (Ret true, ex_world []) ∧
  repo_FindByPath ascii_LOWER (bs "model") (bs "acme") (bs "m") (ex_world []) = (Ret ex_repo, ex_world []).
Proof.
  split; [by vm_compute|].
  destruct (case_variant_takes_over ascii_LOWER (bs "model") (bs "Acme") (bs "m") (bs "acme") (mk_user 3 (bs "acme") (bs "u3") [] false)
    (mk_ns (bs "acme") UserNamespace) ex_repo (ex_world [])) as (Hadmin & _ & Hrepo); [by vm_compute..|]. split; [exact Hadmin|exact Hrepo].
Defined.

(** A reader reads the organization's repository, does not write to it, and
    the service may be down. *)
Lemma access_is_earned_witness :
  fst (AllowReadAccess ascii_LOWER (bs "model") (bs "Acme") (bs "m") (bs "bob") (ex_world [])) = Ret true ∧
  fst (AllowWriteAccess ascii_LOWER (bs "model") (bs "Acme") (bs "m") (bs "bob") (ex_world [])) = Ret false ∧
  ∃ r, repo_at ascii_LOWER (get_access (ex_world [])) (bs "model") (bs "Acme") (bs "m") = Some r ∧ readable (get_access (ex_world [])) r (bs "bob").
Proof.
  split; [by vm_compute|split; [by vm_compute|]].
  apply (proj1 (access_is_earned ascii_LOWER (ex_world []) (bs "model") (bs "Acme") (bs "m") (bs "bob") ex_repo)). by vm_compute.
Defined.
