(* ===== verification/GoTime.v ===== *)
(** Dates and RFC 3339 times (Go's package time), and HMAC-SHA256 (package
    crypto/hmac). Times are nanoseconds since 1970. *)
From S2P Require Import Prelude GoLib GoHash.
Open Scope Z_scope.

(** ** The Gregorian calendar

    Days since 1970 and dates; years are counted from March in eras of 400. *)
Definition is_leap (y : Z) : bool := bool_decide (y `mod` 4 = 0 ∧ (y `mod` 100 ≠ 0 ∨ y `mod` 400 = 0)).
Definition daysIn (m y : Z) : Z :=
  if decide (m = 2) then if is_leap y then 29 else 28 else if decide (m ∈ [4; 6; 9; 11]) then 30 else 31.
(** Days before a year of an era. *)
Definition year_start (yoe : Z) : Z := 365 * yoe + yoe `div` 4 - yoe `div` 100.
Definition year_of (doe : Z) : Z := (doe - doe `div` 1460 + doe `div` 36524 - doe `div` 146096) `div` 365.
Definition date_of (days : Z) : Z * Z * Z :=
  let z := days + 719468 in
  let era := z `div` 146097 in
  let doe := z `mod` 146097 in
  let yoe := year_of doe in
  let doy := doe - year_start yoe in
  let mp := (5 * doy + 2) `div` 153 in
  let d := doy - (153 * mp + 2) `div` 5 + 1 in
  let m := if decide (mp < 10) then mp + 3 else mp - 9 in
  (yoe + 400 * era + (if decide (m ≤ 2) then 1 else 0), m, d).
Definition days_of (y m d : Z) : Z :=
  let y := if decide (m ≤ 2) then y - 1 else y in
  let doy := (153 * (if decide (2 < m) then m - 3 else m + 9) + 2) `div` 5 + d - 1 in
  y `div` 400 * 146097 + year_start (y `mod` 400) + doy - 719468.

(** ** RFC 3339 *)

Definition Second : Z := 1000000000.
(** Digits, with zeros in front up to a width. *)
Fixpoint digits_of (n : nat) (z : Z) : bytes :=
  match n with O => [] | S n => digits_of n (z `div` 10) ++ [ascii_of_nat (Z.to_nat (48 + z `mod` 10))] end.
(** [t.UTC().Format(time.RFC3339)] for years of four digits. *)
Definition Format_RFC3339 (t : Z) : bytes :=
  let s := t `div` Second in
  let '(y, m, d) := date_of (s `div` 86400) in
  let c := s `mod` 86400 in
  digits_of 4 y ++ bs "-" ++ digits_of 2 m ++ bs "-" ++ digits_of 2 d ++ bs "T" ++
  digits_of 2 (c `div` 3600) ++ bs ":" ++ digits_of 2 (c `div` 60 `mod` 60) ++ bs ":" ++ digits_of 2 (c `mod` 60) ++ bs "Z".

(** The parser, a byte string at a time. *)
Definition p_char (c : ascii) (s : bytes) : option bytes :=
  match s with x :: s => if decide (x = c) then Some s else None | [] => None end.
Definition p_digits (n : nat) (s : bytes) : option (Z * bytes) :=
  if decide (n ≤ length s)%nat then v ← parse_digits 0 (take n s); Some (v, drop n s) else None.
(** The hour may be one digit. *)
Definition p_hour (s : bytes) : option (Z * bytes) :=
  match p_digits 2 s with Some r => Some r | None => p_digits 1 s end.
Definition p_range (lo hi : Z) (r : option (Z * bytes)) : option (Z * bytes) :=
  '(v, s) ← r; if decide (lo ≤ v ≤ hi) then Some (v, s) else None.
Fixpoint take_digits (s : bytes) : bytes * bytes :=
  match s with
  | c :: r => match digit c with Some _ => let '(a, b) := take_digits r in (c :: a, b) | None => ([], s) end
  | [] => ([], [])
  end.
(** A fraction of a second, of which nine digits count. *)
Definition p_fraction (s : bytes) : Z * bytes :=
  match s with
  | c :: r =>
      if decide (c = "."%char ∨ c = ","%char) then
        match take_digits r with
        | ([], _) => (0, s)
        | (ds, rest) => let ds := take 9 ds in (default 0 (parse_digits 0 ds) * 10 ^ (9 - len ds), rest)
        end
      else (0, s)
  | [] => (0, s)
  end.
(** Seconds east of UTC. *)
Definition p_zone (s : bytes) : option (Z * bytes) :=
  match s with
  | c :: r =>
      if decide (c = "Z"%char) then Some (0, r)
      else if decide (c = "+"%char ∨ c = "-"%char) then
        '(h, r) ← p_range 0 24 (p_digits 2 r); r ← p_char ":" r; '(m, r) ← p_range 0 60 (p_digits 2 r);
        Some ((if decide (c = "-"%char) then -1 else 1) * (h * 3600 + m * 60), r)
      else None
  | [] => None
  end.
(** [time.Parse(time.RFC3339, s)] *)
Definition Parse_RFC3339 (s : bytes) : option Z :=
  '(y, s) ← p_digits 4 s; s ← p_char "-" s; '(m, s) ← p_range 1 12 (p_digits 2 s); s ← p_char "-" s;
  '(d, s) ← p_digits 2 s; s ← p_char "T" s;
  '(hh, s) ← p_range 0 23 (p_hour s); s ← p_char ":" s; '(mm, s) ← p_range 0 59 (p_digits 2 s); s ← p_char ":" s;
  '(ss, s) ← p_range 0 59 (p_digits 2 s);
  let '(ns, s) := p_fraction s in
  '(off, s) ← p_zone s;
  if decide (s = [] ∧ 1 ≤ d ≤ daysIn m y) then Some ((days_of y m d * 86400 + hh * 3600 + mm * 60 + ss - off) * Second + ns) else None.

(** ** HMAC-SHA256 *)

Definition xor_pad (p : Z) (key : bytes) : bytes := (λ c, Z_byte (Z.lxor (byte_Z c) p)) <$> key.
Definition HMAC_SHA256 (key msg : bytes) : bytes :=
  let key := if decide (64 < len key) then sha256_Sum key else key in
  let key := key ++ replicate (64 - length key) "000"%char in
  sha256_Sum (xor_pad 0x5c key ++ sha256_Sum (xor_pad 0x36 key ++ msg)).

Example hmac_rfc4231 : hex_string (HMAC_SHA256 (bs "Jefe") (bs "what do ya want for nothing?")) = bs "5bdcc146bf60754e6a042426089575c75a003f089d2739839dec58b964ec3843".
Proof. vm_compute. reflexivity. Qed.
Example format_2025 : Format_RFC3339 (1735689599 * Second) = bs "2024-12-31T23:59:59Z".
Proof. vm_compute. reflexivity. Qed.
Example parse_offset : Parse_RFC3339 (bs "2024-02-29T8:00:00.5+08:00") = Some (1709164800 * Second + 500000000).
Proof. vm_compute. reflexivity. Qed.

(** * RFC 3339 times: what is printed is read back. *)

(** ** The calendar *)

Lemma year_of_spec doe : 0 ≤ doe < 146097 →
  0 ≤ year_of doe < 400 ∧ year_start (year_of doe) ≤ doe < year_start (year_of doe) + 366.
Proof. intros H. unfold year_start, year_of. Z.div_mod_to_equations; lia. Qed.
Lemma year_of_leap doe : 0 ≤ doe < 146097 → doe - year_start (year_of doe) = 365 → is_leap (year_of doe + 1) = true.
Proof. intros H. unfold year_start, year_of, is_leap. intros Heq. apply bool_decide_eq_true. Z.div_mod_to_equations; lia. Qed.
Lemma is_leap_era y era : is_leap (y + 400 * era) = is_leap y.
Proof. unfold is_leap. apply bool_decide_ext. Z.div_mod_to_equations; lia. Qed.

Lemma date_of_spec days : let '(y, m, d) := date_of days in
  1 ≤ m ≤ 12 ∧ 1 ≤ d ≤ daysIn m y ∧ days_of y m d = days.
Proof.
  unfold date_of. cbv zeta. set (era := (days + 719468) `div` 146097). set (doe := (days + 719468) `mod` 146097).
  assert (0 ≤ doe < 146097) as Hdoe by (apply Z.mod_pos_bound; lia).
  assert (days = 146097 * era + doe - 719468) as Hdays by (pose proof (Z.div_mod (days + 719468) 146097); unfold era, doe; lia).
  clearbody era doe. subst days. pose proof (year_of_spec doe Hdoe) as (Hy & Hstart). pose proof (year_of_leap doe Hdoe) as Hleap.
  set (yoe := year_of doe) in *. set (doy := doe - year_start yoe) in *. clearbody yoe.
  set (mp := (5 * doy + 2) `div` 153). assert (0 ≤ mp ≤ 11) as Hmp by (unfold mp, doy; Z.div_mod_to_equations; lia).
  assert (30 ≤ (153 * (mp + 1) + 2) `div` 5 - (153 * mp + 2) `div` 5 ≤ 31) as Hlen by (Z.div_mod_to_equations; lia).
  set (y := yoe + 400 * era + (if decide ((if decide (mp < 10) then mp + 3 else mp - 9) ≤ 2) then 1 else 0)).
  set (m := if decide (mp < 10) then mp + 3 else mp - 9).
  set (d := doy - (153 * mp + 2) `div` 5 + 1). split_and!.
  1-2: unfold m; case_decide; lia.
  - unfold d, mp. Z.div_mod_to_equations; lia.
  - assert (mp < 11 → d ≤ (153 * (mp + 1) + 2) `div` 5 - (153 * mp + 2) `div` 5) as Hd by (unfold d, mp; intros; Z.div_mod_to_equations; lia).
    assert (mp = 11 → d ≤ if is_leap y then 29 else 28) as Hfeb.
    { intros H11. assert (y = (yoe + 1) + 400 * era) as Hy' by (unfold y; repeat case_decide; lia).
      rewrite Hy', is_leap_era. assert (d = doy - 336) as Hd' by (unfold d; rewrite H11; change ((153 * 11 + 2) `div` 5) with 337; lia).
      destruct (decide (doy = 365)) as [Heq|]; [rewrite Hleap by done; lia|]. destruct (is_leap _); unfold doy in *; lia. }
    unfold daysIn. clearbody d. assert (mp = 0 ∨ mp = 1 ∨ mp = 2 ∨ mp = 3 ∨ mp = 4 ∨ mp = 5 ∨ mp = 6 ∨ mp = 7 ∨ mp = 8 ∨ mp = 9 ∨ mp = 10 ∨ mp = 11) as Hcase by lia.
    unfold m. clearbody y. clear -Hcase Hd Hfeb. clearbody mp. destruct Hcase as [->|[->|[->|[->|[->|[->|[->|[->|[->|[->|[->| ->]]]]]]]]]]];
      cbn in *; try (apply Hd; lia); try (by apply Hfeb); by apply Hd.
  - unfold days_of. assert ((if decide (m ≤ 2) then y - 1 else y) = yoe + 400 * era) as -> by (unfold y; fold m; case_decide; lia).
    assert ((if decide (2 < m) then m - 3 else m + 9) = mp) as -> by (unfold m; repeat case_decide; lia).
    replace ((yoe + 400 * era) `mod` 400) with yoe by (Z.div_mod_to_equations; lia). replace ((yoe + 400 * era) `div` 400) with era by (Z.div_mod_to_equations; lia).
    unfold d, doy. lia.
Qed.

(** ** Digits *)

Lemma digit_of z : digit (ascii_of_nat (Z.to_nat (48 + z `mod` 10))) = Some (z `mod` 10).
Proof.
  pose proof (Z.mod_pos_bound z 10 ltac:(lia)) as Hz. set (x := z `mod` 10) in *. clearbody x.
  assert (x = 0 ∨ x = 1 ∨ x = 2 ∨ x = 3 ∨ x = 4 ∨ x = 5 ∨ x = 6 ∨ x = 7 ∨ x = 8 ∨ x = 9) as Hc by lia.
  destruct Hc as [->|[->|[->|[->|[->|[->|[->|[->|[->| ->]]]]]]]]]; reflexivity.
Qed.
Lemma parse_digits_app acc s t : parse_digits acc (s ++ t) = parse_digits acc s ≫= λ v, parse_digits v t.
Proof. revert acc. induction s as [|c s IH]; intros acc; [done|]. cbn. destruct (digit c); [apply IH|done]. Qed.
Lemma length_digits_of n z : length (digits_of n z) = n.
Proof. revert z. induction n as [|n IH]; intros z; [done|]. cbn. rewrite length_app, IH. cbn. lia. Qed.
Lemma parse_digits_of n z acc : 0 ≤ z < 10 ^ Z.of_nat n → parse_digits acc (digits_of n z) = Some (acc * 10 ^ Z.of_nat n + z).
Proof.
  revert z acc. induction n as [|n IH]; intros z acc Hz; [cbn in *; f_equal; lia|].
  rewrite Nat2Z.inj_succ, Z.pow_succ_r in * by lia. cbn [digits_of]. rewrite parse_digits_app, IH by (Z.div_mod_to_equations; lia).
  cbn [mbind option_bind parse_digits]. rewrite digit_of. f_equal. pose proof (Z.div_mod z 10). lia.
Qed.
Lemma p_digits_of n z s : 0 ≤ z < 10 ^ Z.of_nat n → p_digits n (digits_of n z ++ s) = Some (z, s).
Proof.
  intros Hz. unfold p_digits. rewrite decide_True by (rewrite length_app, length_digits_of; lia).
  rewrite take_app_length', drop_app_length' by (by rewrite length_digits_of). rewrite parse_digits_of by done. done.
Qed.
Lemma p_digits_2 z s : 0 ≤ z < 100 → p_digits 2 (digits_of 2 z ++ s) = Some (z, s).
Proof. intros Hz. by apply (p_digits_of 2). Qed.
Lemma p_range_Some lo hi v s : lo ≤ v ≤ hi → p_range lo hi (Some (v, s)) = Some (v, s).
Proof. intros Hv. unfold p_range. cbn. by rewrite decide_True. Qed.
Lemma p_hour_of z s : 0 ≤ z < 100 → p_hour (digits_of 2 z ++ s) = Some (z, s).
Proof. intros Hz. unfold p_hour. by rewrite p_digits_2. Qed.

(** ** The round trip *)

(** The times of four-digit years: from 0000-01-01 to 9999-12-31. *)
Definition four_digit_year (t : Z) : Prop := let '(y, _, _) := date_of (t `div` Second `div` 86400) in 0 ≤ y ≤ 9999.
Lemma daysIn_le m y : daysIn m y ≤ 31.
Proof. unfold daysIn. repeat case_decide; try destruct (is_leap y); lia. Qed.
(** Pass a separator that is there. *)
Ltac pass_separator := cbn [mbind option_bind];
  match goal with |- context [p_char ?c (bs ?s ++ ?x)] => change (p_char c (bs s ++ x)) with (Some x) end; cbn [mbind option_bind].
(** Read two digits in a range. *)
Ltac pass_digits := rewrite p_digits_2, p_range_Some by (Z.div_mod_to_equations; lia).
(** A printed time is read back, without its fraction of a second. *)
Lemma Parse_Format t : four_digit_year t → Parse_RFC3339 (Format_RFC3339 t) = Some (t `div` Second * Second).
Proof.
  unfold four_digit_year, Format_RFC3339. set (s := t `div` Second). pose proof (date_of_spec (s `div` 86400)) as Hspec.
  destruct (date_of (s `div` 86400)) as [[y m] d]. destruct Hspec as (Hm & Hd & Hdays). intros Hy. pose proof (daysIn_le m y).
  set (c := s `mod` 86400). assert (0 ≤ c < 86400) as Hc by (apply Z.mod_pos_bound; lia). unfold Parse_RFC3339.
  rewrite (p_digits_of 4) by (change (10 ^ Z.of_nat 4) with 10000; lia). pass_separator. pass_digits. pass_separator. rewrite p_digits_2 by lia. pass_separator.
  rewrite p_hour_of, p_range_Some by (Z.div_mod_to_equations; lia). pass_separator. pass_digits. pass_separator. pass_digits. cbn [mbind option_bind].
  change (p_fraction (bs "Z")) with (0, bs "Z"). cbv beta iota. change (p_zone (bs "Z")) with (Some (0, [] : bytes)). cbn [mbind option_bind].
  rewrite decide_True by (split; [done|lia]). rewrite Hdays. f_equal.
  assert (s `div` 86400 * 86400 + c `div` 3600 * 3600 + (c `div` 60) `mod` 60 * 60 + c `mod` 60 = s) as Hs by (unfold c; clear; Z.div_mod_to_equations; lia).
  rewrite Hs. lia.
Qed.
