(* ===== verification/GitHttp.v ===== *)
(** Git over HTTP and large files (component/git_http.go, builder/store/s3 and
    the stores behind them): fetching and pushing, the batch interface of Git
    LFS, uploads, downloads, and locks on files. The git server and the object
    store are behind calls that may fail; what they are asked is recorded, and
    the bucket is state. *)
From S2P Require Import Prelude GoLib GoJson GoHash GoTime Sensitive Mirror MirrorLfs Errorx AcAccess.
Open Scope Z_scope.

(** ** Data *)

(** A lock; its owner's name is filled when a row is loaded with its user. *)
Record LfsLock := mk_lock { lk_ID : Z; lk_RepositoryID : Z; lk_UserID : Z; lk_Path : bytes; lk_UserName : bytes }.
Record RepositoryDownload := mk_dl { rd_Date : bytes; rd_RepositoryID : Z; rd_CloneCount : Z; rd_ClickDownloadCount : Z }.

(** What the git server is asked, with the path of the repository. *)
Inductive git_call :=
  | CallInfoRefs (rpc path : bytes)
  | CallUploadPack (path : bytes)
  | CallReceivePack (path : bytes) (userID : Z).

Record git_state := mk_git {
  gs_locks : list LfsLock; gs_nextLock : Z;
  gs_metas : list LfsMetaObject; gs_nextMeta : Z;
  gs_mirrors : list (Z * option MirrorTaskStatus);
  gs_downloads : list RepositoryDownload; gs_downloadCount : gmap Z Z;
  gs_bucket : gmap bytes bytes;
  gs_multiparts : list bytes; (* the keys of uploads, emptied when completed *)
  gs_calls : list git_call;
}.
Record git_world := mk_gw { gw_access : access; gw_faults : list (option goerr); gw_git : git_state }.
#[export] Program Instance git_world_faulty : Faulty git_world goerr := {|
  get_faults := gw_faults; set_faults fs w := mk_gw (gw_access w) fs (gw_git w) |}.
Next Obligation. by intros []. Qed.
#[export] Program Instance git_world_access : Access git_world := {|
  get_access := gw_access; set_access a w := mk_gw a (gw_faults w) (gw_git w) |}.
Solve All Obligations with done.

Abbreviation gio := (io git_world goerr).

Definition on_git (f : git_state → git_state) (w : git_world) : git_world := mk_gw (gw_access w) (gw_faults w) (f (gw_git w)).
Definition with_locks (ls : list LfsLock) (n : Z) (s : git_state) : git_state :=
  mk_git ls n (gs_metas s) (gs_nextMeta s) (gs_mirrors s) (gs_downloads s) (gs_downloadCount s) (gs_bucket s) (gs_multiparts s) (gs_calls s).
Definition with_metas (ms : list LfsMetaObject) (n : Z) (s : git_state) : git_state :=
  mk_git (gs_locks s) (gs_nextLock s) ms n (gs_mirrors s) (gs_downloads s) (gs_downloadCount s) (gs_bucket s) (gs_multiparts s) (gs_calls s).
Definition with_downloads (ds : list RepositoryDownload) (c : gmap Z Z) (s : git_state) : git_state :=
  mk_git (gs_locks s) (gs_nextLock s) (gs_metas s) (gs_nextMeta s) (gs_mirrors s) ds c (gs_bucket s) (gs_multiparts s) (gs_calls s).
Definition with_bucket (f : gmap bytes bytes → gmap bytes bytes) (s : git_state) : git_state :=
  mk_git (gs_locks s) (gs_nextLock s) (gs_metas s) (gs_nextMeta s) (gs_mirrors s) (gs_downloads s) (gs_downloadCount s) (f (gs_bucket s)) (gs_multiparts s) (gs_calls s).
Definition add_multipart (key : bytes) (s : git_state) : git_state :=
  mk_git (gs_locks s) (gs_nextLock s) (gs_metas s) (gs_nextMeta s) (gs_mirrors s) (gs_downloads s) (gs_downloadCount s) (gs_bucket s) (gs_multiparts s ++ [key]) (gs_calls s).
Definition end_multipart (i : nat) (s : git_state) : git_state :=
  mk_git (gs_locks s) (gs_nextLock s) (gs_metas s) (gs_nextMeta s) (gs_mirrors s) (gs_downloads s) (gs_downloadCount s) (gs_bucket s) (<[i := []]> (gs_multiparts s)) (gs_calls s).
Definition add_call (c : git_call) (s : git_state) : git_state :=
  mk_git (gs_locks s) (gs_nextLock s) (gs_metas s) (gs_nextMeta s) (gs_mirrors s) (gs_downloads s) (gs_downloadCount s) (gs_bucket s) (gs_multiparts s) (gs_calls s ++ [c]).

(** A call that reads, and one that writes; a failing write changes nothing. *)
Definition git_read {A} (f : git_state → A) : gio A := next_fault;; io_gets (λ w, f (gw_git w)).
Definition git_row {A} (f : git_state → option A) : gio A :=
  o ← git_read f; match o with Some a => mret a | None => io_fail ErrNoRows end.
Definition git_write (f : git_state → git_state) : gio unit := next_fault;; io_modify (on_git f).
Definition git_panic {A} : gio A := λ w, (Panic, w).
Definition lift_key (k : option bytes) : gio bytes := match k with Some k => mret k | None => git_panic end.

(** ** The stores *)

(** *** lfs_lock.go: rows are loaded with their users *)

Definition with_user (a : access) (l : LfsLock) : LfsLock :=
  mk_lock (lk_ID l) (lk_RepositoryID l) (lk_UserID l) (lk_Path l)
    (default [] (u_Username <$> found_by (λ u, u_ID u = lk_UserID l ∧ u_Deleted u = false) (ac_users a))).
Definition lock_row (P : LfsLock → Prop) `{!∀ l, Decision (P l)} : gio LfsLock :=
  l ← git_row (λ s, found_by P (gs_locks s)); io_gets (λ w, with_user (gw_access w) l).
Definition lock_FindByID (id : Z) : gio LfsLock := lock_row (λ l, lk_ID l = id).
Definition lock_at (repoID : Z) (path : bytes) (l : LfsLock) : Prop := lk_RepositoryID l = repoID ∧ lk_Path l = path.
#[export] Instance lock_at_dec repoID path l : Decision (lock_at repoID path l).
Proof. unfold lock_at. apply _. Defined.
Definition lock_FindByPath (repoID : Z) (path : bytes) : gio LfsLock := lock_row (lock_at repoID path).
(** No page is all rows. *)
Definition page_of {A} (page per : Z) (l : list A) : list A :=
  if decide (0 < page ∧ 0 < per) then take (Z.to_nat per) (drop (Z.to_nat ((page - 1) * per)) l) else l.
Definition lock_FindByRepoID (repoID page per : Z) : gio (list LfsLock) :=
  ls ← git_read (λ s, page_of page per (filter (λ l, lk_RepositoryID l = repoID) (gs_locks s)));
  io_gets (λ w, with_user (gw_access w) <$> ls).
(** A unique index guards repository and path; the row comes back as it was
    inserted, without its user. *)
Definition lock_Create (repoID userID : Z) (path : bytes) : gio LfsLock :=
  next_fault;; s ← io_gets gw_git;
  match found_by (lock_at repoID path) (gs_locks s) with
  | Some _ => io_fail (NewError (bs "duplicate key value violates unique constraint"))
  | None =>
      let l := mk_lock (gs_nextLock s) repoID userID path [] in
      io_modify (on_git (with_locks (gs_locks s ++ [l]) (gs_nextLock s + 1)));; mret l
  end.
Definition lock_RemoveByID (id : Z) : gio unit := git_write (λ s, with_locks (filter (λ l, lk_ID l ≠ id) (gs_locks s)) (gs_nextLock s) s).

(** *** lfs_meta_object.go *)

Definition meta_FindByOID (repoID : Z) (oid : bytes) : gio LfsMetaObject :=
  git_row (λ s, found_by (λ o, lmo_Oid o = oid ∧ lmo_RepositoryID o = repoID) (gs_metas s)).
Definition meta_FindByRepoID (repoID : Z) : gio (list LfsMetaObject) := git_read (λ s, filter (λ o, lmo_RepositoryID o = repoID) (gs_metas s)).
(** An update of no row is an error like any other, and is followed by an
    insert, which a unique index guards. *)
Definition meta_UpdateOrCreate (input : LfsMetaObject) : gio unit :=
  r ← io_try (
    next_fault;; s ← io_gets gw_git;
    match filter (same_object input) (gs_metas s) with
    | [] => io_fail ErrNoRows
    | _ => io_modify (on_git (with_metas ((λ o, if decide (same_object input o)
             then mk_lmo (lmo_ID o) (lmo_Oid o) (lmo_Size input) (lmo_RepositoryID o) (Existing input) (XnetUsed input) else o) <$> gs_metas s) (gs_nextMeta s)))
    end);
  match r with
  | Ok _ => mret tt
  | Err _ => io_wrap (wrap "create lfs meta object in tx failed,error:") (
      next_fault;; s ← io_gets gw_git;
      match filter (same_object input) (gs_metas s) with
      | [] => io_modify (on_git (with_metas (gs_metas s ++ [mk_lmo (gs_nextMeta s) (lmo_Oid input) (lmo_Size input) (lmo_RepositoryID input) (Existing input) (XnetUsed input)])
                (gs_nextMeta s + 1)))
      | _ => io_fail (NewError (bs "duplicate key value violates unique constraint"))
      end)
  end.

(** *** repository.go: downloads of a repository *)

Definition row_of_day (date : bytes) (repoID : Z) (d : RepositoryDownload) : Prop := rd_Date d = date ∧ rd_RepositoryID d = repoID.
#[export] Instance row_of_day_dec date repoID d : Decision (row_of_day date repoID d).
Proof. unfold row_of_day. apply _. Defined.
(** The row that was found, which is the first. *)
Definition on_first {A} (P : A → Prop) `{!∀ x, Decision (P x)} (f : A → A) (l : list A) : list A :=
  match list_find P l with Some (i, x) => <[i := f x]> l | None => l end.
(** The sums of a repository without rows are null, which no integer scans. *)
Definition UpdateDownloads (repoID : Z) : gio unit :=
  ds ← io_wrap HandleDBError (git_read (λ s, filter (λ d, rd_RepositoryID d = repoID) (gs_downloads s)));
  match ds with
  | [] => io_fail (HandleDBError (NewError (bs "converting NULL to int64 is unsupported")))
  | _ =>
      let downloadCount := foldr Z.add 0 (rd_CloneCount <$> ds) + foldr Z.add 0 (rd_ClickDownloadCount <$> ds) in
      io_wrap HandleDBError (git_write (λ s, with_downloads (gs_downloads s) (<[repoID := downloadCount]> (gs_downloadCount s)) s))
  end.
Definition UpdateRepoCloneDownloads (repoID : Z) (date : bytes) (cloneCount : Z) : gio unit :=
  r ← io_try (io_wrap HandleDBError (git_row (λ s, found_by (row_of_day date repoID) (gs_downloads s))));
  (match r with
   | Err e =>
       if Is e ErrNoRows then git_write (λ s, with_downloads (gs_downloads s ++ [mk_dl date repoID cloneCount 0]) (gs_downloadCount s) s)
       else io_fail e
   | Ok _ =>
       git_write (λ s, with_downloads (on_first (row_of_day date repoID) (λ d, mk_dl (rd_Date d) (rd_RepositoryID d) cloneCount (rd_ClickDownloadCount d))
         (gs_downloads s)) (gs_downloadCount s) s)
   end);;
  io_wrap HandleDBError (UpdateDownloads repoID).

(** *** mirror.go *)
Definition mirror_FindByRepoID (repoID : Z) : gio (option MirrorTaskStatus) := git_row (λ s, snd <$> found_by (λ m, fst m = repoID) (gs_mirrors s)).

(** ** builder/store/s3

    Keys of one bucket. An object that is missing is an error of its own. *)

Definition ErrNoSuchKey : goerr := Sentinel (bs "NoSuchKey").
Definition noSuchKey (e : goerr) : bool := match e with Sentinel m => bool_decide (m = bs "NoSuchKey") | _ => false end.
(** The size of an object. *)
Definition StatObject (objectKey : bytes) : gio Z :=
  o ← git_read (λ s, gs_bucket s !! objectKey);
  match o with Some content => mret (len content) | None => io_fail ErrNoSuchKey end.
Definition RemoveObject (objectKey : bytes) : gio unit := git_write (with_bucket (delete objectKey)).
Definition CopyObject (dst src : bytes) : gio unit :=
  next_fault;; o ← io_gets (λ w, gs_bucket (gw_git w) !! src);
  match o with Some content => io_modify (on_git (with_bucket <[dst := content]>)) | None => io_fail ErrNoSuchKey end.

Section s3.
(** What the client reads of a body that is announced with a size. *)
Variable put_takes : bytes → Z → result bytes goerr.

Definition PutObject (objectKey body : bytes) (objectSize : Z) : gio bytes :=
  next_fault;;
  match put_takes body objectSize with
  | Ok content => io_modify (on_git (with_bucket <[objectKey := content]>));; mret content
  | Err e => io_fail e
  end.
Definition S3_TMP_DIR : bytes := bs "lfs/tmp/".
(** Temporary name and digest of an object; [None] is the panic of a short
    name. *)
Definition tmp_and_oid (objectName : bytes) : option (bytes * bytes) :=
  if HasPrefix objectName (bs "lfs/") then
    let rawName := TrimPrefix objectName (bs "lfs/") in
    Some (S3_TMP_DIR ++ rawName, Join (Split rawName (bs "/")) [])
  else
    let fields := Split objectName (bs "/") in
    if decide (len fields < 4) then None else Some (objectName, Join (drop 4 fields) []).
Definition uploadAndValidate (objectName body : bytes) (objectSize : Z) : gio unit :=
  match tmp_and_oid objectName with
  | None => git_panic
  | Some (tmpName, oid) =>
      content ← PutObject tmpName body objectSize;
      if HasPrefix objectName (bs "repos/") then mret tt
      else
        r ← io_try (
          if decide (len content ≠ objectSize) then io_fail (NewError (bs "LFSObject: expected size " ++ Itoa objectSize ++ bs ", got " ++ Itoa (len content)))
          else if decide (SHA256 content ≠ oid) then io_fail (NewError (bs "LFSObject: expected sha256 " ++ oid ++ bs ", got " ++ SHA256 content))
          else CopyObject objectName tmpName);
        io_try (RemoveObject tmpName);;
        match r with Ok _ => mret tt | Err e => io_fail e end
  end.
End s3.

(** ** Repositories' paths in the git server (builder/git/gitserver/gitaly, common/utils/common/repo.go) *)

Definition HashedRepoPathPrefix : bytes := bs "@hashed_repos".
Definition BuildHashedRelativePath (repoID : Z) : bytes :=
  let sha256Path := SHA256 (Itoa repoID) in
  HashedRepoPathPrefix ++ bs "/" ++ take 2 sha256Path ++ bs "/" ++ take 2 (drop 2 sha256Path) ++ bs "/" ++ sha256Path ++ bs ".git".

Section git_http.
(** SQL's LOWER and [unicode.ToLower], the texts of signed addresses of the
    object store and of the service for chunked storage, the ids of multipart
    uploads, the object of completed parts, the status an error of the object
    store carries, the day and the clock. *)
Variable LOWER : bytes → bytes.
Variable unicode_lower : Z → Z.
Variable put_takes : bytes → Z → result bytes goerr.
Variable presign_get : bytes → gmap bytes bytes → bytes.
Variable xnet_presign_get : bytes → bytes.
Variable presign_put : bytes → gmap bytes bytes → bytes.
Variable upload_id : nat → bytes.
Variable assembled : bytes → list (Z * bytes) → result bytes goerr.
Variable s3_status : goerr → option Z.
Variable today : bytes.
Variable now : Z.

(** The configuration. *)
Record git_config := mk_gcfg {
  MaxUnLfsFileSize : Z; SkipLfsFileValidation : bool; LimitLfsFileUploadSize : bool; MinMultipartSize : Z;
  PublicDomain : bytes; Xnet_Endpoint : bytes; EmptyRepoType : bytes; SignatureSecertKey : bytes;
}.
Variable config : git_config.

Definition relative_path (repoType namespace name : bytes) : bytes := ToLower unicode_lower (repoType ++ bs "_" ++ namespace ++ bs "/" ++ name).
Definition client_BuildRelativePath (repoType namespace name : bytes) : gio bytes :=
  hashed ← (if decide (repoType = EmptyRepoType config) then mret None
            else repo ← io_wrap (wrap "failed to find repository: ") (repo_FindByPath LOWER repoType namespace name);
                 mret (if rp_Hashed repo then Some (BuildHashedRelativePath (rp_ID repo)) else None));
  mret (match hashed with Some p => p | None => relative_path (repoType ++ bs "s") namespace name ++ bs ".git" end).

(** The calls of the git server, which may fail after the server took them.
    The text of a refusal leaves out what was asked for. *)
Definition git_server (c : git_call) : gio unit := io_modify (on_git (add_call c));; next_fault.
Definition InfoRefsResponse (rpc repoType namespace name : bytes) : gio unit :=
  path ← client_BuildRelativePath repoType namespace name;
  if decide (rpc ∈ [bs "git-upload-pack"; bs "git-receive-pack"]) then git_server (CallInfoRefs rpc path)
  else io_fail (NewError (bs "InfoRefsResponseWriterTo: Unsupported RPC")).
Definition UploadPack (repoType namespace name : bytes) : gio unit :=
  path ← client_BuildRelativePath repoType namespace name; io_wrap (wrap "PostUploadPackWithSidechannel: ") (git_server (CallUploadPack path)).
Definition ReceivePack (repoType namespace name : bytes) (userID : Z) : gio unit :=
  next_fault;; path ← client_BuildRelativePath repoType namespace name; git_server (CallReceivePack path userID).

(** ** component/git_http.go: fetching and pushing *)

Abbreviation find_repo repoType namespace name := (io_wrap (wrap "failed to find repo, error: ") (repo_FindByPath LOWER repoType namespace name)).
(** [err != nil] becomes unauthorized, [!allowed] forbidden. *)
Definition must (denied : goerr) (m : gio bool) : gio unit := allowed ← m; if allowed : bool then mret tt else io_fail denied.
Definition or_unauthorized {A} (m : gio A) : gio A := io_wrap (λ _, ErrUnauthorized) m.

Definition InfoRefs (repoType namespace name rpc currentUser : bytes) : gio unit :=
  repo ← find_repo repoType namespace name;
  m ← io_try (mirror_FindByRepoID (rp_ID repo));
  (match m with
   | Err e => if Is e ErrNoRows then mret tt else io_fail (wrap "failed to find mirror, error: " e)
   | Ok (Some MirrorRepoSyncStart) => io_fail ErrServiceUnavaliable
   | Ok _ => mret tt
   end);;
  (if decide (rpc = bs "git-receive-pack") then
     must ErrForbidden (or_unauthorized (AllowWriteAccess LOWER repoType namespace name currentUser));;
     if rp_XnetEnabled repo then io_fail ErrUsingGitInXnetRepository else mret tt
   else if rp_Private repo then
     must ErrForbidden (or_unauthorized (AllowReadAccess LOWER repoType namespace name currentUser))
   else mret tt);;
  InfoRefsResponse rpc repoType namespace name.

Definition GitUploadPack (repoType namespace name currentUser : bytes) : gio unit :=
  repo ← find_repo repoType namespace name;
  (if rp_Private repo then
     must ErrForbidden (or_unauthorized (AllowReadAccess LOWER repoType namespace name currentUser))
   else mret tt);;
  io_try (UpdateRepoCloneDownloads (rp_ID repo) today 1);;
  UploadPack repoType namespace name.

Definition GitReceivePack (repoType namespace name currentUser : bytes) (ContentLength : Z) : gio unit :=
  if decide (i64 (MaxUnLfsFileSize config * 10) < ContentLength) then io_fail ErrContentLengthTooLarge
  else
    find_repo repoType namespace name;;
    user ← or_unauthorized (FindByUsername currentUser);
    must ErrForbidden (or_unauthorized (AllowWriteAccess LOWER repoType namespace name currentUser));;
    ReceivePack repoType namespace name (u_ID user).

(** *** The batch interface *)

Definition LFSBatchUpload : bytes := bs "upload".
Definition LFSBatchDownload : bytes := bs "download".
Definition LfsMediaType : bytes := bs "application/vnd.git-lfs+json".
Record BatchRequest := mk_batch {
  b_Operation : bytes; b_Transfers : list bytes; b_Objects : list Pointer; b_Authorization : bytes;
  b_Namespace : bytes; b_Name : bytes; b_RepoType : bytes; b_CurrentUser : bytes; b_UploadID : bytes;
}.
Record Link := mk_link { ln_Href : bytes; ln_Header : gmap bytes bytes }.
Record ObjectResponse := mk_obj { or_Pointer : Pointer; or_Actions : gmap bytes Link; or_Error : option (Z * bytes) }.
Record BatchResponse := mk_bresp { br_Transfer : bytes; br_Objects : list ObjectResponse }.
Definition no_pointer : Pointer := mk_ptr [] 0 [].

Definition hex_lower (c : ascii) : bool := let z := byte_Z c in bool_decide (97 ≤ z ≤ 102 ∨ 48 ≤ z ≤ 57).
Definition Pointer_Valid (p : Pointer) : bool := bool_decide (len (p_Oid p) = 64) && forallb hex_lower (p_Oid p) && bool_decide (0 ≤ p_Size p).

Definition lfsCheckAccess (req : BatchRequest) : gio unit :=
  let '(ty, ns, name, user) := (b_RepoType req, b_Namespace req, b_Name req, b_CurrentUser req) in
  if decide (b_Operation req = LFSBatchUpload) then
    if decide (user = []) then io_fail ErrUnauthorized
    else
      allowWrite ← AllowWriteAccess LOWER ty ns name user;
      if allowWrite : bool then mret tt
      else
        allowRead ← AllowReadAccess LOWER ty ns name user;
        io_fail (if allowRead : bool then ErrForbidden else ErrNotFound)
  else if decide (b_Operation req = LFSBatchDownload) then
    r ← io_try (AllowReadAccess LOWER ty ns name user);
    match r with
    | Err e => io_fail (if Is e ErrUserNotFound && bool_decide (user = []) then ErrUnauthorized else e)
    | Ok allowRead => if allowRead : bool then mret tt else io_fail ErrNotFound
    end
  else io_fail (HTTPError 400 (bs "invalid lfs batch operation: " ++ b_Operation req)).

(** A signed address may be refused; that is an error of the object only. *)
Definition PresignedGetObject (objectKey : bytes) (reqParams : gmap bytes bytes) : gio bytes := next_fault;; mret (presign_get objectKey reqParams).
Definition download_object (repo : Repository) (lfsFiles : list LfsMetaObject) (obj : Pointer) : gio ObjectResponse :=
  if decide (p_Oid obj ∈ lmo_Oid <$> lfsFiles) then
    if Pointer_Valid obj then
      objectKey ← lift_key (BuildLfsPath (rp_ID repo) (p_Oid obj) (rp_Migrated repo));
      url ← io_try (if rp_XnetEnabled repo then next_fault;; mret (xnet_presign_get objectKey) else PresignedGetObject objectKey ∅);
      mret (match url with
            | Ok href => mk_obj obj {[bs "download" := mk_link href ∅]} None
            | Err _ => mk_obj no_pointer ∅ (Some (0, []))
            end)
    else mret (mk_obj no_pointer ∅ (Some (0, [])))
  else mret (mk_obj no_pointer ∅ (Some (404, bs "Object does not exist"))).
(** The objects one after the other. *)
Fixpoint each_object (f : Pointer → gio ObjectResponse) (objs : list Pointer) : gio (list ObjectResponse) :=
  match objs with
  | [] => mret []
  | obj :: rest => r ← f obj; rs ← each_object f rest; mret (r :: rs)
  end.
Definition lfsBatchDownloadInfo (req : BatchRequest) (repo : Repository) : gio BatchResponse :=
  lfsFiles ← meta_FindByRepoID (rp_ID repo);
  objs ← each_object (download_object repo lfsFiles) (b_Objects req);
  mret (mk_bresp [] objs).

Definition lfsFileNonMultipartSize : Z := 1024 * 1024 * 1024 * 5.
Definition maxPartNum : Z := 1000.
Definition largeFileWithoutMultipart (req : BatchRequest) (pointer : Pointer) : bool :=
  bool_decide (b_Operation req = LFSBatchUpload ∧ lfsFileNonMultipartSize < p_Size pointer ∧ bs "multipart" ∉ b_Transfers req).
Definition calculatePartSize (fileSize minSize : Z) : Z :=
  let partSize := Z.quot fileSize maxPartNum in
  let partSize := if decide (Z.rem fileSize maxPartNum ≠ 0) then partSize + 1 else partSize in
  if decide (partSize < minSize) then minSize else partSize.

(** [url.PathEscape] *)
Definition path_escape_byte (c : ascii) : bytes :=
  if decide (byte_Z c ∈ [36; 38; 43; 58; 61; 64]) then [c]
  else if decide (byte_Z c = 32) then bs "%20"
  else query_escape_byte c.
Definition PathEscape (s : bytes) : bytes := s ≫= path_escape_byte.
Definition lfs_link (req : BatchRequest) (tail : list bytes) : bytes :=
  PublicDomain config ++ bs "/" ++ path_Join ([b_RepoType req ++ bs "s"; PathEscape (b_Namespace req); PathEscape (b_Name req ++ bs ".git")] ++ tail).
Definition buildVerifyLink (req : BatchRequest) : bytes := lfs_link req [bs "info/lfs/verify"].
Definition server_upload_link (req : BatchRequest) (pointer : Pointer) : bytes :=
  lfs_link req [bs "info/lfs/objects"; PathEscape (p_Oid pointer); Itoa (p_Size pointer)].

(** [base64.StdEncoding] *)
Definition b64_char (z : Z) : ascii := nth (Z.to_nat z) (bs "ABCDEFGHIJKLMNOPQRSTUVWXYZabcdefghijklmnopqrstuvwxyz0123456789+/") "A"%char.
Fixpoint base64_Encode (s : bytes) : bytes :=
  match s with
  | [] => []
  | [a] => let v := byte_Z a * 65536 in [b64_char (Z.shiftr v 18); b64_char (Z.land (Z.shiftr v 12) 63); "="; "="]%char
  | [a; b] => let v := byte_Z a * 65536 + byte_Z b * 256 in
      [b64_char (Z.shiftr v 18); b64_char (Z.land (Z.shiftr v 12) 63); b64_char (Z.land (Z.shiftr v 6) 63); "="]%char
  | a :: b :: c :: rest => let v := byte_Z a * 65536 + byte_Z b * 256 + byte_Z c in
      [b64_char (Z.shiftr v 18); b64_char (Z.land (Z.shiftr v 12) 63); b64_char (Z.land (Z.shiftr v 6) 63); b64_char (Z.land v 63)] ++ base64_Encode rest
  end.
Definition PresignHeader (objectKey : bytes) (reqHeader : gmap bytes bytes) : gio bytes := next_fault;; mret (presign_put objectKey reqHeader).
Definition buildUploadLink (req : BatchRequest) (pointer : Pointer) : gio bytes :=
  if SkipLfsFileValidation config then
    r ← io_try (repo_FindByPath LOWER (b_RepoType req) (b_Namespace req) (b_Name req));
    match r with
    | Err _ => mret []
    | Ok repo =>
        objectKey ← lift_key (BuildLfsPath (rp_ID repo) (p_Oid pointer) (rp_Migrated repo));
        u ← io_try (PresignHeader objectKey (<[bs "X-Amz-Checksum-Algorithm" := bs "SHA256"]> {[bs "X-Amz-Checksum-SHA256" := base64_Encode (p_Oid pointer)]}));
        mret (match u with Ok u => u | Err _ => server_upload_link req pointer end)
    end
  else mret (server_upload_link req pointer).

(** Addresses to complete an upload: signed, and valid for three days. *)
Definition OssFileExpire : Z := 259200 * Second.
Definition complete_signature (objectKey uploadID expiresAt : bytes) : bytes :=
  hex_string (HMAC_SHA256 (SignatureSecertKey config) (objectKey ++ bs ":" ++ uploadID ++ bs ":" ++ expiresAt)).
Definition generateSignedCompleteURL (objectKey uploadID : bytes) : bytes :=
  let expiresAt := Format_RFC3339 (now + OssFileExpire) in
  PublicDomain config ++ bs "/api/v1/complete_multipart?expiresAt=" ++ QueryEscape expiresAt ++ bs "&objectKey=" ++ QueryEscape objectKey ++
  bs "&signature=" ++ QueryEscape (complete_signature objectKey uploadID expiresAt) ++ bs "&uploadId=" ++ QueryEscape uploadID.
Definition isValidCompleteUploadSignature (objectKey uploadID expiresAt providedSign : bytes) : bool :=
  match Parse_RFC3339 expiresAt with
  | None => false
  | Some parsedTime => bool_decide (now ≤ parsedTime ∧ providedSign = complete_signature objectKey uploadID expiresAt)
  end.

(** The loop over the parts; each adds its address to the headers. *)
Fixpoint parts_loop (fuel : nat) (objectKey uploadID : bytes) (header : gmap bytes bytes) (chunkSize totalSize partNumber : Z) (resp : gmap bytes bytes)
    : gio (gmap bytes bytes) :=
  match fuel with
  | O => mret resp
  | S fuel =>
      if decide (0 < totalSize) then
        u ← PresignHeader objectKey (<[bs "partNumber" := Itoa partNumber]> (<[bs "uploadId" := uploadID]> header));
        parts_loop fuel objectKey uploadID header chunkSize (totalSize - chunkSize) (partNumber + 1) (<[Itoa partNumber := u]> resp)
      else mret resp
  end.
Definition parts_fuel (size chunkSize : Z) : nat := S (Z.to_nat (size `div` chunkSize + 1)).
Definition NewMultipartUpload (objectKey : bytes) : gio bytes :=
  next_fault;; n ← io_gets (λ w, length (gs_multiparts (gw_git w))); io_modify (on_git (add_multipart objectKey));; mret (upload_id n).
Definition buildMultipartUploadLink (req : BatchRequest) (pointer : Pointer) (header : gmap bytes bytes) : gio Link :=
  repo ← io_wrap (wrap "failed to find repo: ") (repo_FindByPath LOWER (b_RepoType req) (b_Namespace req) (b_Name req));
  let chunkSize := calculatePartSize (p_Size pointer) (MinMultipartSize config) in
  objectKey ← lift_key (BuildLfsPath (rp_ID repo) (p_Oid pointer) (rp_Migrated repo));
  uploadID ← (if decide (b_UploadID req = []) then io_wrap (wrap "failed to initialize multipart upload: ") (NewMultipartUpload objectKey)
              else mret (b_UploadID req));
  headers ← parts_loop (parts_fuel (p_Size pointer) chunkSize) objectKey uploadID header chunkSize (p_Size pointer) 1 {[bs "chunk_size" := Itoa chunkSize]};
  mret (mk_link (generateSignedCompleteURL objectKey uploadID) headers).

Definition upload_object (req : BatchRequest) (header : gmap bytes bytes) (obj : Pointer) : gio ObjectResponse :=
  if Pointer_Valid obj then
    let error := if LimitLfsFileUploadSize config && largeFileWithoutMultipart req obj
      then Some (422, bs "Please use csghub-sdk to upload files > 5GB." ++ ["010"%char]) else None in
    link ← (if decide (bs "multipart" ∈ b_Transfers req) then buildMultipartUploadLink req obj header
            else href ← buildUploadLink req obj; mret (mk_link href header));
    let verify := mk_link (buildVerifyLink req) (<[bs "Accept" := LfsMediaType]> header) in
    mret (mk_obj obj (<[bs "verify" := verify]> {[bs "upload" := link]}) error)
  else mret (mk_obj obj ∅ (Some (0, []))).
Definition lfsBatchUploadInfo (req : BatchRequest) (repo : Repository) : gio BatchResponse :=
  let header := if decide (b_Authorization req = []) then ∅ else {[bs "Authorization" := b_Authorization req]} in
  meta_FindByRepoID (rp_ID repo);;
  let useXnet := rp_XnetEnabled repo && bool_decide (bs "xet" ∈ b_Transfers req) in
  let transfer := if useXnet then bs "xet" else if decide (bs "multipart" ∈ b_Transfers req) then bs "multipart" else bs "basic" in
  let header := if useXnet then
      <[bs "X-Xet-Session-Id" := bs "1"]> (<[bs "X-Xet-Token-Expiration" := []]>
      (<[bs "X-Xet-Access-Token" := bs "nosniff"]> (<[bs "X-Xet-Cas-Url" := Xnet_Endpoint config]> header)))
    else header in
  objs ← each_object (upload_object req header) (b_Objects req);
  mret (mk_bresp transfer objs).

Definition LFSBatch (req : BatchRequest) : gio BatchResponse :=
  repo ← find_repo (b_RepoType req) (b_Namespace req) (b_Name req);
  lfsCheckAccess req;;
  if decide (b_Operation req = LFSBatchUpload) then lfsBatchUploadInfo req repo
  else if decide (b_Operation req = LFSBatchDownload) then lfsBatchDownloadInfo req repo
  else io_fail (HTTPError 400 (bs "invalid lfs batch operation: " ++ b_Operation req)).

(** *** Objects *)

Definition LfsUpload (repoType namespace name currentUser oid : bytes) (size : Z) (body : bytes) : gio unit :=
  repo ← find_repo repoType namespace name;
  must ErrForbidden (AllowWriteAccess LOWER repoType namespace name currentUser);;
  if Pointer_Valid (mk_ptr oid size []) then
    objectKey ← lift_key (BuildLfsPath (rp_ID repo) oid (rp_Migrated repo));
    stat ← io_try (StatObject objectKey);
    match stat with
    | Err e => if noSuchKey e then uploadAndValidate put_takes objectKey body size else io_fail e
    | Ok _ =>
        (* the body is read, so that who claims the object has it *)
        next_fault;;
        if decide (len body ≠ size ∨ SHA256 body ≠ oid) then io_fail (NewError (bs "invalid lfs size or oid")) else mret tt
    end
  else io_fail (NewError (bs "invalid lfs oid")).

Definition ErrSizeMismatch : goerr := Sentinel (bs "content size does not match").
Definition LfsVerify (repoType namespace name currentUser : bytes) (p : Pointer) : gio unit :=
  repo ← find_repo repoType namespace name;
  objectKey ← lift_key (BuildLfsPath (rp_ID repo) (p_Oid p) (rp_Migrated repo));
  size ← io_wrap (wrap "failed to stat object in s3, error: ") (StatObject objectKey);
  if decide (size ≠ p_Size p) then io_fail ErrSizeMismatch
  else io_wrap (wrap "failed to update or create lfs meta object: ")
    (meta_UpdateOrCreate (mk_lmo 0 (p_Oid p) (p_Size p) (rp_ID repo) true false)).

Definition LfsDownload (repoType namespace name currentUser oid saveAs : bytes) : gio bytes :=
  repo ← find_repo repoType namespace name;
  must (NewError (bs "you have no permission to access this repo"))
    (io_wrap (wrap "failed to check allowed, error: ") (AllowReadAccess LOWER repoType namespace name currentUser));;
  io_wrap (wrap "failed to find lfs meta object, error: ") (meta_FindByOID (rp_ID repo) oid);;
  objectKey ← lift_key (BuildLfsPath (rp_ID repo) oid (rp_Migrated repo));
  PresignedGetObject objectKey (if decide (saveAs = []) then ∅ else {[bs "response-content-disposition" := bs "attachment;filename=" ++ saveAs]}).

(** An upload of a key and its parts becomes the object. *)
Definition pending (objectKey uploadID : bytes) (u : nat * bytes) : Prop := u.2 = objectKey ∧ upload_id u.1 = uploadID ∧ objectKey ≠ [].
#[export] Instance pending_dec objectKey uploadID u : Decision (pending objectKey uploadID u).
Proof. unfold pending. apply _. Defined.
Definition core_CompleteMultipartUpload (objectKey uploadID : bytes) (parts : list (Z * bytes)) : gio unit :=
  next_fault;; us ← io_gets (λ w, gs_multiparts (gw_git w));
  match found_by (pending objectKey uploadID) (imap pair us) with
  | None => io_fail (Sentinel (bs "NoSuchUpload"))
  | Some (i, _) =>
      match assembled uploadID parts with
      | Ok content => io_modify (on_git (λ s, end_multipart i (with_bucket <[objectKey := content]> s)))
      | Err e => io_fail e
      end
  end.
(** Status and error. *)
Definition CompleteMultipartUpload (objectKey uploadID expiresAt signature : bytes) (parts : list (Z * bytes)) : gio (Z * option goerr) :=
  if isValidCompleteUploadSignature objectKey uploadID expiresAt signature then
    r ← io_try (core_CompleteMultipartUpload objectKey uploadID parts);
    mret (match r with
          | Ok _ => (200, None)
          | Err e => (default 500 (s3_status e), Some (NewError (bs "complete multipart upload failed: " ++ Error e)))
          end)
  else mret (200, Some (NewError (bs "invalid signature"))).

(** *** Locks *)

Record LFSLock := mk_lfslock { ll_ID : bytes; ll_Path : bytes; ll_Owner : bytes }.
Definition to_LFSLock (l : LfsLock) : LFSLock := mk_lfslock (Itoa (lk_ID l)) (lk_Path l) (lk_UserName l).
Record LFSLockList := mk_locks { lo_Locks : list LFSLock; lo_Next : bytes }.
Definition buildLFSLockList (ls : list LfsLock) : LFSLockList := mk_locks (to_LFSLock <$> ls) [].

(** The lock that comes with an error, when one does. *)
Definition CreateLock (repoType namespace name currentUser path : bytes) : gio (option LfsLock * option goerr) :=
  r ← io_try (
    repo ← find_repo repoType namespace name;
    user ← or_unauthorized (FindByUsername currentUser);
    must ErrUnauthorized (AllowWriteAccess LOWER repoType namespace name currentUser);;
    found ← io_try (lock_FindByPath (rp_ID repo) path);
    match found with
    | Ok lock => mret (Some lock, Some ErrAlreadyExists)
    | Err e =>
        if Is e ErrNoRows then
          c ← io_try (lock_Create (rp_ID repo) (u_ID user) path);
          mret (match c with Ok lock => (Some lock, None) | Err _ => (None, Some ErrAlreadyExists) end)
        else io_fail (wrap "failed to find lfs lock, error: " e)
    end);
  mret (match r with Ok x => x | Err e => (None, Some e) end).

Definition next_cursor (cursor limit : Z) (ls : list LfsLock) : bytes :=
  if decide (0 < limit ∧ len ls = limit) then Itoa (i64 (cursor + 1)) else [].
(** One lock, or none if there is no such row. *)
Definition one_lock (m : gio LfsLock) (P : LfsLock → Prop) `{!∀ l, Decision (P l)} : gio LFSLockList :=
  r ← io_try m;
  match r with
  | Ok l => mret (buildLFSLockList (if decide (P l) then [l] else []))
  | Err e => if Is e ErrNoRows then mret (buildLFSLockList []) else io_fail e
  end.
Definition ListLocks (repoType namespace name currentUser path : bytes) (cursor limit id : Z) : gio LFSLockList :=
  repo ← find_repo repoType namespace name;
  or_unauthorized (FindByUsername currentUser);;
  must ErrUnauthorized (AllowReadAccess LOWER repoType namespace name currentUser);;
  if decide (id ≠ 0) then one_lock (lock_FindByID id) (λ l, lk_RepositoryID l = rp_ID repo)
  else if decide (path ≠ []) then one_lock (lock_FindByPath (rp_ID repo) path) (λ _, True)
  else
    locks ← lock_FindByRepoID (rp_ID repo) cursor limit;
    mret (mk_locks (to_LFSLock <$> locks) (next_cursor cursor limit locks)).

Definition UnLock (repoType namespace name currentUser : bytes) (id : Z) (force : bool) : gio LfsLock :=
  find_repo repoType namespace name;;
  user ← or_unauthorized (FindByUsername currentUser);
  must ErrUnauthorized (AllowWriteAccess LOWER repoType namespace name currentUser);;
  lock ← io_wrap (λ e, if Is e ErrNoRows then ErrNotFound else e) (lock_FindByID id);
  (if decide (force = false ∧ lk_UserID lock ≠ u_ID user) then io_fail ErrForbidden else mret tt);;
  lock_RemoveByID id;;
  mret lock.

Record LFSLockListVerify := mk_verify { lv_Ours : list LFSLock; lv_Theirs : list LFSLock; lv_Next : bytes }.
Definition VerifyLock (repoType namespace name currentUser : bytes) (cursor limit : Z) : gio LFSLockListVerify :=
  repo ← find_repo repoType namespace name;
  user ← or_unauthorized (FindByUsername currentUser);
  must ErrUnauthorized (AllowReadAccess LOWER repoType namespace name currentUser);;
  locks ← lock_FindByRepoID (rp_ID repo) cursor limit;
  mret (mk_verify (to_LFSLock <$> filter (λ l, lk_UserID l = u_ID user) locks) (to_LFSLock <$> filter (λ l, lk_UserID l ≠ u_ID user) locks)
    (next_cursor cursor limit locks)).

(** ** api/handler/git_http.go: the answers to lock requests *)

(** Status and lock; a nil lock is dereferenced. *)
Definition CreateLock_handler (repoType namespace name currentUser path : bytes) : gio (Z * option LFSLock) :=
  '(lock, err) ← CreateLock repoType namespace name currentUser path;
  match err, lock with
  | None, Some l => mret (200, Some (to_LFSLock l))
  | None, None => git_panic
  | Some e, _ =>
      if Is e ErrAlreadyExists then match lock with Some l => mret (409, Some (to_LFSLock l)) | None => git_panic end
      else if Is e ErrUnauthorized then mret (401, None)
      else mret (500, None)
  end.
Definition UnLock_handler (repoType namespace name currentUser : bytes) (id : Z) (force : bool) : gio (Z * option LFSLock) :=
  r ← io_try (UnLock repoType namespace name currentUser id force);
  mret (match r with
        | Ok l => (200, Some (to_LFSLock l))
        | Err e => if Is e ErrUnauthorized then (401, None) else if Is e ErrNotFound then (404, None)
                   else if Is e ErrForbidden then (405, None) else (500, None)
        end).
(** Status of an answer to a batch request. *)
Definition http_error (e : goerr) : option Z :=
  head (omap (λ e, match e with HTTPError s _ => Some s | _ => None end) (UnwrapAllError e)).
Definition LfsBatch_handler (req : BatchRequest) : gio (Z * option BatchResponse) :=
  r ← io_try (LFSBatch req);
  mret (match r with
        | Ok resp => (200, Some resp)
        | Err e => if Is e ErrUnauthorized then (401, None) else if Is e ErrForbidden then (403, None)
                   else (default 500 (http_error e), None)
        end).
(** The body of an answer that is an error, with the status. *)
Definition CompleteMultipartUpload_handler (objectKey uploadID expiresAt signature : bytes) (parts : list (Z * bytes)) : gio (Z * option bytes) :=
  '(code, err) ← CompleteMultipartUpload objectKey uploadID expiresAt signature parts;
  mret (match err with Some e => (code, Some (Error e)) | None => (200, None) end).
End git_http.
