(* ===== verification/GitHttpSpec.v ===== *)
(** Git over HTTP: who writes may write and who reads may read, whatever calls
    fail. Every operation is walked through once for any relation of worlds
    that reading keeps. *)
From S2P Require Import Prelude GoLib GoJson GoHash GoTime Sensitive Mirror MirrorLfs Errorx AcAccess AcSpec GitHttp.
Open Scope Z_scope.

(** ** Runs that leave git alone *)

Definition same_git (x y : git_world) : Prop := gw_git y = gw_git x.
#[export] Instance same_git_preorder : PreOrder same_git.
Proof. split; [done|]. intros x y z Hx Hy. unfold same_git in *. congruence. Qed.
Definition untouched {A} (m : gio A) : Prop := ∀ w, same_git w (snd (m w)).

Lemma untouched_fault : untouched next_fault.
Proof. intros w. unfold next_fault. destruct w as [a [|[e|] fs] g]; done. Qed.
Lemma untouched_bind {A B} (m : gio A) (f : A → gio B) : untouched m → (∀ x, untouched (f x)) → untouched (m ≫= f).
Proof.
  intros Hm Hf w. specialize (Hm w). unfold mbind, io_bind. destruct (m w) as [[x|e|] w'] eqn:?; cbn in *; [|done..]. etrans; [exact Hm|apply Hf].
Qed.
Lemma untouched_ret {A} (x : A) : untouched (mret x).
Proof. by intros w. Qed.
Lemma untouched_fail {A} e : untouched (io_fail e : gio A).
Proof. by intros w. Qed.
Lemma untouched_panic {A} : untouched (git_panic : gio A).
Proof. by intros w. Qed.
Lemma untouched_gets {A} (f : git_world → A) : untouched (io_gets f).
Proof. by intros w. Qed.
Lemma untouched_try {A} (m : gio A) : untouched m → untouched (io_try m).
Proof. intros Hm w. specialize (Hm w). unfold io_try. by destruct (m w) as [[x|e|] w']. Qed.
Lemma untouched_wrap {A} f (m : gio A) : untouched m → untouched (io_wrap f m).
Proof. intros Hm w. specialize (Hm w). unfold io_wrap. by destruct (m w) as [[x|e|] w']. Qed.

Create HintDb untouched.
#[export] Hint Resolve untouched_fault untouched_ret untouched_fail untouched_panic untouched_gets untouched_try untouched_wrap : untouched.
#[export] Hint Extern 0 (untouched (λ w, (Panic, w))) => (by intros ?) : untouched.
#[export] Hint Extern 1 (untouched (_ ≫= _)) => (apply untouched_bind; [|intros ?]) : untouched.
#[export] Hint Extern 1 (untouched (if ?b then _ else _)) => destruct b : untouched.
#[export] Hint Extern 1 (untouched (match ?x with _ => _ end)) => destruct x : untouched.
Ltac untouched := repeat (intros; first [solve [auto 2 with untouched nocore] | apply untouched_try | apply untouched_wrap | apply untouched_bind |
  match goal with |- untouched (match ?x with _ => _ end) => destruct x end | progress cbv beta]).

Section access.
Variable LOWER : bytes → bytes.
Lemma untouched_read {A} (f : access → A) : untouched (read (W := git_world) f).
Proof. unfold read. untouched. Qed.
Lemma untouched_row {A} (f : access → option A) : untouched (read_row (W := git_world) f).
Proof. unfold read_row. apply untouched_bind; [apply untouched_read|]. untouched. Qed.
Lemma untouched_user n : untouched (FindByUsername n).
Proof. apply untouched_wrap, untouched_row. Qed.
Lemma untouched_repo ty ns n : untouched (repo_FindByPath LOWER ty ns n).
Proof. apply untouched_wrap, untouched_row. Qed.
Lemma untouched_role org n : untouched (svc_GetMemberRole org n).
Proof.
  unfold svc_GetMemberRole, GetMemberRole, find_member, org_FindByPath, member_Find, FindByUsername. untouched; apply untouched_row.
Qed.
Lemma untouched_permission u ns r : untouched (CheckCurrentUserPermission u ns r).
Proof. unfold CheckCurrentUserPermission, namespace_FindByPath, FindByUsername. untouched; first [apply untouched_row|apply untouched_role]. Qed.
Lemma untouched_AllowReadAccess ty ns n u : untouched (AllowReadAccess LOWER ty ns n u).
Proof. unfold AllowReadAccess, AllowReadAccessRepo, namespace_of. untouched; first [apply untouched_repo|apply untouched_permission]. Qed.
Lemma untouched_allow_access r ty ns n u : untouched (allow_access LOWER r ty ns n u).
Proof. unfold allow_access. untouched; first [apply untouched_repo|apply untouched_permission]. Qed.
End access.

(** ** Paths of objects *)

(** An element that cleaning a path keeps. *)
Definition plain_elem (e : bytes) : Prop := e ≠ [] ∧ e ≠ bs "." ∧ e ≠ bs ".." ∧ "/"%char ∉ e.
Lemma clean_plain l acc : Forall plain_elem l → foldl (clean_step false) acc l = reverse l ++ acc.
Proof.
  intros Hl. revert acc. induction Hl as [|e l (H1 & H2 & H3 & _) _ IH]; intros acc; [done|]. cbn [foldl]. unfold clean_step at 2.
  rewrite decide_False by tauto. rewrite decide_False by done. rewrite IH, reverse_cons. by rewrite <- (assoc_L (++)).
Qed.
Lemma Join_plain_head l : Forall plain_elem l → HasPrefix (Join l (bs "/")) (bs "/") = false.
Proof.
  intros Hl. apply bool_decide_eq_false. intros [k Hk]. destruct Hl as [|e l (He & _ & _ & Hs) _]; [done|].
  destruct e as [|c e]; [done|]. assert (c = "/"%char) as ->; [|apply Hs; left].
  destruct l; cbn in Hk; congruence.
Qed.
Lemma path_Clean_plain l : l ≠ [] → Forall plain_elem l → path_Clean (Join l (bs "/")) = Join l (bs "/").
Proof.
  intros Hne Hl. unfold path_Clean. rewrite Join_plain_head by done. change (bs "/") with ["/"%char].
  rewrite Split_Join; [|done|eapply Forall_impl; [exact Hl|by intros e (_ & _ & _ & ?)]].
  rewrite clean_plain by done. rewrite app_nil_r, reverse_involutive. cbn [app]. rewrite decide_False; [done|].
  destruct Hl as [|e l (He & _) _]; [done|]. destruct e; [done|]. by destruct l.
Qed.
Lemma path_Join_plain l : l ≠ [] → Forall plain_elem l → path_Join l = Join l (bs "/").
Proof.
  intros Hne Hl. unfold path_Join. rewrite filter_all_in by (intros e He; rewrite Forall_forall in Hl; by destruct (Hl e He)).
  destruct l; [done|]. by apply path_Clean_plain.
Qed.

Definition oid_valid (oid : bytes) : Prop := Pointer_Valid (mk_ptr oid 0 []) = true.
Lemma valid_oid oid size url : Pointer_Valid (mk_ptr oid size url) = true → oid_valid oid ∧ 0 ≤ size.
Proof.
  unfold oid_valid, Pointer_Valid. rewrite !andb_true_iff, !bool_decide_eq_true. cbn [p_Oid p_Size]. intros ((? & ?) & ?). split_and!; [done..|lia|done].
Qed.
Lemma valid_bytes oid : oid_valid oid → length oid = 64%nat ∧ ∀ c, c ∈ oid → hex_lower c = true.
Proof.
  unfold oid_valid, Pointer_Valid. rewrite !andb_true_iff, !bool_decide_eq_true. cbn [p_Oid]. intros ((Hlen & Hall) & _). unfold len in Hlen. split; [lia|].
  rewrite forallb_forall in Hall. intros c Hc. apply Hall. by apply list_elem_of_In.
Qed.
Definition oid_parts (oid : bytes) : list bytes := [take 2 oid; take 2 (drop 2 oid); drop 4 oid].
Lemma hex_plain e : e ≠ [] → (∀ c, c ∈ e → hex_lower c = true) → plain_elem e.
Proof.
  intros Hne Hall. assert (∀ c, c ∈ e → c ≠ "/"%char ∧ c ≠ "."%char) as Hno.
  { intros c Hc. specialize (Hall c Hc). apply bool_decide_eq_true in Hall. split; intros ->; vm_compute in Hall; intuition congruence. }
  split_and!; [done|intros ->..|intros Hc; by destruct (Hno _ Hc)]; (destruct (Hno "."%char) as [_ []]; [left|done]).
Qed.
Lemma parts_plain oid : oid_valid oid → Forall plain_elem (oid_parts oid) ∧ oid = concat (oid_parts oid).
Proof.
  intros (Hlen & Hall)%valid_bytes. assert (oid = concat (oid_parts oid)) as Hoid.
  { cbn. rewrite app_nil_r. change 4%nat with (2 + 2)%nat. by rewrite <- drop_drop, !take_drop. }
  split; [|done]. assert (∀ e, e ∈ oid_parts oid → e ≠ []) as Hne.
  { intros e He%list_elem_of_In ->. cbn in He. rewrite <- !length_zero_iff_nil, !length_take, !length_drop, Hlen in He. cbn in He. intuition lia. }
  apply Forall_forall. intros e He. apply hex_plain; [by apply Hne|]. intros c Hc. apply Hall. rewrite Hoid. apply list_elem_of_In, in_concat.
  exists e. by rewrite <- !list_elem_of_In.
Qed.
Definition lfs_key (oid : bytes) : bytes := Join (bs "lfs" :: oid_parts oid) (bs "/").
Definition lfs_tail (oid : bytes) : bytes := Join (oid_parts oid) (bs "/").
Lemma slice_at {A} (l : list A) i j n : 0 ≤ i ≤ j ∧ j ≤ n → len l = n → slice l i j = Some (take (Z.to_nat (j - i)) (drop (Z.to_nat i) l)).
Proof. intros Hij Hn. unfold slice. rewrite decide_True; [done|]. unfold len in *. lia. Qed.
Lemma lfs_path id oid : oid_valid oid → BuildLfsPath id oid false = Some (lfs_key oid).
Proof.
  intros Hoid. destruct (parts_plain oid Hoid) as (Hplain & _). destruct (valid_bytes oid Hoid) as (Hlen & _).
  assert (len oid = 64) as Hl by (unfold len; lia). unfold BuildLfsPath. rewrite Hl. rewrite !(slice_at _ _ _ 64) by lia. cbn [mbind option_bind].
  assert (drop 4 oid = take (Z.to_nat (64 - 4)) (drop (Z.to_nat 4) oid)) as Htail by (rewrite take_ge; [done|rewrite length_drop; lia]).
  change [take (Z.to_nat (2 - 0)) (drop (Z.to_nat 0) oid); take (Z.to_nat (4 - 2)) (drop (Z.to_nat 2) oid); take (Z.to_nat (64 - 4)) (drop (Z.to_nat 4) oid)]
    with [take 2 oid; take 2 (drop 2 oid); take (Z.to_nat (64 - 4)) (drop (Z.to_nat 4) oid)]. rewrite <- Htail.
  change [take 2 oid; take 2 (drop 2 oid); drop 4 oid] with (oid_parts oid). rewrite (path_Join_plain (oid_parts oid)) by done.
  f_equal. unfold path_Join. rewrite filter_all_in; [|intros e [->|[->|[]%not_elem_of_nil]%elem_of_cons]%elem_of_cons; [done|]].
  2: { apply (Join_nonempty "/"%char); [done|]. eapply Forall_impl; [exact Hplain|by intros e (? & _)]. }
  apply (path_Clean_plain (bs "lfs" :: oid_parts oid)); [done|]. constructor; [|done]. split_and!; [done..|]. vm_compute. set_solver.
Qed.
Lemma tmp_of_lfs oid : oid_valid oid → tmp_and_oid (lfs_key oid) = Some (S3_TMP_DIR ++ lfs_tail oid, oid).
Proof.
  intros Hoid. destruct (parts_plain oid Hoid) as (Hplain & Hcat). unfold tmp_and_oid.
  assert (Split (lfs_tail oid) (bs "/") = oid_parts oid) as Hsplit.
  { apply (Split_Join "/"%char); [done|]. eapply Forall_impl; [exact Hplain|by intros e (_ & _ & _ & ?)]. }
  assert (lfs_key oid = bs "lfs/" ++ lfs_tail oid) as -> by done. unfold TrimPrefix, HasPrefix.
  assert (∀ p t : bytes, bool_decide (p `prefix_of` p ++ t) = true) as Hpre by (intros p t; apply bool_decide_eq_true; by exists t).
  rewrite !Hpre, drop_app_length.
  rewrite Hsplit. do 2 f_equal. rewrite Hcat at 2. cbn. by rewrite app_nil_r.
Qed.

(** ** What requests do to git

    The changes a request by a user for a repository may make, with what each
    rests on in the tables: writing needs the role, counting and recording of
    objects needs nothing. *)
Definition is_fetch (c : git_call) : bool := match c with CallReceivePack _ _ => false | _ => true end.
Definition tmp_key (key : bytes) : Prop := ∃ rest, key = S3_TMP_DIR ++ rest.
Definition user_at (a : access) (n : bytes) : option User := found_by (λ u, u_Username u = n ∧ u_Deleted u = false) (ac_users a).

Section requests.
Variables (LOWER : bytes → bytes) (unicode_lower : Z → Z) (put_takes : bytes → Z → result bytes goerr)
  (presign_get : bytes → gmap bytes bytes → bytes) (xnet_presign_get : bytes → bytes) (presign_put : bytes → gmap bytes bytes → bytes)
  (upload_id : nat → bytes) (assembled : bytes → list (Z * bytes) → result bytes goerr) (s3_status : goerr → option Z)
  (today : bytes) (now : Z) (config : git_config).
(** The request, the lock it releases if it does, by force or not, and the
    key and content of an upload it may complete. *)
Variables (a : access) (ty ns name user : bytes) (target : option Z) (forced : bool) (completes : option (bytes * bytes)).

Definition granted : Prop := may a user ns RoleWrite.
Inductive git_step : git_state → git_state → Prop :=
  | step_downloads ds c s : git_step s (with_downloads ds c s)
  | step_metas ms n s : git_step s (with_metas ms n s)
  | step_fetch c s : is_fetch c = true → git_step s (add_call c s)
  | step_push path y s : granted → user_at a user = Some y → git_step s (add_call (CallReceivePack path (u_ID y)) s)
  | step_multipart key s : granted → git_step s (add_multipart key s)
  | step_lock r y path s : granted → repo_at LOWER a ty ns name = Some r → user_at a user = Some y →
      found_by (lock_at (rp_ID r) path) (gs_locks s) = None →
      git_step s (with_locks (gs_locks s ++ [mk_lock (gs_nextLock s) (rp_ID r) (u_ID y) path []]) (gs_nextLock s + 1) s)
  | step_unlock y id l s : granted → user_at a user = Some y → target = Some id → found_by (λ l, lk_ID l = id) (gs_locks s) = Some l → forced = true ∨ lk_UserID l = u_ID y →
      git_step s (with_locks (filter (λ l, lk_ID l ≠ id) (gs_locks s)) (gs_nextLock s) s)
  | step_tmp key content s : granted → tmp_key key → git_step s (with_bucket <[key := content]> s)
  | step_untmp key s : granted → tmp_key key → git_step s (with_bucket (delete key) s)
  | step_put id oid key content s : granted → BuildLfsPath id oid true = Some key → git_step s (with_bucket <[key := content]> s)
  | step_store id oid key content s : granted → oid_valid oid → BuildLfsPath id oid false = Some key → SHA256 content = oid →
      git_step s (with_bucket <[key := content]> s)
  | step_complete i key content s : completes = Some (key, content) → gs_multiparts s !! i = Some key →
      git_step s (end_multipart i (with_bucket <[key := content]> s)).

Definition leads (x y : git_world) : Prop := rtc git_step (gw_git x) (gw_git y).
#[local] Instance leads_preorder : PreOrder leads.
Proof. split; [intros x; apply rtc_refl|]. intros x y z ??. unfold leads in *. by etrans. Qed.
Abbreviation does := (moves (E := goerr) (at_ (W := git_world) False a) leads).

Lemma at_git f w : at_ False a w → at_ False a (on_git f w).
Proof. done. Qed.
Lemma does_untouched {A} (P : A → Prop) (m : gio A) : moves (at_ False a) everywhere P m → untouched m → does P m.
Proof.
  intros Hm Hq w Hw. destruct (Hm w Hw) as (? & _ & ?). split_and!; [done| |done]. unfold leads. by rewrite (Hq w).
Qed.
Lemma does_fault : does (λ _, True) next_fault.
Proof. apply does_untouched, untouched_fault. apply at_fault. Qed.
Lemma does_git_read {A} (f : git_state → A) : does (λ _, True) (git_read f).
Proof. eapply moves_bind_true; [apply _|apply does_fault|]. intros _. by apply moves_gets; [apply _|]. Qed.
Lemma does_git_row {A} (f : git_state → option A) : does (λ _, True) (git_row f).
Proof. eapply moves_bind_true; [apply _|apply does_git_read|]. intros [x|]; [by apply moves_ret; [apply _|]|apply moves_fail, _]. Qed.
Lemma does_step f : (∀ s, git_step s (f s)) → does (λ _, True) (io_modify (on_git f)).
Proof. intros Hf. apply moves_modify. intros w Hw. split; [done|]. by apply rtc_once. Qed.
Lemma does_write f : (∀ s, git_step s (f s)) → does (λ _, True) (git_write f).
Proof. intros Hf. eapply moves_bind_true; [apply _|apply does_fault|]. intros _. by apply does_step. Qed.
Lemma does_user n : does (λ u, user_at a n = Some u) (FindByUsername n).
Proof. apply does_untouched, untouched_user. apply at_user. Qed.
Lemma does_repo t s n : does (λ r, repo_at LOWER a t s n = Some r) (repo_FindByPath LOWER t s n).
Proof. apply does_untouched, untouched_repo. apply at_repo. Qed.
Lemma does_AllowRead t s n u : does (λ b, b = true → ∃ r, repo_at LOWER a t s n = Some r ∧ readable a r u) (AllowReadAccess LOWER t s n u).
Proof. apply does_untouched, untouched_AllowReadAccess. apply at_AllowReadAccess. Qed.
Lemma does_AllowWrite t s n u : does (λ b, b = true → may a u s RoleWrite) (AllowWriteAccess LOWER t s n u).
Proof. apply does_untouched, untouched_allow_access. eapply moves_weaken; [apply at_allow_access|done|]. intros b Hb Ht. by destruct (Hb Ht) as (_ & _ & ?). Qed.
Lemma does_must e (Q : Prop) (m : gio bool) : does (λ b, b = true → Q) m → does (λ _, Q) (must e m).
Proof. intros Hm. eapply moves_bind; [apply _|exact Hm|]. intros [] Hb; [by apply moves_ret; [apply _|auto]|apply moves_fail, _]. Qed.

(** One more part of a request, and the last. *)
Ltac part H := eapply moves_bind; [apply _|H|].
Ltac rets := first [by apply moves_ret; [apply _|] | by apply moves_fail, _ | by intros ??].
Abbreviation find_repo t s n := (io_wrap (wrap "failed to find repo, error: ") (repo_FindByPath LOWER t s n)).

Lemma does_path t s n : does (λ _, True) (client_BuildRelativePath LOWER unicode_lower config t s n).
Proof.
  unfold client_BuildRelativePath. apply moves_bind_true; [apply _| |intros [p|]; rets]. case_decide; [rets|].
  part ltac:(apply moves_wrap, does_repo). intros r _. rets.
Qed.
Lemma does_git_server c : (∀ s, git_step s (add_call c s)) → does (λ _, True) (git_server c).
Proof. intros Hc. apply moves_bind_true; [apply _|by apply does_step|]. intros _. apply does_fault. Qed.
Lemma does_UpdateDownloads id : does (λ _, True) (UpdateDownloads id).
Proof.
  unfold UpdateDownloads. apply moves_bind_true; [apply _|apply moves_wrap, does_git_read|]. intros [|d ds]; [rets|].
  apply moves_wrap, does_write. constructor.
Qed.
Lemma does_clone id date n : does (λ _, True) (UpdateRepoCloneDownloads id date n).
Proof.
  unfold UpdateRepoCloneDownloads. apply moves_bind_true; [apply _|apply moves_try_true, moves_wrap, does_git_row|]. intros r.
  apply moves_bind_true; [apply _| |intros _; apply moves_wrap, does_UpdateDownloads].
  destruct r as [d|e]; [apply does_write; constructor|]. destruct (Is e ErrNoRows); [apply does_write; constructor|rets].
Qed.

(** A request that ends well was by one who may read, or write. *)
Definition seen : Prop := ∃ r, repo_at LOWER a ty ns name = Some r ∧ readable a r user.
Lemma does_read_check e (r : Repository) : repo_at LOWER a ty ns name = Some r →
  does (λ _, seen) (if rp_Private r then must e (or_unauthorized (AllowReadAccess LOWER ty ns name user)) else mret tt).
Proof.
  intros Hr. destruct (rp_Private r) eqn:Hp; [apply does_must, moves_wrap, does_AllowRead|]. apply moves_ret; [apply _|]. exists r. split; [done|by left].
Qed.
Lemma does_InfoRefs rpc : does (λ _, if decide (rpc = bs "git-receive-pack") then granted else seen) (InfoRefs LOWER unicode_lower config ty ns name rpc user).
Proof.
  unfold InfoRefs. part ltac:(apply moves_wrap, does_repo). intros r Hr.
  apply moves_bind_true; [apply _|apply moves_try_true, does_git_row|]. intros m.
  apply moves_bind_true; [apply _|destruct m as [[[]|]|e]; [..|destruct (Is e ErrNoRows)]; rets|]. intros _.
  eapply (moves_bind _ _ (λ _, if decide (rpc = bs "git-receive-pack") then granted else seen)).
  - case_decide.
    + part ltac:(apply does_must, moves_wrap, does_AllowWrite). intros ? Hw. destruct (rp_XnetEnabled r); rets.
    + by apply does_read_check.
  - intros ? HP. part ltac:(apply does_path). intros path _.
    destruct (decide (rpc ∈ _)); [|rets].
    eapply moves_weaken; [apply does_git_server; by constructor|done|done].
Qed.
Lemma does_UploadPack : does (λ _, seen) (GitUploadPack LOWER unicode_lower today config ty ns name user).
Proof.
  unfold GitUploadPack. part ltac:(apply moves_wrap, does_repo). intros r Hr. part ltac:(by apply does_read_check). intros ? HP.
  apply moves_bind_true; [apply _|apply moves_try_true, does_clone|]. intros _. part ltac:(apply does_path). intros path _.
  eapply moves_weaken; [apply moves_wrap, does_git_server; by constructor|done|done].
Qed.
Lemma does_ReceivePack n : does (λ _, granted) (GitReceivePack LOWER unicode_lower config ty ns name user n).
Proof.
  unfold GitReceivePack. case_decide; [rets|]. part ltac:(apply moves_wrap, does_repo). intros r Hr.
  part ltac:(apply moves_wrap, does_user). intros y Hy. part ltac:(apply does_must, moves_wrap, does_AllowWrite). intros ? Hw.
  part ltac:(apply does_fault). intros ? _. part ltac:(apply does_path). intros path _.
  eapply moves_weaken; [apply does_git_server; by constructor|done|done].
Qed.

(** A part that knows more of the worlds it starts in, and the rest. *)
Lemma moves_from {A B} (I J : git_world → Prop) R `{!PreOrder R} (P : A → Prop) (m : gio A) (f : A → gio B) :
  (∀ w, I w → J w) → moves I R P m → (∀ x, P x → moves J R (λ _, True) (f x)) → ∀ w, I w → J (snd ((m ≫= f) w)) ∧ R w (snd ((m ≫= f) w)).
Proof.
  intros HIJ Hm Hf w Hw. destruct (Hm w Hw) as (HI & HR & HP). unfold mbind, io_bind. destruct (m w) as [[x|e|] w'] eqn:?; cbn in *; [|by auto..].
  destruct (Hf x (HP x eq_refl) w' (HIJ _ HI)) as (? & ? & _). split; [done|by etrans].
Qed.

Lemma repos_key id oid key : BuildLfsPath id oid true = Some key → ∃ rest, key = bs "repos/" ++ rest.
Proof.
  unfold BuildLfsPath. destruct (slice (SHA256 (Itoa id)) 0 2) as [x|]; [|done]. cbn [mbind option_bind]. destruct (slice (SHA256 (Itoa id)) 2 4) as [y|]; [|done].
  intros [= <-]. eexists. reflexivity.
Qed.
(** Writing the temporary object, and what is done with it. *)
Lemma does_put key body size f : (∀ content s, git_step s (with_bucket <[key := content]> s)) →
  (∀ content w, at_ False a w → gs_bucket (gw_git w) !! key = Some content →
    at_ False a (snd (f content w)) ∧ leads w (snd (f content w))) →
  does (λ _ : unit, True) (PutObject put_takes key body size ≫= f).
Proof.
  intros Hstep Hf w Hw. destruct (does_fault w Hw) as (Hw1 & Hr1 & _). unfold PutObject. unfold mbind, io_bind in *.
  destruct (next_fault w) as [[[]|e|] w1] eqn:Hrun; cbn [fst snd] in *; [|by split_and!..].
  destruct (put_takes body size) as [content|e]; cbn [mret io_ret io_fail io_modify fst snd]; [|by split_and!].
  destruct (Hf content (on_git (with_bucket <[key := content]>) w1)) as (? & ?); [done|cbn; apply lookup_insert_eq|].
  split_and!; [done| |done]. etrans; [exact Hr1|]. transitivity (on_git (with_bucket <[key := content]>) w1); [apply rtc_once, Hstep|done].
Qed.
Lemma does_copy dst src content : (∀ s, git_step s (with_bucket <[dst := content]> s)) →
  moves (λ w, at_ False a w ∧ gs_bucket (gw_git w) !! src = Some content) leads (λ _, True) (CopyObject dst src).
Proof.
  intros Hstep w (Hw & Hsrc). unfold CopyObject. unfold mbind, io_bind. destruct (does_fault w Hw) as (Hw1 & Hr1 & _). pose proof (untouched_fault w) as Hq. unfold same_git in Hq.
  destruct (next_fault w) as [[[]|e|] w1] eqn:Hrun; cbn [fst snd] in *; [|rewrite Hq; by split_and!..].
  cbn [io_gets]. rewrite Hq, Hsrc. cbn. split_and!; [done| | |done].
  - rewrite Hq. destruct (decide (dst = src)) as [->|]; [by rewrite lookup_insert_eq|by rewrite lookup_insert_ne].
  - etrans; [exact Hr1|]. by apply rtc_once.
Qed.
Lemma does_upload id oid key body size m : granted → oid_valid oid → BuildLfsPath id oid m = Some key → does (λ _, True) (uploadAndValidate put_takes key body size).
Proof.
  intros Hg Hoid Hkey. unfold uploadAndValidate. destruct m.
  - destruct (repos_key id oid key Hkey) as (rest & Hrest). unfold tmp_and_oid. assert (HasPrefix key (bs "lfs/") = false) as ->.
    { apply bool_decide_eq_false. rewrite Hrest. by intros [k ?]. }
    case_decide; [rets|]. apply does_put; [intros; by eapply step_put|]. intros content w Hw _. rewrite Hrest. cbn -[at_]. split; [done|apply rtc_refl].
  - rewrite (lfs_path id oid Hoid) in Hkey. injection Hkey as <-. rewrite (tmp_of_lfs oid Hoid). assert (tmp_key (S3_TMP_DIR ++ lfs_tail oid)) as Htmp by (by eexists).
    apply does_put; [intros; by constructor|]. intros content w Hw Hc. assert (HasPrefix (lfs_key oid) (bs "repos/") = false) as ->.
    { apply bool_decide_eq_false. by intros [k ?]. }
    eapply (moves_from (λ w, at_ False a w ∧ gs_bucket (gw_git w) !! (S3_TMP_DIR ++ lfs_tail oid) = Some content) (at_ False a) leads (λ _, True));
      [by intros ? []| | |by split].
    + apply moves_try_true. case_decide; [by apply moves_fail, _|]. case_decide as Hsum; [by apply moves_fail, _|]. apply does_copy. intros s.
      eapply (step_store id oid); [done|done|by apply lfs_path|]. destruct (decide (SHA256 content = oid)); [done|by destruct Hsum].
    + intros r _. apply moves_bind_true; [apply _|apply moves_try_true, does_write; by constructor|]. intros _. destruct r; rets.
Qed.

(** *** Objects and locks *)

Lemma does_stat key : does (λ _, True) (StatObject key).
Proof. apply moves_bind_true; [apply _|apply does_git_read|]. intros [c|]; rets. Qed.
Lemma does_key k : does (λ key, k = Some key) (lift_key k).
Proof. destruct k; rets. Qed.
(** What is done with the state that was read. *)
Lemma does_state {A} (P : A → Prop) (F : git_state → gio A) :
  (∀ w, at_ False a w → at_ False a (snd (F (gw_git w) w)) ∧ leads w (snd (F (gw_git w) w)) ∧ ∀ x, fst (F (gw_git w) w) = Ret x → P x) →
  does P (io_gets gw_git ≫= F).
Proof. intros HF w Hw. by apply HF. Qed.

Lemma does_LfsUpload oid size body : does (λ _, granted) (LfsUpload LOWER put_takes ty ns name user oid size body).
Proof.
  unfold LfsUpload. part ltac:(apply moves_wrap, does_repo). intros r Hr. part ltac:(apply does_must, does_AllowWrite). intros ? Hw.
  destruct (Pointer_Valid _) eqn:Hv; [|rets]. apply valid_oid in Hv as (Hoid & _). part ltac:(apply does_key). intros key Hkey.
  apply moves_bind_true; [apply _|apply moves_try_true, does_stat|]. intros [n|e].
  - apply moves_bind_true; [apply _|apply does_fault|]. intros _. case_decide; rets.
  - destruct (noSuchKey e); [|rets]. eapply moves_weaken; [exact (does_upload _ _ _ body size _ Hw Hoid Hkey)|done|done].
Qed.
Lemma does_UpdateOrCreate o : does (λ _, True) (meta_UpdateOrCreate o).
Proof.
  unfold meta_UpdateOrCreate. apply moves_bind_true; [apply _|apply moves_try_true|].
  - apply moves_bind_true; [apply _|apply does_fault|]. intros _. apply does_state. intros w Hw.
    destruct (filter _ _); cbn [io_fail io_modify fst snd]; [by split_and!|]. split_and!; [done| |done]. apply rtc_once, step_metas.
  - intros [|e]; [rets|]. apply moves_wrap. apply moves_bind_true; [apply _|apply does_fault|]. intros _. apply does_state. intros w Hw.
    destruct (filter _ _); cbn [io_fail io_modify fst snd]; [|by split_and!]. split_and!; [done| |done]. apply rtc_once, step_metas.
Qed.
Lemma does_LfsVerify p : does (λ _, True) (LfsVerify LOWER ty ns name user p).
Proof.
  unfold LfsVerify. part ltac:(apply moves_wrap, does_repo). intros r Hr. part ltac:(apply does_key). intros key Hkey.
  part ltac:(apply moves_wrap, does_stat). intros size _. case_decide; [rets|]. apply moves_wrap, does_UpdateOrCreate.
Qed.
(** An upload is completed with what is assembled of its parts, if the address
    is signed. *)
Lemma does_core_Complete key up parts : (∀ content, assembled up parts = Ok content → completes = Some (key, content)) →
  does (λ _, True) (core_CompleteMultipartUpload upload_id assembled key up parts).
Proof.
  intros Hc w Hw. destruct (does_fault w Hw) as (Hw1 & Hr1 & _). unfold core_CompleteMultipartUpload, mbind, io_bind.
  destruct (next_fault w) as [[[]|e|] w1]; cbn [fst snd] in *; [|by split_and!..]. cbn [io_gets].
  destruct (found_by _ _) as [[i k]|] eqn:Hf; [|by split_and!]. destruct (assembled up parts) as [content|e] eqn:Ha; [|by split_and!].
  cbn [io_modify fst snd]. split_and!; [done| |done]. etrans; [exact Hr1|]. apply rtc_once, step_complete; [by apply Hc|].
  apply found_by_Some in Hf as (Hin & Hkey & _). apply list_elem_of_lookup_1 in Hin as (j & Hj). rewrite list_lookup_imap in Hj.
  destruct (gs_multiparts (gw_git w1) !! j) as [k'|] eqn:Hk'; [|done]. cbn in Hj, Hkey. by simplify_eq.
Qed.
Lemma does_Complete key up e sig parts :
  (isValidCompleteUploadSignature now config key up e sig = true → ∀ content, assembled up parts = Ok content → completes = Some (key, content)) →
  does (λ x, x.2 = None → isValidCompleteUploadSignature now config key up e sig = true)
    (CompleteMultipartUpload upload_id assembled s3_status now config key up e sig parts).
Proof.
  intros Hc. unfold CompleteMultipartUpload. destruct (isValidCompleteUploadSignature _ _ _ _ _ _) eqn:Hs; [|rets].
  apply moves_bind_true; [apply _|apply moves_try_true, does_core_Complete; auto|]. intros [u|err]; rets.
Qed.
Lemma does_presign key ps : does (λ _, True) (PresignedGetObject presign_get key ps).
Proof. apply moves_bind_true; [apply _|apply does_fault|]. intros _. rets. Qed.
Lemma does_LfsDownload oid saveAs : does (λ _, seen) (LfsDownload LOWER presign_get ty ns name user oid saveAs).
Proof.
  unfold LfsDownload. part ltac:(apply moves_wrap, does_repo). intros r Hr. part ltac:(apply does_must, moves_wrap, does_AllowRead). intros ? HP.
  apply moves_bind_true; [apply _|apply moves_wrap, does_git_row|]. intros _. part ltac:(apply does_key). intros key _.
  eapply moves_weaken; [apply does_presign|done|done].
Qed.

Lemma does_lock_row P `{!∀ l, Decision (P l)} : does (λ _, True) (lock_row P).
Proof. apply moves_bind_true; [apply _|apply does_git_row|]. intros l. by apply moves_gets; [apply _|]. Qed.
Lemma does_locks id page per : does (λ _, True) (lock_FindByRepoID id page per).
Proof. apply moves_bind_true; [apply _|apply does_git_read|]. intros l. by apply moves_gets; [apply _|]. Qed.
Lemma does_lock_Create r y path : granted → repo_at LOWER a ty ns name = Some r → user_at a user = Some y →
  does (λ _, True) (lock_Create (rp_ID r) (u_ID y) path).
Proof.
  intros Hg Hr Hy. apply moves_bind_true; [apply _|apply does_fault|]. intros _. apply does_state. intros w Hw.
  destruct (found_by _ _) eqn:Hfree; [by split_and!|]. split_and!; [done| |done]. by apply rtc_once, step_lock.
Qed.
Lemma does_CreateLock path : does (λ x, x.2 = None → granted) (CreateLock LOWER ty ns name user path).
Proof.
  unfold CreateLock. eapply (moves_bind _ _ (λ r, match r with Ok x => x.2 = None → granted | Err _ => True end));
    [apply moves_try|intros [x|e] Hx; by apply moves_ret; [apply _|]].
  part ltac:(apply moves_wrap, does_repo). intros r Hr. part ltac:(apply moves_wrap, does_user). intros y Hy.
  part ltac:(apply does_must, does_AllowWrite). intros ? Hw. apply moves_bind_true; [apply _|apply moves_try_true, does_lock_row|]. intros [l|e]; [rets|].
  destruct (Is e ErrNoRows); [|rets]. apply moves_bind_true; [apply _|by apply moves_try_true, does_lock_Create|]. intros [l|e']; rets.
Qed.
Lemma does_one_lock (m : gio LfsLock) (P : LfsLock → Prop) `{!∀ l, Decision (P l)} (Q : Prop) : does (λ _, True) m → Q → does (λ _, Q) (one_lock m P).
Proof.
  intros Hm HQ. apply moves_bind_true; [apply _|by apply moves_try_true|]. intros [l|e]; [rets|]. destruct (Is e ErrNoRows); rets.
Qed.
Lemma does_ListLocks path cursor limit id : does (λ _, seen) (ListLocks LOWER ty ns name user path cursor limit id).
Proof.
  unfold ListLocks. part ltac:(apply moves_wrap, does_repo). intros r Hr. part ltac:(apply moves_wrap, does_user). intros y Hy.
  part ltac:(apply does_must, does_AllowRead). intros ? HP. case_decide; [by apply does_one_lock; [apply does_lock_row|]|].
  case_decide; [by apply does_one_lock; [apply does_lock_row|]|]. apply moves_bind_true; [apply _|apply does_locks|]. intros l. rets.
Qed.
Lemma does_VerifyLock cursor limit : does (λ _, seen) (VerifyLock LOWER ty ns name user cursor limit).
Proof.
  unfold VerifyLock. part ltac:(apply moves_wrap, does_repo). intros r Hr. part ltac:(apply moves_wrap, does_user). intros y Hy.
  part ltac:(apply does_must, does_AllowRead). intros ? HP. apply moves_bind_true; [apply _|apply does_locks|]. intros l. rets.
Qed.
(** The lock found is the one that is removed. *)
Lemma does_unlock y id : granted → target = Some id → user_at a user = Some y → does (λ _, granted) (
  lock ← io_wrap (λ e, if Is e ErrNoRows then ErrNotFound else e) (lock_FindByID id);
  (if decide (forced = false ∧ lk_UserID lock ≠ u_ID y) then io_fail ErrForbidden else mret tt);; lock_RemoveByID id;; mret lock).
Proof.
  intros Hg Htarget Hy w Hw. destruct (does_fault w Hw) as (Hw1 & Hr1 & _). unfold lock_FindByID, lock_row, git_row, git_read, io_wrap, mbind, io_bind.
  destruct (next_fault w) as [[[]|e|] w1]; cbn [fst snd] in *; [|by split_and!..]. cbn [io_gets].
  destruct (found_by _ _) as [l|] eqn:Hl; cbn; [|by split_and!]. case_decide as Hown; cbn; [by split_and!|].
  destruct (does_fault w1 Hw1) as (Hw2 & Hr2 & _). pose proof (untouched_fault w1) as Hq. unfold lock_RemoveByID, git_write, mbind, io_bind.
  destruct (next_fault w1) as [[[]|e|] w2]; cbn [fst snd io_modify] in *; [|split_and!; [done|by etrans|done]..]. cbn. split_and!; [done| |by intros].
  etrans; [exact Hr1|]. etrans; [exact Hr2|]. apply rtc_once. unfold same_git in Hq. rewrite <- Hq in Hl.
  eapply (step_unlock y id l); [done..|exact Hl|]. destruct forced; [by left|right]. cbn in Hown. destruct (decide (lk_UserID l = u_ID y)) as [|Hne]; [done|]. destruct Hown. by split.
Qed.
Lemma does_UnLock id : target = Some id → does (λ _, granted) (UnLock LOWER ty ns name user id forced).
Proof.
  intros Htarget. unfold UnLock. part ltac:(apply moves_wrap, does_repo). intros r Hr. part ltac:(apply moves_wrap, does_user). intros y Hy.
  part ltac:(apply does_must, does_AllowWrite). intros ? Hw. by apply does_unlock.
Qed.

(** *** The batch interface *)

Variable req : BatchRequest.
Hypotheses (Hty : b_RepoType req = ty) (Hns : b_Namespace req = ns) (Hname : b_Name req = name) (Huser : b_CurrentUser req = user).
Definition batch_right : Prop := if decide (b_Operation req = LFSBatchUpload) then granted else seen.

Lemma does_lfsCheckAccess : does (λ _, batch_right) (lfsCheckAccess LOWER req).
Proof.
  unfold lfsCheckAccess, batch_right. rewrite Hty, Hns, Hname, Huser. case_decide as Hup.
  - case_decide; [rets|]. part ltac:(apply does_AllowWrite). intros [] Hw; [by apply moves_ret; [apply _|apply Hw]|].
    part ltac:(apply does_AllowRead). intros b _. rets.
  - case_decide; [|rets]. part ltac:(apply moves_try, does_AllowRead). intros [[]|e] Hb; [|rets..]. by apply moves_ret; [apply _|apply Hb].
Qed.
Lemma does_each f : (∀ p, does (λ _, True) (f p)) → ∀ l, does (λ _, True) (each_object f l).
Proof.
  intros Hf l. induction l as [|p l IH]; [rets|]. apply moves_bind_true; [apply _|apply Hf|]. intros r. apply moves_bind_true; [apply _|exact IH|]. intros rs. rets.
Qed.
Lemma does_download_object r ms p : does (λ _, True) (download_object presign_get xnet_presign_get r ms p).
Proof.
  unfold download_object. case_decide; [|rets]. destruct (Pointer_Valid p); [|rets]. part ltac:(apply does_key). intros key _.
  apply moves_bind_true; [apply _| |intros u; rets]. apply moves_try_true. destruct (rp_XnetEnabled r); [|apply does_presign].
  apply moves_bind_true; [apply _|apply does_fault|]. intros _. rets.
Qed.
Lemma does_PresignHeader key h : does (λ _, True) (PresignHeader presign_put key h).
Proof. apply moves_bind_true; [apply _|apply does_fault|]. intros _. rets. Qed.
Lemma does_parts fuel key up h chunk : ∀ total n resp, does (λ _, True) (parts_loop presign_put fuel key up h chunk total n resp).
Proof.
  induction fuel as [|fuel IH]; intros total n resp; cbn [parts_loop]; [rets|]. case_decide; [|rets].
  apply moves_bind_true; [apply _|apply does_PresignHeader|]. intros u. apply IH.
Qed.
Lemma does_new_upload key : granted → does (λ _, True) (NewMultipartUpload upload_id key).
Proof.
  intros Hg. apply moves_bind_true; [apply _|apply does_fault|]. intros _. apply moves_bind_true; [apply _|by apply moves_gets; [apply _|]|]. intros n.
  apply moves_bind_true; [apply _|apply does_step; by constructor|]. intros _. rets.
Qed.
Lemma does_upload_object h p : granted → does (λ _, True) (upload_object LOWER presign_put upload_id now config req h p).
Proof.
  intros Hg. unfold upload_object. destruct (Pointer_Valid p); [|rets]. apply moves_bind_true; [apply _| |intros l; rets]. case_decide.
  - unfold buildMultipartUploadLink. part ltac:(apply moves_wrap, does_repo). intros r _. part ltac:(apply does_key). intros key _.
    apply moves_bind_true; [apply _| |intros up; apply moves_bind_true; [apply _|apply does_parts|intros hs; rets]].
    case_decide; [by apply moves_wrap, does_new_upload|rets].
  - apply moves_bind_true; [apply _| |intros href; rets]. unfold buildUploadLink. destruct (SkipLfsFileValidation config); [|rets].
    apply moves_bind_true; [apply _|eapply moves_try_true, moves_true, does_repo|]. intros [r|e]; [|rets]. part ltac:(apply does_key). intros key _.
    apply moves_bind_true; [apply _|apply moves_try_true, does_PresignHeader|]. intros [u|e]; rets.
Qed.
Lemma does_LFSBatch : does (λ _, batch_right) (LFSBatch LOWER presign_get xnet_presign_get presign_put upload_id now config req).
Proof.
  unfold LFSBatch. rewrite Hty, Hns, Hname. part ltac:(apply moves_wrap, does_repo). intros r Hr. part ltac:(apply does_lfsCheckAccess). intros ? HP.
  assert (∀ m : gio BatchResponse, does (λ _, True) m → does (λ _, batch_right) m) as Hweaken by (intros m Hm; by eapply moves_weaken).
  destruct (decide (b_Operation req = LFSBatchUpload)) as [Hup|].
  - apply Hweaken. unfold lfsBatchUploadInfo. apply moves_bind_true; [apply _|apply does_git_read|]. intros ms.
    apply moves_bind_true; [apply _| |intros os; rets]. apply does_each. intros p. apply does_upload_object. unfold batch_right in HP. by rewrite decide_True in HP.
  - case_decide; [|rets]. apply Hweaken. unfold lfsBatchDownloadInfo. apply moves_bind_true; [apply _|apply does_git_read|]. intros ms.
    apply moves_bind_true; [apply _| |intros os; rets]. apply does_each. intros p. apply does_download_object.
Qed.
End requests.
