(* ===== verification/GitRulesSpec.v ===== *)
(** What holds of git over HTTP in every sequence of requests: writing needs a
    role and reading a look, locks stay well formed and are released by their
    owners or by force, and what is uploaded is what its name says. *)
From S2P Require Import Prelude GoLib GoJson GoHash GoTime Sensitive Mirror MirrorLfs Errorx AcAccess AcSpec AcMemberSpec AcRulesSpec GitHttp GitHttpSpec.
Open Scope Z_scope.

(** ** Requests *)

(** The repository a request names, and its user; the completion of an upload
    has neither. *)
Record git_caller := mk_caller { c_RepoType : bytes; c_Namespace : bytes; c_Name : bytes; c_User : bytes }.
Inductive git_op :=
  | GInfoRefs (rpc : bytes)
  | GUploadPack
  | GReceivePack (ContentLength : Z)
  | GBatch (operation : bytes) (transfers : list bytes) (objects : list Pointer) (authorization uploadID : bytes)
  | GUpload (oid : bytes) (size : Z) (body : bytes)
  | GVerify (p : Pointer)
  | GDownload (oid saveAs : bytes)
  | GCreateLock (path : bytes)
  | GListLocks (path : bytes) (cursor limit id : Z)
  | GVerifyLock (cursor limit : Z)
  | GUnLock (id : Z) (force : bool)
  | GCompleteMultipartUpload (objectKey uploadID expiresAt signature : bytes) (parts : list (Z * bytes)).
Definition unlocks (o : git_op) : option Z := match o with GUnLock id _ => Some id | _ => None end.
Definition by_force (o : git_op) : bool := match o with GUnLock _ force => force | _ => false end.
Definition batch_of (c : git_caller) (operation : bytes) (transfers : list bytes) (objects : list Pointer) (authorization uploadID : bytes) : BatchRequest :=
  mk_batch operation transfers objects authorization (c_Namespace c) (c_Name c) (c_RepoType c) (c_User c) uploadID.

(** ** What the changes keep *)

(** Ids are unique and below the next one, and a path has one lock. *)
Definition locks_ok (s : git_state) : Prop :=
  NoDup (lk_ID <$> gs_locks s) ∧ Forall (λ l, lk_ID l < gs_nextLock s) (gs_locks s) ∧ NoDup ((λ l, (lk_RepositoryID l, lk_Path l)) <$> gs_locks s).
(** A shared object has the digest its name says. *)
Definition objects_ok (s : git_state) : Prop := ∀ oid content, oid_valid oid → gs_bucket s !! lfs_key oid = Some content → SHA256 content = oid.

Lemma lfs_key_inj oid oid' : oid_valid oid → oid_valid oid' → lfs_key oid = lfs_key oid' → oid = oid'.
Proof. intros Ho Ho' Heq. pose proof (tmp_of_lfs oid Ho) as H1. rewrite Heq, (tmp_of_lfs oid' Ho') in H1. congruence. Qed.
Lemma lfs_key_no_tmp oid : oid_valid oid → ¬ tmp_key (lfs_key oid).
Proof.
  intros (Hlen & _)%valid_bytes [rest Heq]. apply (f_equal (λ l, l !! 6%nat)) in Heq.
  destruct oid as [|x [|y oid]]; [done..|]. cbn in Heq. done.
Qed.
Lemma lfs_key_no_repos oid id oid' : BuildLfsPath id oid' true ≠ Some (lfs_key oid).
Proof. intros (rest & Heq)%repos_key. apply (f_equal head) in Heq. done. Qed.

Section steps.
Context {LOWER : bytes → bytes} {a : access} {ty ns name user : bytes} {target : option Z} {forced : bool} {completes : option (bytes * bytes)}.
Abbreviation step := (git_step LOWER a ty ns name user target forced completes).
Lemma step_locks_ok x y : step x y → locks_ok x → locks_ok y.
Proof.
  unfold locks_ok. destruct 1 as [| | | | |r u path s _ _ _ Hfree|u id l s _ _ _ _ _| | | | |]; try done; cbn; intros (Hid & Hlt & Hpath).
  - rewrite !fmap_app, Forall_app. cbn. split_and!.
    + apply NoDup_app. split_and!; [done| |apply NoDup_singleton]. intros i (m & -> & Hm)%list_elem_of_fmap Hi%list_elem_of_singleton.
      rewrite Forall_forall in Hlt. specialize (Hlt m Hm). cbn in Hi. lia.
    + eapply Forall_impl; [exact Hlt|]. cbn. intros; lia.
    + constructor; [cbn; lia|done].
    + apply NoDup_app. split_and!; [done| |apply NoDup_singleton]. intros k (m & -> & Hm)%list_elem_of_fmap Hk%list_elem_of_singleton. injection Hk as Hr Hp.
      exact (found_by_None _ _ Hfree m Hm (conj Hr Hp)).
  - split_and!.
    + eapply sublist_NoDup; [exact Hid|]. apply fmap_sublist, sublist_filter.
    + apply Forall_forall. intros m (_ & Hm)%list_elem_of_filter. rewrite Forall_forall in Hlt. auto.
    + eapply sublist_NoDup; [exact Hpath|]. apply fmap_sublist, sublist_filter.
Qed.
Lemma step_keeps_lock x y l : step x y → locks_ok x → l ∈ gs_locks x →
  (target = Some (lk_ID l) → forced = false ∧ ∀ u, user_at a user = Some u → u_ID u ≠ lk_UserID l) → l ∈ gs_locks y.
Proof.
  destruct 1 as [| | | | |r u path s _ _ _ Hfree|u id l' s _ Hu Htarget Hl' Hown| | | | |]; try done; cbn; intros (Hid & _) Hl Hno.
  - apply elem_of_app. by left.
  - apply list_elem_of_filter. split; [|done]. intros Heq. subst id. destruct (Hno Htarget) as (Hf & Hne). apply found_by_Some in Hl' as (Hl' & Heq).
    assert (l' = l) as -> by (by apply (keyed_eq lk_ID _ _ _ Hid)). destruct Hown as [?|Ho]; [congruence|by apply (Hne u Hu)].
Qed.
(** A completed upload of a shared object has the digest its name says. *)
Definition honest_completion : Prop := ∀ oid content, completes = Some (lfs_key oid, content) → oid_valid oid → SHA256 content = oid.
Lemma step_objects_ok x y : honest_completion → step x y → objects_ok x → objects_ok y.
Proof.
  unfold objects_ok. intros Hhon. destruct 1 as [| | | | | | |key content s _ Htmp|key s _ Htmp|id oid key content s _ Hkey|id oid key content s _ Hoid Hkey Hsum|i key content s Hc _];
    try done; cbn; intros Hok o c Ho.
  - rewrite lookup_insert_ne by (intros ->; by apply (lfs_key_no_tmp o)). by apply Hok.
  - rewrite lookup_delete_ne by (intros ->; by apply (lfs_key_no_tmp o)). by apply Hok.
  - rewrite lookup_insert_ne by (intros ->; by apply (lfs_key_no_repos o) in Hkey). by apply Hok.
  - rewrite (lfs_path id oid Hoid) in Hkey. injection Hkey as <-. destruct (decide (oid = o)) as [->|Hne].
    + rewrite lookup_insert_eq. by intros [= <-].
    + rewrite lookup_insert_ne by (intros ?; by apply Hne, lfs_key_inj). by apply Hok.
  - destruct (decide (key = lfs_key o)) as [->|Hne]; [rewrite lookup_insert_eq; intros [= <-]; by apply Hhon|rewrite lookup_insert_ne by done; by apply Hok].
Qed.
End steps.

Section rules.
Variables (LOWER : bytes → bytes) (unicode_lower : Z → Z) (put_takes : bytes → Z → result bytes goerr)
  (presign_get : bytes → gmap bytes bytes → bytes) (xnet_presign_get : bytes → bytes) (presign_put : bytes → gmap bytes bytes → bytes)
  (upload_id : nat → bytes) (assembled : bytes → list (Z * bytes) → result bytes goerr) (s3_status : goerr → option Z)
  (today : bytes) (now : Z) (config : git_config).

Definition serve (c : git_caller) (o : git_op) : gio unit :=
  let '(ty, ns, name, user) := (c_RepoType c, c_Namespace c, c_Name c, c_User c) in
  match o with
  | GInfoRefs rpc => InfoRefs LOWER unicode_lower config ty ns name rpc user
  | GUploadPack => GitUploadPack LOWER unicode_lower today config ty ns name user
  | GReceivePack n => GitReceivePack LOWER unicode_lower config ty ns name user n
  | GBatch op ts objs auth up => LFSBatch LOWER presign_get xnet_presign_get presign_put upload_id now config (batch_of c op ts objs auth up);; mret tt
  | GUpload oid size body => LfsUpload LOWER put_takes ty ns name user oid size body
  | GVerify p => LfsVerify LOWER ty ns name user p
  | GDownload oid saveAs => LfsDownload LOWER presign_get ty ns name user oid saveAs;; mret tt
  | GCreateLock path => '(_, e) ← CreateLock LOWER ty ns name user path; match e with None => mret tt | Some e => io_fail e end
  | GListLocks path cursor limit id => ListLocks LOWER ty ns name user path cursor limit id;; mret tt
  | GVerifyLock cursor limit => VerifyLock LOWER ty ns name user cursor limit;; mret tt
  | GUnLock id force => UnLock LOWER ty ns name user id force;; mret tt
  | GCompleteMultipartUpload key up e sig parts =>
      '(_, err) ← CompleteMultipartUpload upload_id assembled s3_status now config key up e sig parts;
      match err with None => mret tt | Some err => io_fail err end
  end.
Definition serve_all (reqs : list (git_caller * git_op)) (w : git_world) : git_world := foldl (λ w r, snd (serve r.1 r.2 w)) w reqs.

(** A signature of the server, not expired. *)
Definition signed (key up e sig : bytes) : Prop :=
  sig = hex_string (HMAC_SHA256 (SignatureSecertKey config) (key ++ bs ":" ++ up ++ bs ":" ++ e)) ∧ ∃ t, Parse_RFC3339 e = Some t ∧ now ≤ t.
Lemma signed_valid key up e sig : isValidCompleteUploadSignature now config key up e sig = true ↔ signed key up e sig.
Proof.
  unfold isValidCompleteUploadSignature, signed, complete_signature. destruct (Parse_RFC3339 e) as [t|]; [rewrite bool_decide_eq_true|]; naive_solver.
Qed.
(** The key and content of an upload a request completes. *)
Definition completion (o : git_op) : option (bytes * bytes) :=
  match o with
  | GCompleteMultipartUpload key up e sig parts =>
      if isValidCompleteUploadSignature now config key up e sig then match assembled up parts with Ok content => Some (key, content) | Err _ => None end else None
  | _ => None
  end.
(** An object of a size, stored where the repository has it. *)
Definition stored_at (a : access) (s : git_state) (c : git_caller) (p : Pointer) : Prop :=
  ∃ r key content, repo_at LOWER a (c_RepoType c) (c_Namespace c) (c_Name c) = Some r ∧ BuildLfsPath (rp_ID r) (p_Oid p) (rp_Migrated r) = Some key ∧
    gs_bucket s !! key = Some content ∧ len content = p_Size p.

(** What a request must have to be served. *)
Definition may_write (a : access) (c : git_caller) : Prop := may a (c_User c) (c_Namespace c) RoleWrite.
Definition may_see (a : access) (c : git_caller) : Prop := seen LOWER a (c_RepoType c) (c_Namespace c) (c_Name c) (c_User c).
Definition entitled (a : access) (s : git_state) (c : git_caller) (o : git_op) : Prop :=
  match o with
  | GInfoRefs rpc => if decide (rpc = bs "git-receive-pack") then may_write a c else may_see a c
  | GBatch op _ _ _ _ => if decide (op = LFSBatchUpload) then may_write a c else may_see a c
  | GReceivePack _ | GUpload _ _ _ | GCreateLock _ | GUnLock _ _ => may_write a c
  | GUploadPack | GDownload _ _ | GListLocks _ _ _ _ | GVerifyLock _ _ => may_see a c
  | GVerify p => stored_at a s c p
  | GCompleteMultipartUpload key up e sig _ => signed key up e sig
  end.
(** A user's right, where a request needs one. *)
Definition user_entitled (a : access) (c : git_caller) (o : git_op) : Prop := match o with GVerify _ => True | _ => ∀ s, entitled a s c o end.
Abbreviation steps a c o := (git_step LOWER a (c_RepoType c) (c_Namespace c) (c_Name c) (c_User c) (unlocks o) (by_force o) (completion o)).
Abbreviation ends a c o := (leads LOWER a (c_RepoType c) (c_Namespace c) (c_Name c) (c_User c) (unlocks o) (by_force o) (completion o)).

(** Every request is a sequence of the changes, and ends well for the
    entitled. *)
Lemma serve_steps a c o : moves (E := goerr) (at_ False a) (ends a c o) (λ _, user_entitled a c o) (serve c o).
Proof.
  pose proof (leads_preorder LOWER a (c_RepoType c) (c_Namespace c) (c_Name c) (c_User c) (unlocks o) (by_force o) (completion o)) as HR.
  assert (∀ A (P Q : Prop) (m : gio A), (P → Q) → moves (E := goerr) (at_ False a) (ends a c o) (λ _, P) m → moves (E := goerr) (at_ False a) (ends a c o) (λ _, Q) (m;; mret tt)) as Hvoid.
  { intros A P Q m HPQ Hm. eapply moves_bind; [exact HR|exact Hm|]. intros x HP. apply moves_ret; auto. }
  assert (∀ (P Q : Prop) (m : gio unit), (P → Q) → moves (E := goerr) (at_ False a) (ends a c o) (λ _, P) m → moves (E := goerr) (at_ False a) (ends a c o) (λ _, Q) m) as Hsame.
  { intros P Q m HPQ Hm. by eapply moves_weaken. }
  destruct o as [rpc| |n|op ts objs auth up|oid size body|p|oid saveAs|path|path cursor limit id|cursor limit|id force|key up e sig parts]; cbn [serve user_entitled entitled].
  - eapply Hsame; [|apply does_InfoRefs]. by intros.
  - eapply Hsame; [|apply does_UploadPack]. by intros.
  - eapply Hsame; [|apply does_ReceivePack]. by intros.
  - eapply Hvoid; [|eapply moves_weaken; [by apply (does_LFSBatch LOWER presign_get xnet_presign_get presign_put upload_id now config a (c_RepoType c) (c_Namespace c) (c_Name c) (c_User c))|done|done]]. by intros.
  - eapply Hsame; [|apply does_LfsUpload]. by intros.
  - apply does_LfsVerify.
  - eapply Hvoid; [|apply does_LfsDownload]. by intros.
  - eapply moves_bind; [exact HR|apply does_CreateLock|]. intros [l [e|]] Hl; [by apply moves_fail|]. apply moves_ret; [exact HR|]. intros _. by apply Hl.
  - eapply Hvoid; [|apply does_ListLocks]. by intros.
  - eapply Hvoid; [|apply does_VerifyLock]. by intros.
  - eapply Hvoid; [|by apply does_UnLock]. by intros.
  - eapply moves_bind; [exact HR|apply does_Complete|].
    + intros Hs content Ha. cbn [completion]. by rewrite Hs, Ha.
    + intros [code [err|]] Hl; [by apply moves_fail|]. apply moves_ret; [exact HR|]. intros _. by apply signed_valid, Hl.
Qed.
Lemma serve_leads c o w : rtc (steps (gw_access w) c o) (gw_git w) (gw_git (snd (serve c o w))) ∧ gw_access (snd (serve c o w)) = gw_access w.
Proof. destruct (serve_steps (gw_access w) c o w) as ((? & _) & ? & _); [by split|done]. Qed.

(** The verification of an object looks at the store. *)
Lemma verify_stored c p w : fst (LfsVerify LOWER (c_RepoType c) (c_Namespace c) (c_Name c) (c_User c) p w) = Ret tt → stored_at (gw_access w) (gw_git w) c p.
Proof.
  unfold LfsVerify. intros (r & w1 & Hr%io_wrap_Ret & H)%fst_bind_Ret.
  destruct (at_repo (W := git_world) LOWER False (gw_access w) (c_RepoType c) (c_Namespace c) (c_Name c) w) as (_ & _ & HP); [by split|].
  rewrite Hr in HP. specialize (HP r eq_refl). pose proof (untouched_repo LOWER (c_RepoType c) (c_Namespace c) (c_Name c) w) as Hq. rewrite Hr in Hq. unfold same_git in Hq. cbn in Hq.
  destruct (BuildLfsPath _ _ _) as [key|] eqn:Hkey; [|done]. apply fst_bind_Ret in H as (k & w2 & [= <- <-] & H).
  apply fst_bind_Ret in H as (size & w3 & Hs%io_wrap_Ret & H). case_decide as Hsize; [done|]. exists r, key.
  unfold StatObject, git_read, mbind, io_bind in Hs. pose proof (untouched_fault w1) as Hq1. unfold same_git in Hq1.
  destruct (next_fault w1) as [[u|e|] w4]; cbn [snd io_gets] in *; [|done..]. rewrite Hq1, Hq in Hs.
  destruct (gs_bucket (gw_git w) !! key) as [content|]; cbn in Hs; [|done]. injection Hs as <- _. exists content. split_and!; [done..|].
  destruct (decide (len content = p_Size p)); [done|]. by destruct Hsize.
Qed.

Lemma served_entitled c o w : fst (serve c o w) = Ret tt → entitled (gw_access w) (gw_git w) c o.
Proof.
  intros Hr. destruct (serve_steps (gw_access w) c o w) as (_ & _ & HP); [by split|]. specialize (HP tt Hr).
  destruct o; try apply HP. by apply verify_stored.
Qed.

(** C25: A request ends well only for who is entitled to it, whatever calls
    fail: reading, by git, from the batch interface or of locks, needs a public
    repository or a role in its namespace, and writing a role that may write in
    the namespace of the request. Two requests ask nothing of the user: the
    verification of an object ends well only for one that is stored, in the size
    that is said, where the repository keeps its objects (and registers it there
    for anyone, [verify_hands_out_unproven]); and the completion of an upload
    only with the server's signature for its key, upload and expiry, and before
    that. *)
Theorem served_only_if_entitled c o w : fst (serve c o w) = Ret tt → entitled (gw_access w) (gw_git w) c o.
Proof. exact (served_entitled c o w). Qed.

(** What only writers change: locks, objects, started uploads and pushes. *)
Definition written (s : git_state) : list LfsLock * Z * gmap bytes bytes * list bytes * list git_call :=
  (gs_locks s, gs_nextLock s, gs_bucket s, gs_multiparts s, filter (λ c, is_fetch c = false) (gs_calls s)).

Lemma serve_written c o w : written (gw_git (snd (serve c o w))) = written (gw_git w) ∨ may_write (gw_access w) c ∨ is_Some (completion o).
Proof.
  destruct (serve_leads c o w) as (Hsteps & _). induction Hsteps as [|x y z Hstep _ [IH|]]; [by left| |by right]. rewrite IH.
  destruct Hstep; try (by left); try (by right; left); [|right; right; by eexists].
  left. unfold written. cbn. rewrite filter_app, filter_cons_False by congruence. by rewrite filter_nil, app_nil_r.
Qed.

(** A request of a user who may not write in the namespace of the request
    leaves the locks, the objects of the store, the uploads under way and the
    pushes to the git server as they are, whatever it is, unless it completes
    an upload at an address the server signed, and whatever calls fail. *)
Theorem git_writes_need_write c o w : ¬ may_write (gw_access w) c → completion o = None → written (gw_git (snd (serve c o w))) = written (gw_git w).
Proof. intros Hno Hc. destruct (serve_written c o w) as [?|[?|[x Hx]]]; [done|done|]. by rewrite Hc in Hx. Qed.

Lemma serve_all_keeps (P : git_state → Prop) reqs w : (∀ c o x y, (c, o) ∈ reqs → steps (gw_access w) c o x y → P x → P y) →
  P (gw_git w) → P (gw_git (serve_all reqs w)).
Proof.
  revert w. induction reqs as [|[c o] reqs IH]; intros w Hstep Hw; [done|]. destruct (serve_leads c o w) as (Hsteps & Ha).
  unfold serve_all. cbn [foldl fst snd]. apply IH; [rewrite Ha; intros c' o' x y Hin; apply Hstep; by right|].
  assert (∀ x y, steps (gw_access w) c o x y → P x → P y) as Hone by (intros x y; apply Hstep; left).
  clear Hstep IH. revert Hw. induction Hsteps as [|x y z Hxy _ IH]; [done|]. intros Hx. apply IH. by eapply Hone.
Qed.

(** The table of locks is well formed after any requests, whatever calls
    fail: ids are unique and were given out, and no two locks of a repository
    are on one path. *)
Theorem locks_stay_well_formed reqs w : locks_ok (gw_git w) → locks_ok (gw_git (serve_all reqs w)).
Proof. apply serve_all_keeps. intros c o x y _. apply step_locks_ok. Qed.

(** Over any requests a lock stays while no request releases it by force
    and none releases it in its owner's name. *)
Theorem lock_stays reqs w l : locks_ok (gw_git w) → l ∈ gs_locks (gw_git w) →
  (∀ c o, (c, o) ∈ reqs → unlocks o = Some (lk_ID l) →
     by_force o = false ∧ ∀ u, user_at (gw_access w) (c_User c) = Some u → u_ID u ≠ lk_UserID l) →
  l ∈ gs_locks (gw_git (serve_all reqs w)).
Proof.
  intros Hok Hl Hno. apply (serve_all_keeps (λ s, locks_ok s ∧ l ∈ gs_locks s)); [|done]. intros c o x y Hin Hstep (Hx & Hlx).
  split; [by eapply step_locks_ok|]. eapply step_keeps_lock; [done..|]. by apply (Hno c o).
Qed.

(** C26: Whatever is uploaded to the server, a shared object has the digest its
    name says, whatever bodies and sizes are sent, however they are cut off and
    whatever calls fail, as long as what is assembled of the parts of every
    upload that is completed at an address the server signed has the digest its
    name says: of that nothing is checked ([completed_parts_are_unchecked]). *)
Theorem uploads_match_their_oid reqs w :
  (∀ c oid up e sig parts content, (c, GCompleteMultipartUpload (lfs_key oid) up e sig parts) ∈ reqs → oid_valid oid → signed (lfs_key oid) up e sig →
     assembled up parts = Ok content → SHA256 content = oid) →
  objects_ok (gw_git w) → objects_ok (gw_git (serve_all reqs w)).
Proof.
  intros Hhon. apply serve_all_keeps. intros c o x y Hin. apply step_objects_ok. intros oid content Hc Hoid.
  destruct o as [rpc| |n|op ts objs auth up|oid' size body|p|oid' saveAs|path|path cursor limit id|cursor limit|id force|key up e sig parts]; try done.
  cbn in Hc. destruct (isValidCompleteUploadSignature _ _ _ _ _ _) eqn:Hs; [|done]. destruct (assembled up parts) eqn:Ha; [|done]. injection Hc as -> ->.
  eapply Hhon; [exact Hin|done|by apply signed_valid|done].
Qed.
End rules.
