(* ===== verification/GitGapSpec.v ===== *)
(** Undisturbed runs of git over HTTP: what the server hands out, and where it
    falls short of what it means to guard. *)
From S2P Require Import Prelude GoLib GoJson GoHash GoTime Sensitive Mirror MirrorLfs GwGuardSpec Errorx AcAccess AcSpec AcMemberSpec AcRulesSpec GitHttp GitHttpSpec GoJsonText GitRulesSpec.
Open Scope Z_scope.

Section gaps.
Variable LOWER : bytes → bytes.
Variables (presign_get : bytes → gmap bytes bytes → bytes) (xnet_presign_get : bytes → bytes) (presign_put : bytes → gmap bytes bytes → bytes).

(** ** Runs step by step *)

Lemma gives_git_read {A} (f : git_state → A) w : undisturbed w → gives (git_read f) w (f (gw_git w)).
Proof. intros Hw. eapply gives_bind; [by apply gives_fault|done]. Qed.
Lemma gives_git_row {A} (f : git_state → option A) w x : undisturbed w → f (gw_git w) = Some x → gives (git_row f) w x.
Proof. intros Hw Hx. eapply gives_bind; [by apply gives_git_read|]. by rewrite Hx. Qed.
Lemma gives_repo w ty ns n r : undisturbed w → repo_at LOWER (gw_access w) ty ns n = Some r → gives (repo_FindByPath LOWER ty ns n) w r.
Proof. intros Hw Hr. by apply gives_wrap, gives_row. Qed.
Lemma gives_must e (m : gio bool) w : gives m w true → gives (must e m) w tt.
Proof. intros Hm. by eapply gives_bind. Qed.
Lemma gives_AllowWrite w ty ns n u r : undisturbed w → repo_at LOWER (gw_access w) ty ns n = Some r → u ≠ [] → may (gw_access w) u ns RoleWrite →
  gives (AllowWriteAccess LOWER ty ns n u) w true.
Proof.
  clear presign_get xnet_presign_get presign_put. intros Hw Hr Hu Hmay. unfold AllowWriteAccess, allow_access. eapply gives_bind; [by apply gives_wrap, gives_repo|]. rewrite decide_False by done.
  apply gives_permission; [done|set_solver|done].
Qed.
Lemma gives_public_read w ty ns n u r : undisturbed w → repo_at LOWER (gw_access w) ty ns n = Some r → rp_Private r = false →
  gives (AllowReadAccess LOWER ty ns n u) w true.
Proof. intros Hw Hr Hp. eapply gives_bind; [by apply gives_wrap, gives_repo|]. unfold AllowReadAccessRepo. by rewrite Hp. Qed.
Lemma gives_lock w P `{!∀ l, Decision (P l)} l : undisturbed w → found_by P (gs_locks (gw_git w)) = Some l → gives (lock_row P) w (with_user (gw_access w) l).
Proof. intros Hw Hl. eapply gives_bind; [by apply gives_git_row|done]. Qed.
Lemma run_git_write f w : undisturbed w → git_write f w = (Ret tt, on_git f w).
Proof. intros Hw. unfold git_write. by rewrite (run_gives _ _ w tt) by (by apply gives_fault). Qed.

(** ** Objects *)

Lemma found_by_in {A} (P : A → Prop) `{!∀ x, Decision (P x)} l x : x ∈ l → P x → ∃ y, found_by P l = Some y.
Proof. intros Hx HP. destruct (found_by P l) as [y|] eqn:Hf; [by exists y|]. by destruct (found_by_None _ _ Hf x Hx). Qed.
Lemma run_UpdateOrCreate w o : undisturbed w → ∃ ms n, meta_UpdateOrCreate o w = (Ret tt, on_git (with_metas ms n) w) ∧
  ∃ x, found_by (λ x, lmo_Oid x = lmo_Oid o ∧ lmo_RepositoryID x = lmo_RepositoryID o) ms = Some x.
Proof.
  intros Hw. pose proof (gives_fault w Hw) as Hf. unfold gives in Hf. unfold meta_UpdateOrCreate, io_try, io_wrap, mbind, io_bind. rewrite Hf. cbn [io_gets].
  destruct (filter (same_object o) (gs_metas (gw_git w))) as [|x l] eqn:Hl; cbn [io_fail io_modify].
  - rewrite Hf, Hl. do 2 eexists. split; [reflexivity|]. eapply found_by_in; [apply elem_of_app; right; by left|done].
  - do 2 eexists. split; [reflexivity|]. assert (x ∈ filter (same_object o) (gs_metas (gw_git w))) as (Hs & Hx)%list_elem_of_filter by (rewrite Hl; left).
    eapply found_by_in; [apply list_elem_of_fmap; exists x; split; [reflexivity|done]|]. rewrite decide_True by done. destruct Hs. by split.
Qed.

(** The verification of an object asks for no right and for no proof that
    the object is had: for any public repository that keeps its objects in the
    shared part of the bucket, anyone, logged in or not, who knows the digest
    and the size of an object of any repository registers it there with one
    request and is handed its address by the next. *)
Theorem verify_hands_out_unproven w ty ns name user oid content r : undisturbed w → oid_valid oid →
  repo_at LOWER (gw_access w) ty ns name = Some r → rp_Private r = false → rp_Migrated r = false →
  gs_bucket (gw_git w) !! lfs_key oid = Some content →
  let '(verified, w') := LfsVerify LOWER ty ns name user (mk_ptr oid (len content) []) w in
  verified = Ret tt ∧ fst (LfsDownload LOWER presign_get ty ns name user oid [] w') = Ret (presign_get (lfs_key oid) ∅).
Proof.
  intros Hw Hoid Hr Hpub Hmig Hc. destruct (run_UpdateOrCreate w (mk_lmo 0 oid (len content) (rp_ID r) true false) Hw) as (ms & n & Hrun & x & Hx).
  assert (LfsVerify LOWER ty ns name user (mk_ptr oid (len content) []) w = (Ret tt, on_git (with_metas ms n) w)) as ->.
  { unfold LfsVerify. rewrite (run_gives _ _ w r) by (by apply gives_wrap, gives_repo). cbn [p_Oid p_Size]. rewrite Hmig, (lfs_path _ _ Hoid).
    rewrite (run_gives _ _ w (lfs_key oid)) by done. rewrite (run_gives _ _ w (len content)).
    - rewrite decide_False by auto. unfold io_wrap. by rewrite Hrun.
    - apply gives_wrap. unfold StatObject. eapply gives_bind; [by apply gives_git_read|]. by rewrite Hc. }
  split; [done|]. set (w' := on_git _ w). assert (undisturbed w') as Hw' by done. unfold LfsDownload.
  rewrite (run_gives _ _ w' r) by (by apply gives_wrap, gives_repo). rewrite (run_gives _ _ w' tt).
  2: { apply gives_must, gives_wrap. by eapply gives_public_read. }
  rewrite (run_gives _ _ w' x) by (apply gives_wrap, gives_git_row; [done|exact Hx]). rewrite Hmig, (lfs_path _ _ Hoid).
  rewrite (run_gives _ _ w' (lfs_key oid)) by done. unfold PresignedGetObject. rewrite (run_gives _ _ w' tt) by (by apply gives_fault). done.
Qed.

(** ** Locks *)

(** A lock is released by its id alone: whoever may write to some
    repository releases, with force, the locks of every other one. *)
Theorem force_unlock_crosses_repos w ty ns name user r y id l : undisturbed w → user ≠ [] →
  repo_at LOWER (gw_access w) ty ns name = Some r → user_at (gw_access w) user = Some y → may (gw_access w) user ns RoleWrite →
  found_by (λ l, lk_ID l = id) (gs_locks (gw_git w)) = Some l → lk_RepositoryID l ≠ rp_ID r →
  let '(res, w') := UnLock LOWER ty ns name user id true w in
  res = Ret (with_user (gw_access w) l) ∧ gs_locks (gw_git w') = filter (λ l, lk_ID l ≠ id) (gs_locks (gw_git w)).
Proof.
  intros Hw Hu Hr Hy Hmay Hl _. unfold UnLock. rewrite (run_gives _ _ w r) by (by apply gives_wrap, gives_repo).
  rewrite (run_gives _ _ w y) by (by apply gives_wrap, gives_user). rewrite (run_gives _ _ w tt) by (by eapply gives_must, gives_AllowWrite).
  rewrite (run_gives _ _ w (with_user (gw_access w) l)) by (by apply gives_wrap, gives_lock). rewrite (run_gives _ _ w tt) by (by rewrite decide_False by (intros (Hf & _); discriminate Hf)).
  unfold lock_RemoveByID. by erewrite run_seq by (by apply run_git_write).
Qed.

(** When a repository has as many locks as a page asks for, the first page
    and the page its cursor leads to are the same locks; when it has more, the
    first page is all of them, whatever the limit. *)
Theorem first_page_repeats w ty ns name user r y limit : undisturbed w → repo_at LOWER (gw_access w) ty ns name = Some r →
  rp_Private r = false → user_at (gw_access w) user = Some y → 0 < limit →
  let mine := filter (λ l, lk_RepositoryID l = rp_ID r) (gs_locks (gw_git w)) in
  let all := (λ l, to_LFSLock (with_user (gw_access w) l)) <$> mine in
  fst (ListLocks LOWER ty ns name user [] 0 limit 0 w) = Ret (mk_locks all (if decide (len mine = limit) then Itoa 1 else [])) ∧
  (len mine = limit → fst (ListLocks LOWER ty ns name user [] 1 limit 0 w) = Ret (mk_locks all (Itoa 2))).
Proof.
  intros Hw Hr Hpub Hy Hlimit mine all. assert (∀ cursor,
    fst (ListLocks LOWER ty ns name user [] cursor limit 0 w) = Ret (mk_locks ((λ l, to_LFSLock (with_user (gw_access w) l)) <$> page_of cursor limit mine)
      (next_cursor cursor limit (with_user (gw_access w) <$> page_of cursor limit mine)))) as Hlist.
  { intros cursor. unfold ListLocks. rewrite (run_gives _ _ w r) by (by apply gives_wrap, gives_repo).
    rewrite (run_gives _ _ w y) by (by apply gives_wrap, gives_user). rewrite (run_gives _ _ w tt) by (by eapply gives_must, gives_public_read).
    rewrite !decide_False by (by intros []). erewrite run_gives.
    2: { eapply gives_bind; [by apply gives_git_read|]. reflexivity. }
    cbn. by rewrite <- list_fmap_compose. }
  rewrite !Hlist. unfold page_of, next_cursor. rewrite (decide_False (P := 0 < 0 ∧ _)) by lia. split.
  - f_equal. f_equal. unfold len. rewrite length_fmap. rewrite (decide_ext (0 < limit ∧ Z.of_nat (length mine) = limit) (Z.of_nat (length mine) = limit)) by (split; [by intros []|by split]). done.
  - intros Hlen. rewrite decide_True by lia. change (drop (Z.to_nat ((1 - 1) * limit)) mine) with mine.
    rewrite take_ge by (rewrite <- Hlen; unfold len; by rewrite Nat2Z.id). rewrite decide_True; [done|]. split; [done|]. unfold len. by rewrite length_fmap.
Qed.

(** ** Clones and refusals *)

Variables (unicode_lower : Z → Z) (today : bytes) (config : git_config).

Lemma found_on_first {A} (P : A → Prop) `{!∀ x, Decision (P x)} f l x : found_by P l = Some x → P (f x) → found_by P (on_first P f l) = Some (f x).
Proof.
  intros Hx HP. unfold on_first. unfold found_by in *. destruct (list_find P l) as [[i y]|] eqn:Hf; [|done]. injection Hx as ->.
  apply list_find_Some in Hf as (Hi & _ & Hno). assert (list_find P (<[i := f x]> l) = Some (i, f x)) as ->; [|done]. apply list_find_Some. split_and!.
  - apply list_lookup_insert_eq. by eapply lookup_lt_Some.
  - done.
  - intros j z Hz Hj. rewrite list_lookup_insert_ne in Hz by lia. by eapply Hno.
Qed.
Lemma gives_path w ty ns n r : undisturbed w → repo_at LOWER (gw_access w) ty ns n = Some r → ∃ p, gives (client_BuildRelativePath LOWER unicode_lower config ty ns n) w p.
Proof.
  intros Hw Hr. unfold client_BuildRelativePath. case_decide; [by eexists|]. destruct (rp_Hashed r) eqn:Hh.
  - eexists. eapply gives_bind; [eapply gives_bind; [by apply gives_wrap, gives_repo|rewrite Hh; reflexivity]|reflexivity].
  - eexists. eapply gives_bind; [eapply gives_bind; [by apply gives_wrap, gives_repo|rewrite Hh; reflexivity]|reflexivity].
Qed.
Lemma run_UpdateDownloads w id d : undisturbed w → d ∈ gs_downloads (gw_git w) → rd_RepositoryID d = id →
  ∃ c, UpdateDownloads id w = (Ret tt, on_git (λ s, with_downloads (gs_downloads s) c s) w).
Proof.
  intros Hw Hd Hid. unfold UpdateDownloads. erewrite run_gives by (by apply gives_wrap, gives_git_read). cbv beta.
  destruct (filter (λ d, rd_RepositoryID d = id) (gs_downloads (gw_git w))) as [|x l] eqn:Hl.
  { assert (d ∈ filter (λ d, rd_RepositoryID d = id) (gs_downloads (gw_git w))) as Hin by (by apply list_elem_of_filter). rewrite Hl in Hin. by apply not_elem_of_nil in Hin. }
  eexists. unfold io_wrap. rewrite run_git_write by done. reflexivity.
Qed.
Lemma fails_git_row {A} (f : git_state → option A) g w : undisturbed w → f (gw_git w) = None → gives (io_try (io_wrap g (git_row f))) w (Err (g ErrNoRows)).
Proof. intros Hw Hf. unfold gives, io_try, io_wrap, git_row. rewrite (run_gives _ _ w (f (gw_git w))) by (by apply gives_git_read). by rewrite Hf. Qed.
(** The row of the day after a clone, however it got there. *)
Lemma run_count w id F d n : undisturbed w → found_by (row_of_day today id) (F (gs_downloads (gw_git w))) = Some d → rd_CloneCount d = n →
  ∃ s, (git_write (λ s, with_downloads (F (gs_downloads s)) (gs_downloadCount s) s);; io_wrap HandleDBError (UpdateDownloads id)) w = (Ret tt, on_git (λ _, s) w) ∧
  ∃ d, found_by (row_of_day today id) (gs_downloads s) = Some d ∧ rd_CloneCount d = n.
Proof.
  intros Hw Hd Hn. erewrite run_seq by (by apply run_git_write). set (w1 := on_git _ w). destruct (found_by_Some _ _ _ Hd) as (Hin & _ & Hid).
  destruct (run_UpdateDownloads w1 id d) as (c & Hrun); [done..|]. unfold io_wrap. rewrite Hrun. eexists. split; [reflexivity|]. by exists d.
Qed.
Lemma run_clone w id n : undisturbed w → ∃ s, UpdateRepoCloneDownloads id today n w = (Ret tt, on_git (λ _, s) w) ∧
  ∃ d, found_by (row_of_day today id) (gs_downloads s) = Some d ∧ rd_CloneCount d = n.
Proof.
  intros Hw. unfold UpdateRepoCloneDownloads. destruct (found_by (row_of_day today id) (gs_downloads (gw_git w))) as [d|] eqn:Hd.
  - rewrite (run_gives _ _ w (Ok d)) by (by apply gives_try, gives_wrap, gives_git_row).
    eapply (run_count w id (on_first _ _)); [done|apply found_on_first; [exact Hd|]|done]. by apply found_by_Some in Hd as (_ & ?).
  - rewrite (run_gives _ _ w (Err (HandleDBError ErrNoRows))) by (by apply fails_git_row). set (x := mk_dl today id n 0).
    assert (found_by (row_of_day today id) (gs_downloads (gw_git w) ++ [x]) = Some x) as Hx.
    { destruct (found_by_in (row_of_day today id) (gs_downloads (gw_git w) ++ [x]) x) as (y & Hy); [apply elem_of_app; right; by left|done|].
      rewrite Hy. f_equal. apply found_by_Some in Hy as ([Hin|Hin%list_elem_of_singleton]%elem_of_app & Hrow); [|done].
      by destruct (found_by_None _ _ Hd y Hin). }
    by eapply (run_count w id (λ l, l ++ [x])).
Qed.

(** Fetching a repository sets the day's count of its clones to one,
    whatever it was: clones of a day are never counted beyond the first. *)
Theorem clones_counted_once w ty ns name user r : undisturbed w → repo_at LOWER (gw_access w) ty ns name = Some r → rp_Private r = false →
  let '(res, w') := GitUploadPack LOWER unicode_lower today config ty ns name user w in
  res = Ret tt ∧ ∃ d, found_by (row_of_day today (rp_ID r)) (gs_downloads (gw_git w')) = Some d ∧ rd_CloneCount d = 1.
Proof.
  intros Hw Hr Hpub. unfold GitUploadPack. rewrite (run_gives _ _ w r) by (by apply gives_wrap, gives_repo). rewrite Hpub.
  rewrite (run_gives _ _ w tt) by done. destruct (run_clone w (rp_ID r) 1 Hw) as (s & Hrun & Hd).
  erewrite run_seq by (unfold io_try; by rewrite Hrun). set (w' := on_git _ w). assert (undisturbed w') as Hw' by done.
  destruct (gives_path w' ty ns name r Hw' Hr) as (p & Hp). unfold UploadPack. rewrite (run_gives _ _ w' p) by done.
  unfold io_wrap, git_server. erewrite run_seq by done. rewrite (gives_fault (on_git (add_call (CallUploadPack p)) w')) by done. split; [done|exact Hd].
Qed.

(** A repository that a user may not know of answers batch requests with
    500 where the code means 404: an upload to a private repository in another
    user's namespace ends in the error that nothing maps to a status. *)
Theorem hidden_repo_answers_500 w req r x y upload_id now : undisturbed w → b_Operation req = LFSBatchUpload →
  repo_at LOWER (gw_access w) (b_RepoType req) (b_Namespace req) (b_Name req) = Some r → rp_Private r = true →
  (∃ m, NamespaceAndName r = Some (b_Namespace req, m)) →
  user_at (gw_access w) (b_CurrentUser req) = Some y → user_CanAdmin y = false → b_CurrentUser req ≠ [] → b_CurrentUser req ≠ b_Namespace req →
  found_by (λ x, ns_Path x = b_Namespace req) (ac_namespaces (gw_access w)) = Some x → ns_NamespaceType x = UserNamespace →
  LfsBatch_handler LOWER presign_get xnet_presign_get presign_put upload_id now config req w = (Ret (500, None), w).
Proof.
  intros Hw Hop Hr Hpriv (m & Hn) Hy Hadmin Hu Hne Hx Hty.
  assert (∀ role, gives (CheckCurrentUserPermission (b_CurrentUser req) (b_Namespace req) role) w false) as Hno.
  { intros role. unfold CheckCurrentUserPermission. eapply gives_bind; [by apply gives_wrap, gives_row|]. eapply gives_bind; [by apply gives_wrap, gives_user|].
    rewrite Hadmin, decide_True by done. unfold gives. by rewrite bool_decide_eq_false_2. }
  assert (LFSBatch LOWER presign_get xnet_presign_get presign_put upload_id now config req w = (Fail ErrNotFound, w)) as Hrun.
  { unfold LFSBatch. rewrite (run_gives _ _ w r) by (by apply gives_wrap, gives_repo). unfold mbind, io_bind. unfold lfsCheckAccess.
    rewrite decide_True, decide_False by done. unfold AllowWriteAccess, allow_access. rewrite (run_gives _ _ w false).
    2: { eapply gives_bind; [by apply gives_wrap, gives_repo|]. rewrite decide_False by done. apply Hno. }
    rewrite (run_gives _ _ w false); [done|]. eapply gives_bind; [by apply gives_wrap, gives_repo|]. unfold AllowReadAccessRepo, namespace_of.
    rewrite Hpriv, decide_False, Hn by done. eapply gives_bind; [done|apply Hno]. }
  unfold LfsBatch_handler, mbind, io_bind, io_try. by rewrite Hrun.
Qed.
End gaps.

(** * Uploads in parts: how a file is cut, the addresses of the parts, and what
    their completion does. *)

(** How many parts of a size cover a file. *)
Definition part_count (size chunk : Z) : Z := (size + chunk - 1) `div` chunk.

Lemma calculatePartSize_cases size minSize : 0 ≤ size → calculatePartSize size minSize = Z.max ((size + 999) `div` 1000) minSize.
Proof.
  intros Hs. unfold calculatePartSize, maxPartNum. rewrite Z.quot_div_nonneg, Z.rem_mod_nonneg by lia.
  cbv zeta. repeat case_decide; Z.div_mod_to_equations; lia.
Qed.
Lemma part_bounds size minSize : 0 < size → let chunk := calculatePartSize size minSize in let n := part_count size chunk in
  0 < chunk ∧ minSize ≤ chunk ∧ 1 ≤ n ≤ 1000 ∧ (n - 1) * chunk < size ≤ n * chunk.
Proof.
  intros Hs chunk n. unfold chunk. rewrite calculatePartSize_cases by lia. set (c := Z.max _ _).
  assert (0 < c) by (unfold c; Z.div_mod_to_equations; lia). assert (size ≤ 1000 * c) by (unfold c; Z.div_mod_to_equations; lia). unfold n, part_count. replace chunk with c by (unfold chunk; by rewrite calculatePartSize_cases by lia).
  pose proof (Z.div_mod (size + c - 1) c ltac:(lia)). pose proof (Z.mod_pos_bound (size + c - 1) c ltac:(lia)).
  split_and!; [lia|unfold c; lia|nia|nia|nia|nia].
Qed.

Section parts.
Variable presign_put : bytes → gmap bytes bytes → bytes.

(** The address of a part. *)
Definition part_address (key uploadID : bytes) (header : gmap bytes bytes) (k : Z) : bytes :=
  presign_put key (<[bs "partNumber" := Itoa k]> (<[bs "uploadId" := uploadID]> header)).
Definition add_parts (key uploadID : bytes) (header : gmap bytes bytes) (k : Z) (n : nat) (resp : gmap bytes bytes) : gmap bytes bytes :=
  foldl (λ m k, <[Itoa k := part_address key uploadID header k]> m) resp (seqZ k (Z.of_nat n)).

Lemma parts_done fuel key up h chunk : 0 < chunk → ∀ total k resp w, undisturbed w → total ≤ Z.of_nat fuel * chunk - chunk →
  gives (parts_loop presign_put fuel key up h chunk total k resp) w (add_parts key up h k (Z.to_nat (part_count (Z.max 0 total) chunk)) resp).
Proof.
  intros Hc. induction fuel as [|fuel IH]; intros total k resp w Hw Hfuel.
  - assert (total ≤ 0) by lia. replace (Z.to_nat (part_count (Z.max 0 total) chunk)) with 0%nat; [done|]. unfold part_count. rewrite Z.max_l by lia.
    rewrite Z.div_small by lia. done.
  - cbn [parts_loop]. case_decide as Htotal.
    + eapply gives_bind; [eapply gives_bind; [by apply gives_fault|reflexivity]|]. cbv beta.
      assert (Z.to_nat (part_count (Z.max 0 total) chunk) = S (Z.to_nat (part_count (Z.max 0 (total - chunk)) chunk))) as ->.
      { unfold part_count. rewrite (Z.max_r 0 total) by lia. destruct (decide (chunk ≤ total)).
        - rewrite Z.max_r by lia. replace (total + chunk - 1) with (total - chunk + chunk - 1 + 1 * chunk) by lia. rewrite Z.div_add by lia.
          assert (0 ≤ (total - chunk + chunk - 1) `div` chunk) by (apply Z.div_pos; lia). lia.
        - rewrite Z.max_l by lia. rewrite (Z.div_small (0 + chunk - 1)) by lia. replace (total + chunk - 1) with (total - 1 + 1 * chunk) by lia.
          rewrite Z.div_add, Z.div_small by lia. done. }
      unfold add_parts. rewrite Nat2Z.inj_succ, seqZ_cons by lia. cbn [foldl]. rewrite Z.pred_succ. apply IH; [done|lia].
    + replace (Z.to_nat (part_count (Z.max 0 total) chunk)) with 0%nat; [done|]. unfold part_count. rewrite Z.max_l by lia. rewrite Z.div_small by lia. done.
Qed.
Lemma add_parts_lookup key up h k n resp x : add_parts key up h k n resp !! x =
  match find (λ j, bool_decide (Itoa j = x)) (seqZ k (Z.of_nat n)) with Some j => Some (part_address key up h j) | None => resp !! x end.
Proof.
  unfold add_parts. revert k resp. induction n as [|n IH]; intros k resp; [done|]. rewrite Nat2Z.inj_succ, seqZ_cons by lia. cbn [foldl find]. rewrite Z.pred_succ, IH.
  destruct (find _ (seqZ _ _)) as [j|] eqn:Hfind.
  - case_bool_decide as Hk; [|done]. exfalso. apply find_some in Hfind as (Hin%list_elem_of_In & Hj%bool_decide_eq_true). apply elem_of_seqZ in Hin.
    rewrite <- Hk in Hj. apply Itoa_inj in Hj. lia.
  - case_bool_decide as Hk; [by subst; rewrite lookup_insert_eq|by rewrite lookup_insert_ne].
Qed.
Lemma chunk_size_no_number k : 0 ≤ k → Itoa k ≠ bs "chunk_size".
Proof. intros Hk Heq. destruct (Itoa_digits k Hk) as (_ & Hd). rewrite Heq in Hd. done. Qed.
Lemma find_seqZ k n x : match find (λ j, bool_decide (Itoa j = x)) (seqZ k (Z.of_nat n)) with
  | Some j => Itoa j = x ∧ k ≤ j < k + Z.of_nat n | None => ∀ j, k ≤ j < k + Z.of_nat n → Itoa j ≠ x end.
Proof.
  destruct (find _ _) as [j|] eqn:Hf.
  - apply find_some in Hf as (Hin%list_elem_of_In & Hj%bool_decide_eq_true). by apply elem_of_seqZ in Hin.
  - intros j Hj Heq. assert (j ∈ seqZ k (Z.of_nat n)) as Hin by (by apply elem_of_seqZ). apply list_elem_of_In in Hin.
    pose proof (find_none _ _ Hf j Hin) as Hno. cbn in Hno. by rewrite bool_decide_eq_true_2 in Hno.
Qed.

Variables (LOWER : bytes → bytes) (upload_id : nat → bytes) (now : Z) (config : git_config).
Lemma gives_parts key up h size minSize w : undisturbed w → 0 < size → let chunk := calculatePartSize size minSize in
  gives (parts_loop presign_put (parts_fuel size chunk) key up h chunk size 1 {[bs "chunk_size" := Itoa chunk]}) w
    (add_parts key up h 1 (Z.to_nat (part_count size chunk)) {[bs "chunk_size" := Itoa chunk]}).
Proof.
  intros Hw Hs chunk. destruct (part_bounds size minSize Hs) as (Hc & _). fold chunk in Hc.
  pose proof (parts_done (parts_fuel size chunk) key up h chunk Hc size 1 {[bs "chunk_size" := Itoa chunk]} w Hw) as Hdone. rewrite Z.max_r in Hdone by lia.
  apply Hdone. unfold parts_fuel. pose proof (Z.div_pos size chunk). rewrite Nat2Z.inj_succ, Z2Nat.id by lia.
  pose proof (Z.mul_succ_div_gt size chunk). lia.
Qed.

(** C27: The parts an upload is cut into cover the file: there are at most 1000
    of at least the configured size, the last one is not empty, and the link
    has the signed address of each part, the size of a part and nothing
    else. *)
Theorem parts_cover_file req p header r key w : undisturbed w → 0 < p_Size p →
  repo_at LOWER (gw_access w) (b_RepoType req) (b_Namespace req) (b_Name req) = Some r →
  BuildLfsPath (rp_ID r) (p_Oid p) (rp_Migrated r) = Some key →
  let chunk := calculatePartSize (p_Size p) (MinMultipartSize config) in let n := part_count (p_Size p) chunk in
  MinMultipartSize config ≤ chunk ∧ 1 ≤ n ≤ 1000 ∧ (n - 1) * chunk < p_Size p ≤ n * chunk ∧
  ∃ link up, fst (buildMultipartUploadLink LOWER presign_put upload_id now config req p header w) = Ret link ∧
    ln_Header link !! bs "chunk_size" = Some (Itoa chunk) ∧
    (∀ k, 1 ≤ k ≤ n → ln_Header link !! Itoa k = Some (part_address key up header k)) ∧
    (∀ x, x ≠ bs "chunk_size" → (∀ k, 1 ≤ k ≤ n → x ≠ Itoa k) → ln_Header link !! x = None).
Proof.
  intros Hw Hs Hr Hkey chunk n. destruct (part_bounds (p_Size p) (MinMultipartSize config) Hs) as (Hc & Hmin & Hn & Hcover).
  split_and!; [exact Hmin|apply Hn|apply Hn|apply Hcover|apply Hcover|]. unfold buildMultipartUploadLink.
  rewrite (run_gives _ _ w r) by (by apply gives_wrap, gives_repo). cbv zeta. rewrite Hkey. rewrite (run_gives _ _ w key) by done.
  assert (∃ up w', (if decide (b_UploadID req = []) then io_wrap (wrap "failed to initialize multipart upload: ") (NewMultipartUpload upload_id key)
    else mret (b_UploadID req)) w = (Ret up, w') ∧ undisturbed w') as (up & w' & Hup & Hw').
  { case_decide; [|by do 2 eexists]. unfold io_wrap, NewMultipartUpload. rewrite (run_gives _ _ w tt) by (by apply gives_fault). by do 2 eexists. }
  rewrite (run_seq _ _ w up w' Hup). rewrite (run_gives _ _ w' _ (gives_parts key up header (p_Size p) (MinMultipartSize config) w' Hw' Hs)).
  eexists. exists up. split; [reflexivity|]. cbn [ln_Header]. split_and!.
  - rewrite add_parts_lookup. pose proof (find_seqZ 1 (Z.to_nat (part_count (p_Size p) chunk)) (bs "chunk_size")) as Hfind. fold chunk.
    destruct (find _ _) as [j|]; [|by rewrite lookup_singleton_eq]. destruct Hfind as (Hj & Hrange). exfalso. apply (chunk_size_no_number j); [lia|done].
  - intros k Hk. rewrite add_parts_lookup. pose proof (find_seqZ 1 (Z.to_nat (part_count (p_Size p) chunk)) (Itoa k)) as Hfind. fold chunk.
    destruct (find _ _) as [j|]; [destruct Hfind as (Hj%Itoa_inj & _); by subst|]. exfalso. apply (Hfind k); [|done]. unfold n in Hk. lia.
  - intros x Hx Hno. rewrite add_parts_lookup. pose proof (find_seqZ 1 (Z.to_nat (part_count (p_Size p) chunk)) x) as Hfind. fold chunk.
    destruct (find _ _) as [j|]; [|by rewrite lookup_singleton_ne]. destruct Hfind as (Hj & Hrange). exfalso. apply (Hno j); [|done]. unfold n in *. fold chunk in Hn. lia.
Qed.

(** ** Completing an upload *)

Variables (assembled : bytes → list (Z * bytes) → result bytes goerr) (s3_status : goerr → option Z).

(** The address a completed upload is reported to. *)
Definition complete_address (key up expiresAt signature : bytes) : bytes :=
  PublicDomain config ++ bs "/api/v1/complete_multipart?expiresAt=" ++ QueryEscape expiresAt ++ bs "&objectKey=" ++ QueryEscape key ++
  bs "&signature=" ++ QueryEscape signature ++ bs "&uploadId=" ++ QueryEscape up.
Definition expires : bytes := Format_RFC3339 (now + OssFileExpire).
Lemma signature_valid key up later : four_digit_year (now + OssFileExpire) →
  isValidCompleteUploadSignature later config key up expires (complete_signature config key up expires) =
    bool_decide (later ≤ (now + OssFileExpire) `div` Second * Second).
Proof.
  intros Hy. unfold isValidCompleteUploadSignature, expires. rewrite Parse_Format by done. apply bool_decide_ext. split; [by intros []|done].
Qed.
Lemma found_pending key up w : key ≠ [] → (∃ i, upload_id i = up ∧ gs_multiparts (gw_git w) !! i = Some key) →
  ∃ i, found_by (pending upload_id key up) (imap pair (gs_multiparts (gw_git w))) = Some (i, key).
Proof.
  intros Hkey (i & Hup & Hi). destruct (found_by_in (pending upload_id key up) (imap pair (gs_multiparts (gw_git w))) (i, key)) as ([j k] & Hj).
  - apply list_elem_of_lookup. exists i. by rewrite list_lookup_imap, Hi.
  - by split_and!.
  - exists j. rewrite Hj. by apply found_by_Some in Hj as (_ & Hk & _); cbn in Hk; subst.
Qed.
Lemma run_complete key up e sig ps content later w : undisturbed w → isValidCompleteUploadSignature later config key up e sig = true → key ≠ [] →
  (∃ i, upload_id i = up ∧ gs_multiparts (gw_git w) !! i = Some key) → assembled up ps = Ok content →
  ∃ i, CompleteMultipartUpload upload_id assembled s3_status later config key up e sig ps w =
    (Ret (200, None), on_git (λ s, end_multipart i (with_bucket <[key := content]> s)) w).
Proof.
  intros Hw Hsig Hkey Hup Ha. destruct (found_pending key up w Hkey Hup) as (i & Hi). exists i. unfold CompleteMultipartUpload. rewrite Hsig.
  assert (core_CompleteMultipartUpload upload_id assembled key up ps w = (Ret tt, on_git (λ s, end_multipart i (with_bucket <[key := content]> s)) w)) as Hrun.
  2: { unfold mbind, io_bind, io_try. by rewrite Hrun. }
  unfold core_CompleteMultipartUpload. rewrite (run_gives _ _ w tt) by (by apply gives_fault).
  erewrite run_seq by reflexivity. by rewrite Hi, Ha.
Qed.

(** The address an upload in parts is given can be reported to for three
    days, to the second: as long, the request it names puts what was assembled
    of the parts at the key of the object, and after it is refused and changes
    nothing. *)
Theorem handed_out_address_completes req p header r key w : undisturbed w → 0 < p_Size p → b_UploadID req = [] →
  repo_at LOWER (gw_access w) (b_RepoType req) (b_Namespace req) (b_Name req) = Some r →
  BuildLfsPath (rp_ID r) (p_Oid p) (rp_Migrated r) = Some key → key ≠ [] → four_digit_year (now + OssFileExpire) →
  let '(res, w') := buildMultipartUploadLink LOWER presign_put upload_id now config req p header w in
  ∃ link up sig, res = Ret link ∧ ln_Href link = complete_address key up expires sig ∧
    ∀ later ps content, assembled up ps = Ok content →
      let '(answer, w'') := CompleteMultipartUpload upload_id assembled s3_status later config key up expires sig ps w' in
      if decide (later ≤ (now + OssFileExpire) `div` Second * Second)
      then answer = Ret (200, None) ∧ gs_bucket (gw_git w'') !! key = Some content
      else answer = Ret (200, Some (NewError (bs "invalid signature"))) ∧ w'' = w'.
Proof.
  intros Hw Hs Hup Hr Hkey Hne Hyear. unfold buildMultipartUploadLink.
  rewrite (run_gives _ _ w r) by (by apply gives_wrap, gives_repo). cbv zeta. rewrite Hkey. rewrite (run_gives _ _ w key) by done. rewrite decide_True by done.
  set (w' := on_git (add_multipart key) w). set (n := length (gs_multiparts (gw_git w))).
  erewrite (run_seq _ _ w (upload_id n) w').
  2: { unfold io_wrap, NewMultipartUpload. by rewrite (run_gives _ _ w tt) by (by apply gives_fault). }
  rewrite (run_gives _ _ w' _ (gives_parts key (upload_id n) header (p_Size p) (MinMultipartSize config) w' Hw Hs)).
  eexists. exists (upload_id n), (complete_signature config key (upload_id n) expires). split_and!; [reflexivity|reflexivity|].
  intros later ps content Ha. pose proof (signature_valid key (upload_id n) later Hyear) as Hv. case_decide as Hlater.
  - rewrite bool_decide_eq_true_2 in Hv by done. edestruct (run_complete key (upload_id n)) as (i & ->); [exact Hw|exact Hv|done| |exact Ha|].
    + exists n. split; [done|]. unfold w'. cbn. by rewrite lookup_app_r, Nat.sub_diag by done.
    + cbn. split; [done|apply lookup_insert_eq].
  - rewrite bool_decide_eq_false_2 in Hv by done. unfold CompleteMultipartUpload. by rewrite Hv.
Qed.

(** What is assembled of parts is not checked: whoever may complete an
    upload of a shared object replaces it by any content, for every repository
    that refers to it. *)
Theorem completed_parts_are_unchecked oid up e sig ps content later w : undisturbed w → oid_valid oid →
  isValidCompleteUploadSignature later config (lfs_key oid) up e sig = true →
  (∃ i, upload_id i = up ∧ gs_multiparts (gw_git w) !! i = Some (lfs_key oid)) → assembled up ps = Ok content → SHA256 content ≠ oid →
  let '(answer, w') := CompleteMultipartUpload upload_id assembled s3_status later config (lfs_key oid) up e sig ps w in
  answer = Ret (200, None) ∧ gs_bucket (gw_git w') !! lfs_key oid = Some content ∧ ¬ objects_ok (gw_git w').
Proof.
  intros Hw Hoid Hsig Hup Ha Hsum. destruct (run_complete (lfs_key oid) up e sig ps content later w) as (i & ->); [done..|].
  assert (gs_bucket (gw_git (on_git (λ s, end_multipart i (with_bucket <[lfs_key oid := content]> s)) w)) !! lfs_key oid = Some content) as Hl by apply lookup_insert_eq.
  split_and!; [done|done|]. intros Hok. by apply Hsum, Hok.
Qed.
End parts.
