(* ===== verification/GitExample.v ===== *)
(** Git over HTTP at a small server: the organization Acme with a private and
    a public repository, a repository of the user acme, one lock and one large
    file. *)
From S2P Require Import Prelude GoLib GoHash GoTime Mirror MirrorLfs Errorx AcAccess AcSpec AcMemberSpec AcRulesSpec AcExample GitHttp GitHttpSpec GitRulesSpec GitGapSpec.
Open Scope Z_scope.

Definition ex_pub : Repository := mk_repo 10 (bs "model") (bs "Acme/pub") false false false false.
Definition ex_own : Repository := mk_repo 12 (bs "model") (bs "acme/own") false false false true.
Definition git_access : access := mk_access (ac_users ex_access) (ac_namespaces ex_access) (ac_orgs ex_access) (ac_members ex_access)
  [ex_repo; ex_pub; ex_own] [].
Definition ex_lock : LfsLock := mk_lock 1 10 1 (bs "big.bin") [].
Definition ex_content : bytes := bs "abc".
Definition ex_oid : bytes := bs "ba7816bf8f01cfea414140de5dae2223b00361a396177a9cb410ff61f20015ad".
Definition git_start : git_state := mk_git [ex_lock] 2 [] 1 [] [mk_dl (bs "2025-01-01") 10 41 0] ∅ {[lfs_key ex_oid := ex_content]} [] [].
Definition git_ex (faults : list (option goerr)) : git_world := mk_gw git_access faults git_start.
Definition ex_config : git_config := mk_gcfg 1024 false true 1000 (bs "https://hub") (bs "https://xet") (bs "empty") (bs "secret").

(** What is not the server's. *)
Definition ex_takes (body : bytes) (n : Z) : result bytes goerr := Ok (take (Z.to_nat n) body).
Definition ex_get (key : bytes) (_ : gmap bytes bytes) : bytes := bs "https://store/" ++ key.
Definition ex_xget (key : bytes) : bytes := bs "https://xet/" ++ key.
Definition ex_put (key : bytes) (h : gmap bytes bytes) : bytes := bs "https://store/" ++ key ++ bs "?" ++ default [] (h !! bs "partNumber").
Definition ex_upload (n : nat) : bytes := bs "up" ++ Itoa (Z.of_nat n).
Definition ex_assembled (_ : bytes) (_ : list (Z * bytes)) : result bytes goerr := Ok (bs "anything else").
Definition ex_status (_ : goerr) : option Z := Some 404.
Abbreviation ex_serve := (serve ascii_LOWER (λ c, c) ex_takes ex_get ex_xget ex_put ex_upload ex_assembled ex_status (bs "2025-01-01") 0 ex_config).
Abbreviation ex_serve_all := (serve_all ascii_LOWER (λ c, c) ex_takes ex_get ex_xget ex_put ex_upload ex_assembled ex_status (bs "2025-01-01") 0 ex_config).
Definition ex_caller (ns name user : bytes) : git_caller := mk_caller (bs "model") ns name user.

Lemma git_start_ok : locks_ok git_start ∧ objects_ok git_start.
Proof.
  split.
  - unfold locks_ok. cbn. split_and!; [apply NoDup_singleton|repeat constructor; cbn; lia|apply NoDup_singleton].
  - intros oid content Hoid. unfold git_start. cbn [gs_bucket]. intros (Heq & <-)%lookup_singleton_Some.
    apply (f_equal tmp_and_oid) in Heq. rewrite (tmp_of_lfs oid Hoid) in Heq. assert (tmp_and_oid (lfs_key ex_oid) = Some (S3_TMP_DIR ++ lfs_tail ex_oid, ex_oid)) as Hex by (by vm_compute).
    rewrite Hex in Heq. injection Heq as _ <-. by vm_compute.
Qed.

Lemma served_only_if_entitled_witness :
  fst (ex_serve (ex_caller (bs "Acme") (bs "m") (bs "alice")) (GCreateLock (bs "a.bin")) (git_ex [])) = Ret tt ∧
  may git_access (bs "alice") (bs "Acme") RoleWrite.
Proof.
  assert (fst (ex_serve (ex_caller (bs "Acme") (bs "m") (bs "alice")) (GCreateLock (bs "a.bin")) (git_ex [])) = Ret tt) as Hr by (by vm_compute).
  split; [exact Hr|]. exact (served_only_if_entitled _ _ _ _ _ _ _ _ _ _ _ _ _ _ _ Hr).
Defined.

Lemma bob_reads : ¬ may git_access (bs "bob") (bs "Acme") RoleWrite.
Proof.
  intros (u & n & Hu & Hn & Hor). vm_compute in Hu, Hn. injection Hu as <-. injection Hn as <-.
  destruct Hor as [H|[(H & _)|(_ & r & Hr & H)]]; [discriminate H|discriminate H|]. vm_compute in Hr. injection Hr as <-. discriminate H.
Qed.

(** Bob, who may only read, tries to release Alice's lock by force. *)
Lemma git_writes_need_write_witness :
  gs_locks (gw_git (snd (ex_serve (ex_caller (bs "Acme") (bs "pub") (bs "bob")) (GUnLock 1 true) (git_ex [None; Some ex_down])))) = [ex_lock].
Proof.
  refine (f_equal (λ x, x.1.1.1.1) (git_writes_need_write ascii_LOWER (λ c, c) ex_takes ex_get ex_xget ex_put ex_upload ex_assembled ex_status (bs "2025-01-01") 0 ex_config
    (ex_caller (bs "Acme") (bs "pub") (bs "bob")) (GUnLock 1 true) (git_ex [None; Some ex_down]) _ eq_refl)).
  apply bob_reads.
Defined.

(** Alice locks two files, one of them twice, and releases one. *)
Definition ex_locking : list (git_caller * git_op) :=
  let alice := ex_caller (bs "Acme") (bs "pub") (bs "alice") in
  [(alice, GCreateLock (bs "a.bin")); (alice, GCreateLock (bs "a.bin")); (alice, GCreateLock (bs "b.bin")); (alice, GUnLock 2 false)].
Lemma locks_stay_well_formed_witness :
  locks_ok (gw_git (ex_serve_all ex_locking (git_ex []))) ∧ lk_Path <$> gs_locks (gw_git (ex_serve_all ex_locking (git_ex []))) = [bs "big.bin"; bs "b.bin"].
Proof.
  split; [|by vm_compute]. exact (locks_stay_well_formed ascii_LOWER (λ c, c) ex_takes ex_get ex_xget ex_put ex_upload ex_assembled ex_status (bs "2025-01-01") 0 ex_config
    ex_locking (git_ex []) (proj1 git_start_ok)).
Defined.
Lemma lock_stays_witness : ex_lock ∈ gs_locks (gw_git (ex_serve_all ex_locking (git_ex []))).
Proof.
  refine (lock_stays ascii_LOWER (λ c, c) ex_takes ex_get ex_xget ex_put ex_upload ex_assembled ex_status (bs "2025-01-01") 0 ex_config ex_locking (git_ex []) ex_lock (proj1 git_start_ok) _ _).
  - by left.
  - intros c o Hin Ho. unfold ex_locking in Hin. rewrite !elem_of_cons in Hin. destruct Hin as [Hin|[Hin|[Hin|[Hin|[]%not_elem_of_nil]]]]; injection Hin as -> ->; discriminate Ho.
Defined.

(** A file is uploaded, then one with a wrong name, and an upload in parts is
    completed. *)
Definition ex_parts_oid : bytes := SHA256 (bs "anything else").
Definition ex_completion : git_op :=
  GCompleteMultipartUpload (lfs_key ex_parts_oid) (bs "up0") (Format_RFC3339 (259200 * Second)) (complete_signature ex_config (lfs_key ex_parts_oid) (bs "up0") (Format_RFC3339 (259200 * Second))) [].
Definition ex_uploads : list (git_caller * git_op) :=
  let alice := ex_caller (bs "Acme") (bs "pub") (bs "alice") in
  [(alice, GUpload (SHA256 (bs "xyz")) 3 (bs "xyz")); (alice, GUpload (SHA256 (bs "uvw")) 3 (bs "wrong")); (mk_caller [] [] [] [], ex_completion)].
Definition git_parts : git_world := mk_gw git_access [] (add_multipart (lfs_key ex_parts_oid) git_start).
Lemma ex_parts_oid_valid : oid_valid ex_parts_oid.
Proof. by vm_compute. Qed.
Lemma uploads_match_their_oid_witness :
  objects_ok (gw_git (ex_serve_all ex_uploads git_parts)) ∧
  gs_bucket (gw_git (ex_serve_all ex_uploads git_parts)) !! lfs_key (SHA256 (bs "xyz")) = Some (bs "xyz") ∧
  gs_bucket (gw_git (ex_serve_all ex_uploads git_parts)) !! lfs_key ex_parts_oid = Some (bs "anything else").
Proof.
  split; [|split; by vm_compute].
  refine (uploads_match_their_oid ascii_LOWER (λ c, c) ex_takes ex_get ex_xget ex_put ex_upload ex_assembled ex_status (bs "2025-01-01") 0 ex_config
    ex_uploads git_parts _ (proj2 git_start_ok)).
  intros c oid up e sig parts content Hin Hoid _ [= <-]. unfold ex_uploads in Hin. rewrite !elem_of_cons in Hin.
  destruct Hin as [Hin|[Hin|[Hin|[]%not_elem_of_nil]]]; [discriminate Hin|discriminate Hin|].
  assert (lfs_key oid = lfs_key ex_parts_oid) as Hkey
    by exact (f_equal (λ r : git_caller * git_op, match r.2 with GCompleteMultipartUpload k _ _ _ _ => k | _ => [] end) Hin).
  rewrite (lfs_key_inj oid ex_parts_oid Hoid ex_parts_oid_valid Hkey). vm_compute. reflexivity.
Defined.

(** A stranger gets an object of another repository. *)
Lemma verify_hands_out_unproven_witness :
  let '(verified, w) := LfsVerify ascii_LOWER (bs "model") (bs "Acme") (bs "pub") [] (mk_ptr ex_oid 3 []) (git_ex []) in
  verified = Ret tt ∧ fst (LfsDownload ascii_LOWER ex_get (bs "model") (bs "Acme") (bs "pub") [] ex_oid [] w) = Ret (ex_get (lfs_key ex_oid) ∅).
Proof. apply (verify_hands_out_unproven ascii_LOWER ex_get (git_ex []) (bs "model") (bs "Acme") (bs "pub") [] ex_oid ex_content ex_pub); by vm_compute. Defined.

(** The user acme releases a lock of Acme's. *)
Lemma force_unlock_crosses_repos_witness :
  let '(res, w) := UnLock ascii_LOWER (bs "model") (bs "acme") (bs "own") (bs "acme") 1 true (git_ex []) in
  res = Ret (with_user git_access ex_lock) ∧ gs_locks (gw_git w) = [].
Proof.
  apply (force_unlock_crosses_repos ascii_LOWER (git_ex []) (bs "model") (bs "acme") (bs "own") (bs "acme") ex_own (mk_user 3 (bs "acme") (bs "u3") [] false) 1 ex_lock);
    try by vm_compute.
  exists (mk_user 3 (bs "acme") (bs "u3") [] false), (mk_ns (bs "acme") UserNamespace). split_and!; [by vm_compute..|]. right. left. by split.
Defined.

Lemma first_page_repeats_witness :
  fst (ListLocks ascii_LOWER (bs "model") (bs "Acme") (bs "pub") (bs "bob") [] 0 1 0 (git_ex [])) =
    Ret (mk_locks [mk_lfslock (bs "1") (bs "big.bin") (bs "alice")] (bs "1")).
Proof.
  refine (eq_trans (proj1 (first_page_repeats ascii_LOWER (git_ex []) (bs "model") (bs "Acme") (bs "pub") (bs "bob") ex_pub (mk_user 2 (bs "bob") (bs "u2") [] false) 1 _ _ _ _ _)) _);
    [by vm_compute..|lia|by vm_compute].
Defined.

(** The forty-second clone of the day. *)
Lemma clones_counted_once_witness :
  let '(res, w) := GitUploadPack ascii_LOWER (λ c, c) (bs "2025-01-01") ex_config (bs "model") (bs "Acme") (bs "pub") [] (git_ex []) in
  res = Ret tt ∧ ∃ d, found_by (row_of_day (bs "2025-01-01") 10) (gs_downloads (gw_git w)) = Some d ∧ rd_CloneCount d = 1.
Proof. apply (clones_counted_once ascii_LOWER (λ c, c) (bs "2025-01-01") ex_config (git_ex []) (bs "model") (bs "Acme") (bs "pub") [] ex_pub); by vm_compute. Defined.

Definition ex_batch (ns name user : bytes) : BatchRequest := mk_batch LFSBatchUpload [bs "multipart"] [] [] ns name (bs "model") user [].
Definition git_hidden : git_world := mk_gw (mk_access (ac_users ex_access) (ac_namespaces ex_access) [] [] [mk_repo 13 (bs "model") (bs "acme/s") true false false false] []) [] git_start.
Lemma hidden_repo_answers_500_witness :
  LfsBatch_handler ascii_LOWER ex_get ex_xget ex_put ex_upload 0 ex_config (ex_batch (bs "acme") (bs "s") (bs "bob")) git_hidden = (Ret (500, None), git_hidden).
Proof.
  apply (hidden_repo_answers_500 ascii_LOWER ex_get ex_xget ex_put ex_config git_hidden (ex_batch (bs "acme") (bs "s") (bs "bob"))
    (mk_repo 13 (bs "model") (bs "acme/s") true false false false) (mk_ns (bs "acme") UserNamespace) (mk_user 2 (bs "bob") (bs "u2") [] false)); try by vm_compute.
  exists (bs "s"). by vm_compute.
Defined.

(** ** Uploads in parts *)

Definition ex_ptr : Pointer := mk_ptr (SHA256 (bs "large")) 2500 [].
Definition ex_key : bytes := lfs_key (SHA256 (bs "large")).
Definition ex_link : gio Link := buildMultipartUploadLink ascii_LOWER ex_put ex_upload 0 ex_config (ex_batch (bs "Acme") (bs "pub") (bs "alice")) ex_ptr ∅.
Lemma parts_cover_file_witness :
  ∃ link up, fst (ex_link (git_ex [])) = Ret link ∧ ln_Header link !! bs "chunk_size" = Some (Itoa 1000) ∧
    (∀ k, 1 ≤ k ≤ 3 → ln_Header link !! Itoa k = Some (part_address ex_put ex_key up ∅ k)) ∧
    (∀ x, x ≠ bs "chunk_size" → (∀ k, 1 ≤ k ≤ 3 → x ≠ Itoa k) → ln_Header link !! x = None).
Proof.
  exact (proj2 (proj2 (proj2 (parts_cover_file ex_put ascii_LOWER ex_upload 0 ex_config (ex_batch (bs "Acme") (bs "pub") (bs "alice")) ex_ptr ∅ ex_pub ex_key (git_ex [])
    ltac:(by vm_compute) ltac:(by vm_compute) ltac:(by vm_compute) ltac:(by vm_compute))))).
Defined.

Lemma handed_out_address_completes_witness :
  let '(res, w) := ex_link (git_ex []) in
  ∃ link up sig, res = Ret link ∧ ln_Href link = complete_address ex_config ex_key up (expires 0) sig ∧
    ∀ later ps content, ex_assembled up ps = Ok content →
      let '(answer, w') := CompleteMultipartUpload ex_upload ex_assembled ex_status later ex_config ex_key up (expires 0) sig ps w in
      if decide (later ≤ 259200000000000) then answer = Ret (200, None) ∧ gs_bucket (gw_git w') !! ex_key = Some content
      else answer = Ret (200, Some (NewError (bs "invalid signature"))) ∧ w' = w.
Proof.
  apply (handed_out_address_completes ex_put ascii_LOWER ex_upload 0 ex_config ex_assembled ex_status (ex_batch (bs "Acme") (bs "pub") (bs "alice")) ex_ptr ∅ ex_pub ex_key (git_ex []));
    by vm_compute.
Defined.

(** The object of the bucket is uploaded in parts once more. *)
Definition git_again : git_world := mk_gw git_access [] (add_multipart (lfs_key ex_oid) git_start).
Lemma completed_parts_are_unchecked_witness :
  let '(answer, w) := CompleteMultipartUpload ex_upload ex_assembled ex_status 0 ex_config (lfs_key ex_oid) (bs "up0") (expires 0)
    (complete_signature ex_config (lfs_key ex_oid) (bs "up0") (expires 0)) [] git_again in
  answer = Ret (200, None) ∧ gs_bucket (gw_git w) !! lfs_key ex_oid = Some (bs "anything else") ∧ ¬ objects_ok (gw_git w).
Proof.
  apply (completed_parts_are_unchecked ex_upload ex_config ex_assembled ex_status ex_oid (bs "up0"));
    [by vm_compute|by vm_compute|by vm_compute|by exists 0%nat|done|by vm_compute].
Defined.
