(* ===== verification/AtToken.v ===== *)
(** Access tokens (user/component/access_token.go, user/handler/access_token.go
    and builder/store/database/access_token.go): creating, refreshing, deleting
    and checking them, over the table of tokens and that of users. *)
From S2P Require Import Prelude GoLib GoTime Errorx AcAccess.
Open Scope Z_scope.

(** ** Data *)

Definition AccessTokenAppGit : bytes := bs "git".
Definition AccessTokenAppMirror : bytes := bs "mirror".
Definition AccessTokenAppStarship : bytes := bs "starship".
Definition AccessTokenAppAIGateway : bytes := bs "aigateway".

(** A row; a time that is zero is no time. *)
Record AccessToken := mk_at {
  t_ID : Z; t_Name : bytes; t_Token : bytes; t_UserID : Z; t_Application : bytes; t_Permission : bytes;
  t_AllowedModels : list bytes; t_IsActive : bool; t_ExpiredAt : option Z; t_Deleted : bool;
}.
Record CreateUserTokenRequest := mk_creq {
  cr_Username : bytes; cr_TokenName : bytes; cr_Application : bytes; cr_Permission : bytes; cr_AllowedModels : list bytes; cr_ExpiredAt : option Z;
}.
Record CheckAccessTokenResp := mk_check {
  ck_Token : bytes; ck_TokenName : bytes; ck_Application : bytes; ck_Permission : bytes; ck_Username : bytes; ck_UserUUID : bytes; ck_ExpireAt : option Z;
}.

(** The table, the id it gives next, and how many values were drawn. *)
Record token_state := mk_ts { ts_rows : list AccessToken; ts_next : Z; ts_drawn : nat }.
Record token_world := mk_tw { tw_access : access; tw_faults : list (option goerr); tw_tokens : token_state }.
#[export] Program Instance token_world_faulty : Faulty token_world goerr := {|
  get_faults := tw_faults; set_faults fs w := mk_tw (tw_access w) fs (tw_tokens w) |}.
Next Obligation. by intros []. Qed.
#[export] Program Instance token_world_access : Access token_world := {|
  get_access := tw_access; set_access a w := mk_tw a (tw_faults w) (tw_tokens w) |}.
Solve All Obligations with done.
Abbreviation tio := (io token_world goerr).

Definition on_tokens (f : token_state → token_state) (w : token_world) : token_world := mk_tw (tw_access w) (tw_faults w) (f (tw_tokens w)).
Definition set_rows (f : list AccessToken → list AccessToken) (s : token_state) : token_state := mk_ts (f (ts_rows s)) (ts_next s) (ts_drawn s).
Definition add_row (t : AccessToken) (s : token_state) : token_state := mk_ts (ts_rows s ++ [t]) (ts_next s + 1) (ts_drawn s).
Definition draw (s : token_state) : token_state := mk_ts (ts_rows s) (ts_next s) (S (ts_drawn s)).

Definition rows (w : token_world) : list AccessToken := ts_rows (tw_tokens w).
Definition tokens_panic {A} : tio A := λ w, (Panic, w).

(** ** The store

    Rows that are marked deleted are not seen. The user of a token is joined,
    and missing when the user is deleted; the store's own joins of users do see
    the deleted. *)

Definition live_user (a : access) (id : Z) : option User := found_by (λ u, u_ID u = id ∧ u_Deleted u = false) (ac_users a).
Definition owned_by (a : access) (username : bytes) (t : AccessToken) : Prop := Exists (λ u, u_ID u = t_UserID t ∧ u_Username u = username) (ac_users a).
#[export] Instance owned_by_dec a username t : Decision (owned_by a username t).
Proof. unfold owned_by. apply _. Defined.
Definition named (name app : bytes) (t : AccessToken) : Prop := t_Name t = name ∧ t_Application t = app.
#[export] Instance named_dec name app t : Decision (named name app t).
Proof. unfold named. apply _. Defined.
(** Active and not deleted. *)
Definition usable (t : AccessToken) : Prop := t_IsActive t = true ∧ t_Deleted t = false.
#[export] Instance usable_dec t : Decision (usable t).
Proof. unfold usable. apply _. Defined.
Definition same_name (t x : AccessToken) : Prop := t_UserID x = t_UserID t ∧ t_Name x = t_Name t ∧ t_Application x = t_Application t.
#[export] Instance same_name_dec t x : Decision (same_name t x).
Proof. unfold same_name. apply _. Defined.

Definition token_read {A} (f : token_world → A) : tio A := next_fault;; io_gets f.
Definition token_row {A} (f : token_world → option A) : tio A := o ← token_read f; match o with Some a => mret a | None => io_fail ErrNoRows end.

(** A unique index guards the values of tokens, of all rows; a row that is
    inserted is active, its default. *)
Definition duplicate_key : goerr := NewError (bs "duplicate key value violates unique constraint").
Definition with_id (id : Z) (t : AccessToken) : AccessToken :=
  mk_at id (t_Name t) (t_Token t) (t_UserID t) (t_Application t) (t_Permission t) (t_AllowedModels t) true (t_ExpiredAt t) false.
Definition deactivated (t : AccessToken) : AccessToken :=
  mk_at (t_ID t) (t_Name t) (t_Token t) (t_UserID t) (t_Application t) (t_Permission t) (t_AllowedModels t) false (t_ExpiredAt t) (t_Deleted t).
Definition token_Create (t : AccessToken) : tio unit :=
  next_fault;; s ← io_gets tw_tokens;
  if decide (t_Token t ∈ t_Token <$> ts_rows s) then io_fail duplicate_key else io_modify (on_tokens (add_row (with_id (ts_next s) t))).
Definition replaced (t : AccessToken) (value : bytes) (expiry : option Z) : AccessToken :=
  mk_at 0 (t_Name t) value (t_UserID t) (t_Application t) (t_Permission t) [] true expiry false.
Definition disable (t x : AccessToken) : AccessToken := if decide (same_name t x ∧ usable x) then deactivated x else x.

Section tokens.
(** [uuid.NewString], the clock, and whether there is a git server. *)
Variable new_uuid : nat → bytes.
Variable now : Z.
Variable has_git : bool.

Definition after_now (t : option Z) : bool := match t with Some t => bool_decide (now < t) | None => false end.
(** One transaction: the old rows are disabled and a new one is inserted. The
    copy is made after the first statement and dereferenced after the
    transaction, also when this failed before. *)
Definition token_Refresh (t : AccessToken) (newTokenValue : bytes) (newExpiredAt : option Z) : tio AccessToken :=
  r ← io_try (next_fault;; next_fault);
  match r with
  | Err _ => tokens_panic
  | Ok _ =>
      let newToken := replaced t newTokenValue (if after_now newExpiredAt then newExpiredAt else t_ExpiredAt t) in
      io_wrap (wrap "failed insert new token, err:") (
        next_fault;; s ← io_gets tw_tokens;
        if decide (newTokenValue ∈ t_Token <$> ts_rows s) then io_fail duplicate_key else mret tt);;
      next_fault;; s ← io_gets tw_tokens;
      io_modify (on_tokens (λ s, add_row (with_id (ts_next s) newToken) (set_rows (fmap (disable t)) s)));;
      mret (with_id (ts_next s) newToken)
  end.
Definition token_Delete (username tkName app : bytes) : tio unit :=
  next_fault;; a ← io_gets tw_access; io_modify (on_tokens (set_rows (filter (λ t, ¬ (owned_by a username t ∧ named tkName app t))))).
Definition token_IsExist (username tkName app : bytes) : tio bool :=
  token_read (λ w, bool_decide (Exists (λ t, owned_by (tw_access w) username t ∧ named tkName app t ∧ t_Deleted t = false) (rows w))).
(** With the user, if not deleted. *)
Definition FindByToken (tokenValue app : bytes) : tio (AccessToken * option User) :=
  token_row (λ w, (λ t, (t, live_user (tw_access w) (t_UserID t))) <$>
    found_by (λ t, t_Token t = tokenValue ∧ usable t ∧ (app = [] ∨ t_Application t = app)) (rows w)).
Definition user_named (a : access) (username : bytes) (t : AccessToken) : option User :=
  u ← live_user a (t_UserID t); if decide (u_Username u = username) then Some u else None.
Definition FindByTokenName (username tokenName app : bytes) : tio (AccessToken * User) :=
  token_row (λ w, head (omap (λ t, u ← user_named (tw_access w) username t;
    if decide (named tokenName app t ∧ usable t) then Some (t, u) else None) (rows w))).
(** The latest first. *)
Definition FindByUser (username app : bytes) : tio (list (AccessToken * User)) :=
  token_read (λ w, reverse (omap (λ t, u ← user_named (tw_access w) username t;
    if decide (usable t ∧ (app = [] ∨ t_Application t = app)) then Some (t, u) else None) (rows w))).

(** *** user.go *)
Definition user_IsExist (username : bytes) : tio bool :=
  io_wrap HandleDBError (token_read (λ w, bool_decide (Exists (λ u, u_Username u = username ∧ u_Deleted u = false) (ac_users (tw_access w))))).

(** ** The component *)

(** The client of the accounting service, which this edition has none of. *)
Definition PresentAccountingUser (userUUID : bytes) : tio unit := mret tt.
Definition GetQuotaByID (username : bytes) : tio bool := mret false.
Definition CreateOrUpdateQuota (username : bytes) : tio unit := mret tt.
(** Three attempts. *)
Fixpoint present_attempts (n : nat) (userUUID : bytes) (last : option goerr) : tio (option goerr) :=
  match n with
  | O => mret last
  | S n => r ← io_try (PresentAccountingUser userUUID); match r with Ok _ => mret None | Err e => present_attempts n userUUID (Some e) end
  end.
Definition presentForNewAccessToken (u : User) : tio (option goerr) := present_attempts 3 (u_UUID u) None.
Definition createUserToken (t : AccessToken) (u : User) : tio unit :=
  io_wrap (wrap "fail to create user token, error: ") (token_Create t);;
  if decide (t_Application t = AccessTokenAppStarship) then presentForNewAccessToken u;; mret tt else mret tt.

Definition genUnique : tio bytes := n ← io_gets (λ w, ts_drawn (tw_tokens w)); io_modify (on_tokens draw);; mret (ReplaceAll (new_uuid n) (bs "-") []).
(** The git server's own token (builder/git/gitserver/gitaly/access_token.go). *)
Definition git_CreateUserToken (req : CreateUserTokenRequest) : tio AccessToken :=
  v ← genUnique; mret (mk_at 0 (cr_TokenName req) v 0 (cr_Application req) (cr_Permission req) [] false (cr_ExpiredAt req) false).
(** It keeps none; without a git server the call is on nil. *)
Definition git_DeleteUserToken : tio unit := if has_git then mret tt else tokens_panic.

Definition new_token (req : CreateUserTokenRequest) (u : User) : tio AccessToken :=
  t ← (if decide (cr_Application req = AccessTokenAppGit) then
         if has_git then
           t ← io_wrap (wrap "fail to create git user access token,error:") (git_CreateUserToken req);
           mret (mk_at 0 (t_Name t) (t_Token t) (u_ID u) (cr_Application req) (t_Permission t) (t_AllowedModels t) (t_IsActive t) (t_ExpiredAt t) false)
         else v ← genUnique; mret (mk_at 0 (cr_TokenName req) v (u_ID u) (cr_Application req) (cr_Permission req) [] true None false)
       else v ← genUnique; mret (mk_at 0 (cr_TokenName req) v (u_ID u) (cr_Application req) (cr_Permission req) (cr_AllowedModels req) true None false));
  mret (if after_now (cr_ExpiredAt req)
        then mk_at 0 (t_Name t) (t_Token t) (t_UserID t) (t_Application t) (t_Permission t) (t_AllowedModels t) (t_IsActive t) (cr_ExpiredAt req) false
        else t).
Definition Create (req : CreateUserTokenRequest) : tio AccessToken :=
  u ← io_wrap (wrap "fail to find user,error:") (FindByUsername (cr_Username req));
  exist ← io_wrap (wrap "fail to check if token exists,error:") (token_IsExist (cr_Username req) (cr_TokenName req) (cr_Application req));
  if exist : bool then io_fail (NewError (bs "token name duplicated"))
  else
    t ← new_token req u;
    io_wrap (wrap "fail to create database user access token,error:") (createUserToken t u);;
    (if decide (cr_Application req = AccessTokenAppMirror) then
       quota ← io_wrap (wrap "fail to get quota by username,error:") (GetQuotaByID (cr_Username req));
       if quota : bool then mret tt
       else io_wrap (wrap "fail to create quota for new mirror token,error:") (CreateOrUpdateQuota (cr_Username req))
     else mret tt);;
    mret t.

(** An answer that is no, or an error. *)
Definition exists_or (what : string) (m : tio bool) : tio unit :=
  r ← io_try m;
  match r with
  | Ok true => mret tt
  | Ok false => io_fail (NewError (bs what ++ bs "%!w(<nil>)"))
  | Err e => io_fail (wrap what e)
  end.
Definition Delete (username tokenName app : bytes) : tio unit :=
  exists_or "user does not exists,error:" (user_IsExist username);;
  exists_or "user access token does not exists,error:" (token_IsExist username tokenName app);;
  (if decide (app = AccessTokenAppGit) then io_wrap (wrap "failed to delete git user access token,error:") git_DeleteUserToken else mret tt);;
  io_wrap (wrap "failed to delete database user access token,error,error:") (token_Delete username tokenName app).

Definition to_resp (t : AccessToken) (u : User) : CheckAccessTokenResp :=
  mk_check (t_Token t) (t_Name t) (t_Application t) (t_Permission t) (u_Username u) (u_UUID u) (t_ExpiredAt t).
(** The user is dereferenced. *)
Definition Check_token (token app : bytes) : tio CheckAccessTokenResp :=
  '(t, u) ← io_wrap (wrap "failed to find database user access token,error:") (FindByToken token app);
  match u with Some u => mret (to_resp t u) | None => tokens_panic end.
Definition GetTokens (username app : bytes) : tio (list CheckAccessTokenResp) :=
  r ← io_try (FindByUser username app);
  match r with
  | Ok ts => mret ((λ tu, to_resp tu.1 tu.2) <$> ts)
  | Err e => if Is e ErrNoRows then mret [] else io_fail (wrap "failed to find database user access token,error:" e)
  end.
Definition RefreshToken (userName tokenName app : bytes) (newExpiredAt : option Z) : tio CheckAccessTokenResp :=
  '(t, u) ← io_wrap (wrap "failed to find database user access token,error:") (FindByTokenName userName tokenName app);
  newTokenValue ← (if decide (t_Application t = [] ∨ t_Application t = AccessTokenAppGit) then
      io_wrap (wrap "fail to delete old git user access token,error:") git_DeleteUserToken;;
      g ← io_wrap (wrap "fail to create git user access token,error:")
            (git_CreateUserToken (mk_creq userName (t_Name t) (t_Application t) (t_Permission t) [] None));
      mret (t_Token g)
    else genUnique);
  newToken ← io_wrap (wrap "fail to refresh access token with new token value,error:") (token_Refresh t newTokenValue newExpiredAt);
  mret (to_resp newToken u).
Definition GetOrCreateFirstAvaiToken (userName app tokenName : bytes) : tio bytes :=
  tokens ← io_wrap (wrap "failed to select user access tokens, error:") (GetTokens userName app);
  match tokens with
  | t :: _ => mret (ck_Token t)
  | [] => t ← io_wrap (wrap "failed to create user access token, error:") (Create (mk_creq userName tokenName app [] [] None)); mret (t_Token t)
  end.

(** ** The handlers

    The user of the request is the one the middleware put into its context;
    a path parameter the route does not have is empty. The answer is the status
    and what is answered. *)

Section handlers.
(** The check of the name of a token. *)
Variable CheckRequestV2 : bytes → tio unit.
Definition answer {A} (m : tio A) : tio (Z * option A) := r ← io_try m; mret (match r with Ok x => (200, Some x) | Err _ => (500, None) end).
Definition Create_handler (currentUser username : bytes) (req : CreateUserTokenRequest) : tio (Z * option AccessToken) :=
  if decide (currentUser = []) then mret (401, None)
  else
    c ← io_try (CheckRequestV2 (cr_TokenName req));
    match c with
    | Err _ => mret (400, None)
    | Ok _ =>
        let app := if decide (cr_Application req = []) then AccessTokenAppGit else cr_Application req in
        if decide (currentUser ≠ username) then mret (401, None)
        else answer (Create (mk_creq username (cr_TokenName req) app (cr_Permission req) (cr_AllowedModels req) (cr_ExpiredAt req)))
    end.
Definition CreateAppToken_handler (currentUser app tokenName : bytes) (req : CreateUserTokenRequest) : tio (Z * option AccessToken) :=
  if decide (currentUser = []) then mret (401, None)
  else
    c ← io_try (CheckRequestV2 (cr_TokenName req));
    match c with
    | Err _ => mret (400, None)
    | Ok _ => answer (Create (mk_creq currentUser tokenName app (cr_Permission req) (cr_AllowedModels req) (cr_ExpiredAt req)))
    end.
(** The application is left empty. *)
Definition Delete_handler (currentUser username tokenName : bytes) : tio (Z * option unit) :=
  if decide (currentUser = []) then mret (401, None)
  else if decide (currentUser ≠ username) then mret (401, None)
  else answer (Delete username tokenName []).
Definition DeleteAppToken_handler (currentUser app tokenName : bytes) : tio (Z * option unit) :=
  if decide (currentUser = []) then mret (401, None) else answer (Delete currentUser tokenName app).
Definition Refresh_handler (currentUser app tokenName paramExpiredAt : bytes) : tio (Z * option CheckAccessTokenResp) :=
  if decide (currentUser = []) then mret (401, None)
  else if decide (paramExpiredAt = []) then answer (RefreshToken currentUser tokenName app None)
  else match Parse_RFC3339 paramExpiredAt with
       | None => mret (400, None)
       | Some t => answer (RefreshToken currentUser tokenName app (Some t))
       end.
Definition Get_handler (token app : bytes) : tio (Z * option CheckAccessTokenResp) := answer (Check_token token app).
Definition GetUserTokens_handler (currentUser app : bytes) : tio (Z * option (list CheckAccessTokenResp)) :=
  if decide (currentUser = []) then mret (401, None) else answer (GetTokens currentUser app).
Definition GetOrCreateFirstAvaiTokens_handler (currentUser app tokenName : bytes) : tio (Z * option bytes) :=
  if decide (currentUser = []) then mret (401, None)
  else if decide (app = [] ∨ tokenName = []) then mret (400, None)
  else answer (GetOrCreateFirstAvaiToken currentUser app tokenName).
End handlers.
End tokens.
