(* ===== verification/AtTokenSpec.v ===== *)
(** What operations on access tokens change: every operation of a user is one
    change of the user's own tokens, and the table stays well formed. *)
From S2P Require Import Prelude GoLib Errorx AcAccess AcSpec AtToken.
Open Scope Z_scope.

(** ** The changes *)

Section changes.
Variables (a : access) (user : bytes).
Inductive token_change : list AccessToken * Z → list AccessToken * Z → Prop :=
  | ch_none s : token_change s s
  | ch_insert t u l n : live_user a (t_UserID t) = Some u → u_Username u = user → t_Token t ∉ t_Token <$> l →
      ¬ Exists (λ x, owned_by a user x ∧ named (t_Name t) (t_Application t) x ∧ t_Deleted x = false) l →
      token_change (l, n) (l ++ [with_id n t], n + 1)
  | ch_refresh t u v e l n : t ∈ l → usable t → user_named a user t = Some u → v ∉ t_Token <$> l →
      token_change (l, n) ((disable t <$> l) ++ [with_id n (replaced t v e)], n + 1)
  | ch_delete name app l n : token_change (l, n) (filter (λ t, ¬ (owned_by a user t ∧ named name app t)) l, n).
End changes.

(** ** What the changes keep *)

(** Values and ids are unique, ids were given out, and a user has one usable
    token of a name and an application. *)
Definition tokens_ok (s : list AccessToken * Z) : Prop :=
  NoDup (t_Token <$> s.1) ∧ NoDup (t_ID <$> s.1) ∧ Forall (λ t, t_ID t < s.2) s.1 ∧
  ∀ x y, x ∈ s.1 → y ∈ s.1 → usable x → usable y → same_name x y → x = y.

Lemma live_user_Some a id u : live_user a id = Some u → u ∈ ac_users a ∧ u_ID u = id.
Proof. by intros (? & ? & ?)%found_by_Some. Qed.
Lemma live_owned a t u : live_user a (t_UserID t) = Some u → owned_by a (u_Username u) t.
Proof. intros (? & ?)%live_user_Some. apply Exists_exists. by exists u. Qed.
Lemma user_named_Some a n t u : user_named a n t = Some u → live_user a (t_UserID t) = Some u ∧ u_Username u = n.
Proof. unfold user_named. destruct (live_user _ _) as [u'|]; [|done]. cbn. case_decide; [|done]. by intros [= <-]. Qed.
Lemma disable_fields t x : t_ID (disable t x) = t_ID x ∧ t_Token (disable t x) = t_Token x ∧ t_UserID (disable t x) = t_UserID x.
Proof. unfold disable. by case_decide. Qed.
Lemma disable_usable t x : usable (disable t x) → disable t x = x ∧ ¬ same_name t x.
Proof. unfold disable. case_decide as Hd; [by intros []|]. intros Hu. split; [done|]. intros Hs. by apply Hd. Qed.

Lemma insert_ok l n t : tokens_ok (l, n) → t_Token t ∉ t_Token <$> l → (∀ x, x ∈ l → usable x → ¬ same_name t x) → tokens_ok (l ++ [with_id n t], n + 1).
Proof.
  unfold tokens_ok. cbn. intros (Hv & Hid & Hlt & Hone) Hfresh Hno. rewrite !fmap_app. cbn. split_and!.
  - apply NoDup_app. split_and!; [done| |apply NoDup_singleton]. by intros v Hin ->%list_elem_of_singleton.
  - apply NoDup_app. split_and!; [done| |apply NoDup_singleton]. intros i (x & -> & Hx)%list_elem_of_fmap Hi%list_elem_of_singleton.
    rewrite Forall_forall in Hlt. specialize (Hlt x Hx). lia.
  - apply Forall_app. split; [eapply Forall_impl; [exact Hlt|cbn; intros; lia]|]. constructor; [cbn; lia|done].
  - intros x y [Hx|Hx%list_elem_of_singleton]%elem_of_app [Hy|Hy%list_elem_of_singleton]%elem_of_app Hux Huy Hs; subst; [by apply Hone| | |done].
    + destruct (Hno x Hx Hux). destruct Hs as (H1 & H2 & H3). by split_and!.
    + by destruct (Hno y Hy Huy).
Qed.
Lemma disable_ok l n t : tokens_ok (l, n) → tokens_ok (disable t <$> l, n) ∧ t_Token <$> (disable t <$> l) = t_Token <$> l.
Proof.
  unfold tokens_ok. cbn. intros (Hv & Hid & Hlt & Hone).
  assert (t_Token <$> (disable t <$> l) = t_Token <$> l) as HT by (rewrite <- list_fmap_compose; apply list_fmap_ext; intros; apply disable_fields).
  assert (t_ID <$> (disable t <$> l) = t_ID <$> l) as HI by (rewrite <- list_fmap_compose; apply list_fmap_ext; intros; apply disable_fields).
  rewrite HT, HI. split_and!; [done|done| | |done].
  - apply Forall_fmap. eapply Forall_impl; [exact Hlt|]. intros x. cbn. by rewrite (proj1 (disable_fields t x)).
  - intros ? ? (x & -> & Hx)%list_elem_of_fmap (y & -> & Hy)%list_elem_of_fmap Hux Huy. apply disable_usable in Hux as Hdx. apply disable_usable in Huy as Hdy.
    destruct Hdx as (Hdx & _), Hdy as (Hdy & _). rewrite Hdx in *. rewrite Hdy in *. intros Hs. by rewrite (Hone x y).
Qed.
Lemma change_ok a user s s' : token_change a user s s' → tokens_ok s → tokens_ok s'.
Proof.
  destruct 1 as [s|t u l n Hlive Hu Hfresh Hno|t u v e l n Ht Hus Hu Hfresh|name app l n]; [done| | |]; intros Hok.
  - apply insert_ok; [done|done|]. intros x Hx (_ & Hdel) (H1 & H2 & H3). apply Hno, Exists_exists. exists x. split_and!; [done| |by split|done].
    rewrite <- Hu. apply live_owned. by rewrite H1.
  - destruct (disable_ok l n t Hok) as (Hdis & HT). apply insert_ok; [done|by rewrite HT|]. intros ? (x & -> & Hx)%list_elem_of_fmap Hux Hs.
    apply disable_usable in Hux as (Heq & Hnot). rewrite Heq in Hs. apply Hnot. exact Hs.
  - destruct Hok as (Hv & Hid & Hlt & Hone). unfold tokens_ok. cbn in *. split_and!.
    + eapply sublist_NoDup; [exact Hv|]. apply fmap_sublist, sublist_filter.
    + eapply sublist_NoDup; [exact Hid|]. apply fmap_sublist, sublist_filter.
    + apply Forall_forall. intros x (_ & Hx)%list_elem_of_filter. rewrite Forall_forall in Hlt. auto.
    + intros x y (_ & Hx)%list_elem_of_filter (_ & Hy)%list_elem_of_filter. by apply Hone.
Qed.

(** The tokens of everyone else. *)
Definition of_others (a : access) (user : bytes) (s : list AccessToken * Z) : list AccessToken := filter (λ t, ¬ owned_by a user t) s.1.
Lemma owned_same a user t x : t_UserID x = t_UserID t → owned_by a user t → owned_by a user x.
Proof. unfold owned_by. by intros ->. Qed.
Lemma filter_fmap_id {A} (P : A → Prop) `{!∀ x, Decision (P x)} (f : A → A) (l : list A) : (∀ x, P x → f x = x) → (∀ x, P (f x) → P x) → filter P (f <$> l) = filter P l.
Proof.
  intros Hid Hback. induction l as [|x l IH]; [done|]. rewrite fmap_cons, !filter_cons. destruct (decide (P x)) as [Hx|Hx].
  - rewrite (Hid x Hx), decide_True, IH by done. done.
  - rewrite decide_False by auto. done.
Qed.
Lemma change_others a user s s' : token_change a user s s' → of_others a user s' = of_others a user s.
Proof.
  unfold of_others. destruct 1 as [s|t u l n Hlive Hu Hfresh Hno|t u v e l n Ht Hus Hu Hfresh|name app l n]; [done|..]; cbn.
  - rewrite filter_app, filter_cons_False, filter_nil, app_nil_r; [done|]. intros Hn. apply Hn. rewrite <- Hu. by apply (live_owned a (with_id n t)).
  - apply user_named_Some in Hu as (Hlive & Hn). assert (owned_by a user t) as Ho by (rewrite <- Hn; by apply live_owned).
    rewrite filter_app, filter_cons_False, filter_nil, app_nil_r; [|intros Hno; by apply Hno].
    apply filter_fmap_id; intros x Hx.
    + unfold disable. case_decide as Hd; [|done]. destruct Hd as ((Hs & _) & _). destruct Hx. by eapply owned_same.
    + intros Hox. apply Hx. by eapply owned_same; [apply disable_fields|].
  - rewrite list_filter_filter. apply list_filter_iff. intros x. split; [by intros []|]. intros Hx. split; [done|]. by intros (? & _).
Qed.

(** ** Every operation is a change *)

#[local] Instance everywhere_pre {W} : PreOrder (λ _ _ : W, True).
Proof. by split. Qed.
Lemma keeps_bind {W E A B} (Q : W → Prop) (m : io W E A) (f : A → io W E B) w : Q (snd (m w)) → (∀ x w', Q w' → Q (snd (f x w'))) → Q (snd ((m ≫= f) w)).
Proof. intros Hm Hf. unfold mbind, io_bind. destruct (m w) as [[x|e|] w']; cbn in *; auto. Qed.
Lemma keeps_wrap {W E A} (Q : W → Prop) g (m : io W E A) w : Q (snd (m w)) → Q (snd (io_wrap g m w)).
Proof. unfold io_wrap. by destruct (m w) as [[x|e|] w']. Qed.
Lemma keeps_try {W E A} (Q : W → Prop) (m : io W E A) w : Q (snd (m w)) → Q (snd (io_try m w)).
Proof. unfold io_try. by destruct (m w) as [[x|e|] w']. Qed.

Section operations.
Variables (new_uuid : nat → bytes) (has_git : bool).

(** The tables are these. *)
Definition at_tokens (a : access) (l : list AccessToken) (n : Z) (w : token_world) : Prop := tw_access w = a ∧ rows w = l ∧ ts_next (tw_tokens w) = n.
Abbreviation stays a l n := (moves (E := goerr) (at_tokens a l n) (λ _ _ : token_world, True)).
Definition changed (a : access) (user : bytes) (l : list AccessToken) (n : Z) (w : token_world) : Prop :=
  tw_access w = a ∧ token_change a user (l, n) (rows w, ts_next (tw_tokens w)).

Lemma at_changed a user l n w : at_tokens a l n w → changed a user l n w.
Proof. intros (<- & <- & <-). split; [done|constructor]. Qed.

Section calls.
Context {a : access} {l : list AccessToken} {n : Z}.
Lemma stays_fault : stays a l n (λ _, True) next_fault.
Proof. apply moves_next_fault; [apply _|done]. Qed.
Lemma stays_read {A} (f : token_world → A) : stays a l n (λ x, ∃ w, at_tokens a l n w ∧ x = f w) (token_read f).
Proof. eapply moves_bind; [apply _|apply stays_fault|]. intros _ _. apply moves_gets; [apply _|]. intros w Hw. by exists w. Qed.
Lemma stays_row {A} (f : token_world → option A) : stays a l n (λ x, ∃ w, at_tokens a l n w ∧ f w = Some x) (token_row f).
Proof.
  eapply moves_bind; [apply _|apply stays_read|]. intros o (w & Hw & ->). destruct (f w) as [x|] eqn:Hx; [|by apply moves_fail; apply _].
  apply moves_ret; [apply _|]. by exists w.
Qed.
Lemma stays_user name : stays a l n (λ u, found_by (λ u, u_Username u = name ∧ u_Deleted u = false) (ac_users a) = Some u) (FindByUsername name).
Proof.
  apply moves_wrap. eapply (moves_bind _ _ (λ o, o = found_by (λ u, u_Username u = name ∧ u_Deleted u = false) (ac_users a))); [|intros o ->].
  - eapply moves_bind; [apply _|apply stays_fault|]. intros _ _. apply moves_gets; [apply _|]. by intros w (<- & _).
  - destruct (found_by _ _); [by apply moves_ret; [apply _|]|apply moves_fail; apply _].
Qed.
Lemma stays_exist user name app :
  stays a l n (λ b, b = false → ¬ Exists (λ x, owned_by a user x ∧ named name app x ∧ t_Deleted x = false) l) (token_IsExist user name app).
Proof. eapply moves_weaken; [apply stays_read|done|]. intros b (w & (Ha & Hl & _) & ->) Hb%bool_decide_eq_false. by rewrite <- Ha, <- Hl. Qed.
Lemma stays_modify f : (∀ s, ts_rows (f s) = ts_rows s ∧ ts_next (f s) = ts_next s) → stays a l n (λ _, True) (io_modify (on_tokens f)).
Proof. intros Hf. apply moves_modify. intros w (Ha & Hl & Hn). split; [|done]. destruct (Hf (tw_tokens w)) as (H1 & H2). unfold at_tokens, rows, on_tokens. cbn. by rewrite H1, H2. Qed.
Lemma stays_unique : stays a l n (λ _, True) (genUnique new_uuid).
Proof.
  eapply moves_bind_true; [apply _|by apply moves_gets; [apply _|]|]. intros k. eapply moves_bind_true; [apply _|by apply stays_modify|]. intros _. by apply moves_ret; [apply _|].
Qed.
Lemma stays_delete : stays a l n (λ _, True) (git_DeleteUserToken has_git).
Proof. unfold git_DeleteUserToken. destruct has_git; [by apply moves_ret; [apply _|]|]. by intros w Hw. Qed.
Lemma stays_present u : stays a l n (λ _, True) (presentForNewAccessToken u).
Proof.
  unfold presentForNewAccessToken. generalize (None : option goerr) as last. generalize 3%nat as k. intros k. induction k as [|k IH]; intros last; [by apply moves_ret; [apply _|]|].
  cbn [present_attempts]. eapply moves_bind_true; [apply _| |intros [?|?]; [by apply moves_ret; [apply _|]|apply IH]]. by apply moves_try_true, moves_ret; [apply _|].
Qed.
Lemma stays_quota req : stays a l n (λ _, True) (
  if decide (cr_Application req = AccessTokenAppMirror) then
    quota ← io_wrap (wrap "fail to get quota by username,error:") (GetQuotaByID (cr_Username req));
    if quota : bool then mret tt
    else io_wrap (wrap "fail to create quota for new mirror token,error:") (CreateOrUpdateQuota (cr_Username req))
  else mret tt).
Proof.
  case_decide; [|by apply moves_ret; [apply _|]]. eapply moves_bind_true; [apply _|by apply moves_wrap, moves_ret; [apply _|]|].
  intros [|]; [by apply moves_ret; [apply _|]|by apply moves_wrap, moves_ret; [apply _|]].
Qed.
(** A new token is the user's, of the request's name and application. *)
Lemma stays_new now req u :
  stays a l n (λ t, t_UserID t = u_ID u ∧ t_Name t = cr_TokenName req ∧ t_Application t = cr_Application req) (new_token new_uuid now has_git req u).
Proof.
  eapply (moves_bind _ _ (λ t, t_UserID t = u_ID u ∧ t_Name t = cr_TokenName req ∧ t_Application t = cr_Application req)).
  - case_decide; [destruct has_git|].
    + eapply (moves_bind _ _ (λ t, t_Name t = cr_TokenName req)); [|intros t Ht; by apply moves_ret; [apply _|]].
      apply moves_wrap. eapply moves_bind; [apply _|apply stays_unique|]. intros v _. by apply moves_ret; [apply _|].
    + eapply moves_bind; [apply _|apply stays_unique|]. intros v _. by apply moves_ret; [apply _|].
    + eapply moves_bind; [apply _|apply stays_unique|]. intros v _. by apply moves_ret; [apply _|].
  - intros t Ht. apply moves_ret; [apply _|]. by destruct (after_now _ _).
Qed.
End calls.

(** Steps after the change keep it. *)
Lemma changed_stays {A} a user l n (m : tio A) w : (∀ l n, stays a l n (λ _, True) m) → changed a user l n w → changed a user l n (snd (m w)).
Proof.
  intros Hm (Ha & Hc). destruct (Hm (rows w) (ts_next (tw_tokens w)) w) as ((Ha' & Hl & Hn) & _); [by rewrite <- Ha|]. split; [done|]. by rewrite Hl, Hn.
Qed.
Lemma changed_then {A B} a user l n (P : A → Prop) (m : tio A) (f : A → tio B) w : stays a l n P m → at_tokens a l n w →
  (∀ x w', at_tokens a l n w' → P x → changed a user l n (snd (f x w'))) → changed a user l n (snd ((m ≫= f) w)).
Proof. intros Hm Hw Hf. by eapply moves_end; [exact Hm|exact Hw|intros; by apply at_changed|]. Qed.
Lemma insert_changes a user l n t u w : at_tokens a l n w → live_user a (t_UserID t) = Some u → u_Username u = user →
  ¬ Exists (λ x, owned_by a user x ∧ named (t_Name t) (t_Application t) x ∧ t_Deleted x = false) l → changed a user l n (snd (token_Create t w)).
Proof.
  intros Hw Hlive Hu Hno. unfold token_Create. eapply changed_then; [apply stays_fault|done|]. clear w Hw. intros _ w (Ha & Hl & Hn) _.
  change ((io_gets tw_tokens ≫= ?f) w) with (f (tw_tokens w) w). cbv beta. case_decide as Hin; [by apply at_changed|]. split; [done|]. cbn.
  change (ts_rows (tw_tokens w)) with (rows w) in *. rewrite Hl, Hn in *. by eapply ch_insert.
Qed.
Lemma found_live a name u : NoDup (u_ID <$> ac_users a) → found_by (λ u, u_Username u = name ∧ u_Deleted u = false) (ac_users a) = Some u →
  live_user a (u_ID u) = Some u ∧ u_Username u = name.
Proof.
  intros Hid (Hu & Hname & Hdel)%found_by_Some. split; [|done]. unfold live_user. destruct (found_by _ _) as [v|] eqn:Hv.
  - apply found_by_Some in Hv as (Hv & Heq & _). f_equal. by apply (keyed_eq u_ID _ _ _ Hid).
  - by destruct (found_by_None _ _ Hv u Hu).
Qed.

Definition users_ok (a : access) : Prop := NoDup (u_ID <$> ac_users a).
Section steps.
Context {a : access} {l : list AccessToken} {n : Z} (Husers : users_ok a).
Lemma Create_changes now req w : at_tokens a l n w → changed a (cr_Username req) l n (snd (Create new_uuid now has_git req w)).
Proof.
  intros Hw. unfold Create. eapply changed_then; [apply moves_wrap, stays_user|done|]. clear w Hw. intros u w Hw Hu. cbv beta in Hu.
  destruct (found_live a _ u Husers Hu) as (Hlive & Hname). eapply changed_then; [apply moves_wrap, (stays_exist (cr_Username req))|done|]. clear w Hw. intros [|] w Hw Hno; [by apply at_changed|].
  specialize (Hno eq_refl). eapply changed_then; [apply stays_new|done|]. clear w Hw. intros t w Hw (Hid & Htn & Hta).
  apply keeps_bind.
  - apply keeps_wrap. unfold createUserToken. apply keeps_bind.
    + apply keeps_wrap. eapply insert_changes; [done|by rewrite Hid|done|]. by rewrite Htn, Hta.
    + intros [] w' Hc. case_decide; [|done]. apply keeps_bind; [|done]. apply changed_stays; [intros; apply stays_present|done].
  - intros [] w' Hc. apply keeps_bind; [|done]. apply changed_stays; [intros; apply stays_quota|done].
Qed.
Lemma Delete_changes user name app w : at_tokens a l n w → changed a user l n (snd (Delete has_git user name app w)).
Proof.
  intros Hw. assert (∀ s m, stays a l n (λ _, True) m → stays a l n (λ _, True) (exists_or s m)) as Hex.
  { intros s m Hm. eapply moves_bind_true; [apply _|by apply moves_try_true|]. intros [[|]|]; [by apply moves_ret; [apply _|]|by apply moves_fail; apply _..]. }
  unfold Delete. eapply changed_then; [apply Hex; eapply moves_wrap, moves_true, stays_read|done|]. clear w Hw. intros _ w Hw _.
  eapply changed_then; [apply Hex; eapply moves_true, stays_read|done|]. clear w Hw. intros _ w Hw _.
  eapply (changed_then a user l n (λ _, True)); [|done|].
  { case_decide; [apply moves_wrap, stays_delete|by apply moves_ret; [apply _|]]. }
  clear w Hw. intros _ w Hw _. apply keeps_wrap. unfold token_Delete. eapply changed_then; [apply stays_fault|done|]. clear w Hw. intros _ w (Ha & Hl & Hn) _. split; [done|].
  subst. apply ch_delete.
Qed.
Lemma Refresh_changes now user t u v e w : at_tokens a l n w → t ∈ l → usable t → user_named a user t = Some u →
  changed a user l n (snd (token_Refresh now t v e w)).
Proof.
  intros Hw Ht Hus Hu. unfold token_Refresh. eapply (changed_then a user l n (λ _, True)); [|done|].
  { apply moves_try_true. eapply moves_bind_true; [apply _|apply stays_fault|]. intros _. apply stays_fault. }
  clear w Hw. intros [[]|] w Hw _; [|by apply at_changed]. cbv zeta. eapply (changed_then a user l n (λ _, v ∉ t_Token <$> l)); [|done|].
  - apply moves_wrap. eapply moves_bind_true; [apply _|apply stays_fault|]. intros _.
    eapply (moves_bind _ _ (λ s, ts_rows s = l)); [by apply moves_gets; [apply _|intros ? (_ & ? & _)]|]. intros s Hs.
    case_decide as Hin; [by apply moves_fail; apply _|]. apply moves_ret; [apply _|]. by rewrite <- Hs.
  - clear w Hw. intros _ w Hw Hv. eapply changed_then; [apply stays_fault|done|]. clear w Hw. intros _ w (Ha & Hl & Hn) _. split; [done|].
    change (ts_rows (tw_tokens w)) with (rows w) in *. subst. by eapply ch_refresh.
Qed.
Lemma RefreshToken_changes now user name app e w : at_tokens a l n w → changed a user l n (snd (RefreshToken new_uuid now has_git user name app e w)).
Proof.
  intros Hw. unfold RefreshToken. eapply (changed_then a user l n (λ tu, tu.1 ∈ l ∧ usable tu.1 ∧ user_named a user tu.1 = Some tu.2)); [|done|].
  - apply moves_wrap. eapply moves_weaken; [apply stays_row|done|]. intros [t u] (w' & (Ha & Hl & _) & Hf). apply head_Some_elem_of in Hf.
    apply list_elem_of_omap in Hf as (x & Hx & Heq). rewrite Ha, Hl in *. destruct (user_named a user x) as [u'|] eqn:Hu; [|done]. cbn in Heq.
    case_decide as Hd; [|done]. injection Heq as -> ->. by destruct Hd.
  - clear w Hw. intros [t u] w Hw (Ht & Hus & Hu). cbn [fst snd] in *. eapply (changed_then a user l n (λ _, True)); [|done|].
    + case_decide; [|apply stays_unique]. eapply moves_bind_true; [apply _|apply moves_wrap, stays_delete|]. intros _.
      eapply moves_bind_true; [apply _|apply moves_wrap|by intros; apply moves_ret; [apply _|]].
      eapply moves_bind_true; [apply _|apply stays_unique|by intros; apply moves_ret; [apply _|]].
    + clear w Hw. intros v w Hw _. apply keeps_bind; [|done]. apply keeps_wrap. by eapply Refresh_changes.
Qed.
Lemma stays_tokens user app : stays a l n (λ _, True) (GetTokens user app).
Proof.
  eapply moves_bind_true; [apply _|eapply moves_try_true, moves_true, stays_read|]. intros [ts|e]; [by apply moves_ret; [apply _|]|].
  destruct (Is e ErrNoRows); [by apply moves_ret; [apply _|]|by apply moves_fail; apply _].
Qed.
Lemma First_changes now user app name w : at_tokens a l n w → changed a user l n (snd (GetOrCreateFirstAvaiToken new_uuid now has_git user app name w)).
Proof.
  intros Hw. unfold GetOrCreateFirstAvaiToken. eapply changed_then; [apply moves_wrap, stays_tokens|done|]. clear w Hw. intros [|t ts] w Hw _; [|by apply at_changed].
  apply keeps_bind; [|done]. apply keeps_wrap. by apply (Create_changes now (mk_creq user name app [] [] None)).
Qed.
Lemma stays_check token app : stays a l n (λ _, True) (Check_token token app).
Proof.
  eapply moves_bind_true; [apply _|eapply moves_wrap, moves_true, stays_row|]. intros [t [u|]]; [by apply moves_ret; [apply _|]|]. by intros w Hw.
Qed.
End steps.

(** ** Sequences of operations *)

(** An operation of a user, at a time. *)
Inductive token_op :=
  | TCreate (tokenName app permission : bytes) (models : list bytes) (expiry : option Z)
  | TRefresh (tokenName app : bytes) (expiry : option Z)
  | TDelete (tokenName app : bytes)
  | TFirst (app tokenName : bytes)
  | TCheck (token app : bytes)
  | TList (app : bytes).
Definition token_perform (now : Z) (user : bytes) (o : token_op) : tio unit :=
  match o with
  | TCreate name app perm models exp => Create new_uuid now has_git (mk_creq user name app perm models exp);; mret tt
  | TRefresh name app exp => RefreshToken new_uuid now has_git user name app exp;; mret tt
  | TDelete name app => Delete has_git user name app
  | TFirst app name => GetOrCreateFirstAvaiToken new_uuid now has_git user app name;; mret tt
  | TCheck token app => Check_token token app;; mret tt
  | TList app => GetTokens user app;; mret tt
  end.
Definition token_run (ops : list (Z * bytes * token_op)) (w : token_world) : token_world :=
  foldl (λ w o, snd (token_perform o.1.1 o.1.2 o.2 w)) w ops.

Lemma perform_changes now user o w : users_ok (tw_access w) →
  changed (tw_access w) user (rows w) (ts_next (tw_tokens w)) (snd (token_perform now user o w)).
Proof.
  intros Hu. assert (at_tokens (tw_access w) (rows w) (ts_next (tw_tokens w)) w) as Hw by done. destruct o; cbn [token_perform].
  - apply keeps_bind; [|done]. by apply (Create_changes Hu now (mk_creq user _ _ _ _ _)).
  - apply keeps_bind; [|done]. by apply RefreshToken_changes.
  - by apply Delete_changes.
  - apply keeps_bind; [|done]. by apply First_changes.
  - apply keeps_bind; [|done]. apply changed_stays; [intros; apply stays_check|by apply at_changed].
  - apply keeps_bind; [|done]. apply changed_stays; [intros; apply stays_tokens|by apply at_changed].
Qed.
Lemma run_keeps (P : list AccessToken * Z → Prop) ops w : users_ok (tw_access w) →
  (∀ now user o s s', (now, user, o) ∈ ops → token_change (tw_access w) user s s' → P s → P s') →
  P (rows w, ts_next (tw_tokens w)) → P (rows (token_run ops w), ts_next (tw_tokens (token_run ops w))) ∧ tw_access (token_run ops w) = tw_access w.
Proof.
  revert w. induction ops as [|[[now user] o] ops IH]; intros w Hu Hstep HP; [done|]. destruct (perform_changes now user o w Hu) as (Ha & Hc).
  unfold token_run. cbn [foldl fst snd]. destruct (IH (snd (token_perform now user o w))) as (? & Ha').
  - by rewrite Ha.
  - rewrite Ha. intros now' user' o' s s' Hin. apply (Hstep now' user' o'). by right.
  - apply (Hstep now user o _ _ ltac:(left) Hc HP).
  - split; [done|]. unfold token_run in Ha'. by rewrite Ha', Ha.
Qed.

(** C28: Whatever operations on access tokens are run, by whomever, at any times
    and with any failures, the table stays well formed: values and ids are
    unique, and of a user, a name and an application at most one token is
    usable. *)
Theorem tokens_stay_well_formed ops w : users_ok (tw_access w) → tokens_ok (rows w, ts_next (tw_tokens w)) →
  tokens_ok (rows (token_run ops w), ts_next (tw_tokens (token_run ops w))).
Proof. intros Hu Hw. apply (run_keeps tokens_ok ops w Hu); [|done]. intros now user o s s' _. apply change_ok. Qed.

(** Operations of other users leave a user's tokens as they are, every
    field of them, whatever is asked and whatever fails. *)
Theorem others_leave_tokens ops w t : users_ok (tw_access w) → (∀ now x o, (now, x, o) ∈ ops → ¬ owned_by (tw_access w) x t) →
  t ∈ rows w → t ∈ rows (token_run ops w).
Proof.
  intros Hu Hops Ht. apply (run_keeps (λ s, t ∈ s.1) ops w Hu); [|done]. intros now x o s s' Hin Hc Hs. pose proof (Hops now x o Hin) as Hno.
  apply change_others in Hc. unfold of_others in Hc. assert (t ∈ filter (λ t, ¬ owned_by (tw_access w) x t) s.1) as Hf by (by apply list_elem_of_filter).
  rewrite <- Hc in Hf. by apply list_elem_of_filter in Hf as (_ & ?).
Qed.
End operations.
