(* ===== verification/AtAuth.v ===== *)
(** Who a request is from (api/middleware/authenticator.go, git_http_param.go,
    api/httpbase/user.go): browser sessions, the API key, JWTs and access
    tokens, and the order the routers put the middleware in. *)
From S2P Require Import Prelude GoLib GoJson GoTime Errorx AcAccess AtToken.
Open Scope Z_scope.

(** ** encoding/base64: StdEncoding.DecodeString *)

Definition b64_value (c : ascii) : option Z :=
  let z := byte_Z c in
  if decide (65 ≤ z ≤ 90) then Some (z - 65) else if decide (97 ≤ z ≤ 122) then Some (z - 71)
  else if decide (48 ≤ z ≤ 57) then Some (z + 4) else if decide (z = 43) then Some 62 else if decide (z = 47) then Some 63 else None.
(** Padding ends the text. *)
Fixpoint b64_quads (s : bytes) : option bytes :=
  match s with
  | [] => Some []
  | a :: b :: c :: d :: rest =>
      x ← b64_value a; y ← b64_value b;
      if decide (d = "="%char) then
        if decide (rest ≠ []) then None
        else if decide (c = "="%char) then Some [Z_byte (x * 4 + y `div` 16)]
        else z ← b64_value c; Some [Z_byte (x * 4 + y `div` 16); Z_byte (y `mod` 16 * 16 + z `div` 4)]
      else
        z ← b64_value c; t ← b64_value d; r ← b64_quads rest;
        Some (Z_byte (x * 4 + y `div` 16) :: Z_byte (y `mod` 16 * 16 + z `div` 4) :: Z_byte (z `mod` 4 * 64 + t) :: r)
  | _ => None
  end.
(** Line ends are skipped. *)
Definition DecodeString (s : bytes) : option bytes := b64_quads (filter (λ c, c ∉ bs (String "010" (String "013" EmptyString))) s).

(** ** Requests *)

Inductive AuthType := AuthTypeNone | AuthTypeApiKey | AuthTypeJwt | AuthTypeAccessToken | AuthTypeMultiSyncToken.
(** What the middleware sets in the context of a request. *)
Record reqctx := mk_ctx { rc_user : bytes; rc_uuid : bytes; rc_token : bytes; rc_auth : AuthType }.
Definition no_user : reqctx := mk_ctx [] [] [] AuthTypeNone.
Definition SetCurrentUser (u : bytes) (c : reqctx) : reqctx := mk_ctx u (rc_uuid c) (rc_token c) (rc_auth c).
Definition SetCurrentUserUUID (u : bytes) (c : reqctx) : reqctx := mk_ctx (rc_user c) u (rc_token c) (rc_auth c).
Definition SetAccessToken (t : bytes) (c : reqctx) : reqctx := mk_ctx (rc_user c) (rc_uuid c) t (rc_auth c).
Definition SetAuthType (t : AuthType) (c : reqctx) : reqctx := mk_ctx (rc_user c) (rc_uuid c) (rc_token c) t.

(** A request: its session's user name and UUID, where a router has sessions,
    its Authorization header, its query and its method. *)
Record request := mk_request {
  hr_session : option (bytes * bytes); hr_Authorization : bytes; hr_current_user : bytes; hr_current_user_uuid : bytes; hr_jwt : bytes; hr_Method : bytes;
}.
(** The rest of the chain runs, or is cut off with a status. *)
Inductive passed := Next (c : reqctx) | Abort_with (status : Z).
Definition middleware : Type := request → reqctx → tio passed.
Definition then_ (m k : middleware) : middleware := λ r c, p ← m r c; match p with Next c => k r c | Abort_with s => mret (Abort_with s) end.

Section auth.
(** The keys of the configuration, the check of a JWT with a key, the value
    and application the user service reads from an address with a token, and
    the roles it tells of a user. *)
Variable APIToken : bytes.
Variable SigningKey : bytes.
Variable parse_jwt : bytes → bytes → option (bytes * bytes).
Variable token_route : bytes → option (bytes * bytes).
Variable GetUserInfo : bytes → tio (list bytes).
Variable now : Z.

(** *** builder/rpc/user_svc_client.go: a panic of the service is an answer of
    500 *)
Definition svc_error : goerr := NewError (bs "remote service failed").
Definition VerifyByAccessToken (token : bytes) : tio CheckAccessTokenResp := λ w,
  match (next_fault;;
    match token_route token with
    | None => io_fail svc_error
    | Some (value, app) =>
        '(status, resp) ← Get_handler value app;
        match resp with Some r => if decide (status = 200) then mret r else io_fail svc_error | None => io_fail svc_error end
    end) w with
  | (Panic, w') => (Fail svc_error, w')
  | r => r
  end.

(** *** Sessions *)

(** A session without a store is not there; the user name is empty or not. *)
Definition isValidBrowserSession (r : request) (c : reqctx) : option reqctx :=
  match hr_session r with
  | Some (u, _) => if decide (u = []) then None else Some (SetAuthType AuthTypeJwt (SetCurrentUser u c))
  | None => None
  end.
Definition AuthSession : middleware := λ r c,
  mret (Next (match hr_session r with
              | Some (u, uuid) => SetCurrentUserUUID uuid (SetCurrentUser u (SetAuthType AuthTypeJwt c))
              | None => c
              end)).
(** The session a JWT in the query gives, or the status of its refusal; saving
    it may fail. *)
Definition BuildJwtSession (r : request) : tio (Z + request) :=
  if decide (hr_jwt r = []) then mret (inr r)
  else match parse_jwt SigningKey (hr_jwt r) with
       | None => mret (inl 401)
       | Some (u, uuid) =>
           s ← io_try next_fault;
           mret (match s with
                 | Err _ => inl 401
                 | Ok _ => inr (mk_request (Some (u, uuid)) (hr_Authorization r) (hr_current_user r) (hr_current_user_uuid r) (hr_jwt r) (hr_Method r))
                 end)
       end.

(** *** Tokens *)

Definition isValidApiToken (r : request) (token : bytes) (c : reqctx) : option reqctx :=
  if decide (token = APIToken) then
    let c := if decide (hr_current_user r = []) then c else SetCurrentUser (hr_current_user r) c in
    let c := if decide (hr_current_user_uuid r = []) then c else SetCurrentUserUUID (hr_current_user_uuid r) c in
    Some (SetAuthType AuthTypeApiKey c)
  else None.
Definition isValidJWTToken (token : bytes) (c : reqctx) : option reqctx :=
  if decide (Contains token (bs ".") = true) then
    '(u, uuid) ← parse_jwt SigningKey token; Some (SetAuthType AuthTypeJwt (SetCurrentUserUUID uuid (SetCurrentUser u c)))
  else None.
Definition isValidAccessToken (token : bytes) (c : reqctx) : tio (option reqctx) :=
  v ← io_try (VerifyByAccessToken token);
  mret (match v with
        | Err _ => None
        | Ok u =>
            let c := SetAccessToken token (SetCurrentUserUUID (ck_UserUUID u) (SetCurrentUser (ck_Username u) c)) in
            if decide (ck_Application u = AccessTokenAppGit) then Some (SetAuthType AuthTypeAccessToken c)
            else if decide (ck_Application u = AccessTokenAppAIGateway) then Some (SetAuthType AuthTypeAccessToken c)
            else if decide (ck_Application u = AccessTokenAppMirror) then Some (SetAuthType AuthTypeMultiSyncToken c)
            else None
        end).
(** User name and password; without a colon there is no second part. *)
Definition basic_parts (token : bytes) : option (outcome Empty_set (bytes * bytes)) :=
  match DecodeString token with
  | None => None
  | Some info => match Split info (bs ":") with u :: p :: _ => Some (Ret (u, p)) | _ => Some Panic end
  end.
Definition isValidBasicToken (token : bytes) (c : reqctx) : tio (option reqctx) :=
  match basic_parts token with
  | None => mret None
  | Some (Ret (username, accessToken)) =>
      v ← io_try (VerifyByAccessToken accessToken);
      mret (match v with
            | Err _ => None
            | Ok u => if decide (ck_Username u = username) then Some (SetCurrentUserUUID (ck_UserUUID u) (SetCurrentUser username c)) else None
            end)
  | Some _ => tokens_panic
  end.

Definition Authenticator : middleware := λ r c,
  match isValidBrowserSession r c with
  | Some c => mret (Next c)
  | None =>
      let h := hr_Authorization r in
      if decide (h = []) then mret (Next c)
      else if HasPrefix h (bs "Bearer ") then
        let token := TrimPrefix h (bs "Bearer ") in
        match isValidApiToken r token c with
        | Some c => mret (Next c)
        | None =>
            match isValidJWTToken token c with
            | Some c => mret (Next c)
            | None => v ← isValidAccessToken token c; mret (match v with Some c => Next c | None => Abort_with 401 end)
            end
        end
      else if HasPrefix h (bs "Basic ") then
        v ← isValidBasicToken (TrimPrefix h (bs "Basic ")) c; mret (match v with Some c => Next c | None => Abort_with 401 end)
      else mret (Abort_with 401)
  end.

(** *** Guards *)

Definition NeedAPIKey : middleware := λ r c,
  if decide (hr_Authorization r = []) then mret (Abort_with 401)
  else if decide (TrimPrefix (hr_Authorization r) (bs "Bearer ") = APIToken) then
    mret (Next (if decide (hr_current_user r = []) then c else SetCurrentUser (hr_current_user r) c))
  else mret (Abort_with 401).
Definition MustLogin : middleware := λ _ c, mret (if decide (rc_user c = []) then Abort_with 401 else Next c).
Definition NeedAdmin : middleware := λ _ c,
  if decide (rc_user c = []) then mret (Abort_with 401)
  else
    u ← io_try (GetUserInfo (rc_user c));
    mret (match u with
          | Err _ => Abort_with 500
          | Ok roles => if user_CanAdmin (mk_user 0 [] [] (Join roles (bs ",")) false) then Next c else Abort_with 403
          end).
Definition UserMatch (username : bytes) : middleware := λ _ c,
  mret (if decide (rc_user c = []) then Abort_with 401 else if decide (username = rc_user c) then Next c else Abort_with 401).
Definition RestrictMultiSyncTokenToRead : middleware := λ r c,
  mret (match rc_auth c with
        | AuthTypeMultiSyncToken => if decide (hr_Method r ∈ [bs "GET"; bs "HEAD"]) then Next c else Abort_with 403
        | _ => Next c
        end).
(** The order of api/router/api.go. *)
Definition api_chain : middleware := then_ RestrictMultiSyncTokenToRead Authenticator.

(** ** git over HTTP *)

(** *** user.go: no mark of deletion is looked at *)
Definition git_token (token : bytes) (t : AccessToken) : Prop :=
  t_Token t = token ∧ t_IsActive t = true ∧ match t_ExpiredAt t with Some e => now < e | None => True end ∧ t_Application t = AccessTokenAppGit.
#[export] Instance git_token_dec token t : Decision (git_token token t).
Proof. unfold git_token. apply and_dec; [apply _|apply and_dec; [apply _|apply and_dec; [destruct (t_ExpiredAt t); apply _|apply _]]]. Defined.
Definition FindByGitAccessToken (token : bytes) : tio User :=
  io_wrap HandleDBError (token_row (λ w, head (omap (λ t,
    if decide (git_token token t) then found_by (λ u, u_ID u = t_UserID t) (ac_users (tw_access w)) else None) (rows w)))).
Definition GetCurrentUserFromHeader : middleware := λ r c,
  let h := hr_Authorization r in
  if decide (h = []) then mret (Next c)
  else if HasPrefix h (bs "X-OPENCSG-Sync-Token") then mret (Next c)
  else if HasPrefix h (bs "Basic ") then
    match basic_parts (TrimPrefix h (bs "Basic ")) with
    | None => mret (Next c)
    | Some (Ret (username, token)) =>
        u ← io_try (FindByGitAccessToken token);
        mret (Next (match u with Ok u => if decide (u_Username u = username) then SetCurrentUser username c else c | Err _ => c end))
    | Some _ => tokens_panic
    end
  else if HasPrefix h (bs "Bearer ") then
    u ← io_try (FindByGitAccessToken (TrimPrefix h (bs "Bearer ")));
    mret (Next (match u with Ok u => SetCurrentUser (u_Username u) c | Err _ => c end))
  else mret (Next c).

(** Type, namespace and name the path of a request gives; what is refused is
    answered, and goes on without them. *)
Definition GitHTTPParamMiddleware (repo_type namespace name : bytes) : Z + bytes * bytes * bytes :=
  let repo_type := TrimSuffix repo_type (bs "s") in
  if decide (namespace = []) then inl 400
  else if decide (repo_type = []) then inl 400
  else if decide (name = [] ∨ TrimSuffix name (bs ".git") = []) then inl 400
  else inr (repo_type, namespace, TrimSuffix name (bs ".git")).
End auth.

Example decode_basic : DecodeString (bs "YWxpY2U6c2VjcmV0") = Some (bs "alice:secret") ∧ DecodeString (bs "YQ==") = Some (bs "a") ∧ DecodeString (bs "YQ=") = None.
Proof. vm_compute. done. Qed.
