(* ===== verification/AtAuthSpec.v ===== *)
(** What a user name in a request's context rests on, and what the middleware
    lets through. *)
From S2P Require Import Prelude GoLib GoJson GoTime Errorx AcAccess AcSpec AcMemberSpec AtToken AtTokenSpec AtAuth.
Open Scope Z_scope.

Section auth.
Variables (APIToken SigningKey : bytes) (parse_jwt : bytes → bytes → option (bytes * bytes)) (token_route : bytes → option (bytes * bytes)).
#[local] Instance everywhere_pre {W} : PreOrder (λ _ _ : W, True).
Proof. by split. Qed.
Abbreviation stays a l n := (moves (E := goerr) (at_tokens a l n) (λ _ _ : token_world, True)).

(** ** What the user service vouches for *)

(** A usable token of a live user. *)
Definition token_of (a : access) (l : list AccessToken) (value : bytes) (t : AccessToken) (u : User) : Prop :=
  t ∈ l ∧ t_Token t = value ∧ usable t ∧ live_user a (t_UserID t) = Some u.
Definition vouched (a : access) (l : list AccessToken) (token : bytes) (r : CheckAccessTokenResp) : Prop :=
  ∃ value app t u, token_route token = Some (value, app) ∧ token_of a l value t u ∧ r = to_resp t u.

Lemma stays_Check a l n value app : stays a l n (λ r, ∃ t u, token_of a l value t u ∧ r = to_resp t u) (Check_token value app).
Proof.
  eapply (moves_bind _ _ (λ tu, tu.1 ∈ l ∧ t_Token tu.1 = value ∧ usable tu.1 ∧ tu.2 = live_user a (t_UserID tu.1))).
  - apply moves_wrap. eapply moves_weaken; [apply stays_row|done|]. intros [t u] (w & (Ha & Hl & _) & Hf).
    destruct (found_by _ (rows w)) as [x|] eqn:Hx; [|done]. injection Hf as -> <-. apply found_by_Some in Hx as (Hin & Hv & Hu & _). by rewrite Ha, <- Hl.
  - intros [t [u|]] (Hin & Hv & Hu & Hlive); cbn in *; [|by intros w Hw]. apply moves_ret; [apply _|]. exists t, u. by split_and!.
Qed.
Lemma stays_Verify a l n token : stays a l n (vouched a l token) (VerifyByAccessToken token_route token).
Proof.
  intros w Hw. unfold VerifyByAccessToken. set (m := next_fault;; _). assert (stays a l n (vouched a l token) m) as Hm.
  { eapply moves_bind_true; [apply _|apply stays_fault|]. intros _. destruct (token_route token) as [[value app]|] eqn:Hr; [|by apply moves_fail; apply _].
    eapply (moves_bind _ _ (λ x : Z * option CheckAccessTokenResp, ∀ r, x.2 = Some r → vouched a l token r)).
    - eapply moves_bind; [apply _|apply moves_try, stays_Check|]. intros [r|e] HP; apply moves_ret; try apply _; cbn; [|done]. intros ? [= <-].
      destruct HP as (t & u & Ht & ->). by exists value, app, t, u.
    - intros [s [r|]] Hv; [|by apply moves_fail; apply _]. case_decide; [|by apply moves_fail; apply _]. apply moves_ret; [apply _|by apply Hv]. }
  destruct (Hm w Hw) as (HI & _ & HP). by destruct (m w) as [[x|e|] w'].
Qed.

(** ** A user name rests on a credential *)

Definition basic_token (h : bytes) : option (bytes * bytes) :=
  match basic_parts (TrimPrefix h (bs "Basic ")) with Some (Ret (u, p)) => Some (u, p) | _ => None end.
(** The API key, which may say who it acts for; a JWT; or an access token that
    the user service vouches for. *)
Inductive credential (a : access) (l : list AccessToken) (r : request) (user : bytes) : Prop :=
  | by_key : hr_Authorization r = bs "Bearer " ++ APIToken → user = hr_current_user r → credential a l r user
  | by_jwt t uuid : hr_Authorization r = bs "Bearer " ++ t → parse_jwt SigningKey t = Some (user, uuid) → credential a l r user
  | by_bearer t resp : hr_Authorization r = bs "Bearer " ++ t → vouched a l t resp → ck_Username resp = user → credential a l r user
  | by_basic p resp : basic_token (hr_Authorization r) = Some (user, p) → vouched a l p resp → ck_Username resp = user → credential a l r user.

Lemma prefixed h p : HasPrefix h p = true → h = p ++ TrimPrefix h p.
Proof.
  unfold HasPrefix, TrimPrefix. intros Hp. destruct (bool_decide_reflect (p `prefix_of` h)) as [[k ->]|]; [|done].
  unfold HasPrefix. rewrite bool_decide_eq_true_2 by (by exists k). by rewrite drop_app_length.
Qed.
Lemma at_here w : at_tokens (tw_access w) (rows w) (ts_next (tw_tokens w)) w.
Proof. done. Qed.

Lemma user_credential r w c : hr_session r = None → fst (Authenticator APIToken SigningKey parse_jwt token_route r no_user w) = Ret (Next c) →
  rc_user c ≠ [] → credential (tw_access w) (rows w) r (rc_user c).
Proof.
  intros Hs Hrun Hu. unfold Authenticator, isValidBrowserSession in Hrun. rewrite Hs in Hrun. case_decide as Hh; [by injection Hrun as <-|].
  assert (∀ token, stays (tw_access w) (rows w) (ts_next (tw_tokens w)) (λ c', ∀ c, c' = Some c → ∃ resp, vouched (tw_access w) (rows w) token resp ∧ ck_Username resp = rc_user c)
    (isValidAccessToken token_route token no_user)) as Hbearer.
  { intros token. eapply moves_bind; [apply _|apply moves_try, stays_Verify|]. intros [resp|e] HP; apply moves_ret; try apply _; [|done].
    intros c'. repeat case_decide; intros [= <-]; by exists resp. }
  destruct (HasPrefix _ (bs "Bearer ")) eqn:Hp.
  - apply prefixed in Hp. set (token := TrimPrefix _ _) in *. unfold isValidApiToken, isValidJWTToken in Hrun. case_decide as Hk.
    { rewrite Hk in Hp. assert (rc_user c = hr_current_user r) as Heq.
      { injection Hrun as <-. cbn in Hu |- *. by repeat case_decide. }
      by constructor. }
    case_decide as Hdot; [destruct (parse_jwt SigningKey token) as [[u uuid]|] eqn:Hj|]; cbn in Hrun.
    { injection Hrun as <-. by eapply by_jwt. }
    all: destruct (Hbearer token w (at_here w)) as (_ & _ & HP); unfold mbind, io_bind in Hrun;
      destruct (isValidAccessToken token_route token no_user w) as [[[c'|]|e|] w']; cbn in Hrun; try done; injection Hrun as ->;
      destruct (HP _ eq_refl c eq_refl) as (resp & Hv & Hn); by eapply by_bearer.
  - destruct (HasPrefix _ (bs "Basic ")) eqn:Hb; [|done]. unfold isValidBasicToken in Hrun.
    destruct (basic_parts _) as [[[u p]|[]|]|] eqn:Hparts; [|done..].
    destruct (stays_Verify (tw_access w) (rows w) _ p w (at_here w)) as (_ & _ & HP). unfold mbind, io_bind, io_try in Hrun.
    destruct (VerifyByAccessToken token_route p w) as [[resp|e|] w'] eqn:Hv; cbn in Hrun; [|done..]. case_decide as Hn; [|done].
    injection Hrun as <-. eapply (by_basic _ _ _ _ p resp); [unfold basic_token; by rewrite Hparts|by apply HP|done].
Qed.

(** C29: Without a browser session the middleware puts a user name into a
    request's context only for a credential: the API key, a JWT that verifies,
    or a usable access token of that user, whatever calls fail. *)
Theorem user_needs_credential r w c : hr_session r = None → fst (Authenticator APIToken SigningKey parse_jwt token_route r no_user w) = Ret (Next c) →
  rc_user c ≠ [] → credential (tw_access w) (rows w) r (rc_user c).
Proof. exact (user_credential r w c). Qed.

(** ** git over HTTP *)

Definition header_token (h : bytes) : option bytes :=
  if HasPrefix h (bs "Basic ") then snd <$> basic_token h else if HasPrefix h (bs "Bearer ") then Some (TrimPrefix h (bs "Bearer ")) else None.
Lemma stays_git a l n now token : stays a l n (λ u, ∃ t, t ∈ l ∧ git_token now token t ∧ u ∈ ac_users a ∧ u_ID u = t_UserID t) (FindByGitAccessToken now token).
Proof.
  apply moves_wrap. eapply moves_weaken; [apply stays_row|done|]. intros u (w & (Ha & Hl & _) & Hf). apply head_Some_elem_of, list_elem_of_omap in Hf as (t & Ht & Hu).
  case_decide as Hg; [|done]. apply found_by_Some in Hu as (Hu & Hid). rewrite Ha, Hl in *. by exists t.
Qed.
(** The user name of a request of git is that of a row the token names. *)
Lemma git_user_holds_token now r w c : fst (GetCurrentUserFromHeader now r no_user w) = Ret (Next c) → rc_user c ≠ [] →
  ∃ token t u, header_token (hr_Authorization r) = Some token ∧ t ∈ rows w ∧ git_token now token t ∧ u ∈ ac_users (tw_access w) ∧ u_ID u = t_UserID t ∧ u_Username u = rc_user c.
Proof.
  intros Hrun Hu. unfold GetCurrentUserFromHeader in Hrun. unfold header_token, basic_token. case_decide as Hh; [by injection Hrun as <-|].
  destruct (HasPrefix _ (bs "X-OPENCSG-Sync-Token")) eqn:Hx; [by injection Hrun as <-|]. destruct (HasPrefix _ (bs "Basic ")) eqn:Hb.
  - destruct (basic_parts _) as [[[user token]|[]|]|] eqn:Hparts; [|done|by injection Hrun as <-].
    destruct (stays_git (tw_access w) (rows w) _ now token w (at_here w)) as (_ & _ & HP). unfold mbind, io_bind, io_try in Hrun.
    destruct (FindByGitAccessToken now token w) as [[u|e|] w'] eqn:Hf; cbn in Hrun; [|by injection Hrun as <-|done].
    case_decide as Hn; [|by injection Hrun as <-]. injection Hrun as <-. destruct (HP u eq_refl) as (t & Ht & Hg & Huu & Hid). by exists token, t, u.
  - destruct (HasPrefix _ (bs "Bearer ")) eqn:Hp; [|by injection Hrun as <-].
    destruct (stays_git (tw_access w) (rows w) _ now (TrimPrefix (hr_Authorization r) (bs "Bearer ")) w (at_here w)) as (_ & _ & HP). unfold mbind, io_bind, io_try in Hrun.
    destruct (FindByGitAccessToken now _ w) as [[u|e|] w'] eqn:Hf; cbn in Hrun; [|by injection Hrun as <-|done].
    injection Hrun as <-. destruct (HP u eq_refl) as (t & Ht & Hg & Huu & Hid). by eexists _, t, u.
Qed.
End auth.
