(* ===== verification/AtGapSpec.v ===== *)
(** Undisturbed runs of tokens and middleware: what a token is worth, and the
    limits it is meant to have and does not. *)
From S2P Require Import Prelude GoLib GoJson GoTime GoFloat Sensitive GwModeration GwRoute GwModels GwModelsSpec GwListing GwChat Errorx AcAccess AcSpec AcMemberSpec AcRulesSpec GitHttp GitHttpSpec GitRulesSpec AtToken AtTokenSpec AtAuth AtAuthSpec.
Open Scope Z_scope.

(** ** Runs *)

Lemma gives_token_read {A} (f : token_world → A) w : undisturbed w → gives (token_read f) w (f w).
Proof. intros Hw. eapply gives_bind; [by apply gives_fault|done]. Qed.
Lemma gives_token_row {A} (f : token_world → option A) w x : undisturbed w → f w = Some x → gives (token_row f) w x.
Proof. intros Hw Hx. eapply gives_bind; [by apply gives_token_read|]. by rewrite Hx. Qed.
Lemma found_value w t app : NoDup (t_Token <$> rows w) → t ∈ rows w → usable t → app = [] ∨ t_Application t = app →
  found_by (λ x, t_Token x = t_Token t ∧ usable x ∧ (app = [] ∨ t_Application x = app)) (rows w) = Some t.
Proof.
  intros Hv Ht Hu Happ. destruct (found_by _ _) as [x|] eqn:Hx.
  - apply found_by_Some in Hx as (Hin & Heq & _). f_equal. by apply (keyed_eq t_Token _ _ _ Hv).
  - by destruct (found_by_None _ _ Hx t Ht).
Qed.
Lemma gives_Check w t u app : undisturbed w → NoDup (t_Token <$> rows w) → t ∈ rows w → usable t → app = [] ∨ t_Application t = app →
  live_user (tw_access w) (t_UserID t) = Some u → gives (Check_token (t_Token t) app) w (to_resp t u).
Proof.
  intros Hw Hv Ht Hu Happ Hlive. unfold Check_token. eapply gives_bind.
  - apply gives_wrap, gives_token_row; [done|]. by rewrite (found_value w t app) by done.
  - cbn. by rewrite Hlive.
Qed.
Lemma run_token_Create w t : undisturbed w → t_Token t ∉ t_Token <$> rows w → token_Create t w = (Ret tt, on_tokens (add_row (with_id (ts_next (tw_tokens w)) t)) w).
Proof.
  intros Hw Hv. unfold token_Create. rewrite (run_gives _ _ w tt) by (by apply gives_fault).
  change ((io_gets tw_tokens ≫= ?f) w) with (f (tw_tokens w) w). cbv beta. by rewrite decide_False.
Qed.
Section tokens.
Variables (new_uuid : nat → bytes) (now : Z) (has_git : bool).

(** The value drawn next. *)
Definition next_value (w : token_world) : bytes := ReplaceAll (new_uuid (ts_drawn (tw_tokens w))) (bs "-") [].
(** A time in the past is dropped, except by the git server. *)
Definition stored_expiry (app : bytes) (e : option Z) : option Z := if after_now now e || (bool_decide (app = AccessTokenAppGit) && has_git) then e else None.
Definition made (w : token_world) (req : CreateUserTokenRequest) (u : User) (t : AccessToken) : Prop :=
  t_Token t = next_value w ∧ t_Name t = cr_TokenName req ∧ t_UserID t = u_ID u ∧ t_Application t = cr_Application req ∧ t_Permission t = cr_Permission req ∧
  t_ExpiredAt t = stored_expiry (cr_Application req) (cr_ExpiredAt req).
Lemma run_new_token w req u : ∃ t, new_token new_uuid now has_git req u w = (Ret t, on_tokens draw w) ∧ made w req u t.
Proof.
  unfold new_token, made, stored_expiry, git_CreateUserToken, genUnique. case_decide as Happ; [destruct has_git|].
  all: eexists; split; [reflexivity|]; rewrite ?(bool_decide_eq_true_2 _ Happ), ?(bool_decide_eq_false_2 _ Happ); cbn; rewrite ?orb_true_r, ?orb_false_r;
    by destruct (after_now now (cr_ExpiredAt req)).
Qed.
(** The rows, and what else stays. *)
Definition has_rows (a : access) (l : list AccessToken) (w : token_world) : Prop := tw_access w = a ∧ rows w = l ∧ undisturbed w.
Lemma run_Create w req u : undisturbed w → found_by (λ u, u_Username u = cr_Username req ∧ u_Deleted u = false) (ac_users (tw_access w)) = Some u →
  ¬ List.Exists (λ t, owned_by (tw_access w) (cr_Username req) t ∧ named (cr_TokenName req) (cr_Application req) t ∧ t_Deleted t = false) (rows w) →
  next_value w ∉ t_Token <$> rows w →
  ∃ t w', Create new_uuid now has_git req w = (Ret t, w') ∧ made w req u t ∧ has_rows (tw_access w) (rows w ++ [with_id (ts_next (tw_tokens w)) t]) w'.
Proof.
  intros Hw Hu Hno Hv. unfold Create. rewrite (run_gives _ _ w u) by (by apply gives_wrap, gives_user).
  rewrite (run_gives _ _ w false). 2: { apply gives_wrap. unfold token_IsExist. pose proof (gives_token_read (λ w, bool_decide (List.Exists (λ t, owned_by (tw_access w) (cr_Username req) t ∧
    named (cr_TokenName req) (cr_Application req) t ∧ t_Deleted t = false) (rows w))) w Hw) as Hr. cbv beta in Hr. by rewrite (bool_decide_eq_false_2 _ Hno) in Hr. }
  destruct (run_new_token w req u) as (t & Hrun & Ht). erewrite run_seq by exact Hrun. exists t. set (w1 := on_tokens draw w). assert (undisturbed w1) as Hw1 by done.
  assert (token_Create t w1 = (Ret tt, on_tokens (add_row (with_id (ts_next (tw_tokens w1)) t)) w1)) as Hc by (apply run_token_Create; [done|by rewrite (proj1 Ht)]).
  set (w2 := on_tokens _ w1) in Hc. assert (has_rows (tw_access w) (rows w ++ [with_id (ts_next (tw_tokens w)) t]) w2) as Hrows by done.
  assert (∃ w3, createUserToken t u w1 = (Ret tt, w3) ∧ has_rows (tw_access w) (rows w ++ [with_id (ts_next (tw_tokens w)) t]) w3) as (w3 & Hrun3 & Hrows3).
  { unfold createUserToken. rewrite (run_seq _ _ w1 tt w2) by (unfold io_wrap; by rewrite Hc). by case_decide; exists w2. }
  rewrite (run_seq _ _ w1 tt w3) by (unfold io_wrap; by rewrite Hrun3). exists w3. split; [by case_decide|done].
Qed.

(** A token that is created is one that checks, undisturbed: its value
    gives back the user, the name, the application, the permission and, unless
    it was past, the expiry it was created with. *)
Theorem created_token_checks w req u app : undisturbed w → users_ok (tw_access w) → NoDup (t_Token <$> rows w) →
  found_by (λ u, u_Username u = cr_Username req ∧ u_Deleted u = false) (ac_users (tw_access w)) = Some u →
  ¬ List.Exists (λ t, owned_by (tw_access w) (cr_Username req) t ∧ named (cr_TokenName req) (cr_Application req) t ∧ t_Deleted t = false) (rows w) →
  next_value w ∉ t_Token <$> rows w → app = [] ∨ app = cr_Application req →
  let '(res, w') := Create new_uuid now has_git req w in
  (∃ t, res = Ret t ∧ t_Token t = next_value w) ∧
  fst (Check_token (next_value w) app w') = Ret (mk_check (next_value w) (cr_TokenName req) (cr_Application req) (cr_Permission req) (cr_Username req) (u_UUID u)
    (stored_expiry (cr_Application req) (cr_ExpiredAt req))).
Proof.
  intros Hw Husers Hv Hu Hno Hfresh Happ. destruct (run_Create w req u Hw Hu Hno Hfresh) as (t & w' & Hrun & (Hval & Hname & Hid & Ha & Hp & He) & (Hacc & Hrows & Hw')).
  rewrite Hrun. split; [by exists t|]. set (t' := with_id (ts_next (tw_tokens w)) t). destruct (found_live _ _ _ Husers Hu) as (Hlive & Hn).
  assert (gives (Check_token (t_Token t') app) w' (to_resp t' u)) as Hc.
  { apply gives_Check; [done| | |by split| |].
    - rewrite Hrows, fmap_app. apply NoDup_app. split_and!; [done| |apply NoDup_singleton]. intros x Hx ->%list_elem_of_singleton. apply Hfresh. cbn in Hx. by rewrite <- Hval.
    - rewrite Hrows. apply elem_of_app. right. by left.
    - destruct Happ as [->| ->]; [by left|right]. exact Ha.
    - cbn. by rewrite Hacc, Hid. }
  cbn [t' with_id t_Token] in Hc. rewrite Hval in Hc. unfold gives in Hc. rewrite Hc. cbn. unfold to_resp. cbn. by rewrite Hval, Hname, Ha, Hp, He, Hn.
Qed.

(** *** Refreshing *)

Definition token_named (w : token_world) (user name app : bytes) : option (AccessToken * User) :=
  head (omap (λ t, u ← user_named (tw_access w) user t; if decide (named name app t ∧ usable t) then Some (t, u) else None) (rows w)).
Definition refreshed_row (w : token_world) (t : AccessToken) (e : option Z) : AccessToken :=
  with_id (ts_next (tw_tokens w)) (replaced t (next_value w) (if after_now now e then e else t_ExpiredAt t)).
Lemma run_Refresh w user name app e t u : undisturbed w → token_named w user name app = Some (t, u) → next_value w ∉ t_Token <$> rows w →
  t_Application t ≠ [] → (has_git = true ∨ t_Application t ≠ AccessTokenAppGit) →
  ∃ w', RefreshToken new_uuid now has_git user name app e w = (Ret (to_resp (refreshed_row w t e) u), w') ∧
    has_rows (tw_access w) ((disable t <$> rows w) ++ [refreshed_row w t e]) w'.
Proof.
  intros Hw Ht Hv Happ Hgit. unfold RefreshToken. rewrite (run_gives _ _ w (t, u)) by (by apply gives_wrap, gives_token_row). cbv beta iota.
  set (w1 := on_tokens draw w). assert (undisturbed w1) as Hw1 by done. rewrite (run_seq _ _ w (next_value w) w1).
  2: { case_decide as Hg; [|done]. assert (has_git = true) as Htrue by (destruct Hg as [?|Hg]; [done|by destruct Hgit]).
    unfold git_DeleteUserToken. rewrite Htrue. done. }
  assert (token_Refresh now t (next_value w) e w1 = (Ret (refreshed_row w t e),
    on_tokens (λ s, add_row (with_id (ts_next s) (replaced t (next_value w) (if after_now now e then e else t_ExpiredAt t))) (set_rows (fmap (disable t)) s)) w1)) as Hrun.
  { unfold token_Refresh. pose proof (gives_fault w1 Hw1) as Hf. rewrite (run_gives _ _ w1 (Ok tt)) by (by apply gives_try; eapply gives_bind). cbv zeta.
    rewrite (run_gives _ _ w1 tt). 2: { apply gives_wrap. eapply gives_bind; [done|]. unfold gives. change ((io_gets tw_tokens ≫= ?f) w1) with (f (tw_tokens w1) w1). cbv beta. by rewrite decide_False. }
    by rewrite (run_gives _ _ w1 tt). }
  erewrite run_seq by (unfold io_wrap; by rewrite Hrun). eexists. split; [reflexivity|]. done.
Qed.

Lemma token_named_Some w user name app t u : token_named w user name app = Some (t, u) →
  t ∈ rows w ∧ usable t ∧ named name app t ∧ live_user (tw_access w) (t_UserID t) = Some u ∧ u_Username u = user.
Proof.
  intros (x & Hx & Hf)%head_Some_elem_of%list_elem_of_omap. destruct (user_named _ _ x) as [v|] eqn:Hv; [|done]. cbn in Hf. case_decide as Hd; [|done].
  injection Hf as -> ->. apply user_named_Some in Hv as (? & ?). by destruct Hd.
Qed.
(** The rows after a refresh: the old value is of no use, the new one is. *)
Lemma refreshed_values w w' t e : tokens_ok (rows w, ts_next (tw_tokens w)) → t ∈ rows w → usable t → next_value w ∉ t_Token <$> rows w →
  rows w' = (disable t <$> rows w) ++ [refreshed_row w t e] →
  NoDup (t_Token <$> rows w') ∧ refreshed_row w t e ∈ rows w' ∧ ∀ x, x ∈ rows w' → t_Token x = t_Token t → ¬ usable x.
Proof.
  intros Hok Ht Hu Hv Hrows. destruct (disable_ok _ _ t Hok) as (_ & HT). destruct Hok as (Hnd & _). cbn in Hnd. rewrite Hrows. split_and!.
  - rewrite fmap_app, HT. apply NoDup_app. split_and!; [done| |apply NoDup_singleton]. by intros x Hx ->%list_elem_of_singleton.
  - apply elem_of_app. right. by left.
  - intros x [(y & -> & Hy)%list_elem_of_fmap|Hx%list_elem_of_singleton]%elem_of_app Heq.
    + rewrite (proj1 (proj2 (disable_fields t y))) in Heq. assert (y = t) as -> by (by apply (keyed_eq t_Token _ _ _ Hnd)). intros (_ & Hno)%disable_usable. by apply Hno.
    + subst x. cbn in Heq. intros _. apply Hv. rewrite Heq. apply list_elem_of_fmap. by exists t.
Qed.

(** C31: Refreshing a token, undisturbed, gives a new value with the old name,
    application, permission and user, and the expiry that was asked for, or the
    old one when none or a past one was; from then on the new value checks and
    the old one does not. *)
Theorem refreshed_token_replaces w user name app e t u : undisturbed w → tokens_ok (rows w, ts_next (tw_tokens w)) →
  token_named w user name app = Some (t, u) → next_value w ∉ t_Token <$> rows w → app ≠ [] → (has_git = true ∨ app ≠ AccessTokenAppGit) →
  let '(res, w') := RefreshToken new_uuid now has_git user name app e w in
  let resp := mk_check (next_value w) name app (t_Permission t) user (u_UUID u) (if after_now now e then e else t_ExpiredAt t) in
  res = Ret resp ∧ fst (Check_token (next_value w) [] w') = Ret resp ∧
  fst (Check_token (t_Token t) [] w') = Fail (wrap "failed to find database user access token,error:" ErrNoRows).
Proof.
  intros Hw Hok Ht Hv Happ Hgit. destruct (token_named_Some _ _ _ _ _ _ Ht) as (Hin & Hu & (Hname & Ha) & Hlive & Hun).
  destruct (run_Refresh w user name app e t u Hw Ht Hv) as (w' & Hrun & (Hacc & Hrows & Hw')); [by rewrite Ha|by rewrite Ha|].
  rewrite Hrun. cbv zeta. assert (to_resp (refreshed_row w t e) u = mk_check (next_value w) name app (t_Permission t) user (u_UUID u) (if after_now now e then e else t_ExpiredAt t)) as Hresp.
  { unfold to_resp. cbn. by rewrite Hname, Ha, Hun. }
  destruct (refreshed_values w w' t e Hok Hin Hu Hv Hrows) as (Hnd & Hnew & Hold). split_and!; [by rewrite Hresp| |].
  - assert (gives (Check_token (t_Token (refreshed_row w t e)) []) w' (to_resp (refreshed_row w t e) u)) as Hc by (apply gives_Check; [done|done|done|by split|by left|by rewrite Hacc]).
    rewrite Hresp in Hc. unfold gives in Hc. cbn [refreshed_row with_id replaced t_Token] in Hc. by rewrite Hc.
  - assert (FindByToken (t_Token t) [] w' = (Fail ErrNoRows, w')) as Hf.
    { unfold FindByToken, token_row. erewrite run_gives by (by apply gives_token_read). cbv beta.
      destruct (found_by _ (rows w')) as [x|] eqn:Hx; [|done]. apply found_by_Some in Hx as (Hx & Heq & Hux & _). by destruct (Hold x Hx Heq). }
    unfold Check_token, mbind, io_bind, io_wrap. by rewrite Hf.
Qed.

(** A refresh whose transaction does not get through its first statement
    panics: the copy that was to be made is dereferenced. *)
Theorem failed_refresh_panics w user name app e t u f : get_faults w = None :: Some f :: [] → token_named w user name app = Some (t, u) →
  t_Application t ∉ [[]; AccessTokenAppGit] → fst (RefreshToken new_uuid now has_git user name app e w) = Panic.
Proof.
  intros Hf Ht Happ. destruct w as [a fs ts]. cbn in Hf. subst fs. unfold RefreshToken, io_wrap, FindByTokenName, token_row, token_read, mbind, io_bind, next_fault. cbn [get_faults token_world_faulty tw_faults set_faults io_gets].
  change (head (omap _ _)) with (token_named (mk_tw a [Some f] ts) user name app). assert (token_named (mk_tw a [Some f] ts) user name app = Some (t, u)) as -> by exact Ht.
  cbn [mret io_ret]. rewrite decide_False by set_solver. reflexivity.
Qed.
End tokens.

(** ** What a token is taken for *)

Section auth.
Variables (APIToken SigningKey : bytes) (parse_jwt : bytes → bytes → option (bytes * bytes)) (token_route : bytes → option (bytes * bytes)).
Abbreviation authenticate := (Authenticator APIToken SigningKey parse_jwt token_route).

Lemma gives_Verify w t u : undisturbed w → NoDup (t_Token <$> rows w) → t ∈ rows w → usable t → live_user (tw_access w) (t_UserID t) = Some u →
  token_route (t_Token t) = Some (t_Token t, []) → gives (VerifyByAccessToken token_route (t_Token t)) w (to_resp t u).
Proof.
  intros Hw Hv Ht Hu Hlive Hr. unfold gives, VerifyByAccessToken. rewrite (run_gives _ _ w tt) by (by apply gives_fault). rewrite Hr.
  rewrite (run_gives _ _ w (200, Some (to_resp t u))); [done|]. eapply gives_bind; [apply gives_try, gives_Check; eauto|done].
Qed.
(** A request with a token in its header, as bearer or as password. *)
Definition bearer (method token : bytes) : request := mk_request None (bs "Bearer " ++ token) [] [] [] method.
Definition basic (method encoded : bytes) : request := mk_request None (bs "Basic " ++ encoded) [] [] [] method.
Lemma trim_prefix p x : TrimPrefix (p ++ x) p = x.
Proof. unfold TrimPrefix, HasPrefix. rewrite bool_decide_eq_true_2 by (by exists x). by rewrite drop_app_length. Qed.
Lemma has_prefix p x : HasPrefix (p ++ x) p = true.
Proof. apply bool_decide_eq_true_2. by exists x. Qed.
Definition auth_of (app : bytes) : AuthType := if decide (app = AccessTokenAppMirror) then AuthTypeMultiSyncToken else AuthTypeAccessToken.
Lemma run_bearer w m t u c : undisturbed w → NoDup (t_Token <$> rows w) → t ∈ rows w → usable t → live_user (tw_access w) (t_UserID t) = Some u →
  token_route (t_Token t) = Some (t_Token t, []) → t_Token t ≠ APIToken → Contains (t_Token t) (bs ".") = false →
  t_Application t ∈ [AccessTokenAppGit; AccessTokenAppAIGateway; AccessTokenAppMirror] →
  authenticate (bearer m (t_Token t)) c w = (Ret (Next (mk_ctx (u_Username u) (u_UUID u) (t_Token t) (auth_of (t_Application t)))), w).
Proof.
  intros Hw Hv Ht Hu Hlive Hr Hkey Hdot Happ. unfold Authenticator. cbn [bearer hr_Authorization isValidBrowserSession hr_session]. rewrite decide_False by done.
  rewrite has_prefix, trim_prefix. unfold isValidApiToken, isValidJWTToken. rewrite decide_False by done. rewrite decide_False by (by rewrite Hdot).
  unfold isValidAccessToken. unfold mbind at 1, io_bind at 1. rewrite (run_gives _ _ w (Ok (to_resp t u))) by (by apply gives_try, gives_Verify).
  cbn [mret io_ret to_resp ck_Application]. rewrite !elem_of_cons in Happ. destruct Happ as [->|[->|[->|[]%not_elem_of_nil]]]; reflexivity.
Qed.
Lemma run_basic w m s t u c : undisturbed w → NoDup (t_Token <$> rows w) → t ∈ rows w → usable t → live_user (tw_access w) (t_UserID t) = Some u →
  token_route (t_Token t) = Some (t_Token t, []) → basic_parts s = Some (Ret (u_Username u, t_Token t)) →
  authenticate (basic m s) c w = (Ret (Next (mk_ctx (u_Username u) (u_UUID u) (rc_token c) (rc_auth c))), w).
Proof.
  intros Hw Hv Ht Hu Hlive Hr Hs. unfold Authenticator. cbn [basic hr_Authorization isValidBrowserSession hr_session]. rewrite decide_False by done.
  assert (HasPrefix (bs "Basic " ++ s) (bs "Bearer ") = false) as ->. { apply bool_decide_eq_false_2. by intros [k ?]. }
  rewrite has_prefix, trim_prefix. unfold isValidBasicToken. rewrite Hs.
  unfold mbind at 1, io_bind at 1. rewrite (run_gives _ _ w (Ok (to_resp t u))) by (by apply gives_try, gives_Verify).
  cbn [mret io_ret to_resp ck_Username]. by rewrite decide_True.
Qed.

(** What git makes of a bearer token. *)
Lemma bearer_header now m token : GetCurrentUserFromHeader now (bearer m token) no_user =
  (u ← io_try (FindByGitAccessToken now token); mret (Next (match u with Ok u => SetCurrentUser (u_Username u) no_user | Err _ => no_user end))).
Proof.
  unfold GetCurrentUserFromHeader. cbn [bearer hr_Authorization]. rewrite decide_False by done.
  assert (∀ p : bytes, p = bs "X-OPENCSG-Sync-Token" ∨ p = bs "Basic " → HasPrefix (bs "Bearer " ++ token) p = false) as Hno.
  { intros p Hp. apply bool_decide_eq_false_2. intros [x Hx]. by destruct Hp as [-> | ->]. }
  rewrite !Hno by auto. by rewrite has_prefix, trim_prefix.
Qed.

(** A token that has expired still authenticates its user to every service
    that asks the user service, while git refuses it. *)
Theorem expired_token_authenticates now w m t u e : undisturbed w → NoDup (t_Token <$> rows w) → t ∈ rows w → usable t →
  live_user (tw_access w) (t_UserID t) = Some u → t_Application t = AccessTokenAppGit → t_ExpiredAt t = Some e → e ≤ now →
  token_route (t_Token t) = Some (t_Token t, []) → t_Token t ≠ APIToken → Contains (t_Token t) (bs ".") = false →
  authenticate (bearer m (t_Token t)) no_user w = (Ret (Next (mk_ctx (u_Username u) (u_UUID u) (t_Token t) AuthTypeAccessToken)), w) ∧
  GetCurrentUserFromHeader now (bearer m (t_Token t)) no_user w = (Ret (Next no_user), w).
Proof.
  intros Hw Hv Ht Hu Hlive Happ He Hpast Hr Hkey Hdot. split.
  - rewrite (run_bearer w m t u) by (done || by rewrite Happ; left). by rewrite Happ.
  - rewrite bearer_header.
    assert (FindByGitAccessToken now (t_Token t) w = (Fail (HandleDBError ErrNoRows), w)) as Hf.
    { unfold FindByGitAccessToken, token_row, io_wrap. erewrite run_gives by (by apply gives_token_read). cbv beta.
      destruct (head _) as [v|] eqn:Hh; [|done]. apply head_Some_elem_of, list_elem_of_omap in Hh as (x & Hx & Hh). case_decide as Hg; [|done].
      destruct Hg as (Heq & _ & Hexp & _). assert (x = t) as -> by (by apply (keyed_eq t_Token _ _ _ Hv)). rewrite He in Hexp. lia. }
    unfold mbind, io_bind, io_try. by rewrite Hf.
Qed.

(** The restriction of mirror tokens to reading never applies: the router
    puts it before the authentication, whose result it reads, so a request that
    writes passes; behind the authentication it would refuse the bearer, and
    still let the same token pass as a password. *)
Theorem mirror_token_writes w s t u : undisturbed w → NoDup (t_Token <$> rows w) → t ∈ rows w → usable t →
  live_user (tw_access w) (t_UserID t) = Some u → t_Application t = AccessTokenAppMirror →
  token_route (t_Token t) = Some (t_Token t, []) → t_Token t ≠ APIToken → Contains (t_Token t) (bs ".") = false →
  basic_parts s = Some (Ret (u_Username u, t_Token t)) →
  let post := bs "POST" in let behind := then_ authenticate RestrictMultiSyncTokenToRead in
  api_chain APIToken SigningKey parse_jwt token_route (bearer post (t_Token t)) no_user w =
    (Ret (Next (mk_ctx (u_Username u) (u_UUID u) (t_Token t) AuthTypeMultiSyncToken)), w) ∧
  behind (bearer post (t_Token t)) no_user w = (Ret (Abort_with 403), w) ∧
  behind (basic post s) no_user w = (Ret (Next (mk_ctx (u_Username u) (u_UUID u) [] AuthTypeNone)), w).
Proof.
  intros Hw Hv Ht Hu Hlive Happ Hr Hkey Hdot Hs post behind.
  assert (∀ m c, authenticate (bearer m (t_Token t)) c w = (Ret (Next (mk_ctx (u_Username u) (u_UUID u) (t_Token t) AuthTypeMultiSyncToken)), w)) as Hb.
  { intros m c. rewrite (run_bearer w m t u) by (done || rewrite Happ; set_solver). by rewrite Happ. }
  split_and!.
  - unfold api_chain, then_. erewrite run_seq by reflexivity. cbn. apply Hb.
  - unfold behind, then_. by erewrite run_seq by apply Hb.
  - unfold behind, then_. by erewrite run_seq by (by eapply run_basic).
Qed.

(** The git token of an account that is closed still names its user to git:
    the lookup sees neither that the token nor that the user is deleted. *)
Theorem closed_account_named_to_git now w m t u : undisturbed w → NoDup (t_Token <$> rows w) → users_ok (tw_access w) → t ∈ rows w → git_token now (t_Token t) t →
  t_Deleted t = true → u ∈ ac_users (tw_access w) → u_Deleted u = true → u_ID u = t_UserID t →
  GetCurrentUserFromHeader now (bearer m (t_Token t)) no_user w = (Ret (Next (SetCurrentUser (u_Username u) no_user)), w).
Proof.
  intros Hw Hv Husers Ht Hg _ Hu _ Hid. rewrite bearer_header.
  assert (gives (FindByGitAccessToken now (t_Token t)) w u) as Hf; [|by rewrite (run_gives _ _ w (Ok u)) by (by apply gives_try)].
  apply gives_wrap, gives_token_row; [done|]. destruct (head _) as [v|] eqn:Hh.
  - apply head_Some_elem_of, list_elem_of_omap in Hh as (x & Hx & Hh). case_decide as Hgx; [|done]. destruct Hgx as (Heq & _).
    assert (x = t) as -> by (by apply (keyed_eq t_Token _ _ _ Hv)).
    apply found_by_Some in Hh as (Hvu & Hvid). f_equal. by apply (keyed_eq u_ID _ _ _ Husers); [..|congruence].
  - exfalso. apply head_None in Hh. destruct (found_by (λ u, u_ID u = t_UserID t) (ac_users (tw_access w))) as [v|] eqn:Hfv.
    + assert (v ∈ omap (λ t0, if decide (git_token now (t_Token t) t0) then found_by (λ u, u_ID u = t_UserID t0) (ac_users (tw_access w)) else None) (rows w)) as Hin.
      { apply list_elem_of_omap. exists t. split; [done|]. by rewrite decide_True. }
      rewrite Hh in Hin. by apply not_elem_of_nil in Hin.
    + by destruct (found_by_None _ _ Hfv u Hu).
Qed.
End auth.

(** * Tokens and what they open: git over HTTP and the AI gateway. *)

(** ** git over HTTP: the path, the header, the operation *)

Section git.
Variables (LOWER : bytes → bytes) (unicode_lower : Z → Z) (put_takes : bytes → Z → result bytes goerr)
  (presign_get : bytes → gmap bytes bytes → bytes) (xnet_presign_get : bytes → bytes) (presign_put : bytes → gmap bytes bytes → bytes)
  (upload_id : nat → bytes) (assembled : bytes → list (Z * bytes) → result bytes goerr) (s3_status : goerr → option Z)
  (today : bytes) (now : Z) (config : git_config)
  (APIToken SigningKey : bytes) (parse_jwt : bytes → bytes → option (bytes * bytes)) (token_route : bytes → option (bytes * bytes)).
Abbreviation served := (serve LOWER unicode_lower put_takes presign_get xnet_presign_get presign_put upload_id assembled s3_status today now config).

(** Where the router mounts the handlers: at a repository's address, for the
    kits of other hubs (/hf, /ms and /csg, with a group for datasets), and the
    completion of uploads by itself. *)
Inductive git_mount := AtRepository (repo_type namespace name : bytes) | ForKits (dataset : bool) (namespace name : bytes) | Completion.
(** Under the kits' mounts the batch reads the path; the other handlers read
    names that only the middleware of the first mount sets. *)
Definition kit_names (dataset : bool) (namespace name : bytes) (o : git_op) : option (bytes * bytes * bytes) :=
  match o with
  | GBatch _ _ _ _ _ => Some (if dataset then bs "dataset" else bs "model", namespace, ReplaceAll name (bs ".git") [])
  | GUpload _ _ _ | GDownload _ _ | GVerify _ => Some ([], [], [])
  | _ => None
  end.
Definition no_route : goerr := HTTPError 404 (bs "404 page not found").
Definition refused (status : Z) : goerr := HTTPError status [].

(** Both sides see the same users. A path that is refused is answered, and the
    handler runs without the names. *)
Definition git_request (r : request) (m : git_mount) (o : git_op) (tw : token_world) (gw : git_world) : outcome goerr unit * git_world :=
  match m with
  | AtRepository repo_type namespace name =>
      let '(ty, ns, nm) := match GitHTTPParamMiddleware repo_type namespace name with inl _ => ([], [], []) | inr names => names end in
      match o with
      | GCompleteMultipartUpload _ _ _ _ _ => (Fail no_route, gw)
      | _ =>
          match fst (GetCurrentUserFromHeader now r no_user tw) with
          | Ret (Next c) => served (mk_caller ty ns nm (rc_user c)) o gw
          | _ => (Panic, gw)
          end
      end
  | ForKits dataset namespace name =>
      match kit_names dataset namespace name o with
      | None => (Fail no_route, gw)
      | Some (ty, ns, nm) =>
          match fst (api_chain APIToken SigningKey parse_jwt token_route r no_user tw) with
          | Ret (Next c) => served (mk_caller ty ns nm (rc_user c)) o gw
          | Ret (Abort_with status) => (Fail (refused status), gw)
          | _ => (Panic, gw)
          end
      end
  | Completion =>
      match o with
      | GCompleteMultipartUpload _ _ _ _ _ => served (mk_caller [] [] [] []) o gw
      | _ => (Fail no_route, gw)
      end
  end.


Lemma may_nowhere a user needed : (∀ n, n ∈ ac_namespaces a → ns_Path n ≠ []) → ¬ may a user [] needed.
Proof. intros Hpaths (u & n & _ & (Hin & Hn)%found_by_Some & _). by destruct (Hpaths n Hin). Qed.


(** Under the kits' mounts nothing can be uploaded, downloaded or verified:
    the handlers there look for a repository without type, namespace and name. *)
Theorem kits_only_batch r dataset namespace name o tw gw : (∀ n, n ∈ ac_namespaces (gw_access gw) → ns_Path n ≠ []) →
  (∀ x, x ∈ ac_repos (gw_access gw) → rp_Type x ≠ []) → fst (git_request r (ForKits dataset namespace name) o tw gw) = Ret tt →
  ∃ operation transfers objects auth up, o = GBatch operation transfers objects auth up.
Proof.
  intros Hpaths Htypes Hr. unfold git_request in Hr. destruct (kit_names _ _ _ _) as [[[ty ns] nm]|] eqn:Hk; [|done].
  destruct (fst (api_chain _ _ _ _ r no_user tw)) as [[c|st']|e|]; try done. apply served_entitled in Hr.
  assert (∀ x, repo_at LOWER (gw_access gw) [] [] [] = Some x → False) as Hnone by (intros x (Hin & Ht & _)%found_by_Some; by destruct (Htypes x Hin)).
  destruct o; try done; [by eauto 6|injection Hk as <- <- <-..].
  - by destruct (may_nowhere _ _ _ Hpaths Hr).
  - destruct Hr as (x & _ & _ & Hx & _). by destruct (Hnone x Hx).
  - destruct Hr as (x & Hx & _). by destruct (Hnone x Hx).
Qed.
End git.

(** ** The AI gateway: the models of a key *)

Section gateway.
Context {W : Type} `{!Moderation W}.
Variables (new_uuid : nat → bytes) (now : Z) (has_git : bool).

(** A row as the gateway's store loads it. *)
Definition to_gateway (t : AccessToken) : GwChat.AccessToken := mk_token (t_Token t) (t_Application t) (t_IsActive t && negb (t_Deleted t)) (t_AllowedModels t).
(** What the gateway says of a model for a key, over these rows. *)
Definition gateway_refuses (l : list AccessToken) (key model : bytes) (cw : chat_world (W := W)) : Prop :=
  cw_tokens cw = to_gateway <$> l → get_faults (cw_model cw) = [] → fst (check_token key model cw) = Fail (not_allowed model).
Definition gateway_allows (l : list AccessToken) (key model : bytes) (cw : chat_world (W := W)) : Prop :=
  cw_tokens cw = to_gateway <$> l → fst (check_token key model cw) = Ret tt.

Lemma run_lookup {A} (f : chat_world (W := W) → option A) cw : get_faults (cw_model cw) = [] → lookup_row f cw = (Ret (f cw), cw).
Proof.
  intros Hw. destruct cw as [[]]. cbn in Hw. subst. done.
Qed.

Lemma token_refused l t m cw : NoDup (t_Token <$> l) → t ∈ l → usable t → t_Token t ≠ [] → t_Application t = AccessTokenAppAIGateway →
  t_AllowedModels t ≠ [] → m ∉ t_AllowedModels t → gateway_refuses l (t_Token t) m cw.
Proof.
  intros Hv Ht (Hact & Hdel) Hne Happ Hms Hm Htok Hw. unfold check_token. rewrite decide_False by done. unfold mbind, io_bind. rewrite run_lookup by done.
  assert (find_by (λ x, at_Token x = t_Token t ∧ at_IsActive x = true ∧ at_App x = bs "aigateway") (cw_tokens cw) = Some (to_gateway t)) as ->.
  { rewrite Htok. destruct (find_by _ _) as [x|] eqn:Hx.
    - apply find_by_Some in Hx as ((y & -> & Hy)%list_elem_of_fmap & Heq & _). cbn in Heq. f_equal. f_equal. by apply (keyed_eq t_Token _ _ _ Hv).
    - destruct (found_by_None _ _ Hx (to_gateway t)); [by apply list_elem_of_fmap_2|]. cbn. by rewrite Hact, Hdel. }
  cbn [to_gateway at_AllowedModels]. by rewrite decide_True.
Qed.
Lemma token_allowed l t m cw : NoDup (t_Token <$> l) → t ∈ l → t_AllowedModels t = [] → gateway_allows l (t_Token t) m cw.
Proof.
  intros Hv Ht Hms Htok. unfold check_token. case_decide; [done|]. unfold mbind, io_bind.
  assert (∃ o cw', lookup_row (λ w, find_by (λ x, at_Token x = t_Token t ∧ at_IsActive x = true ∧ at_App x = bs "aigateway") (cw_tokens w)) cw = (Ret o, cw') ∧
    (o = None ∨ o = find_by (λ x, at_Token x = t_Token t ∧ at_IsActive x = true ∧ at_App x = bs "aigateway") (cw_tokens cw))) as (o & cw' & -> & Ho).
  { destruct cw as [[ts h sv ev tk [|[e|] fs]]]; unfold lookup_row, on_model, next_fault, mbind, io_bind; cbn; eauto. }
  destruct o as [x|]; [|done].
  destruct Ho as [|Ho]; [done|]. symmetry in Ho. apply find_by_Some in Ho as (Hin & Heq & _). rewrite Htok in Hin.
  apply list_elem_of_fmap in Hin as (y & -> & Hy). cbn in Heq |- *. assert (y = t) as -> by (by apply (keyed_eq t_Token _ _ _ Hv)).
  rewrite decide_False; [done|]. by intros [].
Qed.

(** Refreshing a key of the gateway lifts its restriction: a model the key
    was refused is allowed for the new value, since the new row has no models. *)
Theorem refresh_lifts_restriction w user name t u m cw cw' : undisturbed w → tokens_ok (rows w, ts_next (tw_tokens w)) →
  token_named w user name AccessTokenAppAIGateway = Some (t, u) → next_value new_uuid w ∉ t_Token <$> rows w → t_Token t ≠ [] →
  t_AllowedModels t ≠ [] → m ∉ t_AllowedModels t →
  let '(res, w') := RefreshToken new_uuid now has_git user name AccessTokenAppAIGateway None w in
  gateway_refuses (rows w) (t_Token t) m cw ∧
  (∃ r, res = Ret r ∧ ck_Token r = next_value new_uuid w ∧ ck_Application r = AccessTokenAppAIGateway) ∧
  gateway_allows (rows w') (next_value new_uuid w) m cw'.
Proof.
  intros Hw Hok Ht Hv Hne Hms Hm. destruct (token_named_Some _ _ _ _ _ _ Ht) as (Hin & Hu & (Hname & Ha) & Hlive & Hun).
  destruct (run_Refresh new_uuid now has_git w user name AccessTokenAppAIGateway None t u Hw Ht Hv) as (w' & Hrun & (Hacc & Hrows & Hw')); [by rewrite Ha|by rewrite Ha; right|].
  rewrite Hrun. destruct (refreshed_values new_uuid now w w' t None Hok Hin Hu Hv Hrows) as (Hnd & Hnew & _). split_and!.
  - by apply token_refused; [apply Hok|..].
  - eexists. split_and!; [done..|]. exact Ha.
  - by apply (token_allowed _ (refreshed_row new_uuid now w t None)).
Qed.
End gateway.
