(* ===== verification/AtExample.v ===== *)
(** Access tokens at the small server of git: Alice has a token for git, a key
    of the gateway that is restricted to one model, and a token of a mirror. *)
From S2P Require Import Prelude GoLib GoTime Sensitive GwModeration GwRoute GwModels GwChat GwExample.
From S2P Require Import Errorx AcAccess AcSpec AcMemberSpec AcRulesSpec AcExample GitHttp GitHttpSpec GitRulesSpec GitExample AtToken AtTokenSpec AtAuth AtAuthSpec AtGapSpec.
Open Scope Z_scope.

Definition ex_alice : User := mk_user 1 (bs "alice") (bs "u1") [] false.
Definition git_tok : AccessToken := mk_at 1 (bs "laptop") (bs "gittok") 1 AccessTokenAppGit (bs "write") [] true (Some 1000) false.
Definition gateway_tok : AccessToken := mk_at 2 (bs "bot") (bs "gwtok") 1 AccessTokenAppAIGateway [] [bs "llama"] true None false.
Definition mirror_tok : AccessToken := mk_at 3 (bs "sync") (bs "mirtok") 1 AccessTokenAppMirror [] [] true None false.
Definition token_start : token_state := mk_ts [git_tok; gateway_tok; mirror_tok] 4 0.
Definition token_ex (faults : list (option goerr)) : token_world := mk_tw git_access faults token_start.
Definition ex_uuid (n : nat) : bytes := bs "ab-" ++ Itoa (Z.of_nat n).
Definition ex_route (token : bytes) : option (bytes * bytes) := Some (token, []).
Definition ex_jwt (_ _ : bytes) : option (bytes * bytes) := None.

Lemma token_users_ok : users_ok git_access.
Proof. unfold users_ok. cbn. repeat constructor; rewrite ?list_elem_of_In; cbn; intuition congruence. Qed.
Lemma token_start_ok : tokens_ok (ts_rows token_start, ts_next token_start).
Proof.
  unfold tokens_ok. cbn [ts_rows ts_next token_start fst snd]. split_and!.
  - cbn. repeat constructor; rewrite ?list_elem_of_In; cbn; intuition congruence.
  - cbn. repeat constructor; rewrite ?list_elem_of_In; cbn; intuition congruence.
  - repeat constructor.
  - intros x y Hx Hy _ _ (_ & Hs & _). rewrite !elem_of_cons in Hx, Hy.
    destruct Hx as [->|[->|[->|[]%not_elem_of_nil]]], Hy as [->|[->|[->|[]%not_elem_of_nil]]]; (done || discriminate Hs).
Qed.

(** Alice makes a token twice, replaces one while the database goes away, and
    Bob asks for one of hers to be deleted. *)
Definition ex_ops : list (Z * bytes * token_op) :=
  [(5, bs "alice", TCreate (bs "ci") AccessTokenAppGit (bs "write") [] None); (6, bs "alice", TCreate (bs "ci") AccessTokenAppGit (bs "write") [] None);
   (7, bs "alice", TRefresh (bs "laptop") AccessTokenAppGit (Some 2000)); (8, bs "bob", TDelete (bs "laptop") AccessTokenAppGit)].
Lemma tokens_stay_well_formed_witness :
  let w := token_run ex_uuid true ex_ops (token_ex [None; None; None; None; Some ex_down]) in
  tokens_ok (rows w, ts_next (tw_tokens w)) ∧ t_Token <$> filter usable (rows w) = [bs "gwtok"; bs "mirtok"; bs "ab0"; bs "ab1"].
Proof.
  cbv zeta. split; [|by vm_compute]. apply (tokens_stay_well_formed ex_uuid true ex_ops (token_ex _)); [exact token_users_ok|exact token_start_ok].
Defined.
Lemma others_leave_tokens_witness : git_tok ∈ rows (token_run ex_uuid true [(8, bs "bob", TDelete (bs "laptop") AccessTokenAppGit)] (token_ex [])).
Proof.
  apply (others_leave_tokens ex_uuid true _ (token_ex [])); [exact token_users_ok| |by left].
  intros now x o Hin%list_elem_of_singleton Ho. injection Hin as _ -> _. apply (bool_decide_eq_true_2 _) in Ho. vm_compute in Ho. discriminate Ho.
Defined.

(** ** Who a request is from *)

Abbreviation ex_auth := (Authenticator (bs "key") (bs "secret") ex_jwt ex_route).
Lemma user_needs_credential_witness :
  let r := bearer (bs "GET") (bs "mirtok") in let w := token_ex [] in
  fst (ex_auth r no_user w) = Ret (Next (mk_ctx (bs "alice") (bs "u1") (bs "mirtok") AuthTypeMultiSyncToken)) ∧
  credential (bs "key") (bs "secret") ex_jwt ex_route git_access (rows w) r (bs "alice").
Proof.
  cbv zeta. assert (fst (ex_auth (bearer (bs "GET") (bs "mirtok")) no_user (token_ex [])) = Ret (Next (mk_ctx (bs "alice") (bs "u1") (bs "mirtok") AuthTypeMultiSyncToken))) as Hr by (by vm_compute).
  split; [exact Hr|]. by apply (user_needs_credential (bs "key") (bs "secret") ex_jwt ex_route (bearer (bs "GET") (bs "mirtok")) (token_ex []) _ eq_refl Hr).
Defined.
Lemma mirror_token_writes_witness :
  let post := bs "POST" in let behind := then_ ex_auth RestrictMultiSyncTokenToRead in
  api_chain (bs "key") (bs "secret") ex_jwt ex_route (bearer post (bs "mirtok")) no_user (token_ex []) =
    (Ret (Next (mk_ctx (bs "alice") (bs "u1") (bs "mirtok") AuthTypeMultiSyncToken)), token_ex []) ∧
  behind (bearer post (bs "mirtok")) no_user (token_ex []) = (Ret (Abort_with 403), token_ex []) ∧
  behind (basic post (bs "YWxpY2U6bWlydG9r")) no_user (token_ex []) = (Ret (Next (mk_ctx (bs "alice") (bs "u1") [] AuthTypeNone)), token_ex []).
Proof.
  apply (mirror_token_writes (bs "key") (bs "secret") ex_jwt ex_route (token_ex []) (bs "YWxpY2U6bWlydG9r") mirror_tok ex_alice);
    [done|exact (proj1 token_start_ok)|right; right; left|by vm_compute..].
Defined.
Lemma expired_token_authenticates_witness :
  ex_auth (bearer (bs "GET") (bs "gittok")) no_user (token_ex []) =
    (Ret (Next (mk_ctx (bs "alice") (bs "u1") (bs "gittok") AuthTypeAccessToken)), token_ex []) ∧
  GetCurrentUserFromHeader 1500 (bearer (bs "GET") (bs "gittok")) no_user (token_ex []) = (Ret (Next no_user), token_ex []).
Proof.
  apply (expired_token_authenticates (bs "key") (bs "secret") ex_jwt ex_route 1500 (token_ex []) (bs "GET") git_tok ex_alice 1000);
    [done|exact (proj1 token_start_ok)|left|by vm_compute..].
Defined.

(** ** Refreshing *)

Lemma refreshed_token_replaces_witness :
  let '(res, w) := RefreshToken ex_uuid 100 true (bs "alice") (bs "laptop") AccessTokenAppGit (Some 50) (token_ex []) in
  let resp := mk_check (bs "ab0") (bs "laptop") AccessTokenAppGit (bs "write") (bs "alice") (bs "u1") (Some 1000) in
  res = Ret resp ∧ fst (Check_token (bs "ab0") [] w) = Ret resp ∧
  fst (Check_token (bs "gittok") [] w) = Fail (wrap "failed to find database user access token,error:" ErrNoRows).
Proof.
  apply (refreshed_token_replaces ex_uuid 100 true (token_ex []) (bs "alice") (bs "laptop") AccessTokenAppGit (Some 50) git_tok ex_alice);
    [done|exact token_start_ok|by vm_compute| |done|by left].
  apply (bool_decide_eq_true_1 _). by vm_compute.
Defined.
Definition ex_gateway (l : list AccessToken) : @chat_world mod_world := mk_cw GwExample.ex_world (mk_mod ∅ [] []) [] (to_gateway <$> l) [] [] [] (mk_state ∅ [] None) [].
Lemma refresh_lifts_restriction_witness :
  let '(res, w) := RefreshToken ex_uuid 100 true (bs "alice") (bs "bot") AccessTokenAppAIGateway None (token_ex []) in
  fst (check_token (bs "gwtok") (bs "gpt") (ex_gateway (rows (token_ex [])))) = Fail (not_allowed (bs "gpt")) ∧
  fst (check_token (bs "ab0") (bs "gpt") (ex_gateway (rows w))) = Ret tt.
Proof.
  set (w := snd (RefreshToken ex_uuid 100 true (bs "alice") (bs "bot") AccessTokenAppAIGateway None (token_ex []))).
  pose proof (refresh_lifts_restriction (W := mod_world) ex_uuid 100 true (token_ex []) (bs "alice") (bs "bot") gateway_tok ex_alice (bs "gpt")
    (ex_gateway (rows (token_ex []))) (ex_gateway (rows w)) eq_refl token_start_ok) as H.
  subst w. destruct (RefreshToken _ _ _ _ _ _ _ _) as [res w]. cbn [snd] in H. destruct H as (Hr & _ & Ha).
  - by vm_compute.
  - apply (bool_decide_eq_true_1 _). by vm_compute.
  - done.
  - done.
  - apply (bool_decide_eq_true_1 _). by vm_compute.
  - split; [by apply Hr|by apply Ha].
Defined.

(** ** git *)

Abbreviation ex_request := (git_request ascii_LOWER (λ c, c) ex_takes ex_get ex_xget ex_put ex_upload ex_assembled ex_status (bs "2025-01-01") 0 GitExample.ex_config
  (bs "key") (bs "secret") ex_jwt ex_route).

