(* ===== verification/TgTag.v ===== *)
(** Tags of repositories (component/tag.go, component/tagparser, component/callback/git_callback.go
    and builder/store/database/tag.go, tag_rule.go): the table of tags, the rows that
    tie them to repositories, what the front matter and the files of a
    repository give, and what a push does to them. *)
From S2P Require Import Prelude GoLib GoFloat GoJson Sensitive Errorx AcAccess.
Open Scope Z_scope.

(** ** Data *)

Record Tag := mk_tag {
  tg_ID : Z; tg_Name : bytes; tg_Category : bytes; tg_Group : bytes; tg_Scope : bytes; tg_BuiltIn : bool; tg_ShowName : bytes; tg_I18nKey : bytes;
}.
Record TagCategory := mk_tc { tc_ID : Z; tc_Name : bytes; tc_ShowName : bytes; tc_Scope : bytes; tc_Enabled : bool }.
Record TagFilter := mk_filter { tf_Scopes : list bytes; tf_Categories : list bytes; tf_BuiltIn : option bool; tf_Search : bytes }.
(** Which tags a dataset gets, by its path; tags are named, not referred to. *)
Record TagRule := mk_rule {
  tu_Namespace : bytes; tu_RepoName : bytes; tu_RepoType : bytes; tu_Category : bytes; tu_TagName : bytes; tu_RuntimeFramework : bytes;
}.
Record tagged_repo := mk_trepo {
  tp_ID : Z; tp_Type : bytes; tp_Path : bytes; tp_Name : bytes; tp_GitPath : bytes; tp_HFPath : bytes; tp_MSPath : bytes; tp_CSGPath : bytes; tp_License : bytes;
}.
(** What the files of a model tell of it, and the row that keeps it. *)
Record Quantization := mk_quant { qu_VERSION : bytes; qu_TYPE : bytes; qu_MiniGPUMemoryGB : float32 }.
Record ModelInfo := mk_info {
  mi_TotalParams : Z; mi_ParamsBillions : float32; mi_TensorType : bytes; mi_MiniGPUMemoryGB : float32; mi_MiniGPUFinetuneGB : float32; mi_ModelWeightsGB : float32;
  mi_ModelType : bytes; mi_Architecture : bytes; mi_ClassName : bytes; mi_Quantizations : list Quantization;
  mi_ContextSize : Z; mi_BatchSize : Z; mi_HiddenSize : Z; mi_NumHiddenLayers : Z; mi_BytesPerParam : Z; mi_NumAttentionHeads : Z;
}.
Record Metadata := mk_metadata {
  md_RepositoryID : Z; md_ModelParams : float32; md_TensorType : bytes; md_MiniGPUMemoryGB : float32; md_MiniGPUFinetuneGB : float32;
  md_Architecture : bytes; md_ModelType : bytes; md_ClassName : bytes; md_Quantizations : list Quantization;
}.
(** The rows of repository_tags by their unique key, repository and tag, with
    their counts. *)
Abbreviation tag_rows := (gmap (Z * Z) Z).
Record tag_state := mk_tgs {
  tt_tags : list Tag; tt_next : Z; tt_rows : tag_rows; tt_repos : list tagged_repo; tt_rules : list TagRule; tt_categories : list TagCategory; tt_nextCategory : Z;
  tt_metadata : gmap Z Metadata;
}.
Record tag_world := mk_tgw { gt_faults : list (option goerr); gt_state : tag_state }.
#[export] Program Instance tag_world_faulty : Faulty tag_world goerr := {| get_faults := gt_faults; set_faults fs w := mk_tgw fs (gt_state w) |}.
Next Obligation. by intros []. Qed.
Abbreviation gio := (io tag_world goerr).

Definition on_state (f : tag_state → tag_state) (w : tag_world) : tag_world := mk_tgw (gt_faults w) (f (gt_state w)).
Definition with_tags (f : list Tag → list Tag) (n : Z) (s : tag_state) : tag_state :=
  mk_tgs (f (tt_tags s)) n (tt_rows s) (tt_repos s) (tt_rules s) (tt_categories s) (tt_nextCategory s) (tt_metadata s).
Definition with_rows (f : tag_rows → tag_rows) (s : tag_state) : tag_state :=
  mk_tgs (tt_tags s) (tt_next s) (f (tt_rows s)) (tt_repos s) (tt_rules s) (tt_categories s) (tt_nextCategory s) (tt_metadata s).
Definition with_repos (f : list tagged_repo → list tagged_repo) (s : tag_state) : tag_state :=
  mk_tgs (tt_tags s) (tt_next s) (tt_rows s) (f (tt_repos s)) (tt_rules s) (tt_categories s) (tt_nextCategory s) (tt_metadata s).
Definition with_categories (f : list TagCategory → list TagCategory) (n : Z) (s : tag_state) : tag_state :=
  mk_tgs (tt_tags s) (tt_next s) (tt_rows s) (tt_repos s) (tt_rules s) (f (tt_categories s)) n (tt_metadata s).
Definition with_metadata (f : gmap Z Metadata → gmap Z Metadata) (s : tag_state) : tag_state :=
  mk_tgs (tt_tags s) (tt_next s) (tt_rows s) (tt_repos s) (tt_rules s) (tt_categories s) (tt_nextCategory s) (f (tt_metadata s)).
Definition set_license (l : bytes) (r : tagged_repo) : tagged_repo := mk_trepo (tp_ID r) (tp_Type r) (tp_Path r) (tp_Name r) (tp_GitPath r) (tp_HFPath r) (tp_MSPath r) (tp_CSGPath r) l.

Definition ModelTagScope : bytes := bs "model".
Definition DatasetTagScope : bytes := bs "dataset".
Definition CodeTagScope : bytes := bs "code".
Definition SpaceTagScope : bytes := bs "space".
Definition PromptTagScope : bytes := bs "prompt".
Definition MCPTagScope : bytes := bs "mcp".
Definition ModelRepo : bytes := bs "model".
Definition DatasetRepo : bytes := bs "dataset".
Definition CodeRepo : bytes := bs "code".
Definition SpaceRepo : bytes := bs "space".
Definition PromptRepo : bytes := bs "prompt".
Definition MCPServerRepo : bytes := bs "mcpserver".
Definition ReadmeFileName : bytes := bs "README.md".

(** ** The parsers (component/tagparser) *)

(** *** nameparser.go *)

(** [filepath.Base] *)
Definition trim_slashes (p : bytes) : bytes := reverse (drop_while (λ c, bool_decide (c = "/"%char)) (reverse p)).
Definition Base (path : bytes) : bytes :=
  if decide (path = []) then bs "."
  else let b := default [] (last (Split (trim_slashes path) (bs "/"))) in if decide (b = []) then bs "/" else b.
Definition isPytorch (f : bytes) : bool := (HasPrefix f (bs "pytorch_model") && HasSuffix f (bs ".bin")) || HasSuffix f (bs ".pt") || HasSuffix f (bs ".pth").
Definition isTensorflow (f : bytes) : bool := HasPrefix f (bs "tf_model") && HasSuffix f (bs ".h5").
Definition isSafetensors (f : bytes) : bool := HasSuffix f (bs ".safetensors").
Definition isJAX (f : bytes) : bool := HasPrefix f (bs "flax_model") && HasSuffix f (bs ".msgpack").

(** *** category_name.go *)

(** [strings.EqualFold] with a name in small ASCII letters: two more runes fold
    to such letters. *)
Definition fold_rune (r : Z) : Z := if decide (65 ≤ r ≤ 90) then r + 32 else if decide (r = 0x17F) then 115 else if decide (r = 0x212A) then 107 else r.
Definition EqualFold (s t : bytes) : bool := bool_decide (fold_rune <$> to_runes s = to_runes t).
Definition category_names : list (string * string) :=
  [("task", "task"); ("tasks", "task"); ("tags", "task"); ("task_categories", "task"); ("pipeline_tag", "task"); ("license", "license");
   ("framework", "framework"); ("size", "size"); ("size_categories", "size")].
Definition formatCategoryName (name : bytes) : bytes :=
  match found_by (λ p, EqualFold name (bs p.1) = true) category_names with Some (_, c) => bs c | None => name end.

(** *** contentparser.go *)

Inductive yaml := YString (s : bytes) | YList (l : list yaml) | YOther.
Definition metaText (readme : bytes) : bytes := match Split readme (bs "---") with _ :: m :: _ => m | _ => [] end.
(** [slices.Compact] *)
Fixpoint compact (l : list bytes) : list bytes :=
  match l with
  | x :: (y :: _) as l' => if decide (x = y) then compact l' else x :: compact l'
  | _ => l
  end.
Definition uniqueTags (m : gmap bytes (list bytes)) : gmap bytes (list bytes) := (λ ts, compact (sort_bytes ts)) <$> m.
Definition add_name (category : bytes) (m : gmap bytes (list bytes)) (v : yaml) : gmap bytes (list bytes) :=
  match v with YString n => <[category := default [] (m !! category) ++ [TrimSpace n]]> m | _ => m end.
Definition add_content (m : gmap bytes (list bytes)) (kv : bytes * yaml) : gmap bytes (list bytes) :=
  let category := formatCategoryName kv.1 in
  match kv.2 with
  | YString n => add_name category m (YString n)
  | YList vs => foldl (add_name category) m vs
  | YOther => m
  end.

Section tags.
(** SQL's LOWER and LIKE, [unicode.ToLower] beyond ASCII, the YAML library (the
    keys of a document in the order they are ranged over), and the order the
    categories are ranged over. *)
Variable LOWER : bytes → bytes.
Variable like : bytes → bytes → bool.
Variable unicode_lower : Z → Z.
Variable yaml_Unmarshal : bytes → option (list (bytes * yaml)).
Variable range_order : list (bytes * list bytes) → list (bytes * list bytes).
(** The moderation service: whether there is one, and what it says of a name. *)
Variable has_checker : bool.
Variable is_sensitive : bytes → bool.

Definition LibraryTag (filePath : bytes) : bytes :=
  if decide (filePath = []) then []
  else
    let f := ToLower unicode_lower (Base filePath) in
    if isPytorch f then bs "pytorch" else if isTensorflow f then bs "tensorflow" else if isSafetensors f then bs "safetensors"
    else if isJAX f then bs "jax" else if HasSuffix f (bs ".onnx") then bs "onnx" else if HasSuffix f (bs ".pdparams") then bs "paddlepaddle"
    else if HasSuffix f (bs ".joblib") then bs "joblib" else if HasSuffix f (bs ".gguf") then bs "gguf" else [].
Definition yaml_error : goerr := NewError (bs "yaml: unmarshal error").
Definition MetaTags (readme : bytes) : result (gmap bytes (list bytes)) goerr :=
  let meta := metaText readme in
  if decide (meta = []) then Ok ∅
  else match yaml_Unmarshal meta with None => Err yaml_error | Some contents => Ok (uniqueTags (foldl add_content ∅ contents)) end.

(** *** tag_processor.go *)

Definition mapCategoryTag (tags : list Tag) : gmap bytes (gmap bytes Tag) :=
  foldl (λ m t, <[tg_Category t := <[tg_Name t := t]> (default ∅ (m !! tg_Category t))]> m) ∅ tags.
Definition new_tag_of (scope category name : bytes) : Tag := mk_tag 0 name category [] scope false [] [].
(** The matched tags, and those to create. *)
Definition processTags (scope : bytes) (existing : gmap bytes (gmap bytes Tag)) (categoryTags : gmap bytes (list bytes)) : list Tag * list Tag :=
  foldl (λ acc kv,
    match existing !! kv.1 with
    | None => acc
    | Some tags => foldl (λ acc n, match tags !! n with Some t => (acc.1 ++ [t], acc.2) | None => (acc.1, acc.2 ++ [new_tag_of scope kv.1 n]) end) acc kv.2
    end) ([], []) (range_order (map_to_list categoryTags)).

(** ** The store (builder/store/database/tag.go) *)

Definition tg_read {A} (f : tag_state → A) : gio A := next_fault;; io_gets (λ w, f (gt_state w)).
Definition tg_row {A} (f : tag_state → option A) : gio A := o ← tg_read f; match o with Some a => mret a | None => io_fail ErrNoRows end.
Fixpoint statements (n : nat) : gio unit := match n with O => mret tt | S n => next_fault;; statements n end.
Definition duplicate_key : goerr := NewError (bs "duplicate key value violates unique constraint").

Definition passes (f : TagFilter) (t : Tag) : Prop :=
  (tf_Scopes f = [] ∨ tg_Scope t ∈ tf_Scopes f) ∧ (tf_Categories f = [] ∨ tg_Category t ∈ tf_Categories f) ∧
  (tf_BuiltIn f = None ∨ tf_BuiltIn f = Some (tg_BuiltIn t)) ∧
  (tf_Search f = [] ∨ like (tg_Name t) (bs "%" ++ tf_Search f ++ bs "%") = true ∨ like (tg_ShowName t) (bs "%" ++ tf_Search f ++ bs "%") = true).
#[export] Instance passes_dec f t : Decision (passes f t).
Proof. unfold passes. apply _. Defined.
Definition store_AllTags (f : TagFilter) : gio (list Tag) := io_wrap (wrap "failed to select tags,cause: ") (tg_read (λ s, filter (passes f) (tt_tags s))).
Definition AllTagsByScope (scope : bytes) : gio (list Tag) := store_AllTags (mk_filter [scope] [] None []).
Definition AllTagsByScopeAndCategory (scope category : bytes) : gio (list Tag) := store_AllTags (mk_filter [scope] [category] None []).
Definition GetTagsByScopeAndCategories (scope : bytes) (categories : list bytes) : gio (list Tag) := store_AllTags (mk_filter [scope] categories None []).
Definition AllCategories (scope : bytes) : gio (list TagCategory) := tg_read (λ s, filter (λ c, scope = [] ∨ tc_Scope c = scope) (tt_categories s)).

(** Name, category and scope of a tag are unique; ids are filled in. *)
Definition tag_key (t : Tag) : bytes * bytes * bytes := (tg_Name t, tg_Category t, tg_Scope t).
Definition with_tag_id (n : Z) (t : Tag) : Tag := mk_tag n (tg_Name t) (tg_Category t) (tg_Group t) (tg_Scope t) (tg_BuiltIn t) (tg_ShowName t) (tg_I18nKey t).
Definition numbered (n : Z) (ts : list Tag) : list Tag := imap (λ i t, with_tag_id (n + Z.of_nat i) t) ts.
Definition tag_insert (ts : list Tag) : gio (list Tag) :=
  next_fault;; s ← io_gets gt_state;
  if decide (NoDup (tag_key <$> tt_tags s ++ ts)) then
    let ts := numbered (tt_next s) ts in io_modify (on_state (λ s, with_tags (λ l, l ++ ts) (tt_next s + len ts) s));; mret ts
  else io_fail duplicate_key.
Definition store_CreateTag (t : Tag) : gio Tag := ts ← tag_insert [t]; mret (default t (head ts)).
Definition SaveTags (ts : list Tag) : gio (list Tag) :=
  match ts with [] => mret [] | _ => io_wrap (wrap "failed to save tags,cause: ") (tag_insert ts) end.
Definition FindTag (name scope category : bytes) : gio Tag := tg_row (λ s, found_by (λ t, tag_key t = (name, category, scope)) (tt_tags s)).
Definition FindTagByID (id : Z) : gio Tag := io_wrap (wrap "select tag by id error: ") (tg_row (λ s, found_by (λ t, tg_ID t = id) (tt_tags s))).
Definition FindOrCreate (t : Tag) : gio Tag :=
  r ← io_try (FindTag (tg_Name t) (tg_Scope t) (tg_Category t)); match r with Ok x => mret x | Err _ => store_CreateTag t end.
Definition UpdateTagByID (t : Tag) : gio Tag :=
  io_wrap (wrap "update tag by id error: ") (
    next_fault;; s ← io_gets gt_state;
    if decide (Exists (λ x, tg_ID x = tg_ID t) (tt_tags s) ∧ Exists (λ x, tg_ID x ≠ tg_ID t ∧ tag_key x = tag_key t) (tt_tags s)) then io_fail duplicate_key
    else io_modify (on_state (λ s, with_tags (fmap (λ x, if decide (tg_ID x = tg_ID t) then t else x)) (tt_next s) s)));;
  mret t.
Definition DeleteTagByID (id : Z) : gio unit :=
  statements 4;; io_modify (on_state (λ s, with_rows (filter (λ kv, kv.1.2 ≠ id)) (with_tags (filter (λ t, tg_ID t ≠ id)) (tt_next s) s))).

(** *** Categories: name and scope are unique *)
Definition category_key (c : TagCategory) : bytes * bytes := (tc_Name c, tc_Scope c).
Definition store_CreateCategory (c : TagCategory) : gio TagCategory :=
  io_wrap (wrap "insert category error: ") (
    next_fault;; s ← io_gets gt_state;
    if decide (category_key c ∈ category_key <$> tt_categories s) then io_fail duplicate_key
    else
      let c := mk_tc (tt_nextCategory s) (tc_Name c) (tc_ShowName c) (tc_Scope c) (tc_Enabled c) in
      io_modify (on_state (λ s, with_categories (λ l, l ++ [c]) (tt_nextCategory s + 1) s));; mret c).
Definition store_UpdateCategory (c : TagCategory) : gio TagCategory :=
  io_wrap (wrap "update category by id error: ") (
    next_fault;; s ← io_gets gt_state;
    if decide (Exists (λ x, tc_ID x = tc_ID c) (tt_categories s) ∧ Exists (λ x, tc_ID x ≠ tc_ID c ∧ category_key x = category_key c) (tt_categories s)) then io_fail duplicate_key
    else io_modify (on_state (λ s, with_categories (fmap (λ x, if decide (tc_ID x = tc_ID c) then c else x)) (tt_nextCategory s) s)));;
  mret c.
Definition store_DeleteCategory (id : Z) : gio unit :=
  io_wrap (wrap "delete category by id error: ") (next_fault;; io_modify (on_state (λ s, with_categories (filter (λ c, tc_ID c ≠ id)) (tt_nextCategory s) s))).

(** *** Tags of repositories *)

Definition path_of (namespace name : bytes) : bytes := namespace ++ bs "/" ++ name.
Definition repo_by_git_path (repoType namespace name : bytes) : gio tagged_repo :=
  tg_row (λ s, found_by (λ r, LOWER (tp_GitPath r) = LOWER (repoType ++ bs "s_" ++ path_of namespace name)) (tt_repos s)).
Definition tags_of (s : tag_state) (repoID : Z) : list Tag := filter (λ t, is_Some (tt_rows s !! (repoID, tg_ID t))) (tt_tags s).
Definition excluded : list bytes := [bs "framework"; bs "runtime_framework"; bs "evaluation"; bs "industry"].
Definition without (repoID : Z) (ids : list Z) (m : tag_rows) : tag_rows := filter (λ kv, ¬ (kv.1.1 = repoID ∧ kv.1.2 ∈ ids)) m.
Definition with_ones (repoID : Z) (ids : list Z) (m : tag_rows) : tag_rows := foldr (λ id, <[(repoID, id) := 1]>) m ids.
Definition meta_ids (s : tag_state) (repoID : Z) : list Z := tg_ID <$> filter (λ t, tg_Category t ∉ excluded) (tags_of s repoID).
(** A transaction: what it inserts may not be there after what it deletes. *)
Definition SetMetaTags (repoType namespace name : bytes) (tags : list Tag) : gio (list (Z * Z)) :=
  repo ← io_wrap (wrap "failed to find repository,error:") (r ← repo_by_git_path repoType namespace name; next_fault;; mret r);
  s ← io_gets gt_state;
  let ids := tg_ID <$> tags in
  let left := without (tp_ID repo) (meta_ids s (tp_ID repo)) in
  statements 2;;
  (match tags with
   | [] => mret tt
   | _ => if decide (Exists (λ t, tg_Category t = bs "framework") tags) then io_fail (NewError (bs "found framework tag when set meta tag"))
          else io_wrap (wrap "failed to batch insert repository meta tags,error:") (
            next_fault;;
            if decide (NoDup ids ∧ Forall (λ id, left (tt_rows s) !! (tp_ID repo, id) = None) ids) then mret tt else io_fail duplicate_key)
   end);;
  next_fault;; io_modify (on_state (with_rows (λ m, with_ones (tp_ID repo) ids (left m))));;
  mret ((tp_ID repo,.) <$> ids).
Definition count_down (k : Z * Z) : tag_rows → tag_rows := alter (λ c, if decide (0 < c) then c - 1 else c) k.
Definition count_up (k : Z * Z) : tag_rows → tag_rows := partial_alter (λ o, Some (default 0 o + 1)) k.
Definition optional {A} (o : option A) (f : A → tag_rows → tag_rows) : tag_rows → tag_rows := match o with Some t => f t | None => id end.
Definition SetLibraryTag (repoType namespace name : bytes) (newTag oldTag : option Tag) : gio unit :=
  repo ← io_wrap (wrap "failed to find repository,error:") (repo_by_git_path repoType namespace name);
  io_wrap (wrap "failed to update repository library tags,error:") (
    next_fault;; (if oldTag is Some _ then next_fault else mret tt);; (if newTag is Some _ then statements 2 else mret tt);; next_fault;;
    io_modify (on_state (with_rows (λ m,
      optional newTag (λ t, count_up (tp_ID repo, tg_ID t)) (optional oldTag (λ t, count_down (tp_ID repo, tg_ID t)) m))))).
Definition UpsertRepoTags (repoID : Z) (oldTagIDs newTagIDs : list Z) : gio unit :=
  statements (S (length oldTagIDs + length newTagIDs + 1));;
  io_modify (on_state (with_rows (λ m, foldl (λ m id, count_up (repoID, id) m) (foldl (λ m id, count_down (repoID, id) m) m oldTagIDs) newTagIDs))).
Definition RemoveRepoTags (repoID : Z) (tagIDs : list Z) : gio unit :=
  match tagIDs with [] => mret tt | _ => next_fault;; io_modify (on_state (with_rows (without repoID tagIDs))) end.
Definition RemoveRepoTagsByCategory (repoID : Z) (categories : list bytes) : gio unit :=
  next_fault;; io_modify (on_state (λ s, with_rows (without repoID (tg_ID <$> filter (λ t, tg_Category t ∈ categories) (tt_tags s))) s)).
Definition CheckTagIDsExist (ids : list Z) : gio unit :=
  match ids with
  | [] => mret tt
  | _ => found ← io_wrap (wrap "failed to check tag IDs existence: ") (tg_read (λ s, filter (λ t, tg_ID t ∈ ids) (tt_tags s)));
         if decide (length found = length ids) then mret tt else io_fail (NewError (bs "some tag do not exist"))
  end.

(** *** repository.go *)

Definition FindByPath (repoType namespace name : bytes) : gio tagged_repo :=
  io_wrap HandleDBError (tg_row (λ s, found_by (λ r, tp_Type r = repoType ∧ LOWER (tp_Path r) = LOWER (path_of namespace name)) (tt_repos s))).
Definition TagIDs (repoID : Z) (category : bytes) : gio (list Z) :=
  io_wrap HandleDBError (tg_read (λ s, tg_ID <$> filter (λ t, category = [] ∨ tg_Category t = category) (tags_of s repoID))).
(** The tags a repository shows. *)
Definition shown (s : tag_state) (repoID : Z) : list Tag := filter (λ t, 0 < default 0 (tt_rows s !! (repoID, tg_ID t))) (tt_tags s).
Definition repo_Tags (repoID : Z) : gio (list Tag) := io_wrap HandleDBError (tg_read (λ s, shown s repoID)).
Definition UpdateLicenseByTag (repoID : Z) : gio unit :=
  tag ← tg_row (λ s, head (filter (λ t, tg_Category t = bs "license") (tags_of s repoID)));
  if decide (tg_Name tag = []) then mret tt
  else
    repo ← io_wrap HandleDBError (tg_row (λ s, found_by (λ r, tp_ID r = repoID) (tt_repos s)));
    io_wrap HandleDBError (next_fault;; io_modify (on_state (with_repos (fmap (λ r, if decide (tp_ID r = repoID) then set_license (tg_Name tag) repo else r))))).

(** ** The component (component/tag.go) *)

(** The key of a tag's name is shown. *)
Definition to_repo_tag (t : Tag) : Tag := mk_tag (tg_ID t) (tg_Name t) (tg_Category t) (tg_Group t) (tg_Scope t) (tg_BuiltIn t) (tg_I18nKey t) (tg_I18nKey t).
Definition AllTags (f : TagFilter) : gio (list Tag) := ts ← store_AllTags f; mret (to_repo_tag <$> ts).
Definition ClearMetaTags (repoType namespace name : bytes) : gio unit := SetMetaTags repoType namespace name [];; mret tt.

Definition repo_type_of (scope : bytes) : option bytes :=
  if decide (scope = DatasetTagScope) then Some DatasetRepo else if decide (scope = ModelTagScope) then Some ModelRepo
  else if decide (scope = PromptTagScope) then Some PromptRepo else if decide (scope = MCPTagScope) then Some MCPServerRepo
  else if decide (scope = CodeTagScope) then Some CodeRepo else if decide (scope = SpaceTagScope) then Some SpaceRepo else None.
Definition ProcessReadme (scope content : bytes) : gio (list Tag * list Tag) :=
  match MetaTags content with
  | Err e => io_fail (wrap "failed to parse metadata, cause: " e)
  | Ok m =>
      existing ← io_wrap (wrap "failed to get existing tags, cause: ") (AllTagsByScope scope);
      mret (processTags scope (mapCategoryTag existing) m)
  end.
(** A check that fails is one that does not pass. *)
Fixpoint drop_sensitive (ts : list Tag) : gio (list Tag) :=
  match ts with
  | [] => mret []
  | t :: ts =>
      r ← io_try next_fault; rest ← drop_sensitive ts;
      mret (match r with Err _ => rest | Ok _ => if is_sensitive (tg_Name t) then rest else t :: rest end)
  end.
Definition UpdateMetaTags (tagScope namespace name content : bytes) : gio (list (Z * Z)) :=
  match repo_type_of tagScope with
  | None => mret []
  | Some repoType =>
      '(tagsMatched, tagToCreate) ← io_wrap (wrap "failed to process tags, cause: ") (ProcessReadme tagScope content);
      tagToCreate ← (if has_checker then drop_sensitive tagToCreate else mret tagToCreate);
      tagToCreate ← io_wrap (wrap "failed to save tags, cause: ") (SaveTags tagToCreate);
      repo ← io_wrap (wrap "failed to find repo, cause: ") (FindByPath repoType namespace name);
      repoTags ← io_wrap (wrap "failed to set dataset's tags, cause: ") (SetMetaTags repoType namespace name (tagsMatched ++ tagToCreate));
      io_try (UpdateLicenseByTag (tp_ID repo));;
      mret repoTags
  end.
(** The last of a name. *)
Definition framework_named (n : bytes) (ts : list Tag) : option Tag := last (filter (λ t, tg_Category t = bs "framework" ∧ tg_Name t = n) ts).
Definition UpdateLibraryTags (tagScope namespace name oldFilePath newFilePath : bytes) : gio unit :=
  if decide (tagScope ∈ [DatasetTagScope; ModelTagScope; PromptTagScope]) then
    allTags ← io_wrap (wrap "failed to get all tags, error: ") (AllTagsByScope tagScope);
    io_wrap (wrap "failed to set Library tags, cause: ")
      (SetLibraryTag (default [] (repo_type_of tagScope)) namespace name (framework_named (LibraryTag newFilePath) allTags) (framework_named (LibraryTag oldFilePath) allTags))
  else mret tt.
Definition UpdateRepoTagsByCategory (tagScope : bytes) (repoID : Z) (category : bytes) (tagNames : list bytes) : gio unit :=
  allTags ← io_wrap (wrap "failed to get all tags of scope, error: ")
    (store_AllTags (mk_filter [tagScope] (if decide (category = []) then [] else [category]) None []));
  if decide (allTags = []) then io_fail (NewError (bs "no tags found for scope and category"))
  else
    let tagIDs := tagNames ≫= (λ n, tg_ID <$> filter (λ t, tg_Name t = n) allTags) in
    oldTagIDs ← io_wrap (wrap "failed to get old tag ids, error: ") (TagIDs repoID category);
    UpsertRepoTags repoID oldTagIDs tagIDs.
Definition pass_name (n : bytes) : gio unit :=
  if has_checker then
    io_wrap (wrap "failed to check tag name sensitivity, error: ") next_fault;;
    if is_sensitive n then io_fail (NewError (bs "tag name contains sensitive words")) else mret tt
  else mret tt.
(** A request is a tag without an id. *)
Definition CreateTag (req : Tag) : gio Tag := pass_name (tg_Name req);; io_wrap (wrap "failed to create tag, error: ") (store_CreateTag req).
Definition GetTagByID (id : Z) : gio Tag := io_wrap (wrap "failed to get tag id, error: ") (FindTagByID id).
Definition UpdateTag (id : Z) (req : Tag) : gio Tag := pass_name (tg_Name req);; io_wrap (wrap "failed to update tag id, error: ") (UpdateTagByID (with_tag_id id req)).
Definition DeleteTag (id : Z) : gio unit := io_wrap (wrap "failed to delete tag id, error: ") (DeleteTagByID id).
Definition to_category (c : TagCategory) : TagCategory := mk_tc (tc_ID c) (tc_Name c) (tc_Name c) (tc_Scope c) (tc_Enabled c).
Definition component_AllCategories : gio (list TagCategory) := cs ← io_wrap (wrap "failed to get all categories, error: ") (AllCategories []); mret (to_category <$> cs).
Definition CreateCategory (c : TagCategory) : gio TagCategory := io_wrap (wrap "failed to create category, error: ") (store_CreateCategory c).
Definition UpdateCategory (id : Z) (c : TagCategory) : gio TagCategory :=
  io_wrap (wrap "failed to update category, error: ") (store_UpdateCategory (mk_tc id (tc_Name c) (tc_ShowName c) (tc_Scope c) (tc_Enabled c))).
Definition DeleteCategory (id : Z) : gio unit := io_wrap (wrap "failed to delete category, error: ") (store_DeleteCategory id).

(** ** What a push does (component/callback/git_callback.go) *)

Record Commit := mk_commit { cm_Added : list bytes; cm_Removed : list bytes; cm_Modified : list bytes }.

Section callback.
(** A file of the git server at a reference, and the component of runtime
    architectures, called for a model's files. *)
Variable GetRepoFileRaw : bytes → bytes → bytes → bytes → bytes → option bytes.
Context {model_info : Type}.
Variable UpdateModelMetadata : tagged_repo → gio model_info.
Variable UpdateRuntimeFrameworkTag : model_info → tagged_repo → gio unit.

Definition getTagScopeByRepoType (repoType : bytes) : option bytes :=
  if decide (repoType = DatasetRepo ++ bs "s") then Some DatasetTagScope else if decide (repoType = ModelRepo ++ bs "s") then Some ModelTagScope
  else if decide (repoType = PromptRepo ++ bs "s") then Some PromptTagScope else if decide (repoType = MCPServerRepo ++ bs "s") then Some MCPTagScope
  else if decide (repoType = CodeRepo ++ bs "s") then Some CodeTagScope else if decide (repoType = SpaceRepo ++ bs "s") then Some SpaceTagScope else None.
Definition invalid_type : goerr := NewError (bs "get tag scope by invalid repo type").
(** [strings.TrimRight] by s. *)
Definition TrimRight_s (t : bytes) : bytes := reverse (drop_while (λ c, bool_decide (c = "s"%char)) (reverse t)).
Definition getFileRaw (repoType namespace repoName ref fileName : bytes) : gio bytes :=
  io_wrap (wrap "failed to get file content,cause: ") (
    next_fault;;
    match GetRepoFileRaw (TrimRight_s repoType) namespace repoName ref fileName with Some c => mret c | None => io_fail (NewError (bs "file not found")) end).
Definition updateMetaTags (repoType namespace repoName content : bytes) : gio unit :=
  match getTagScopeByRepoType repoType with
  | None => io_fail (wrap "failed to get tag scope for update repo meta tags, error: " invalid_type)
  | Some tagScope => io_wrap (wrap "failed to update met tags, cause: ") (UpdateMetaTags tagScope namespace repoName content);; mret tt
  end.
Definition isValidForRuntime (fileNames : list bytes) : bool :=
  existsb (λ f, Contains f (bs "config.json") || Contains f (bs "model_index.json") || Contains f ReadmeFileName || Contains f (bs "safetensors") || Contains f (bs "gguf")) fileNames.
Definition updateModelInfo (namespace repoName : bytes) (fileNames : list bytes) : gio unit :=
  if decide (fileNames = []) then mret tt
  else
    repo ← FindByPath ModelRepo namespace repoName;
    if isValidForRuntime fileNames then info ← UpdateModelMetadata repo; UpdateRuntimeFrameworkTag info repo else mret tt.

(** *** Datasets *)

Definition FindByRepo (category namespace repoName repoType : bytes) : gio TagRule :=
  tg_row (λ s, found_by (λ u, LOWER (tu_RepoName u) = LOWER repoName ∧ tu_Namespace u = namespace ∧ tu_RepoType u = repoType ∧ tu_Category u = category) (tt_rules s)).
(** A rule's tag, whose id is zero when there is none. *)
Definition rule_tag (s : tag_state) (u : TagRule) : Z :=
  default 0 (tg_ID <$> found_by (λ t, tg_Name t = tu_TagName u ∧ tg_Category t = tu_Category u) (tt_tags s)).
(** The path's second part is taken without a look. *)
Definition OriginNamespaceAndName (r : tagged_repo) : outcome goerr (bytes * bytes) :=
  let origin := if decide (tp_HFPath r ≠ []) then tp_HFPath r else if decide (tp_MSPath r ≠ []) then tp_MSPath r else tp_Path r in
  match Split origin (bs "/") with ns :: n :: _ => Ret (ns, n) | _ => Panic end.
Definition origin_of (r : tagged_repo) : gio (bytes * bytes) := λ w, (OriginNamespaceAndName r, w).
(** A rule of the path, or of the path it was mirrored from, which may be asked
    to have both parts; no row is no rule. *)
Definition rule_or_origin (category namespace repoName : bytes) (repo : tagged_repo) (need_names : bool) (on_error : goerr → gio (option TagRule)) : gio (option TagRule) :=
  r ← io_try (FindByRepo category namespace repoName DatasetRepo);
  match r with
  | Ok u => mret (Some u)
  | Err e =>
      if Is e ErrNoRows then
        '(ns, n) ← origin_of repo;
        if decide (need_names = true ∧ (ns = [] ∨ n = [])) then mret None
        else r ← io_try (FindByRepo category ns n DatasetRepo); mret (match r with Ok u => Some u | Err _ => None end)
      else on_error e
  end.
Definition runtime_tag (u : TagRule) : gio (list Z) :=
  r ← io_try (FindTag (tu_RuntimeFramework u) DatasetRepo (bs "runtime_framework")); mret (match r with Ok t => [tg_ID t] | Err _ => [] end).
Definition eval_ids (eval : option TagRule) : gio (list Z) :=
  match eval with
  | Some u => if decide (tu_RuntimeFramework u = []) then mret [] else s ← io_gets gt_state; ids ← runtime_tag u; mret (rule_tag s u :: ids)
  | None => mret []
  end.
Definition task_ids (task : option TagRule) : gio (list Z) :=
  match task with
  | Some u =>
      s ← io_gets gt_state;
      if decide (0 < rule_tag s u) then ids ← (if decide (tu_RuntimeFramework u = []) then mret [] else runtime_tag u); mret (rule_tag s u :: ids) else mret []
  | None => mret []
  end.
Definition updateDatasetTags (namespace repoName : bytes) (fileNames : list bytes) : gio unit :=
  if decide (repoName ++ bs ".py" ∈ fileNames) then mret tt
  else
    repo ← io_wrap (wrap "fail to query repo for in callback, cause: ") (FindByPath DatasetRepo namespace repoName);
    eval ← rule_or_origin (bs "evaluation") namespace repoName repo false (λ e, io_fail (wrap "failed to query evaluation dataset, cause: " e));
    task ← rule_or_origin (bs "task") namespace repoName repo true (λ _, mret None);
    evalIds ← eval_ids eval; taskIds ← task_ids task;
    match evalIds ++ taskIds with [] => mret tt | ids => UpsertRepoTags (tp_ID repo) [] ids end.
Definition updateRepoRelations (repoType namespace repoName : bytes) (fileNames : list bytes) : gio unit :=
  if decide (repoType = ModelRepo ++ bs "s") then updateModelInfo namespace repoName fileNames
  else if decide (repoType = DatasetRepo ++ bs "s") then updateDatasetTags namespace repoName fileNames
  else mret tt.

(** *** The files of a commit *)

Definition modifyFiles (repoType namespace repoName ref : bytes) (fileNames : list bytes) : gio unit :=
  (if decide (ReadmeFileName ∈ fileNames) then
     content ← getFileRaw repoType namespace repoName ref ReadmeFileName; io_try (updateMetaTags repoType namespace repoName content);; mret tt
   else mret tt);;
  updateRepoRelations repoType namespace repoName fileNames.
Fixpoint each_file (f : bytes → gio unit) (fileNames : list bytes) : gio unit := match fileNames with [] => mret tt | n :: ns => f n;; each_file f ns end.
Definition library_file (e : string) (repoType namespace repoName old new : bytes) : gio unit :=
  match getTagScopeByRepoType repoType with
  | None => io_fail (wrap "failed to get tag scope for repo library file, error: " invalid_type)
  | Some tagScope => io_wrap (wrap e) (UpdateLibraryTags tagScope namespace repoName old new)
  end.
Definition remove_file (repoType namespace repoName fileName : bytes) : gio unit :=
  if decide (fileName = ReadmeFileName) then io_wrap (wrap "failed to clear met tags,cause: ") (ClearMetaTags (TrimSuffix repoType (bs "s")) namespace repoName)
  else library_file "failed to remove Library tag, cause: " repoType namespace repoName fileName [].
Definition removeFiles (repoType namespace repoName : bytes) (fileNames : list bytes) : gio unit :=
  io_try (updateRepoRelations repoType namespace repoName fileNames);; each_file (remove_file repoType namespace repoName) fileNames.
Definition add_file (repoType namespace repoName ref fileName : bytes) : gio unit :=
  if decide (fileName = ReadmeFileName) then content ← getFileRaw repoType namespace repoName ref fileName; updateMetaTags repoType namespace repoName content
  else library_file "failed to add Library tag, cause: " repoType namespace repoName [] fileName.
Definition updateRepoTags (repoType namespace repoName ref : bytes) (fileNames : list bytes) : gio unit := each_file (add_file repoType namespace repoName ref) fileNames.
Definition addFiles (repoType namespace repoName ref : bytes) (fileNames : list bytes) : gio unit :=
  if decide (fileNames = []) then mret tt
  else updateRepoTags repoType namespace repoName ref fileNames;; updateRepoRelations repoType namespace repoName fileNames.

(** [strings.Cut] by _ *)
Definition split_name (fullName : bytes) : option (bytes * bytes * bytes) :=
  match Split fullName (bs "/") with
  | fullNamespace :: repoName :: _ =>
      let '(repoType, namespace) := match Cut fullNamespace (bs "_") with Some x => x | None => (fullNamespace, []) end in Some (repoType, namespace, repoName)
  | _ => None
  end.
(** The error of the last step, which gives none, is what is returned: the
    errors of the commits are dropped. *)
Definition updateDescriptionFromReadme : gio unit := mret tt.
Fixpoint each_commit (repoType namespace repoName ref : bytes) (commits : list Commit) : gio unit :=
  match commits with
  | [] => mret tt
  | c :: cs =>
      io_try (modifyFiles repoType namespace repoName ref (cm_Modified c));; io_try (removeFiles repoType namespace repoName (cm_Removed c));;
      io_try (addFiles repoType namespace repoName ref (cm_Added c));; each_commit repoType namespace repoName ref cs
  end.
Definition UpdateRepoInfos (fullName ref : bytes) (commits : list Commit) : gio unit :=
  match split_name fullName with
  | None => λ w, (Panic, w)
  | Some (repoType, namespace, repoName) => each_commit repoType namespace repoName ref commits;; updateDescriptionFromReadme
  end.
End callback.
End tags.

Example library_files : LibraryTag (λ r, r) (bs "a/Pytorch_model.Bin") = bs "pytorch" ∧ LibraryTag (λ r, r) (bs "1-pytorch_model_001.bin") = [] ∧ Base (bs "a/b//") = bs "b".
Proof. vm_compute. done. Qed.
Example readme_category : formatCategoryName (bs "Pipeline_Tag") = bs "task" ∧ formatCategoryName (bs "industry") = bs "industry" ∧ metaText (bs "--- x ---") = bs " x ".
Proof. vm_compute. done. Qed.
