(* ===== verification/TgSpec.v ===== *)
(** Tags: every operation is a sequence of guarded changes, what they keep, and
    what the files and the front matter of a repository make of its tags. *)
From Stdlib Require Import Sorting.Sorted.
From S2P Require Import Prelude GoLib GoJson Sensitive Errorx AcAccess AcSpec TgTag.
Open Scope Z_scope.

(** ** The changes *)

Definition framework (t : Tag) : Prop := tg_Category t = bs "framework".
(** Changes that leave the counts of library files alone. *)
Inductive quiet_step : tag_state → tag_state → Prop :=
  | st_insert ts s : NoDup (tag_key <$> tt_tags s ++ ts) → quiet_step s (with_tags (λ l, l ++ numbered (tt_next s) ts) (tt_next s + len (numbered (tt_next s) ts)) s)
  | st_meta repoID ts s : Forall (λ t, t ∈ tt_tags s ∧ ¬ framework t) ts →
      quiet_step s (with_rows (λ m, with_ones repoID (tg_ID <$> ts) (without repoID (meta_ids s repoID) m)) s)
  | st_relate repoID ids s : Forall (λ id, ∀ t, t ∈ tt_tags s → tg_ID t = id → ¬ framework t) ids →
      quiet_step s (with_rows (λ m, foldl (λ m id, count_up (repoID, id) m) m ids) s)
  | st_unrelate repoID ids s : Forall (λ id, ∀ t, t ∈ tt_tags s → tg_ID t = id → ¬ framework t) ids → quiet_step s (with_rows (without repoID ids) s)
  | st_metadata f s : quiet_step s (with_metadata f s)
  | st_license repo l s : found_by (λ r, tp_ID r = tp_ID repo) (tt_repos s) = Some repo →
      quiet_step s (with_repos (fmap (λ r, if decide (tp_ID r = tp_ID repo) then set_license l repo else r)) s).
Inductive tag_step : tag_state → tag_state → Prop :=
  | st_quiet s s' : quiet_step s s' → tag_step s s'
  | st_library repoID new old s :
      tag_step s (with_rows (λ m, optional new (λ t, count_up (repoID, tg_ID t)) (optional old (λ t, count_down (repoID, tg_ID t)) m)) s)
  | st_upsert repoID old new s :
      tag_step s (with_rows (λ m, foldl (λ m id, count_up (repoID, id) m) (foldl (λ m id, count_down (repoID, id) m) m old) new) s)
  | st_update t s : ¬ (Exists (λ x, tg_ID x = tg_ID t) (tt_tags s) ∧ Exists (λ x, tg_ID x ≠ tg_ID t ∧ tag_key x = tag_key t) (tt_tags s)) →
      tag_step s (with_tags (fmap (λ x, if decide (tg_ID x = tg_ID t) then t else x)) (tt_next s) s)
  | st_delete id s : tag_step s (with_rows (filter (λ kv, kv.1.2 ≠ id)) (with_tags (filter (λ t, tg_ID t ≠ id)) (tt_next s) s))
  | st_remove repoID ids s : tag_step s (with_rows (without repoID ids) s)
  | st_categories f n s : tag_step s (with_categories f n s).

(** *** What they keep *)

(** No count is negative. *)
Definition counted (m : tag_rows) : Prop := map_Forall (λ _ c, 0 ≤ c) m.
(** Ids and keys are unique, ids were given out, and counts are counts. *)
Definition tags_ok (s : tag_state) : Prop :=
  NoDup (tag_key <$> tt_tags s) ∧ NoDup (tg_ID <$> tt_tags s) ∧ Forall (λ t, 0 < tg_ID t < tt_next s) (tt_tags s) ∧ 0 < tt_next s ∧
  counted (tt_rows s) ∧ NoDup (tp_ID <$> tt_repos s).

Lemma numbered_key n ts : tag_key <$> numbered n ts = tag_key <$> ts.
Proof. unfold numbered. rewrite fmap_imap. apply list_eq. intros i. rewrite list_lookup_imap, list_lookup_fmap. by destruct (ts !! i). Qed.
Lemma numbered_elem n ts t : t ∈ numbered n ts → n ≤ tg_ID t < n + len ts ∧ ∃ x, x ∈ ts ∧ t = with_tag_id (tg_ID t) x.
Proof.
  intros (i & Hi)%list_elem_of_lookup. unfold numbered in Hi. rewrite list_lookup_imap in Hi. destruct (ts !! i) as [x|] eqn:Hx; [|done].
  injection Hi as <-. apply lookup_lt_Some in Hx as Hlt. cbn. unfold len. split; [lia|]. exists x. split; [by eapply list_elem_of_lookup_2|done].
Qed.
Lemma numbered_ids n ts : NoDup (tg_ID <$> numbered n ts).
Proof.
  apply NoDup_alt. intros i j x. unfold numbered. rewrite !list_lookup_fmap, !list_lookup_imap. destruct (ts !! i), (ts !! j); cbn; try done.
  intros [= <-] [= Heq]. lia.
Qed.
Lemma len_numbered n ts : len (numbered n ts) = len ts.
Proof. unfold len, numbered. by rewrite length_imap. Qed.

Lemma counted_up k m : counted m → counted (count_up k m).
Proof.
  intros Hm k' c. unfold count_up. destruct (decide (k = k')) as [<-|Hne].
  - rewrite lookup_partial_alter_eq. intros [= <-]. destruct (m !! k) as [c|] eqn:Hc; cbn; [pose proof (Hm k c Hc) as H; cbn in H; lia|lia].
  - rewrite lookup_partial_alter_ne by done. apply Hm.
Qed.
Lemma counted_down k m : counted m → counted (count_down k m).
Proof.
  intros Hm k' c. unfold count_down. destruct (decide (k = k')) as [<-|Hne].
  - rewrite lookup_alter_eq. destruct (m !! k) as [c'|] eqn:Hc; [|done]. intros [= <-]. pose proof (Hm k c' Hc) as H. cbn in H. case_decide; lia.
  - rewrite lookup_alter_ne by done. apply Hm.
Qed.
Lemma counted_ones repoID ids m : counted m → counted (with_ones repoID ids m).
Proof. intros Hm. induction ids as [|id ids IH]; [done|]. by apply map_Forall_insert_2. Qed.
Lemma counted_filter (P : (Z * Z) * Z → Prop) `{!∀ x, Decision (P x)} m : counted m → counted (filter P m).
Proof. intros Hm k c (Hc & _)%map_lookup_filter_Some. by eapply Hm. Qed.
Lemma counted_fold (f : Z → tag_rows → tag_rows) ids m : (∀ i m, counted m → counted (f i m)) → counted m → counted (foldl (λ m i, f i m) m ids).
Proof. intros Hf. revert m. induction ids as [|i ids IH]; intros m Hm; [done|]. cbn. apply IH, Hf, Hm. Qed.
Create HintDb counted.
#[export] Hint Resolve counted_up counted_down counted_ones counted_filter : counted.

Lemma found_id s repo : NoDup (tp_ID <$> tt_repos s) → found_by (λ r, tp_ID r = tp_ID repo) (tt_repos s) = Some repo →
  ∀ r, r ∈ tt_repos s → tp_ID r = tp_ID repo → r = repo.
Proof. intros Hnd (Hin & _)%found_by_Some r Hr Heq. by apply (keyed_eq tp_ID (tt_repos s)). Qed.
Lemma step_ok s s' : tag_step s s' → tags_ok s → tags_ok s'.
Proof.
  unfold tags_ok. intros Hstep (Hkey & Hid & Hlt & Hpos & Hc & Hrepo).
  destruct Hstep as [? ? [ts s Hnew|repoID ts s Hts|repoID ids s Hids|repoID ids s Hids|f s|repo l s Hfound]|repoID new old s|repoID old new s|t s Hno|id s|repoID ids s|f n s]; cbn [tt_tags tt_rows tt_next tt_repos with_tags with_rows with_repos with_categories with_metadata].
  - rewrite len_numbered. split_and!; [| | | |done|done].
    + by rewrite fmap_app, numbered_key, <- fmap_app.
    + rewrite fmap_app. apply NoDup_app. split_and!; [done| |apply numbered_ids]. intros i (x & -> & Hx)%list_elem_of_fmap (y & Heq & Hy)%list_elem_of_fmap.
      rewrite Forall_forall in Hlt. specialize (Hlt x Hx). apply numbered_elem in Hy as (? & _). lia.
    + apply Forall_app. split; [eapply Forall_impl; [exact Hlt|intros x Hx; cbn in *; unfold len; lia]|].
      apply Forall_forall. intros x (? & _)%numbered_elem. lia.
    + unfold len. lia.
  - split_and!; try done. unfold without. auto with counted.
  - split_and!; try done. apply (counted_fold (λ id, count_up (repoID, id))); auto with counted.
  - split_and!; try done. unfold without. apply (counted_filter (λ kv, ¬ (kv.1.1 = repoID ∧ kv.1.2 ∈ ids))), Hc.
  - done.
  - split_and!; try done. rewrite <- list_fmap_compose. erewrite list_fmap_ext; [exact Hrepo|]. intros i r Hr. cbn. by case_decide.
  - split_and!; try done. destruct new, old; cbn; auto with counted.
  - split_and!; try done. apply (counted_fold (λ id, count_up (repoID, id))); [auto with counted|]. apply (counted_fold (λ id, count_down (repoID, id))); auto with counted.
  - assert (tg_ID <$> ((λ x, if decide (tg_ID x = tg_ID t) then t else x) <$> tt_tags s) = tg_ID <$> tt_tags s) as Hids.
    { rewrite <- list_fmap_compose. apply list_fmap_ext. intros i x Hx. cbn. by case_decide. }
    split_and!; [|by rewrite Hids| |done..].
    + apply NoDup_fmap_2_strong; [|eapply NoDup_fmap_1; by rewrite Hids].
      intros x y (x' & -> & Hx)%list_elem_of_fmap (y' & -> & Hy)%list_elem_of_fmap Heq.
      assert (∀ z, z ∈ tt_tags s → tg_ID z ≠ tg_ID t → ∀ z', z' ∈ tt_tags s → tg_ID z' = tg_ID t → tag_key z ≠ tag_key t) as Hsep.
      { intros z Hz Hne z' Hz' Heq' Hk. apply Hno. split; apply Exists_exists; eauto. }
      repeat case_decide; [done| | |].
      * by destruct (Hsep y' Hy ltac:(done) x' Hx ltac:(done)).
      * by destruct (Hsep x' Hx ltac:(done) y' Hy ltac:(done)).
      * by apply (keyed_eq tag_key (tt_tags s)).
    + apply Forall_fmap. eapply Forall_impl; [exact Hlt|]. intros x Hx. cbn. case_decide as Heq; [by rewrite <- Heq|done].
  - split_and!; [|  | |done| |done].
    + eapply sublist_NoDup; [exact Hkey|]. apply fmap_sublist, sublist_filter.
    + eapply sublist_NoDup; [exact Hid|]. apply fmap_sublist, sublist_filter.
    + apply Forall_forall. intros x (_ & Hx)%list_elem_of_filter. rewrite Forall_forall in Hlt. auto.
    + apply (counted_filter (λ kv, kv.1.2 ≠ id)), Hc.
  - split_and!; try done. unfold without. apply (counted_filter (λ kv, ¬ (kv.1.1 = repoID ∧ kv.1.2 ∈ ids))), Hc.
  - done.
Qed.

(** A repository's paths and git path stay. *)
Definition has_slash (path : bytes) : Prop := (2 ≤ length (Split path (bs "/")))%nat.
Definition splits (r : tagged_repo) : Prop :=
  has_slash (tp_Path r) ∧ (tp_HFPath r ≠ [] → has_slash (tp_HFPath r)) ∧ (tp_MSPath r ≠ [] → has_slash (tp_MSPath r)) ∧ (tp_CSGPath r ≠ [] → has_slash (tp_CSGPath r)).
Lemma slash_parts path : has_slash path → ∃ a b rest, Split path (bs "/") = a :: b :: rest.
Proof. unfold has_slash. destruct (Split path _) as [|a [|b rest]]; cbn; [lia..|by eauto]. Qed.
Lemma splits_origin r : splits r → OriginNamespaceAndName r ≠ Panic.
Proof.
  intros (Hp & Hhf & Hms & _). unfold OriginNamespaceAndName. set (o := if decide (tp_HFPath r ≠ []) then _ else _).
  assert (has_slash o) as (a & b & rest & ->)%slash_parts; [|done]. unfold o. repeat case_decide; auto.
Qed.
Definition unlicensed (r : tagged_repo) : tagged_repo := set_license [] r.
Lemma step_repos s s' : tags_ok s → tag_step s s' → unlicensed <$> tt_repos s' = unlicensed <$> tt_repos s.
Proof.
  intros Hok Hstep. destruct Hstep as [? ? [| | | | |repo l s0 Hfound]| | | | | |]; try done. destruct Hok as (_ & _ & _ & _ & _ & Hnd). cbn [with_repos tt_repos]. rewrite <- list_fmap_compose. apply list_fmap_ext.
  intros i r Hr%list_elem_of_lookup_2. unfold compose. case_decide as Heq; [|done]. by rewrite (found_id _ repo Hnd Hfound r).
Qed.
Lemma same_splits l l' : unlicensed <$> l' = unlicensed <$> l → Forall splits l → Forall splits l'.
Proof.
  intros Heq Hl. assert (Forall splits (unlicensed <$> l')) as Hl'.
  { rewrite Heq. apply Forall_fmap. eapply Forall_impl; [exact Hl|intros r Hr; exact Hr]. }
  rewrite Forall_fmap in Hl'. eapply Forall_impl; [exact Hl'|intros r Hr; exact Hr].
Qed.
(** Well-formed, with repositories whose paths have two parts. *)
Definition fit (p : Prop) (s : tag_state) : Prop := tags_ok s ∧ (p ∨ Forall splits (tt_repos s)).
Lemma rtc_fit (R : tag_state → tag_state → Prop) p s s' : (∀ x y, R x y → tag_step x y) → rtc R s s' → fit p s → fit p s'.
Proof.
  intros Hsub Hr. induction Hr as [|x y z Hxy _ IH]; [done|]. intros [Hok Hp]. apply Hsub in Hxy. apply IH. split; [by eapply step_ok|].
  destruct Hp as [?|Hp]; [by left|right]. by eapply same_splits; [apply step_repos|].
Qed.

(** ** Walks

    [goes m Q w]: however calls fail, [m] leads from [w] along the steps of [R]
    to where [Q] holds of what it returns; [p] says whether it may panic. *)
Section walks.
Context (R : tag_state → tag_state → Prop) (p : Prop).
Definition goes {A} (m : gio A) (Q : result A goerr → tag_state → Prop) (w : tag_world) : Prop :=
  rtc R (gt_state w) (gt_state (snd (m w))) ∧ (undisturbed w → undisturbed (snd (m w))) ∧
  match fst (m w) with Ret a => Q (Ok a) (gt_state (snd (m w))) | Fail e => Q (Err e) (gt_state (snd (m w))) | Panic => p end.

Lemma goes_ret {A} (a : A) Q w : Q (Ok a) (gt_state w) → goes (mret a) Q w.
Proof. intros HQ. by split_and!. Qed.
Lemma goes_fail {A} e (Q : result A goerr → tag_state → Prop) w : Q (Err e) (gt_state w) → goes (io_fail e) Q w.
Proof. intros HQ. by split_and!. Qed.
Lemma goes_bind {A B} (m : gio A) (f : A → gio B) Q w :
  goes m (λ r s, match r with Ok a => ∀ w', gt_state w' = s → goes (f a) Q w' | Err e => Q (Err e) s end) w → goes (m ≫= f) Q w.
Proof.
  unfold goes. unfold mbind, io_bind. intros (Hr & Hf & HQ). destruct (m w) as [[a|e|] w'] eqn:Hm; cbn in *; [|done..].
  destruct (HQ w' eq_refl) as (Hr' & Hf' & HQ'). split_and!; [by etrans|auto|done].
Qed.
Lemma goes_wrap {A} g (m : gio A) Q w : goes m (λ r s, match r with Ok a => Q (Ok a) s | Err e => Q (Err (g e)) s end) w → goes (io_wrap g m) Q w.
Proof. unfold goes, io_wrap. by destruct (m w) as [[a|e|] w']. Qed.
Lemma goes_try {A} (m : gio A) Q w : goes m (λ r s, Q (Ok r) s) w → goes (io_try m) Q w.
Proof. unfold goes, io_try. by destruct (m w) as [[a|e|] w']. Qed.
Lemma goes_fault Q w : Q (Ok tt) (gt_state w) → (∀ e, Q (Err e) (gt_state w)) → goes next_fault Q w.
Proof. intros HQ He. unfold goes, next_fault. destruct w as [[|[e|] fs] s]; cbn in *; by split_and!. Qed.
Lemma goes_gets {A} (f : tag_world → A) Q w : Q (Ok (f w)) (gt_state w) → goes (io_gets f) Q w.
Proof. intros HQ. by split_and!. Qed.
Lemma goes_modify f Q w : rtc R (gt_state w) (f (gt_state w)) → Q (Ok tt) (f (gt_state w)) → goes (io_modify (on_state f)) Q w.
Proof. intros HR HQ. by split_and!. Qed.
Lemma goes_weaken {A} (m : gio A) Q Q' w : goes m Q w → (∀ r s, rtc R (gt_state w) s → Q r s → Q' r s) → goes m Q' w.
Proof. unfold goes. intros (Hr & Hf & HQ) Hsub. split_and!; [done|done|]. by destruct (fst (m w)); [apply Hsub..|]. Qed.
Lemma goes_true {A} (m : gio A) Q w : goes m Q w → goes m (λ _ _, True) w.
Proof. intros Hm. by eapply goes_weaken. Qed.
(** A part whose errors do not matter. *)
Lemma goes_wrap_true {A} g (m : gio A) w : goes m (λ _ _, True) w → goes (io_wrap g m) (λ _ _, True) w.
Proof. intros Hm. apply goes_wrap. eapply goes_weaken; [exact Hm|]. by intros [] ? _ _. Qed.
Lemma goes_then {A B} (m : gio A) (f : A → gio B) w : goes m (λ _ _, True) w → (∀ a w', rtc R (gt_state w) (gt_state w') → goes (f a) (λ _ _, True) w') → goes (m ≫= f) (λ _ _, True) w.
Proof. intros Hm Hf. apply goes_bind. eapply goes_weaken; [exact Hm|]. intros [a|e] s Hs _; [|done]. intros w' <-. by apply Hf. Qed.
Lemma goes_read {A} (f : tag_state → A) Q w : Q (Ok (f (gt_state w))) (gt_state w) → (∀ e, Q (Err e) (gt_state w)) → goes (tg_read f) Q w.
Proof. intros HQ He. apply goes_bind, goes_fault; [|done]. intros w' Hw. apply goes_gets. by rewrite Hw. Qed.
Lemma goes_row {A} (f : tag_state → option A) Q w : (∀ x, f (gt_state w) = Some x → Q (Ok x) (gt_state w)) → (∀ e, Q (Err e) (gt_state w)) → goes (tg_row f) Q w.
Proof.
  intros HQ He. apply goes_bind, goes_read; [|done]. intros w' Hw. destruct (f (gt_state w)) as [x|] eqn:Hx; [apply goes_ret|apply goes_fail]; rewrite Hw; auto.
Qed.
Lemma goes_statements n Q w : Q (Ok tt) (gt_state w) → (∀ e, Q (Err e) (gt_state w)) → goes (statements n) Q w.
Proof.
  intros HQ He. revert w HQ He. induction n as [|n IH]; intros w HQ He; [by apply goes_ret|]. apply goes_bind, goes_fault; [|done]. intros w' Hw.
  apply IH; by rewrite Hw.
Qed.
End walks.

(** One step of a walk whose errors do not matter. *)
Ltac at_state := repeat match goal with H : gt_state ?w = _ |- context [gt_state ?w] => rewrite H end.
Ltac at_state_in H' := repeat match goal with H : gt_state ?w = _ |- _ => match type of H' with context [gt_state w] => rewrite H in H' end end.
Ltac go :=
  cbv beta iota; at_state;
  match goal with
  | |- ∀ w', gt_state w' = _ → _ => let w := fresh "w" in let H := fresh "Hst" in intros w H
  | |- ∀ e : goerr, _ => by intros ?
  | |- goes _ _ (mret _) _ _ => apply goes_ret
  | |- goes _ _ (io_fail _) _ _ => apply goes_fail
  | |- goes _ _ (_ ≫= _) _ _ => apply goes_bind
  | |- goes _ _ (io_wrap _ _) _ _ => apply goes_wrap
  | |- goes _ _ (io_try _) _ _ => apply goes_try
  | |- goes _ _ next_fault _ _ => apply goes_fault
  | |- goes _ _ (statements _) _ _ => apply goes_statements
  | |- goes _ _ (tg_read _) _ _ => apply goes_read
  | |- goes _ _ (tg_row _) _ _ => let x := fresh "x" in let H := fresh "Hrow" in apply goes_row; [intros x H; at_state_in H|]
  | |- goes _ _ (io_gets _) _ _ => apply goes_gets
  | |- goes _ _ (if decide ?P then _ else _) _ _ => destruct (decide P)
  | |- goes _ _ (match ?x with _ => _ end) _ _ => destruct x eqn:?
  end.
Ltac gos := repeat (go; try done).

(** ** The operations *)

Section tags.
Variables (LOWER : bytes → bytes) (like : bytes → bytes → bool) (unicode_lower : Z → Z) (yaml_Unmarshal : bytes → option (list (bytes * yaml)))
  (range_order : list (bytes * list bytes) → list (bytes * list bytes)) (has_checker : bool) (is_sensitive : bytes → bool).

Section insert.
Context (R : tag_state → tag_state → Prop) (p : Prop).
Definition inserted (ts : list Tag) (s : tag_state) : tag_state := with_tags (λ l, l ++ numbered (tt_next s) ts) (tt_next s + len (numbered (tt_next s) ts)) s.
Context (Hinsert : ∀ ts s, NoDup (tag_key <$> tt_tags s ++ ts) → R s (inserted ts s)).
Abbreviation goes := (goes R p).
Lemma goes_insert ts Q w : (∀ e, Q (Err e) (gt_state w)) →
  (NoDup (tag_key <$> tt_tags (gt_state w) ++ ts) →
    let ts' := numbered (tt_next (gt_state w)) ts in Q (Ok ts') (with_tags (λ l, l ++ ts') (tt_next (gt_state w) + len ts') (gt_state w))) → goes (tag_insert ts) Q w.
Proof.
  intros He HQ. unfold tag_insert. gos; [|by at_state]. apply goes_modify; at_state; [by apply rtc_once, Hinsert|]. intros w' Hw'. go. at_state. by apply HQ.
Qed.
(** Saved tags are in the table, those there were stay. *)
Definition grown (s s' : tag_state) : Prop := ∀ t, t ∈ tt_tags s → t ∈ tt_tags s'.
Lemma goes_SaveTags ts w : goes (SaveTags ts) (λ r s, match r with Ok ts' => grown (gt_state w) s ∧ Forall (λ t, t ∈ tt_tags s) ts' | Err _ => True end) w.
Proof.
  unfold SaveTags. destruct ts as [|t ts]; [go; split; [by intros ?|constructor]|]. go. apply goes_insert; [done|]. intros _. cbv zeta. split.
  - intros x Hx. cbn. apply elem_of_app. by left.
  - apply Forall_forall. intros x Hx. cbn [with_tags tt_tags]. apply elem_of_app. by right.
Qed.
End insert.

Section license.
Context (R : tag_state → tag_state → Prop) (p : Prop).
Definition licensed (repo : tagged_repo) (l : bytes) (s : tag_state) : tag_state :=
  with_repos (fmap (λ r, if decide (tp_ID r = tp_ID repo) then set_license l repo else r)) s.
Context (Hlicense : ∀ repo l s, found_by (λ r, tp_ID r = tp_ID repo) (tt_repos s) = Some repo → R s (licensed repo l s)).
Lemma goes_license id w : goes R p (UpdateLicenseByTag id) (λ _ _, True) w.
Proof.
  unfold UpdateLicenseByTag. gos. apply goes_modify; at_state; [|done]. apply rtc_once.
  match goal with H : found_by _ _ = Some _ |- _ => pose proof H as (_ & Hid)%found_by_Some end. subst id. by apply Hlicense.
Qed.
End license.

Section quiet.
Context (R : tag_state → tag_state → Prop) (p : Prop) (Hquiet : ∀ s s', quiet_step s s' → R s s').
Abbreviation goes := (goes R p).
Lemma quiet_once s s' : quiet_step s s' → rtc R s s'.
Proof. intros H. by apply rtc_once, Hquiet. Qed.

Lemma goes_repo ty ns name Q w : (∀ r, Q (Ok r) (gt_state w)) → (∀ e, Q (Err e) (gt_state w)) → goes (repo_by_git_path LOWER ty ns name) Q w.
Proof. intros HQ He. unfold repo_by_git_path. by gos. Qed.
Lemma goes_path ty ns name Q w : (∀ r, r ∈ tt_repos (gt_state w) → Q (Ok r) (gt_state w)) → (∀ e, Q (Err e) (gt_state w)) → goes (FindByPath LOWER ty ns name) Q w.
Proof.
  intros HQ He. unfold FindByPath. gos. match goal with H : found_by _ _ = Some _ |- _ => apply found_by_Some in H as (? & _) end. by apply HQ.
Qed.
Lemma goes_SetMeta ty ns name ts w : Forall (λ t, t ∈ tt_tags (gt_state w)) ts → goes (SetMetaTags LOWER ty ns name ts) (λ _ _, True) w.
Proof.
  intros Hin. unfold SetMetaTags. go. go. go. apply goes_repo; [|done]. intros repo. go. go. go; [|done]. go. go. at_state. go. go. go. go. go. go; [|done]. go. go.
  assert (∀ w', gt_state w' = gt_state w → Forall (λ t, ¬ framework t) ts →
    goes (next_fault;; io_modify (on_state (with_rows (λ m, with_ones (tp_ID repo) (tg_ID <$> ts) (without (tp_ID repo) (meta_ids (gt_state w) (tp_ID repo)) m))));;
      mret ((tp_ID repo,.) <$> (tg_ID <$> ts))) (λ _ _, True) w') as Hrest.
  { intros w' Hw' Hno. go. go; [|done]. go. go. apply goes_modify; at_state; [|intros; by go]. apply quiet_once, st_meta. by apply Forall_and. }
  destruct ts as [|t ts]; [go; intros; apply Hrest; [by at_state|done]|]. set (l := t :: ts) in *. destruct (decide (Exists _ l)) as [|Hno]; [by go|].
  go. go. go; [|done]. go. go; go; [|done]. intros; apply Hrest; [by at_state|]. by apply not_Exists_Forall in Hno; [|apply _].
Qed.
End quiet.

(** *** What the front matter names *)

(** A tag of the map is one of the tags, by its category and name. *)
Lemma mapped_tag tags c n t : (m ← mapCategoryTag tags !! c; m !! n) = Some t → t ∈ tags ∧ tg_Category t = c ∧ tg_Name t = n.
Proof.
  unfold mapCategoryTag. set (step := λ (m : gmap bytes (gmap bytes Tag)) t, <[tg_Category t := <[tg_Name t := t]> (default ∅ (m !! tg_Category t))]> m).
  induction tags as [|x tags IH] using rev_ind; [done|]. rewrite foldl_app. cbn [foldl]. set (m := foldl step ∅ tags) in *. unfold step at 1.
  destruct (decide (tg_Category x = c)) as [<-|Hc].
  - rewrite lookup_insert_eq. cbn. destruct (decide (tg_Name x = n)) as [<-|Hn].
    + rewrite lookup_insert_eq. intros [= <-]. split; [|done]. apply elem_of_app. right. by left.
    + rewrite lookup_insert_ne by done. destruct (m !! tg_Category x) as [mx|] eqn:Hmx; cbn; [|by rewrite lookup_empty].
      intros Hx. destruct IH as (? & ?); [exact Hx|]. split; [apply elem_of_app; by left|done].
  - rewrite lookup_insert_ne by done. intros Hx. destruct (IH Hx) as (? & ?). split; [apply elem_of_app; by left|done].
Qed.
Lemma mapped_None tags c n : (m ← mapCategoryTag tags !! c; m !! n) = None → ∀ t, t ∈ tags → tg_Category t = c → tg_Name t ≠ n.
Proof.
  unfold mapCategoryTag. set (step := λ (m : gmap bytes (gmap bytes Tag)) t, <[tg_Category t := <[tg_Name t := t]> (default ∅ (m !! tg_Category t))]> m).
  induction tags as [|x tags IH] using rev_ind; [by intros _ t ?%not_elem_of_nil|]. rewrite foldl_app. cbn [foldl]. set (m := foldl step ∅ tags) in *. unfold step at 1.
  intros Hx t [Ht|Ht%list_elem_of_singleton]%elem_of_app Hc Hn.
  - destruct (decide (tg_Category x = c)) as [<-|Hcx].
    + rewrite lookup_insert_eq in Hx. cbn in Hx. destruct (decide (tg_Name x = n)) as [<-|Hnx]; [by rewrite lookup_insert_eq in Hx|].
      rewrite lookup_insert_ne in Hx by done. refine (IH _ t Ht Hc Hn). by destruct (m !! tg_Category x).
    + rewrite lookup_insert_ne in Hx by done. by refine (IH _ t Ht Hc Hn).
  - subst x. rewrite Hc, Hn in Hx. rewrite lookup_insert_eq in Hx. cbn in Hx. by rewrite lookup_insert_eq in Hx.
Qed.

Definition tag_at (existing : gmap bytes (gmap bytes Tag)) (q : bytes * bytes) : option Tag := m ← existing !! q.1; m !! q.2.
(** What the front matter names in the categories that are known, in order. *)
Definition named_pairs (existing : gmap bytes (gmap bytes Tag)) (m : gmap bytes (list bytes)) : list (bytes * bytes) :=
  range_order (map_to_list m) ≫= λ kv, if existing !! kv.1 is Some _ then (kv.1,.) <$> kv.2 else [].
Definition matched_of existing (qs : list (bytes * bytes)) : list Tag := omap (tag_at existing) qs.
Definition created_of scope existing (qs : list (bytes * bytes)) : list Tag :=
  omap (λ q, match tag_at existing q with Some _ => None | None => Some (new_tag_of scope q.1 q.2) end) qs.
Lemma processTags_pairs scope existing m :
  processTags range_order scope existing m = (matched_of existing (named_pairs existing m), created_of scope existing (named_pairs existing m)).
Proof.
  unfold processTags, named_pairs. set (step := λ acc kv, _). set (l := range_order (map_to_list m)). set (pairs := λ kv : bytes * list bytes, _).
  assert (∀ c tags ns acc, existing !! c = Some tags →
    foldl (λ (acc : list Tag * list Tag) n, match tags !! n with Some t => (acc.1 ++ [t], acc.2) | None => (acc.1, acc.2 ++ [new_tag_of scope c n]) end) acc ns =
    (acc.1 ++ matched_of existing ((c,.) <$> ns), acc.2 ++ created_of scope existing ((c,.) <$> ns))) as Hin.
  { intros c tags ns acc Hc. revert acc. induction ns as [|n ns IH]; intros acc; cbn [foldl]; [by rewrite !app_nil_r; destruct acc|].
    rewrite IH. unfold matched_of, created_of. cbn [fmap list_fmap]. cbn [omap list_omap]. assert (tag_at existing (c, n) = tags !! n) as -> by (unfold tag_at; cbn; by rewrite Hc).
    destruct (tags !! n); cbn; by rewrite <- ?(assoc_L (++)). }
  assert (∀ kv acc, step acc kv = (acc.1 ++ matched_of existing (pairs kv), acc.2 ++ created_of scope existing (pairs kv))) as Hstep.
  { intros kv acc. unfold step, pairs. destruct (existing !! kv.1) as [tags|] eqn:Hc; [by apply Hin|]. by rewrite !app_nil_r; destruct acc. }
  assert (∀ acc, foldl step acc l = (acc.1 ++ matched_of existing (l ≫= pairs), acc.2 ++ created_of scope existing (l ≫= pairs))) as Hl; [|by rewrite Hl].
  clearbody step. induction l as [|kv l IH]; intros acc; cbn [foldl]; [cbn; by rewrite !app_nil_r; destruct acc|].
  rewrite IH, Hstep, bind_cons. unfold matched_of, created_of. rewrite !omap_app. cbn. by rewrite <- !(assoc_L (++)).
Qed.
Lemma matched_in tags qs : Forall (λ t, t ∈ tags) (matched_of (mapCategoryTag tags) qs).
Proof. apply Forall_forall. intros t (q & _ & Ht)%list_elem_of_omap. by apply mapped_tag in Ht as (? & _). Qed.

(** *** The component and the callback *)

Section quiet.
Context (R : tag_state → tag_state → Prop) (p : Prop) (Hquiet : ∀ s s', quiet_step s s' → R s s').
Abbreviation goes := (goes R p).
Lemma goes_drop ts Q w : (∀ r, Q r (gt_state w)) → goes (drop_sensitive is_sensitive ts) Q w.
Proof.
  revert Q w. induction ts as [|t ts IH]; intros Q w HQ; [by apply goes_ret|]. cbn [drop_sensitive]. go. go. go; [|intros e]; cbv beta iota; intros w0 Hw0; go; apply IH; at_state; intros [rest|?]; try done; intros w1 Hw1; go; by at_state.
Qed.
Lemma goes_UpdateMeta scope ns name content w : goes (UpdateMetaTags LOWER like yaml_Unmarshal range_order has_checker is_sensitive scope ns name content) (λ _ _, True) w.
Proof.
  unfold UpdateMetaTags. destruct (repo_type_of scope) as [ty|]; [|by go].
  go. go. assert (goes (ProcessReadme like yaml_Unmarshal range_order scope content)
    (λ r s, match r with Ok mt => s = gt_state w ∧ Forall (λ t, t ∈ tt_tags s) mt.1 | Err _ => True end) w) as Hread.
  { unfold ProcessReadme. destruct (MetaTags _ _) as [m|]; [|by go]. go. go. unfold AllTagsByScope, store_AllTags. go. go; [|done]. intros w' Hw'. go. at_state. split; [done|].
    rewrite processTags_pairs. cbn [fst]. eapply Forall_impl; [apply matched_in|]. by intros t (_ & ?)%list_elem_of_filter. }
  eapply goes_weaken; [exact Hread|]. intros [[matched created]|e] s _ Hs; [|done]. destruct Hs as (-> & Hm). cbn [fst] in Hm. intros w0 Hw0.
  apply goes_bind. assert (∀ Q, (∀ r, Q r (gt_state w)) → goes (if has_checker then drop_sensitive is_sensitive created else mret created) Q w0) as Hdrop.
  { intros Q HQ. destruct has_checker; [apply goes_drop; by at_state|apply goes_ret; by at_state]. }
  apply Hdrop. intros [created'|?]; [|done]. clear Hdrop w0 Hw0. intros w0 Hw0. go. go. eapply goes_weaken; [apply (goes_SaveTags R p (λ ts s H, Hquiet _ _ (st_insert ts s H)))|]. intros [saved|?] s _ Hs; [|done].
  destruct Hs as (Hg & Hsaved). intros w1 Hw1. go. go. apply goes_path; [|done]. intros repo _ w2 Hw2. go. go.
  eapply goes_weaken; [apply (goes_SetMeta R p Hquiet)|].
  { at_state. rewrite Hw0 in Hg. apply Forall_app. split; [|done]. eapply Forall_impl; [exact Hm|]. intros t. apply Hg. }
  intros [?|?] s' _ _; [|done]. intros w3 _. apply goes_then; [go; by eapply goes_weaken; [apply (goes_license R p (λ repo l s H, Hquiet _ _ (st_license repo l s H)))|]|]. intros; by go.
Qed.
Lemma goes_relate repoID ids w : Forall (λ id, ∀ t, t ∈ tt_tags (gt_state w) → tg_ID t = id → ¬ framework t) ids → goes (UpsertRepoTags repoID [] ids) (λ _ _, True) w.
Proof. intros Hids. unfold UpsertRepoTags. go. go; [|done]. intros w' Hw'. apply goes_modify; [|done]. at_state. apply quiet_once; [done|]. by apply st_relate. Qed.
Lemma goes_ClearMeta ty ns name w : goes (ClearMetaTags LOWER ty ns name) (λ _ _, True) w.
Proof. unfold ClearMetaTags. apply goes_then; [by apply goes_SetMeta|]. intros; by go. Qed.

(** *** Datasets *)

Lemma not_framework (s : tag_state) t c : tags_ok s → t ∈ tt_tags s → tg_Category t = c → c ≠ bs "framework" →
  ∀ x, x ∈ tt_tags s → tg_ID x = tg_ID t → ¬ framework x.
Proof. intros (_ & Hid & _) Ht <- Hc x Hx Heq. assert (x = t) as -> by (by apply (keyed_eq tg_ID (tt_tags s))). done. Qed.
Definition fine_id (s : tag_state) (id : Z) : Prop := ∀ t, t ∈ tt_tags s → tg_ID t = id → ¬ framework t.
Lemma rule_tag_fine s u : tags_ok s → tu_Category u ≠ bs "framework" → fine_id s (rule_tag s u).
Proof.
  intros Hok Hu. unfold rule_tag. destruct (found_by _ _) as [t|] eqn:Ht; cbn.
  - apply found_by_Some in Ht as (Ht & _ & Hc). exact (not_framework s t _ Hok Ht Hc Hu).
  - intros x Hx Heq. destruct Hok as (_ & _ & Hlt & _). rewrite Forall_forall in Hlt. specialize (Hlt x Hx). lia.
Qed.
Lemma goes_runtime u Q w : (∀ t, t ∈ tt_tags (gt_state w) → tg_Category t = bs "runtime_framework" → Q (Ok [tg_ID t]) (gt_state w)) → Q (Ok []) (gt_state w) → goes (runtime_tag u) Q w.
Proof.
  intros HQ H0. unfold runtime_tag. go. go. unfold FindTag. go; [|intros e w' Hw'; go; by at_state]. intros w' Hw'. go. at_state.
  match goal with H : found_by _ _ = Some _ |- _ => apply found_by_Some in H as (? & Heq) end. injection Heq as _ ? _. by apply HQ.
Qed.
Lemma goes_find_rule category ns n ty Q w : (∀ u, tu_Category u = category → Q (Ok u) (gt_state w)) → (∀ e, Q (Err e) (gt_state w)) → goes (FindByRepo LOWER category ns n ty) Q w.
Proof. intros HQ He. unfold FindByRepo. go; [|done]. match goal with H : found_by _ _ = Some _ |- _ => apply found_by_Some in H as (_ & _ & _ & _ & ?) end. by apply HQ. Qed.
Lemma goes_rule category ns n repo need on_error Q w : p ∨ splits repo → (∀ o, (∀ u, o = Some u → tu_Category u = category) → Q (Ok o) (gt_state w)) → (∀ e, Q (Err e) (gt_state w)) →
  (∀ e w', gt_state w' = gt_state w → goes (on_error e) Q w') → goes (rule_or_origin LOWER category ns n repo need on_error) Q w.
Proof.
  intros Hp HQ He Hon. unfold rule_or_origin. go. go. apply goes_find_rule.
  - intros u Hu w' Hw'. go. at_state. apply HQ. by intros ? [= <-].
  - intros e w' Hw'. destruct (Is e ErrNoRows); [|by apply Hon]. go. unfold origin_of.
    assert (∀ ns' n', ∀ w'', gt_state w'' = gt_state w → goes (if decide (need = true ∧ (ns' = [] ∨ n' = [])) then mret None
      else r ← io_try (FindByRepo LOWER category ns' n' DatasetRepo); mret (match r with Ok u => Some u | Err _ => None end)) Q w'') as Hrest.
    { intros ns' n' w'' Hw''. go; [go; at_state; by apply HQ|]. go. go. apply goes_find_rule; cbv beta iota; intros; go; at_state; apply HQ; [|done]. by intros ? [= <-]. }
    destruct (OriginNamespaceAndName repo) as [[ns' n']|e'|] eqn:Ho; split_and!; cbn; try done; at_state; try done; [|destruct Hp as [?|Hp]; [done|by apply splits_origin in Hp]].
    intros w'' Hw''. by apply Hrest.
Qed.
Lemma goes_ids (o : option TagRule) Q w : tags_ok (gt_state w) → (∀ u, o = Some u → tu_Category u ≠ bs "framework") →
  (∀ ids, Forall (fine_id (gt_state w)) ids → Q (Ok ids) (gt_state w)) → goes (eval_ids o) Q w ∧ goes (task_ids o) Q w.
Proof.
  intros Hok Hu HQ. destruct o as [u|]; [|split; by apply goes_ret, HQ]. specialize (Hu u eq_refl). pose proof (rule_tag_fine _ u Hok Hu) as Hfine.
  assert (∀ w', gt_state w' = gt_state w → goes (runtime_tag u) (λ r s, match r with Ok ids => s = gt_state w ∧ Forall (fine_id (gt_state w)) ids | Err _ => False end) w') as Hrt.
  { intros w' Hw'. apply goes_runtime; at_state; [|done]. intros t Ht Hc. split; [done|]. constructor; [|done]. exact (not_framework _ t _ Hok Ht Hc ltac:(done)). }
  split.
  - unfold eval_ids. go; [by go; apply HQ|]. go. go. intros w' Hw'. go. eapply goes_weaken; [by apply Hrt|]. intros [ids|?] s _ Hs; [|done]. destruct Hs as (-> & Hids).
    intros w1 Hw1. go. at_state. apply HQ. by constructor.
  - unfold task_ids. go. go. intros w' Hw'. go; [|go; at_state; by apply HQ]. go. assert (∀ Q', (∀ ids, Forall (fine_id (gt_state w)) ids → Q' (Ok ids) (gt_state w)) →
      goes (if decide (tu_RuntimeFramework u = []) then mret [] else runtime_tag u) Q' w') as Hif.
    { intros Q' HQ'. go; [go; at_state; by apply HQ'|]. eapply goes_weaken; [by apply Hrt|]. intros [ids|?] s _ Hs; [|done]. destruct Hs as (-> & Hids). by apply HQ'. }
    apply Hif. intros ids Hids w1 Hw1. go. at_state. apply HQ. by constructor.
Qed.
Lemma goes_dataset ns n files w : tags_ok (gt_state w) → p ∨ Forall splits (tt_repos (gt_state w)) → goes (updateDatasetTags LOWER ns n files) (λ _ _, True) w.
Proof.
  intros Hok Hp. unfold updateDatasetTags. go; [by go|]. go. go. unfold FindByPath. go. go; [|done]. cbv beta iota. intros w0 Hw0.
  match goal with H : found_by _ _ = Some ?r |- _ => assert (p ∨ splits r) as Hr by (destruct Hp as [?|Hp]; [by left|right]; apply found_by_Some in H as (? & _); rewrite Forall_forall in Hp; auto) end.
  go. apply goes_rule; [done| |done|intros; by go]. intros eval Heval w1 Hw1.
  assert (∀ task w2, (∀ u, task = Some u → tu_Category u = bs "task") → gt_state w2 = gt_state w →
    goes (evalIds ← eval_ids eval; taskIds ← task_ids task; match evalIds ++ taskIds with [] => mret tt | ids => UpsertRepoTags (tp_ID x) [] ids end) (λ _ _, True) w2) as Hrest.
  { intros task w2 Htask Hw2. go. apply goes_ids; at_state; [done|by intros u ->%Heval|]. intros ids Hids w3 Hw3. go. apply goes_ids; at_state; [done|by intros u ->%Htask|].
    intros ids' Hids' w4 Hw4. destruct (ids ++ ids') as [|i l] eqn:Hl; [by go|]. apply goes_relate. at_state. rewrite <- Hl. by apply Forall_app. }
  go. apply goes_rule; [done| |done|].
  - intros task Htask w2 Hw2. apply Hrest; [done|by at_state].
  - intros e w' Hw'. go. intros w2 Hw2. apply Hrest; [done|by at_state].
Qed.

(** *** A push *)

Section callback.
Context (GetRepoFileRaw : bytes → bytes → bytes → bytes → bytes → option bytes) {model_info : Type}.
Context (UpdateModelMetadata : tagged_repo → gio model_info) (UpdateRuntimeFrameworkTag : model_info → tagged_repo → gio unit).
Context (Hmeta : ∀ r w, tags_ok (gt_state w) → p ∨ splits r → goes (UpdateModelMetadata r) (λ _ _, True) w)
  (Hrt : ∀ i r w, tags_ok (gt_state w) → p ∨ splits r → goes (UpdateRuntimeFrameworkTag i r) (λ _ _, True) w).
Context (Hsub : ∀ s s', R s s' → tag_step s s').
Lemma goes_relations ty ns n files w : tags_ok (gt_state w) → p ∨ Forall splits (tt_repos (gt_state w)) →
  goes (updateRepoRelations LOWER UpdateModelMetadata UpdateRuntimeFrameworkTag ty ns n files) (λ _ _, True) w.
Proof.
  intros Hok Hp. unfold updateRepoRelations. go; [|go; [by apply goes_dataset|by go]]. unfold updateModelInfo. go; [by go|]. go. apply goes_path; [|done].
  intros repo Hrepo w' Hw'. assert (p ∨ splits repo) as Hr by (destruct Hp as [?|Hp]; [by left|right]; rewrite Forall_forall in Hp; auto).
  go; [|by go]. apply goes_then; [by apply Hmeta; [at_state|]|]. intros i w2 Hr2. rewrite Hw' in Hr2. apply Hrt; [|done].
  eapply (rtc_fit R True); [exact Hsub|exact Hr2|]. split; [done|by left].
Qed.
Lemma goes_raw ty ns n ref file w : goes (getFileRaw GetRepoFileRaw ty ns n ref file) (λ r s, s = gt_state w) w.
Proof. unfold getFileRaw. gos. Qed.
Lemma goes_meta ty ns n content w : goes (updateMetaTags LOWER like yaml_Unmarshal range_order has_checker is_sensitive ty ns n content) (λ _ _, True) w.
Proof.
  unfold updateMetaTags. go; [|by go]. apply goes_then; [|intros; by go]. by apply goes_wrap_true, goes_UpdateMeta.
Qed.
Lemma goes_modifyFiles ty ns n ref files w : fit p (gt_state w) →
  goes (modifyFiles LOWER like yaml_Unmarshal range_order has_checker is_sensitive GetRepoFileRaw UpdateModelMetadata UpdateRuntimeFrameworkTag ty ns n ref files) (λ _ _, True) w.
Proof.
  intros Hfit. unfold modifyFiles. apply goes_then.
  - go; [|by go]. apply goes_then; [by eapply goes_true, goes_raw|]. intros. apply goes_then; [|intros; by go]. go. by apply goes_meta.
  - intros _ w' Hr. eapply rtc_fit in Hr as [? ?]; [|exact Hsub|exact Hfit]. by apply goes_relations.
Qed.
Lemma goes_each (f : bytes → gio unit) files w : (∀ x w', x ∈ files → rtc R (gt_state w) (gt_state w') → goes (f x) (λ _ _, True) w') → goes (each_file f files) (λ _ _, True) w.
Proof.
  revert w. induction files as [|x files IH]; intros w Hf; [by apply goes_ret|]. cbn [each_file]. apply goes_then; [apply Hf; [by left|done]|].
  intros _ w' Hr. apply IH. intros y w2 Hy Hr'. apply Hf; [by right|by etrans].
Qed.
Context (Hlib : ∀ s s', tag_step s s' → R s s').
Lemma goes_SetLibraryTag ty ns n new old w : goes (SetLibraryTag LOWER ty ns n new old) (λ _ _, True) w.
Proof.
  unfold SetLibraryTag. go. go. apply goes_repo; [|done]. intros repo w' Hw'. apply goes_wrap_true. apply goes_then; [by go|]. intros _ w1 _.
  apply goes_then; [destruct old; by go|]. intros _ w2 _. apply goes_then; [destruct new; by go|]. intros _ w3 _. go. go; [|done].
  intros w4 Hw4. apply goes_modify; [|done]. apply rtc_once, Hlib, st_library.
Qed.
Lemma goes_library e ty ns n old new w : goes (library_file LOWER like unicode_lower e ty ns n old new) (λ _ _, True) w.
Proof.
  unfold library_file. destruct (getTagScopeByRepoType ty); [|by go]. apply goes_wrap_true. unfold UpdateLibraryTags. go; [|by go].
  apply goes_then; [unfold AllTagsByScope, store_AllTags; by gos|]. intros tags w' _. apply goes_wrap_true, goes_SetLibraryTag.
Qed.
Lemma goes_removeFiles ty ns n files w : fit p (gt_state w) →
  goes (removeFiles LOWER like unicode_lower UpdateModelMetadata UpdateRuntimeFrameworkTag ty ns n files) (λ _ _, True) w.
Proof.
  intros [Hok Hp]. unfold removeFiles. apply goes_then; [go; by apply goes_relations|]. intros _ w' _. apply goes_each. intros x w2 _ _. unfold remove_file. go; [|apply goes_library].
  by apply goes_wrap_true, goes_ClearMeta.
Qed.
Lemma goes_addFiles ty ns n ref files w : fit p (gt_state w) →
  goes (addFiles LOWER like unicode_lower yaml_Unmarshal range_order has_checker is_sensitive GetRepoFileRaw UpdateModelMetadata UpdateRuntimeFrameworkTag ty ns n ref files) (λ _ _, True) w.
Proof.
  intros Hfit. unfold addFiles. go; [by go|]. apply goes_then.
  - apply goes_each. intros x w2 _ _. unfold add_file. go; [|apply goes_library]. apply goes_then; [by eapply goes_true, goes_raw|]. intros. by apply goes_meta.
  - intros _ w' Hr. eapply rtc_fit in Hr as [? ?]; [|exact Hsub|exact Hfit]. by apply goes_relations.
Qed.
Lemma goes_UpdateRepoInfos full ref commits w : p → tags_ok (gt_state w) →
  goes (UpdateRepoInfos LOWER like unicode_lower yaml_Unmarshal range_order has_checker is_sensitive GetRepoFileRaw UpdateModelMetadata UpdateRuntimeFrameworkTag full ref commits) (λ _ _, True) w.
Proof.
  intros Hp Hok. unfold UpdateRepoInfos. destruct (split_name full) as [[[ty ns] n]|]; [|by split_and!]. assert (fit p (gt_state w)) as Hfit by (split; [done|by left]). clear Hok.
  apply goes_then; [|intros; by apply goes_ret]. revert w Hfit. induction commits as [|c cs IH]; intros w Hfit; [by apply goes_ret|]. cbn [each_commit].
  apply goes_then; [go; by apply goes_modifyFiles|]. intros _ w1 Hr1. eapply rtc_fit in Hr1; [|exact Hsub|exact Hfit].
  apply goes_then; [go; by apply goes_removeFiles|]. intros _ w2 Hr2. eapply rtc_fit in Hr2; [|exact Hsub|exact Hr1].
  apply goes_then; [go; by apply goes_addFiles|]. intros _ w3 Hr3. eapply rtc_fit in Hr3; [|exact Hsub|exact Hr2]. by apply IH.
Qed.
End callback.
End quiet.

(** ** Any history *)

Section history.
Context (GetRepoFileRaw : bytes → bytes → bytes → bytes → bytes → option bytes) {model_info : Type}.
Context (UpdateModelMetadata : tagged_repo → gio model_info) (UpdateRuntimeFrameworkTag : model_info → tagged_repo → gio unit).
(** What administrators, users and pushes ask for. *)
Inductive tag_op :=
  | AddTag (req : Tag) | ChangeTag (id : Z) (req : Tag) | DropTag (id : Z) | NeedTag (t : Tag)
  | AddCategory (c : TagCategory) | ChangeCategory (id : Z) (c : TagCategory) | DropCategory (id : Z)
  | SetByCategory (scope : bytes) (repoID : Z) (category : bytes) (names : list bytes) | DropRepoTags (repoID : Z) (ids : list Z) | DropByCategory (repoID : Z) (categories : list bytes)
  | Readme (scope namespace name content : bytes) | NoReadme (ty namespace name : bytes) | LibraryFile (scope namespace name old new : bytes)
  | Push (fullName ref : bytes) (commits : list Commit).
Definition ignore {A} (m : gio A) : gio unit := m;; mret tt.
Definition run_op (o : tag_op) : gio unit :=
  match o with
  | AddTag req => ignore (CreateTag has_checker is_sensitive req) | ChangeTag id req => ignore (UpdateTag has_checker is_sensitive id req) | DropTag id => DeleteTag id
  | NeedTag t => ignore (FindOrCreate t) | AddCategory c => ignore (CreateCategory c) | ChangeCategory id c => ignore (UpdateCategory id c) | DropCategory id => DeleteCategory id
  | SetByCategory scope repoID category names => UpdateRepoTagsByCategory like scope repoID category names
  | DropRepoTags repoID ids => RemoveRepoTags repoID ids | DropByCategory repoID categories => RemoveRepoTagsByCategory repoID categories
  | Readme scope ns n content => ignore (UpdateMetaTags LOWER like yaml_Unmarshal range_order has_checker is_sensitive scope ns n content)
  | NoReadme ty ns n => ClearMetaTags LOWER ty ns n | LibraryFile scope ns n old new => UpdateLibraryTags LOWER like unicode_lower scope ns n old new
  | Push full ref commits => UpdateRepoInfos LOWER like unicode_lower yaml_Unmarshal range_order has_checker is_sensitive GetRepoFileRaw UpdateModelMetadata UpdateRuntimeFrameworkTag full ref commits
  end.

Abbreviation walks := (goes tag_step True).
Context (Hmeta : ∀ r w, tags_ok (gt_state w) → walks (UpdateModelMetadata r) (λ _ _, True) w)
  (Hrt : ∀ i r w, tags_ok (gt_state w) → walks (UpdateRuntimeFrameworkTag i r) (λ _ _, True) w).
Lemma walks_ignore {A} (m : gio A) w : walks m (λ _ _, True) w → walks (ignore m) (λ _ _, True) w.
Proof. intros Hm. apply goes_then; [done|]. intros; by go. Qed.
Lemma walks_insert ts w : walks (tag_insert ts) (λ _ _, True) w.
Proof. apply goes_insert; [|done..]. intros ts' s Hs. by apply st_quiet, (st_insert ts'). Qed.
Lemma walks_pass n w : walks (pass_name has_checker is_sensitive n) (λ _ _, True) w.
Proof. unfold pass_name. by gos. Qed.
Lemma walks_change (m : gio unit) f w : walks m (λ _ s, s = gt_state w) w → tag_step (gt_state w) (f (gt_state w)) → walks (m;; io_modify (on_state f)) (λ _ _, True) w.
Proof. intros Hm Hf. apply goes_bind. eapply goes_weaken; [exact Hm|]. intros [[]|e] s _ ->; [|done]. intros w' Hw'. apply goes_modify; [|done]. at_state. by apply rtc_once. Qed.
Lemma walks_op o w : tags_ok (gt_state w) → walks (run_op o) (λ _ _, True) w.
Proof.
  intros Hok. destruct o as [req|id req|id|t|c|id c|id|scope repoID category names|repoID ids|repoID categories|scope ns n content|ty ns n|scope ns n old new|full ref commits]; cbn [run_op].
  - apply walks_ignore, goes_then; [apply walks_pass|]. intros _ w' _. apply goes_wrap_true, goes_then; [apply walks_insert|intros; by go].
  - apply walks_ignore, goes_then; [apply walks_pass|]. intros _ w' _. apply goes_wrap_true, goes_then; [|intros; by go]. apply goes_wrap_true.
    go. go; [|done]. intros w1 Hw1. go. go. intros w2 Hw2. go; [by go|]. apply goes_modify; [|done]. at_state. apply rtc_once. by apply st_update.
  - apply goes_wrap_true. unfold DeleteTagByID. by apply walks_change; [gos|apply st_delete].
  - apply walks_ignore. unfold FindOrCreate. apply goes_then; [go; unfold FindTag; by gos|]. intros r w' _. destruct r; [by go|]. apply goes_then; [apply walks_insert|intros; by go].
  - apply walks_ignore, goes_wrap_true, goes_wrap_true. go. go; [|done]. intros w1 Hw1. go. go. intros w2 Hw2. go; [by go|].
    apply goes_then; [|intros; by go]. apply goes_modify; [|done]. apply rtc_once, st_categories.
  - apply walks_ignore, goes_wrap_true, goes_then; [|intros; by go]. apply goes_wrap_true. go. go; [|done]. intros w1 Hw1. go. go. intros w2 Hw2. go; [by go|].
    apply goes_modify; [|done]. apply rtc_once, st_categories.
  - apply goes_wrap_true, goes_wrap_true. by apply walks_change; [gos|apply st_categories].
  - unfold UpdateRepoTagsByCategory. apply goes_then; [unfold store_AllTags; by gos|]. intros tags w' _. go; [by go|]. apply goes_then; [apply goes_wrap_true; unfold TagIDs; by gos|].
    intros old w2 _. unfold UpsertRepoTags. by apply walks_change; [gos|apply st_upsert].
  - unfold RemoveRepoTags. destruct ids; [by go|]. by apply walks_change; [gos|apply st_remove].
  - unfold RemoveRepoTagsByCategory. by apply walks_change; [gos|apply st_remove].
  - by apply walks_ignore, goes_UpdateMeta; [apply st_quiet].
  - by apply goes_ClearMeta; [apply st_quiet].
  - unfold UpdateLibraryTags. go; [|by go]. apply goes_then; [unfold AllTagsByScope, store_AllTags; by gos|]. intros tags w' _.
    by apply goes_wrap_true, goes_SetLibraryTag.
  - apply goes_UpdateRepoInfos; try done; [apply st_quiet|intros; by apply Hmeta|intros; by apply Hrt].
Qed.

End history.

(** ** Library tags count files *)

Definition count_at (k : Z * Z) (m : tag_rows) : Z := default 0 (m !! k).
Lemma count_at_up k k' m : count_at k (count_up k' m) = if decide (k = k') then count_at k m + 1 else count_at k m.
Proof. unfold count_at, count_up. case_decide as Heq; [subst; by rewrite lookup_partial_alter_eq|by rewrite lookup_partial_alter_ne]. Qed.
Lemma count_at_down k k' m : count_at k (count_down k' m) = if decide (k = k' ∧ 0 < count_at k m) then count_at k m - 1 else count_at k m.
Proof.
  unfold count_at, count_down. destruct (decide (k = k')) as [<-|Hne].
  - rewrite lookup_alter_eq. destruct (m !! k) as [c|]; cbn.
    + destruct (decide (0 < c)) as [?|Hno]; [by rewrite decide_True|]. rewrite decide_False; [done|]. by intros [_ ?].
    + rewrite decide_False; [done|]. by intros [_ ?].
  - rewrite lookup_alter_ne by done. rewrite decide_False; [done|]. by intros [? _].
Qed.

(** What changes other than those of library files keep. *)
Definition keeps (s s' : tag_state) : Prop :=
  grown s s' ∧ unlicensed <$> tt_repos s' = unlicensed <$> tt_repos s ∧ ∀ t, t ∈ tt_tags s → framework t → ∀ repoID, tt_rows s' !! (repoID, tg_ID t) = tt_rows s !! (repoID, tg_ID t).
Lemma without_other (repoID : Z) (ids : list Z) (m : tag_rows) (k : Z * Z) : ¬ (k.1 = repoID ∧ k.2 ∈ ids) → without repoID ids m !! k = m !! k.
Proof.
  intros Hno. unfold without. destruct (m !! k) as [c|] eqn:Hc; [|by apply map_lookup_filter_None_2; left]. by apply map_lookup_filter_Some_2.
Qed.
(** Front matter does not take the rows of excluded categories. *)
Lemma meta_kept s t repoID repoID' m : tags_ok s → t ∈ tt_tags s → tg_Category t ∈ excluded →
  without repoID (meta_ids s repoID) m !! (repoID', tg_ID t) = m !! (repoID', tg_ID t).
Proof.
  intros (_ & Hnd & _) Ht Hex. unfold without. destruct (m !! (repoID', tg_ID t)) as [c|] eqn:Hc; [|by apply map_lookup_filter_None_2; left].
  apply map_lookup_filter_Some_2; [done|]. cbn. intros (_ & (x & Heq & (Hno & (_ & Hx)%list_elem_of_filter)%list_elem_of_filter)%list_elem_of_fmap).
  by rewrite <- (keyed_eq tg_ID (tt_tags s) t x) in Hno.
Qed.
Lemma quiet_keeps s s' : tags_ok s → quiet_step s s' → keeps s s'.
Proof.
  intros Hok Hq. split_and!; [| |].
  - intros t Ht. destruct Hq; try done. cbn. apply elem_of_app. by left.
  - apply step_repos; [done|by constructor].
  - intros t Ht Hfw repoID'. assert (∀ x, x ∈ tt_tags s → tg_ID x = tg_ID t → x = t) as Hid by (intros x Hx Heq; destruct Hok as (_ & Hnd & _); by apply (keyed_eq tg_ID (tt_tags s))).
    destruct Hq as [ts s Hnew|repoID ts s Hts|repoID ids s Hids|repoID ids s Hids|f s|repo l s Hfound]; cbn [with_tags with_rows with_repos with_metadata tt_rows]; try done.
    + assert (∀ m, with_ones repoID (tg_ID <$> ts) m !! (repoID', tg_ID t) = m !! (repoID', tg_ID t)) as ->.
      { intros m. induction Hts as [|x ts [Hx Hno] _ IH]; [done|]. cbn. rewrite lookup_insert_ne; [done|]. intros [= _ Heq]. by rewrite (Hid x Hx Heq) in Hno. }
      apply meta_kept; [done..|]. rewrite Hfw. by left.
    + cbn in Hids. revert Hids. generalize (tt_rows s) as m. induction ids as [|i ids IH]; intros m Hids; [done|]. apply Forall_cons in Hids as (Hi & Hids). cbn [foldl]. rewrite IH by done.
      unfold count_up. rewrite lookup_partial_alter_ne; [done|]. intros [= _ Heq]. by apply (Hi t Ht).
    + apply without_other. intros (_ & Hin). rewrite Forall_forall in Hids. by apply (Hids (tg_ID t) Hin t Ht).
Qed.
Lemma quiet_rtc s s' : tags_ok s → rtc quiet_step s s' → keeps s s'.
Proof.
  intros Hok Hr. induction Hr as [|x y z Hxy _ IH]; [split_and!; [by intros ?|done|done]|]. destruct (quiet_keeps x y Hok Hxy) as (Hg & Hrepos & Hrows).
  assert (tags_ok y) as Hoky by (eapply step_ok; [by apply st_quiet|done]). destruct (IH Hoky) as (Hg' & Hrepos' & Hrows'). split_and!.
  - intros t Ht. auto.
  - by rewrite Hrepos'.
  - intros t Ht Hfw repoID. rewrite Hrows' by auto. auto.
Qed.
(** A repository at a git path. *)
Definition at_git (ty ns n : bytes) (l : list tagged_repo) : option tagged_repo := found_by (λ r, LOWER (tp_GitPath r) = LOWER (ty ++ bs "s_" ++ path_of ns n)) l.
Definition git_repo (ty ns n : bytes) (repoID : Z) (s : tag_state) : Prop := ∃ r, at_git ty ns n (tt_repos s) = Some r ∧ tp_ID r = repoID.
Lemma found_unlicensed ty ns n l : at_git ty ns n (unlicensed <$> l) = unlicensed <$> at_git ty ns n l.
Proof.
  unfold at_git, found_by. rewrite list_find_fmap. match goal with |- context [list_find ?P l] => change (list_find P l) with (list_find (λ r, LOWER (tp_GitPath r) = LOWER (ty ++ bs "s_" ++ path_of ns n)) l) end.
  by destruct (list_find _ l) as [[i x]|].
Qed.
Lemma same_git ty ns n repoID s s' : unlicensed <$> tt_repos s' = unlicensed <$> tt_repos s → git_repo ty ns n repoID s → git_repo ty ns n repoID s'.
Proof.
  intros Heq (r & Hr & Hid). pose proof (found_unlicensed ty ns n (tt_repos s')) as Hu. rewrite Heq, found_unlicensed, Hr in Hu.
  destruct (at_git ty ns n (tt_repos s')) as [r'|] eqn:Hr'; [|done]. exists r'. split; [done|]. injection Hu as Hu. by rewrite <- Hid, Hu.
Qed.

(** The framework tags of a scope that a file can have. *)
Definition tracked (scope : bytes) (s : tag_state) (t : Tag) : Prop := t ∈ tt_tags s ∧ framework t ∧ tg_Scope t = scope ∧ tg_Name t ≠ [].
Definition scope_tags (scope : bytes) (s : tag_state) : list Tag := filter (passes like (mk_filter [scope] [] None [])) (tt_tags s).
Lemma named_ids scope s t n : tags_ok s → tracked scope s t →
  match framework_named n (scope_tags scope s) with Some x => tg_ID x = tg_ID t ↔ n = tg_Name t | None => n ≠ tg_Name t end.
Proof.
  intros (Hkey & Hid & _) (Ht & Hfw & Hsc & Hne). unfold framework_named. set (l := filter _ (scope_tags scope s)).
  assert (∀ x, x ∈ l → x ∈ tt_tags s ∧ framework x ∧ tg_Scope x = scope ∧ tg_Name x = n) as Hl.
  { intros x ((Hc & Hn) & ((Hx & _) & Hin)%list_elem_of_filter)%list_elem_of_filter. split_and!; try done. destruct Hx as [?|Hx]; [done|]. by apply list_elem_of_singleton in Hx. }
  assert (n = tg_Name t → t ∈ l) as Htl.
  { intros ->. apply list_elem_of_filter. split; [done|]. apply list_elem_of_filter. split; [|done]. rewrite <- Hsc. split_and!; [right; by left|by left..]. }
  destruct (last l) as [x|] eqn:Hx.
  - apply last_Some_elem_of, Hl in Hx as (Hx & Hfx & Hsx & Hnx). split; intros Heq.
    + assert (x = t) as -> by (by apply (keyed_eq tg_ID (tt_tags s))). done.
    + assert (x = t) as -> by (apply (keyed_eq tag_key (tt_tags s)); [done..|]; unfold tag_key; by rewrite Hnx, Heq, Hsx, Hsc, Hfx, Hfw). done.
  - apply last_None in Hx. intros Heq. specialize (Htl Heq). rewrite Hx in Htl. by apply not_elem_of_nil in Htl.
Qed.
(** The rows after a file came in place of another. *)
Definition swapped (scope : bytes) (s : tag_state) (repoID : Z) (new old : bytes) (m : tag_rows) : tag_rows :=
  optional (framework_named new (scope_tags scope s)) (λ t, count_up (repoID, tg_ID t))
    (optional (framework_named old (scope_tags scope s)) (λ t, count_down (repoID, tg_ID t)) m).
Lemma count_swapped scope s repoID t new old m : tags_ok s → tracked scope s t →
  count_at (repoID, tg_ID t) (swapped scope s repoID new old m) =
  count_at (repoID, tg_ID t) m + (if decide (new = tg_Name t) then 1 else 0) - (if decide (old = tg_Name t ∧ 0 < count_at (repoID, tg_ID t) m) then 1 else 0).
Proof.
  intros Hok Ht. unfold swapped. pose proof (named_ids scope s t old Hok Ht) as Hold. pose proof (named_ids scope s t new Hok Ht) as Hnew.
  set (m' := optional (framework_named old _) _ m).
  assert (count_at (repoID, tg_ID t) m' = count_at (repoID, tg_ID t) m - (if decide (old = tg_Name t ∧ 0 < count_at (repoID, tg_ID t) m) then 1 else 0)) as Hm'.
  { unfold m'. destruct (framework_named old _) as [x|]; cbn [optional].
    - rewrite count_at_down. destruct (decide (old = tg_Name t ∧ _)) as [[Ho Hpos]|Ho].
      + rewrite decide_True; [done|]. split; [by rewrite (proj2 Hold Ho)|done].
      + rewrite decide_False; [lia|]. intros [[= Heq] ?]. apply Ho. split; [by apply Hold|done].
    - rewrite decide_False by naive_solver. unfold id. lia. }
  destruct (framework_named new _) as [x|]; cbn [optional].
  - rewrite count_at_up, Hm'. destruct (decide (new = tg_Name t)) as [Ho|Ho].
    + rewrite decide_True by (by rewrite (proj2 Hnew Ho)). lia.
    + rewrite decide_False; [lia|]. intros [= Heq]. by apply Ho, Hnew.
  - rewrite (decide_False (P := new = tg_Name t)) by done. unfold id. rewrite Hm'. lia.
Qed.

(** A push never tells what failed: the errors of its commits are dropped. *)
Theorem push_never_fails GetRepoFileRaw {I} (meta : tagged_repo → gio I) rt full ref commits w e :
  fst (UpdateRepoInfos LOWER like unicode_lower yaml_Unmarshal range_order has_checker is_sensitive GetRepoFileRaw meta rt full ref commits w) ≠ Fail e.
Proof.
  assert (∀ A B (m : gio A) (f : result A goerr → gio B) w, (∀ r w', fst (f r w') ≠ Fail e) → fst ((io_try m ≫= f) w) ≠ Fail e) as Htry.
  { intros A B m f w0 Hf. unfold mbind, io_bind, io_try. by destruct (m w0) as [[a|e'|] w']; cbn. }
  unfold UpdateRepoInfos. destruct (split_name full) as [[[ty ns] n]|]; [|done]. unfold mbind at 1, io_bind at 1.
  assert (∀ w', fst (each_commit LOWER like unicode_lower yaml_Unmarshal range_order has_checker is_sensitive GetRepoFileRaw meta rt ty ns n ref commits w') ≠ Fail e) as Hcs.
  { induction commits as [|c cs IH]; intros w'; [done|]. cbn [each_commit]. by do 3 (apply Htry; intros). }
  specialize (Hcs w). by destruct (each_commit _ _ _ _ _ _ _ _ _ _ _ _ _ _ _ w) as [[]].
Qed.

(** *** Undisturbed runs *)

Lemma gives_tg_read {A} (f : tag_state → A) w : undisturbed w → gives (tg_read f) w (f (gt_state w)).
Proof. intros Hw. eapply gives_bind; [by apply gives_fault|done]. Qed.
Lemma gives_tg_row {A} (f : tag_state → option A) w x : undisturbed w → f (gt_state w) = Some x → gives (tg_row f) w x.
Proof. intros Hw Hx. eapply gives_bind; [by apply gives_tg_read|]. by rewrite Hx. Qed.
Lemma gives_statements k w : undisturbed w → gives (statements k) w tt.
Proof. intros Hw. induction k as [|k IH]; [done|]. eapply gives_bind; [by apply gives_fault|done]. Qed.
Lemma gives_tags scope w : undisturbed w → gives (AllTagsByScope like scope) w (scope_tags scope (gt_state w)).
Proof. intros Hw. by apply gives_wrap, gives_tg_read. Qed.
Lemma gives_at_git ty ns n w r : undisturbed w → at_git ty ns n (tt_repos (gt_state w)) = Some r → gives (repo_by_git_path LOWER ty ns n) w r.
Proof. intros Hw Hr. by apply gives_tg_row. Qed.
Definition counted_scopes : list bytes := [DatasetTagScope; ModelTagScope; PromptTagScope].
Lemma run_library scope ns n repoID old new w : scope ∈ counted_scopes → undisturbed w → git_repo (default [] (repo_type_of scope)) ns n repoID (gt_state w) →
  UpdateLibraryTags LOWER like unicode_lower scope ns n old new w =
  (Ret tt, on_state (λ s, with_rows (swapped scope s repoID (LibraryTag unicode_lower new) (LibraryTag unicode_lower old)) s) w).
Proof.
  intros Hsc Hw (r & Hr & <-). unfold UpdateLibraryTags. rewrite decide_True by done. rewrite (run_gives _ _ w _ (gives_wrap _ _ _ _ (gives_tags scope w Hw))).
  apply io_wrap_run. unfold SetLibraryTag. rewrite (run_gives _ _ w r) by (by apply gives_wrap, gives_at_git). apply io_wrap_run.
  rewrite (run_gives _ _ w tt) by (by apply gives_fault). rewrite (run_gives _ _ w tt) by (destruct (framework_named _ _); [by apply gives_fault|done]).
  rewrite (run_gives _ _ w tt) by (destruct (framework_named _ _); [by apply gives_statements|done]). by rewrite (run_gives _ _ w tt) by (by apply gives_fault).
Qed.

(** *** The counts after a push *)

(** How many files of a name a tag has counted: one more for an added file that
    the tag names, one less, but never below none, for a removed one. *)
Definition file_added (f : bytes) (k : bytes → Z) (name : bytes) : Z := if decide (LibraryTag unicode_lower f = name) then k name + 1 else k name.
Definition file_removed (f : bytes) (k : bytes → Z) (name : bytes) : Z := if decide (LibraryTag unicode_lower f = name) then Z.max 0 (k name - 1) else k name.
Definition files_added (k : bytes → Z) (fs : list bytes) : bytes → Z := foldl (λ k f, file_added f k) k fs.
Definition files_removed (k : bytes → Z) (fs : list bytes) : bytes → Z := foldl (λ k f, file_removed f k) k fs.
Definition tallied (k : bytes → Z) (cs : list Commit) : bytes → Z := foldl (λ k c, files_added (files_removed k (cm_Removed c)) (cm_Added c)) k cs.
(** In an undisturbed world, the tags of [T] have counted files of a repository. *)
Definition counting (T : list Tag) (scope ns n : bytes) (repoID : Z) (k : bytes → Z) (w : tag_world) : Prop :=
  undisturbed w ∧ fit False (gt_state w) ∧ git_repo (default [] (repo_type_of scope)) ns n repoID (gt_state w) ∧
  Forall (λ t, tracked scope (gt_state w) t ∧ count_at (repoID, tg_ID t) (tt_rows (gt_state w)) = k (tg_Name t) ∧ 0 ≤ k (tg_Name t)) T.
(** The files of a repository after a commit, and the commits that fit them: what
    is removed was there, what is added was not. *)
Definition files_after (files : list bytes) (c : Commit) : list bytes := filter (λ f, f ∉ cm_Removed c) files ++ cm_Added c.
Fixpoint commits_fit (files : list bytes) (cs : list Commit) : Prop :=
  match cs with
  | [] => True
  | c :: cs => NoDup (cm_Removed c) ∧ cm_Removed c ⊆ files ∧ NoDup (files_after files c) ∧ commits_fit (files_after files c) cs
  end.
Definition files_with (files : list bytes) (name : bytes) : Z := len (filter (λ f, LibraryTag unicode_lower f = name) files).

Lemma one_less {A} `{!EqDecision A} (l : list A) x : NoDup l → x ∈ l → l ≡ₚ x :: filter (λ y, y ≠ x) l.
Proof.
  intros Hnd Hx. apply NoDup_Permutation; [done| |].
  - apply NoDup_cons. split; [|by apply NoDup_filter]. by intros (? & _)%list_elem_of_filter.
  - intros y. rewrite elem_of_cons, list_elem_of_filter. destruct (decide (y = x)) as [->|Hne]; [split; [by left|done]|]. split; [intros ?; by right|]. by intros [?|[_ ?]].
Qed.
Lemma LibraryTag_nil : LibraryTag unicode_lower [] = [].
Proof. done. Qed.
Lemma files_nonneg files name : 0 ≤ files_with files name.
Proof. unfold files_with, len. lia. Qed.
Lemma files_less files f name : NoDup files → f ∈ files →
  files_with files name = files_with (filter (λ g, g ≠ f) files) name + (if decide (LibraryTag unicode_lower f = name) then 1 else 0).
Proof. intros Hnd Hf. unfold files_with, len. rewrite (one_less files f Hnd Hf) at 1. rewrite filter_cons. case_decide; cbn [length]; lia. Qed.
Lemma tallied_removed files fs k name : NoDup files → NoDup fs → fs ⊆ files → k name = files_with files name →
  files_removed k fs name = files_with (filter (λ f, f ∉ fs) files) name.
Proof.
  revert files k. induction fs as [|f fs IH]; intros files k Hnd Hfs Hsub Hk.
  - cbn. rewrite Hk. f_equal. symmetry. apply filter_all_in. intros g _. apply not_elem_of_nil.
  - apply NoDup_cons in Hfs as [Hf Hfs]. assert (f ∈ files) as Hin by (apply Hsub; by left). unfold files_removed. cbn [foldl].
    assert (filter (λ g, g ∉ f :: fs) files = filter (λ g, g ∉ fs) (filter (λ g, g ≠ f) files)) as ->.
    { rewrite list_filter_filter. apply list_filter_iff. intros g. rewrite not_elem_of_cons. split; intros [? ?]; by split. }
    apply IH; [by apply NoDup_filter|done| |].
    + intros g Hg. apply list_elem_of_filter. split; [by intros ->|apply Hsub; by right].
    + unfold file_removed. rewrite Hk, (files_less files f name Hnd Hin). pose proof (files_nonneg (filter (λ g, g ≠ f) files) name). case_decide; lia.
Qed.
Lemma tallied_added files fs k name : k name = files_with files name → files_added k fs name = files_with (files ++ fs) name.
Proof.
  revert files k. induction fs as [|f fs IH]; intros files k Hk; [cbn; by rewrite app_nil_r|]. unfold files_added. cbn [foldl]. rewrite (cons_middle f files fs), (assoc_L (++)). apply IH.
  unfold file_added, files_with, len in *. rewrite filter_app, length_app, filter_cons. case_decide; cbn [length filter list_filter]; lia.
Qed.
(** Where the commits fit the files, what is counted is the files there are. *)
Lemma tallied_files files cs k name : NoDup files → commits_fit files cs → k name = files_with files name → tallied k cs name = files_with (foldl files_after files cs) name.
Proof.
  revert files k. induction cs as [|c cs IH]; intros files k Hnd Hfit Hk; [done|]. destruct Hfit as (Hr & Hsub & Hnd' & Hfit). cbn [foldl tallied]. apply (IH (files_after files c)); [done..|].
  apply tallied_added. by apply tallied_removed.
Qed.
Lemma tally_nonneg k name : 0 ≤ k name → ∀ f, 0 ≤ file_added f k name ∧ 0 ≤ file_removed f k name.
Proof. intros Hk f. unfold file_added, file_removed. split; case_decide; lia. Qed.

Lemma fit_rows p f s : tags_ok (with_rows f s) → fit p s → fit p (with_rows f s).
Proof. by intros Hok [_ Hp]. Qed.
(** README.md is no library file. *)
Lemma counting_readme T scope ns n repoID k k' w : (∀ name, name ≠ [] → k' name = k name) → counting T scope ns n repoID k w → counting T scope ns n repoID k' w.
Proof.
  intros Heq (Hw & Hfit & Hg & HT). split_and!; [done..|]. eapply Forall_impl; [exact HT|]. intros t (Ht & Hc). by rewrite Heq by apply Ht.
Qed.
Lemma counting_swap T scope ns n repoID k k' old new w : scope ∈ counted_scopes → (old = [] ∨ new = []) →
  (∀ name, name ≠ [] → k' name = if decide (LibraryTag unicode_lower new = name) then k name + 1 else if decide (LibraryTag unicode_lower old = name) then Z.max 0 (k name - 1) else k name) →
  counting T scope ns n repoID k w →
  ∃ w', UpdateLibraryTags LOWER like unicode_lower scope ns n old new w = (Ret tt, w') ∧ tag_step (gt_state w) (gt_state w') ∧ counting T scope ns n repoID k' w'.
Proof.
  intros Hsc Hone Hk (Hw & Hfit & Hg & HT). eexists. split; [by apply run_library|]. split; [apply st_library|]. split_and!; [done| |done|].
  - apply fit_rows; [|done]. eapply step_ok; [apply st_library|apply Hfit].
  - eapply Forall_impl; [exact HT|]. intros t (Ht & Hc & Hpos). split; [done|]. cbn [on_state gt_state with_rows tt_rows].
    rewrite count_swapped by (done || apply Hfit || by rewrite Hc). rewrite Hk by apply Ht. assert (tg_Name t ≠ []) as Hne by apply Ht.
    assert (LibraryTag unicode_lower new = tg_Name t → LibraryTag unicode_lower old ≠ tg_Name t) as Hnot by (destruct Hone as [-> | ->]; rewrite LibraryTag_nil; congruence).
    rewrite Hc. destruct (decide (LibraryTag unicode_lower new = _)) as [Hn|_]; [rewrite (decide_False (P := _ ∧ _)) by (by intros [? _]; apply Hnot); lia|].
    destruct (decide (LibraryTag unicode_lower old = tg_Name t)) as [Ho|Ho]; [|rewrite decide_False by (by intros [? _]); lia]. case_decide as Hd; [lia|]. assert (¬ 0 < k (tg_Name t)) by (intros ?; by apply Hd). lia.
Qed.

Section push.
Context (GetRepoFileRaw : bytes → bytes → bytes → bytes → bytes → option bytes) {model_info : Type}.
Context (UpdateModelMetadata : tagged_repo → gio model_info) (UpdateRuntimeFrameworkTag : model_info → tagged_repo → gio unit).
(** [p]: what is made of a model may panic. *)
Context (p : Prop).
Abbreviation quietly := (goes quiet_step p).
Context (Hmeta : ∀ r w, tags_ok (gt_state w) → p ∨ splits r → quietly (UpdateModelMetadata r) (λ _ _, True) w)
  (Hrt : ∀ i r w, tags_ok (gt_state w) → p ∨ splits r → quietly (UpdateRuntimeFrameworkTag i r) (λ _ _, True) w).
Context (ty scope ns n ref : bytes) (repoID : Z) (T : list Tag) (Hscope : getTagScopeByRepoType ty = Some scope) (Hcounted : scope ∈ counted_scopes).
Abbreviation counts := (counting T scope ns n repoID).
Abbreviation add := (add_file LOWER like unicode_lower yaml_Unmarshal range_order has_checker is_sensitive GetRepoFileRaw ty ns n ref).
Abbreviation remove := (remove_file LOWER like unicode_lower ty ns n).

(** From [w], [m] panics or comes to a world of [P]. *)
Definition leaves {A} (m : gio A) (P : tag_world → Prop) (w : tag_world) : Prop := (p ∧ fst (m w) = Panic) ∨ (fst (m w) ≠ Panic ∧ P (snd (m w))).
Lemma leaves_quiet {A} (m : gio A) k w : quietly m (λ _ _, True) w → counts k w → leaves m (counts k) w.
Proof.
  intros (Hr & Hu & Hout) (Hw & Hfit & Hg & HT). unfold leaves. assert (fst (m w) = Panic ∨ fst (m w) ≠ Panic) as [Hp|Hp] by (destruct (fst (m w)); auto); [left; by rewrite Hp in Hout|right; split; [done|]].
  assert (keeps (gt_state w) (gt_state (snd (m w)))) as (Hgrown & Hrepos & Hrows) by (apply quiet_rtc; [apply Hfit|done]).
  split_and!; [auto| |by eapply same_git|].
  - eapply rtc_fit; [|exact Hr|done]. by constructor.
  - eapply Forall_impl; [exact HT|]. intros t ((Ht & Hfw & Hsc & Hne) & Hc). split; [split_and!; auto|]. unfold count_at in *. by rewrite Hrows.
Qed.
Lemma leaves_try {A} (m : gio A) P w : leaves m P w → leaves (io_try m) P w.
Proof. unfold leaves, io_try. intros [[Hp Ho]|[Ho HP]]; [left|right]; destruct (m w) as [[a|e|] w']; cbn in *; by split_and!. Qed.
Lemma leaves_then {A B} (m : gio A) (f : A → gio B) P w : leaves m P w → (∀ a w', P w' → leaves (f a) P w') → leaves (m ≫= f) P w.
Proof.
  unfold leaves, mbind, io_bind. intros [[Hp Ho]|[Ho HP]] Hf; destruct (m w) as [[a|e|] w']; cbn in *; try done; [by left|by apply Hf|by right].
Qed.
Lemma leaves_seq {A B} (m : gio A) (f : gio B) P Q w : leaves m P w → (∀ w', P w' → leaves f Q w') → leaves (io_try m;; f) Q w.
Proof.
  unfold leaves, mbind, io_bind, io_try. intros [[Hp Ho]|[Ho HP]] Hf; destruct (m w) as [[a|e|] w']; cbn in *; try done; [by left|by apply Hf..].
Qed.
Lemma leaves_run {A} (m : gio A) (P : tag_world → Prop) w a w' : m w = (Ret a, w') → P w' → leaves m P w.
Proof. intros Hrun HP. right. by rewrite Hrun. Qed.
Lemma leaves_weaken {A} (m : gio A) (P Q : tag_world → Prop) w : leaves m P w → (∀ w', P w' → Q w') → leaves m Q w.
Proof. intros [?|[? ?]] HPQ; [by left|right; auto]. Qed.

(** Since [w0]. *)
Context (w0 : tag_world).
Definition stands (k : bytes → Z) (w : tag_world) : Prop := counts k w ∧ rtc tag_step (gt_state w0) (gt_state w).
(** Of the added files all are handled, or those before a README.md that an
    undisturbed world since refused. *)
Definition handled_files (fs fs' : list bytes) : Prop :=
  fs' = fs ∨ ∃ rest w e, fs = fs' ++ ReadmeFileName :: rest ∧ undisturbed w ∧ rtc tag_step (gt_state w0) (gt_state w) ∧ fst (add ReadmeFileName w) = Fail e.
Definition handled (c c' : Commit) : Prop := cm_Removed c' = cm_Removed c ∧ cm_Modified c' = cm_Modified c ∧ handled_files (cm_Added c) (cm_Added c').

Lemma stands_quiet {A} (m : gio A) k w : quietly m (λ _ _, True) w → stands k w → leaves m (stands k) w.
Proof.
  intros Hm [Hc Hr]. destruct (leaves_quiet m k w Hm Hc) as [?|[Hp Hc']]; [by left|right]. split; [done|]. split; [done|]. etrans; [exact Hr|]. destruct Hm as (Hm & _).
  eapply rtc_congruence with (f := id); [|exact Hm]. intros x y. apply st_quiet.
Qed.
Lemma stands_library e k k' old new w : (old = [] ∨ new = []) →
  (∀ name, name ≠ [] → k' name = if decide (LibraryTag unicode_lower new = name) then k name + 1 else if decide (LibraryTag unicode_lower old = name) then Z.max 0 (k name - 1) else k name) →
  stands k w → ∃ w', library_file LOWER like unicode_lower e ty ns n old new w = (Ret tt, w') ∧ stands k' w'.
Proof.
  intros Hone Hk [Hc Hr]. destruct (counting_swap T scope ns n repoID k k' old new w Hcounted Hone Hk Hc) as (w' & Hrun & Hs & Hc'). exists w'. split.
  - unfold library_file. rewrite Hscope. by apply io_wrap_run.
  - split; [done|]. by eapply rtc_r.
Qed.
Lemma run_clear w : undisturbed w → git_repo (default [] (repo_type_of scope)) ns n repoID (gt_state w) → ∃ w', remove ReadmeFileName w = (Ret tt, w').
Proof.
  intros Hw (r & Hr & _). assert (TrimSuffix ty (bs "s") = default [] (repo_type_of scope)) as Hty.
  { unfold getTagScopeByRepoType in Hscope. repeat case_decide; simplify_eq; try by vm_compute. all: by apply (bool_decide_unpack _) in Hcounted. }
  unfold remove_file. rewrite decide_True, Hty by done. eexists. apply io_wrap_run. unfold ClearMetaTags, SetMetaTags.
  eapply eq_trans; [eapply (run_seq _ _ _ [])|reflexivity]. rewrite (run_gives _ _ w r) by (apply gives_wrap; eapply gives_bind; [by apply gives_at_git|]; eapply gives_bind; [by apply gives_fault|done]).
  rewrite (run_gives _ _ w (gt_state w)) by done. cbv zeta. rewrite (run_gives _ _ w tt) by (by apply gives_statements).
  rewrite (run_gives _ _ w tt) by done. by rewrite (run_gives _ _ w tt) by (by apply gives_fault).
Qed.
Lemma remove_counts k f w : stands k w → ∃ w', remove f w = (Ret tt, w') ∧ stands (file_removed f k) w'.
Proof.
  intros Hs. destruct (decide (f = ReadmeFileName)) as [->|Hf].
  - destruct Hs as [Hc Hr]. destruct (run_clear w) as (w' & Hrun); [apply Hc..|]. exists w'. split; [done|]. destruct (stands_quiet (remove ReadmeFileName) k w) as [[_ Hp]|[_ [Hc' Hr']]]; [| | |].
    + unfold remove_file. rewrite decide_True by done. by apply goes_wrap_true, goes_ClearMeta.
    + by split.
    + by rewrite Hrun in Hp.
    + rewrite Hrun in *. split; [|done]. eapply counting_readme; [|exact Hc']. intros name Hne. unfold file_removed. rewrite decide_False; [done|]. intros Heq. by apply Hne.
  - unfold remove_file. rewrite decide_False by done. apply (stands_library _ k); [by right| |done]. intros name Hne. unfold file_removed. rewrite LibraryTag_nil. by rewrite (decide_False (P := [] = _)).
Qed.
Lemma removes_count k fs w : stands k w → ∃ w', each_file remove fs w = (Ret tt, w') ∧ stands (files_removed k fs) w'.
Proof.
  revert k w. induction fs as [|f fs IH]; intros k w Hw; [by exists w|]. destruct (remove_counts k f w Hw) as (w1 & Hrun & Hw1). destruct (IH _ _ Hw1) as (w2 & Hrun2 & Hw2).
  exists w2. split; [|done]. cbn [each_file]. by rewrite (run_seq _ _ _ _ _ Hrun).
Qed.
Lemma adds_count k fs w : stands k w → leaves (each_file add fs) (λ w', ∃ fs', handled_files fs fs' ∧ stands (files_added k fs') w') w.
Proof.
  revert k w. induction fs as [|f fs IH]; intros k w Hw; [apply (leaves_run _ _ _ tt w); [done|]; exists []; split; [by left|done]|].
  assert (∀ w', stands (file_added f k) w' → leaves (each_file add fs) (λ w', ∃ fs', handled_files (f :: fs) fs' ∧ stands (files_added k fs') w') w') as Hrest.
  { intros w' Hw'. eapply leaves_weaken; [by apply IH|]. intros w2 (fs' & Hfs & Hw2). exists (f :: fs'). split; [|done]. destruct Hfs as [->|(rest & w3 & e & -> & H3)]; [by left|right; by exists rest, w3, e]. }
  cbn [each_file]. destruct (decide (f = ReadmeFileName)) as [->|Hf].
  - assert (quietly (add ReadmeFileName) (λ _ _, True) w) as Hq.
    { unfold add_file. rewrite decide_True by done. apply goes_then; [by eapply goes_true, goes_raw|]. intros. by apply goes_meta. }
    destruct (stands_quiet _ k w Hq Hw) as [[? Hp]|[Hp Hw']].
    + left. split; [done|]. unfold mbind, io_bind. by destruct (add ReadmeFileName w) as [[]].
    + destruct (add ReadmeFileName w) as [[[]|e|] w'] eqn:Hrun; cbn [fst snd] in *; [| |done].
      * unfold leaves. rewrite (run_seq _ _ _ _ _ Hrun). apply Hrest. destruct Hw' as [Hc Hr]. split; [|done]. eapply counting_readme; [|exact Hc]. intros name Hne. unfold file_added.
        rewrite decide_False; [done|]. intros Heq. by apply Hne.
      * right. unfold mbind, io_bind. rewrite Hrun. split; [done|]. exists []. split; [|done]. right. exists fs, w, e. split_and!; [done|apply Hw|apply Hw|by rewrite Hrun].
  - destruct (stands_library "failed to add Library tag, cause: " k (file_added f k) [] f w) as (w' & Hrun & Hw'); [by left| |done|].
    + intros name Hne. unfold file_added. rewrite LibraryTag_nil. by rewrite (decide_False (P := [] = _)).
    + unfold leaves. rewrite (run_seq _ _ w tt w'); [by apply Hrest|]. unfold add_file. by rewrite decide_False.
Qed.
Lemma stands_relations k fs w : stands k w → leaves (updateRepoRelations LOWER UpdateModelMetadata UpdateRuntimeFrameworkTag ty ns n fs) (stands k) w.
Proof.
  intros Hw. apply stands_quiet; [|done]. destruct Hw as [(_ & [Hok [[]|Hp]] & _) _]. apply goes_relations; try done; [by constructor|by right].
Qed.
Abbreviation commits_run := (each_commit LOWER like unicode_lower yaml_Unmarshal range_order has_checker is_sensitive GetRepoFileRaw UpdateModelMetadata UpdateRuntimeFrameworkTag ty ns n ref).
Lemma commits_count k cs w : stands k w → leaves (commits_run cs) (λ w', ∃ cs', Forall2 handled cs cs' ∧ stands (tallied k cs') w') w.
Proof.
  revert k w. induction cs as [|c cs IH]; intros k w Hw; [apply (leaves_run _ _ _ tt w); [done|]; by exists []|]. cbn [each_commit].
  apply leaves_seq with (stands k); [apply stands_quiet; [|done]; destruct Hw as [(_ & [Hok [[]|Hp]] & _) _]; apply goes_modifyFiles; try done; [by constructor|split; [done|by right]]|].
  intros w1 Hw1. apply leaves_seq with (stands (files_removed k (cm_Removed c))).
  { unfold removeFiles. eapply leaves_seq; [by apply stands_relations|]. intros w' Hw'. destruct (removes_count k (cm_Removed c) w' Hw') as (w2 & Hrun & Hw2). by eapply leaves_run. }
  intros w2 Hw2. apply leaves_seq with (λ w', ∃ fs', handled_files (cm_Added c) fs' ∧ stands (files_added (files_removed k (cm_Removed c)) fs') w').
  { unfold addFiles. destruct (decide (cm_Added c = [])) as [->|_]; [apply (leaves_run _ _ _ tt w2); [done|]; exists []; split; [by left|done]|].
    apply leaves_then; [by apply adds_count|]. intros _ w' (fs' & Hfs & Hw'). eapply leaves_weaken; [by apply stands_relations|]. by eauto. }
  intros w3 (fs' & Hfs & Hw3). eapply leaves_weaken; [by apply IH|]. intros w4 (cs' & Hcs & Hw4). exists (mk_commit fs' (cm_Removed c) (cm_Modified c) :: cs'). split; [|done]. by constructor.
Qed.
(** A push counts what it handles. *)
Lemma push_counts full k commits w : split_name full = Some (ty, ns, n) → stands k w →
  let o := UpdateRepoInfos LOWER like unicode_lower yaml_Unmarshal range_order has_checker is_sensitive GetRepoFileRaw UpdateModelMetadata UpdateRuntimeFrameworkTag full ref commits w in
  p ∧ fst o = Panic ∨ ∃ commits', fst o = Ret tt ∧ Forall2 handled commits commits' ∧ counts (tallied k commits') (snd o).
Proof.
  intros Hname Hw o. pose proof (push_never_fails GetRepoFileRaw UpdateModelMetadata UpdateRuntimeFrameworkTag full ref commits w) as Hno. fold o in Hno.
  assert (leaves (UpdateRepoInfos LOWER like unicode_lower yaml_Unmarshal range_order has_checker is_sensitive GetRepoFileRaw UpdateModelMetadata UpdateRuntimeFrameworkTag full ref commits)
    (λ w', ∃ cs', Forall2 handled commits cs' ∧ stands (tallied k cs') w') w) as [?|[Hp (cs' & Hcs & [Hc _])]]; [|by left|].
  - unfold UpdateRepoInfos. rewrite Hname. apply leaves_then; [by apply commits_count|]. intros _ w' Hw'. by eapply leaves_run.
  - right. exists cs'. split; [|done]. fold o in Hp. destruct (fst o) as [[]|e|]; [done|by destruct (Hno e)|done].
Qed.
End push.
End tags.
