(* ===== verification/TgReadme.v ===== *)
(** Tags: what the front matter of a README makes of a repository's tags, and
    concrete instances of the theorems on tags. *)
From Stdlib Require Import Sorting.Sorted.
From S2P Require Import Prelude GoLib GoJson Sensitive Errorx AcAccess AcSpec TgTag TgSpec.
Open Scope Z_scope.

(** ** Names without repetition *)

Lemma compact_cons x y l : compact (x :: y :: l) = if decide (x = y) then compact (y :: l) else x :: compact (y :: l).
Proof. done. Qed.
Lemma compact_sub l x : x ∈ compact l → x ∈ l.
Proof.
  induction l as [|y [|z l] IH]; [done|done|]. rewrite compact_cons. destruct (decide (y = z)) as [->|Hne].
  - intros Hx. apply IH in Hx. by right.
  - intros [->|Hx]%elem_of_cons; [by left|right; by apply IH].
Qed.
Lemma compact_sup l x : x ∈ l → x ∈ compact l.
Proof.
  induction l as [|y [|z l] IH]; [done|done|]. rewrite compact_cons. intros [->|Hx]%elem_of_cons.
  - case_decide as Heq; [|by left]. subst. apply IH. by left.
  - case_decide; [by apply IH|right; by apply IH].
Qed.
Lemma compact_NoDup l : StronglySorted bytes_le l → NoDup (compact l).
Proof.
  induction l as [|y [|z l] IH]; intros Hs; [constructor|apply NoDup_singleton|]. apply StronglySorted_inv in Hs as [Hs Hy]. specialize (IH Hs). rewrite compact_cons.
  case_decide as Hne; [done|]. apply NoDup_cons. split; [|done]. intros Hin%compact_sub. apply Hne.
  apply StronglySorted_inv in Hs as [_ Hz]. rewrite Forall_forall in Hy, Hz. apply elem_of_cons in Hin as [->|Hin]; [done|].
  apply bytes_le_antisym; [apply Hy; by left|by apply Hz].
Qed.

Section readme.
Variables (LOWER : bytes → bytes) (like : bytes → bytes → bool) (unicode_lower : Z → Z) (yaml_Unmarshal : bytes → option (list (bytes * yaml)))
  (range_order : list (bytes * list bytes) → list (bytes * list bytes)) (has_checker : bool) (is_sensitive : bytes → bool).
(** Ranging over a map gives each of its entries once. *)
Context (Hrange : ∀ l, range_order l ≡ₚ l).

(** ** What a README names *)

(** The names of the front matter, by category. *)
Definition lists_tag (content c n : bytes) : Prop := ∃ m ns, MetaTags yaml_Unmarshal content = Ok m ∧ m !! c = Some ns ∧ n ∈ ns.
Lemma MetaTags_NoDup content m c ns : MetaTags yaml_Unmarshal content = Ok m → m !! c = Some ns → NoDup ns.
Proof.
  unfold MetaTags. destruct (decide _); [by intros [= <-]|]. destruct (yaml_Unmarshal _); [|done]. intros [= <-] (l' & <- & _)%lookup_fmap_Some. apply compact_NoDup, sort_bytes_sorted.
Qed.
Abbreviation pairs := (named_pairs range_order).
Lemma pairs_elem existing m c n : (c, n) ∈ pairs existing m ↔ is_Some (existing !! c) ∧ ∃ ns, m !! c = Some ns ∧ n ∈ ns.
Proof.
  unfold named_pairs. rewrite list_elem_of_bind. split.
  - intros ([c' ns] & Hin & Hkv). cbn in Hin. destruct (existing !! c') as [x|] eqn:Hx; [|by apply not_elem_of_nil in Hin].
    apply list_elem_of_fmap in Hin as (n' & [= -> ->] & Hn). rewrite Hrange in Hkv. apply elem_of_map_to_list in Hkv. eauto.
  - intros ([x Hx] & ns & Hm & Hn). exists (c, ns). cbn. rewrite Hx. split; [by apply list_elem_of_fmap; eauto|]. rewrite Hrange. by apply elem_of_map_to_list.
Qed.
Lemma pairs_NoDup content m existing : MetaTags yaml_Unmarshal content = Ok m → NoDup (pairs existing m).
Proof.
  intros Hm. unfold named_pairs. assert (∀ l : list (bytes * list bytes), NoDup (l.*1) → Forall (λ kv, NoDup kv.2) l →
    NoDup (l ≫= λ kv, if existing !! kv.1 is Some _ then (kv.1,.) <$> kv.2 else [])) as Hgen.
  { induction l as [|[c ns] l IH]; intros Hk Hl; [constructor|]. apply NoDup_cons in Hk as [Hc Hk]. apply Forall_cons in Hl as [Hns Hl]. rewrite bind_cons. cbn [fst snd] in *.
    apply NoDup_app. split_and!; [| |by apply IH].
    - destruct (existing !! c); [|constructor]. apply NoDup_fmap_2; [by intros ? ? [= ->]|done].
    - intros [c' n'] Hin ([c2 ns2] & Hin2 & Hl2)%list_elem_of_bind. cbn [fst snd] in *. apply Hc, list_elem_of_fmap. exists (c2, ns2). split; [|done]. cbn.
      destruct (existing !! c); [|by apply not_elem_of_nil in Hin]. destruct (existing !! c2); [|by apply not_elem_of_nil in Hin2].
      apply list_elem_of_fmap in Hin as (? & [= -> ->] & _), Hin2 as (? & [= -> ->] & _). done. }
  apply Hgen.
  - rewrite Hrange. apply NoDup_fst_map_to_list.
  - rewrite Hrange. apply Forall_forall. intros [c ns] Hin%elem_of_map_to_list. by eapply MetaTags_NoDup.
Qed.
(** A category of the scope's tags is known. *)
Lemma category_known tags c : is_Some (mapCategoryTag tags !! c) ↔ ∃ t, t ∈ tags ∧ tg_Category t = c.
Proof.
  induction tags as [|x tags IH] using rev_ind.
  - split; [by intros [? ?]|]. intros (t & Ht & _). by apply not_elem_of_nil in Ht.
  - unfold mapCategoryTag in *. rewrite foldl_app. cbn [foldl]. set (m := foldl _ ∅ tags) in *. destruct (decide (tg_Category x = c)) as [<-|Hne].
    + rewrite lookup_insert_eq. split; [|done]. intros _. exists x. split; [apply elem_of_app; right; by left|done].
    + rewrite lookup_insert_ne, IH by done. split; intros (t & Ht & Hc); exists t; (split; [|done]).
      * apply elem_of_app. by left.
      * apply elem_of_app in Ht as [?|Ht]; [done|]. apply list_elem_of_singleton in Ht. by subst.
Qed.
Lemma scope_tags_elem scope s t : t ∈ scope_tags like scope s ↔ t ∈ tt_tags s ∧ tg_Scope t = scope.
Proof.
  unfold scope_tags. rewrite list_elem_of_filter. split; [|intros [? <-]; split; [|done]; split_and!; [right; by left|by left..]].
  intros [(Hs & _) Ht]. split; [done|]. destruct Hs as [?|Hs]; [done|]. by apply list_elem_of_singleton in Hs.
Qed.
(** A tag of the scope is the one found under its category and name. *)
Lemma tag_found scope s t : NoDup (tag_key <$> tt_tags s) → t ∈ tt_tags s → tg_Scope t = scope →
  tag_at (mapCategoryTag (scope_tags like scope s)) (tg_Category t, tg_Name t) = Some t.
Proof.
  intros Hnd Ht Hs. unfold tag_at. cbn [fst snd]. destruct (m ← _; _) as [x|] eqn:Hx.
  - apply mapped_tag in Hx as (Hin & Hc & Hn). apply scope_tags_elem in Hin as [Hin Hsx]. f_equal. apply (keyed_eq tag_key (tt_tags s)); [done..|]. unfold tag_key. by rewrite Hn, Hc, Hsx, Hs.
  - exfalso. by refine (mapped_None _ _ _ Hx t _ eq_refl eq_refl); apply scope_tags_elem.
Qed.

(** ** READMEs that are refused *)

(** Nothing but new tags. *)
Definition adds (s s' : tag_state) : Prop := ∃ ts, NoDup (tag_key <$> tt_tags s ++ ts) ∧ s' = inserted ts s.
Lemma adds_rtc s s' : rtc adds s s' → tags_ok s → tags_ok s' ∧ grown s s' ∧ tt_rows s' = tt_rows s ∧ tt_repos s' = tt_repos s.
Proof.
  intros Hr. induction Hr as [|x y z (ts & Hnd & ->) _ IH]; [intros Hok; split_and!; [done|by intros ?|done..]|]. intros Hok.
  destruct IH as (Hz & Hg & Hrows & Hrepos); [eapply step_ok; [by apply st_quiet, st_insert|done]|]. split_and!; [done| |done..].
  intros t Ht. apply Hg. cbn. apply elem_of_app. by left.
Qed.
Abbreviation refuses := (goes adds False).
(** What the insertion of meta tags refuses. *)
Definition refused_tag (ty ns n : bytes) (s : tag_state) (t : Tag) : Prop :=
  t ∈ tt_tags s ∧ (framework t ∨ tg_Category t ∈ excluded ∧ ∃ r, at_git LOWER ty ns n (tt_repos s) = Some r ∧ is_Some (tt_rows s !! (tp_ID r, tg_ID t))).
Lemma SetMeta_refuses ty ns n ts t w : tags_ok (gt_state w) → refused_tag ty ns n (gt_state w) t → t ∈ ts →
  refuses (SetMetaTags LOWER ty ns n ts) (λ r _, ∃ e, r = Err e) w.
Proof.
  intros Hok (Ht & Hbad) Hin. unfold SetMetaTags. go. go. go. unfold repo_by_git_path. go; [|by eauto]. go. go. go; [|by eauto]. go. go. at_state. go. go. go. go. go. go; [|by eauto]. go. go.
  destruct ts as [|t0 ts]; [by apply not_elem_of_nil in Hin|]. set (l := t0 :: ts) in *. destruct (decide (Exists _ l)) as [|Hno]; [go; by eauto|].
  go. go. go; [|by eauto]. intros wi Hwi. rewrite decide_False; [go; by eauto|]. intros [_ Hnone]. destruct Hbad as [Hfw|(Hex & r & Hr & Hr2)]; [apply Hno, Exists_exists; eauto|].
  unfold at_git in Hr. assert (x = r) as -> by congruence. rewrite Forall_forall in Hnone. specialize (Hnone (tg_ID t) ltac:(by apply list_elem_of_fmap; exists t)).
  rewrite meta_kept in Hnone by done. rewrite Hnone in Hr2. by destruct Hr2.
Qed.
Lemma refused_grown ty ns n s s' t : rtc adds s s' → tags_ok s → refused_tag ty ns n s t → refused_tag ty ns n s' t.
Proof. intros Hr Hok (Ht & Hbad). destruct (adds_rtc s s' Hr Hok) as (_ & Hg & Hrows & Hrepos). split; [auto|]. by rewrite Hrows, Hrepos. Qed.

(** C39: A README that lists a framework tag, or a tag of another excluded
    category (runtime framework, evaluation, industry) that the repository
    already has, is refused whatever happens: its update ends in an error and
    the rows of all repositories stay as they are. *)
Theorem readme_with_excluded_tag_refused scope ty ns n content t w :
  tags_ok (gt_state w) → repo_type_of scope = Some ty → tg_Scope t = scope → lists_tag content (tg_Category t) (tg_Name t) → refused_tag ty ns n (gt_state w) t →
  let '(o, w') := UpdateMetaTags LOWER like yaml_Unmarshal range_order has_checker is_sensitive scope ns n content w in
  (∃ e, o = Fail e) ∧ tt_rows (gt_state w') = tt_rows (gt_state w).
Proof.
  intros Hok Hty Hsc (m & names & Hm & Hc & Hn) Hbad.
  assert (refuses (UpdateMetaTags LOWER like yaml_Unmarshal range_order has_checker is_sensitive scope ns n content) (λ r _, ∃ e, r = Err e) w) as (Hr & _ & Hend).
  2: { destruct (UpdateMetaTags _ _ _ _ _ _ _ _ _ _ w) as [[a|e|] w'] eqn:Hrun; cbn in *; [by destruct Hend| |done]. split; [by eauto|]. by destruct (adds_rtc _ _ Hr Hok) as (_ & _ & ? & _). }
  unfold UpdateMetaTags. rewrite Hty. go. go. unfold ProcessReadme. rewrite Hm. go. go. unfold AllTagsByScope, store_AllTags. go. go; [|by eauto]. intros w0 Hw0. go. rewrite processTags_pairs.
  fold (scope_tags like scope (gt_state w)). set (tags := scope_tags like scope (gt_state w)). set (qs := named_pairs _ _ _). rewrite Hw0.
  assert (t ∈ matched_of (mapCategoryTag tags) qs) as Hin.
  { apply list_elem_of_omap. exists (tg_Category t, tg_Name t). assert (tag_at (mapCategoryTag tags) (tg_Category t, tg_Name t) = Some t) as Hat by (apply tag_found; [apply Hok|apply Hbad|done]).
    split; [|done]. apply pairs_elem. split; [|by eauto]. unfold tag_at in Hat. cbn in Hat. destruct (mapCategoryTag tags !! _); [done|]. done. }
  intros w1 Hw1. generalize (matched_of (mapCategoryTag tags) qs) Hin. intros matched Hmatched. generalize (created_of scope (mapCategoryTag tags) qs). intros created.
  apply goes_bind. assert (∀ Q, (∀ r, Q r (gt_state w)) → refuses (if has_checker then drop_sensitive is_sensitive created else mret created) Q w1) as Hdrop.
  { intros Q HQ. destruct has_checker; [apply goes_drop; by at_state|apply goes_ret; by at_state]. }
  apply Hdrop. intros [created'|e]; [|by eauto]. intros w2 Hw2. go. go. eapply goes_weaken; [eapply goes_SaveTags|].
  { intros ts s Hs. by exists ts. }
  intros [saved|e] s Hs _; [|by eauto]. intros w3 Hw3. go. go. apply goes_path; [|by eauto]. intros repo _ w4 Hw4. go. go.
  eapply goes_weaken; [apply (SetMeta_refuses ty ns n _ t)|].
  - at_state. rewrite Hw2 in Hs. by apply (adds_rtc _ _ Hs Hok).
  - at_state. rewrite Hw2 in Hs. by eapply refused_grown.
  - apply elem_of_app. by left.
  - intros r s' _ [e ->]. by eauto.
Qed.

(** ** READMEs that are accepted *)

Lemma omap_origin {A B} (f : A → option B) (g : B → A) l : (∀ x y, f x = Some y → g y = x) → g <$> omap f l `sublist_of` l.
Proof.
  intros Hg. induction l as [|x l IH]; [constructor|]. cbn. destruct (f x) as [y|] eqn:Hy; cbn; [rewrite (Hg x y Hy)|]; by constructor.
Qed.
Lemma ones_lookup repoID ids m k : with_ones repoID ids m !! k = if decide (k.1 = repoID ∧ k.2 ∈ ids) then Some 1 else m !! k.
Proof.
  destruct k as [r i]. cbn [fst snd]. induction ids as [|j ids IH].
  - rewrite decide_False; [done|]. intros [_ Hi]. by apply not_elem_of_nil in Hi.
  - change (with_ones repoID (j :: ids) m) with (<[(repoID, j) := 1]> (with_ones repoID ids m)). destruct (decide ((repoID, j) = (r, i))) as [[= -> ->]|Hne].
    + rewrite lookup_insert_eq, decide_True; [done|]. split; [done|by left].
    + rewrite lookup_insert_ne, IH by done. apply decide_ext. rewrite elem_of_cons. split; [intros [-> ?]; split; [done|by right]|]. intros [-> [->|?]]; [done|by split].
Qed.
(** After the rows of other meta tags are gone, those of the wanted ones are put. *)
Lemma meta_rows s r ids t m : tags_ok s → m = tt_rows s → t ∈ tt_tags s → tg_Category t ∉ excluded →
  with_ones r ids (without r (meta_ids s r) m) !! (r, tg_ID t) = if decide (tg_ID t ∈ ids) then Some 1 else None.
Proof.
  intros Hok -> Ht Hex. rewrite ones_lookup. cbn [fst snd]. destruct (decide (tg_ID t ∈ ids)) as [Hi|Hi]; [by rewrite decide_True|].
  rewrite decide_False by (by intros [_ ?]). unfold without. apply map_lookup_filter_None_2. destruct (tt_rows s !! (r, tg_ID t)) as [c|] eqn:Hc; [right|by left].
  intros c' _ Hno. apply Hno. split; [done|]. cbn. apply list_elem_of_fmap. exists t. split; [done|]. apply list_elem_of_filter. split; [done|]. apply list_elem_of_filter. by rewrite Hc.
Qed.

Section accepted.
Context (scope ty ns n content : bytes) (m : gmap bytes (list bytes)) (s : tag_state) (Hok : tags_ok s) (Hm : MetaTags yaml_Unmarshal content = Ok m).
Abbreviation tags := (scope_tags like scope s).
Abbreviation known := (mapCategoryTag tags).
Abbreviation qs := (named_pairs range_order known m).
Abbreviation matched := (matched_of known qs).
Abbreviation created := (created_of scope known qs).
Abbreviation saved := (numbered (tt_next s) created).
Abbreviation s1 := (inserted created s).
Definition pair_of (t : Tag) : bytes * bytes := (tg_Category t, tg_Name t).
Lemma created_elem t : t ∈ created ↔ ∃ c n, (c, n) ∈ qs ∧ tag_at known (c, n) = None ∧ t = new_tag_of scope c n.
Proof.
  unfold created_of. rewrite list_elem_of_omap. split.
  - intros ([c k] & Hq & Ht). destruct (tag_at _ _) eqn:Hat; [done|]. injection Ht as <-. eauto.
  - intros (c & k & Hq & Hat & ->). exists (c, k). split; [done|]. by rewrite Hat.
Qed.
Lemma created_fresh : NoDup (tag_key <$> tt_tags s ++ created).
Proof.
  rewrite fmap_app. apply NoDup_app. split_and!; [apply Hok| |].
  - intros k (x & -> & Hx)%list_elem_of_fmap (t & Hk & Ht)%list_elem_of_fmap. apply created_elem in Ht as (c & k' & _ & Hat & ->). unfold tag_key in Hk. cbn in Hk. injection Hk as Hn Hc Hs.
    rewrite <- Hc, <- Hn, (tag_found scope s x) in Hat; [done|apply Hok|done|done].
  - apply (NoDup_fmap_1 (λ k : bytes * bytes * bytes, (k.1.2, k.1.1))). rewrite <- list_fmap_compose. eapply sublist_NoDup; [exact (pairs_NoDup content m known Hm)|].
    apply (omap_origin _ pair_of). intros [c k] y. destruct (tag_at _ _); [done|]. by intros [= <-].
Qed.
Lemma s1_ok : tags_ok s1.
Proof. eapply step_ok; [|exact Hok]. by apply st_quiet, st_insert, created_fresh. Qed.
Lemma matched_elem t : t ∈ matched → t ∈ tt_tags s ∧ tg_Scope t = scope ∧ pair_of t ∈ qs.
Proof.
  unfold matched_of. rewrite list_elem_of_omap. intros ([c k] & Hq & Ht). apply mapped_tag in Ht as (Hin & Hc & Hn). apply scope_tags_elem in Hin as [Hin Hs].
  unfold pair_of. cbn in *. by rewrite Hc, Hn.
Qed.
(** The tags of the repository are those that are wanted. *)
Lemma wanted_elem t : t ∈ tt_tags s1 → t ∈ matched ++ saved ↔ tg_Scope t = scope ∧ pair_of t ∈ qs.
Proof.
  intros Ht. rewrite elem_of_app. split.
  - intros [Hin|Hin]; [by apply matched_elem in Hin as (_ & ?)|]. apply numbered_elem in Hin as (_ & x & Hx & ->). apply created_elem in Hx as (c & k & Hq & _ & ->). done.
  - intros [Hs Hq]. cbn in Ht. apply elem_of_app in Ht as [Ht|Ht]; [left|by right]. apply list_elem_of_omap. exists (pair_of t). split; [done|]. apply tag_found; [apply Hok|done|done].
Qed.
Lemma wanted_in : Forall (λ t, t ∈ tt_tags s1) (matched ++ saved).
Proof.
  apply Forall_app. split; apply Forall_forall; intros t Ht; cbn; apply elem_of_app; [left|by right]. by apply matched_elem in Ht as (? & _).
Qed.
Lemma wanted_ids : NoDup (tg_ID <$> matched ++ saved).
Proof.
  rewrite fmap_app. apply NoDup_app. split_and!; [| |apply numbered_ids].
  - apply NoDup_fmap_2_strong.
    + intros x y Hx%matched_elem Hy%matched_elem Heq. apply (keyed_eq tg_ID (tt_tags s)); [apply Hok|apply Hx|apply Hy|done].
    + apply (NoDup_fmap_1 pair_of). eapply sublist_NoDup; [exact (pairs_NoDup content m known Hm)|]. apply omap_origin.
      intros [c k] y Hy%mapped_tag. unfold pair_of. by destruct Hy as (_ & -> & ->).
  - intros i (x & -> & Hx%matched_elem)%list_elem_of_fmap (y & Heq & Hy%numbered_elem)%list_elem_of_fmap. destruct Hok as (_ & _ & Hlt & _). rewrite Forall_forall in Hlt.
    specialize (Hlt x ltac:(apply Hx)). destruct Hy as (? & _). lia.
Qed.
End accepted.

(** *** The run *)

Lemma gives_drop ts w : undisturbed w → Forall (λ t, is_sensitive (tg_Name t) = false) ts → gives (drop_sensitive is_sensitive ts) w ts.
Proof.
  intros Hw. induction 1 as [|t ts Ht _ IH]; [done|]. cbn [drop_sensitive]. eapply gives_bind; [by apply gives_try, gives_fault|]. eapply gives_bind; [exact IH|]. by rewrite Ht.
Qed.
Lemma inserted_nil s : inserted [] s = s.
Proof. destruct s. unfold inserted, with_tags. cbn. by rewrite app_nil_r, Z.add_0_r. Qed.
Lemma run_SaveTags ts w : undisturbed w → NoDup (tag_key <$> tt_tags (gt_state w) ++ ts) →
  SaveTags ts w = (Ret (numbered (tt_next (gt_state w)) ts), on_state (inserted ts) w).
Proof.
  intros Hw Hnd. unfold SaveTags. destruct ts as [|t ts].
  - unfold on_state. rewrite inserted_nil. by destruct w.
  - apply io_wrap_run. unfold tag_insert. rewrite (run_gives _ _ w tt) by (by apply gives_fault). rewrite (run_gives _ _ w (gt_state w)) by done. by rewrite decide_True.
Qed.
Lemma run_SetMeta ty ns n ts r w : undisturbed w → tags_ok (gt_state w) → at_git LOWER ty ns n (tt_repos (gt_state w)) = Some r →
  Forall (λ t, t ∈ tt_tags (gt_state w) ∧ tg_Category t ∉ excluded) ts → NoDup (tg_ID <$> ts) →
  SetMetaTags LOWER ty ns n ts w =
  (Ret ((tp_ID r,.) <$> (tg_ID <$> ts)), on_state (λ s, with_rows (λ m, with_ones (tp_ID r) (tg_ID <$> ts) (without (tp_ID r) (meta_ids s (tp_ID r)) m)) s) w).
Proof.
  intros Hw Hok Hr Hts Hnd. unfold SetMetaTags.
  rewrite (run_gives _ _ w r) by (apply gives_wrap; eapply gives_bind; [by apply (gives_at_git LOWER)|]; eapply gives_bind; [by apply gives_fault|done]).
  rewrite (run_gives _ _ w (gt_state w)) by done. cbv zeta. rewrite (run_gives _ _ w tt) by (by apply gives_statements).
  rewrite (run_gives _ _ w tt).
  - rewrite (run_gives _ _ w tt) by (by apply gives_fault). done.
  - destruct ts as [|t0 ts]; [done|]. set (l := t0 :: ts) in *. rewrite decide_False.
    + apply gives_wrap. eapply gives_bind; [by apply gives_fault|]. rewrite decide_True; [done|]. split; [done|]. apply Forall_fmap. eapply Forall_impl; [exact Hts|].
      intros t [Ht Hex]. unfold compose. pose proof (meta_rows (gt_state w) (tp_ID r) [] t _ Hok eq_refl Ht Hex) as Hrow. cbn in Hrow. rewrite Hrow. by rewrite decide_False by apply not_elem_of_nil.
    + intros (t & Ht & Hfw)%Exists_exists. rewrite Forall_forall in Hts. destruct (Hts t Ht) as [_ Hno]. apply Hno. rewrite Hfw. by left.
Qed.
Definition only_repos (s s' : tag_state) : Prop := tt_tags s' = tt_tags s ∧ tt_rows s' = tt_rows s.
Lemma run_license id w : undisturbed w → ∃ r w', io_try (UpdateLicenseByTag id) w = (Ret r, w') ∧ only_repos (gt_state w) (gt_state w').
Proof.
  intros Hw. destruct (goes_license only_repos False ltac:(done) id w) as (Hr & _ & Hend). unfold io_try. assert (∀ s s', rtc only_repos s s' → only_repos s s') as Hrtc.
  { induction 1 as [|x y z [Ht Hrow] _ [Ht' Hrow']]; [done|]. split; congruence. }
  apply Hrtc in Hr. destruct (UpdateLicenseByTag id w) as [[[]|e|] w'] eqn:Hrun; cbn in *; [by eauto..|done].
Qed.

(** What the rows are after the wanted tags were put. *)
Definition wanted (scope : bytes) (m : gmap bytes (list bytes)) (s : tag_state) : list Tag :=
  let known := mapCategoryTag (scope_tags like scope s) in let qs := named_pairs range_order known m in
  matched_of known qs ++ numbered (tt_next s) (created_of scope known qs).
Lemma listed_pairs content m s scope t : MetaTags yaml_Unmarshal content = Ok m → (∃ x, x ∈ tt_tags s ∧ tg_Scope x = scope ∧ tg_Category x = tg_Category t) →
  pair_of t ∈ named_pairs range_order (mapCategoryTag (scope_tags like scope s)) m ↔ lists_tag content (tg_Category t) (tg_Name t).
Proof.
  intros Hm (x & Hx & Hs & Hc). unfold pair_of. rewrite pairs_elem. split.
  - intros (_ & ns & Hns & Hn). by exists m, ns.
  - intros (m' & ns & Hm' & Hns & Hn). rewrite Hm in Hm'. injection Hm' as <-. split; [|by eauto]. apply category_known. exists x. split; [|done]. by apply scope_tags_elem.
Qed.
Section settled.
Context (scope content : bytes) (m : gmap bytes (list bytes)) (s : tag_state) (r : Z) (Hok : tags_ok s) (Hm : MetaTags yaml_Unmarshal content = Ok m).
Context (Hclean : ∀ c x, lists_tag content c x → c ∉ excluded).
Abbreviation known := (mapCategoryTag (scope_tags like scope s)).
Abbreviation s1 := (inserted (created_of scope known (named_pairs range_order known m)) s).
Abbreviation ids := (tg_ID <$> wanted scope m s).
Abbreviation rows := (with_ones r ids (without r (meta_ids s1 r) (tt_rows s))).
Lemma known_category t : t ∈ tt_tags s1 → tg_Scope t = scope → ∃ x, x ∈ tt_tags s ∧ tg_Scope x = scope ∧ tg_Category x = tg_Category t.
Proof.
  intros [Ht|Ht]%elem_of_app Hs; [by exists t|]. apply numbered_elem in Ht as (_ & y & Hy & ->). apply created_elem in Hy as (c & x & Hq & _ & ->).
  apply pairs_elem in Hq as (Hc & _). apply category_known in Hc as (z & Hz & Hzc). apply scope_tags_elem in Hz as [? ?]. by exists z.
Qed.
Lemma wanted_listed t : t ∈ tt_tags s1 → t ∈ wanted scope m s ↔ tg_Scope t = scope ∧ lists_tag content (tg_Category t) (tg_Name t).
Proof.
  intros Ht. unfold wanted. cbv zeta. rewrite (wanted_elem scope m s Hok t Ht). split; intros [Hs Hl]; (split; [done|]); apply (listed_pairs content m s scope t Hm); try done; by apply known_category.
Qed.
Lemma wanted_clean : Forall (λ t, t ∈ tt_tags s1 ∧ tg_Category t ∉ excluded) (wanted scope m s).
Proof.
  pose proof (wanted_in scope m s) as Hin. apply Forall_forall. intros t Ht. rewrite Forall_forall in Hin. specialize (Hin t Ht). split; [done|].
  apply (wanted_listed t Hin) in Ht as [_ Hl]. by eapply Hclean.
Qed.
Lemma wanted_id t : t ∈ tt_tags s1 → tg_ID t ∈ ids ↔ t ∈ wanted scope m s.
Proof.
  intros Ht. split; [|intros Hw; apply list_elem_of_fmap; by exists t]. intros (x & Heq & Hx)%list_elem_of_fmap. pose proof wanted_clean as Hin. rewrite Forall_forall in Hin.
  assert (x = t) as <-; [|done]. destruct (s1_ok scope content m s Hok Hm) as (_ & Hnd & _). apply (keyed_eq tg_ID (tt_tags s1)); [done|by apply Hin|done..].
Qed.
Lemma settled_row t : t ∈ tt_tags s1 → tg_Category t ∉ excluded →
  (tg_Scope t = scope ∧ lists_tag content (tg_Category t) (tg_Name t) → rows !! (r, tg_ID t) = Some 1) ∧
  (¬ (tg_Scope t = scope ∧ lists_tag content (tg_Category t) (tg_Name t)) → rows !! (r, tg_ID t) = None).
Proof.
  intros Ht Hex. rewrite (meta_rows s1) by (try done; by eapply s1_ok). split; intros Hl; [rewrite decide_True|rewrite decide_False]; try done.
  - by apply wanted_id, wanted_listed.
  - intros Hi. apply wanted_id in Hi; [|done]. by apply wanted_listed in Hi.
Qed.
Lemma settled_other t repoID : t ∈ tt_tags s1 → repoID ≠ r ∨ tg_Category t ∈ excluded → rows !! (repoID, tg_ID t) = tt_rows s !! (repoID, tg_ID t).
Proof.
  intros Ht Hor. rewrite ones_lookup. cbn [fst snd]. rewrite decide_False.
  - destruct Hor as [Hne|Hex].
    + unfold without. destruct (tt_rows s !! (repoID, tg_ID t)) as [c|] eqn:Hc; [|by apply map_lookup_filter_None_2; left]. apply map_lookup_filter_Some_2; [done|]. by intros [? _].
    + apply meta_kept; [by eapply s1_ok|done..].
  - intros [-> Hi]. destruct Hor as [?|Hex]; [done|]. apply wanted_id in Hi; [|done]. pose proof wanted_clean as Hin. rewrite Forall_forall in Hin. by apply (Hin t Hi).
Qed.
Lemma settled_named c x t : lists_tag content c x → t ∈ tt_tags s → tg_Category t = c → tg_Scope t = scope → (x, c, scope) ∈ tag_key <$> tt_tags s1.
Proof.
  intros Hl Ht <- Hs. assert ((tg_Category t, x) ∈ named_pairs range_order known m) as Hq.
  { apply (listed_pairs content m s scope (new_tag_of scope (tg_Category t) x) Hm); [by exists t|done]. }
  apply list_elem_of_fmap. destruct (tag_at known (tg_Category t, x)) as [y|] eqn:Hy.
  - apply mapped_tag in Hy as (Hin & Hc & Hn). apply scope_tags_elem in Hin as [Hin Hsy]. exists y. split; [unfold tag_key; cbn in *; by rewrite Hc, Hn, Hsy|]. cbn. apply elem_of_app. by left.
  - assert (new_tag_of scope (tg_Category t) x ∈ created_of scope known (named_pairs range_order known m)) as Hc by (apply created_elem; eauto).
    apply list_elem_of_fmap_2 with (f := tag_key) in Hc. rewrite <- (numbered_key (tt_next s)) in Hc. apply list_elem_of_fmap in Hc as (z & Heq & Hz). exists z. split; [done|]. cbn. apply elem_of_app. by right.
Qed.
End settled.

Definition at_path (ty ns n : bytes) (l : list tagged_repo) : option tagged_repo := found_by (λ r, tp_Type r = ty ∧ LOWER (tp_Path r) = LOWER (path_of ns n)) l.
Lemma gives_at_path ty ns n w r : undisturbed w → at_path ty ns n (tt_repos (gt_state w)) = Some r → gives (FindByPath LOWER ty ns n) w r.
Proof. intros Hw Hr. by apply gives_wrap, gives_tg_row. Qed.

(** C33: In an undisturbed world, a README without excluded categories and
    sensitive names makes the repository's tags those it lists: of every tag
    outside the excluded categories the repository has a row, counted once,
    exactly when the front matter names it in the scope; names of known
    categories become tags where there were none; and neither rows of excluded
    categories nor those of other repositories change. *)
Theorem readme_sets_listed_tags scope ty ns n content m r repo w :
  undisturbed w → tags_ok (gt_state w) → repo_type_of scope = Some ty → at_git LOWER ty ns n (tt_repos (gt_state w)) = Some r →
  at_path ty ns n (tt_repos (gt_state w)) = Some repo → MetaTags yaml_Unmarshal content = Ok m →
  (∀ c x, lists_tag content c x → c ∉ excluded ∧ (has_checker = true → is_sensitive x = false)) →
  ∃ ids w', UpdateMetaTags LOWER like yaml_Unmarshal range_order has_checker is_sensitive scope ns n content w = (Ret ids, w') ∧
    (∀ t, t ∈ tt_tags (gt_state w') → tg_Category t ∉ excluded →
      (tg_Scope t = scope ∧ lists_tag content (tg_Category t) (tg_Name t) → tt_rows (gt_state w') !! (tp_ID r, tg_ID t) = Some 1) ∧
      (¬ (tg_Scope t = scope ∧ lists_tag content (tg_Category t) (tg_Name t)) → tt_rows (gt_state w') !! (tp_ID r, tg_ID t) = None)) ∧
    (∀ c x t, lists_tag content c x → t ∈ tt_tags (gt_state w) → tg_Category t = c → tg_Scope t = scope → (x, c, scope) ∈ tag_key <$> tt_tags (gt_state w')) ∧
    (∀ t repoID, t ∈ tt_tags (gt_state w') → repoID ≠ tp_ID r ∨ tg_Category t ∈ excluded → tt_rows (gt_state w') !! (repoID, tg_ID t) = tt_rows (gt_state w) !! (repoID, tg_ID t)).
Proof.
  intros Hw Hok Hty Hr Hrepo Hm Hclean. set (s := gt_state w) in *. set (known := mapCategoryTag (scope_tags like scope s)). set (created := created_of scope known (named_pairs range_order known m)).
  assert (∀ c x, lists_tag content c x → c ∉ excluded) as Hcl by (intros c x Hl; by apply (Hclean c x)).
  set (w1 := on_state (inserted created) w). assert (tags_ok (gt_state w1)) as Hok1 by (by eapply s1_ok).
  destruct (run_license (tp_ID repo) (on_state (λ s, with_rows (λ m', with_ones (tp_ID r) (tg_ID <$> wanted scope m (gt_state w)) (without (tp_ID r) (meta_ids s (tp_ID r)) m')) s) w1)) as (rl & w3 & Hrun & Htags & Hrows); [done|].
  cbn [gt_state on_state with_rows tt_rows tt_tags] in Htags, Hrows.
  eexists ((tp_ID r,.) <$> (tg_ID <$> wanted scope m s)), w3. rewrite Htags, Hrows. split_and!.
  - unfold UpdateMetaTags. rewrite Hty. rewrite (run_gives _ _ w (matched_of known (named_pairs range_order known m), created)).
    2: { apply gives_wrap. unfold ProcessReadme. rewrite Hm. eapply gives_bind; [by apply gives_wrap, gives_tags|]. by rewrite processTags_pairs. }
    rewrite (run_gives _ _ w created).
    2: { destruct has_checker; [|done]. apply gives_drop; [done|]. apply Forall_forall. intros t (c & x & Hq & _ & ->)%created_elem. apply pairs_elem in Hq as (_ & ns' & Hns & Hx).
         apply (Hclean c x); [by exists m, ns'|done]. }
    rewrite (run_seq _ _ w _ _ (io_wrap_run _ _ _ _ _ (run_SaveTags created w Hw ltac:(by eapply created_fresh)))). fold w1.
    rewrite (run_gives _ _ w1 repo) by (by apply gives_wrap, gives_at_path).
    assert (Forall (λ t, t ∈ tt_tags (gt_state w1) ∧ tg_Category t ∉ excluded) (wanted scope m s)) as Hin by (by eapply wanted_clean).
    rewrite (run_seq _ _ w1 _ _ (io_wrap_run _ _ _ _ _ (run_SetMeta ty ns n (wanted scope m s) r w1 Hw Hok1 Hr Hin ltac:(by eapply wanted_ids)))).
    by rewrite (run_seq _ _ _ _ _ Hrun).
  - intros t Ht Hex. by apply (settled_row scope content m s (tp_ID r) Hok Hm Hcl).
  - intros c x t Hl Ht Hc Hs. by apply (settled_named scope content m s Hm c x t).
  - intros t repoID Ht Hor. by apply (settled_other scope content m s (tp_ID r) Hok Hm Hcl).
Qed.
End readme.

(** ** Instances *)

Section examples.
Abbreviation lower := (λ s : bytes, s).
Abbreviation no_like := (λ _ _ : bytes, false).
Abbreviation ucl := (λ r : Z, r).
Definition ex_yaml (d : bytes) : option (list (bytes * yaml)) :=
  if decide (d = bs "new") then Some [(bs "pipeline_tag", YList [YString (bs "chat"); YString (bs "talk"); YString (bs "chat")]); (bs "License", YString (bs " mit "))]
  else Some [(bs "industry", YString (bs "finance"))].
Abbreviation in_order := (λ l : list (bytes * list bytes), l).
Abbreviation no_word := (λ _ : bytes, false).
Definition ex_tag (id : Z) (n c s : string) : Tag := mk_tag id (bs n) (bs c) [] (bs s) true [] [].
Definition pytorch : Tag := ex_tag 1 "pytorch" "framework" "model".
Definition finance : Tag := ex_tag 3 "finance" "industry" "model".
Definition ex_tags : list Tag := [pytorch; ex_tag 2 "chat" "task" "model"; finance; ex_tag 4 "mit" "license" "model"; ex_tag 5 "old" "task" "model"].
Definition ex_repo : tagged_repo := mk_trepo 7 (bs "model") (bs "a/m") (bs "m") (bs "models_a/m") [] [] [] [].
Definition ex_rows : tag_rows := <[(7, 3) := 1]> (<[(7, 5) := 1]> (<[(8, 5) := 1]> ∅)).
Definition tag_ex : tag_state := mk_tgs ex_tags 6 ex_rows [ex_repo] [] [] 1 ∅.
Definition ex_world : tag_world := mk_tgw [] tag_ex.
Definition ex_raw (_ _ _ _ _ : bytes) : option bytes := Some (bs "---new---").
Definition ex_meta (r : tagged_repo) : gio tagged_repo := mret r.
Definition ex_runtime (_ _ : tagged_repo) : gio unit := mret tt.
Definition ex_commits : list Commit :=
  [mk_commit [bs "pytorch_model.bin"; bs "a/x.pt"; bs "b.txt"] [] [bs "README.md"]; mk_commit [bs "c.pth"] [bs "a/x.pt"] []].
Lemma ex_ok : tags_ok tag_ex.
Proof. split_and!; apply (bool_decide_unpack _); by vm_compute. Qed.
Lemma ex_tracked : Forall (λ t, tracked (bs "model") tag_ex t ∧ count_at (7, tg_ID t) ex_rows = files_with ucl [] (tg_Name t) ∧ 0 ≤ files_with ucl [] (tg_Name t)) [pytorch].
Proof. apply Forall_singleton. split; [split_and!; [by left|done..]|by split; vm_compute]. Qed.
Lemma ex_splits : Forall splits [ex_repo].
Proof. apply Forall_singleton. split_and!; [|done..]. unfold has_slash. vm_compute. lia. Qed.

(** A tag takes another's name and is refused, one is dropped, and pushes and
    deletions follow, with calls that fail in between. *)
Definition ex_ops : list (tag_op) :=
  [AddTag (ex_tag 0 "draw" "task" "model"); ChangeTag 5 (ex_tag 0 "chat" "task" "model"); SetByCategory (bs "model") 7 (bs "industry") [bs "finance"; bs "finance"];
   Push (bs "models_a/m") (bs "main") ex_commits; DropTag 2; DropRepoTags 7 [5]; NoReadme (bs "model") (bs "a") (bs "m")].
Lemma readme_with_excluded_tag_refused_witness :
  lists_tag ex_yaml (bs "---x---") (bs "industry") (bs "finance") ∧
  let '(o, w') := UpdateMetaTags lower no_like ex_yaml in_order true no_word (bs "model") (bs "a") (bs "m") (bs "---x---") ex_world in
  (∃ e, o = Fail e) ∧ tt_rows (gt_state w') = ex_rows.
Proof.
  assert (lists_tag ex_yaml (bs "---x---") (bs "industry") (bs "finance")) as Hl by (eexists _, [bs "finance"]; split_and!; [reflexivity|by vm_compute|by left]).
  split; [exact Hl|].
  apply (readme_with_excluded_tag_refused lower no_like ex_yaml in_order true no_word (λ l, Permutation_refl l) (bs "model") (bs "model") (bs "a") (bs "m") (bs "---x---") finance ex_world ex_ok);
    [reflexivity|reflexivity|exact Hl|].
  split; [right; right; by left|]. right. split; [apply (bool_decide_unpack _); by vm_compute|]. exists ex_repo. split; [by vm_compute|]. exists 1. by vm_compute.
Defined.
Definition ex_named : gmap bytes (list bytes) := match MetaTags ex_yaml (bs "---new---") with Ok m => m | Err _ => ∅ end.
Lemma ex_named_keys : (map_to_list ex_named).*1 ⊆ [bs "task"; bs "license"].
Proof. apply (bool_decide_unpack _). by vm_compute. Qed.
Lemma ex_clean c x : lists_tag ex_yaml (bs "---new---") c x → c ∉ excluded ∧ (true = true → no_word x = false).
Proof.
  intros (m & ns & Hm & Hns & _). split; [|done]. assert (ex_named = m) as Heq by (unfold ex_named; by rewrite Hm).
  assert (c ∈ (map_to_list ex_named).*1) as Hc by (apply list_elem_of_fmap; exists (c, ns); split; [done|]; apply elem_of_map_to_list; by rewrite Heq).
  apply ex_named_keys, elem_of_cons in Hc as [->|Hc%list_elem_of_singleton]; [|subst c]; apply (bool_decide_unpack _); by vm_compute.
Qed.
Lemma readme_sets_listed_tags_witness :
  (∀ c x, lists_tag ex_yaml (bs "---new---") c x → c ∉ excluded ∧ (true = true → no_word x = false)) ∧
  ∃ ids w', UpdateMetaTags lower no_like ex_yaml in_order true no_word (bs "model") (bs "a") (bs "m") (bs "---new---") ex_world = (Ret ids, w') ∧
    shown (gt_state w') 7 = [ex_tag 2 "chat" "task" "model"; finance; ex_tag 4 "mit" "license" "model"; mk_tag 6 (bs "talk") (bs "task") [] (bs "model") false [] []] ∧
    (∀ t repoID, t ∈ tt_tags (gt_state w') → repoID ≠ 7 ∨ tg_Category t ∈ excluded → tt_rows (gt_state w') !! (repoID, tg_ID t) = ex_rows !! (repoID, tg_ID t)).
Proof.
  split; [exact ex_clean|].
  destruct (readme_sets_listed_tags lower no_like ex_yaml in_order true no_word (λ l, Permutation_refl l) (bs "model") (bs "model") (bs "a") (bs "m") (bs "---new---") _ ex_repo ex_repo ex_world
    eq_refl ex_ok eq_refl ltac:(by vm_compute) ltac:(by vm_compute) eq_refl ex_clean) as (ids & w' & Hrun & _ & _ & Hother).
  exists ids, w'. split_and!; [exact Hrun| |exact Hother]. vm_compute in Hrun. injection Hrun as <- <-. by vm_compute.
Defined.

(** A name given twice is counted twice, and half of that stays when the names
    are taken back. *)
Example duplicate_names_stick :
  let set names := UpdateRepoTagsByCategory no_like (bs "model") 7 (bs "task") names in
  let w := snd (set [bs "chat"; bs "chat"] ex_world) in
  tt_rows (gt_state w) !! (7, 2) = Some 2 ∧ tt_rows (gt_state (snd (set [] w))) !! (7, 2) = Some 1.
Proof. split; by vm_compute. Qed.
(** Every commit counts the tag of a dataset's rule twice, without any file. *)
Example rule_tag_counts_commits :
  let w := mk_tgw [] (mk_tgs [ex_tag 1 "vqa" "task" "dataset"] 2 ∅ [mk_trepo 7 (bs "dataset") (bs "a/d") (bs "d") (bs "datasets_a/d") [] [] [] []] [mk_rule (bs "a") (bs "d") (bs "dataset") (bs "task") (bs "vqa") []] [] 1 ∅) in
  tt_rows (gt_state (snd (UpdateRepoInfos lower no_like ucl ex_yaml in_order true no_word ex_raw ex_meta ex_runtime (bs "datasets_a/d") (bs "main") [mk_commit [] [] []; mk_commit [] [] []] w))) !! (7, 1) = Some 4.
Proof. by vm_compute. Qed.
(** What stands between the first two rules is the front matter, wherever they
    are. *)
Example front_matter_cut : metaText (bs "a --- b --- c") = bs " b ".
Proof. by vm_compute. Qed.
End examples.
