(* ===== verification/RtArch.v ===== *)
(** Runtime frameworks and the architectures they serve (component/runtime_architecture.go,
    runtime_architecture_ce.go and builder/store/database/runtime_framework.go,
    runtime_architecture.go, metadata.go): the tables that the engine files of the
    server fill at start-up, and the tags of a model they give it after a push. *)
From stdpp Require Import sorting.
From S2P Require Import Prelude GoLib GoFloat GoJson Sensitive Errorx AcAccess TgTag.
Open Scope Z_scope.

(** ** Frameworks and architectures *)

(** Times are counted from the zero time. *)
Record RuntimeFramework := mk_rf {
  rf_ID : Z; rf_FrameName : bytes; rf_FrameVersion : bytes; rf_FrameImage : bytes; rf_ComputeType : bytes; rf_DriverVersion : bytes; rf_Description : bytes;
  rf_Enabled : Z; rf_ContainerPort : Z; rf_Type : Z; rf_EngineArgs : bytes; rf_ModelFormat : bytes; rf_ToolCallParsers : bytes; rf_UpdatedAt : Z;
}.
Record RuntimeArchitecture := mk_ra { ra_RuntimeFrameworkID : Z; ra_ArchitectureName : bytes; ra_ModelName : bytes }.
Record ResourceModel := mk_rm { rm_ResourceName : bytes; rm_ModelName : bytes }.
Record EngineArg := mk_arg { ea_Name : bytes; ea_Value : bytes; ea_Format : bytes }.
Record Image := mk_image {
  im_ComputeType : bytes; im_Image : bytes; im_DriverVersion : bytes; im_EngineVersion : bytes; im_ExtraArchs : list bytes; im_ExtraModels : list bytes;
}.
Record EngineConfig := mk_engine {
  ec_EngineName : bytes; ec_ContainerPort : Z; ec_MinVersion : bytes; ec_ModelFormat : bytes; ec_EngineImages : list Image; ec_SupportedArchs : list bytes;
  ec_SupportedModels : list bytes; ec_EngineArgs : option (list EngineArg); ec_Enabled : Z; ec_UpdatedAt : Z; ec_Description : bytes; ec_ToolCallParsers : gmap bytes bytes;
}.
(** A file of engines: what it decodes to, and when it was modified, as far as
    it can be read. *)
Record engine_file := mk_file { ef_config : option EngineConfig; ef_modTime : option Z }.

Definition SpaceType : Z := 0.
Definition InferenceType : Z := 1.
Definition FinetuneType : Z := 2.
Definition EvaluationType : Z := 4.
Definition NotebookType : Z := 5.
Definition JobType : Z := 6.
Definition GGUF : bytes := bs "gguf".
Definition Safetensors : bytes := bs "safetensors".
Definition Unknown : bytes := bs "unknown".

Record rt_state := mk_rts { rt_frames : list RuntimeFramework; rt_next : Z; rt_archs : list RuntimeArchitecture }.
Record rt_world := mk_rtw { rt_faults : list (option goerr); rt_tables : rt_state }.
#[export] Program Instance rt_world_faulty : Faulty rt_world goerr := {| get_faults := rt_faults; set_faults fs w := mk_rtw fs (rt_tables w) |}.
Next Obligation. by intros []. Qed.
Abbreviation rio := (io rt_world goerr).
Definition on_tables (f : rt_state → rt_state) (w : rt_world) : rt_world := mk_rtw (rt_faults w) (f (rt_tables w)).
Definition with_frames (f : list RuntimeFramework → list RuntimeFramework) (n : Z) (s : rt_state) : rt_state := mk_rts (f (rt_frames s)) n (rt_archs s).
Definition with_archs (f : list RuntimeArchitecture → list RuntimeArchitecture) (s : rt_state) : rt_state := mk_rts (rt_frames s) (rt_next s) (f (rt_archs s)).

(** *** The stores *)

Definition rt_read {A} (f : rt_state → A) : rio A := next_fault;; io_gets (λ w, f (rt_tables w)).
Definition rt_row {A} (f : rt_state → option A) : rio A := o ← rt_read f; match o with Some a => mret a | None => io_fail ErrNoRows end.
Definition FindByID (id : Z) : rio RuntimeFramework := rt_row (λ s, found_by (λ f, rf_ID f = id) (rt_frames s)).
Definition FindByFrameName (name : bytes) : rio (list RuntimeFramework) := rt_read (λ s, filter (λ f, rf_FrameName f = name) (rt_frames s)).
Definition serves (image computeType : bytes) (f : RuntimeFramework) : Prop := rf_ComputeType f = computeType ∧ rf_FrameImage f = image.
#[export] Instance serves_dec i c f : Decision (serves i c f).
Proof. unfold serves. apply _. Defined.
Definition FindByFrameImageAndComputeType (image computeType : bytes) : rio RuntimeFramework := rt_row (λ s, found_by (serves image computeType) (rt_frames s)).
(** Name, compute type and image are unique. *)
Definition frame_key (f : RuntimeFramework) : bytes * bytes * bytes := (rf_FrameName f, rf_ComputeType f, rf_FrameImage f).
Definition duplicate_frame : goerr := NewError (bs "duplicate key value violates unique constraint").
Definition at_time (id now : Z) (f : RuntimeFramework) : RuntimeFramework :=
  mk_rf id (rf_FrameName f) (rf_FrameVersion f) (rf_FrameImage f) (rf_ComputeType f) (rf_DriverVersion f) (rf_Description f) (rf_Enabled f) (rf_ContainerPort f) (rf_Type f)
    (rf_EngineArgs f) (rf_ModelFormat f) (rf_ToolCallParsers f) now.
(** A row that is put in without a time gets the present one. *)
Definition frame_Add (now : Z) (f : RuntimeFramework) : rio RuntimeFramework :=
  io_wrap (wrap "create runtime framework in db failed,error:") (
    next_fault;; s ← io_gets rt_tables;
    if decide (frame_key f ∈ frame_key <$> rt_frames s) then io_fail duplicate_frame
    else
      let f := at_time (rt_next s) (if decide (rf_UpdatedAt f = 0) then now else rf_UpdatedAt f) f in
      io_modify (on_tables (λ s, with_frames (λ l, l ++ [f]) (rt_next s + 1) s));; mret f).
Definition frame_Update (now : Z) (f : RuntimeFramework) : rio RuntimeFramework :=
  next_fault;; s ← io_gets rt_tables;
  let f := at_time (rf_ID f) now f in
  if decide (Exists (λ x, rf_ID x = rf_ID f) (rt_frames s) ∧ Exists (λ x, rf_ID x ≠ rf_ID f ∧ frame_key x = frame_key f) (rt_frames s)) then io_fail duplicate_frame
  else io_modify (on_tables (λ s, with_frames (fmap (λ x, if decide (rf_ID x = rf_ID f) then f else x)) (rt_next s) s));; mret f.
Definition RemoveRuntimeFrameworkAndArch (id : Z) : rio unit :=
  next_fault;; io_wrap (wrap "error happened while removing runtime architecture, ") next_fault;; io_wrap (wrap "error happened while removing runtime framework, ") next_fault;; next_fault;;
  io_modify (on_tables (λ s, with_archs (filter (λ a, ra_RuntimeFrameworkID a ≠ id)) (with_frames (filter (λ f, rf_ID f ≠ id)) (rt_next s) s))).
Definition store_ListByRuntimeFrameworkID (id : Z) : rio (list RuntimeArchitecture) :=
  io_wrap (wrap "error happened while getting runtime architecture, ") (rt_read (λ s, filter (λ a, ra_RuntimeFrameworkID a = id) (rt_archs s))).
(** The unique index counts missing names as different: a row that has only one
    of the names is never a duplicate. *)
Definition full (a : RuntimeArchitecture) : Prop := ra_ArchitectureName a ≠ [] ∧ ra_ModelName a ≠ [].
#[export] Instance full_dec a : Decision (full a).
Proof. unfold full. apply _. Defined.
#[export] Instance arch_eq_dec : EqDecision RuntimeArchitecture.
Proof. solve_decision. Defined.
Definition insert_archs (archs : list RuntimeArchitecture) : rio unit :=
  next_fault;; s ← io_gets rt_tables;
  if decide (NoDup (filter full (rt_archs s ++ archs))) then io_modify (on_tables (with_archs (λ l, l ++ archs)))
  else io_fail (NewError (bs "duplicate key value violates unique constraint")).
Definition arch_Add (a : RuntimeArchitecture) : rio unit := io_wrap (wrap "creating runtime architecture in the db failed,error:") (insert_archs [a]).
Definition BatchAdd (archs : list RuntimeArchitecture) : rio unit := io_wrap (wrap "error happened while adding runtime architecture, ") (insert_archs archs).
Definition DeleteByRuntimeIDAndArchName (id : Z) (archName : bytes) : rio unit :=
  io_wrap (wrap "deleting runtime architecture in the db failed, error:") (
    next_fault;; io_modify (on_tables (with_archs (filter (λ a, ¬ (ra_RuntimeFrameworkID a = id ∧ ra_ArchitectureName a = archName ∧ archName ≠ [])))))).
Definition DeleteByRuntimeID (id : Z) : rio unit :=
  io_wrap (wrap "error happened while deleting runtime architecture by runtime framework id, ") (
    next_fault;; io_modify (on_tables (with_archs (filter (λ a, ra_RuntimeFrameworkID a ≠ id))))).

(** ** What administrators do *)

Definition ListByRuntimeFrameworkID (id : Z) : rio (list RuntimeArchitecture) := io_wrap (wrap "list runtime arch failed, ") (store_ListByRuntimeFrameworkID id).
(** [strings.Trim] by spaces. *)
Definition drop_spaces : bytes → bytes := drop_while (λ c, bool_decide (c = " "%char)).
Definition Trim (s : bytes) : bytes := reverse (drop_spaces (reverse (drop_spaces s))).
(** Those that failed. *)
Fixpoint each_arch (f : bytes → rio unit) (archs : list bytes) : rio (list bytes) :=
  match archs with
  | [] => mret []
  | a :: archs =>
      if decide (Trim a = []) then each_arch f archs
      else r ← io_try (f (Trim a)); failed ← each_arch f archs; mret (match r with Ok _ => failed | Err _ => a :: failed end)
  end.
Definition SetArchitectures (id : Z) (architectures : list bytes) : rio (list bytes) :=
  io_wrap (wrap "invalid runtime framework id, ") (FindByID id);; each_arch (λ a, arch_Add (mk_ra id a [])) architectures.
Definition DeleteArchitectures (id : Z) (architectures : list bytes) : rio (list bytes) :=
  io_wrap (wrap "invalid runtime framework id, ") (FindByID id);; each_arch (DeleteByRuntimeIDAndArchName id) architectures.

(** ** What start-up does with the engine files *)

Section engines.
(** [semver.Make] and the order of versions, and the order a map is marshalled
    in. *)
Context {version : Type}.
Variable semver_Make : bytes → option version.
Variable version_LT : version → version → bool.
(** The JSON files of a directory of engines. *)
Variable getJsonfiles : string → option (list engine_file).
Variable now : Z.

Definition marshal_args (l : list EngineArg) : bytes :=
  marshal (JArr ((λ a, JObj [(bs "name", JStr (ea_Name a)); (bs "value", JStr (ea_Value a)); (bs "format", JStr (ea_Format a))]) <$> l)).
(** Maps are marshalled in the order of their keys. *)
Definition marshal_parsers (m : gmap bytes bytes) : bytes := marshal (JObj ((λ k, (k, JStr (default [] (m !! k)))) <$> sort_bytes ((map_to_list m).*1))).
(** What stays of an older row: its arguments and parsers where the file has
    none. *)
Definition filled (engineType : Z) (c : EngineConfig) (image : Image) (rf : RuntimeFramework) : RuntimeFramework :=
  mk_rf (rf_ID rf) (ec_EngineName c) (im_EngineVersion image) (im_Image image) (im_ComputeType image) (im_DriverVersion image) (ec_Description c) (ec_Enabled c) (ec_ContainerPort c)
    engineType (match ec_EngineArgs c with Some args => marshal_args args | None => rf_EngineArgs rf end) (ec_ModelFormat c)
    (if decide (ec_ToolCallParsers c = ∅) then rf_ToolCallParsers rf else marshal_parsers (ec_ToolCallParsers c)) (rf_UpdatedAt rf).
Definition no_frame : RuntimeFramework := mk_rf 0 [] [] [] [] [] [] 0 0 0 [] [] [] 0.
(** Names that were not there before, as rows; one map for architectures and
    models. *)
Fixpoint fresh_names (seen : list bytes) (row : bytes → RuntimeArchitecture) (names : list bytes) : list bytes * list RuntimeArchitecture :=
  match names with
  | [] => (seen, [])
  | n :: names => if decide (n ∈ seen) then fresh_names seen row names else let '(seen, rows) := fresh_names (n :: seen) row names in (seen, row n :: rows)
  end.
Definition engine_archs (id : Z) (c : EngineConfig) (image : Image) : list RuntimeArchitecture :=
  let '(seen, archs) := fresh_names [] (λ n, mk_ra id n []) (ec_SupportedArchs c ++ im_ExtraArchs image) in
  archs ++ (fresh_names seen (λ n, mk_ra id [] n) (ec_SupportedModels c ++ im_ExtraModels image)).2.
(** A failure goes on to the next image. *)
Definition or_skip {A} (m : rio A) (k : A → rio unit) : rio unit := r ← io_try m; match r with Ok a => k a | Err _ => mret tt end.
Definition add_archs (c : EngineConfig) (image : Image) (id : Z) : rio unit :=
  match engine_archs id c image with [] => mret tt | archs => or_skip (BatchAdd archs) mret end.
Definition update_frame (engineType : Z) (c : EngineConfig) (image : Image) (rf : RuntimeFramework) : rio unit :=
  if decide (rf_UpdatedAt rf < ec_UpdatedAt c) then
    let rf := filled engineType c image rf in
    if decide (rf_ID rf = 0) then or_skip (frame_Add now rf) (λ nf, add_archs c image (rf_ID nf))
    else or_skip (frame_Update now rf) (λ _, or_skip (DeleteByRuntimeID (rf_ID rf)) (λ _, add_archs c image (rf_ID rf)))
  else mret tt.
Definition update_image (engineType : Z) (c : EngineConfig) (image : Image) : rio unit :=
  r ← io_try (FindByFrameImageAndComputeType (im_Image image) (im_ComputeType image));
  match r with
  | Ok rf => update_frame engineType c image rf
  | Err e => if Is e ErrNoRows then update_frame engineType c image no_frame else mret tt
  end.
Fixpoint each_image (engineType : Z) (c : EngineConfig) (images : list Image) : rio unit :=
  match images with [] => mret tt | i :: rest => update_image engineType c i;; each_image engineType c rest end.
Definition UpdateRuntimeFrameworkAndArch (engineType : Z) (c : EngineConfig) : rio unit := each_image engineType c (ec_EngineImages c).

Fixpoint remove_old (minVersion : bytes) (frames : list RuntimeFramework) : rio unit :=
  match frames with
  | [] => mret tt
  | f :: fs =>
      match semver_Make (rf_FrameVersion f), semver_Make minVersion with
      | Some v, Some m => (if version_LT v m then RemoveRuntimeFrameworkAndArch (rf_ID f) else mret tt);; remove_old minVersion fs
      | _, _ => remove_old minVersion fs
      end
  end.
Definition removeFrameAndArchByVersion (frameName minVersion : bytes) : rio unit := frames ← FindByFrameName frameName; remove_old minVersion frames.
Definition dated (t : Z) (c : EngineConfig) : EngineConfig :=
  mk_engine (ec_EngineName c) (ec_ContainerPort c) (ec_MinVersion c) (ec_ModelFormat c) (ec_EngineImages c) (ec_SupportedArchs c) (ec_SupportedModels c) (ec_EngineArgs c)
    (ec_Enabled c) t (ec_Description c) (ec_ToolCallParsers c).
Definition update_file (engineType : Z) (f : engine_file) : rio unit :=
  match ef_config f, ef_modTime f with
  | Some c, Some t =>
      or_skip (if decide (ec_MinVersion c = []) then mret tt else removeFrameAndArchByVersion (ec_EngineName c) (ec_MinVersion c))
        (λ _, or_skip (UpdateRuntimeFrameworkAndArch engineType (dated t c)) mret)
  | _, _ => mret tt
  end.
Fixpoint each_engine_file (engineType : Z) (files : list engine_file) : rio unit :=
  match files with [] => mret tt | f :: fs => update_file engineType f;; each_engine_file engineType fs end.
Definition engine_directory (engineType : Z) : option string :=
  if decide (engineType = InferenceType) then Some "inference"%string else if decide (engineType = FinetuneType) then Some "finetune"%string
  else if decide (engineType = EvaluationType) then Some "evaluation"%string else if decide (engineType = NotebookType) then Some "notebook"%string
  else if decide (engineType = JobType) then Some "job"%string else if decide (engineType = SpaceType) then Some "space"%string else None.
Definition UpdateRuntimeFrameworkByType (engineType : Z) : rio unit :=
  match engine_directory engineType with
  | Some d =>
      match getJsonfiles d with
      | Some files => each_engine_file engineType files
      | None => io_fail (wrap "failed to get json files: " (NewError (bs "get engine path error")))
      end
  | None => mret tt
  end.
Definition InitRuntimeFrameworkAndArchitectures : rio unit :=
  io_wrap (wrap "failed to update inference runtime_framework: ") (UpdateRuntimeFrameworkByType InferenceType);;
  io_wrap (wrap "failed to update inference runtime_framework: ") (UpdateRuntimeFrameworkByType FinetuneType);;
  io_wrap (wrap "failed to update inference runtime_framework: ") (UpdateRuntimeFrameworkByType EvaluationType);;
  io_wrap (wrap "failed to update inference runtime_framework: ") (UpdateRuntimeFrameworkByType NotebookType);;
  io_wrap (wrap "failed to update job runtime_framework: ") (UpdateRuntimeFrameworkByType JobType);;
  io_wrap (wrap "failed to update space runtime_framework: ") (UpdateRuntimeFrameworkByType SpaceType).
End engines.

(** ** What a model is tagged with *)

Section models.
Variables (like : bytes → bytes → bool) (unicode_lower : Z → Z).
(** What the files of a model tell of it: the readers of [RtModel], which may
    panic. *)
Variables GetMetadataFromSafetensors GetMetadataFromGGUF : tagged_repo → outcome goerr ModelInfo.
(** The tables above, which these operations only read. *)
Variables (frames : list RuntimeFramework) (archs : list RuntimeArchitecture) (resource_models : list ResourceModel).

(** The tags of a repository as it was read: nothing changes them before they
    are looked at. *)
Definition Format (s : tag_state) (r : tagged_repo) : bytes :=
  let tags := filter (λ t, tg_Category t = bs "framework") (tags_of s (tp_ID r)) in
  if decide (Exists (λ t, tg_Name t = Safetensors) tags) then Safetensors
  else match head tags with Some t => tg_Name t | None => if Contains (ToLower unicode_lower (tp_Name r)) GGUF then GGUF else Unknown end.
Definition second_part (path : bytes) : outcome goerr bytes := match Split path (bs "/") with _ :: n :: _ => Ret n | _ => Panic end.
Definition OriginName (r : tagged_repo) : outcome goerr bytes :=
  if decide (tp_HFPath r ≠ []) then second_part (tp_HFPath r) else if decide (tp_MSPath r ≠ []) then second_part (tp_MSPath r)
  else if decide (tp_CSGPath r ≠ []) then second_part (tp_CSGPath r) else Ret (tp_Name r).
Definition gio_of {A} (o : outcome goerr A) : gio A := λ w, (o, w).

Definition metadata_of (r : tagged_repo) (i : ModelInfo) : Metadata :=
  mk_metadata (tp_ID r) (mi_ParamsBillions i) (mi_TensorType i) (mi_MiniGPUMemoryGB i) (mi_MiniGPUFinetuneGB i) (mi_Architecture i) (mi_ModelType i) (mi_ClassName i) (mi_Quantizations i).
Definition Upsert (m : Metadata) : gio unit := next_fault;; io_modify (on_state (with_metadata <[md_RepositoryID m := m]>)).
Definition read_files (o : outcome goerr ModelInfo) : gio ModelInfo := next_fault;; gio_of o.
Definition UpdateModelMetadata (r : tagged_repo) : gio ModelInfo :=
  s ← io_gets gt_state;
  let modelFormat := Format s r in
  info ←
    (if decide (modelFormat = Safetensors) then io_wrap (wrap "fail to get model metadata from safetensors, ") (read_files (GetMetadataFromSafetensors r))
     else if decide (modelFormat = GGUF) then io_wrap (wrap "fail to get model metadata from gguf, ") (read_files (GetMetadataFromGGUF r))
     else io_fail (NewError (bs "unsupported model format " ++ modelFormat)));
  io_wrap (wrap "fail to update model metadata in db, ") (Upsert (metadata_of r info));; mret info.

(** What names an engine's row for a model: an architecture, or the model. *)
Definition meets (archNames : list bytes) (modelName : bytes) (a : RuntimeArchitecture) : Prop :=
  ra_ArchitectureName a ∈ archNames ∨ (ra_ModelName a ≠ [] ∧ ra_ModelName a = modelName).
#[export] Instance meets_dec l m a : Decision (meets l m a).
Proof. unfold meets. apply _. Defined.
Definition ListByArchNameAndModel (archNames : list bytes) (modelName : bytes) : gio (list RuntimeArchitecture) :=
  io_wrap (wrap "error happened while getting runtime architecture, ") (tg_read (λ _, filter (meets archNames modelName) archs)).
Definition ListByIDs (ids : list Z) : gio (list RuntimeFramework) := io_wrap (wrap "query runtimes failed, ") (tg_read (λ _, filter (λ f, rf_ID f ∈ ids) frames)).
Definition supportedFormat (f : RuntimeFramework) : bytes := if decide (rf_ModelFormat f = []) then Safetensors else rf_ModelFormat f.
Definition getRuntimeFrameworks (archNames : list bytes) (r : tagged_repo) (modelType : bytes) : gio (list RuntimeFramework) :=
  gio_of (second_part (tp_Path r));; oriName ← gio_of (OriginName r);
  runtimes ← ListByArchNameAndModel archNames oriName;
  newFrames ← ListByIDs (ra_RuntimeFrameworkID <$> runtimes);
  mret (filter (λ f, Contains (supportedFormat f) modelType = true) newFrames).
Definition checkTagName (f : RuntimeFramework) (tag : bytes) : bool := Contains (rf_FrameImage f) tag.
Fixpoint add_matching (f : RuntimeFramework) (repoId : Z) (rftags : list Tag) : gio unit :=
  match rftags with
  | [] => mret tt
  | t :: ts => (if checkTagName f (tg_Name t) then io_try (UpsertRepoTags repoId [] [tg_ID t]);; mret tt else mret tt);; add_matching f repoId ts
  end.
Definition AddRuntimeFrameworkTag (rftags : list Tag) (repoId rfId : Z) : gio unit :=
  f ← tg_row (λ _, found_by (λ f, rf_ID f = rfId) frames); add_matching f repoId rftags.
Fixpoint add_frames (rftags : list Tag) (repoId : Z) (fs : list RuntimeFramework) : gio unit :=
  match fs with [] => mret tt | f :: fs => io_try (AddRuntimeFrameworkTag rftags repoId (rf_ID f));; add_frames rftags repoId fs end.
(** Some models are named with the resources they need. *)
Definition FindByModelName (modelName : bytes) : gio (list ResourceModel) :=
  tg_read (λ _, filter (λ m, like (rm_ModelName m) (bs "%" ++ modelName ++ bs "%") = true) resource_models).
Fixpoint add_resource (m : ResourceModel) (repoId : Z) (rstags : list Tag) : gio unit :=
  match rstags with
  | [] => mret tt
  | t :: ts => (if Contains (rm_ResourceName m) (tg_Name t) then io_try (UpsertRepoTags repoId [] [tg_ID t]);; mret tt else mret tt);; add_resource m repoId ts
  end.
Fixpoint add_resources (rstags : list Tag) (repoId : Z) (ms : list ResourceModel) : gio unit :=
  match ms with [] => mret tt | m :: ms => add_resource m repoId rstags;; add_resources rstags repoId ms end.
Definition AddResourceTag (rstags : list Tag) (modelname : bytes) (repoId : Z) : gio unit := rms ← FindByModelName modelname; add_resources rstags repoId rms.
Definition runtime_categories : list bytes := [bs "runtime_framework"; bs "resource"].
Definition arch_names (i : ModelInfo) : list bytes := filter (λ n, n ≠ []) [mi_Architecture i; mi_ClassName i; mi_ModelType i].
Definition UpdateRuntimeFrameworkTag (i : ModelInfo) (r : tagged_repo) : gio unit :=
  rftags ← io_try (store_AllTags like (mk_filter [ModelTagScope] runtime_categories None []));
  if decide (arch_names i = []) then io_fail (NewError (bs "fail to get architecture from model info"))
  else
    s ← io_gets gt_state;
    newFrames ← io_wrap (wrap "fail to get runtime frameworks, ") (getRuntimeFrameworks (arch_names i) r (Format s r));
    match newFrames with
    | [] => io_fail (NewError (bs "fail to get runtime frameworks"))
    | _ =>
        io_wrap (wrap "fail to remove old runtime framework tags, ") (RemoveRepoTagsByCategory (tp_ID r) runtime_categories);;
        add_frames (match rftags with Ok ts => ts | Err _ => [] end) (tp_ID r) newFrames
    end.

(** *** Scans *)

Section scans.
(** May a user write to a repository: what [GetUserRepoPermission] tells. *)
Variable LOWER : bytes → bytes.
Variable CanWrite : bytes → tagged_repo → bool.
Definition ScanModel (currentUser namespace name : bytes) : gio unit :=
  repo ← io_wrap (wrap "fail to find repository by namespace and name, ") (FindByPath LOWER ModelRepo namespace name);
  io_wrap (wrap "fail to get user permission for repository, ") next_fault;;
  if CanWrite currentUser repo then
    info ← io_wrap (wrap "fail to update model metadata, ") (UpdateModelMetadata repo);
    io_wrap (wrap "fail to update runtime framework tag, ") (UpdateRuntimeFrameworkTag info repo)
  else io_fail (ErrForbiddenMsg (bs "user " ++ currentUser ++ bs " does not have permission to update metadata for " ++ tp_Path repo ++ bs " ")).
Definition newest_first : relation tagged_repo := λ a b, tp_ID b ≤ tp_ID a.
#[export] Instance newest_first_dec a b : Decision (newest_first a b).
Proof. unfold newest_first. apply _. Defined.
(** With the tags of each, without its metadata. *)
Definition FindWithBatch (batchSize batch : nat) : gio (list tagged_repo) :=
  tg_read (λ s, take batchSize (drop (batchSize * batch) (merge_sort newest_first (filter (λ r, tp_Type r = ModelRepo) (tt_repos s))))).
Definition scan_repo (r : tagged_repo) : gio unit :=
  r' ← io_try (UpdateModelMetadata r);
  match r' with Ok info => io_try (UpdateRuntimeFrameworkTag info r);; mret tt | Err _ => mret tt end.
Fixpoint scan_each (rs : list tagged_repo) : gio unit := match rs with [] => mret tt | r :: rs => scan_repo r;; scan_each rs end.
(** No repository has a tensor type, since its metadata was not read with it: a
    scan of the new ones is one of all. A batch that cannot be read is the
    last. *)
Fixpoint scan_batches (fuel : nat) (batch : nat) : gio unit :=
  match fuel with
  | O => mret tt
  | S fuel =>
      repos ← io_try (FindWithBatch 500 batch);
      match repos with
      | Ok (r :: rs) => scan_each (r :: rs);; scan_batches fuel (S batch)
      | _ => mret tt
      end
  end.
(** Under the lock of scans, which may not be had, or be lost before it is given
    back: every error of it is told in the same words. *)
Definition in_progress : goerr := NewError (bs "architecture scan is already in progress").
Definition ScanAllModels (acquired released : bool) (scanType : Z) : gio unit :=
  if acquired then
    s ← io_gets gt_state; scan_batches (S (length (tt_repos s))) 0;; if released then mret tt else io_fail in_progress
  else io_fail in_progress.
End scans.
End models.

(** [GetBitFromFileType] *)
Definition GetBitFromFileType (fileType : bytes) : bytes :=
  let fileType := if Contains fileType (bs "/") then default [] (Split fileType (bs "/") !! 1%nat) else fileType in
  if Contains fileType (bs "Q1_") then bs "1-bit" else if Contains fileType (bs "Q2_") then bs "2-bit" else if Contains fileType (bs "Q3_") then bs "3-bit"
  else if Contains fileType (bs "Q4_") then bs "4-bit" else if Contains fileType (bs "Q5_") then bs "5-bit" else if Contains fileType (bs "Q6_") then bs "6-bit"
  else if Contains fileType (bs "Q8_") then bs "8-bit" else if Contains fileType (bs "16") then bs "16-bit" else if Contains fileType (bs "32") then bs "32-bit"
  else if Contains fileType (bs "64") then bs "64-bit" else bs "unknown".
