(* ===== verification/RtModel.v ===== *)
(** What the files of a model tell of it (common/utils/common/model_info.go and the
    readers of component/runtime_architecture.go): the headers of safetensors
    files over HTTP ranges, the parameters they count, the memory a model needs,
    config.json and the files of GGUF models. *)
From S2P Require Import Prelude GoLib GoFloat GoJson GoJsonText Sensitive Errorx AcAccess TgTag TgSpec RtArch.
Open Scope Z_scope.

(** ** Floats of 32 bits *)

Definition add32 : float32 → float32 → float32 := SFadd 24 128.
Definition mul32 : float32 → float32 → float32 := SFmul 24 128.
Definition div32 : float32 → float32 → float32 := SFdiv 24 128.
Definition f32_of_Z (z : Z) : float32 := binary_normalize 24 128 z 0 false.
(** The conversions between the widths. *)
Definition to_width (prec emax : Z) (f : spec_float) : spec_float :=
  match f with S754_finite s m e => binary_normalize prec emax (if s then Z.neg m else Z.pos m) e s | _ => f end.
Definition float32_of (f : float64) : float32 := to_width 24 128 f.
Definition float64_of (f : float32) : float64 := to_width 53 1024 f.
(** [math.Round]: to the nearest integer, halves away from zero. *)
Definition Round (f : float64) : float64 :=
  match f with
  | S754_finite s m e =>
      if decide (0 ≤ e) then f
      else let n := (2 * Z.pos m + 2 ^ (- e)) / 2 ^ (1 - e) in
           if decide (n = 0) then S754_zero s else binary_normalize 53 1024 (if s then - n else n) 0 s
  | _ => f
  end.
Definition GiB : Z := 1024 * 1024 * 1024.
Definition f32_zero : float32 := S754_zero false.
(** [max] of a float that is no NaN. *)
Definition max32 (a b : float32) : float32 := if SFltb a b then b else a.

(** ** Estimates (model_info.go) *)

Definition GetActivationMemory (batchSize seqLength numLayers hiddenSize numHeads bytesPerParam : Z) : float32 :=
  let batchF := f32_of_Z batchSize in let seqF := f32_of_Z seqLength in let headsF := f32_of_Z numHeads in
  let hiddenF := f32_of_Z hiddenSize in let sizeF := f32_of_Z bytesPerParam in
  let activationFactor := add32 (f32_of_Z 34) (div32 (mul32 (mul32 (f32_of_Z 5) seqF) headsF) hiddenF) in
  let total := mul32 (mul32 (mul32 (mul32 batchF seqF) hiddenF) activationFactor) sizeF in
  div32 total (f32_of_Z GiB).
(** Products of [int]s wrap. *)
Definition product64 (l : list Z) : Z := foldl (λ p d, i64 (p * d)) 1 l.
Definition GetKvCacheSize (contextSize batchSize hiddenSize numHiddenLayers bytesPerParam : Z) : float32 :=
  let activateBytes := product64 [2; batchSize; contextSize; numHiddenLayers; hiddenSize; bytesPerParam] in
  f32_of_Z (Z.quot activateBytes GiB).
Definition GetLoRAFinetuneMemory (modelWeightsGB totalParams : float32) (batchSize contextSize hiddenSize numHiddenLayers numAttentionHeads bytesPerParam loraRank : Z) : float32 :=
  let loraRatio := div32 (f32_of_Z loraRank) (f32_of_Z 1000) in
  let limit := div32 (f32_of_Z 5) (f32_of_Z 100) in
  let loraRatio := if SFltb limit loraRatio then limit else loraRatio in
  let loraParamsGB := div32 (mul32 (mul32 totalParams loraRatio) (f32_of_Z bytesPerParam)) (f32_of_Z GiB) in
  let gradientsGB := loraParamsGB in
  let optimizerStateGB := mul32 loraParamsGB (f32_of_Z 2) in
  let activationMemoryGB := GetActivationMemory batchSize contextSize numHiddenLayers hiddenSize numAttentionHeads bytesPerParam in
  let overHead := f32_of_Z 1 in
  let totalMemoryGB := add32 (add32 (add32 (add32 (add32 modelWeightsGB loraParamsGB) gradientsGB) optimizerStateGB) activationMemoryGB) overHead in
  div32 (float32_of (Round (fmul (float64_of totalMemoryGB) (float_of_Z 100)))) (f32_of_Z 100).

(** ** Headers of safetensors *)

(** An answer: its status, the bytes of its body that arrive, and whether the
    body ends well. *)
Record response := mk_resp { rs_Status : Z; rs_Body : bytes; rs_Complete : bool }.
Definition le64 (l : bytes) : Z := foldr (λ c n, byte_Z c + 256 * n) 0 l.
Definition maxHeader : Z := 3000 * 1024.
(** [json.Unmarshal] into a value of any type keeps numbers as floats, and fails
    where one does not fit. *)
Fixpoint decodable (j : json) : bool :=
  match j with
  | JNum lit => bool_decide (is_Some (ParseFloat lit))
  | JArr l => forallb decodable l
  | JObj l => forallb (λ kv, decodable kv.2) l
  | _ => true
  end.
Definition as_map (l : list (bytes * json)) : gmap bytes json := foldl (λ m kv, <[kv.1 := kv.2]> m) ∅ l.
Definition unmarshal_map (text : bytes) : result (gmap bytes json) goerr :=
  match parse_json text with
  | Some (JObj l) => if decodable (JObj l) then Ok (as_map l) else Err (NewError (bs "json: cannot unmarshal number"))
  | Some JNull => Ok ∅
  | Some _ => Err (NewError (bs "json: cannot unmarshal into map"))
  | None => Err (NewError (bs "invalid character"))
  end.

(** The tree of a repository is read a page at a time. *)
Record tree_file := mk_file_entry { fl_Name : bytes; fl_Path : bytes; fl_Type : bytes }.
Record tree_answer := mk_answer { ta_resp : option (list tree_file * bytes); ta_err : option goerr }.
Record gguf_file := mk_gguf { gg_Parameters : Z; gg_Architecture : bytes; gg_FileType : bytes; gg_FileTypeDescriptor : bytes; gg_VRAM : option Z }.

Section files.
(** [unicode.ToUpper] beyond ASCII, the answers to requests for a range of a
    URL, the orders the headers' maps are ranged over, and what a float
    outside the integers is converted to. *)
Variable unicode_upper : Z → Z.
Variable Get : bytes → bytes → option response.
Variable range_order : bytes → list (bytes * json) → list (bytes * json).
Variable overflow_int : float64 → Z.

Definition fetch_error : goerr := NewError (bs "failed to fetch metadata").
(** The length is read of an answer of partial content only; what the second
    one is answered with is not looked at. *)
Definition fetchSafetensorsMetadata (url : bytes) : result (gmap bytes json) goerr :=
  match Get url (bs "bytes=0-7") with
  | None => Err fetch_error
  | Some resp =>
      if decide (rs_Status resp ≠ 206) then Err fetch_error
      else if decide (len (rs_Body resp) < 8) then Err (NewError (bs "unexpected EOF"))
      else
        let lengthOfHeader := le64 (take 8 (rs_Body resp)) in
        if decide (maxHeader < lengthOfHeader) then Err (NewError (bs "header size exceeds maximum allowed size"))
        else
          match Get url (bs "bytes=8-" ++ Itoa (7 + lengthOfHeader)) with
          | None => Err fetch_error
          | Some resp => if rs_Complete resp then unmarshal_map (rs_Body resp) else Err (NewError (bs "unexpected EOF"))
          end
  end.

Definition upper_rune (r : Z) : Z := if decide (0 ≤ r < 0x80) then (if decide (97 ≤ r ≤ 122) then r - 32 else r) else unicode_upper r.
Definition ToUpper (s : bytes) : bytes := of_runes (upper_rune <$> to_runes s).
Definition GetBytesPerParam (dtype : bytes) : Z :=
  let dtype := ToUpper dtype in
  if Contains dtype (bs "F16") || Contains dtype (bs "BF16") then 2
  else if Contains dtype (bs "F64") then 8
  else if Contains dtype (bs "F8") then 1
  else if Contains dtype (bs "I8") || Contains dtype (bs "U8") then 1
  else if Contains dtype (bs "I32") || Contains dtype (bs "U32") then 4
  else if Contains dtype (bs "I64") || Contains dtype (bs "U64") then 8
  else 4.

Definition int_of (f : float64) : Z :=
  match ftrunc f with Some z => if decide (- 2 ^ 63 ≤ z < 2 ^ 63) then z else overflow_int f | None => overflow_int f end.
Definition shape_dim (j : json) : option Z := match j with JNum lit => int_of <$> ParseFloat lit | _ => None end.
Definition extractShape (tensorData : gmap bytes json) : option (list Z) :=
  match tensorData !! bs "shape" with Some (JArr l) => mapM shape_dim l | _ => None end.
Definition calculateTensorParams (shape : list Z) : Z := product64 shape.

(** What is counted on the way. *)
Record counted_files := mk_counts { cf_TensorType : bytes; cf_totalParams : Z; cf_modelSize : Z; cf_bytesPerParam : Z }.
Definition string_member (k : string) (m : gmap bytes json) : option bytes := match m !! bs k with Some (JStr s) => Some s | _ => None end.
Definition count_tensor (c : counted_files) (kv : bytes * json) : counted_files :=
  match kv.2 with
  | JObj l =>
      let tensorData := as_map l in
      let dtype := string_member "dtype" tensorData in
      let ty := match dtype with Some d => if Contains (cf_TensorType c) d then cf_TensorType c else cf_TensorType c ++ d ++ bs " " | None => cf_TensorType c end in
      match extractShape tensorData with
      | None => mk_counts ty (cf_totalParams c) (cf_modelSize c) (cf_bytesPerParam c)
      | Some shape =>
          let tensorParams := calculateTensorParams shape in
          let bytesPerParam := GetBytesPerParam (default [] dtype) in
          mk_counts ty (i64 (cf_totalParams c + tensorParams)) (i64 (cf_modelSize c + i64 (tensorParams * bytesPerParam))) bytesPerParam
      end
  | _ => c
  end.
Definition tensors_of (url : bytes) (header : gmap bytes json) : list (bytes * json) := range_order url (map_to_list (delete (bs "__metadata__") header)).
Fixpoint count_files (c : counted_files) (fileList : list bytes) : result counted_files goerr :=
  match fileList with
  | [] => Ok c
  | file :: fileList =>
      match fetchSafetensorsMetadata file with
      | Err e => Err fetch_error
      | Ok header => count_files (foldl count_tensor c (tensors_of file header)) fileList
      end
  end.
Definition no_counts : counted_files := mk_counts [] 0 0 0.
Definition billions (total : Z) : float32 := float32_of (fdiv (Round (fmul (fdiv (float_of_Z total) (float_of_Z 1000000000)) (float_of_Z 100))) (float_of_Z 100)).
Definition no_info : ModelInfo := mk_info 0 f32_zero [] f32_zero f32_zero f32_zero [] [] [] [] 0 0 0 0 0 0.
Definition GetModelInfo (fileList : list bytes) (minContext : Z) : result ModelInfo goerr :=
  match count_files no_counts fileList with
  | Err e => Err e
  | Ok c =>
      Ok (mk_info (cf_totalParams c) (if decide (fileList = []) then f32_zero else billions (cf_totalParams c)) (TrimSpace (cf_TensorType c)) (f32_of_Z 1) f32_zero
        (f32_of_Z (Z.quot (cf_modelSize c) GiB)) [] [] [] [] minContext 1 0 0 (cf_bytesPerParam c) 0)
  end.

(** ** The readers (runtime_architecture.go) *)

(** An answer without a response ends the reading, whatever error comes with
    it; one with an error ends it with the error. A server gives finitely many
    answers. *)
Fixpoint getAllFiles (answers : list tree_answer) (files : list tree_file) : result (list tree_file) goerr :=
  match answers with
  | [] => Ok files
  | a :: answers =>
      match ta_resp a with
      | None => Ok files
      | Some (fs, cursor) =>
          match ta_err a with
          | Some e => Err (wrap "failed to get repo file tree," e)
          | None =>
              let files := files ++ filter (λ f, fl_Type f ≠ bs "dir") fs in
              if decide (cursor = []) then Ok files else getAllFiles answers files
          end
      end
  end.
(** [filepath.Ext] *)
Definition Ext (path : bytes) : bytes :=
  let base := default [] (last (Split path (bs "/"))) in
  match reverse (Split base (bs ".")) with x :: _ :: _ => bs "." ++ x | _ => [] end.

Variable GetTree : tagged_repo → list tree_answer.
(** The address a file is downloaded from, a file as text, and the parser of
    GGUF files with its estimates. *)
Variable InternalDownloadFile : tagged_repo → bytes → result bytes goerr.
Variable GetRepoFileRaw : tagged_repo → bytes → result bytes goerr.
Variable ParseGGUFFileRemote : bytes → result gguf_file goerr.
Variables MinContextForEstimation MinContextForFinetune : Z.

Definition getConfigContent (configFileName : string) (r : tagged_repo) : outcome goerr bytes :=
  _ ← second_part (tp_Path r);
  match GetRepoFileRaw r (bs configFileName) with Ok c => Ret c | Err e => Fail (wrap "get RepoFileRaw for relation, " e) end.
Record ModelConfig := mk_config { mc_Architectures : list bytes; mc_ModelType : bytes; mc_NumHiddenLayers : Z; mc_HiddenSize : Z; mc_NumAttentionHeads : Z }.
(** A slice of strings: a null member is the empty string. *)
Definition strings_of (l : list json) : option (list bytes) := mapM (λ j, match j with JStr s => Some s | JNull => Some [] | _ => None end) l.
Definition unmarshal_config (j : json) : option ModelConfig :=
  archs ← array_field (bs "architectures") j; archs ← strings_of archs; ty ← string_field (bs "model_type") j; layers ← int_field (bs "num_hidden_layers") j;
  hidden ← int_field (bs "hidden_size") j; heads ← int_field (bs "num_attention_heads") j; _ ← string_field (bs "torch_dtype") j;
  Some (mk_config archs ty layers hidden heads).
Definition unmarshal_error : goerr := wrap "fail to unmarshal config, " (NewError (bs "json: cannot unmarshal")).
(** A config that is null leaves a nil pointer behind. *)
Definition GetArchitectureFromConfig (r : tagged_repo) : outcome goerr (option ModelConfig) :=
  match getConfigContent "config.json" r with
  | Panic => Panic
  | Fail e => Fail (wrap "fail to read config.json for relation, " e)
  | Ret content =>
      match parse_json content with
      | Some JNull => Panic
      | Some (JObj l) =>
          match unmarshal_config (JObj l) with
          | Some c => Ret (match mc_Architectures c with [] => None | _ => Some c end)
          | None => Fail unmarshal_error
          end
      | _ => Fail unmarshal_error
      end
  end.
Definition GetClassNameFromConfig (r : tagged_repo) : outcome goerr bytes :=
  match getConfigContent "model_index.json" r with
  | Panic => Panic
  | Fail e => Fail (wrap "fail to read model_index.json for relation, " e)
  | Ret content =>
      match (j ← parse_json content; j ← as_struct j; string_field (bs "_class_name") j) with Some n => Ret n | None => Fail unmarshal_error end
  end.

Fixpoint file_urls (r : tagged_repo) (files : list tree_file) : result (list bytes) goerr :=
  match files with
  | [] => Ok []
  | f :: files =>
      if decide (Ext (fl_Name f) = bs ".safetensors") then
        match InternalDownloadFile r (fl_Path f) with
        | Err e => Err (wrap "fail to get safetensors file url, " e)
        | Ok url => match file_urls r files with Ok urls => Ok (url :: urls) | Err e => Err e end
        end
      else file_urls r files
  end.
(** A config's sizes, and the memory it takes to run and to tune the model. *)
Definition with_config (c : ModelConfig) (i : ModelInfo) : ModelInfo :=
  let mini :=
    let kvcacheSize := GetKvCacheSize (mi_ContextSize i) (mi_BatchSize i) (mc_HiddenSize c) (mc_NumHiddenLayers c) (mi_BytesPerParam i) in
    let activateMemory := GetActivationMemory (mi_BatchSize i) (mi_ContextSize i) (mc_NumHiddenLayers c) (mc_HiddenSize c) (mc_NumAttentionHeads c) (mi_BytesPerParam i) in
    div32 (float32_of (Round (fmul (float64_of (add32 (add32 kvcacheSize (mi_ModelWeightsGB i)) activateMemory)) (float_of_Z 100)))) (f32_of_Z 100) in
  let tune := GetLoRAFinetuneMemory (mi_ModelWeightsGB i) (mul32 (mi_ParamsBillions i) (f32_of_Z 1000000000)) 16 MinContextForFinetune (mc_HiddenSize c) (mc_NumHiddenLayers c)
    (mc_NumAttentionHeads c) (mi_BytesPerParam i) 16 in
  mk_info (mi_TotalParams i) (mi_ParamsBillions i) (mi_TensorType i) (if decide (mc_HiddenSize c ≠ 0) then mini else mi_MiniGPUMemoryGB i)
    (if decide (mc_HiddenSize c ≠ 0) then tune else mi_MiniGPUFinetuneGB i) (mi_ModelWeightsGB i) (mc_ModelType c) (default [] (head (mc_Architectures c))) (mi_ClassName i) (mi_Quantizations i)
    (mi_ContextSize i) (mi_BatchSize i) (mc_HiddenSize c) (mc_NumHiddenLayers c) (mi_BytesPerParam i) (mc_NumAttentionHeads c).
Definition with_class (n : bytes) : ModelInfo := mk_info 0 f32_zero [] f32_zero f32_zero f32_zero [] [] n [] 0 0 0 0 0 0.
Definition GetMetadataFromSafetensors (r : tagged_repo) : outcome goerr ModelInfo :=
  _ ← second_part (tp_Path r);
  match getAllFiles (GetTree r) [] with
  | Err e => Fail (wrap "get RepoFileTree for relation, " e)
  | Ok files =>
      match file_urls r files with
      | Err e => Fail e
      | Ok [] => Fail (NewError (bs "no safetensors file found"))
      | Ok fileUrls =>
          if decide (Exists (λ f, fl_Path f = bs "config.json") files) then
            match GetModelInfo fileUrls MinContextForEstimation with
            | Err e => Fail (wrap "fail to get model info from safetensors, " e)
            | Ok i =>
                match GetArchitectureFromConfig r with
                | Ret (Some c) => Ret (with_config c i)
                | Ret None => Fail (NewError (bs "fail to get architecture from config"))
                | Fail e => Fail (wrap "fail to get architecture from config, " e)
                | Panic => Panic
                end
            end
          else if decide (Exists (λ f, fl_Path f = bs "model_index.json") files) then
            match GetClassNameFromConfig r with
            | Ret n => Ret (with_class n) | Fail e => Fail (wrap "fail to get class name from model_index.json, " e) | Panic => Panic
            end
          else Fail (NewError (bs "no model_index.json or config.json found"))
      end
  end.

(** *** GGUF *)

Definition GetGGUFContent (filename : bytes) (r : tagged_repo) : result gguf_file goerr :=
  match InternalDownloadFile r filename with
  | Err e => Err (wrap "fail to get gguf file url, " e)
  | Ok url => match ParseGGUFFileRemote url with Ok f => Ok f | Err e => Err (wrap "fail to parse gguf file, " e) end
  end.
(** The first of the files a model is cut into, or the only one. *)
Definition main_gguf (f : tree_file) : Prop :=
  Ext (fl_Name f) = bs ".gguf" ∧ (Contains (fl_Name f) (bs "00001-of-") = true ∨ Contains (fl_Name f) (bs "-of-") = false).
#[export] Instance main_gguf_dec f : Decision (main_gguf f).
Proof. unfold main_gguf. apply _. Defined.
Definition quantization_of (g : gguf_file) : Quantization :=
  mk_quant (GetBitFromFileType (gg_FileType g)) (gg_FileTypeDescriptor g) (match gg_VRAM g with Some v => max32 (f32_of_Z (v / GiB)) (f32_of_Z 1) | None => f32_zero end).
Definition with_gguf (g : gguf_file) (i : ModelInfo) : ModelInfo :=
  mk_info (mi_TotalParams i) (billions (gg_Parameters g)) (mi_TensorType i) (mi_MiniGPUMemoryGB i) (mi_MiniGPUFinetuneGB i) (mi_ModelWeightsGB i) (mi_ModelType i) (gg_Architecture g) (mi_ClassName i)
    (mi_Quantizations i ++ [quantization_of g]) (mi_ContextSize i) (mi_BatchSize i) (mi_HiddenSize i) (mi_NumHiddenLayers i) (mi_BytesPerParam i) (mi_NumAttentionHeads i).
Fixpoint read_gguf (r : tagged_repo) (files : list tree_file) (i : ModelInfo) : result ModelInfo goerr :=
  match files with
  | [] => Ok i
  | f :: files =>
      match GetGGUFContent (fl_Path f) r with Err e => Err (wrap "fail to get main gguf content, " e) | Ok g => read_gguf r files (with_gguf g i) end
  end.
Definition GetMetadataFromGGUF (r : tagged_repo) : outcome goerr ModelInfo :=
  _ ← second_part (tp_Path r);
  match getAllFiles (GetTree r) [] with
  | Err e => Fail (wrap "get RepoFileTree for relation, " e)
  | Ok [] => Fail (NewError (bs "get RepoFileTree for relation"))
  | Ok files =>
      match filter main_gguf files with
      | [] => Fail (NewError (bs "no gguf file found"))
      | mains => match read_gguf r mains no_info with Ok i => Ret i | Err e => Fail e end
      end
  end.
End files.

(** ** What is counted *)

Definition product (l : list Z) : Z := foldr Z.mul 1 l.
Lemma product64_eq l : product64 l = i64 (product l).
Proof.
  unfold product64. assert (∀ p, foldl (λ p d, i64 (p * d)) (i64 p) l = i64 (p * product l)) as H; [|rewrite <- (Z.mul_1_l (product l)); exact (H 1)].
  induction l as [|d l IH]; intros p; cbn [foldl]; [by rewrite Z.mul_1_r|]. rewrite i64_mul_l, IH. change (product (d :: l)) with (d * product l). f_equal. lia.
Qed.
Definition Zsum {A} (f : A → Z) (l : list A) : Z := foldr (λ x n, f x + n) 0 l.
#[export] Instance Zsum_perm {A} (f : A → Z) : Proper ((≡ₚ) ==> (=)) (Zsum f).
Proof. intros l l' Hl. unfold Zsum. induction Hl; cbn [foldr]; lia. Qed.

(** *** Ranges of a file *)

Lemma le64_bytes n k : 0 ≤ n < 256 ^ Z.of_nat k → le64 ((λ i, Z_byte ((n / 256 ^ Z.of_nat i) `mod` 256)) <$> seq 0 k) = n.
Proof.
  assert (∀ j, 0 ≤ n < 256 ^ Z.of_nat (j + k) → le64 ((λ i, Z_byte ((n / 256 ^ Z.of_nat i) `mod` 256)) <$> seq j k) = n / 256 ^ Z.of_nat j) as H.
  2: { intros Hn. rewrite (H 0%nat) by done. by rewrite Z.div_1_r. }
  induction k as [|k IH]; intros j Hn; cbn [seq fmap list_fmap].
  - rewrite Z.div_small; [done|]. by rewrite Nat.add_0_r in Hn.
  - unfold le64 in *. cbn [foldr]. rewrite IH by (by rewrite Nat.add_succ_comm). rewrite byte_Z_byte by (by apply Z.mod_pos_bound).
    rewrite Nat2Z.inj_succ, Z.pow_succ_r by lia. assert (n / (256 * 256 ^ Z.of_nat j) = n / 256 ^ Z.of_nat j / 256) as -> by (rewrite Z.div_div by lia; by rewrite (Z.mul_comm 256)). pose proof (Z.div_mod (n / 256 ^ Z.of_nat j) 256 ltac:(lia)). lia.
Qed.

Section files.
Context (unicode_upper : Z → Z) (Get : bytes → bytes → option response) (range_order : bytes → list (bytes * json) → list (bytes * json)) (overflow_int : float64 → Z).
Context (Hrange : ∀ u l, range_order u l ≡ₚ l).
(** A server of ranges. *)
Definition range (a b : Z) : bytes := bs "bytes=" ++ Itoa a ++ bs "-" ++ Itoa b.
Definition file_served (url content : bytes) : Prop :=
  ∀ a b, 0 ≤ a ≤ b → b < len content → Get url (range a b) = Some (mk_resp 206 (take (Z.to_nat (b - a + 1)) (drop (Z.to_nat a) content)) true).
(** A file of safetensors: the length of its header, the header, the weights. *)
Definition length_bytes (n : Z) : bytes := (λ i, Z_byte ((n / 256 ^ Z.of_nat i) `mod` 256)) <$> seq 0 8.
Definition safetensors (header weights : bytes) : bytes := length_bytes (len header) ++ header ++ weights.
Lemma header_read_back url header weights : file_served url (safetensors header weights) → 0 < len header ≤ maxHeader → fetchSafetensorsMetadata Get url = unmarshal_map header.
Proof.
  intros Hs Hn. assert (∀ n, length (length_bytes n) = 8%nat) as Hl by (intros n; unfold length_bytes; by rewrite length_fmap, length_seq).
  assert (len (safetensors header weights) = 8 + len header + len weights) as Hlen by (unfold safetensors, len; rewrite !length_app, Hl; lia). unfold fetchSafetensorsMetadata.
  change (bs "bytes=0-7") with (range 0 7). rewrite Hs by (unfold len in *; lia). cbn [rs_Status rs_Body rs_Complete]. rewrite decide_False by (intros Hne; by apply Hne).
  change (Z.to_nat (7 - 0 + 1)) with 8%nat. change (drop (Z.to_nat 0) (safetensors header weights)) with (safetensors header weights).
  assert (take 8 (safetensors header weights) = length_bytes (len header)) as -> by (unfold safetensors; by rewrite take_app_length' by done).
  rewrite decide_False by (unfold len; rewrite Hl; lia). assert (take 8 (length_bytes (len header)) = length_bytes (len header)) as -> by (apply take_ge; by rewrite Hl).
  assert (le64 (length_bytes (len header)) = len header) as -> by (apply (le64_bytes (len header) 8); unfold maxHeader in Hn; change (256 ^ Z.of_nat 8) with (2 ^ 64); lia).
  rewrite decide_False by lia. change (bs "bytes=8-" ++ Itoa (7 + len header)) with (range 8 (7 + len header)). rewrite Hs by (unfold len in *; lia). cbn [rs_Complete rs_Body]. f_equal.
  unfold safetensors. rewrite drop_app_length' by done. rewrite take_app_length' by (unfold len; lia). done.
Qed.

(** *** Tensors *)

Definition params_of (kv : bytes * json) : Z :=
  match kv.2 with JObj l => match extractShape overflow_int (as_map l) with Some shape => product shape | None => 0 end | _ => 0 end.
Definition bytes_of (kv : bytes * json) : Z :=
  match kv.2 with JObj l => GetBytesPerParam unicode_upper (default [] (string_member "dtype" (as_map l))) | _ => 0 end.
Definition size_of (kv : bytes * json) : Z := params_of kv * bytes_of kv.
(** The element types of the format with the bytes an element takes in a file, and
    those that are not told apart but counted as four bytes. *)
Definition dtype_bytes : list (string * Z) :=
  [("F64", 8); ("F32", 4); ("F16", 2); ("BF16", 2); ("F8_E4M3", 1); ("F8_E5M2", 1); ("I64", 8); ("I32", 4); ("I16", 2); ("I8", 1);
   ("U64", 8); ("U32", 4); ("U16", 2); ("U8", 1); ("BOOL", 1)].
Definition counted_as_four : list bytes := [bs "I16"; bs "U16"; bs "BOOL"].
Definition dtype_of (kv : bytes * json) : bytes := match kv.2 with JObj l => default [] (string_member "dtype" (as_map l)) | _ => [] end.
Definition counted_bytes (d : bytes) : Z := if decide (d ∈ counted_as_four) then 4 else default 0 (snd <$> found_by (λ e, bs e.1 = d) dtype_bytes).
(** A tensor of one of the types; what is no object is none. *)
Definition of_format (kv : bytes * json) : Prop := match kv.2 with JObj _ => dtype_of kv ∈ (λ e : string * Z, bs e.1) <$> dtype_bytes | _ => True end.
Lemma format_bytes d : d ∈ (λ e : string * Z, bs e.1) <$> dtype_bytes → GetBytesPerParam unicode_upper d = counted_bytes d.
Proof.
  assert (Forall (λ e : string * Z, GetBytesPerParam unicode_upper (bs e.1) = counted_bytes (bs e.1)) dtype_bytes) as Hall by (repeat constructor).
  intros (e & -> & He)%list_elem_of_fmap. rewrite Forall_forall in Hall. by apply Hall.
Qed.
Definition counted_size (kv : bytes * json) : Z := params_of kv * counted_bytes (dtype_of kv).
Lemma format_size kv : of_format kv → size_of kv = counted_size kv.
Proof. unfold of_format, size_of, counted_size, params_of, bytes_of, dtype_of. destruct kv.2; try done. intros Hd. by rewrite format_bytes. Qed.
Lemma Zsum_ext {A} (f g : A → Z) l : (∀ x, x ∈ l → f x = g x) → Zsum f l = Zsum g l.
Proof. unfold Zsum. induction l as [|x l IH]; intros H; [done|]. cbn. rewrite H by (by left). f_equal. apply IH. intros y Hy. apply H. by right. Qed.
(** Everything in a header but its metadata. *)
Definition tensors (header : gmap bytes json) : list (bytes * json) := map_to_list (delete (bs "__metadata__") header).
Abbreviation count := (count_tensor unicode_upper overflow_int).
(** The numbers so far, and where the bytes of a parameter were taken from. *)
Definition counts (P Z' : Z) (kvs : list (bytes * json)) (c : counted_files) : Prop :=
  cf_totalParams c = i64 P ∧ cf_modelSize c = i64 Z' ∧ (cf_bytesPerParam c = 0 ∨ ∃ kv, kv ∈ kvs ∧ cf_bytesPerParam c = bytes_of kv).
Lemma count_one P Z' kvs kv c : counts P Z' kvs c → counts (P + params_of kv) (Z' + size_of kv) (kvs ++ [kv]) (count c kv).
Proof.
  intros (HP & HZ & Hb). unfold counts, size_of, count_tensor. assert (∀ b, b = 0 ∨ (∃ x, x ∈ kvs ∧ b = bytes_of x) → b = 0 ∨ ∃ x, x ∈ kvs ++ [kv] ∧ b = bytes_of x) as Hold.
  { intros b [->|(x & Hx & ->)]; [by left|right]. exists x. split; [apply elem_of_app; by left|done]. }
  unfold params_of. destruct kv.2 as [| | | | |l] eqn:Hkv; try (rewrite !Z.add_0_r; split_and!; [done|done|by apply Hold]).
  destruct (extractShape overflow_int (as_map l)) as [shape|]; cbn [cf_totalParams cf_modelSize cf_bytesPerParam]; [|rewrite !Z.add_0_r; split_and!; [done|done|by apply Hold]].
  assert (bytes_of kv = GetBytesPerParam unicode_upper (default [] (string_member "dtype" (as_map l)))) as Hbytes by (unfold bytes_of; by rewrite Hkv). split_and!.
  - rewrite HP, i64_add_l. unfold calculateTensorParams. by rewrite product64_eq, i64_add_r.
  - rewrite HZ, i64_add_l, i64_add_r. unfold calculateTensorParams. rewrite product64_eq, <- (i64_add_r Z'), i64_mul_l, i64_add_r. by rewrite Hbytes.
  - right. exists kv. split; [apply elem_of_app; right; by left|done].
Qed.
Lemma count_all l P Z' kvs c : counts P Z' kvs c → counts (P + Zsum params_of l) (Z' + Zsum size_of l) (kvs ++ l) (foldl count c l).
Proof.
  revert P Z' kvs c. induction l as [|kv l IH]; intros P Z' kvs c Hc; [by rewrite !Z.add_0_r, app_nil_r|]. cbn [foldl].
  pose proof (IH _ _ _ _ (count_one P Z' kvs kv c Hc)) as H. rewrite <- (assoc_L (++)) in H. cbn [app] in H. unfold Zsum in *. cbn [foldr].
  by rewrite !Z.add_assoc.
Qed.
Lemma count_urls headers urls P Z' kvs c : (∀ u, u ∈ urls → fetchSafetensorsMetadata Get u = Ok (headers u)) → counts P Z' kvs c →
  ∃ c' kvs', count_files unicode_upper Get range_order overflow_int c urls = Ok c' ∧ kvs' ≡ₚ kvs ++ (urls ≫= (λ u, tensors (headers u))) ∧
    counts (P + Zsum (λ u, Zsum params_of (tensors (headers u))) urls) (Z' + Zsum (λ u, Zsum size_of (tensors (headers u))) urls) kvs' c'.
Proof.
  revert P Z' kvs c. induction urls as [|u urls IH]; intros P Z' kvs c Hf Hc.
  - exists c, kvs. split; [done|]. rewrite app_nil_r. split; [done|]. by rewrite !Z.add_0_r.
  - cbn [count_files]. rewrite (Hf u) by (by left). pose proof (count_all (tensors_of range_order u (headers u)) P Z' kvs c Hc) as Hone.
    destruct (IH _ _ _ _ (λ x Hx, Hf x (list_elem_of_further _ _ _ Hx)) Hone) as (c' & kvs' & Hrun & Hp & Hc'). exists c', kvs'. split; [done|].
    assert (tensors_of range_order u (headers u) ≡ₚ tensors (headers u)) as Ht by apply Hrange. split.
    + rewrite Hp, bind_cons. by rewrite <- (assoc_L (++)), Ht.
    + unfold Zsum at 1 3. cbn [foldr]. rewrite !Z.add_assoc. by rewrite <- !Ht.
Qed.

(** C37: Files of safetensors that a server of ranges serves, with headers of at
    most 3000 KiB and tensors of the format's element types, are counted exactly,
    in whatever order the headers' maps are ranged over: the parameters are the
    sum over all tensors of the product of their shape, and the weights, cut to
    whole GiB, the sum of those products times the size of an element - that in
    the file, but four bytes for each of the types I16, U16 and BOOL, which are
    not known -, both as an int64. The bytes of a parameter are those of an
    element of one of the tensors. *)
Theorem model_info_counts_weights urls minContext (header weights : bytes → bytes) headers : urls ≠ [] →
  (∀ u, u ∈ urls → file_served u (safetensors (header u) (weights u)) ∧ 0 < len (header u) ≤ maxHeader ∧ unmarshal_map (header u) = Ok (headers u) ∧ Forall of_format (tensors (headers u))) →
  ∃ i, GetModelInfo unicode_upper Get range_order overflow_int urls minContext = Ok i ∧
    mi_TotalParams i = i64 (Zsum (λ u, Zsum params_of (tensors (headers u))) urls) ∧ mi_ParamsBillions i = billions (mi_TotalParams i) ∧
    mi_ModelWeightsGB i = f32_of_Z (Z.quot (i64 (Zsum (λ u, Zsum counted_size (tensors (headers u))) urls)) GiB) ∧ mi_ContextSize i = minContext ∧ mi_BatchSize i = 1 ∧
    (mi_BytesPerParam i = 0 ∨ ∃ u kv, u ∈ urls ∧ kv ∈ tensors (headers u) ∧ mi_BytesPerParam i = counted_bytes (dtype_of kv)).
Proof.
  intros Hne Hall. destruct (count_urls headers urls 0 0 [] no_counts) as (c & kvs & Hrun & Hp & HP & HZ & Hb); [|split_and!; [done|done|by left]|].
  { intros u Hu. destruct (Hall u Hu) as (Hs & Hn & Hh & _). by rewrite (header_read_back u (header u) (weights u)). }
  unfold GetModelInfo. rewrite Hrun. eexists. split; [done|]. cbn [mi_TotalParams mi_ParamsBillions mi_ModelWeightsGB mi_ContextSize mi_BatchSize mi_BytesPerParam].
  rewrite decide_False by done. rewrite HZ. split_and!; [done..| |done|done|].
  - do 3 f_equal. rewrite Z.add_0_l. apply Zsum_ext. intros u Hu. apply Zsum_ext. intros kv Hkv. apply format_size. destruct (Hall u Hu) as (_ & _ & _ & Hf). rewrite Forall_forall in Hf. auto.
  - destruct Hb as [?|(kv & Hkv & Hb)]; [by left|]. rewrite Hp in Hkv. apply list_elem_of_bind in Hkv as (u & Hkv & Hu). destruct (Hall u Hu) as (_ & _ & _ & Hf).
    rewrite Forall_forall in Hf. specialize (Hf kv Hkv). rewrite Hb. unfold of_format, bytes_of, dtype_of in *. destruct kv.2 as [| | | | |l] eqn:Hj; try by left.
    right. exists u, kv. rewrite Hj. split_and!; [done..|]. by apply format_bytes.
Qed.

(** ** Readers *)

Context (GetTree : tagged_repo → list tree_answer) (InternalDownloadFile : tagged_repo → bytes → result bytes goerr) (GetRepoFileRaw : tagged_repo → bytes → result bytes goerr)
  (ParseGGUFFileRemote : bytes → result gguf_file goerr) (MinContextForEstimation MinContextForFinetune : Z).
Abbreviation read_safetensors := (GetMetadataFromSafetensors unicode_upper Get range_order overflow_int GetTree InternalDownloadFile GetRepoFileRaw MinContextForEstimation MinContextForFinetune).
Abbreviation read_ggufs := (GetMetadataFromGGUF GetTree InternalDownloadFile ParseGGUFFileRemote).
(** Whatever the servers answer, the readers of a repository whose path has two
    parts panic only over a config.json of null. *)
Lemma readers_panic r : has_slash (tp_Path r) → (∀ content, GetRepoFileRaw r (bs "config.json") = Ok content → parse_json content ≠ Some JNull) →
  read_safetensors r ≠ Panic ∧ read_ggufs r ≠ Panic.
Proof.
  intros (a & b & rest & Hsplit)%slash_parts Hnull. assert (second_part (tp_Path r) = Ret b) as Hsec by (unfold second_part; by rewrite Hsplit).
  unfold GetMetadataFromSafetensors, GetMetadataFromGGUF. rewrite Hsec. cbn [mbind outcome_bind]. split.
  - destruct (getAllFiles _ _) as [files|e]; [|done]. destruct (file_urls _ _ _) as [[|u us]|e]; try done. case_decide.
    + destruct (GetModelInfo _ _ _ _ _ _) as [i|e]; [|done]. unfold GetArchitectureFromConfig, getConfigContent. rewrite Hsec. cbn [mbind outcome_bind].
      destruct (GetRepoFileRaw r _) as [content|e] eqn:Hraw; [|done]. specialize (Hnull content eq_refl). destruct (parse_json content) as [[]|]; try done.
      destruct (unmarshal_config _) as [c|]; [|done]. by destruct (mc_Architectures c).
    + case_decide; [|done]. unfold GetClassNameFromConfig, getConfigContent. rewrite Hsec. cbn [mbind outcome_bind]. destruct (GetRepoFileRaw r (bs "model_index.json")) as [content|e]; [|done].
      match goal with |- context [match ?x with Some _ => _ | None => _ end] => by destruct x end.
  - destruct (getAllFiles _ _) as [[|f files]|e]; try done. destruct (filter main_gguf _) as [|g gs]; [done|]. by destruct (read_gguf _ _ _ _ _).
Qed.
End files.

(** ** Instances *)

(** A server of one file. *)
Definition range_server (content rng : bytes) : option response :=
  let '(a, rest) := span is_digit (drop 6 rng) in
  a ← ParseInt a; b ← ParseInt (drop 1 rest); Some (mk_resp 206 (take (Z.to_nat (b - a + 1)) (drop (Z.to_nat a) content)) true).
Lemma span_before l c rest : Forall (λ d, is_digit d = true) l → is_digit c = false → span is_digit (l ++ c :: rest) = (l, c :: rest).
Proof. intros Hl Hc. induction Hl as [|d l Hd _ IH]; cbn; [by rewrite Hc|]. by rewrite Hd, IH. Qed.
Lemma Itoa_all_digits z : 0 ≤ z → Forall (λ d, is_digit d = true) (Itoa z).
Proof. intros Hz. rewrite Itoa_cases, decide_False by lia. by destruct (nat_text_spec (Z.to_N z)) as (c & l & -> & Hall & _). Qed.
Lemma range_served url content : len content ≤ 2 ^ 32 → file_served (λ _, range_server content) url content.
Proof.
  intros Hlen a b Ha Hb. unfold range_server, range. assert (drop 6 (bs "bytes=" ++ Itoa a ++ bs "-" ++ Itoa b) = Itoa a ++ "-"%char :: Itoa b) as -> by done.
  rewrite span_before by (done || (apply Itoa_all_digits; lia)). cbv beta iota. change (drop 1 ("-"%char :: Itoa b)) with (Itoa b). rewrite (ParseInt_Itoa a), (ParseInt_Itoa b) by lia. done.
Qed.
Section examples.
Abbreviation upper := (λ r : Z, r).
Abbreviation in_order := (λ (_ : bytes) (l : list (bytes * json)), l).
Abbreviation backwards := (λ (_ : bytes) (l : list (bytes * json)), reverse l).
Abbreviation no_int := (λ _ : float64, 0).
Definition ex_header : bytes := bs "{'__metadata__':{'format':'pt'},'a':{'dtype':'BF16','shape':[40000,40000],'data_offsets':[0,1]},'b':{'dtype':'F32','shape':[]},'c':3}".
(** The header with its quotes. *)
Definition quoted (s : bytes) : bytes := (λ c, if decide (c = "'"%char) then "034"%char else c) <$> s.
Definition ex_map : gmap bytes json := match unmarshal_map (quoted ex_header) with Ok m => m | Err _ => ∅ end.
Definition ex_content : bytes := safetensors (quoted ex_header) (bs "weights").
Lemma ex_map_read : unmarshal_map (quoted ex_header) = Ok ex_map.
Proof.
  unfold ex_map. assert ((if unmarshal_map (quoted ex_header) is Ok _ then true else false) = true) as Hok by (by vm_compute). by destruct (unmarshal_map (quoted ex_header)).
Qed.
Definition ex_headers (_ : bytes) : gmap bytes json := ex_map.
Lemma ex_of_format : Forall of_format (tensors ex_map).
Proof.
  assert (tensors ex_map = map_to_list (delete (bs "__metadata__") ex_map)) as -> by done. vm_compute map_to_list. repeat constructor.
Qed.
(** One file twice: 3.2 billion parameters and one, in the order of the maps. *)
Lemma model_info_counts_weights_witness :
  unmarshal_map (quoted ex_header) = Ok ex_map ∧
  ∃ i, GetModelInfo upper (λ _, range_server ex_content) in_order no_int [bs "u"; bs "v"] 2048 = Ok i ∧
    mi_TotalParams i = 3200000002 ∧ mi_ModelWeightsGB i = f32_of_Z 5 ∧ mi_ContextSize i = 2048 ∧ mi_ParamsBillions i = billions 3200000002.
Proof.
  assert (unmarshal_map (quoted ex_header) = Ok ex_map) as Hmap by exact ex_map_read. split; [exact Hmap|].
  destruct (model_info_counts_weights upper (λ _, range_server ex_content) in_order no_int (λ _ l, Permutation_refl l) [bs "u"; bs "v"] 2048 (λ _, quoted ex_header) (λ _, bs "weights") ex_headers)
    as (i & Hrun & Ht & Hp & Hw & Hc & _ & _); [done| |].
  - intros u _. split_and!; [apply range_served; by vm_compute|by vm_compute|by vm_compute|exact Hmap|exact ex_of_format].
  - exists i. assert (mi_TotalParams i = 3200000002) as Htot by (rewrite Ht; by vm_compute). split_and!; [exact Hrun|exact Htot|rewrite Hw; by vm_compute|exact Hc|by rewrite Hp, Htot].
Defined.
(** The bytes of a parameter are those of the tensor ranged over last. *)
Example bytes_of_last_tensor :
  let info order := match GetModelInfo upper (λ _, range_server ex_content) order no_int [bs "u"] 2048 with Ok i => mi_BytesPerParam i | Err _ => -1 end in
  (info in_order, info backwards) = (2, 4) ∨ (info in_order, info backwards) = (4, 2).
Proof. first [by left; vm_compute|right; by vm_compute]. Qed.
(** Seven eighths of a GiB of weights weigh nothing. *)
Example weights_are_cut : f32_of_Z (Z.quot (7 * 2 ^ 27) GiB) = f32_zero.
Proof. by vm_compute. Qed.
(** A config of null is dereferenced. *)
Example null_config_panics :
  GetMetadataFromSafetensors upper (λ _, range_server ex_content) in_order no_int
    (λ _, [mk_answer (Some ([mk_file_entry (bs "config.json") (bs "config.json") (bs "file"); mk_file_entry (bs "m.safetensors") (bs "m.safetensors") (bs "file")], [])) None])
    (λ _ _, Ok (bs "u")) (λ _ _, Ok (bs "null")) 2048 512 (mk_trepo 7 (bs "model") (bs "a/m") (bs "m") (bs "models_a/m") [] [] [] []) = Panic.
Proof. by vm_compute. Qed.
End examples.
