(* ===== verification/RtSpec.v ===== *)
(** Runtime frameworks and architectures: what the engine files make of the
    tables at start-up. *)
From S2P Require Import Prelude GoLib GoFloat GoJson Sensitive Errorx AcAccess AcSpec TgTag RtArch.
Open Scope Z_scope.

(** ** The tables *)

Abbreviation rt_key := (bytes * bytes)%type.
Definition serve_key (f : RuntimeFramework) : rt_key := (rf_FrameImage f, rf_ComputeType f).
Definition image_key (i : Image) : rt_key := (im_Image i, im_ComputeType i).
(** Ids and images are unique, ids were given out, and architectures belong to
    ids that were. *)
Definition tables_ok (s : rt_state) : Prop :=
  NoDup (rf_ID <$> rt_frames s) ∧ NoDup (serve_key <$> rt_frames s) ∧ Forall (λ f, 0 < rf_ID f < rt_next s) (rt_frames s) ∧ 0 < rt_next s ∧
  Forall (λ a, ra_RuntimeFrameworkID a < rt_next s) (rt_archs s) ∧ NoDup (filter RtArch.full (rt_archs s)).
Definition archs_of (s : rt_state) (id : Z) : list RuntimeArchitecture := filter (λ a, ra_RuntimeFrameworkID a = id) (rt_archs s).
Definition row_of (s : rt_state) (k : rt_key) : option RuntimeFramework := found_by (λ f, serve_key f = k) (rt_frames s).
(** What the tables hold for an image: its row and its architectures. *)
Definition view (s : rt_state) (k : rt_key) : option (RuntimeFramework * list RuntimeArchitecture) := (λ f, (f, archs_of s (rf_ID f))) <$> row_of s k.

Lemma row_of_iff s k f : tables_ok s → row_of s k = Some f ↔ f ∈ rt_frames s ∧ serve_key f = k.
Proof.
  intros (_ & Hkey & _). split; [by intros (? & ?)%found_by_Some|]. intros [Hf Hk]. unfold row_of. destruct (found_by _ _) as [g|] eqn:Hg.
  - apply found_by_Some in Hg as [Hg Hgk]. f_equal. apply (keyed_eq serve_key (rt_frames s)); [done..|by rewrite Hgk].
  - by destruct (found_by_None _ _ Hg f).
Qed.
Lemma row_of_eq s s' k : tables_ok s → tables_ok s' → (∀ f, f ∈ rt_frames s' ∧ serve_key f = k ↔ f ∈ rt_frames s ∧ serve_key f = k) → row_of s' k = row_of s k.
Proof. intros Hs Hs' Hiff. apply option_eq. intros f. by rewrite !row_of_iff. Qed.
Lemma fresh_names_rows seen id row names : (∀ n, ra_RuntimeFrameworkID (row n) = id) → Forall (λ a, ra_RuntimeFrameworkID a = id) (fresh_names seen row names).2.
Proof.
  intros Hrow. revert seen. induction names as [|n names IH]; intros seen; cbn; [constructor|]. case_decide; [done|]. specialize (IH (n :: seen)). destruct (fresh_names _ _ _) as [seen' rows]. by constructor.
Qed.
Lemma fresh_names_partial seen row names : (∀ n, ¬ RtArch.full (row n)) → Forall (λ a, ¬ RtArch.full a) (fresh_names seen row names).2.
Proof.
  intros Hrow. revert seen. induction names as [|n names IH]; intros seen; cbn; [constructor|]. case_decide; [done|]. specialize (IH (n :: seen)). destruct (fresh_names _ _ _) as [seen' rows]. by constructor.
Qed.
Lemma engine_archs_rows id c image : Forall (λ a, ra_RuntimeFrameworkID a = id ∧ ¬ RtArch.full a) (engine_archs id c image).
Proof.
  apply Forall_and. unfold engine_archs. pose proof (fresh_names_rows [] id (λ n, mk_ra id n []) (ec_SupportedArchs c ++ im_ExtraArchs image) ltac:(done)) as H1.
  pose proof (fresh_names_partial [] (λ n, mk_ra id n []) (ec_SupportedArchs c ++ im_ExtraArchs image)) as H2. destruct (fresh_names _ _ _) as [seen rows]. cbn in *.
  split; apply Forall_app; split; [done|by apply fresh_names_rows|apply H2; by intros n [_ ?]|apply fresh_names_partial; by intros n [? _]].
Qed.
Lemma engine_archs_all id c image : filter (λ a, ra_RuntimeFrameworkID a = id) (engine_archs id c image) = engine_archs id c image.
Proof. apply filter_all_in. intros a Ha. pose proof (engine_archs_rows id c image) as H. rewrite Forall_forall in H. by apply H. Qed.
Lemma engine_archs_none id id' c image : id ≠ id' → filter (λ a, ra_RuntimeFrameworkID a = id') (engine_archs id c image) = [].
Proof. intros Hne. apply filter_all_out. intros a Ha. pose proof (engine_archs_rows id c image) as H. rewrite Forall_forall in H. destruct (H a Ha) as [-> _]. done. Qed.
Lemma engine_archs_full id c image : filter RtArch.full (engine_archs id c image) = [].
Proof. apply filter_all_out. intros a Ha. pose proof (engine_archs_rows id c image) as H. rewrite Forall_forall in H. by apply H. Qed.

Section engines.
Context (now engineType : Z) (c : EngineConfig).
Definition put (f : RuntimeFramework) (s : rt_state) : rt_state :=
  with_archs (λ l, filter (λ a, ra_RuntimeFrameworkID a ≠ rf_ID f) l) (with_frames (fmap (λ x, if decide (rf_ID x = rf_ID f) then f else x)) (rt_next s) s).
(** An image of a file, undisturbed. *)
Definition image_after (image : Image) (s : rt_state) : rt_state :=
  match row_of s (image_key image) with
  | Some f =>
      if decide (rf_UpdatedAt f < ec_UpdatedAt c) then
        with_archs (λ l, l ++ engine_archs (rf_ID f) c image) (put (at_time (rf_ID f) now (filled engineType c image f)) s)
      else s
  | None =>
      if decide (0 < ec_UpdatedAt c) then
        with_archs (λ l, l ++ engine_archs (rt_next s) c image) (with_frames (λ l, l ++ [at_time (rt_next s) now (filled engineType c image no_frame)]) (rt_next s + 1) s)
      else s
  end.

Abbreviation fresh_row id image old := (at_time id now (filled engineType c image old)).
Lemma fresh_row_key id image old : serve_key (fresh_row id image old) = image_key image.
Proof. done. Qed.
Lemma put_elem s f g h : tables_ok s → f ∈ rt_frames s → rf_ID g = rf_ID f → h ∈ rt_frames (put g s) ↔ h = g ∨ (h ∈ rt_frames s ∧ h ≠ f).
Proof.
  intros (Hid & _) Hf Hg. cbn. rewrite list_elem_of_fmap. split.
  - intros (x & -> & Hx). case_decide as Heq; [by left|right]. split; [done|]. by intros ->.
  - intros [->|[Hh Hne]]; [exists f; by rewrite decide_True|]. exists h. split; [|done]. rewrite decide_False; [done|].
    intros Heq. apply Hne, (keyed_eq rf_ID (rt_frames s)); [done..|by rewrite Heq].
Qed.
Lemma put_ok s f g : tables_ok s → f ∈ rt_frames s → rf_ID g = rf_ID f → serve_key g = serve_key f → tables_ok (put g s).
Proof.
  intros Hok Hf Hg Hk. pose proof Hok as (Hid & Hkey & Hlt & Hpos & Ha & Hfull). pose proof (proj1 (Forall_forall _ _) Hlt f Hf) as Hfid.
  split_and!; cbn.
  - rewrite <- list_fmap_compose. erewrite list_fmap_ext; [exact Hid|]. intros i x Hx. unfold compose. by case_decide.
  - rewrite <- list_fmap_compose. erewrite list_fmap_ext; [exact Hkey|]. intros i x Hx%list_elem_of_lookup_2. unfold compose. case_decide as Heq; [|done].
    rewrite Hk. f_equal. apply (keyed_eq rf_ID (rt_frames s)); [done..|by rewrite Heq].
  - apply Forall_fmap. eapply Forall_impl; [exact Hlt|]. intros x Hx. cbn. case_decide; [by rewrite Hg|done].
  - done.
  - by apply Forall_filtered.
  - rewrite filter_swap. by apply NoDup_filter.
Qed.
Lemma row_put s f g k : tables_ok s → row_of s (serve_key f) = Some f → rf_ID g = rf_ID f → serve_key g = serve_key f →
  row_of (put g s) k = if decide (k = serve_key f) then Some g else row_of s k.
Proof.
  intros Hok Hf Hg Hk. assert (f ∈ rt_frames s) as Hin by (by apply row_of_iff in Hf as [? _]). pose proof (put_ok s f g Hok Hin Hg Hk) as Hput. apply option_eq. intros h.
  rewrite row_of_iff, put_elem by done. case_decide as Heq.
  - subst k. split; [|intros [= <-]; split; [by left|done]]. intros [[->|[Hh Hne]] Hhk]; [done|]. destruct Hne. apply (keyed_eq serve_key (rt_frames s)); [apply Hok|done..].
  - rewrite row_of_iff by done. split; [intros [[->|[? ?]] ?]; [congruence|done]|]. intros [Hh Hhk]. split; [right; split; [done|]|done]. intros ->. congruence.
Qed.
Lemma archs_put s f id : archs_of (put f s) id = if decide (id = rf_ID f) then [] else archs_of s id.
Proof.
  unfold archs_of, put. cbn. case_decide as Heq.
  - apply filter_all_out. intros a (Ha & _)%list_elem_of_filter. congruence.
  - rewrite list_filter_filter. apply list_filter_iff. intros a. split; [by intros [? _]|]. intros <-. by split.
Qed.
Lemma add_archs_ok s id image : tables_ok s → id < rt_next s → tables_ok (with_archs (λ l, l ++ engine_archs id c image) s).
Proof.
  intros (Hid & Hkey & Hlt & Hpos & Ha & Hfull) Hlt'. split_and!; cbn; try done.
  - apply Forall_app. split; [done|]. eapply Forall_impl; [apply engine_archs_rows|]. by intros a [-> _].
  - by rewrite filter_app, engine_archs_full, app_nil_r.
Qed.
Lemma archs_add s id id' image : archs_of (with_archs (λ l, l ++ engine_archs id c image) s) id' = archs_of s id' ++ if decide (id' = id) then engine_archs id c image else [].
Proof. unfold archs_of. cbn. rewrite filter_app. case_decide as Heq; [subst; by rewrite engine_archs_all|by rewrite engine_archs_none]. Qed.
Definition add_row (f : RuntimeFramework) (s : rt_state) : rt_state := with_frames (λ l, l ++ [f]) (rt_next s + 1) s.
Lemma add_row_ok s f : tables_ok s → row_of s (serve_key f) = None → rf_ID f = rt_next s → tables_ok (add_row f s).
Proof.
  intros (Hid & Hkey & Hlt & Hpos & Ha & Hfull) Hnone Hf. pose proof (proj1 (Forall_forall _ _) Hlt) as Hids. split_and!; cbn; [| | |lia| |done].
  - rewrite fmap_app. apply NoDup_app. split_and!; [done| |by apply NoDup_singleton]. intros i (x & -> & Hx)%list_elem_of_fmap Heq%list_elem_of_singleton. specialize (Hids x Hx). cbn in Hids. lia.
  - rewrite fmap_app. apply NoDup_app. split_and!; [done| |by apply NoDup_singleton]. intros k (x & -> & Hx)%list_elem_of_fmap Heq%list_elem_of_singleton. by apply (found_by_None _ _ Hnone x).
  - apply Forall_app. split; [|constructor; [lia|done]]. eapply Forall_impl; [exact Hlt|]. intros x Hx. cbn in *. lia.
  - eapply Forall_impl; [exact Ha|]. intros a Hx. cbn in *. lia.
Qed.
Lemma row_add s f k : tables_ok s → row_of s (serve_key f) = None → rf_ID f = rt_next s → row_of (add_row f s) k = if decide (k = serve_key f) then Some f else row_of s k.
Proof.
  intros Hok Hnone Hf. pose proof (add_row_ok s f Hok Hnone Hf) as Hadd. apply option_eq. intros h. rewrite row_of_iff by done. cbn. rewrite elem_of_app, list_elem_of_singleton. case_decide as Heq.
  - subst k. split; [|intros [= <-]; split; [by right|done]]. intros [[Hh| ->] Hhk]; [|done]. by destruct (found_by_None _ _ Hnone h).
  - rewrite row_of_iff by done. split; [intros [[?| ->] ?]; [done|congruence]|]. intros [? ?]. split; [by left|done].
Qed.
Lemma no_archs s : tables_ok s → archs_of s (rt_next s) = [].
Proof. intros (_ & _ & _ & _ & Ha & _). apply filter_all_out. intros a Hin Heq. rewrite Forall_forall in Ha. specialize (Ha a Hin). cbn in Ha. lia. Qed.

(** *** One image *)

Definition old_row (image : Image) (s : rt_state) : RuntimeFramework := match row_of s (image_key image) with Some f => f | None => no_frame end.
Definition id_for (image : Image) (s : rt_state) : Z := match row_of s (image_key image) with Some f => rf_ID f | None => rt_next s end.
Definition stale (image : Image) (s : rt_state) : Prop := rf_UpdatedAt (old_row image s) < ec_UpdatedAt c.
Lemma image_after_ok image s : tables_ok s → tables_ok (image_after image s).
Proof.
  intros Hok. unfold image_after. destruct (row_of _ _) as [f|] eqn:Hf; case_decide; try done.
  - apply row_of_iff in Hf as [Hin Hk]; [|done]. apply add_archs_ok; [by eapply put_ok|]. destruct Hok as (_ & _ & Hlt & _). rewrite Forall_forall in Hlt. by apply Hlt.
  - apply (add_archs_ok (add_row (fresh_row (rt_next s) image no_frame) s)); [by apply add_row_ok|]. cbn. lia.
Qed.
Lemma image_after_stale image s : stale image s →
  image_after image s = with_archs (λ l, l ++ engine_archs (id_for image s) c image)
    ((if row_of s (image_key image) is Some _ then put else add_row) (fresh_row (id_for image s) image (old_row image s)) s).
Proof. unfold stale, old_row, id_for, image_after. destruct (row_of _ _) as [f|]; cbn; intros ?; by rewrite decide_True. Qed.
Lemma image_after_view image s k : tables_ok s → stale image s →
  view (image_after image s) k =
    if decide (k = image_key image) then Some (fresh_row (id_for image s) image (old_row image s), engine_archs (id_for image s) c image) else view s k.
Proof.
  intros Hok Hst. rewrite image_after_stale by done. unfold view, old_row, id_for. destruct (row_of s (image_key image)) as [f|] eqn:Hf.
  - set (g := fresh_row (rf_ID f) image f). assert (row_of (with_archs (λ l, l ++ engine_archs (rf_ID f) c image) (put g s)) k = row_of (put g s) k) as -> by done.
    pose proof Hf as [_ Hfk]%row_of_iff; [|done]. rewrite (row_put s f g k) by (done || by rewrite Hfk). rewrite Hfk. case_decide as Heq; cbn [fmap option_fmap option_map].
    + rewrite archs_add, archs_put. by rewrite !decide_True.
    + destruct (row_of s k) as [h|] eqn:Hh; [|done]. apply (f_equal (λ l, Some (h, l))). rewrite archs_add, archs_put. cbn [rf_ID g at_time].
      rewrite !decide_False; [by rewrite app_nil_r|..]; intros Hid; apply Heq; apply row_of_iff in Hh as [Hh <-], Hf as [Hf <-]; try done; f_equal; by apply (keyed_eq rf_ID (rt_frames s)); [apply Hok|..].
  - set (g := fresh_row (rt_next s) image no_frame). assert (row_of (with_archs (λ l, l ++ engine_archs (rt_next s) c image) (add_row g s)) k = row_of (add_row g s) k) as -> by done.
    rewrite (row_add s g k) by done. change (serve_key g) with (image_key image). case_decide as Heq; cbn [fmap option_fmap option_map].
    + change (rf_ID g) with (rt_next s). rewrite archs_add, decide_True by done. by rewrite (no_archs s Hok : archs_of (add_row g s) (rt_next s) = []).
    + destruct (row_of s k) as [h|] eqn:Hh; [|done]. apply (f_equal (λ l, Some (h, l))). rewrite archs_add. rewrite decide_False; [by rewrite app_nil_r|].
      apply row_of_iff in Hh as [Hh _]; [|done]. destruct Hok as (_ & _ & Hlt & _). rewrite Forall_forall in Hlt. specialize (Hlt h Hh). lia.
Qed.
Lemma image_after_fresh image s : ¬ stale image s → image_after image s = s.
Proof. unfold stale, old_row, image_after. destruct (row_of _ _); intros ?; by rewrite decide_False. Qed.

(** *** The run of one image *)

Lemma found_serves image s : found_by (serves (im_Image image) (im_ComputeType image)) (rt_frames s) = row_of s (image_key image).
Proof.
  unfold row_of, found_by. f_equal. apply list_find_ext. intros f. unfold serves, serve_key, image_key. split; [intros [H1 H2]; congruence|]. intros [= H1 H2]. by split.
Qed.
Lemma run_row {A} (f : rt_state → option A) w w1 : next_fault w = (Ret tt, w1) → rt_row f w = (match f (rt_tables w1) with Some a => Ret a | None => Fail ErrNoRows end, w1).
Proof. intros Hw. unfold rt_row. erewrite run_seq; [|unfold rt_read; by rewrite (run_seq _ _ _ _ _ Hw)]. by destruct (f _). Qed.
Lemma run_frame_Add f w w1 : next_fault w = (Ret tt, w1) → row_of (rt_tables w1) (serve_key f) = None → rf_UpdatedAt f = 0 →
  frame_Add now f w = (Ret (at_time (rt_next (rt_tables w1)) now f), on_tables (add_row (at_time (rt_next (rt_tables w1)) now f)) w1).
Proof.
  intros Hw Hnone Ht. unfold frame_Add. apply io_wrap_run. rewrite (run_seq _ _ _ _ _ Hw). rewrite (run_gives _ _ w1 (rt_tables w1)) by done.
  rewrite decide_False. { by rewrite Ht, decide_True. }
  intros (x & Heq & Hx)%list_elem_of_fmap. apply (found_by_None _ _ Hnone x Hx). unfold frame_key in Heq. unfold serve_key. congruence.
Qed.
Lemma run_frame_Update f g w w1 : next_fault w = (Ret tt, w1) → tables_ok (rt_tables w1) → f ∈ rt_frames (rt_tables w1) → rf_ID g = rf_ID f → serve_key g = serve_key f →
  frame_Update now g w = (Ret (at_time (rf_ID g) now g), on_tables (λ s, with_frames (fmap (λ x, if decide (rf_ID x = rf_ID g) then at_time (rf_ID g) now g else x)) (rt_next s) s) w1).
Proof.
  intros Hw Hok Hf Hg Hk. unfold frame_Update. rewrite (run_seq _ _ _ _ _ Hw). rewrite (run_gives _ _ w1 (rt_tables w1)) by done.
  rewrite decide_False; [done|]. intros [_ (x & Hx & Hne & Heq)%Exists_exists]. apply Hne. cbn. rewrite Hg. f_equal.
  apply (keyed_eq serve_key (rt_frames (rt_tables w1))); [apply Hok|done..|]. rewrite <- Hk. unfold frame_key in Heq. unfold serve_key. cbn in Heq. congruence.
Qed.
Lemma run_BatchAdd id image w : undisturbed w → tables_ok (rt_tables w) → add_archs c image id w = (Ret tt, on_tables (with_archs (λ l, l ++ engine_archs id c image)) w).
Proof.
  intros Hw (_ & _ & _ & _ & _ & Hfull). unfold add_archs. destruct (engine_archs id c image) as [|a l] eqn:Hl.
  - destruct w as [fs [fr n a]]. unfold on_tables, with_archs. cbn. by rewrite app_nil_r.
  - rewrite <- Hl. unfold or_skip. erewrite run_seq; [|apply io_try_run; unfold BatchAdd; apply io_wrap_run; unfold insert_archs; rewrite (run_gives _ _ w tt) by (by apply gives_fault);
      rewrite (run_gives _ _ w (rt_tables w)) by done; rewrite decide_True; [done|by rewrite filter_app, engine_archs_full, app_nil_r]]. done.
Qed.
Lemma or_skip_run {A} (m : rio A) k w a w' : m w = (Ret a, w') → or_skip m k w = k a w'.
Proof. intros Hm. unfold or_skip. by rewrite (run_seq _ _ _ _ _ (io_try_run _ _ _ _ Hm)). Qed.
(** Up to the insertion of the architectures. *)
Lemma run_find image w w1 : next_fault w = (Ret tt, w1) →
  io_try (FindByFrameImageAndComputeType (im_Image image) (im_ComputeType image)) w = (Ret (match row_of (rt_tables w1) (image_key image) with Some f => Ok f | None => Err ErrNoRows end), w1).
Proof. intros Hw. unfold FindByFrameImageAndComputeType, io_try. rewrite (run_row _ _ _ Hw), found_serves. by destruct (row_of _ _). Qed.
Definition row_put_in (image : Image) (s : rt_state) : rt_state :=
  (if row_of s (image_key image) is Some _ then put else add_row) (fresh_row (id_for image s) image (old_row image s)) s.
Lemma row_put_in_ok image s : tables_ok s → tables_ok (row_put_in image s).
Proof.
  intros Hok. unfold row_put_in, id_for, old_row. destruct (row_of _ _) as [f|] eqn:Hf; [|by apply add_row_ok].
  apply row_of_iff in Hf as [Hin Hk]; [|done]. by eapply put_ok.
Qed.
(** The next calls pass. *)
Definition lets (fs fs1 : list (option goerr)) : Prop := ∀ s, next_fault (mk_rtw fs s) = (Ret tt, mk_rtw fs1 s).
Fixpoint calls_pass (n : nat) (fs fs1 : list (option goerr)) : Prop := match n with O => fs = fs1 | S n => ∃ fs', lets fs fs' ∧ calls_pass n fs' fs1 end.
Lemma lets_none n fs : calls_pass n (replicate n None ++ fs) fs.
Proof. induction n as [|n IH]; [done|]. by exists (replicate n None ++ fs). Qed.
Lemma lets_nil n : calls_pass n [] [].
Proof. induction n as [|n IH]; [done|]. by exists []. Qed.
Definition calls_before (image : Image) (s : rt_state) : nat := if row_of s (image_key image) is Some _ then 3%nat else 2%nat.
Lemma run_row_put_in image fs fs1 s : calls_pass (calls_before image s) fs fs1 → tables_ok s → stale image s →
  update_image now engineType c image (mk_rtw fs s) = add_archs c image (id_for image s) (mk_rtw fs1 (row_put_in image s)).
Proof.
  intros Hw Hok Hst. unfold update_image. unfold stale in Hst. unfold row_put_in, id_for, old_row, calls_before in *.
  destruct (row_of s (image_key image)) as [f|] eqn:Hf; cbn [calls_pass] in Hw.
  - destruct Hw as (f1 & H1 & f2 & H2 & f3 & H3 & <-). rewrite (run_seq _ _ _ _ _ (run_find image _ _ (H1 s))). cbn [rt_tables]. rewrite Hf. cbv beta iota.
    unfold update_frame. rewrite decide_True by done. apply row_of_iff in Hf as Hin; [|done]. destruct Hin as [Hin Hk].
    assert (0 < rf_ID f < rt_next s) as Hid by (destruct Hok as (_ & _ & Hlt & _); rewrite Forall_forall in Hlt; by apply Hlt).
    rewrite decide_False by (cbn; lia). erewrite or_skip_run; [|by apply (run_frame_Update f _ _ _ (H2 s))].
    erewrite or_skip_run; [done|]. unfold DeleteByRuntimeID. apply io_wrap_run. unfold on_tables. cbn [rt_faults]. by rewrite (run_seq _ _ _ _ _ (H3 _)).
  - destruct Hw as (f1 & H1 & f2 & H2 & <-). rewrite (run_seq _ _ _ _ _ (run_find image _ _ (H1 s))). cbn [rt_tables]. rewrite Hf.
    assert (Is ErrNoRows ErrNoRows = true) as -> by done. unfold update_frame. rewrite decide_True by done. cbv zeta. rewrite decide_True by done.
    erewrite or_skip_run; [|by apply (run_frame_Add _ _ _ (H2 s))]. done.
Qed.
Lemma run_image image w : undisturbed w → tables_ok (rt_tables w) → update_image now engineType c image w = (Ret tt, on_tables (image_after image) w).
Proof.
  intros Hw Hok. destruct w as [fs s]. cbn in Hok. unfold undisturbed in Hw. cbn in Hw. subst fs. destruct (decide (rf_UpdatedAt (old_row image s) < ec_UpdatedAt c)) as [Hst|Hst].
  - rewrite (run_row_put_in image [] [] s (lets_nil _) Hok Hst). rewrite run_BatchAdd; [|done|by apply row_put_in_ok]. unfold on_tables. cbn. by rewrite image_after_stale.
  - unfold on_tables. cbn. rewrite image_after_fresh by done. unfold update_image. rewrite (run_seq _ _ _ _ _ (run_find image (mk_rtw [] s) (mk_rtw [] s) eq_refl)). cbn [rt_tables].
    unfold old_row in Hst. destruct (row_of _ _); [|assert (Is ErrNoRows ErrNoRows = true) as -> by done]; unfold update_frame; by rewrite decide_False.
Qed.

(** *** A file *)

Definition images_after (images : list Image) (s : rt_state) : rt_state := foldl (λ s i, image_after i s) s images.
Lemma images_after_ok images s : tables_ok s → tables_ok (images_after images s).
Proof. unfold images_after. revert s. induction images as [|i images IH]; intros s Hok; [done|]. cbn. by apply IH, image_after_ok. Qed.
Lemma run_images images w : undisturbed w → tables_ok (rt_tables w) → each_image now engineType c images w = (Ret tt, on_tables (images_after images) w).
Proof.
  revert w. induction images as [|i images IH]; intros w Hw Hok; [by destruct w|]. cbn [each_image]. rewrite (run_seq _ _ _ _ _ (run_image i w Hw Hok)).
  rewrite IH; [done|done|]. by apply image_after_ok.
Qed.
Lemma row_view s k : row_of s k = fst <$> view s k.
Proof. unfold view. by destruct (row_of s k). Qed.
Lemma image_after_next i s : rt_next s ≤ rt_next (image_after i s).
Proof. unfold image_after. destruct (row_of _ _); case_decide; cbn; lia. Qed.
(** The row of an image and its architectures are those of the file. *)
Definition filed (s s' : rt_state) (image : Image) : Prop :=
  ∃ id, view s' (image_key image) = Some (fresh_row id image (old_row image s), engine_archs id c image) ∧
    match row_of s (image_key image) with Some f => id = rf_ID f | None => rt_next s ≤ id end.
Lemma images_after_view images s : tables_ok s → NoDup (image_key <$> images) → Forall (λ i, stale i s) images →
  Forall (filed s (images_after images s)) images ∧ ∀ k, k ∉ image_key <$> images → view (images_after images s) k = view s k.
Proof.
  unfold images_after. revert s. induction images as [|i images IH]; intros s Hok Hnd Hst; [done|]. cbn [fmap list_fmap] in Hnd. apply NoDup_cons in Hnd as [Hi Hnd].
  apply Forall_cons in Hst as [Hsi Hst]. cbn [foldl]. set (s1 := image_after i s).
  assert (∀ k, k ≠ image_key i → view s1 k = view s k) as Hv1 by (intros k Hk; unfold s1; rewrite image_after_view by done; by rewrite decide_False).
  assert (∀ j, j ∈ images → row_of s1 (image_key j) = row_of s (image_key j)) as Hrow.
  { intros j Hj. rewrite !row_view, Hv1; [done|]. intros Heq. apply Hi. rewrite <- Heq. by apply list_elem_of_fmap_2. }
  assert (∀ j, j ∈ images → old_row j s1 = old_row j s) as Hold by (intros j Hj; unfold old_row; by rewrite Hrow).
  destruct (IH s1) as [Hfiled Hother]; [by apply image_after_ok|done| |].
  { apply Forall_forall. intros j Hj. rewrite Forall_forall in Hst. unfold stale. rewrite Hold by done. by apply Hst. }
  split.
  - apply Forall_cons. split.
    + unfold filed. rewrite Hother by done. unfold s1. rewrite image_after_view, decide_True by done. exists (id_for i s). split; [done|]. unfold id_for. by destruct (row_of s (image_key i)).
    + apply Forall_forall. intros j Hj. rewrite Forall_forall in Hfiled. destruct (Hfiled j Hj) as (id & Hv & Hid). exists id. rewrite Hold in Hv by done. rewrite Hrow in Hid by done.
      split; [done|]. destruct (row_of s (image_key j)); [done|]. etrans; [apply (image_after_next i s)|done].
  - intros k Hk. cbn [fmap list_fmap] in Hk. apply not_elem_of_cons in Hk as [Hne Hk]. rewrite Hother by done. by apply Hv1.
Qed.
End engines.

(** *** What a file says of an image *)

Lemma fresh_names_spec seen row names : Inj (=) (=) row →
  (∀ x, x ∈ (fresh_names seen row names).1 ↔ x ∈ seen ∨ x ∈ names) ∧ NoDup (fresh_names seen row names).2 ∧
  (∀ a, a ∈ (fresh_names seen row names).2 ↔ ∃ n, n ∈ names ∧ n ∉ seen ∧ a = row n).
Proof.
  intros Hinj. revert seen. induction names as [|n names IH]; intros seen; cbn [fresh_names].
  { split_and!; [|constructor|]; [intros x; rewrite elem_of_nil; tauto|]. intros a. rewrite elem_of_nil. split; [done|]. by intros (n & Hn%elem_of_nil & _). }
  case_decide as Hn.
  - destruct (IH seen) as (H1 & H2 & H3). split_and!; [|done|].
    + intros x. rewrite H1, elem_of_cons. split; [tauto|]. intros [?|[->|?]]; auto.
    + intros a. rewrite H3. split; intros (m & Hm & Hs & ->); exists m; rewrite elem_of_cons in *; naive_solver.
  - destruct (IH (n :: seen)) as (H1 & H2 & H3). destruct (fresh_names (n :: seen) row names) as [seen' rows]. cbn [fst snd] in *. split_and!.
    + intros x. rewrite H1, !elem_of_cons. tauto.
    + apply NoDup_cons. split; [|done]. rewrite H3. intros (m & _ & Hm & Heq%Hinj). apply Hm. subst. by left.
    + intros a. rewrite elem_of_cons, H3. split.
      * intros [->|(m & Hm & Hs & ->)]; [exists n; split_and!; [by left|done..]|exists m; rewrite elem_of_cons in *; naive_solver].
      * intros (m & [->|Hm]%elem_of_cons & Hs & ->); [by left|]. destruct (decide (m = n)) as [->|Hne]; [by left|right]. exists m. rewrite elem_of_cons. naive_solver.
Qed.
(** The architectures and models of an image: those of the file and its own, each
    name once; a model that is named like an architecture is left out. *)
Definition archs_said (id : Z) (c : EngineConfig) (image : Image) (l : list RuntimeArchitecture) : Prop :=
  NoDup l ∧ ∀ a, a ∈ l ↔
    (∃ n, (n ∈ ec_SupportedArchs c ∨ n ∈ im_ExtraArchs image) ∧ a = mk_ra id n []) ∨
    (∃ n, (n ∈ ec_SupportedModels c ∨ n ∈ im_ExtraModels image) ∧ ¬ (n ∈ ec_SupportedArchs c ∨ n ∈ im_ExtraArchs image) ∧ a = mk_ra id [] n).
Lemma engine_archs_said id c image : archs_said id c image (engine_archs id c image).
Proof.
  unfold archs_said, engine_archs. destruct (fresh_names_spec [] (λ n, mk_ra id n []) (ec_SupportedArchs c ++ im_ExtraArchs image)) as (H1 & H2 & H3); [by intros ?? [= ?]|].
  destruct (fresh_names [] _ _) as [seen archs]. cbn [fst snd] in *.
  destruct (fresh_names_spec seen (λ n, mk_ra id [] n) (ec_SupportedModels c ++ im_ExtraModels image)) as (_ & H5 & H6); [by intros ?? [= ?]|].
  assert (∀ n, n ∈ seen ↔ n ∈ ec_SupportedArchs c ∨ n ∈ im_ExtraArchs image) as Hseen by (intros n; rewrite H1, elem_of_nil, elem_of_app; tauto).
  split.
  - apply NoDup_app. split_and!; [done| |done]. intros a (n & Hn & _ & ->)%H3 (m & _ & Hm & [= -> <-])%H6. apply Hm, Hseen. by apply elem_of_app in Hn.
  - intros a. rewrite elem_of_app, H3, H6. setoid_rewrite Hseen. setoid_rewrite elem_of_app. split.
    + intros [(n & Hn & _ & Ha)|(n & Hn & Hno & Ha)]; [left; by exists n|right; by exists n].
    + intros [(n & Hn & Ha)|(n & Hn & Hno & Ha)]; [left; exists n; split_and!; [done|apply not_elem_of_nil|done]|right; by exists n].
Qed.
(** The row of an image after a run at [now]: its id is the one it had or a new
    one, and every field is the file's, but for arguments and parsers the file
    has none of, which stay as they were. *)
Definition settled (now engineType : Z) (c : EngineConfig) (s s' : rt_state) (image : Image) : Prop :=
  let old := row_of s (image_key image) in
  ∃ f, row_of s' (image_key image) = Some f ∧ match old with Some o => rf_ID f = rf_ID o | None => rt_next s ≤ rf_ID f end ∧ rf_UpdatedAt f = now ∧
    rf_FrameName f = ec_EngineName c ∧ rf_FrameVersion f = im_EngineVersion image ∧ rf_FrameImage f = im_Image image ∧ rf_ComputeType f = im_ComputeType image ∧
    rf_DriverVersion f = im_DriverVersion image ∧ rf_Description f = ec_Description c ∧ rf_Enabled f = ec_Enabled c ∧ rf_ContainerPort f = ec_ContainerPort c ∧
    rf_Type f = engineType ∧ rf_ModelFormat f = ec_ModelFormat c ∧
    rf_EngineArgs f = match ec_EngineArgs c, old with Some args, _ => marshal_args args | None, Some o => rf_EngineArgs o | None, None => [] end ∧
    rf_ToolCallParsers f = (if decide (ec_ToolCallParsers c ≠ ∅) then marshal_parsers (ec_ToolCallParsers c) else match old with Some o => rf_ToolCallParsers o | None => [] end) ∧
    archs_said (rf_ID f) c image (archs_of s' (rf_ID f)).

(** Calls that fail do not say that there is no row. *)
Definition honest_faults (fs : list (option goerr)) : Prop := Forall (λ f : option goerr, match f with Some e => Is e ErrNoRows = false | None => True end) fs.
Lemma row_outcome {A} (f : rt_state → option A) fs s : honest_faults fs → ∃ fs' r, honest_faults fs' ∧ io_try (rt_row f) (mk_rtw fs s) = (Ret r, mk_rtw fs' s) ∧
  match r with Ok a => f s = Some a | Err e => Is e ErrNoRows = false ∨ (e = ErrNoRows ∧ f s = None) end.
Proof.
  intros Hh. unfold io_try, rt_row, rt_read, mbind, io_bind, io_gets, next_fault. destruct fs as [|[e|] fs]; cbn.
  - exists [], (match f s with Some a => Ok a | None => Err ErrNoRows end). split; [done|]. by destruct (f s); [|split; [|right]].
  - inversion Hh. exists fs, (Err e). split_and!; [done..|by left].
  - inversion Hh. exists fs, (match f s with Some a => Ok a | None => Err ErrNoRows end). split; [done|]. by destruct (f s); [|split; [|right]].
Qed.
(** Nothing is left to do for images whose rows are as new as the file. *)
Lemma skip_image now engineType c image fs s : honest_faults fs → ¬ stale c image s →
  ∃ fs', honest_faults fs' ∧ update_image now engineType c image (mk_rtw fs s) = (Ret tt, mk_rtw fs' s).
Proof.
  intros Hh Hst. unfold update_image, FindByFrameImageAndComputeType.
  destruct (row_outcome (λ s, found_by (serves (im_Image image) (im_ComputeType image)) (rt_frames s)) fs s Hh) as (fs' & r & Hh' & Hrun & Hr).
  exists fs'. split; [done|]. rewrite (run_seq _ _ _ _ _ Hrun). rewrite found_serves in Hr. unfold stale, old_row in Hst.
  destruct r as [f|e]; [rewrite Hr in Hst; unfold update_frame; by rewrite decide_False|]. destruct Hr as [->|[-> Hr]]; [done|]. rewrite Hr in Hst.
  assert (Is ErrNoRows ErrNoRows = true) as -> by done. unfold update_frame. by rewrite decide_False.
Qed.
Lemma skip_images now engineType c images fs s : honest_faults fs → Forall (λ i, ¬ stale c i s) images →
  ∃ fs', each_image now engineType c images (mk_rtw fs s) = (Ret tt, mk_rtw fs' s).
Proof.
  revert fs. induction images as [|i images IH]; intros fs Hh Hst; [by exists fs|]. apply Forall_cons in Hst as [Hi Hst]. cbn [each_image].
  destruct (skip_image now engineType c i fs s Hh Hi) as (fs1 & Hh1 & Hrun). destruct (IH fs1 Hh1 Hst) as (fs2 & Hrun2). exists fs2. by rewrite (run_seq _ _ _ _ _ Hrun).
Qed.

Lemma filed_settled now engineType c s s' image : filed now engineType c s s' image → settled now engineType c s s' image.
Proof.
  intros (id & Hv & Hid). unfold settled. assert (row_of s' (image_key image) = Some (at_time id now (filled engineType c image (old_row image s)))) as Hrow by (rewrite row_view, Hv; done).
  eexists. split; [exact Hrow|]. unfold view in Hv. rewrite Hrow in Hv. injection Hv as Harchs. unfold old_row in *. cbn in *. rewrite Harchs.
  destruct (row_of s (image_key image)) as [o|]; cbn; (split_and!; [done..|by destruct (ec_EngineArgs c)|by repeat case_decide|apply engine_archs_said]).
Qed.

(** C35: An engine file that is newer than the rows of its images, and not newer
    than the clock, and names each image once for a type of hardware, is settled
    by one undisturbed run. Each image has one row, the one it had or a new one,
    dated now, and with every field of the file, but for engine arguments and
    tool call parsers where the file has none: there the row keeps those it had.
    Its architectures and models are those of the file and the image's extra
    ones, each once, without models named like an architecture. Everything else
    stays. From then on the file changes nothing any more, at whatever time and
    whichever calls fail. *)
Theorem engine_file_settles now engineType c w : undisturbed w → tables_ok (rt_tables w) → NoDup (image_key <$> ec_EngineImages c) →
  Forall (λ i, stale c i (rt_tables w)) (ec_EngineImages c) → ec_UpdatedAt c ≤ now →
  ∃ s', UpdateRuntimeFrameworkAndArch now engineType c w = (Ret tt, mk_rtw [] s') ∧ tables_ok s' ∧
    Forall (settled now engineType c (rt_tables w) s') (ec_EngineImages c) ∧
    (∀ k, k ∉ image_key <$> ec_EngineImages c → view s' k = view (rt_tables w) k) ∧
    ∀ later fs, honest_faults fs → ∃ fs', UpdateRuntimeFrameworkAndArch later engineType c (mk_rtw fs s') = (Ret tt, mk_rtw fs' s').
Proof.
  intros Hw Hok Hnd Hst Hnow. exists (images_after now engineType c (ec_EngineImages c) (rt_tables w)).
  destruct (images_after_view now engineType c (ec_EngineImages c) (rt_tables w) Hok Hnd Hst) as [Hfiled Hother]. split_and!; [|by apply images_after_ok| |done|].
  - unfold UpdateRuntimeFrameworkAndArch. rewrite run_images by done. unfold on_tables. unfold undisturbed in Hw. cbn in Hw. by rewrite Hw.
  - eapply Forall_impl; [exact Hfiled|]. intros i. apply filed_settled.
  - intros later fs Hh. apply skip_images; [done|]. eapply Forall_impl; [exact Hfiled|]. intros i (id & Hv & _). unfold stale, old_row. rewrite row_view, Hv. cbn. lia.
Qed.

(** C40: When only the insertion of the architectures fails, no error is
    returned, the image's row has everything else the file says, dated now, and
    no architecture at all; and the file never brings them any more, at whatever
    time it is read again and whichever calls fail: the row is as new as the
    file. *)
Theorem failed_archs_never_come now engineType c image e s : tables_ok s → stale c image s → ec_UpdatedAt c ≤ now → ec_SupportedArchs c ≠ [] →
  ∃ s' id, update_image now engineType c image (mk_rtw (replicate (calls_before image s) None ++ [Some e]) s) = (Ret tt, mk_rtw [] s') ∧
    view s' (image_key image) = Some (at_time id now (filled engineType c image (old_row image s)), []) ∧
    ∀ later fs, honest_faults fs → ∃ fs', update_image later engineType c image (mk_rtw fs s') = (Ret tt, mk_rtw fs' s').
Proof.
  intros Hok Hst Hnow Harchs. set (g := at_time (id_for image s) now (filled engineType c image (old_row image s))).
  assert (∀ id, ∃ a l, engine_archs id c image = a :: l) as Hne.
  { intros id. unfold engine_archs. destruct (ec_SupportedArchs c) as [|n ns]; [done|]. cbn [app fresh_names]. rewrite decide_False by apply not_elem_of_nil. destruct (fresh_names [n] _ _). cbn. eauto. }
  assert (∀ id s, add_archs c image id (mk_rtw [Some e] s) = (Ret tt, mk_rtw [] s)) as Hadd by (intros id s'; unfold add_archs; by destruct (Hne id) as (a & l & ->)).
  exists (row_put_in now engineType c image s), (id_for image s). pose proof (row_put_in_ok now engineType c image s Hok) as Hput.
  assert (view (row_put_in now engineType c image s) (image_key image) = Some (g, [])) as Hview.
  { unfold view, row_put_in, g, id_for, old_row. destruct (row_of s (image_key image)) as [f|] eqn:Hf.
    - pose proof Hf as [_ Hk]%row_of_iff; [|done]. rewrite <- Hk in Hf |- *. rewrite (row_put s f) by done. rewrite decide_True by done. cbn [fmap option_fmap option_map]. by rewrite archs_put, decide_True.
    - rewrite (row_add s) by done. rewrite decide_True by done. cbn [fmap option_fmap option_map]. by rewrite (no_archs s Hok : archs_of (add_row _ s) (rt_next s) = []). }
  split_and!; [|exact Hview|].
  - rewrite (run_row_put_in now engineType c image _ [Some e] s); [apply Hadd|apply lets_none|done|done].
  - intros later fs Hh. destruct (skip_image later engineType c image fs (row_put_in now engineType c image s) Hh) as (fs' & _ & Hrun); [|by exists fs'].
    unfold stale, old_row. rewrite row_view, Hview. cbn. lia.
Qed.

(** ** Instances *)

Section examples.
Definition ex_row (id : Z) (image : string) (t : Z) : RuntimeFramework := mk_rf id (bs "vllm") (bs "0.1") (bs image) (bs "gpu") [] [] 1 8000 1 (bs "old") (bs "safetensors") [] t.
Definition ex_tables : rt_state := mk_rts [ex_row 1 "vllm:1" 5; ex_row 2 "sglang:1" 30] 3 [mk_ra 1 (bs "Qwen") []; mk_ra 2 (bs "Glm") []].
Definition ex_image (image : string) (extra : list bytes) : Image := mk_image (bs "gpu") (bs image) (bs "12.1") (bs "0.2") extra [].
Definition ex_engine : EngineConfig :=
  mk_engine (bs "vllm") 8000 [] (bs "safetensors") [ex_image "vllm:1" [bs "Glm"]; ex_image "vllm:2" []] [bs "Llama"; bs "Llama"] [bs "m"; bs "Llama"] None 1 10 [] ∅.
Lemma ex_tables_ok : tables_ok ex_tables.
Proof. split_and!; apply (bool_decide_unpack _); by vm_compute. Qed.
Lemma ex_stale : Forall (λ i, stale ex_engine i ex_tables) (ec_EngineImages ex_engine).
Proof. apply (bool_decide_unpack (Forall (λ i, rf_UpdatedAt (old_row i ex_tables) < ec_UpdatedAt ex_engine) _)). by vm_compute. Qed.

(** One image has an older row, which keeps its arguments; the other is new. *)
Lemma engine_file_settles_witness :
  Forall (λ i, stale ex_engine i ex_tables) (ec_EngineImages ex_engine) ∧
  ∃ s', UpdateRuntimeFrameworkAndArch 20 1 ex_engine (mk_rtw [] ex_tables) = (Ret tt, mk_rtw [] s') ∧
    ((λ f, (rf_ID f, rf_EngineArgs f, rf_UpdatedAt f)) <$> rt_frames s' = [(1, bs "old", 20); (2, bs "old", 30); (3, [], 20)]) ∧
    archs_of s' 1 = [mk_ra 1 (bs "Llama") []; mk_ra 1 (bs "Glm") []; mk_ra 1 [] (bs "m")] ∧ archs_of s' 3 = [mk_ra 3 (bs "Llama") []; mk_ra 3 [] (bs "m")] ∧
    ∃ fs', UpdateRuntimeFrameworkAndArch 25 1 ex_engine (mk_rtw [None; Some (NewError (bs "timeout"))] s') = (Ret tt, mk_rtw fs' s').
Proof.
  split; [exact ex_stale|].
  destruct (engine_file_settles 20 1 ex_engine (mk_rtw [] ex_tables) eq_refl ex_tables_ok ltac:(apply (bool_decide_unpack _); by vm_compute) ex_stale ltac:(done))
    as (s' & Hrun & _ & _ & _ & Hagain).
  exists s'. split; [exact Hrun|]. specialize (Hagain 25 [None; Some (NewError (bs "timeout"))] ltac:(by repeat constructor)). vm_compute in Hrun. injection Hrun as <-.
  split_and!; [by vm_compute..|exact Hagain].
Defined.
Lemma failed_archs_never_come_witness :
  let e := NewError (bs "timeout") in let i := ex_image "vllm:2" [] in
  calls_before i ex_tables = 2%nat ∧
  ∃ s' id, update_image 20 1 ex_engine i (mk_rtw [None; None; Some e] ex_tables) = (Ret tt, mk_rtw [] s') ∧
    view s' (image_key i) = Some (at_time id 20 (filled 1 ex_engine i no_frame), []) ∧
    ∃ fs', update_image 25 1 ex_engine i (mk_rtw [] s') = (Ret tt, mk_rtw fs' s').
Proof.
  cbv zeta. split; [by vm_compute|]. assert (stale ex_engine (ex_image "vllm:2" []) ex_tables) as Hst by (pose proof ex_stale as H; rewrite Forall_forall in H; apply H; right; by left).
  destruct (failed_archs_never_come 20 1 ex_engine (ex_image "vllm:2" []) (NewError (bs "timeout")) ex_tables ex_tables_ok Hst ltac:(done) ltac:(done)) as (s' & id & Hrun & Hv & Hagain).
  exists s', id. split_and!; [exact Hrun|exact Hv|]. apply Hagain. constructor.
Defined.
End examples.
