(* ===== verification/RtTags.v ===== *)
(** Runtime frameworks and tags: what the tables of frameworks make of the tags
    of a model, and the tags of pushes with everything that touches them. *)
From stdpp Require Import sorting.
From S2P Require Import Prelude GoLib GoFloat GoJson Sensitive Errorx AcAccess AcSpec TgTag TgSpec TgReadme RtArch RtModel.
Open Scope Z_scope.

(** ** Tags *)

Lemma framework_not_runtime : bs "framework" ∉ runtime_categories.
Proof. by apply (bool_decide_unpack _). Qed.
(** What [checkTagName] matches, once for each framework. *)
Definition named_by (f : RuntimeFramework) (ts : list Tag) : list Tag := filter (λ t, checkTagName f (tg_Name t) = true) ts.
Definition raised (repoID : Z) (ts : list Tag) (m : tag_rows) : tag_rows := foldl (λ m t, count_up (repoID, tg_ID t) m) m ts.
Lemma count_raised repoID repoID' id ts m : count_at (repoID', id) (raised repoID ts m) = count_at (repoID', id) m + (if decide (repoID' = repoID) then len (filter (λ t, tg_ID t = id) ts) else 0).
Proof.
  unfold raised. revert m. induction ts as [|t ts IH]; intros m; cbn [foldl]; [case_decide; unfold len; cbn; lia|]. rewrite IH, count_at_up. rewrite filter_cons.
  destruct (decide (repoID' = repoID)) as [->|Hr].
  - destruct (decide (tg_ID t = id)) as [<-|Hne]; [rewrite decide_True by done; unfold len; cbn; lia|]. rewrite decide_False; [done|]. by intros [= ?].
  - rewrite decide_False; [done|]. by intros [= ? ?].
Qed.
Lemma count_own (P : Tag → Prop) `{!∀ t, Decision (P t)} tags t : NoDup (tg_ID <$> tags) → t ∈ tags → len (filter (λ x, tg_ID x = tg_ID t) (filter P tags)) = if decide (P t) then 1 else 0.
Proof.
  intros Hnd Ht. rewrite filter_swap. assert (filter (λ x, tg_ID x = tg_ID t) tags = [t]) as ->; [|rewrite filter_cons; by case_decide].
  induction tags as [|x tags IH]; [by apply not_elem_of_nil in Ht|]. cbn [fmap list_fmap] in Hnd. apply NoDup_cons in Hnd as [Hx Hnd]. rewrite filter_cons.
  apply elem_of_cons in Ht as [->|Ht].
  - rewrite decide_True by done. f_equal. apply filter_all_out. intros y Hy Heq. apply Hx. rewrite <- Heq. by apply list_elem_of_fmap_2.
  - rewrite decide_False; [by apply IH|]. intros Heq. apply Hx. rewrite Heq. by apply list_elem_of_fmap_2.
Qed.

Section tags.
Variables (like : bytes → bytes → bool) (unicode_lower : Z → Z) (GetMetadataFromSafetensors GetMetadataFromGGUF : tagged_repo → outcome goerr ModelInfo).
Variables (frames : list RuntimeFramework) (archs : list RuntimeArchitecture).

(** *** However calls fail *)

Section quiet.
Context (R : tag_state → tag_state → Prop) (p : Prop) (Hquiet : ∀ s s', quiet_step s s' → R s s').
Abbreviation goes := (goes R p).
Abbreviation same_tags w := (λ _ s, tt_tags s = tt_tags (gt_state w)).
Lemma goes_second (path : bytes) w : p ∨ has_slash path → goes (gio_of (second_part path)) (λ r s, s = gt_state w) w.
Proof.
  intros Hp. unfold gio_of, second_part. split_and!; [done|done|]. cbn [fst snd]. destruct Hp as [Hp|(a & b & rest & ->)%slash_parts]; [|done]. by destruct (Split _ _) as [|? [|? ?]].
Qed.
Lemma goes_OriginName r w : p ∨ splits r → goes (gio_of (OriginName r)) (λ _ s, s = gt_state w) w.
Proof.
  intros Hp. unfold OriginName. assert (∀ path, p ∨ has_slash path → goes (gio_of (second_part path)) (λ _ s, s = gt_state w) w) as Hsec by (intros; by apply goes_second).
  repeat case_decide; [..|by split_and!]; apply Hsec; (destruct Hp as [?|(? & ? & ? & ?)]; [by left|right; auto]).
Qed.
(** Readers that do not panic, or may. *)
Definition reads (r : tagged_repo) : Prop := GetMetadataFromSafetensors r ≠ Panic ∧ GetMetadataFromGGUF r ≠ Panic.
Lemma reads_dec r : reads r ∨ ¬ reads r.
Proof. unfold reads. destruct (GetMetadataFromSafetensors r), (GetMetadataFromGGUF r); naive_solver. Qed.
Lemma goes_UpdateModelMetadata r w : p ∨ reads r → goes (UpdateModelMetadata unicode_lower GetMetadataFromSafetensors GetMetadataFromGGUF r) (λ _ _, True) w.
Proof.
  intros Hp. unfold UpdateModelMetadata. assert (∀ o w', p ∨ o ≠ Panic → goes (read_files o) (λ _ _, True) w') as Hread.
  { intros o w' Ho. unfold read_files. apply goes_then; [by go|]. intros _ w1 _. unfold gio_of. split_and!; [done|done|]. cbn [fst snd]. destruct o; try done. by destruct Ho. }
  apply goes_then; [by go|]. intros s w' _. cbv zeta. apply goes_then.
  { repeat case_decide; [apply goes_wrap_true, Hread; destruct Hp as [?|[? ?]]; [by left|by right]..|by go]. }
  intros i w2 _. apply goes_then; [|intros; by go]. apply goes_wrap_true. unfold Upsert. apply goes_then; [by go|]. intros _ w3 _. apply goes_modify; [|done]. apply rtc_once, Hquiet, st_metadata.
Qed.
Lemma goes_relate_keep repoID ids w : Forall (fine_id (gt_state w)) ids → goes (UpsertRepoTags repoID [] ids) (same_tags w) w.
Proof. intros Hids. unfold UpsertRepoTags. go. go; [|done]. intros w' Hw'. apply goes_modify; [|by at_state]. at_state. apply rtc_once, Hquiet. by apply st_relate. Qed.
Definition fine_tag (s : tag_state) (t : Tag) : Prop := fine_id s (tg_ID t).
Lemma fine_same s s' t : tt_tags s' = tt_tags s → fine_tag s t → fine_tag s' t.
Proof. unfold fine_tag, fine_id. by intros ->. Qed.
Lemma goes_matching f repoID ts w : Forall (fine_tag (gt_state w)) ts → goes (add_matching f repoID ts) (same_tags w) w.
Proof.
  intros Hts. assert (∀ ts w', Forall (fine_tag (gt_state w)) ts → tt_tags (gt_state w') = tt_tags (gt_state w) → goes (add_matching f repoID ts) (same_tags w) w') as Hall; [|by apply Hall].
  clear ts Hts. induction ts as [|t ts IH]; intros w' Hts Hw'; [by apply goes_ret|]. apply Forall_cons in Hts as [Ht Hts]. cbn [add_matching]. apply goes_bind.
  apply goes_weaken with (same_tags w); [|intros [?|?] s _ Hs; [intros w1 Hw1; apply IH; [done|by at_state]|done]].
  destruct (checkTagName f (tg_Name t)); [|by apply goes_ret]. apply goes_bind, goes_try. eapply goes_weaken; [apply goes_relate_keep|].
  - apply Forall_singleton. eapply (fine_same (gt_state w)); [done|exact Ht].
  - intros r s _ Hs. intros w1 Hw1. apply goes_ret. at_state. by rewrite Hs.
Qed.
Lemma goes_add_frames ts repoID fs w : Forall (fine_tag (gt_state w)) ts → goes (add_frames frames ts repoID fs) (λ _ _, True) w.
Proof.
  intros Hts. assert (∀ w', tt_tags (gt_state w') = tt_tags (gt_state w) → goes (add_frames frames ts repoID fs) (λ _ _, True) w') as Hall; [|by apply Hall].
  induction fs as [|f fs IH]; intros w' Hw'; [by apply goes_ret|]. cbn [add_frames]. apply goes_bind, goes_try. apply goes_weaken with (same_tags w); [|intros r s _ Hs w1 Hw1; apply IH; by at_state].
  unfold AddRuntimeFrameworkTag. go. go; [|done]. intros w1 Hw1. eapply goes_weaken; [apply goes_matching|].
  - at_state. eapply Forall_impl; [exact Hts|]. intros t. by apply fine_same.
  - intros r s _ Hs. at_state_in Hs. by rewrite Hs.
Qed.
Lemma model_tags_fine s : tags_ok s → Forall (fine_tag s) (filter (passes like (mk_filter [ModelTagScope] runtime_categories None [])) (tt_tags s)).
Proof.
  intros Hok. apply Forall_forall. intros t ((_ & [?|Hc] & _) & Ht)%list_elem_of_filter; [done|]. cbn in Hc.
  intros x Hx Heq. eapply not_framework; [exact Hok|exact Ht|done| |exact Hx|done]. intros Hf. rewrite Hf in Hc. by apply framework_not_runtime.
Qed.
Lemma goes_UpdateRuntimeFrameworkTag i r w : tags_ok (gt_state w) → p ∨ splits r → goes (UpdateRuntimeFrameworkTag like unicode_lower frames archs i r) (λ _ _, True) w.
Proof.
  intros Hok Hp. unfold UpdateRuntimeFrameworkTag. apply goes_bind, goes_try. unfold store_AllTags.
  apply goes_weaken with (λ r s, s = gt_state w ∧ ∀ ts, r = Ok ts → Forall (fine_tag (gt_state w)) ts).
  { go. go; [|done]. split; [done|]. intros ts [= <-]. by apply model_tags_fine. }
  intros rts s _ [-> Hts]. intros w1 Hw1. go; [by go|]. go. go. intros w2 Hw2. apply goes_bind.
  apply goes_weaken with (λ _ s, s = gt_state w).
  { apply goes_wrap. apply goes_weaken with (λ _ s, s = gt_state w); [|by intros []]. unfold getRuntimeFrameworks.
    apply goes_bind. eapply goes_weaken; [apply goes_second; destruct Hp as [?|[? _]]; [by left|by right]|]. at_state. intros [?|?] s _ ->; [|done]. intros w3 Hw3.
    apply goes_bind. eapply goes_weaken; [by apply goes_OriginName|]. at_state. intros [?|?] s _ ->; [|done]. intros w4 Hw4. unfold ListByArchNameAndModel, ListByIDs.
    go. go. go; [|by at_state]. at_state. intros w5 Hw5. go. go. go; [|by at_state]. at_state. intros w6 Hw6. go. by at_state. }
  intros [fs|?] s _ ->; [|done]. intros w3 Hw3. destruct fs as [|f fs]; [by go|]. apply goes_bind. apply goes_weaken with (same_tags w).
  { apply goes_wrap. apply goes_weaken with (same_tags w); [|by intros []]. unfold RemoveRepoTagsByCategory. go. go; [|by at_state]. intros w4 Hw4. apply goes_modify; [|by at_state].
    at_state. apply rtc_once, Hquiet, (st_unrelate _ _ (gt_state w)). apply Forall_forall. intros id (t & -> & (Hc & Ht)%list_elem_of_filter)%list_elem_of_fmap.
    intros x Hx Heq. eapply not_framework; [exact Hok|exact Ht|done| |exact Hx|done]. intros Hf. rewrite Hf in Hc. by apply framework_not_runtime. }
  intros [[]|?] s _ Hs; [|done]. intros w4 Hw4. apply goes_add_frames. at_state. destruct rts as [ts|?]; [|done].
  eapply Forall_impl; [by apply Hts|]. intros t. by apply fine_same.
Qed.
End quiet.

(** *** Undisturbed *)

Lemma run_relate repoID id w : undisturbed w → UpsertRepoTags repoID [] [id] w = (Ret tt, on_state (with_rows (count_up (repoID, id))) w).
Proof. intros Hw. unfold UpsertRepoTags. by rewrite (run_gives _ _ w tt) by (by apply gives_statements). Qed.
Lemma run_matching f repoID ts w : undisturbed w → add_matching f repoID ts w = (Ret tt, on_state (with_rows (raised repoID (named_by f ts))) w).
Proof.
  revert w. induction ts as [|t ts IH]; intros w Hw; [by destruct w as [? []]|]. cbn [add_matching]. unfold named_by. rewrite filter_cons.
  destruct (checkTagName f (tg_Name t)) eqn:Ht.
  - rewrite decide_True by done. erewrite run_seq; [|erewrite run_seq; [done|by apply io_try_run, run_relate]]. by rewrite IH.
  - rewrite decide_False by done. rewrite (run_gives _ _ w tt) by done. by apply IH.
Qed.
Lemma run_add_frames ts repoID fs w : undisturbed w → NoDup (rf_ID <$> frames) → fs ⊆ frames →
  add_frames frames ts repoID fs w = (Ret tt, on_state (with_rows (λ m, foldl (λ m f, raised repoID (named_by f ts) m) m fs)) w).
Proof.
  intros Hw Hnd. revert w Hw. induction fs as [|f fs IH]; intros w Hw Hsub; [by destruct w as [? []]|]. cbn [add_frames].
  assert (found_by (λ x, rf_ID x = rf_ID f) frames = Some f) as Hf.
  { assert (f ∈ frames) as Hin by (apply Hsub; by left). destruct (found_by _ _) as [g|] eqn:Hg; [|by destruct (found_by_None _ _ Hg f)].
    apply found_by_Some in Hg as [? ?]. f_equal. by apply (keyed_eq rf_ID frames). }
  erewrite run_seq; [|apply io_try_run; unfold AddRuntimeFrameworkTag; rewrite (run_gives _ _ w f) by (by apply gives_tg_row); by apply run_matching].
  rewrite IH; [done|done|]. intros x Hx. apply Hsub. by right.
Qed.
(** The frameworks that serve a model: of one of its architectures or of its
    name, and of its format. *)
Definition serving (i : ModelInfo) (name format : bytes) : list RuntimeFramework :=
  filter (λ f, Contains (if decide (rf_ModelFormat f = []) then Safetensors else rf_ModelFormat f) format = true) (filter (λ f, rf_ID f ∈ ra_RuntimeFrameworkID <$> filter (meets (arch_names i) name) archs) frames).
Lemma count_frames (P : Tag → Prop) `{!∀ t, Decision (P t)} repoID repoID' tags t fs m : NoDup (tg_ID <$> tags) → t ∈ tags →
  count_at (repoID', tg_ID t) (foldl (λ m f, raised repoID (named_by f (filter P tags)) m) m fs) =
  count_at (repoID', tg_ID t) m + (if decide (repoID' = repoID ∧ P t) then len (filter (λ f, checkTagName f (tg_Name t) = true) fs) else 0).
Proof.
  intros Hnd Ht. revert m. induction fs as [|f fs IH]; intros m; cbn [foldl]; [case_decide; unfold len; cbn; lia|]. rewrite IH, count_raised.
  unfold named_by. rewrite (list_filter_filter (λ x, checkTagName f (tg_Name x) = true) P), count_own, filter_cons by done.
  unfold len. destruct (decide (repoID' = repoID)), (decide (P t)), (decide (checkTagName f (tg_Name t) = true)); repeat (rewrite ?decide_True, ?decide_False by (by intuition || done)); cbn [length]; try lia.
Qed.

(** C36: An undisturbed update of the runtime tags of a model, whose path and origin
    have two parts, over frameworks with unique ids: where the model's
    information names an architecture, class or type and some framework serves
    the model - by one of these names or by the model's, and in its format -,
    rows change only: each framework or resource tag of the models counts the
    frameworks that serve the model and have the tag's name in their image, tags
    of these categories of other scopes are taken from it, and every other row
    stays. Where nothing is named or no framework serves the model, the update is
    refused and changes nothing: the tags it had keep their counts. *)
Theorem runtime_tags_follow_frames i r name w : undisturbed w → tags_ok (gt_state w) → NoDup (rf_ID <$> frames) → has_slash (tp_Path r) → OriginName r = Ret name →
  let fs := serving i name (Format unicode_lower (gt_state w) r) in
  let o := UpdateRuntimeFrameworkTag like unicode_lower frames archs i r w in
  if decide (arch_names i = [] ∨ fs = []) then ∃ e, o = (Fail e, w)
  else ∃ m, o = (Ret tt, on_state (with_rows (λ _, m)) w) ∧
    ∀ repoID t, t ∈ tt_tags (gt_state w) → count_at (repoID, tg_ID t) m =
      if decide (repoID = tp_ID r ∧ tg_Category t ∈ runtime_categories) then
        if decide (tg_Scope t = ModelTagScope) then len (filter (λ f, Contains (rf_FrameImage f) (tg_Name t) = true) fs) else 0
      else count_at (repoID, tg_ID t) (tt_rows (gt_state w)).
Proof.
  intros Hw Hok Hnd (a & b & rest & Hpath)%slash_parts Hname fs o. set (s := gt_state w). set (flt := mk_filter [ModelTagScope] runtime_categories None []).
  assert (gives (getRuntimeFrameworks frames archs (arch_names i) r (Format unicode_lower s r)) w fs) as Hfs.
  { unfold getRuntimeFrameworks. eapply gives_bind; [unfold gives, gio_of, second_part; by rewrite Hpath|].
    eapply gives_bind; [unfold gives, gio_of; by rewrite Hname|]. eapply gives_bind; [by apply gives_wrap, gives_tg_read|]. by eapply gives_bind; [by apply gives_wrap, gives_tg_read|]. }
  assert (gives (io_try (store_AllTags like flt)) w (Ok (filter (passes like flt) (tt_tags s)))) as Htags by (by apply gives_try, gives_wrap, gives_tg_read).
  subst o. unfold UpdateRuntimeFrameworkTag. rewrite (run_gives _ _ w _ Htags). case_decide as Hno.
  { destruct (decide (arch_names i = [])) as [_|Harch]; [by eexists|]. destruct Hno as [?|Hnil]; [done|]. rewrite (run_gives _ _ w s) by done.
    rewrite (run_gives _ _ w fs) by (by apply gives_wrap). rewrite Hnil. by eexists. }
  apply Decidable.not_or in Hno as [Harch Hne]. rewrite decide_False by done. rewrite (run_gives _ _ w s) by done. rewrite (run_gives _ _ w fs) by (by apply gives_wrap).
  set (gone := without (tp_ID r) (tg_ID <$> filter (λ t, tg_Category t ∈ runtime_categories) (tt_tags s))).
  assert (fs ⊆ frames) as Hsub by (intros x (_ & (_ & ?)%list_elem_of_filter)%list_elem_of_filter; done).
  exists (foldl (λ m f, raised (tp_ID r) (named_by f (filter (passes like flt) (tt_tags s))) m) (gone (tt_rows s)) fs). split.
  - clear Hfs. clearbody fs. destruct fs as [|f fs]; [done|]. assert (∀ g, io_wrap g (RemoveRepoTagsByCategory (tp_ID r) runtime_categories) w = (Ret tt, on_state (with_rows gone) w)) as Hrm.
    { intros g. apply io_wrap_run. unfold RemoveRepoTagsByCategory. by rewrite (run_gives _ _ w tt) by (by apply gives_fault). }
    rewrite (run_seq _ _ _ _ _ (Hrm _)). by rewrite run_add_frames.
  - intros repoID t Ht. rewrite count_frames; [|apply Hok|done].
    assert (passes like flt t ↔ tg_Scope t = ModelTagScope ∧ tg_Category t ∈ runtime_categories) as Hp.
    { unfold passes. cbn. split; [intros ([?|?%list_elem_of_singleton] & [?|?] & _); done|]. intros [-> ?]. split_and!; [right; by left|by right|by left|by left]. }
    assert (count_at (repoID, tg_ID t) (gone (tt_rows s)) = if decide (repoID = tp_ID r ∧ tg_Category t ∈ runtime_categories) then 0 else count_at (repoID, tg_ID t) (tt_rows s)) as ->.
    { unfold count_at, gone. case_decide as Hc.
      - unfold without. rewrite map_lookup_filter_None_2; [done|]. right. intros c _ Hno. apply Hno. destruct Hc as [-> Hc]. split; [done|]. apply (list_elem_of_fmap_2 tg_ID). by apply list_elem_of_filter.
      - rewrite without_other; [done|]. cbn [fst snd]. intros (-> & (x & Heq & (Hx & Hin)%list_elem_of_filter)%list_elem_of_fmap). apply Hc. split; [done|].
        cbn in Heq. by rewrite (keyed_eq tg_ID (tt_tags s) t x ltac:(apply Hok) Ht Hin Heq). }
    destruct (decide (repoID = tp_ID r)), (decide (tg_Category t ∈ runtime_categories)), (decide (tg_Scope t = ModelTagScope));
      repeat first [rewrite decide_True by (rewrite ?Hp; done)|rewrite decide_False by (rewrite ?Hp; naive_solver)]; unfold checkTagName in *; lia.
Qed.
End tags.

(** ** Pushes and scans *)

Section models.
Variables (LOWER : bytes → bytes) (like : bytes → bytes → bool) (unicode_lower : Z → Z) (yaml_Unmarshal : bytes → option (list (bytes * yaml)))
  (range_order : list (bytes * list bytes) → list (bytes * list bytes)) (has_checker : bool) (is_sensitive : bytes → bool).
Variables (GetRepoFileRaw : bytes → bytes → bytes → bytes → bytes → option bytes) (GetMetadataFromSafetensors GetMetadataFromGGUF : tagged_repo → outcome goerr ModelInfo).
Variables (frames : list RuntimeFramework) (archs : list RuntimeArchitecture) (resource_models : list ResourceModel) (CanWrite : bytes → tagged_repo → bool).
Abbreviation meta := (UpdateModelMetadata unicode_lower GetMetadataFromSafetensors GetMetadataFromGGUF).
Abbreviation runtime := (UpdateRuntimeFrameworkTag like unicode_lower frames archs).

(** C32: In an undisturbed world a push keeps the counts of the framework tags of
    a model, dataset or prompt, whatever its commits add, remove and modify and
    whatever the tables of frameworks make of a model meanwhile: commit by commit,
    each removed file takes one from the tag it names, never below none, and then
    each added one brings one, README.md aside, which counts for none. One thing
    cuts this short: an added README.md that is refused leaves out the files that
    its commit lists after it. So where the counts were those of the repository's
    files, what commits remove was there and what they bring was not, the counts
    are those of the files afterwards. Only a reader of a model's files that
    panics keeps a push from this. *)
Theorem library_tags_count_files ty scope ns n ref repoID T full k commits w :
  getTagScopeByRepoType ty = Some scope → scope ∈ counted_scopes → split_name full = Some (ty, ns, n) → counting LOWER T scope ns n repoID k w →
  let o := UpdateRepoInfos LOWER like unicode_lower yaml_Unmarshal range_order has_checker is_sensitive GetRepoFileRaw meta runtime full ref commits w in
  fst o = Panic ∧ (∃ r, splits r ∧ ¬ reads GetMetadataFromSafetensors GetMetadataFromGGUF r) ∨
  ∃ commits', fst o = Ret tt ∧ Forall2 (handled LOWER like unicode_lower yaml_Unmarshal range_order has_checker is_sensitive GetRepoFileRaw ty ns n ref w) commits commits' ∧
    counting LOWER T scope ns n repoID (tallied unicode_lower k commits') (snd o) ∧
    ∀ files, NoDup files → commits_fit files commits' → Forall (λ t, k (tg_Name t) = files_with unicode_lower files (tg_Name t)) T →
      Forall (λ t, count_at (repoID, tg_ID t) (tt_rows (gt_state (snd o))) = files_with unicode_lower (foldl files_after files commits') (tg_Name t)) T.
Proof.
  intros Hty Hsc Hname Hw o. set (p := ∃ r, splits r ∧ ¬ reads GetMetadataFromSafetensors GetMetadataFromGGUF r).
  destruct (push_counts LOWER like unicode_lower yaml_Unmarshal range_order has_checker is_sensitive GetRepoFileRaw meta runtime p) with
    (ty := ty) (scope := scope) (ns := ns) (n := n) (ref := ref) (repoID := repoID) (T := T) (w0 := w) (full := full) (k := k) (commits := commits) (w := w)
    as [[Hp Hpanic]|(commits' & Hret & Hc & Hk)]; try done.
  - intros r w' _ Hr. apply goes_UpdateModelMetadata; [done|]. destruct Hr as [?|Hr]; [by left|]. destruct (reads_dec GetMetadataFromSafetensors GetMetadataFromGGUF r) as [?|?]; [by right|left; by exists r].
  - intros i r w' Hok Hr. by apply goes_UpdateRuntimeFrameworkTag.
  - by left.
  - right. exists commits'. split_and!; [done..|]. intros files Hnd Hfit HT. destruct Hk as (_ & _ & _ & Hk). apply Forall_forall. intros t Ht. rewrite Forall_forall in Hk, HT.
    destruct (Hk t Ht) as (_ & Heq & _). eapply eq_trans; [exact Heq|]. by apply tallied_files; [..|apply HT].
Qed.

(** *** Any history *)

Inductive model_op :=
  | OfTags (o : tag_op) | OneModel (user ns n : bytes) | AllModels (acquired released : bool) (scanType : Z) | Resources (rstags : list Tag) (modelname : bytes) (repoId : Z).
Definition run_model_op (o : model_op) : gio unit :=
  match o with
  | OfTags o => run_op LOWER like unicode_lower yaml_Unmarshal range_order has_checker is_sensitive GetRepoFileRaw meta runtime o
  | OneModel user ns n => ScanModel like unicode_lower GetMetadataFromSafetensors GetMetadataFromGGUF frames archs LOWER CanWrite user ns n
  | AllModels acquired released scanType => ScanAllModels like unicode_lower GetMetadataFromSafetensors GetMetadataFromGGUF frames archs acquired released scanType
  | Resources ts m id => AddResourceTag like resource_models ts m id
  end.
(** An operation that fails or panics leaves what it had done. *)
Definition run_model_ops (ops : list model_op) (w : tag_world) : tag_world := foldl (λ w o, snd (run_model_op o w)) w ops.
Abbreviation walks := (goes tag_step True).
Abbreviation nothing := (λ _ _, True).
Lemma still_ok w w' : tags_ok (gt_state w) → rtc tag_step (gt_state w) (gt_state w') → tags_ok (gt_state w').
Proof. intros Hok Hr. apply (rtc_fit tag_step True _ _ ltac:(done) Hr). split; [done|by left]. Qed.
Lemma walks_meta r w : walks (meta r) nothing w.
Proof. apply goes_UpdateModelMetadata; [apply st_quiet|by left]. Qed.
Lemma walks_runtime i r w : tags_ok (gt_state w) → walks (runtime i r) nothing w.
Proof. intros Hok. apply goes_UpdateRuntimeFrameworkTag; [apply st_quiet|done|by left]. Qed.
Lemma walks_model user ns n w : tags_ok (gt_state w) → walks (run_model_op (OneModel user ns n)) nothing w.
Proof.
  intros Hok. cbn [run_model_op]. unfold ScanModel. apply goes_then; [by apply goes_wrap_true, goes_path|]. intros r w1 Hr1. apply goes_then; [by apply goes_wrap_true, goes_fault|]. intros _ w2 Hr2.
  destruct (CanWrite user r); [|by go]. apply goes_then; [by apply goes_wrap_true, walks_meta|]. intros i w3 Hr3. apply goes_wrap_true, walks_runtime.
  eapply still_ok; [|exact Hr3]. eapply still_ok; [|exact Hr2]. by eapply still_ok.
Qed.
Lemma walks_each rs w : tags_ok (gt_state w) → walks (scan_each like unicode_lower GetMetadataFromSafetensors GetMetadataFromGGUF frames archs rs) nothing w.
Proof.
  revert w. induction rs as [|r rs IH]; intros w Hok; [by apply goes_ret|]. cbn [scan_each]. apply goes_then; [|intros _ w' Hr; apply IH; by eapply still_ok].
  unfold scan_repo. apply goes_then; [by apply goes_try, walks_meta|]. intros [i|e] w1 Hr1; [|by go]. apply goes_then; [|intros; by go]. apply goes_try, walks_runtime. by eapply still_ok.
Qed.
Lemma walks_batches fuel batch w : tags_ok (gt_state w) → walks (scan_batches like unicode_lower GetMetadataFromSafetensors GetMetadataFromGGUF frames archs fuel batch) nothing w.
Proof.
  revert batch w. induction fuel as [|fuel IH]; intros batch w Hok; [by apply goes_ret|]. cbn [scan_batches]. apply goes_then; [apply goes_try; unfold FindWithBatch; by go|].
  intros [[|r rs]|e] w1 Hr1; [by go| |by go]. apply goes_then; [apply walks_each; by eapply still_ok|]. intros _ w2 Hr2. apply IH. eapply still_ok; [|exact Hr2]. by eapply still_ok.
Qed.
Lemma walks_relate repoID ids w : walks (UpsertRepoTags repoID [] ids) nothing w.
Proof. unfold UpsertRepoTags. by apply walks_change; [gos|apply st_upsert]. Qed.
Lemma walks_resource m repoID ts w : walks (add_resource m repoID ts) nothing w.
Proof.
  revert w. induction ts as [|t ts IH]; intros w; [by apply goes_ret|]. cbn [add_resource]. apply goes_then; [|intros; by apply IH].
  destruct (Contains _ _); [|by go]. apply goes_then; [apply goes_try, walks_relate|intros; by go].
Qed.
Lemma walks_model_op o w : tags_ok (gt_state w) → walks (run_model_op o) nothing w.
Proof.
  intros Hok. destruct o as [o|user ns n|acquired released scanType|ts m id]; [|by apply walks_model| |]; cbn [run_model_op].
  - apply walks_op; [intros; apply walks_meta|intros; by apply walks_runtime|done].
  - unfold ScanAllModels. destruct acquired; [|by go]. apply goes_then; [by go|]. intros s w1 Hr1. apply goes_then; [apply walks_batches; by eapply still_ok|]. intros. destruct released; by go.
  - unfold AddResourceTag, FindByModelName. apply goes_then; [by go|]. intros ms w1 _. revert w1. induction ms as [|x ms IH]; intros w1; [by apply goes_ret|]. cbn [add_resources].
    apply goes_then; [apply walks_resource|intros; by apply IH].
Qed.

(** *** A scan comes to an end *)

Definition models_of (s : tag_state) : list tagged_repo := filter (λ r, tp_Type r = ModelRepo) (tt_repos s).
Lemma unlicensed_models s s' : unlicensed <$> tt_repos s' = unlicensed <$> tt_repos s → length (models_of s') = length (models_of s).
Proof.
  intros Heq. assert (∀ l l', unlicensed <$> l' = unlicensed <$> l → length (filter (λ r, tp_Type r = ModelRepo) l') = length (filter (λ r, tp_Type r = ModelRepo) l)) as Hl; [|by apply Hl].
  clear. induction l as [|r l IH]; intros [|r' l'] Heq; cbn [fmap list_fmap] in Heq; try done. injection Heq as Hid Hty Hrest Heq. rewrite !filter_cons, Hty. case_decide; cbn; auto.
Qed.
Lemma walk_models s s' : tags_ok s → rtc tag_step s s' → length (models_of s') = length (models_of s).
Proof.
  intros Hok Hr. induction Hr as [|s s1 s2 Hs Hr IH]; [done|]. rewrite IH by (by eapply step_ok). by apply unlicensed_models, step_repos.
Qed.
Lemma batch_outcome n k w : let '(o, w') := io_try (FindWithBatch n k) w in
  gt_state w' = gt_state w ∧ match o with Ret (Ok l) => l = take n (drop (n * k) (merge_sort newest_first (models_of (gt_state w)))) | Ret (Err _) => True | _ => False end.
Proof. unfold io_try, FindWithBatch, tg_read, mbind, io_bind, next_fault, io_gets. destruct w as [[|[e|] fs] s]; cbn; by split. Qed.
Abbreviation batches := (scan_batches like unicode_lower GetMetadataFromSafetensors GetMetadataFromGGUF frames archs).
Lemma batches_S fuel batch w : batches (S fuel) batch w =
  match io_try (FindWithBatch 500 batch) w with
  | (Ret (Ok (r :: rs)), w1) => (scan_each like unicode_lower GetMetadataFromSafetensors GetMetadataFromGGUF frames archs (r :: rs);; batches fuel (S batch)) w1
  | (Ret _, w1) => (Ret tt, w1) | (Fail e, w1) => (Fail e, w1) | (Panic, w1) => (Panic, w1)
  end.
Proof. cbn [scan_batches]. unfold mbind at 1, io_bind at 1. by destruct (io_try _ _) as [[[[|r rs]|e]|e|] w1]. Qed.
(** More fuel than a batch for each model changes nothing. *)
Lemma scan_fuel_enough fuel k batch w : tags_ok (gt_state w) → (length (models_of (gt_state w)) ≤ fuel + batch)%nat → batches (S fuel + k) batch w = batches (S fuel) batch w.
Proof.
  revert batch w. induction fuel as [|fuel IH]; intros batch w Hok Hlen; cbn [Nat.add]; rewrite !batches_S; pose proof (batch_outcome 500 batch w) as Ho;
    destruct (io_try (FindWithBatch 500 batch) w) as [[[[|r rs]|e]|e|] w1]; try done; destruct Ho as [Hw1 Ho].
  - exfalso. symmetry in Ho. rewrite drop_ge in Ho; [done|]. rewrite (Permutation_length (merge_sort_Permutation _ _)). lia.
  - pose proof (walks_each (r :: rs) w1 ltac:(by rewrite Hw1)) as (Hr & _). unfold mbind, io_bind. destruct (scan_each _ _ _ _ _ _ _ w1) as [[[]|e|] w2]; try done.
    cbn [fst snd] in Hr. rewrite Hw1 in Hr. apply IH; [by eapply still_ok|]. rewrite (walk_models _ _ Hok Hr). lia.
Qed.

(** C34: Whatever administrators, users, pushes and scans of models ask of the
    tags, in any order and whichever calls fail, tags keep unique ids, all of
    them given out before, and unique names within a category and scope, and no
    repository's count of a tag is negative. *)
Theorem tags_stay_consistent ops w : tags_ok (gt_state w) → tags_ok (gt_state (run_model_ops ops w)).
Proof.
  unfold run_model_ops. revert w. induction ops as [|o ops IH]; intros w Hok; [done|]. cbn [foldl]. apply IH. destruct (walks_model_op o w Hok) as (Hr & _). by eapply still_ok.
Qed.
End models.

(** ** Instances *)

Section examples.
Abbreviation lower := (λ s : bytes, s).
Abbreviation no_like := (λ _ _ : bytes, false).
Abbreviation ucl := (λ r : Z, r).
Abbreviation in_order := (λ l : list (bytes * list bytes), l).
Abbreviation no_word := (λ _ : bytes, false).
(** A model of one file, read over the server of [RtModel]. *)
Definition ex_tree (_ : tagged_repo) : list tree_answer :=
  [mk_answer (Some ([mk_file_entry (bs "config.json") (bs "config.json") (bs "file"); mk_file_entry (bs "m.safetensors") (bs "m.safetensors") (bs "file")], [])) None].
Definition ex_config : bytes := quoted (bs "{'architectures':['LlamaForCausalLM'],'model_type':'llama','hidden_size':4096,'num_hidden_layers':32,'num_attention_heads':32}").
Definition ex_url (_ : tagged_repo) (_ : bytes) : result bytes goerr := Ok (bs "u").
Definition ex_safetensors : tagged_repo → outcome goerr ModelInfo :=
  GetMetadataFromSafetensors ucl (λ _, range_server ex_content) (λ _ l, l) (λ _, 0) ex_tree ex_url (λ _ _, Ok ex_config) 2048 512.
Definition ex_gguf : tagged_repo → outcome goerr ModelInfo := GetMetadataFromGGUF ex_tree ex_url (λ _, Err ErrNoRows).
Lemma ex_reads r : splits r → reads ex_safetensors ex_gguf r.
Proof. intros (Hr & _). apply readers_panic; [done|]. intros content [= <-]. by vm_compute. Qed.
Definition rt_info : ModelInfo := match ex_safetensors ex_repo with Ret i => i | _ => no_info end.
Example ex_info : arch_names rt_info = [bs "LlamaForCausalLM"; bs "llama"] ∧ mi_TotalParams rt_info = 1600000001.
Proof. split; by vm_compute. Qed.
Definition ex_frame (id : Z) (image format : string) : RuntimeFramework := mk_rf id (bs "f") [] (bs image) (bs "gpu") [] [] 1 8000 1 [] (bs format) [] 5.
Definition ex_frames : list RuntimeFramework := [ex_frame 1 "vllm-ascend" "safetensors"; ex_frame 2 "vllm" ""; ex_frame 3 "llama.cpp" "gguf"].
Definition ex_archs : list RuntimeArchitecture := [mk_ra 1 (bs "LlamaForCausalLM") []; mk_ra 2 [] (bs "m"); mk_ra 3 (bs "llama") []].
(** A model of safetensors, with tags of runtimes. *)
Definition rt_tags : list Tag := [ex_tag 1 "safetensors" "framework" "model"; ex_tag 2 "vllm" "runtime_framework" "model"; ex_tag 3 "ascend" "resource" "model";
  ex_tag 4 "llama" "runtime_framework" "model"; ex_tag 5 "vllm" "runtime_framework" "dataset"].
Definition rt_world_ex : tag_world := mk_tgw [] (mk_tgs rt_tags 6 (<[(7, 1) := 1]> (<[(7, 4) := 1]> (<[(7, 5) := 1]> (<[(8, 4) := 1]> ∅)))) [ex_repo] [] [] 1 ∅).
Lemma rt_ok : tags_ok (gt_state rt_world_ex).
Proof. split_and!; apply (bool_decide_unpack _); by vm_compute. Qed.
Lemma ex_slash : has_slash (tp_Path ex_repo).
Proof. unfold has_slash. vm_compute. lia. Qed.
(** Two frameworks serve it; one of them for its resource, too. *)
Lemma runtime_tags_follow_frames_witness :
  rf_ID <$> serving ex_frames ex_archs rt_info (bs "m") (Format ucl (gt_state rt_world_ex) ex_repo) = [1; 2] ∧
  ∃ m, UpdateRuntimeFrameworkTag no_like ucl ex_frames ex_archs rt_info ex_repo rt_world_ex = (Ret tt, on_state (with_rows (λ _, m)) rt_world_ex) ∧
    count_at (7, 1) m = 1 ∧ count_at (7, 2) m = 2 ∧ count_at (7, 3) m = 1 ∧ count_at (7, 4) m = 0 ∧ count_at (7, 5) m = 0 ∧ count_at (8, 4) m = 1.
Proof.
  split; [by vm_compute|].
  pose proof (runtime_tags_follow_frames no_like ucl ex_frames ex_archs rt_info ex_repo (bs "m") rt_world_ex eq_refl rt_ok
    ltac:(apply (bool_decide_unpack _); by vm_compute) ex_slash ltac:(reflexivity)) as Hall.
  cbv zeta in Hall. rewrite decide_False in Hall by (intros [Hno|Hno]; vm_compute in Hno; discriminate Hno). destruct Hall as (m & Hrun & Hm).
  exists m. split; [exact Hrun|]. assert (∀ k repoID t, rt_tags !! k = Some t → count_at (repoID, tg_ID t) m = _) as Hk by (intros k repoID t Ht%list_elem_of_lookup_2; exact (Hm repoID t Ht)).
  split_and!; [refine (eq_trans (Hk 0%nat 7 _ eq_refl) _)|refine (eq_trans (Hk 1%nat 7 _ eq_refl) _)|refine (eq_trans (Hk 2%nat 7 _ eq_refl) _)|refine (eq_trans (Hk 3%nat 7 _ eq_refl) _)
    |refine (eq_trans (Hk 4%nat 7 _ eq_refl) _)|refine (eq_trans (Hk 3%nat 8 _ eq_refl) _)]; by vm_compute.
Defined.

(** Of three pytorch files one is removed again; a fourth comes after a README.md
    that is refused, and is left out. *)
Definition ex_pushed : list Commit := ex_commits ++ [mk_commit [bs "README.md"; bs "d.pt"] [] []].
Definition ex_bad_raw (_ _ _ _ _ : bytes) : option bytes := Some (bs "---old---").
Lemma library_tags_count_files_witness :
  let o := UpdateRepoInfos lower no_like ucl ex_yaml in_order true no_word ex_bad_raw (UpdateModelMetadata ucl ex_safetensors ex_gguf) (UpdateRuntimeFrameworkTag no_like ucl ex_frames ex_archs)
      (bs "models_a/m") (bs "main") ex_pushed ex_world in
  fst o = Ret tt ∧ tt_rows (gt_state (snd o)) !! (7, 1) = Some 2 ∧
  ∃ commits', Forall2 (handled lower no_like ucl ex_yaml in_order true no_word ex_bad_raw (bs "models") (bs "a") (bs "m") (bs "main") ex_world) ex_pushed commits' ∧
    counting lower [pytorch] (bs "model") (bs "a") (bs "m") 7 (tallied ucl (files_with ucl []) commits') (snd o).
Proof.
  intros o. assert (fst o = Ret tt) as Hret by (vm_compute; reflexivity). split; [exact Hret|]. split; [vm_compute; reflexivity|].
  destruct (library_tags_count_files lower no_like ucl ex_yaml in_order true no_word ex_bad_raw ex_safetensors ex_gguf ex_frames ex_archs
    (bs "models") (bs "model") (bs "a") (bs "m") (bs "main") 7 [pytorch] (bs "models_a/m") (files_with ucl []) ex_pushed ex_world eq_refl ltac:(right; by left))
    as [(Hp & _)|(commits' & _ & Hh & Hc & _)]; [vm_compute; reflexivity| | |].
  - split_and!; [done|split; [exact ex_ok|right; exact ex_splits]| |exact ex_tracked]. exists ex_repo. split; reflexivity.
  - exfalso. fold o in Hp. rewrite Hret in Hp. discriminate Hp.
  - exists commits'. split; [exact Hh|exact Hc].
Defined.
(** Changes of tags, a scan of one model and one of all, with calls that fail in
    between. *)
Lemma tags_stay_consistent_witness :
  tags_ok (gt_state rt_world_ex) ∧
  tags_ok (gt_state (run_model_ops lower no_like ucl ex_yaml in_order true no_word ex_raw ex_safetensors ex_gguf ex_frames ex_archs [] (λ _ _, true)
    ((OfTags <$> ex_ops) ++ [OneModel (bs "u") (bs "a") (bs "m"); AllModels true false 1]) (mk_tgw [None; None; None; Some ErrNoRows; None; Some ErrNoRows] (gt_state rt_world_ex)))).
Proof.
  split; [exact rt_ok|].
  exact (tags_stay_consistent lower no_like ucl ex_yaml in_order true no_word ex_raw ex_safetensors ex_gguf ex_frames ex_archs [] (λ _ _, true)
    ((OfTags <$> ex_ops) ++ [OneModel (bs "u") (bs "a") (bs "m"); AllModels true false 1]) (mk_tgw [None; None; None; Some ErrNoRows; None; Some ErrNoRows] (gt_state rt_world_ex)) rt_ok).
Defined.
(** When the tags cannot be read, a model's are taken away and none is brought. *)
Example unread_tags_are_lost :
  let w' := snd (UpdateRuntimeFrameworkTag no_like ucl ex_frames ex_archs rt_info ex_repo (mk_tgw [Some (NewError (bs "timeout"))] (gt_state rt_world_ex))) in
  count_at (7, 4) (tt_rows (gt_state w')) = 0 ∧ count_at (7, 2) (tt_rows (gt_state w')) = 0.
Proof. split; by vm_compute. Qed.
End examples.
